(* ===== verification/_CoqProject ===== *)
-Q . S2P
Prelude.v
Memblock.v
MemblockRegions.v
MemblockRange.v
MemblockFind.v
MemblockGrow.v
Buddy.v
BuddyInv.v
BuddyFree.v
BuddyAlloc.v
PageCounter.v
PageCounterRace.v
Badblocks.v
BadblocksTable.v
BadblocksUpdate.v
BadblocksExamples.v
Kfifo.v
KfifoQueue.v
KfifoUser.v
KfifoRecord.v
KfifoRace.v
KfifoExamples.v
KList.v
KListSpec.v
KListStore.v
StableSort.v
ListSort.v
ListSortSpec.v
ListSortLevels.v
ListSortStore.v
Semaphore.v
SemaphoreSpec.v
SemaphoreRun.v
HeapSort.v
Sort.v
SortSpec.v
SortProps.v
RBTree.v
RBTreeShape.v
RBTreeRep.v
RBTreeAugment.v
RBTreeInsert.v
RBTreeErase.v
RBTreeRemove.v
RBTreeCallbacks.v
RBTreeWalk.v
RBTreeProps.v
RBTreeExamples.v
RBTreeSearch.v
TimerQueue.v
VmArea.v
IntervalTree.v
IntervalTreeSpec.v
IntervalTreeProps.v
AddressSpace.v
AddressSearch.v
AddressGaps.v
AddressLink.v
AddressUnmap.v
AddressFind.v
AddressUnmapped.v
AddressPlace.v
AddressAdjust.v
AddressMap.v
AddressSplit.v
AddressMunmap.v
AddressChange.v
AddressAbsorb.v
AddressMerge.v
AddressBrk.v
AddressHeap.v
AddressProtect.v
AddressProtectSpec.v
AddressProtectLoop.v
AddressThreads.v
AddressProps.v
