(* ===== verification/Prelude.v ===== *)
(** * A verification library for the MT8512 kernel tree

    The tree under src/ is the Linux 4.9 kernel for the MediaTek MT8512, built
    for 32-bit ARM with arch/arm/configs/mt8512_defconfig.  This library models
    parts of it that can be read as sequential or interleaved code over data
    structures, and proves what makes those parts correct.

    ** How the code is modelled

    C functions are Rocq functions that pass the state explicitly. A
    function that can fail to return, or whose execution can be undefined,
    has type [outcome]: [Ret] is a return, [Bug] a BUG_ON, [Ub] an access
    outside an array or to an address with no object, [Fuel] a loop bound of
    the model that was too small. A theorem that concludes [Ret] shows that
    none of the last three happens. Loops take their fuel from the quantity
    that bounds them in the code (entries of a table, orders of the buddy
    lists, entries of the store, bytes of the array) or the theorem asks for
    enough of it (the length of the path to the root counter, the length of
    a list). Where a theorem speaks of a call that has returned, another one
    says when it returns: [rmqueue_correct] for [rmqueue_free_roundtrip],
    [try_charge_all_or_nothing] for [try_charge_within_limits].

    Integers are [Z] with the wrap-around of their C type written out
    ([u32], [u64], [s32], [s64]). Names are those of the source, including
    the leading underscores; a loop of a function has a definition of its
    own.

    Code that runs concurrently is a step relation, with one step for each
    access to shared memory, or for each critical section where a lock
    protects it, and interleaving as the union of the threads' steps; stores
    are seen in program order, as the barriers in the code ask for.

    The slab allocator ([kmalloc]) is not modelled, and the copies from and
    to user space are assembly; both are arguments, with what the code
    relies on as hypotheses of the theorems. So are the callers' comparison
    and swap functions, signals and the clock.

    ** The parts

    - Memblock (mm/memblock.c): [Memblock] has the region arrays and the
      operations on them, without the memblock_virt_alloc wrappers and the
      node-id setters; [MemblockRegions] the invariant (sorted, disjoint,
      counted) and that merging and insertion keep it; [MemblockRange] that,
      with room in the array, adding and removing a range are union and
      difference of address sets, that adding memory is also right when the
      array has to be doubled, and that a full array that may not be resized
      is left unchanged; [MemblockGrow] that adding memory with doubling
      returns; [MemblockFind] that the search for free ranges from the top
      down finds the highest fitting one and that, with a spare slot,
      allocation reserves exactly it.
    - Buddy allocator (mm/page_alloc.c): [Buddy] has the free lists of a
      zone; [BuddyInv] the invariant (aligned, disjoint, listed once,
      counted); [BuddyFree] that freeing adds exactly the freed block,
      leaves no unmerged buddies where there were none, and keeps the
      invariant; [BuddyAlloc] that allocation with its fallbacks takes
      exactly a block that was free, and that freeing it again restores the
      free set.
    - Page counters (mm/page_counter.c): [PageCounter] has hierarchical
      charging, [PageCounterRace] the lock-free race between charging and
      changing a limit.
    - Bad-block tables (block/badblocks.c): [Badblocks] has the operations
      on the page of packed entries; [BadblocksTable] the decoding and that
      checking is exact; [BadblocksUpdate] that clearing is exact and that
      setting is for requests of at most 512 blocks that touch no entry;
      [BadblocksExamples] three requests for which the code goes wrong.
    - Kernel FIFO (lib/kfifo.c): [Kfifo] has the ring buffer; [KfifoQueue]
      its refinement of a bounded queue, [KfifoRecord] of a queue of
      records, [KfifoUser] the behaviour on faults of the user copies,
      [KfifoRace] lock-free use by one reader and one writer,
      [KfifoExamples] witnesses and two overruns.
    - Linked lists (include/linux/list.h): [KList] has the pointer
      operations on a store; [KListSpec] what each does to circular lists;
      [KListStore] the refinement of operations on sequences for stores of
      many lists.
    - List sorting (lib/list_sort.c): [ListSort] has list_sort on the same
      store; [StableSort] the reference, stable insertion sort of a
      sequence; [ListSortSpec] the two merge functions; [ListSortLevels] the
      partial lists; [ListSortStore] that list_sort is the reference, for
      one list and among others.
    - Semaphores (kernel/locking/semaphore.c): [Semaphore] has the critical
      sections of down, up and their variants on the store of lists, and the
      step relation that interleaves them; [SemaphoreSpec] the invariant and
      what each critical section does; [SemaphoreRun] the accounting, the
      results of a wake-up and bounded waiting in every interleaving.  That
      a woken task runs again is left to the scheduler.
    - Array sorting and searching (lib/sort.c, lib/bsearch.c): [Sort] has
      sort and bsearch on bytes and offsets; [HeapSort] heap sort of a
      sequence and that it sorts; [SortSpec] that the loops on offsets are
      those on indices; [SortProps] that sort sorts and that bsearch finds
      what it sorted, for arrays of at most a gigabyte, beyond which the
      doubled offset in sort can overflow an int.
    - Red-black trees (lib/rbtree.c, include/linux/rbtree.h,
      rbtree_augmented.h): [RBTree] has all operations on a store of nodes,
      with the mirror-image branches of the rebalancing loops written once;
      [RBTreeShape] the trees, their contexts and the balance conditions;
      [RBTreeRep] how a tree is laid out in the store and the execution of
      the code against that layout; [RBTreeAugment] the interface to the
      callbacks of augmented trees, against which [RBTreeInsert],
      [RBTreeErase] and [RBTreeRemove] verify insertion, rebalancing and
      erasure; [RBTreeCallbacks] its instances, the dummy callbacks and
      RB_DECLARE_CALLBACKS; [RBTreeWalk] the walks and replacement;
      [RBTreeProps] that any sequence of calls keeps a red-black tree with
      the right sequence of nodes and logarithmic height, that augmented
      trees keep their values and that the walks follow the sequence;
      [RBTreeExamples] witnesses.  Walks that run while the tree is changed
      are not modelled.
    - Timer queues (lib/timerqueue.c, include/linux/timerqueue.h):
      [RBTreeSearch] has the way down an ordered tree to the place of a new
      node, shared by the users of the trees; [TimerQueue] the queue on the
      red-black trees and that any sequence of calls behaves like a priority
      queue that keeps timers of the same expiry in order.
    - Interval trees (include/linux/interval_tree_generic.h,
      mm/interval_tree.c): [IntervalTree] has the functions of the template
      INTERVAL_TREE_DEFINE for any start and end of an entry,
      vma_interval_tree_insert_after, and the trees of file mappings and of
      anonymous memory as instances; [IntervalTreeSpec] the subtree maxima,
      as an instance of the interface of augmented trees, and the searches;
      [IntervalTreeProps] that insertions and removals keep the maxima
      right, so that after any sequence of calls a query visits exactly the
      entries that intersect its range, in order.
    - Address spaces (mm/mmap.c, mm/mprotect.c, mm/util.c, mm/vmacache.c,
      arch/arm/mm/mmap.c): [VmArea] has the mapped areas, which the interval
      trees share; [AddressSpace] an address space, with linking, detaching
      and freeing of areas; [AddressSearch] the caches of the tasks, lookup
      and the searches for a free range; [AddressAdjust] __vma_adjust,
      merging, splitting and do_munmap.  [AddressGaps] has the invariant
      (list, tree and gaps agree, areas are disjoint and in order),
      [AddressLink] and [AddressUnmap] that linking and unmapping keep it;
      [AddressFind] that a lookup is right whatever the cache holds;
      [AddressUnmapped] and [AddressPlace] where the searches for a free
      range end; [AddressMap] what each address is mapped to, [AddressSplit]
      that splitting does not change it, [AddressMunmap] that do_munmap
      removes exactly its range.  [AddressChange] and [AddressAbsorb] show
      what __vma_adjust does when an area grows into a gap, when the
      boundary between two areas moves and when an area grows over one or
      two others or gives way to the next; [AddressMerge] puts these
      together to the eight cases of vma_merge.  [AddressBrk] has
      get_unmapped_area, the limits, do_brk and the brk system call,
      [AddressHeap] what they do to the mappings.  [AddressProtect] has the
      mprotect system call, [AddressProtectSpec] what mprotect_fixup does to
      an area (merge or split, then the flags) and [AddressProtectLoop] the
      loop over the areas, whose fuel is the number of pages of the range,
      and the call.  A page that mprotect gives a protection can lose its
      close operation, since vma_merge looks for one only in the neighbour:
      the specification allows this exactly where such a neighbour exists.
      [AddressThreads] runs several threads that look up, unmap, protect and
      move the heap against an abstract machine, which may refuse a call
      only for its arguments, the mappings, or want of what the call needs
      in the state it is made in; and [AddressProps] has the properties and
      their examples.

    ** Not modelled

    Most of the tree is not modelled:
    device drivers and architecture code work on hardware that has no model
    here; scheduling, RCU and the lock implementations need the memory model of
    the processor; file systems, networking and most of virtual memory build on those.
    Within the parts above, what is left out is named in the file that models
    the part.  Next in line are the bitmap
    library and the users of the lists and trees modelled here. *)
From Stdlib Require Import ZArith Lia Bool.
From stdpp Require Import base numbers list.

#[global] Open Scope Z_scope.

(** ** Machine integers

    The tree is built for 32-bit ARM (arch/arm/configs/mt8512_defconfig), so
    [unsigned int], [unsigned long], [phys_addr_t] and pointers are 32 bits
    wide and [u64]/[unsigned long long] are 64 bits wide.  A [w]-bit unsigned
    value is an integer in [0, 2^w); arithmetic is done in [Z] and wrapped
    where the C expression wraps. *)

Definition wrap (w z : Z) : Z := z mod 2 ^ w.
Abbreviation u8 := (wrap 8).
Abbreviation u16 := (wrap 16).
Abbreviation u32 := (wrap 32).
Abbreviation u64 := (wrap 64).

(** Two's complement reading of the low [w] bits. *)
Definition swrap (w z : Z) : Z :=
  let r := z mod 2 ^ w in if r <? 2 ^ (w - 1) then r else r - 2 ^ w.
Abbreviation s32 := (swrap 32).
Abbreviation s64 := (swrap 64).

Definition U32_MAX : Z := 4294967295.
Definition U64_MAX : Z := 18446744073709551615.
Definition LONG_MAX : Z := 2147483647.
Definition PAGE_SHIFT : Z := 12.
Definition PAGE_SIZE : Z := 4096.
Definition PAGE_ALIGN (x : Z) : Z := Z.land (u32 (x + (PAGE_SIZE - 1))) (u32 (Z.lnot (PAGE_SIZE - 1))).

(** Error numbers (include/uapi/asm-generic/errno-base.h, errno.h). *)
Definition ENOENT : Z := 2.
Definition EINTR : Z := 4.
Definition EAGAIN : Z := 11.
Definition ENOMEM : Z := 12.
Definition EFAULT : Z := 14.
Definition EBUSY : Z := 16.
Definition EINVAL : Z := 22.
Definition ENOSPC : Z := 28.
Definition ERANGE : Z := 34.

(** [fls]: one plus the position of the highest set bit. *)
Definition fls (x : Z) : Z := if x =? 0 then 0 else Z.log2 x + 1.

Definition in_u (w z : Z) : Prop := 0 <= z < 2 ^ w.

Lemma wrap_small w z : in_u w z -> wrap w z = z.
Proof. intros H. apply Z.mod_small, H. Qed.

Lemma wrap_range w z : 0 <= w -> in_u w (wrap w z).
Proof. intros H. apply Z.mod_pos_bound. lia. Qed.

Lemma u32_small z : 0 <= z <= U32_MAX -> u32 z = z.
Proof. unfold U32_MAX. intros H. apply wrap_small. unfold in_u. lia. Qed.

Lemma u64_small z : 0 <= z <= U64_MAX -> u64 z = z.
Proof. unfold U64_MAX. intros H. apply wrap_small. unfold in_u. lia. Qed.

Lemma u32_range z : 0 <= u32 z <= U32_MAX.
Proof. unfold U32_MAX. pose proof (wrap_range 32 z). unfold in_u in *. lia. Qed.

Lemma u32_add_l x d : u32 (u32 x + d) = u32 (x + d).
Proof. unfold wrap. apply Zplus_mod_idemp_l. Qed.

Lemma u32_sub_l x d : u32 (u32 x - d) = u32 (x - d).
Proof. unfold wrap. apply Zminus_mod_idemp_l. Qed.

Lemma s32_small z : - 2 ^ 31 <= z < 2 ^ 31 -> s32 z = z.
Proof.
  intros H. unfold swrap. destruct (Z.ltb_spec (z mod 2 ^ 32) (2 ^ (32 - 1))).
  - destruct (Z.neg_nonneg_cases z).
    + assert (z mod 2 ^ 32 = z + 2 ^ 32) as E.
      { rewrite <- (Z.mod_small (z + 2 ^ 32) (2 ^ 32)) by lia.
        rewrite <- Zplus_mod_idemp_r, Z_mod_same_full. f_equal. lia. }
      lia.
    + apply Z.mod_small. lia.
  - destruct (Z.neg_nonneg_cases z).
    + assert (z mod 2 ^ 32 = z + 2 ^ 32) as E.
      { rewrite <- (Z.mod_small (z + 2 ^ 32) (2 ^ 32)) by lia.
        rewrite <- Zplus_mod_idemp_r, Z_mod_same_full. f_equal. lia. }
      lia.
    + rewrite Z.mod_small in * by lia. lia.
Qed.

(** ** Outcomes of C code

    [Ret]: the function returned.  [Bug]: a [BUG_ON]/[panic] fired.  [Ub]: an
    access outside an array, which C leaves undefined.  [Fuel]: the bound on a
    loop or recursion given to the model was too small; every theorem that says
    a function returns proves that it is not reached. *)
Inductive outcome (A : Type) : Type :=
| Ret (a : A)
| Bug
| Ub
| Fuel.
Arguments Ret {A} a.
Arguments Bug {A}.
Arguments Ub {A}.
Arguments Fuel {A}.

Definition obind {A B} (m : outcome A) (k : A -> outcome B) : outcome B :=
  match m with
  | Ret a => k a
  | Bug => Bug
  | Ub => Ub
  | Fuel => Fuel
  end.

Declare Scope kernel_scope.
Delimit Scope kernel_scope with kernel.
Notation "'let*' x ':=' m 'in' k" := (obind m (fun x => k))
  (at level 10, x pattern, m at level 100, k at level 200) : kernel_scope.
Notation "'BUG_ON' b ';;' k" := (if b then Bug else k)
  (at level 10, b at level 9, k at level 200) : kernel_scope.
#[global] Open Scope kernel_scope.

Lemma filter_none {A} (P : A -> Prop) `{!forall x, Decision (P x)} (l : list A) : (forall z, z ∈ l -> ~ P z) -> filter P l = [].
Proof.
  induction l as [|x l IH]; intros Hl; [done|]. rewrite filter_cons, decide_False by (apply Hl; left).
  apply IH. intros z Hz. apply Hl. by right.
Qed.

Lemma filter_all {A} (P : A -> Prop) `{!forall x, Decision (P x)} (l : list A) : Forall P l -> filter P l = l.
Proof. induction 1 as [|x l Hx _ IH]; [done|]. by rewrite filter_cons, decide_True, IH. Qed.

Lemma obind_assoc {A B C} (m : outcome A) (f : A -> outcome B) (g : B -> outcome C) :
  obind (obind m f) g = obind m (fun x => obind (f x) g).
Proof. by destruct m. Qed.

Lemma obind_Ret {A B} (m : outcome A) (k : A -> outcome B) b :
  obind m k = Ret b -> exists a, m = Ret a /\ k a = Ret b.
Proof. destruct m; simpl; intros H; try discriminate. eauto. Qed.

(** What a call that is known to return returned. *)
Definition ret_or {A} (d : A) (m : outcome A) : A := match m with Ret a => a | _ => d end.

(** Array access: out of range is undefined behaviour. *)
Definition arr_get {A} (a : list A) (i : nat) : outcome A :=
  match a !! i with
  | Some x => Ret x
  | None => Ub
  end.

Definition arr_set {A} (a : list A) (i : nat) (x : A) : outcome (list A) :=
  if bool_decide (i < length a)%nat then Ret (<[i := x]> a) else Ub.

(** [memmove (&a[d], &a[s], n * sizeof( *a))]. *)
Definition memmove {A} (a : list A) (d s n : nat) : outcome (list A) :=
  if bool_decide (s + n <= length a)%nat && bool_decide (d + n <= length a)%nat
  then Ret (take d a ++ take n (drop s a) ++ drop (d + n) a)
  else Ub.

Lemma arr_get_Some {A} (a : list A) i x : a !! i = Some x -> arr_get a i = Ret x.
Proof. unfold arr_get. by intros ->. Qed.

Lemma arr_set_lt {A} (a : list A) i x :
  (i < length a)%nat -> arr_set a i x = Ret (<[i := x]> a).
Proof. intros H. unfold arr_set. by rewrite bool_decide_eq_true_2. Qed.

Lemma memmove_in {A} (a : list A) d s n :
  (s + n <= length a)%nat -> (d + n <= length a)%nat ->
  memmove a d s n = Ret (take d a ++ take n (drop s a) ++ drop (d + n) a).
Proof. intros H1 H2. unfold memmove. by rewrite !bool_decide_eq_true_2. Qed.

#[global] Arguments wrap : simpl never.
#[global] Arguments swrap : simpl never.
Lemma arr_set_middle {A} (l1 : list A) x y l2 :
  arr_set (l1 ++ x :: l2) (length l1) y = Ret (l1 ++ y :: l2).
Proof.
  rewrite arr_set_lt by (rewrite length_app; simpl; lia).
  by rewrite insert_app_r_alt, Nat.sub_diag by lia.
Qed.

Lemma arr_get_at {A} (l1 : list A) x l2 n : n = length l1 -> arr_get (l1 ++ x :: l2) n = Ret x.
Proof. intros ->. by apply arr_get_Some, list_lookup_middle. Qed.

Lemma arr_set_at {A} (l1 : list A) x y l2 n : n = length l1 ->
  arr_set (l1 ++ x :: l2) n y = Ret (l1 ++ y :: l2).
Proof. intros ->. apply arr_set_middle. Qed.

#[global] Arguments arr_get : simpl never.
#[global] Arguments arr_set : simpl never.
#[global] Arguments memmove : simpl never.

(** ** Tactics *)

(** Break one boolean comparison of the code and keep what it says. *)
Ltac cmp :=
  match goal with
  | |- context [?a <? ?b] => destruct (Z.ltb_spec a b)
  | |- context [?a <=? ?b] => destruct (Z.leb_spec a b)
  | |- context [?a =? ?b] => destruct (Z.eqb_spec a b)
  | |- context [?a >? ?b] => rewrite (Z.gtb_ltb a b); destruct (Z.ltb_spec b a)
  | |- context [?a >=? ?b] => rewrite (Z.geb_leb a b); destruct (Z.leb_spec b a)
  | |- context [(?a <? ?b)%nat] => destruct (Nat.ltb_spec a b)
  | |- context [(?a <=? ?b)%nat] => destruct (Nat.leb_spec a b)
  | |- context [(?a =? ?b)%nat] => destruct (Nat.eqb_spec a b)
  end.

(** [H : (let* x := m in k) = Ret r]: [m] returned, as pattern [p]. *)
Tactic Notation "bind_in" hyp(H) "as" simple_intropattern(p) "eqn" ident(E) :=
  match type of H with
  | obind ?m _ = Ret _ =>
      destruct m as [p| | |] eqn:E; try discriminate H; cbn [obind] in H
  end.

(** ** Bit operations as arithmetic *)

Lemma land_wrap w x y : 0 <= w -> 0 <= x < 2 ^ w -> Z.land x (wrap w y) = Z.land x y.
Proof.
  intros Hw Hx. unfold wrap. rewrite <- Z.land_ones by done.
  rewrite (Z.land_comm y), Z.land_assoc, Z.land_ones, Z.mod_small; done.
Qed.

Lemma land_lnot_ones x j : 0 <= j -> Z.land x (Z.lnot (2 ^ j - 1)) = x - x mod 2 ^ j.
Proof.
  intros Hj. replace (2 ^ j - 1) with (Z.ones j) by (rewrite Z.ones_equiv; lia).
  rewrite <- Z.ldiff_land, Z.ldiff_ones_r by done.
  rewrite Z.shiftl_mul_pow2, Z.shiftr_div_pow2 by done.
  pose proof (Z.div_mod x (2 ^ j) ltac:(lia)). lia.
Qed.

(** Rounding up to a whole page *)
Lemma page_align_up x : 0 <= x -> x + PAGE_SIZE <= U32_MAX -> x <= PAGE_ALIGN x < x + PAGE_SIZE /\ PAGE_ALIGN x mod PAGE_SIZE = 0.
Proof.
  unfold PAGE_SIZE. intros H0 H1. unfold PAGE_ALIGN, PAGE_SIZE. rewrite u32_small by lia.
  rewrite land_wrap by (unfold U32_MAX in *; lia). change 4096 with (2 ^ 12). rewrite land_lnot_ones by lia.
  pose proof (Z.mod_pos_bound (x + (2 ^ 12 - 1)) (2 ^ 12)). split; [lia|].
  rewrite Zminus_mod, Z.mod_mod, Z.sub_diag by lia. done.
Qed.

(** Disjoint bits add up. *)
Lemma lor_shift_add x y n : 0 <= n -> 0 <= x < 2 ^ n -> Z.lor x (2 ^ n * y) = x + 2 ^ n * y.
Proof.
  intros Hn Hx. rewrite (Z.mul_comm (2 ^ n)), <- Z.shiftl_mul_pow2 by lia.
  symmetry. apply Z.add_nocarry_lor. apply Z.bits_inj'. intros i Hi.
  rewrite Z.land_spec, Z.bits_0. destruct (Z.lt_ge_cases i n).
  - rewrite Z.shiftl_spec_low by done. apply andb_false_r.
  - replace x with (x mod 2 ^ n) by (apply Z.mod_small; lia).
    rewrite Z.mod_pow2_bits_high by lia. done.
Qed.

Lemma swrap_mod w z : 0 < w -> swrap w (z mod 2 ^ w) = swrap w z.
Proof. intros H. unfold swrap. by rewrite Z.mod_mod by lia. Qed.

(** Flipping and clearing one bit. *)
Lemma pow2_testbit n i : 0 <= n -> Z.testbit (2 ^ n) i = bool_decide (i = n).
Proof.
  intros Hn. case_bool_decide as E; [subst; by apply Z.pow2_bits_true|].
  apply Z.pow2_bits_false. lia.
Qed.

Lemma lxor_pow2 x n : 0 <= n ->
  Z.lxor x (2 ^ n) = if Z.testbit x n then x - 2 ^ n else x + 2 ^ n.
Proof.
  intros Hn. destruct (Z.testbit x n) eqn:E.
  - rewrite Z.sub_nocarry_ldiff.
    + apply Z.bits_inj'. intros i Hi. rewrite Z.lxor_spec, Z.ldiff_spec, pow2_testbit by done.
      case_bool_decide; subst; rewrite ?E; by destruct (Z.testbit x _).
    + apply Z.bits_inj'. intros i Hi. rewrite Z.ldiff_spec, Z.bits_0, pow2_testbit by done.
      case_bool_decide; subst; by rewrite ?E.
  - rewrite Z.add_nocarry_lxor; [done|].
    apply Z.bits_inj'. intros i Hi. rewrite Z.land_spec, Z.bits_0, pow2_testbit by done.
    case_bool_decide; subst; rewrite ?E; [done|]. apply andb_false_r.
Qed.

Lemma land_lxor_pow2 x n : 0 <= n ->
  Z.land (Z.lxor x (2 ^ n)) x = if Z.testbit x n then x - 2 ^ n else x.
Proof.
  intros Hn. replace (Z.land (Z.lxor x (2 ^ n)) x) with (Z.ldiff x (2 ^ n)).
  - destruct (Z.testbit x n) eqn:E.
    + rewrite Z.sub_nocarry_ldiff; [done|].
      apply Z.bits_inj'. intros i Hi. rewrite Z.ldiff_spec, Z.bits_0, pow2_testbit by done.
      case_bool_decide; subst; by rewrite ?E.
    + apply Z.bits_inj'. intros i Hi. rewrite Z.ldiff_spec, pow2_testbit by done.
      case_bool_decide; subst; rewrite ?E; [done|]. apply andb_true_r.
  - apply Z.bits_inj'. intros i Hi.
    rewrite Z.ldiff_spec, Z.land_spec, Z.lxor_spec, pow2_testbit by done.
    case_bool_decide; by destruct (Z.testbit x i).
Qed.

Lemma testbit_mul_pow2 k n : 0 <= n -> Z.testbit (k * 2 ^ n) n = Z.odd k.
Proof.
  intros Hn. rewrite <- Z.shiftl_mul_pow2, Z.shiftl_spec, Z.sub_diag by lia. apply Z.bit0_odd.
Qed.

Lemma swrap_range w z : 0 < w -> - 2 ^ (w - 1) <= swrap w z < 2 ^ (w - 1).
Proof.
  intros H. unfold swrap. pose proof (Z.mod_pos_bound z (2 ^ w) ltac:(apply Z.pow_pos_nonneg; lia)).
  assert (2 ^ w = 2 * 2 ^ (w - 1)) as E by (rewrite <- Z.pow_succ_r by lia; f_equal; lia).
  cmp; lia.
Qed.

Lemma wrap_swrap w z : 0 < w -> wrap w (swrap w z) = wrap w z.
Proof.
  intros H. unfold swrap, wrap. cmp; [by rewrite Z.mod_mod by lia|].
  rewrite <- (Z.mul_1_l (2 ^ w)) at 2. rewrite <- Z.add_opp_r, <- Z.mul_opp_l.
  by rewrite Z.mod_add, Z.mod_mod by lia.
Qed.

Lemma swrap_wrap w z : 0 < w -> swrap w (wrap w z) = swrap w z.
Proof. apply swrap_mod. Qed.

Lemma swrap_swrap_add w x d : 0 < w -> swrap w (swrap w x + d) = swrap w (x + d).
Proof.
  intros H. rewrite <- (swrap_mod w (swrap w x + d)), <- (swrap_mod w (x + d)) by done. f_equal.
  rewrite <- Zplus_mod_idemp_l. fold (wrap w (swrap w x)). rewrite wrap_swrap by done.
  unfold wrap. by rewrite Zplus_mod_idemp_l.
Qed.

(** ** Lists *)

Lemma bfilter_none {A} (f : A -> bool) (l : list A) :
  (forall i x, l !! i = Some x -> f x = false) -> List.filter f l = [].
Proof.
  induction l as [|x l IH]; intros H; [done|]. simpl. rewrite (H 0%nat x eq_refl).
  apply IH. intros i y Hy. by apply (H (S i)).
Qed.

Lemma bfilter_elem {A} (f : A -> bool) (l : list A) x : x ∈ List.filter f l <-> x ∈ l /\ f x = true.
Proof. rewrite !list_elem_of_In. apply filter_In. Qed.

(** [memmove] that closes and opens a gap. *)
Lemma memmove_close {A} (l1 gap l2 rest : list A) :
  memmove (l1 ++ gap ++ l2 ++ rest) (length l1) (length l1 + length gap) (length l2)
  = Ret (l1 ++ l2 ++ drop (length l1 + length l2) (l1 ++ gap ++ l2 ++ rest)).
Proof.
  rewrite memmove_in by (rewrite !length_app; lia). rewrite take_app_length.
  rewrite (app_assoc l1 gap), <- length_app, drop_app_length, take_app_length. done.
Qed.

Lemma memmove_open {A} (l1 l2 : list A) y rest :
  memmove (l1 ++ l2 ++ y :: rest) (length l1 + 1) (length l1) (length l2)
  = Ret (take (length l1 + 1) (l1 ++ l2 ++ y :: rest) ++ l2 ++ rest).
Proof.
  rewrite memmove_in by (rewrite !length_app; simpl; lia). rewrite drop_app_length, take_app_length.
  f_equal. f_equal. f_equal. change (y :: rest) with ([y] ++ rest). rewrite (app_assoc l1 l2), app_assoc.
  replace (length l1 + 1 + length l2)%nat with (length ((l1 ++ l2) ++ [y])) by (rewrite !length_app; simpl; lia).
  apply drop_app_length.
Qed.

Lemma forallb_false {A} (f : A -> bool) (l : list A) :
  forallb f l = false -> exists x, x ∈ l /\ f x = false.
Proof.
  induction l as [|x l IH]; simpl; [done|]. intros H. apply andb_false_iff in H as [H|H].
  - exists x. split; [apply elem_of_cons; by left|done].
  - destruct (IH H) as (y & Hy & ?). exists y. split; [apply elem_of_cons; by right|done].
Qed.
