(* ===== verification/Memblock.v ===== *)
(** * Memblock: the boot-time physical memory map (mm/memblock.c)

    The region arrays of mm/memblock.c and the operations that change them:
    insertion, removal, merging, range addition and removal, isolation, flag
    changes, array doubling, the free-range iterators, the search for a free
    area and the allocation entry points; the memblock_virt_alloc wrappers and
    the node-id setters are left out.  Theorems about these definitions are
    in the files MemblockRegions, MemblockRange, MemblockFind and MemblockGrow. *)
From Stdlib Require Import ZArith Lia Bool.
From stdpp Require Import base numbers list.
From S2P Require Import Prelude.

(** ** Data *)

Definition MEMBLOCK_NONE : Z := 0.
Definition MEMBLOCK_HOTPLUG : Z := 1.
Definition MEMBLOCK_MIRROR : Z := 2.
Definition MEMBLOCK_NOMAP : Z := 4.
Definition INIT_MEMBLOCK_REGIONS : nat := 128.
Definition SMP_CACHE_BYTES : Z := 64.
Definition NUMA_NO_NODE : Z := -1.
Definition MAX_NUMNODES : Z := 1.
Definition MEMBLOCK_ALLOC_ACCESSIBLE : Z := 0.
Definition MEMBLOCK_ALLOC_ANYWHERE : Z := U32_MAX.

(** [struct memblock_region]; CONFIG_HAVE_MEMBLOCK_NODE_MAP is off, so there is
    no [nid] field and [sizeof (struct memblock_region)] is 12. *)
Record memblock_region := mk_region {
  rg_base : Z;
  rg_size : Z;
  rg_flags : Z
}.

Definition sizeof_region : Z := 12.

(** [struct memblock_type].  [mt_regions] is the whole array, [mt_max] slots
    of which the first [mt_cnt] are in use; [mt_pa] is the physical address of
    an array that was allocated, [None] for the static initial one. *)
Record memblock_type := mk_type {
  mt_cnt : nat;
  mt_max : nat;
  mt_total_size : Z;
  mt_regions : list memblock_region;
  mt_pa : option Z
}.

(** [struct memblock] with the file-scope variables of memblock.c. *)
Record memblock := mk_memblock {
  mb_current_limit : Z;
  mb_memory : memblock_type;
  mb_reserved : memblock_type;
  mb_has_mirror : bool;
  mb_can_resize : bool;
  mb_memory_in_slab : bool;
  mb_reserved_in_slab : bool
}.

Definition zero_region : memblock_region := mk_region 0 0 0.

Definition memblock_type_init : memblock_type :=
  mk_type 1 INIT_MEMBLOCK_REGIONS 0 (replicate INIT_MEMBLOCK_REGIONS zero_region) None.

Definition memblock_init : memblock :=
  mk_memblock MEMBLOCK_ALLOC_ANYWHERE memblock_type_init memblock_type_init
    false false false false.

(** Which of the two arrays a [struct memblock_type *] argument points to. *)
Inductive which := Memory | Reserved.
#[export] Instance which_eq_dec : EqDecision which.
Proof. solve_decision. Defined.

Definition get_type (w : which) (mb : memblock) : memblock_type :=
  match w with Memory => mb_memory mb | Reserved => mb_reserved mb end.

Definition set_type (w : which) (t : memblock_type) (mb : memblock) : memblock :=
  match w with
  | Memory => mk_memblock (mb_current_limit mb) t (mb_reserved mb) (mb_has_mirror mb)
                (mb_can_resize mb) (mb_memory_in_slab mb) (mb_reserved_in_slab mb)
  | Reserved => mk_memblock (mb_current_limit mb) (mb_memory mb) t (mb_has_mirror mb)
                (mb_can_resize mb) (mb_memory_in_slab mb) (mb_reserved_in_slab mb)
  end.

Definition in_slab (w : which) (mb : memblock) : bool :=
  match w with Memory => mb_memory_in_slab mb | Reserved => mb_reserved_in_slab mb end.

Definition set_in_slab (w : which) (b : bool) (mb : memblock) : memblock :=
  match w with
  | Memory => mk_memblock (mb_current_limit mb) (mb_memory mb) (mb_reserved mb)
                (mb_has_mirror mb) (mb_can_resize mb) b (mb_reserved_in_slab mb)
  | Reserved => mk_memblock (mb_current_limit mb) (mb_memory mb) (mb_reserved mb)
                (mb_has_mirror mb) (mb_can_resize mb) (mb_memory_in_slab mb) b
  end.

Definition set_has_mirror (mb : memblock) : memblock :=
  mk_memblock (mb_current_limit mb) (mb_memory mb) (mb_reserved mb) true
    (mb_can_resize mb) (mb_memory_in_slab mb) (mb_reserved_in_slab mb).

(** ** Address arithmetic *)

(** [round_up] and [round_down] of include/linux/kernel.h on [phys_addr_t]. *)
Definition round_up (x y : Z) : Z := u32 (Z.lor (u32 (x - 1)) (u32 (y - 1)) + 1).
Definition round_down (x y : Z) : Z := Z.land x (u32 (Z.lnot (u32 (y - 1)))).
Definition clamp (val lo hi : Z) : Z := Z.min (Z.max val lo) hi.
Definition PFN_UP (x : Z) : Z := Z.shiftr (u32 (x + PAGE_SIZE - 1)) PAGE_SHIFT.
Definition PFN_DOWN (x : Z) : Z := Z.shiftr x PAGE_SHIFT.

Definition rg_end (r : memblock_region) : Z := u32 (rg_base r + rg_size r).

Definition memblock_cap_size (base size : Z) : Z := Z.min size (u32 (U32_MAX - base)).

Definition memblock_addrs_overlap (base1 size1 base2 size2 : Z) : bool :=
  (base1 <? u32 (base2 + size2)) && (base2 <? u32 (base1 + size1)).

(** The loop of [memblock_overlaps_region] over [regions[i..cnt)]. *)
Fixpoint overlaps_loop (rs : list memblock_region) (base size : Z) : bool :=
  match rs with
  | [] => false
  | r :: rs' =>
      if memblock_addrs_overlap base size (rg_base r) (rg_size r) then true
      else overlaps_loop rs' base size
  end.

Definition memblock_overlaps_region (t : memblock_type) (base size : Z) : bool :=
  overlaps_loop (take (mt_cnt t) (mt_regions t)) base size.

(** ** Array primitives *)

Definition memblock_remove_region (t : memblock_type) (r : nat) : outcome memblock_type :=
  let* rg := arr_get (mt_regions t) r in
  let total := u32 (mt_total_size t - rg_size rg) in
  let* a := memmove (mt_regions t) r (r + 1) (mt_cnt t - (r + 1)) in
  let cnt := (mt_cnt t - 1)%nat in
  if (cnt =? 0)%nat then
    let* a' := arr_set a 0 (mk_region 0 0 0) in
    Ret (mk_type 1 (mt_max t) total a' (mt_pa t))
  else Ret (mk_type cnt (mt_max t) total a (mt_pa t)).

Definition memblock_insert_region (t : memblock_type) (idx : nat) (base size flags : Z)
    : outcome memblock_type :=
  BUG_ON (mt_max t <=? mt_cnt t)%nat ;;
  let* a := memmove (mt_regions t) (idx + 1) idx (mt_cnt t - idx) in
  let* a' := arr_set a idx (mk_region base size flags) in
  Ret (mk_type (mt_cnt t + 1) (mt_max t) (u32 (mt_total_size t + size)) a' (mt_pa t)).

(** The [while (i < type->cnt - 1)] loop of [memblock_merge_regions]; each turn
    either advances [i] or decrements [cnt], so [cnt] turns are enough. *)
Fixpoint merge_loop (fuel : nat) (t : memblock_type) (i : nat) : outcome memblock_type :=
  match fuel with
  | O => Fuel
  | S fuel' =>
      if (i <? mt_cnt t - 1)%nat then
        let* this := arr_get (mt_regions t) i in
        let* next := arr_get (mt_regions t) (i + 1) in
        if negb (rg_end this =? rg_base next) || negb (rg_flags this =? rg_flags next) then
          BUG_ON (rg_base next <? rg_end this) ;; merge_loop fuel' t (i + 1)
        else
          let* a := arr_set (mt_regions t) i
                      (mk_region (rg_base this) (u32 (rg_size this + rg_size next))
                         (rg_flags this)) in
          let* a' := memmove a (i + 1) (i + 2) (mt_cnt t - (i + 2)) in
          merge_loop fuel'
            (mk_type (mt_cnt t - 1) (mt_max t) (mt_total_size t) a' (mt_pa t)) i
      else Ret t
  end.

Definition memblock_merge_regions (t : memblock_type) : outcome memblock_type :=
  merge_loop (mt_cnt t) t 0.

(** ** Adding and removing ranges

    [memblock_add_range] and [memblock_isolate_range] call
    [memblock_double_array], which calls back into them to free the old array
    and to reserve the new one.  The operations are therefore written over the
    doubling function [dbl] they call; the recursion is closed below with a
    bound on its depth. *)
Definition dbl_fn : Type := which -> Z -> Z -> memblock -> outcome (Z * memblock).

(** [while (type->cnt + extra > type->max) if (memblock_double_array (...) < 0)
    return -ENOMEM;] *)
Fixpoint ensure_room (fuel : nat) (dbl : dbl_fn) (w : which) (extra : nat)
    (base size : Z) (mb : memblock) : outcome (Z * memblock) :=
  match fuel with
  | O => Fuel
  | S fuel' =>
      let t := get_type w mb in
      if (mt_max t <? mt_cnt t + extra)%nat then
        let* (ret, mb') := dbl w base size mb in
        if ret <? 0 then Ret (- ENOMEM, mb')
        else ensure_room fuel' dbl w extra base size mb'
      else Ret (0, mb)
  end.

(** The [for_each_memblock_type] loop of [memblock_add_range]: returns the
    type, the index, the lower end of what is left to cover and [nr_new]. *)
Fixpoint add_scan (fuel : nat) (insert : bool) (t : memblock_type) (idx : nat)
    (base end_ flags : Z) (nr_new : nat) : outcome (memblock_type * nat * Z * nat) :=
  match fuel with
  | O => Fuel
  | S fuel' =>
      if (idx <? mt_cnt t)%nat then
        let* rgn := arr_get (mt_regions t) idx in
        let rbase := rg_base rgn in
        let rend := rg_end rgn in
        if end_ <=? rbase then Ret (t, idx, base, nr_new)
        else if rend <=? base then add_scan fuel' insert t (idx + 1) base end_ flags nr_new
        else if base <? rbase then
          if insert then
            let* t' := memblock_insert_region t idx base (u32 (rbase - base)) flags in
            add_scan fuel' insert t' (idx + 2) (Z.min rend end_) end_ flags (nr_new + 1)
          else add_scan fuel' insert t (idx + 1) (Z.min rend end_) end_ flags (nr_new + 1)
        else add_scan fuel' insert t (idx + 1) (Z.min rend end_) end_ flags nr_new
      else Ret (t, idx, base, nr_new)
  end.

(** One execution of the code after the [repeat] label, up to the test of
    [nr_new]. *)
Definition add_pass (insert : bool) (t : memblock_type) (obase end_ flags : Z)
    : outcome (memblock_type * nat) :=
  let* (t', idx, base, nr_new) := add_scan (S (mt_cnt t)) insert t 0 obase end_ flags 0 in
  if base <? end_ then
    if insert then
      let* t'' := memblock_insert_region t' idx base (u32 (end_ - base)) flags in
      Ret (t'', (nr_new + 1)%nat)
    else Ret (t', (nr_new + 1)%nat)
  else Ret (t', nr_new).

Definition memblock_add_range_with (dbl : dbl_fn) (fuel : nat) (w : which)
    (base size0 flags : Z) (mb : memblock) : outcome (Z * memblock) :=
  let size := memblock_cap_size base size0 in
  let end_ := u32 (base + size) in
  if size =? 0 then Ret (0, mb)
  else
    let t := get_type w mb in
    let* r0 := arr_get (mt_regions t) 0 in
    if rg_size r0 =? 0 then
      let* a := arr_set (mt_regions t) 0 (mk_region base size flags) in
      Ret (0, set_type w (mk_type (mt_cnt t) (mt_max t) size a (mt_pa t)) mb)
    else
      let* (_, nr_new) := add_pass false t base end_ flags in
      if (nr_new =? 0)%nat then Ret (0, mb)
      else
        let* (ret, mb1) := ensure_room fuel dbl w nr_new base size mb in
        if ret <? 0 then Ret (ret, mb1)
        else
          let* (t2, nr_new2) := add_pass true (get_type w mb1) base end_ flags in
          if (nr_new2 =? 0)%nat then Ret (0, set_type w t2 mb1)
          else
            let* t3 := memblock_merge_regions t2 in
            Ret (0, set_type w t3 mb1).

(** The loop of [memblock_isolate_range].  [idx--] in the second branch is
    undone by the loop's [idx++], so the same index is examined again. *)
Fixpoint isolate_scan (fuel : nat) (t : memblock_type) (idx : nat) (base end_ : Z)
    (start_rgn end_rgn : nat) : outcome (memblock_type * nat * nat) :=
  match fuel with
  | O => Fuel
  | S fuel' =>
      if (idx <? mt_cnt t)%nat then
        let* rgn := arr_get (mt_regions t) idx in
        let rbase := rg_base rgn in
        let rend := rg_end rgn in
        if end_ <=? rbase then Ret (t, start_rgn, end_rgn)
        else if rend <=? base then isolate_scan fuel' t (idx + 1) base end_ start_rgn end_rgn
        else if rbase <? base then
          let d := u32 (base - rbase) in
          let* a := arr_set (mt_regions t) idx
                      (mk_region base (u32 (rg_size rgn - d)) (rg_flags rgn)) in
          let t1 := mk_type (mt_cnt t) (mt_max t) (u32 (mt_total_size t - d)) a (mt_pa t) in
          let* t2 := memblock_insert_region t1 idx rbase d (rg_flags rgn) in
          isolate_scan fuel' t2 (idx + 1) base end_ start_rgn end_rgn
        else if end_ <? rend then
          let d := u32 (end_ - rbase) in
          let* a := arr_set (mt_regions t) idx
                      (mk_region end_ (u32 (rg_size rgn - d)) (rg_flags rgn)) in
          let t1 := mk_type (mt_cnt t) (mt_max t) (u32 (mt_total_size t - d)) a (mt_pa t) in
          let* t2 := memblock_insert_region t1 idx rbase d (rg_flags rgn) in
          isolate_scan fuel' t2 idx base end_ start_rgn end_rgn
        else
          isolate_scan fuel' t (idx + 1) base end_
            (if (end_rgn =? 0)%nat then idx else start_rgn) (idx + 1)
      else Ret (t, start_rgn, end_rgn)
  end.

Definition memblock_isolate_range_with (dbl : dbl_fn) (fuel : nat) (w : which)
    (base size0 : Z) (mb : memblock) : outcome (Z * memblock * nat * nat) :=
  let size := memblock_cap_size base size0 in
  let end_ := u32 (base + size) in
  if size =? 0 then Ret (0, mb, 0%nat, 0%nat)
  else
    let* (ret, mb1) := ensure_room fuel dbl w 2 base size mb in
    if ret <? 0 then Ret (ret, mb1, 0%nat, 0%nat)
    else
      let t := get_type w mb1 in
      let* (t', s, e) := isolate_scan (mt_cnt t + 4) t 0 base end_ 0 0 in
      Ret (0, set_type w t' mb1, s, e).

(** [for (i = end_rgn - 1; i >= start_rgn; i--) memblock_remove_region (type, i)],
    [n] being the number of regions left. *)
Fixpoint remove_loop (t : memblock_type) (start n : nat) : outcome memblock_type :=
  match n with
  | O => Ret t
  | S n' => let* t' := memblock_remove_region t (start + n') in remove_loop t' start n'
  end.

Definition memblock_remove_range_with (dbl : dbl_fn) (fuel : nat) (w : which)
    (base size : Z) (mb : memblock) : outcome (Z * memblock) :=
  let* (ret, mb1, s, e) := memblock_isolate_range_with dbl fuel w base size mb in
  if negb (ret =? 0) then Ret (ret, mb1)
  else
    let* t := remove_loop (get_type w mb1) s (e - s) in
    Ret (0, set_type w t mb1).

(** ** Free ranges *)

Definition memblock_is_mirror (m : memblock_region) : bool :=
  negb (Z.land (rg_flags m) MEMBLOCK_MIRROR =? 0).
Definition memblock_is_nomap (m : memblock_region) : bool :=
  negb (Z.land (rg_flags m) MEMBLOCK_NOMAP =? 0).

(** The [continue] tests at the head of the loops of [__next_mem_range] and
    [__next_mem_range_rev].  Without CONFIG_HAVE_MEMBLOCK_NODE_MAP every region
    is on node 0, and without CONFIG_MOVABLE_NODE the hotplug test is off. *)
Definition range_skipped (nid flags : Z) (m : memblock_region) : bool :=
  (negb (nid =? NUMA_NO_NODE) && negb (nid =? 0))
  || (negb (Z.land flags MEMBLOCK_MIRROR =? 0) && negb (memblock_is_mirror m))
  || ((Z.land flags MEMBLOCK_NOMAP =? 0) && memblock_is_nomap m).

Definition fix_nid (nid : Z) : Z := if nid =? MAX_NUMNODES then NUMA_NO_NODE else nid.

(** [r_start] and [r_end] of the gap before [regions[idx_b]]. *)
Definition gap_start (tb : memblock_type) (idx_b : nat) : outcome Z :=
  match idx_b with
  | O => Ret 0
  | S p => let* r := arr_get (mt_regions tb) p in Ret (rg_end r)
  end.

Definition gap_end (tb : memblock_type) (idx_b : nat) : outcome Z :=
  if (idx_b <? mt_cnt tb)%nat then
    let* r := arr_get (mt_regions tb) idx_b in Ret (rg_base r)
  else Ret U32_MAX.

(** [*idx = (u32)idx_a | (u64)idx_b << 32]. *)
Definition pack_idx (idx_a idx_b : Z) : Z := Z.lor (u32 idx_a) (u64 (Z.shiftl idx_b 32)).

(** A range found by an iterator, with the indices to resume from. *)
Record found_range := mk_found {
  fr_start : Z;
  fr_end : Z;
  fr_idx_a : Z;
  fr_idx_b : Z
}.

(** Inner loop of [__next_mem_range]: a range, or the value of [idx_b] after
    the loop. *)
Fixpoint next_scan_b (fuel : nat) (m_start m_end : Z) (idx_a : nat) (tb : memblock_type)
    (idx_b : nat) : outcome (found_range + nat) :=
  match fuel with
  | O => Fuel
  | S fuel' =>
      if (idx_b <? mt_cnt tb + 1)%nat then
        let* r_start := gap_start tb idx_b in
        let* r_end := gap_end tb idx_b in
        if m_end <=? r_start then Ret (inr idx_b)
        else if m_start <? r_end then
          let '(a', b') := if m_end <=? r_end then (idx_a + 1, idx_b)%nat
                           else (idx_a, idx_b + 1)%nat in
          Ret (inl (mk_found (Z.max m_start r_start) (Z.min m_end r_end)
                      (Z.of_nat a') (Z.of_nat b')))
        else next_scan_b fuel' m_start m_end idx_a tb (idx_b + 1)
      else Ret (inr idx_b)
  end.

Fixpoint next_scan_a (fuel : nat) (nid flags : Z) (ta : memblock_type)
    (tb : option memblock_type) (idx_a idx_b : nat) : outcome (option found_range) :=
  match fuel with
  | O => Fuel
  | S fuel' =>
      if (idx_a <? mt_cnt ta)%nat then
        let* m := arr_get (mt_regions ta) idx_a in
        if range_skipped nid flags m then
          next_scan_a fuel' nid flags ta tb (idx_a + 1) idx_b
        else
          match tb with
          | None => Ret (Some (mk_found (rg_base m) (rg_end m)
                                 (Z.of_nat (idx_a + 1)) (Z.of_nat idx_b)))
          | Some b =>
              let* r := next_scan_b (mt_cnt b + 2) (rg_base m) (rg_end m) idx_a b idx_b in
              match r with
              | inl f => Ret (Some f)
              | inr idx_b' => next_scan_a fuel' nid flags ta tb (idx_a + 1) idx_b'
              end
          end
      else Ret None
  end.

(** [__next_mem_range]: the new [*idx] and, unless the iteration ended, the
    range stored through [out_start] and [out_end]. *)
Definition __next_mem_range (idx nid flags : Z) (ta : memblock_type)
    (tb : option memblock_type) : outcome (Z * option (Z * Z)) :=
  let idx_a := Z.to_nat (Z.land idx 4294967295) in
  let idx_b := Z.to_nat (Z.shiftr idx 32) in
  let* r := next_scan_a (S (mt_cnt ta)) (fix_nid nid) flags ta tb idx_a idx_b in
  match r with
  | Some f => Ret (pack_idx (fr_idx_a f) (fr_idx_b f), Some (fr_start f, fr_end f))
  | None => Ret (U64_MAX, None)
  end.

(** Inner loop of [__next_mem_range_rev]; [n] is [idx_b + 1], so [n = 0] is the
    exit of [for (; idx_b >= 0; idx_b--)].  The second component is [idx_b + 1]
    after the loop. *)
Fixpoint rev_scan_b (m_start m_end : Z) (idx_a : nat) (tb : memblock_type) (n : nat)
    : outcome (found_range + nat) :=
  match n with
  | O => Ret (inr 0%nat)
  | S idx_b =>
      let* r_start := gap_start tb idx_b in
      let* r_end := gap_end tb idx_b in
      if r_end <=? m_start then Ret (inr n)
      else if r_start <? m_end then
        let '(a', b') := if r_start <=? m_start
                         then (Z.of_nat idx_a - 1, Z.of_nat idx_b)
                         else (Z.of_nat idx_a, Z.of_nat idx_b - 1) in
        Ret (inl (mk_found (Z.max m_start r_start) (Z.min m_end r_end) a' b'))
      else rev_scan_b m_start m_end idx_a tb idx_b
  end.

(** Outer loop of [__next_mem_range_rev]; [n] is [idx_a + 1] and [nb] is
    [idx_b + 1]. *)
Fixpoint rev_scan_a (nid flags : Z) (ta : memblock_type) (tb : option memblock_type)
    (n nb : nat) : outcome (option found_range) :=
  match n with
  | O => Ret None
  | S idx_a =>
      let* m := arr_get (mt_regions ta) idx_a in
      if range_skipped nid flags m then rev_scan_a nid flags ta tb idx_a nb
      else
        match tb with
        | None => Ret (Some (mk_found (rg_base m) (rg_end m)
                               (Z.of_nat idx_a - 1) (Z.of_nat nb - 1)))
        | Some b =>
            let* r := rev_scan_b (rg_base m) (rg_end m) idx_a b nb in
            match r with
            | inl f => Ret (Some f)
            | inr nb' => rev_scan_a nid flags ta tb idx_a nb'
            end
        end
  end.

(** [__next_mem_range_rev]. *)
Definition __next_mem_range_rev (idx nid flags : Z) (ta : memblock_type)
    (tb : option memblock_type) : outcome (Z * option (Z * Z)) :=
  let '(idx_a, idx_b) :=
    if idx =? U64_MAX then
      (Z.of_nat (mt_cnt ta) - 1, match tb with Some b => Z.of_nat (mt_cnt b) | None => 0 end)
    else (s32 (Z.land idx 4294967295), s32 (Z.shiftr idx 32)) in
  let* r := rev_scan_a (fix_nid nid) flags ta tb (Z.to_nat (idx_a + 1)) (Z.to_nat (idx_b + 1)) in
  match r with
  | Some f => Ret (pack_idx (fr_idx_a f) (fr_idx_b f), Some (fr_start f, fr_end f))
  | None => Ret (U64_MAX, None)
  end.

(** [__next_reserved_mem_region]: [out_end] is inclusive. *)
Definition __next_reserved_mem_region (idx : Z) (t : memblock_type) : outcome (Z * option (Z * Z)) :=
  if idx <? Z.of_nat (mt_cnt t) then
    let* r := arr_get (mt_regions t) (Z.to_nat idx) in
    Ret (idx + 1, Some (rg_base r, u32 (rg_base r + rg_size r - 1)))
  else Ret (U64_MAX, None).

(** ** Searching for a free area *)

(** [for_each_free_mem_range] with the body of [__memblock_find_range_bottom_up].
    The loop ends when the index is [ULLONG_MAX]; the out parameters are read
    only when it is not, and then they were written ([Ub] otherwise).  [fuel]
    bounds the number of ranges the iterator yields. *)
Fixpoint find_bottom_up_loop (fuel : nat) (mb : memblock) (idx : Z)
    (start end_ size align nid flags : Z) : outcome Z :=
  match fuel with
  | O => Fuel
  | S fuel' =>
      let* (idx', r) := __next_mem_range idx nid flags (mb_memory mb) (Some (mb_reserved mb)) in
      if idx' =? U64_MAX then Ret 0
      else match r with
      | None => Ub
      | Some (this_start0, this_end0) =>
          let this_start := clamp this_start0 start end_ in
          let this_end := clamp this_end0 start end_ in
          let cand := round_up this_start align in
          if (cand <? this_end) && (size <=? u32 (this_end - cand)) then Ret cand
          else find_bottom_up_loop fuel' mb idx' start end_ size align nid flags
      end
  end.

(** A free range ends where a memory region or a reserved region begins or
    ends, so there are at most [memory.cnt + reserved.cnt + 1] of them. *)
Definition range_fuel (mb : memblock) : nat :=
  mt_cnt (mb_memory mb) + mt_cnt (mb_reserved mb) + 3.

Definition __memblock_find_range_bottom_up (mb : memblock) (start end_ size align nid flags : Z)
    : outcome Z :=
  find_bottom_up_loop (range_fuel mb) mb 0 start end_ size align nid flags.

(** [for_each_free_mem_range_reverse] with the body of
    [__memblock_find_range_top_down]. *)
Fixpoint find_top_down_loop (fuel : nat) (mb : memblock) (idx : Z)
    (start end_ size align nid flags : Z) : outcome Z :=
  match fuel with
  | O => Fuel
  | S fuel' =>
      let* (idx', r) := __next_mem_range_rev idx nid flags (mb_memory mb) (Some (mb_reserved mb)) in
      if idx' =? U64_MAX then Ret 0
      else match r with
      | None => Ub
      | Some (this_start0, this_end0) =>
          let this_start := clamp this_start0 start end_ in
          let this_end := clamp this_end0 start end_ in
          if this_end <? size then
            find_top_down_loop fuel' mb idx' start end_ size align nid flags
          else
            let cand := round_down (u32 (this_end - size)) align in
            if this_start <=? cand then Ret cand
            else find_top_down_loop fuel' mb idx' start end_ size align nid flags
      end
  end.

Definition __memblock_find_range_top_down (mb : memblock) (start end_ size align nid flags : Z)
    : outcome Z :=
  find_top_down_loop (range_fuel mb) mb U64_MAX start end_ size align nid flags.

(** Without CONFIG_MOVABLE_NODE, [memblock_bottom_up ()] is the constant
    [false]; the bottom-up branch of [memblock_find_in_range_node] is kept
    behind it with [kernel_end = __pa_symbol (_end)]. *)
Definition memblock_bottom_up : bool := false.

Definition memblock_find_in_range_node (kernel_end : Z) (mb : memblock)
    (size align start0 end0 nid flags : Z) : outcome Z :=
  let end1 := if end0 =? MEMBLOCK_ALLOC_ACCESSIBLE then mb_current_limit mb else end0 in
  let start := Z.max start0 PAGE_SIZE in
  let end_ := Z.max start end1 in
  if memblock_bottom_up && (kernel_end <? end_) then
    let* ret := __memblock_find_range_bottom_up mb (Z.max start kernel_end) end_ size align nid flags in
    if negb (ret =? 0) then Ret ret
    else __memblock_find_range_top_down mb start end_ size align nid flags
  else __memblock_find_range_top_down mb start end_ size align nid flags.

Definition choose_memblock_flags (mb : memblock) : Z :=
  if mb_has_mirror mb then MEMBLOCK_MIRROR else MEMBLOCK_NONE.

Definition clear_mirror (flags : Z) : Z := Z.land flags (u32 (Z.lnot MEMBLOCK_MIRROR)).

(** The [again] label is reached at most twice: the second time the mirror
    flag is clear. *)
Definition memblock_find_in_range (kernel_end : Z) (mb : memblock) (start end_ size align : Z)
    : outcome Z :=
  let flags := choose_memblock_flags mb in
  let* ret := memblock_find_in_range_node kernel_end mb size align start end_ NUMA_NO_NODE flags in
  if (ret =? 0) && negb (Z.land flags MEMBLOCK_MIRROR =? 0) then
    memblock_find_in_range_node kernel_end mb size align start end_ NUMA_NO_NODE (clear_mirror flags)
  else Ret ret.

(** ** Growing the arrays

    The slab allocator is used for the array once it is up; what memblock needs
    from it is whether it is up and the physical address [kmalloc] returns for
    a size (0 when it fails). *)
Class SlabAllocator := {
  slab_is_available : bool;
  kmalloc_pa : Z -> Z;
  kernel_end_pa : Z
}.

Section Doubling.
Context `{SlabAllocator}.

(** [memblock_double_array] over the doubling function its nested calls of
    [memblock_free] and [memblock_reserve] use. *)
Definition double_array_body (dbl : dbl_fn) (fuel : nat) : dbl_fn :=
  fun w new_area_start0 new_area_size0 mb =>
  if negb (mb_can_resize mb) then Ret (-1, mb)
  else
    let t := get_type w mb in
    let old_size := u32 (Z.of_nat (mt_max t) * sizeof_region) in
    let new_size := u32 (Z.shiftl old_size 1) in
    let old_alloc_size := PAGE_ALIGN old_size in
    let new_alloc_size := PAGE_ALIGN new_size in
    let use_slab := slab_is_available in
    let* addr :=
      if use_slab then Ret (kmalloc_pa new_size)
      else
        let '(new_area_start, new_area_size) :=
          if bool_decide (w = Reserved) then (new_area_start0, new_area_size0) else (0, 0) in
        let* addr1 := memblock_find_in_range kernel_end_pa mb
                        (u32 (new_area_start + new_area_size)) (mb_current_limit mb)
                        new_alloc_size PAGE_SIZE in
        if (addr1 =? 0) && negb (new_area_size =? 0) then
          memblock_find_in_range kernel_end_pa mb 0
            (Z.min new_area_start (mb_current_limit mb)) new_alloc_size PAGE_SIZE
        else Ret addr1 in
    if addr =? 0 then Ret (-1, mb)
    else
      let old_pa := mt_pa t in
      let t1 := mk_type (mt_cnt t) (mt_max t + mt_max t) (mt_total_size t)
                  (mt_regions t ++ replicate (mt_max t) zero_region) (Some addr) in
      let mb1 := set_type w t1 mb in
      let* mb2 :=
        if in_slab w mb1 then Ret mb1
        else
          match old_pa with
          | None => Ret mb1
          | Some pa =>
              let* (_, mb') := memblock_remove_range_with dbl fuel Reserved pa old_alloc_size mb1 in
              Ret mb'
          end in
      let* mb3 :=
        if negb use_slab then
          let* (r, mb') := memblock_add_range_with dbl fuel Reserved addr new_alloc_size
                             MEMBLOCK_NONE mb2 in
          BUG_ON (negb (r =? 0)) ;; Ret mb'
        else Ret mb2 in
      Ret (0, set_in_slab w use_slab mb3).

(** [fuel] bounds the depth of the recursion through [memblock_free] and
    [memblock_reserve] and the number of doublings in one call. *)
Fixpoint memblock_double_array (fuel : nat) : dbl_fn :=
  match fuel with
  | O => fun _ _ _ _ => Fuel
  | S fuel' => double_array_body (memblock_double_array fuel') fuel
  end.

(** ** Entry points *)

Definition memblock_add_range (fuel : nat) (w : which) (base size flags : Z) (mb : memblock)
    : outcome (Z * memblock) :=
  memblock_add_range_with (memblock_double_array fuel) fuel w base size flags mb.

Definition memblock_isolate_range (fuel : nat) (w : which) (base size : Z) (mb : memblock)
    : outcome (Z * memblock * nat * nat) :=
  memblock_isolate_range_with (memblock_double_array fuel) fuel w base size mb.

Definition memblock_remove_range (fuel : nat) (w : which) (base size : Z) (mb : memblock)
    : outcome (Z * memblock) :=
  memblock_remove_range_with (memblock_double_array fuel) fuel w base size mb.

Definition memblock_add (fuel : nat) (base size : Z) (mb : memblock) : outcome (Z * memblock) :=
  memblock_add_range fuel Memory base size 0 mb.

Definition memblock_reserve (fuel : nat) (base size : Z) (mb : memblock) : outcome (Z * memblock) :=
  memblock_add_range fuel Reserved base size 0 mb.

Definition memblock_remove (fuel : nat) (base size : Z) (mb : memblock) : outcome (Z * memblock) :=
  memblock_remove_range fuel Memory base size mb.

Definition memblock_free (fuel : nat) (base size : Z) (mb : memblock) : outcome (Z * memblock) :=
  memblock_remove_range fuel Reserved base size mb.

Definition set_flag_at (set : bool) (flag : Z) (r : memblock_region) : memblock_region :=
  mk_region (rg_base r) (rg_size r)
    (if set then Z.lor (rg_flags r) flag else Z.land (rg_flags r) (u32 (Z.lnot flag))).

(** [for (i = start_rgn; i < end_rgn; i++)] of [memblock_setclr_flag]; [n] is
    the number of regions left. *)
Fixpoint setclr_loop (a : list memblock_region) (i n : nat) (set : bool) (flag : Z)
    : outcome (list memblock_region) :=
  match n with
  | O => Ret a
  | S n' =>
      let* r := arr_get a i in
      let* a' := arr_set a i (set_flag_at set flag r) in
      setclr_loop a' (i + 1) n' set flag
  end.

Definition memblock_setclr_flag (fuel : nat) (base size : Z) (set : bool) (flag : Z)
    (mb : memblock) : outcome (Z * memblock) :=
  let* (ret, mb1, s, e) := memblock_isolate_range fuel Memory base size mb in
  if negb (ret =? 0) then Ret (ret, mb1)
  else
    let t := mb_memory mb1 in
    let* a := setclr_loop (mt_regions t) s (e - s) set flag in
    let* t' := memblock_merge_regions
                 (mk_type (mt_cnt t) (mt_max t) (mt_total_size t) a (mt_pa t)) in
    Ret (0, set_type Memory t' mb1).

Definition memblock_mark_hotplug (fuel : nat) (base size : Z) (mb : memblock) :=
  memblock_setclr_flag fuel base size true MEMBLOCK_HOTPLUG mb.
Definition memblock_clear_hotplug (fuel : nat) (base size : Z) (mb : memblock) :=
  memblock_setclr_flag fuel base size false MEMBLOCK_HOTPLUG mb.
Definition memblock_mark_mirror (fuel : nat) (base size : Z) (mb : memblock) :=
  memblock_setclr_flag fuel base size true MEMBLOCK_MIRROR (set_has_mirror mb).
Definition memblock_mark_nomap (fuel : nat) (base size : Z) (mb : memblock) :=
  memblock_setclr_flag fuel base size true MEMBLOCK_NOMAP mb.

Definition memblock_alloc_range_nid (fuel : nat) (size align0 start end_ nid flags : Z)
    (mb : memblock) : outcome (Z * memblock) :=
  let align := if align0 =? 0 then SMP_CACHE_BYTES else align0 in
  let* found := memblock_find_in_range_node kernel_end_pa mb size align start end_ nid flags in
  if found =? 0 then Ret (0, mb)
  else
    let* (ret, mb') := memblock_reserve fuel found size mb in
    if ret =? 0 then Ret (found, mb') else Ret (0, mb').

Definition memblock_alloc_base_nid (fuel : nat) (size align max_addr nid flags : Z)
    (mb : memblock) : outcome (Z * memblock) :=
  memblock_alloc_range_nid fuel size align 0 max_addr nid flags mb.

Definition memblock_alloc_nid (fuel : nat) (size align nid : Z) (mb : memblock)
    : outcome (Z * memblock) :=
  let flags := choose_memblock_flags mb in
  let* (ret, mb') := memblock_alloc_base_nid fuel size align MEMBLOCK_ALLOC_ACCESSIBLE nid flags mb in
  if (ret =? 0) && negb (Z.land flags MEMBLOCK_MIRROR =? 0) then
    memblock_alloc_base_nid fuel size align MEMBLOCK_ALLOC_ACCESSIBLE nid (clear_mirror flags) mb'
  else Ret (ret, mb').

(** [memblock_alloc_base] panics when nothing is found. *)
Definition memblock_alloc_base (fuel : nat) (size align max_addr : Z) (mb : memblock)
    : outcome (Z * memblock) :=
  let* (alloc, mb') := memblock_alloc_base_nid fuel size align max_addr NUMA_NO_NODE
                         MEMBLOCK_NONE mb in
  BUG_ON (alloc =? 0) ;; Ret (alloc, mb').

Definition memblock_alloc (fuel : nat) (size align : Z) (mb : memblock) : outcome (Z * memblock) :=
  memblock_alloc_base fuel size align MEMBLOCK_ALLOC_ACCESSIBLE mb.

Definition memblock_alloc_try_nid (fuel : nat) (size align nid : Z) (mb : memblock)
    : outcome (Z * memblock) :=
  let* (res, mb') := memblock_alloc_nid fuel size align nid mb in
  if negb (res =? 0) then Ret (res, mb')
  else memblock_alloc_base fuel size align MEMBLOCK_ALLOC_ACCESSIBLE mb'.

(** [__find_max_addr] over the memory regions. *)
Fixpoint __find_max_addr (rs : list memblock_region) (limit : Z) : Z :=
  match rs with
  | [] => U32_MAX
  | r :: rs' =>
      if limit <=? rg_size r then u32 (rg_base r + limit)
      else __find_max_addr rs' (u32 (limit - rg_size r))
  end.

Definition memblock_enforce_memory_limit (fuel : nat) (limit : Z) (mb : memblock)
    : outcome memblock :=
  if limit =? 0 then Ret mb
  else
    let max_addr := __find_max_addr (take (mt_cnt (mb_memory mb)) (mt_regions (mb_memory mb))) limit in
    if max_addr =? U32_MAX then Ret mb
    else
      let* (_, mb1) := memblock_remove_range fuel Memory max_addr U32_MAX mb in
      let* (_, mb2) := memblock_remove_range fuel Reserved max_addr U32_MAX mb1 in
      Ret mb2.

(** [for (i = end_rgn - 1; i >= start_rgn; i--) if (!memblock_is_nomap (...))
    memblock_remove_region (type, i)]. *)
Fixpoint remove_map_loop (t : memblock_type) (start n : nat) : outcome memblock_type :=
  match n with
  | O => Ret t
  | S n' =>
      let* r := arr_get (mt_regions t) (start + n') in
      if memblock_is_nomap r then remove_map_loop t start n'
      else let* t' := memblock_remove_region t (start + n') in remove_map_loop t' start n'
  end.

Definition memblock_mem_limit_remove_map (fuel : nat) (limit : Z) (mb : memblock)
    : outcome memblock :=
  if limit =? 0 then Ret mb
  else
    let max_addr := __find_max_addr (take (mt_cnt (mb_memory mb)) (mt_regions (mb_memory mb))) limit in
    if max_addr =? U32_MAX then Ret mb
    else
      let* (ret, mb1, s, e) := memblock_isolate_range fuel Memory max_addr U32_MAX mb in
      if negb (ret =? 0) then Ret mb1
      else
        let* t := remove_map_loop (mb_memory mb1) s (e - s) in
        let* (_, mb2) := memblock_remove_range fuel Reserved max_addr U32_MAX (set_type Memory t mb1) in
        Ret mb2.
End Doubling.

(** ** Queries *)

(** The [do ... while (left < right)] of [memblock_search]. *)
Fixpoint search_loop (fuel : nat) (t : memblock_type) (addr : Z) (left right : nat) : outcome Z :=
  match fuel with
  | O => Fuel
  | S fuel' =>
      let mid := ((right + left) / 2)%nat in
      let* r := arr_get (mt_regions t) mid in
      if addr <? rg_base r then
        if (left <? mid)%nat then search_loop fuel' t addr left mid else Ret (-1)
      else if rg_end r <=? addr then
        if (mid + 1 <? right)%nat then search_loop fuel' t addr (mid + 1) right else Ret (-1)
      else Ret (Z.of_nat mid)
  end.

Definition memblock_search (t : memblock_type) (addr : Z) : outcome Z :=
  search_loop (S (mt_cnt t)) t addr 0 (mt_cnt t).

Definition memblock_is_reserved (mb : memblock) (addr : Z) : outcome bool :=
  let* i := memblock_search (mb_reserved mb) addr in Ret (negb (i =? -1)).

Definition memblock_is_memory (mb : memblock) (addr : Z) : outcome bool :=
  let* i := memblock_search (mb_memory mb) addr in Ret (negb (i =? -1)).

Definition memblock_is_map_memory (mb : memblock) (addr : Z) : outcome bool :=
  let* i := memblock_search (mb_memory mb) addr in
  if i =? -1 then Ret false
  else
    let* r := arr_get (mt_regions (mb_memory mb)) (Z.to_nat i) in
    Ret (negb (memblock_is_nomap r)).

Definition memblock_is_region_memory (mb : memblock) (base size0 : Z) : outcome bool :=
  let* idx := memblock_search (mb_memory mb) base in
  let end_ := u32 (base + memblock_cap_size base size0) in
  if idx =? -1 then Ret false
  else
    let* r := arr_get (mt_regions (mb_memory mb)) (Z.to_nat idx) in
    Ret ((rg_base r <=? base) && (end_ <=? rg_end r)).

Definition memblock_is_region_reserved (mb : memblock) (base size0 : Z) : bool :=
  memblock_overlaps_region (mb_reserved mb) base (memblock_cap_size base size0).

Definition memblock_phys_mem_size (mb : memblock) : Z := mt_total_size (mb_memory mb).
Definition memblock_reserved_size (mb : memblock) : Z := mt_total_size (mb_reserved mb).

(** The loop of [memblock_mem_size]; the result is in pages before [PFN_PHYS]. *)
Fixpoint mem_size_loop (rs : list memblock_region) (limit_pfn pages : Z) : Z :=
  match rs with
  | [] => pages
  | r :: rs' =>
      let start_pfn := Z.min (PFN_UP (rg_base r)) limit_pfn in
      let end_pfn := Z.min (PFN_DOWN (rg_end r)) limit_pfn in
      mem_size_loop rs' limit_pfn (u32 (pages + u32 (end_pfn - start_pfn)))
  end.

Definition memblock_mem_size (mb : memblock) (limit_pfn : Z) : Z :=
  u32 (Z.shiftl (mem_size_loop (take (mt_cnt (mb_memory mb)) (mt_regions (mb_memory mb))) limit_pfn 0)
         PAGE_SHIFT).

Definition memblock_start_of_DRAM (mb : memblock) : outcome Z :=
  let* r := arr_get (mt_regions (mb_memory mb)) 0 in Ret (rg_base r).

Definition memblock_end_of_DRAM (mb : memblock) : outcome Z :=
  let* r := arr_get (mt_regions (mb_memory mb)) (mt_cnt (mb_memory mb) - 1) in Ret (rg_end r).

(** [memblock_trim_memory]: [r--] after a removal is undone by the loop's [r++].
    A region that is shrunk keeps its place and [total_size] is not touched. *)
Fixpoint trim_loop (fuel : nat) (align : Z) (t : memblock_type) (i : nat) : outcome memblock_type :=
  match fuel with
  | O => Fuel
  | S fuel' =>
      if (i <? mt_cnt t)%nat then
        let* r := arr_get (mt_regions t) i in
        let orig_start := rg_base r in
        let orig_end := rg_end r in
        let start := round_up orig_start align in
        let end_ := round_down orig_end align in
        if (start =? orig_start) && (end_ =? orig_end) then trim_loop fuel' align t (i + 1)
        else if start <? end_ then
          let* a := arr_set (mt_regions t) i (mk_region start (u32 (end_ - start)) (rg_flags r)) in
          trim_loop fuel' align
            (mk_type (mt_cnt t) (mt_max t) (mt_total_size t) a (mt_pa t)) (i + 1)
        else
          let* t' := memblock_remove_region t i in trim_loop fuel' align t' i
      else Ret t
  end.

Definition memblock_trim_memory (align : Z) (mb : memblock) : outcome memblock :=
  let* t := trim_loop (mt_cnt (mb_memory mb) + 2) align (mb_memory mb) 0 in
  Ret (set_type Memory t mb).

(** [memblock_reserved_memory_within]. *)
Fixpoint reserved_within_loop (rs : list memblock_region) (start_addr end_addr size : Z) : Z :=
  match rs with
  | [] => size
  | r :: rs' =>
      if rg_end r <? start_addr then reserved_within_loop rs' start_addr end_addr size
      else if end_addr <? rg_base r then reserved_within_loop rs' start_addr end_addr size
      else reserved_within_loop rs' start_addr end_addr
             (u32 (size + u32 (rg_end r - rg_base r)))
  end.

Definition memblock_reserved_memory_within (mb : memblock) (start_addr end_addr : Z) : Z :=
  reserved_within_loop (take (mt_cnt (mb_reserved mb)) (mt_regions (mb_reserved mb)))
    start_addr end_addr 0.

Definition memblock_set_current_limit (limit : Z) (mb : memblock) : memblock :=
  mk_memblock limit (mb_memory mb) (mb_reserved mb) (mb_has_mirror mb) (mb_can_resize mb)
    (mb_memory_in_slab mb) (mb_reserved_in_slab mb).

Definition memblock_allow_resize (mb : memblock) : memblock :=
  mk_memblock (mb_current_limit mb) (mb_memory mb) (mb_reserved mb) (mb_has_mirror mb) true
    (mb_memory_in_slab mb) (mb_reserved_in_slab mb).
