(* ===== verification/MemblockRegions.v ===== *)
(** * Region arrays of memblock: representation and array primitives

    Relates a [memblock_type] (an array with stale slots past [mt_cnt]) to the
    list of its regions, and shows what insertion, removal and merging do to
    that list.  [ordered] is the invariant of mm/memblock.c: regions are
    non-empty, sorted, disjoint and end at or below [ULONG_MAX]. *)
From Stdlib Require Import ZArith Lia Bool.
From stdpp Require Import base numbers list.
From S2P Require Import Prelude Memblock.

(** ** Specification vocabulary *)

Definition sum_sizes (rs : list memblock_region) : Z :=
  foldr (fun r acc => rg_size r + acc) 0 rs.

Definition in_region (a : Z) (r : memblock_region) : Prop :=
  rg_base r <= a < rg_base r + rg_size r.

(** The set of addresses a list of regions covers. *)
Definition covered (rs : list memblock_region) (a : Z) : Prop := Exists (in_region a) rs.

Fixpoint ordered (lo : Z) (rs : list memblock_region) : Prop :=
  match rs with
  | [] => True
  | r :: rs' =>
      lo <= rg_base r /\ 0 < rg_size r /\ rg_base r + rg_size r <= U32_MAX
      /\ ordered (rg_base r + rg_size r) rs'
  end.

Definition mergeable (r n : memblock_region) : Prop :=
  rg_base r + rg_size r = rg_base n /\ rg_flags r = rg_flags n.

(** No two neighbours could be merged. *)
Fixpoint minimal (rs : list memblock_region) : Prop :=
  match rs with
  | r :: ((n :: _) as rs') => ~ mergeable r n /\ minimal rs'
  | _ => True
  end.

(** [t] stores exactly the regions [rs] in its first [mt_cnt] slots. *)
Record rep (t : memblock_type) (rs : list memblock_region) : Prop := {
  rep_cnt : mt_cnt t = length rs;
  rep_take : take (length rs) (mt_regions t) = rs;
  rep_len : length (mt_regions t) = mt_max t;
  rep_total : mt_total_size t = u32 (sum_sizes rs)
}.

(** The empty map is stored as one zero-sized dummy entry. *)
Definition view (t : memblock_type) (rs : list memblock_region) : Prop :=
  (rs = [] /\ rep t [zero_region]) \/ (rs <> [] /\ rep t rs).

(** The invariant of a [memblock_type]. *)
Definition wf_type (t : memblock_type) (rs : list memblock_region) : Prop :=
  view t rs /\ ordered 0 rs.

Create HintDb memblock.

(** ** Sums and orders *)

Lemma sum_sizes_cons r rs : sum_sizes (r :: rs) = rg_size r + sum_sizes rs.
Proof. done. Qed.

Lemma sum_sizes_app rs1 rs2 : sum_sizes (rs1 ++ rs2) = sum_sizes rs1 + sum_sizes rs2.
Proof. induction rs1 as [|r rs1 IH]; simpl; [done|]. unfold sum_sizes in *. simpl. lia. Qed.

Lemma ordered_weaken lo lo' rs : lo' <= lo -> ordered lo rs -> ordered lo' rs.
Proof. destruct rs; simpl; [done|]. intros; intuition lia. Qed.

Lemma ordered_sum lo rs : 0 <= lo <= U32_MAX -> ordered lo rs -> 0 <= sum_sizes rs <= U32_MAX - lo.
Proof.
  revert lo. induction rs as [|r rs IH]; simpl; intros lo Hlo; [lia|].
  intros (H1 & H2 & H3 & H4). apply IH in H4; [|lia]. unfold sum_sizes in *. lia.
Qed.

Lemma ordered_app lo rs1 r rs2 :
  ordered lo (rs1 ++ r :: rs2) -> ordered (rg_base r) (r :: rs2).
Proof.
  revert lo. induction rs1 as [|x rs1 IH]; simpl; intros lo H.
  - intuition lia.
  - destruct H as (_ & _ & _ & H). apply IH in H. done.
Qed.

Lemma ordered_bounds lo rs r : ordered lo rs -> r ∈ rs ->
  lo <= rg_base r /\ 0 < rg_size r /\ rg_base r + rg_size r <= U32_MAX.
Proof.
  revert lo. induction rs as [|x rs IH]; intros lo H Hin; [by apply elem_of_nil in Hin|].
  simpl in H. destruct H as (H1 & H2 & H3 & H4).
  apply elem_of_cons in Hin as [->|Hin]; [done|].
  destruct (IH _ H4 Hin) as (? & ? & ?). lia.
Qed.

Lemma ordered_region_end lo rs r : 0 <= lo -> ordered lo rs -> r ∈ rs ->
  rg_end r = rg_base r + rg_size r.
Proof.
  intros Hlo H Hin. destruct (ordered_bounds _ _ _ H Hin) as (? & ? & ?).
  unfold rg_end. apply u32_small. lia.
Qed.

(** Everything before an element lies below it. *)
Lemma ordered_before lo rs1 r rs2 x :
  ordered lo (rs1 ++ r :: rs2) -> x ∈ rs1 -> rg_base x + rg_size x <= rg_base r.
Proof.
  revert lo. induction rs1 as [|y rs1 IH]; intros lo H Hin; [by apply elem_of_nil in Hin|].
  simpl in H. destruct H as (H1 & H2 & H3 & H4).
  apply elem_of_cons in Hin as [->|Hin]; [|by eapply IH].
  clear IH. assert (forall z rs, ordered z (rs ++ r :: rs2) -> z <= rg_base r) as K.
  { intros z rs. revert z. induction rs as [|w rs IH]; simpl; intros z Hz; [lia|].
    destruct Hz as (? & ? & ? & Hz). apply IH in Hz. lia. }
  by apply K in H4.
Qed.

(** Splitting an ordered list at a region. *)
Lemma ordered_cons_app lo rs1 rs2 mid :
  ordered lo rs1 -> (forall x, x ∈ rs1 -> rg_base x + rg_size x <= mid) ->
  lo <= mid -> ordered mid rs2 -> ordered lo (rs1 ++ rs2).
Proof.
  revert lo. induction rs1 as [|x rs1 IH]; simpl; intros lo H1 H2 H3 H4.
  - by eapply ordered_weaken.
  - destruct H1 as (? & ? & ? & H1). repeat split; try lia.
    apply IH; [done| |apply H2; by left|done].
    intros y Hy. apply H2. by right.
Qed.

Lemma ordered_app_l lo rs1 rs2 : ordered lo (rs1 ++ rs2) -> ordered lo rs1.
Proof.
  revert lo. induction rs1 as [|x rs1 IH]; simpl; intros lo H; [done|]. intuition eauto.
Qed.

Lemma covered_cons r rs a : covered (r :: rs) a <-> in_region a r \/ covered rs a.
Proof. unfold covered. by rewrite Exists_cons. Qed.

Lemma covered_app rs1 rs2 a : covered (rs1 ++ rs2) a <-> covered rs1 a \/ covered rs2 a.
Proof. unfold covered. by rewrite Exists_app. Qed.

Lemma covered_nil a : covered [] a <-> False.
Proof. unfold covered. by rewrite Exists_nil. Qed.

Lemma ordered_covered lo rs a : ordered lo rs -> covered rs a -> lo <= a < U32_MAX.
Proof.
  intros H Hc. apply Exists_exists in Hc as (r & Hin & Ha).
  destruct (ordered_bounds _ _ _ H Hin). unfold in_region in Ha. lia.
Qed.

(** ** Array primitives on the stored list *)

Lemma rep_le t rs : rep t rs -> (length rs <= mt_max t)%nat.
Proof. intros [? H2 H3 ?]. rewrite <- H2, length_take. lia. Qed.

Lemma rep_lookup t rs i : rep t rs -> (i < length rs)%nat -> mt_regions t !! i = rs !! i.
Proof.
  intros [H1 H2 H3 H4] Hi. rewrite <- H2 at 1. by rewrite lookup_take_lt.
Qed.

Lemma rep_get t pre r post : rep t (pre ++ r :: post) ->
  arr_get (mt_regions t) (length pre) = Ret r.
Proof.
  intros H. apply arr_get_Some. rewrite (rep_lookup _ _ _ H), list_lookup_middle; [done|done|].
  rewrite length_app. simpl. lia.
Qed.

Lemma rep_get' t rs i r : rep t rs -> rs !! i = Some r -> arr_get (mt_regions t) i = Ret r.
Proof.
  intros H Hi. apply arr_get_Some. rewrite (rep_lookup _ _ _ H); [done|].
  by eapply lookup_lt_Some.
Qed.

(** The stored array is the live list followed by stale slots. *)
Lemma rep_split t rs : rep t rs ->
  exists stale, mt_regions t = rs ++ stale /\ (length rs + length stale)%nat = mt_max t.
Proof.
  intros [H1 H2 H3 H4]. exists (drop (length rs) (mt_regions t)). split.
  - rewrite <- H2 at 1. rewrite take_drop. done.
  - rewrite <- H3. rewrite <- H2 at 1. rewrite length_take, length_drop. lia.
Qed.

Lemma rep_intro rs stale mx total pa :
  (length rs + length stale)%nat = mx -> total = u32 (sum_sizes rs) ->
  rep (mk_type (length rs) mx total (rs ++ stale) pa) rs.
Proof.
  intros H1 ->. constructor; simpl; [done| |rewrite length_app; lia|done].
  by rewrite take_app_length.
Qed.

Lemma insert_region_rep t pre post b s f :
  rep t (pre ++ post) -> (length (pre ++ post) < mt_max t)%nat ->
  exists t', memblock_insert_region t (length pre) b s f = Ret t'
    /\ rep t' (pre ++ mk_region b s f :: post)
    /\ mt_max t' = mt_max t /\ mt_pa t' = mt_pa t.
Proof.
  intros H Hroom. pose proof (rep_split _ _ H) as (stale & E & L).
  destruct H as [H1 H2 H3 H4]. unfold memblock_insert_region.
  destruct (Nat.leb_spec (mt_max t) (mt_cnt t)); [lia|].
  destruct stale as [|s0 stale]; [simpl in L; lia|].
  rewrite memmove_in by (rewrite H3, ?H1, length_app in *; lia).
  simpl. rewrite E, H1, length_app.
  replace (length pre + length post - length pre)%nat with (length post) by lia.
  rewrite <- app_assoc.
  replace (take (length post) (drop (length pre) (pre ++ post ++ s0 :: stale))) with post
    by (rewrite drop_app_length, take_app_length; done).
  replace (drop (length pre + 1 + length post) (pre ++ post ++ s0 :: stale)) with stale.
  2:{ replace (length pre + 1 + length post)%nat with (length pre + (length post + 1))%nat by lia.
      rewrite <- drop_drop, drop_app_length, <- drop_drop, drop_app_length. done. }
  assert (exists z, take (length pre + 1) (pre ++ post ++ s0 :: stale) = pre ++ [z]) as [z ->].
  { rewrite take_app_ge by lia. replace (length pre + 1 - length pre)%nat with 1%nat by lia.
    destruct post; simpl; eauto. }
  rewrite <- app_assoc. simpl. rewrite arr_set_middle. simpl.
  eexists. split; [reflexivity|]. split; [|done].
  replace (length pre + length post + 1)%nat with (length (pre ++ mk_region b s f :: post))
    by (rewrite length_app; simpl; lia).
  rewrite (app_comm_cons post stale), app_assoc. apply rep_intro.
  - rewrite length_app in *. simpl in *. lia.
  - rewrite H4, u32_add_l, !sum_sizes_app. simpl. f_equal. lia.
Qed.

Lemma set_region_rep t pre r post r' total :
  rep t (pre ++ r :: post) -> total = u32 (sum_sizes (pre ++ r' :: post)) ->
  exists a, arr_set (mt_regions t) (length pre) r' = Ret a
    /\ rep (mk_type (mt_cnt t) (mt_max t) total a (mt_pa t)) (pre ++ r' :: post).
Proof.
  intros H Ht. pose proof (rep_split _ _ H) as (stale & E & L).
  destruct H as [H1 H2 H3 H4]. rewrite E, <- app_assoc. simpl. rewrite arr_set_middle.
  eexists. split; [reflexivity|]. rewrite H1.
  replace (length (pre ++ r :: post)) with (length (pre ++ r' :: post))
    by (rewrite !length_app; done).
  rewrite app_comm_cons, app_assoc. apply rep_intro; [|done].
  rewrite <- L, !length_app. done.
Qed.

(** [memmove] down by one slot, as [memblock_remove_region] and
    [memblock_merge_regions] use it. *)
Lemma memmove_down {A} (pre : list A) r post stale :
  exists z, memmove (pre ++ r :: post ++ stale) (length pre) (length pre + 1) (length post)
    = Ret (pre ++ post ++ z :: stale).
Proof.
  rewrite memmove_in by (rewrite length_app; simpl; rewrite length_app; lia).
  rewrite take_app_length.
  assert (drop (length pre + 1) (pre ++ r :: post ++ stale) = post ++ stale) as ->.
  { rewrite <- drop_drop, drop_app_length. done. }
  rewrite take_app_length.
  rewrite <- drop_drop, drop_app_length.
  destruct (last (r :: post)) as [z|] eqn:E; [|by apply last_None in E].
  exists z. do 3 f_equal. apply last_Some in E as [l E].
  replace (r :: post ++ stale) with (l ++ z :: stale).
  - assert (length post = length l) as ->.
    { apply (f_equal length) in E. rewrite length_app in E. simpl in E. lia. }
    by rewrite drop_app_length.
  - rewrite (app_comm_cons post stale r), E, <- app_assoc. done.
Qed.

Lemma remove_region_rep t pre r post :
  rep t (pre ++ r :: post) -> pre ++ post <> [] ->
  exists t', memblock_remove_region t (length pre) = Ret t'
    /\ rep t' (pre ++ post) /\ mt_max t' = mt_max t /\ mt_pa t' = mt_pa t.
Proof.
  intros H Hne. pose proof (rep_split _ _ H) as (stale & E & L).
  unfold memblock_remove_region. rewrite (rep_get _ _ _ _ H). simpl.
  destruct H as [H1 H2 H3 H4]. rewrite E, <- app_assoc. simpl.
  rewrite H1, length_app. simpl.
  replace (length pre + S (length post) - (length pre + 1))%nat with (length post) by lia.
  destruct (memmove_down pre r post stale) as [z ->]. simpl.
  replace (length pre + S (length post) - 1)%nat with (length (pre ++ post))
    by (rewrite length_app; lia).
  destruct (Nat.eqb_spec (length (pre ++ post)) 0) as [Z0|_].
  { by apply nil_length_inv in Z0. }
  eexists. split; [reflexivity|]. split; [|done]. rewrite app_assoc. apply rep_intro.
  - rewrite length_app in *. simpl in *. lia.
  - rewrite H4, u32_sub_l, !sum_sizes_app. f_equal. simpl. lia.
Qed.

Lemma remove_last_region_rep t r :
  rep t [r] ->
  exists t', memblock_remove_region t 0 = Ret t'
    /\ rep t' [zero_region] /\ mt_max t' = mt_max t /\ mt_pa t' = mt_pa t.
Proof.
  intros H. pose proof (rep_split _ _ H) as (stale & E & L).
  unfold memblock_remove_region.
  rewrite (rep_get' _ _ 0 r H eq_refl). simpl.
  destruct H as [H1 H2 H3 H4]. rewrite E, H1. simpl.
  eexists. split; [reflexivity|]. split; [|done].
  apply (rep_intro [zero_region]); [done|].
  rewrite H4, u32_sub_l. f_equal. unfold sum_sizes. simpl. lia.
Qed.

(** ** Merging *)

(** What [memblock_merge_regions] computes, on the list. *)
Fixpoint merge_list (r : memblock_region) (rs : list memblock_region) : list memblock_region :=
  match rs with
  | [] => [r]
  | n :: rs' =>
      if (rg_base r + rg_size r =? rg_base n) && (rg_flags r =? rg_flags n)
      then merge_list (mk_region (rg_base r) (rg_size r + rg_size n) (rg_flags r)) rs'
      else r :: merge_list n rs'
  end.

Lemma merge_list_sum r rs : sum_sizes (merge_list r rs) = rg_size r + sum_sizes rs.
Proof.
  revert r. induction rs as [|n rs IH]; intros r; simpl; [done|].
  destruct (_ && _); simpl; rewrite IH; simpl; lia.
Qed.

Lemma merge_list_ordered lo r rs : ordered lo (r :: rs) -> ordered lo (merge_list r rs).
Proof.
  revert lo r. induction rs as [|n rs IH]; intros lo r H; [done|]. simpl merge_list.
  destruct (_ && _) eqn:E.
  - apply andb_true_iff in E as [E _]. apply Z.eqb_eq in E. apply IH.
    simpl in *. intuition; try lia. eapply ordered_weaken; [|eassumption]. lia.
  - destruct H as (? & ? & ? & H). repeat split; try done. by apply IH.
Qed.


Lemma merge_list_covered lo r rs a : ordered lo (r :: rs) ->
  covered (merge_list r rs) a <-> covered (r :: rs) a.
Proof.
  revert lo r. induction rs as [|n rs IH]; intros lo r H; [done|]. simpl merge_list.
  destruct (_ && _) eqn:E.
  - apply andb_true_iff in E as [E _]. apply Z.eqb_eq in E. rewrite (IH lo).
    + rewrite !covered_cons. unfold in_region. simpl in *. intuition lia.
    + simpl in *. intuition; try lia. eapply ordered_weaken; [|eassumption]. lia.
  - destruct H as (? & ? & ? & H). rewrite covered_cons, (IH _ _ H), (covered_cons r). done.
Qed.

Lemma merge_list_head r rs : exists n l, merge_list r rs = n :: l
  /\ rg_base n = rg_base r /\ rg_flags n = rg_flags r.
Proof.
  revert r. induction rs as [|n rs IH]; intros r; simpl; [by eauto|].
  destruct (_ && _); [|by eauto].
  destruct (IH (mk_region (rg_base r) (rg_size r + rg_size n) (rg_flags r))) as (x & l & -> & ? & ?).
  eauto.
Qed.

Lemma merge_list_minimal r rs : minimal (merge_list r rs).
Proof.
  revert r. induction rs as [|n rs IH]; intros r; [done|]. simpl merge_list.
  destruct (_ && _) eqn:E; [done|].
  pose proof (IH n) as M. destruct (merge_list_head n rs) as (x & l & Ex & Eb & Ef).
  rewrite Ex in *. simpl. split; [|done]. unfold mergeable. rewrite Eb, Ef.
  intros [H1 H2]. apply andb_false_iff in E as [E|E]; apply Z.eqb_neq in E; lia.
Qed.

Lemma merge_list_length r rs : (1 <= length (merge_list r rs) <= S (length rs))%nat.
Proof.
  revert r. induction rs as [|n rs IH]; intros r; simpl; [lia|].
  destruct (_ && _); [pose proof (IH (mk_region (rg_base r) (rg_size r + rg_size n) (rg_flags r)))
                     |pose proof (IH n)]; simpl; lia.
Qed.

Lemma merge_list_ne r rs : merge_list r rs <> [].
Proof. destruct (merge_list_head r rs) as (n & l & -> & _). done. Qed.

(** One run of the loop from index [length pre] computes [merge_list]. *)
Lemma merge_loop_spec fuel t pre r post :
  rep t (pre ++ r :: post) -> ordered 0 (r :: post) -> (length post < fuel)%nat ->
  exists t', merge_loop fuel t (length pre) = Ret t'
    /\ rep t' (pre ++ merge_list r post) /\ mt_max t' = mt_max t /\ mt_pa t' = mt_pa t.
Proof.
  revert fuel t pre r. induction post as [|n post IH]; intros fuel t pre r H Ho Hf;
    (destruct fuel as [|fuel]; [simpl in Hf; lia|]); simpl merge_loop.
  - rewrite (rep_cnt _ _ H), length_app. simpl.
    destruct (Nat.ltb_spec (length pre) (length pre + 1 - 1)); [lia|]. eauto.
  - rewrite (rep_cnt _ _ H), length_app. simpl length.
    destruct (Nat.ltb_spec (length pre) (length pre + S (S (length post)) - 1)); [|lia].
    rewrite (rep_get _ _ _ _ H). simpl obind.
    assert (arr_get (mt_regions t) (length pre + 1) = Ret n) as ->.
    { eapply rep_get'; [exact H|]. rewrite lookup_app_r by lia.
      replace (length pre + 1 - length pre)%nat with 1%nat by lia. done. }
    simpl obind.
    assert (rg_end r = rg_base r + rg_size r) as Er.
    { eapply (ordered_region_end 0); [lia|exact Ho|left]. }
    rewrite Er. simpl merge_list. rewrite <- negb_andb.
    destruct (_ && _) eqn:E; simpl negb.
    + apply andb_true_iff in E as [E _]. apply Z.eqb_eq in E.
      simpl in Ho. destruct Ho as (? & ? & ? & ? & ? & ? & Ho).
      rewrite (u32_small (rg_size r + rg_size n)) by lia.
      set (m := mk_region (rg_base r) (rg_size r + rg_size n) (rg_flags r)).
      pose proof (rep_split _ _ H) as (stale & Ea & L).
      rewrite Ea, <- app_assoc. simpl app. rewrite arr_set_middle. simpl obind.
      replace (length pre + S (S (length post)) - (length pre + 2))%nat with (length post) by lia.
      destruct (memmove_down (pre ++ [m]) n post stale) as [z Hz].
      rewrite length_app, <- !app_assoc in Hz. simpl in Hz.
      replace (length pre + 1 + 1)%nat with (length pre + 2)%nat in Hz by lia.
      rewrite Hz. simpl obind.
      edestruct (IH fuel (mk_type (length pre + S (S (length post)) - 1) (mt_max t)
         (mt_total_size t) (pre ++ m :: post ++ z :: stale) (mt_pa t)) pre m)
        as (t' & -> & Hr & Hm); [| |simpl in Hf; lia|by eauto].
      * replace (length pre + S (S (length post)) - 1)%nat with (length (pre ++ m :: post))
          by (rewrite length_app; simpl; lia).
        rewrite app_comm_cons, app_assoc. apply rep_intro.
        -- rewrite length_app in *. simpl in *. lia.
        -- rewrite (rep_total _ _ H), !sum_sizes_app. simpl. f_equal. lia.
      * simpl. repeat split; try lia. eapply ordered_weaken; [|eassumption]. lia.
    + destruct (Z.ltb_spec (rg_base n) (rg_base r + rg_size r)); [simpl in Ho; lia|].
      replace (length pre + 1)%nat with (length (pre ++ [r])) by (rewrite length_app; done).
      replace (pre ++ r :: merge_list n post) with ((pre ++ [r]) ++ merge_list n post)
        by (by rewrite <- app_assoc).
      apply IH; [by rewrite <- app_assoc| |simpl in Hf; lia].
      destruct Ho as (? & ? & ? & Ho). eapply ordered_weaken; [|exact Ho]. lia.
Qed.

Lemma merge_regions_spec t r rs :
  rep t (r :: rs) -> ordered 0 (r :: rs) ->
  exists t', memblock_merge_regions t = Ret t' /\ rep t' (merge_list r rs)
    /\ mt_max t' = mt_max t /\ mt_pa t' = mt_pa t.
Proof.
  intros H Ho. unfold memblock_merge_regions.
  apply (merge_loop_spec (mt_cnt t) t [] r rs); [done|done|].
  rewrite (rep_cnt _ _ H). simpl. lia.
Qed.

(** ** Binary search *)

Lemma search_loop_spec fuel t rs addr left right :
  rep t rs -> ordered 0 rs -> (left < right <= length rs)%nat -> (right - left <= fuel)%nat ->
  (forall i r, rs !! i = Some r -> (i < left)%nat -> rg_base r + rg_size r <= addr) ->
  (forall i r, rs !! i = Some r -> (right <= i)%nat -> addr < rg_base r) ->
  (exists i r, search_loop fuel t addr left right = Ret (Z.of_nat i)
     /\ rs !! i = Some r /\ in_region addr r)
  \/ (search_loop fuel t addr left right = Ret (-1) /\ ~ covered rs addr).
Proof.
  revert left right. induction fuel as [|fuel IH]; intros left right H Ho Hlr Hf Hl Hr; [lia|].
  cbn [search_loop]. set (mid := ((right + left) / 2)%nat).
  assert (left <= mid < right)%nat as Hmid.
  { subst mid. split; [apply Nat.div_le_lower_bound; lia|apply Nat.Div0.div_lt_upper_bound; lia]. }
  destruct (lookup_lt_is_Some_2 rs mid) as [r Hr0]; [lia|].
  rewrite (rep_get' _ _ _ _ H Hr0). simpl obind.
  assert (r ∈ rs) as Hin by (by eapply list_elem_of_lookup_2).
  rewrite (ordered_region_end 0 rs r) by (done || lia).
  assert (forall i x, rs !! i = Some x -> (mid < i)%nat -> rg_base r + rg_size r <= rg_base x) as Hup.
  { intros i x Hx Hi. pose proof (take_drop_middle _ _ _ Hx) as E.
    rewrite <- E in Ho. eapply (ordered_before _ _ _ _ r) in Ho; [done|].
    eapply list_elem_of_lookup_2. rewrite lookup_take_lt; [exact Hr0|done]. }
  assert (forall i x, rs !! i = Some x -> (i < mid)%nat -> rg_base x + rg_size x <= rg_base r) as Hdn.
  { intros i x Hx Hi. pose proof (take_drop_middle _ _ _ Hr0) as E.
    rewrite <- E in Ho. eapply (ordered_before _ _ _ _ x) in Ho; [done|].
    eapply list_elem_of_lookup_2. rewrite lookup_take_lt; [exact Hx|done]. }
  destruct (ordered_bounds _ _ _ Ho Hin) as (? & ? & ?).
  destruct (Z.ltb_spec addr (rg_base r)) as [Hlt|Hge].
  - assert (forall i x, rs !! i = Some x -> (mid <= i)%nat -> addr < rg_base x) as Hr'.
    { intros i x Hx Hi. destruct (decide (i = mid)) as [->|]; [congruence|].
      specialize (Hup i x Hx). lia. }
    destruct (Nat.ltb_spec left mid); [apply IH; done || lia|].
    right. split; [done|]. intros Hc. apply Exists_exists in Hc as (x & Hx & Ha).
    apply list_elem_of_lookup in Hx as [i Hx]. unfold in_region in Ha.
    destruct (decide (i < mid)%nat); [specialize (Hl i x Hx)|specialize (Hr' i x Hx)]; lia.
  - destruct (Z.leb_spec (rg_base r + rg_size r) addr) as [Hle|Hgt].
    + assert (forall i x, rs !! i = Some x -> (i < mid + 1)%nat -> rg_base x + rg_size x <= addr) as Hl'.
      { intros i x Hx Hi. destruct (decide (i = mid)) as [->|]; [congruence|].
        specialize (Hdn i x Hx). lia. }
      destruct (Nat.ltb_spec (mid + 1) right); [apply IH; done || lia|].
      right. split; [done|]. intros Hc. apply Exists_exists in Hc as (x & Hx & Ha).
      apply list_elem_of_lookup in Hx as [i Hx]. unfold in_region in Ha.
      destruct (decide (i < mid + 1)%nat); [specialize (Hl' i x Hx)|specialize (Hr i x Hx)]; lia.
    + left. exists mid, r. unfold in_region. repeat split; done || lia.
Qed.
