(* ===== verification/MemblockRange.v ===== *)
(** * Range operations of memblock as set operations

    [memblock_add_range], [memblock_remove_range] and [memblock_setclr_flag]
    against their specification on the set of addresses a region array covers. *)
From Stdlib Require Import ZArith Lia Bool.
From stdpp Require Import base numbers list.
From S2P Require Import Prelude Memblock MemblockRegions.

(** ** The list [memblock_add_range] builds before merging *)

Fixpoint add_list (base end_ flags : Z) (rs : list memblock_region) : list memblock_region :=
  match rs with
  | [] => if base <? end_ then [mk_region base (end_ - base) flags] else []
  | r :: rs' =>
      if end_ <=? rg_base r then
        if base <? end_ then mk_region base (end_ - base) flags :: r :: rs' else r :: rs'
      else if rg_base r + rg_size r <=? base then r :: add_list base end_ flags rs'
      else if base <? rg_base r then
        mk_region base (rg_base r - base) flags
          :: r :: add_list (Z.min (rg_base r + rg_size r) end_) end_ flags rs'
      else r :: add_list (Z.min (rg_base r + rg_size r) end_) end_ flags rs'
  end.

Lemma add_list_length base end_ flags rs : (length rs <= length (add_list base end_ flags rs))%nat.
Proof.
  revert base. induction rs as [|r rs IH]; intros base; simpl; [lia|].
  repeat cmp; simpl; try lia;
    match goal with |- context [add_list ?b _ _ _] => pose proof (IH b); lia end.
Qed.

Lemma add_list_empty end_ flags rs : add_list end_ end_ flags rs = rs.
Proof.
  induction rs as [|r rs IH]; simpl; repeat cmp; try lia; try done; rewrite ?Z.min_r by lia;
    by rewrite IH.
Qed.

Lemma add_list_ordered lo base end_ flags rs :
  lo <= base -> end_ <= U32_MAX -> ordered lo rs -> ordered lo (add_list base end_ flags rs).
Proof.
  revert lo base. induction rs as [|r rs IH]; intros lo base Hb He H.
  - simpl. cmp; simpl; [repeat split; lia|done].
  - destruct H as (H1 & H2 & H3 & H4).
    assert (ordered (rg_base r + rg_size r)
              (add_list (Z.min (rg_base r + rg_size r) end_) end_ flags rs)) as Hmin.
    { destruct (Z.min_spec (rg_base r + rg_size r) end_) as [[? ->]|[? ->]].
      - apply IH; done || lia.
      - by rewrite add_list_empty. }
    simpl. repeat cmp; simpl; repeat split; try lia; try done; apply IH; done || lia.
Qed.

Lemma add_list_covered lo base end_ flags rs a :
  ordered lo rs ->
  covered (add_list base end_ flags rs) a <-> covered rs a \/ base <= a < end_.
Proof.
  revert lo base. induction rs as [|r rs IH]; intros lo base H.
  - simpl. cmp; rewrite ?covered_cons, covered_nil; unfold in_region; simpl; intuition lia.
  - destruct H as (H1 & H2 & H3 & H4).
    assert (forall b, covered (add_list b end_ flags rs) a <-> covered rs a \/ b <= a < end_) as IH'
      by (intros b; by eapply IH).
    simpl. repeat cmp; rewrite ?covered_cons, ?IH'; unfold in_region; simpl; intuition lia.
Qed.

(** The insert pass of [memblock_add_range] builds [add_list]. *)
Lemma add_scan_true fuel t pre post base end_ flags nr :
  rep t (pre ++ post) -> ordered 0 post -> 0 <= base -> end_ <= U32_MAX ->
  (length post < fuel)%nat ->
  (length pre + length (add_list base end_ flags post) <= mt_max t)%nat ->
  exists t' pre' post' base' nr',
    add_scan fuel true t (length pre) base end_ flags nr = Ret (t', length pre', base', nr')
    /\ rep t' (pre' ++ post')
    /\ pre' ++ (if base' <? end_ then [mk_region base' (end_ - base') flags] else []) ++ post'
       = pre ++ add_list base end_ flags post
    /\ 0 <= base' /\ mt_max t' = mt_max t /\ mt_pa t' = mt_pa t
    /\ (nr' + length post + (if (base' <? end_)%Z then 1 else 0)
         = nr + length (add_list base end_ flags post))%nat.
Proof.
  revert fuel t pre base nr.
  induction post as [|r post IH]; intros fuel t pre base nr H Ho Hb He Hf Hroom;
    (destruct fuel as [|fuel]; [simpl in Hf; lia|]); cbn [add_scan].
  - rewrite (rep_cnt _ _ H), app_nil_r, Nat.ltb_irrefl.
    exists t, pre, [], base, nr. rewrite app_nil_r in *. simpl. split_and!; try done.
    + destruct (base <? end_); rewrite ?app_nil_r; done.
    + destruct (base <? end_); simpl; lia.
  - rewrite (rep_cnt _ _ H), length_app. simpl length.
    destruct (Nat.ltb_spec (length pre) (length pre + S (length post))); [|lia].
    rewrite (rep_get _ _ _ _ H). cbn [obind].
    assert (rg_end r = rg_base r + rg_size r) as Er
      by (eapply (ordered_region_end 0); [lia|exact Ho|left]).
    destruct Ho as (Ho1 & Ho2 & Ho3 & Ho4).
    assert (ordered 0 post) as Ho5 by (eapply ordered_weaken; [|exact Ho4]; lia).
    rewrite Er. simpl add_list in *.
    assert (forall l, pre ++ r :: l = (pre ++ [r]) ++ l) as Ea by (intros; by rewrite <- app_assoc).
    assert (length pre + 1 = length (pre ++ [r]))%nat as El by (rewrite length_app; done).
    destruct (Z.leb_spec end_ (rg_base r)).
    + exists t, pre, (r :: post), base, nr. split_and!; try done.
      * destruct (base <? end_); done.
      * destruct (base <? end_); simpl; lia.
    + destruct (Z.leb_spec (rg_base r + rg_size r) base).
      * rewrite El. edestruct (IH fuel t (pre ++ [r]) base nr) as (t' & pre' & post' & b' & nr' & K1 & K2 & K3 & K4 & K5 & K6 & K7);
          [by rewrite <- Ea|done|lia|done|simpl in Hf; lia| |].
        { rewrite <- El. simpl in Hroom. lia. }
        exists t', pre', post', b', nr'. split_and!; try done; [by rewrite Ea|].
        destruct (b' <? end_); simpl in *; lia.
      * destruct (Z.ltb_spec base (rg_base r)).
        -- destruct (insert_region_rep t pre (r :: post) base (rg_base r - base) flags H) as (t1 & E1 & R1 & M1 & P1).
           { simpl in Hroom. rewrite length_app. simpl.
             pose proof (add_list_length (Z.min (rg_base r + rg_size r) end_) end_ flags post). lia. }
           rewrite u32_small by lia. rewrite E1. cbn [obind].
           replace (length pre + 2)%nat with (length (pre ++ [mk_region base (rg_base r - base) flags; r]))
             by (rewrite length_app; done).
           edestruct (IH fuel t1 (pre ++ [mk_region base (rg_base r - base) flags; r])
                        (Z.min (rg_base r + rg_size r) end_) (nr + 1)%nat)
             as (t' & pre' & post' & b' & nr' & K1 & K2 & K3 & K4 & K5 & K6 & K7);
             [by rewrite <- app_assoc|done|lia|done|simpl in Hf; lia| |].
           { rewrite length_app, M1. simpl in *. lia. }
           exists t', pre', post', b', nr'. rewrite <- app_assoc in K3. split_and!; try done; try congruence.
           destruct (b' <? end_); simpl in *; lia.
        -- rewrite El.
           edestruct (IH fuel t (pre ++ [r]) (Z.min (rg_base r + rg_size r) end_) nr)
             as (t' & pre' & post' & b' & nr' & K1 & K2 & K3 & K4 & K5 & K6 & K7);
             [by rewrite <- Ea|done|lia|done|simpl in Hf; lia| |].
           { rewrite <- El. simpl in Hroom. lia. }
           exists t', pre', post', b', nr'. split_and!; try done; [by rewrite Ea|].
           destruct (b' <? end_); simpl in *; lia.
Qed.

(** The counting pass changes nothing and counts the regions to insert. *)
Lemma add_scan_false fuel t pre post base end_ flags nr :
  rep t (pre ++ post) -> ordered 0 post -> (length post < fuel)%nat ->
  exists idx base' nr',
    add_scan fuel false t (length pre) base end_ flags nr = Ret (t, idx, base', nr')
    /\ (nr' + length post + (if (base' <? end_)%Z then 1 else 0)
        = nr + length (add_list base end_ flags post))%nat.
Proof.
  revert fuel pre base nr.
  induction post as [|r post IH]; intros fuel pre base nr H Ho Hf;
    (destruct fuel as [|fuel]; [simpl in Hf; lia|]); cbn [add_scan].
  - rewrite (rep_cnt _ _ H), app_nil_r, Nat.ltb_irrefl.
    exists (length pre), base, nr. split; [done|]. simpl. destruct (base <? end_); simpl; lia.
  - rewrite (rep_cnt _ _ H), length_app. simpl length.
    destruct (Nat.ltb_spec (length pre) (length pre + S (length post))); [|lia].
    rewrite (rep_get _ _ _ _ H). cbn [obind].
    rewrite (ordered_region_end 0 (r :: post) r) by (done || lia || left).
    destruct Ho as (Ho1 & Ho2 & Ho3 & Ho4).
    assert (ordered 0 post) as Ho5 by (eapply ordered_weaken; [|exact Ho4]; lia).
    assert (length pre + 1 = length (pre ++ [r]))%nat as El by (rewrite length_app; done).
    assert (forall b n, exists idx base' nr',
      add_scan fuel false t (length pre + 1) b end_ flags n = Ret (t, idx, base', nr')
      /\ (nr' + length post + (if (base' <? end_)%Z then 1 else 0)
          = n + length (add_list b end_ flags post))%nat) as IH'.
    { intros b n. rewrite El. apply IH; [by rewrite <- app_assoc|done|simpl in Hf; lia]. }
    simpl add_list. repeat cmp;
      match goal with
      | |- context [add_scan _ _ _ _ ?b _ _ ?n] =>
          destruct (IH' b n) as (idx & b' & n' & -> & K); exists idx, b', n';
          split; [done|]; destruct (b' <? end_); simpl in *; lia
      | |- _ => exists (length pre), base, nr; split; [done|]; destruct (Z.ltb_spec base end_); simpl; lia
      end.
Qed.

Lemma add_pass_true t rs base end_ flags :
  rep t rs -> ordered 0 rs -> 0 <= base -> end_ <= U32_MAX ->
  (length (add_list base end_ flags rs) <= mt_max t)%nat ->
  exists t' nr, add_pass true t base end_ flags = Ret (t', nr)
    /\ rep t' (add_list base end_ flags rs) /\ mt_max t' = mt_max t /\ mt_pa t' = mt_pa t
    /\ (nr + length rs = length (add_list base end_ flags rs))%nat.
Proof.
  intros H Ho Hb He Hroom. unfold add_pass.
  destruct (add_scan_true (S (mt_cnt t)) t [] rs base end_ flags 0)
    as (t' & pre & post & b' & nr & E & R & A & B & M & P & N); try done.
  { rewrite (rep_cnt _ _ H). lia. }
  change (length []) with 0%nat in E. rewrite E. cbn [obind]. simpl in A.
  destruct (Z.ltb_spec b' end_).
  - rewrite u32_small by lia.
    destruct (insert_region_rep t' pre post b' (end_ - b') flags R) as (t2 & E2 & R2 & M2 & P2).
    { rewrite M. apply (f_equal length) in A. rewrite length_app in *. simpl in A. lia. }
    rewrite E2. cbn [obind]. exists t2, (nr + 1)%nat. simpl in A. rewrite A in R2.
    split_and!; try done; try congruence. lia.
  - simpl in A. rewrite A in R. exists t', nr. split_and!; try done. lia.
Qed.

Lemma add_pass_false t rs base end_ flags :
  rep t rs -> ordered 0 rs ->
  exists nr, add_pass false t base end_ flags = Ret (t, nr)
    /\ (nr + length rs = length (add_list base end_ flags rs))%nat.
Proof.
  intros H Ho. unfold add_pass.
  destruct (add_scan_false (S (mt_cnt t)) t [] rs base end_ flags 0) as (idx & b' & nr & E & N);
    try done.
  { rewrite (rep_cnt _ _ H). lia. }
  change (length []) with 0%nat in E. rewrite E. cbn [obind].
  destruct (Z.ltb_spec b' end_); [exists (nr + 1)%nat|exists nr]; (split; [done|lia]).
Qed.

(** When nothing has to be inserted the list already is the result. *)
Lemma add_list_same base end_ flags rs :
  length (add_list base end_ flags rs) = length rs -> add_list base end_ flags rs = rs.
Proof.
  revert base. induction rs as [|r rs IH]; intros base; simpl.
  - by destruct (base <? end_).
  - repeat cmp; simpl; intros E; try done; try lia;
      try (f_equal; apply IH; lia).
    match type of E with context [add_list ?b _ _ _] =>
      pose proof (add_list_length b end_ flags rs); lia end.
Qed.

Lemma get_set_type w t mb : get_type w (set_type w t mb) = t.
Proof. by destruct w. Qed.

Definition other (w : which) : which := match w with Memory => Reserved | Reserved => Memory end.

Lemma get_set_other w t mb : get_type (other w) (set_type w t mb) = get_type (other w) mb.
Proof. by destruct w. Qed.

(** Fields no range operation touches when the array is not doubled. *)
Definition same_frame (w : which) (mb mb' : memblock) : Prop :=
  get_type (other w) mb' = get_type (other w) mb
  /\ mb_current_limit mb' = mb_current_limit mb
  /\ mb_has_mirror mb' = mb_has_mirror mb /\ mb_can_resize mb' = mb_can_resize mb
  /\ mb_memory_in_slab mb' = mb_memory_in_slab mb
  /\ mb_reserved_in_slab mb' = mb_reserved_in_slab mb
  /\ mt_max (get_type w mb') = mt_max (get_type w mb).

Lemma same_frame_refl w mb : same_frame w mb mb.
Proof. by unfold same_frame. Qed.

Lemma same_frame_set w t mb : mt_max t = mt_max (get_type w mb) -> same_frame w mb (set_type w t mb).
Proof. unfold same_frame. destruct w; simpl; done. Qed.
#[export] Hint Resolve same_frame_refl same_frame_set : memblock.

Lemma cap_size_range base size :
  0 <= base <= U32_MAX -> 0 <= size ->
  0 <= memblock_cap_size base size /\ base + memblock_cap_size base size <= U32_MAX
  /\ u32 (base + memblock_cap_size base size) = base + memblock_cap_size base size.
Proof.
  intros Hb Hs. unfold memblock_cap_size. rewrite (u32_small (U32_MAX - base)) by lia.
  split; [lia|]. split; [lia|]. apply u32_small. lia.
Qed.

Lemma ensure_room_enough fuel dbl w extra base size mb :
  (mt_cnt (get_type w mb) + extra <= mt_max (get_type w mb))%nat ->
  ensure_room (S fuel) dbl w extra base size mb = Ret (0, mb).
Proof. intros H. simpl. by destruct (Nat.ltb_spec (mt_max (get_type w mb)) (mt_cnt (get_type w mb) + extra)); [lia|]. Qed.

(** The last part of [memblock_add_range]: the insert pass and the merge. *)
Lemma add_insert_merge t rs base end_ flags :
  rep t rs -> rs <> [] -> ordered 0 rs -> 0 <= base -> end_ <= U32_MAX ->
  (length (add_list base end_ flags rs) <= mt_max t)%nat ->
  length (add_list base end_ flags rs) <> length rs ->
  exists t2 nr t3 rs', add_pass true t base end_ flags = Ret (t2, S nr)
    /\ memblock_merge_regions t2 = Ret t3
    /\ wf_type t3 rs' /\ minimal rs' /\ rs' <> []
    /\ mt_max t3 = mt_max t /\ mt_pa t3 = mt_pa t
    /\ (length rs' <= length (add_list base end_ flags rs))%nat
    /\ (forall a, covered rs' a <-> covered rs a \/ base <= a < end_).
Proof.
  intros H Hne Ho Hb He Hroom Hdiff.
  destruct (add_pass_true t rs base end_ flags) as (t2 & nr & E & R & M & P & N); try done.
  pose proof (add_list_ordered 0 base end_ flags rs Hb He Ho) as Ho2.
  destruct nr as [|nr]; [lia|].
  destruct (add_list base end_ flags rs) as [|r l] eqn:Ea; [simpl in N; lia|].
  destruct (merge_regions_spec t2 r l R Ho2) as (t3 & E3 & R3 & M3 & P3).
  pose proof (merge_list_ne r l) as Hne3.
  exists t2, nr, t3, (merge_list r l). split_and!; try done; try congruence.
  - split; [by right|by apply merge_list_ordered].
  - apply merge_list_minimal.
  - apply merge_list_length.
  - intros a. rewrite (merge_list_covered 0) by done. rewrite <- Ea.
    by eapply add_list_covered.
Qed.

(** [memblock_add_range] when the array has room for the new regions. *)
Lemma add_range_room dbl fuel w base size flags mb rs :
  wf_type (get_type w mb) rs -> 0 <= base <= U32_MAX -> 0 <= size ->
  (length (add_list base (base + memblock_cap_size base size) flags rs)
     <= mt_max (get_type w mb))%nat ->
  exists mb' rs', memblock_add_range_with dbl (S fuel) w base size flags mb = Ret (0, mb')
    /\ wf_type (get_type w mb') rs'
    /\ same_frame w mb mb'
    /\ (minimal rs -> minimal rs')
    /\ (length rs' <= length (add_list base (base + memblock_cap_size base size) flags rs))%nat
    /\ (forall a, covered rs' a <-> covered rs a \/ base <= a < base + memblock_cap_size base size).
Proof.
  intros [Hv Ho] Hb Hs Hroom. unfold memblock_add_range_with.
  destruct (cap_size_range base size Hb Hs) as (C1 & C2 & C3). rewrite C3.
  set (sz := memblock_cap_size base size) in *.
  destruct (Z.eqb_spec sz 0) as [E0|E0].
  { exists mb, rs. split_and!; try done; auto with memblock.
    - rewrite E0, Z.add_0_r, add_list_empty. lia.
    - intros a. intuition lia. }
  destruct Hv as [[-> R]|[Hne R]].
  - rewrite (rep_get' _ _ 0 zero_region R eq_refl). cbn [obind]. simpl rg_size.
    destruct (set_region_rep (get_type w mb) [] zero_region [] (mk_region base sz flags) sz R)
      as (a & Ea & Ra).
    { simpl. rewrite u32_small; lia. }
    simpl in Ea. rewrite Ea. cbn [obind]. eexists _, [mk_region base sz flags].
    split; [reflexivity|]. rewrite get_set_type. split_and!.
    + split; [by right|]. simpl. repeat split; lia.
    + by apply same_frame_set.
    + done.
    + simpl. destruct (Z.ltb_spec base (base + sz)); [done|lia].
    + intros a'. rewrite covered_cons, !covered_nil. unfold in_region. simpl. intuition lia.
  - destruct rs as [|r0 rs]; [done|].
    rewrite (rep_get' _ _ 0 r0 R eq_refl). cbn [obind].
    destruct (Z.eqb_spec (rg_size r0) 0); [simpl in Ho; lia|].
    destruct (add_pass_false (get_type w mb) (r0 :: rs) base (base + sz) flags R Ho) as (nr & -> & N).
    cbn [obind]. destruct (Nat.eqb_spec nr 0) as [->|Hnr].
    + exists mb, (r0 :: rs). split_and!; try done; auto with memblock; [by split; [right|]|lia|].
      intros a. rewrite <- (add_list_same base (base + sz) flags (r0 :: rs)) at 1 by lia.
      by eapply add_list_covered.
    + rewrite ensure_room_enough by (rewrite (rep_cnt _ _ R); lia). cbn [obind]. simpl (0 <? 0).
      destruct (add_insert_merge (get_type w mb) (r0 :: rs) base (base + sz) flags)
        as (t2 & nr2 & t3 & rs' & E2 & E3 & W & Mi & _ & Mx & _ & Hl & Cv); try done; try lia.
      rewrite E2. cbn [obind]. cbn [Nat.eqb]. rewrite E3. cbn [obind].
      eexists _, rs'. split; [reflexivity|]. rewrite get_set_type.
      split_and!; try done. by apply same_frame_set.
Qed.

(** ** Isolation *)

(** Address [a] is covered by a region whose flags are [f]. *)
Definition maps (rs : list memblock_region) (a f : Z) : Prop :=
  Exists (fun r => in_region a r /\ rg_flags r = f) rs.

Lemma covered_maps rs a : covered rs a <-> exists f, maps rs a f.
Proof.
  unfold covered, maps. rewrite Exists_exists. split.
  - intros (r & Hin & Ha). exists (rg_flags r). apply Exists_exists. eauto.
  - intros (f & H). apply Exists_exists in H as (r & Hin & Ha & _). eauto.
Qed.

Lemma maps_cons r rs a f : maps (r :: rs) a f <-> (in_region a r /\ rg_flags r = f) \/ maps rs a f.
Proof. unfold maps. by rewrite Exists_cons. Qed.

Lemma maps_app rs1 rs2 a f : maps (rs1 ++ rs2) a f <-> maps rs1 a f \/ maps rs2 a f.
Proof. unfold maps. by rewrite Exists_app. Qed.

Lemma maps_nil a f : maps [] a f <-> False.
Proof. unfold maps. by rewrite Exists_nil. Qed.

(** Cutting a region in two at distance [d] from its base. *)
Lemma ordered_cut lo pre r post d :
  0 < d < rg_size r -> ordered lo (pre ++ r :: post) ->
  ordered lo (pre ++ mk_region (rg_base r) d (rg_flags r)
                  :: mk_region (rg_base r + d) (rg_size r - d) (rg_flags r) :: post).
Proof.
  intros Hd. revert lo. induction pre as [|x pre IH]; intros lo H; simpl in *.
  - intuition; try lia. eapply ordered_weaken; [|eassumption]. lia.
  - intuition.
Qed.

Lemma maps_cut pre r post d a f :
  0 < d < rg_size r ->
  maps (pre ++ mk_region (rg_base r) d (rg_flags r)
             :: mk_region (rg_base r + d) (rg_size r - d) (rg_flags r) :: post) a f
  <-> maps (pre ++ r :: post) a f.
Proof. intros Hd. rewrite !maps_app, !maps_cons. unfold in_region. simpl. intuition lia. Qed.

Definition below (x : Z) (r : memblock_region) : Prop := rg_base r + rg_size r <= x.
Definition within (b e : Z) (r : memblock_region) : Prop :=
  b <= rg_base r /\ rg_base r + rg_size r <= e.
Definition above (x : Z) (r : memblock_region) : Prop := x <= rg_base r.

(** The indices isolation reports for the middle part. *)
Definition indices (lo mid : list memblock_region) (s e : nat) : Prop :=
  match mid with
  | [] => s = 0%nat /\ e = 0%nat
  | _ => s = length lo /\ e = (length lo + length mid)%nat
  end.

(** What isolation establishes: the array is cut at [base] and at [end_]. *)
Definition isolated (rs : list memblock_region) (base end_ : Z) (t' : memblock_type)
    (s e : nat) (lo mid hi : list memblock_region) : Prop :=
  rep t' (lo ++ mid ++ hi) /\ ordered 0 (lo ++ mid ++ hi)
  /\ Forall (below base) lo /\ Forall (within base end_) mid /\ Forall (above end_) hi
  /\ indices lo mid s e
  /\ (forall a f, maps (lo ++ mid ++ hi) a f <-> maps rs a f).

(** Replacing the region under the cursor by its two halves, as the code does:
    shrink it in place, then insert the lower half before it. *)
Lemma cut_rep t pre r post d :
  rep t (pre ++ r :: post) -> 0 < d < rg_size r -> rg_size r <= U32_MAX ->
  (length (pre ++ r :: post) < mt_max t)%nat ->
  exists a t2,
    arr_set (mt_regions t) (length pre)
      (mk_region (rg_base r + d) (u32 (rg_size r - d)) (rg_flags r)) = Ret a
    /\ memblock_insert_region
         (mk_type (mt_cnt t) (mt_max t) (u32 (mt_total_size t - d)) a (mt_pa t))
         (length pre) (rg_base r) d (rg_flags r) = Ret t2
    /\ rep t2 (pre ++ mk_region (rg_base r) d (rg_flags r)
                    :: mk_region (rg_base r + d) (rg_size r - d) (rg_flags r) :: post)
    /\ mt_max t2 = mt_max t /\ mt_pa t2 = mt_pa t.
Proof.
  intros H Hd Hb Hroom. rewrite (u32_small (rg_size r - d)) by lia.
  set (hi := mk_region (rg_base r + d) (rg_size r - d) (rg_flags r)).
  destruct (set_region_rep t pre r post hi (u32 (mt_total_size t - d)) H) as (a & Ea & Ra).
  { rewrite (rep_total _ _ H), u32_sub_l, !sum_sizes_app. simpl. f_equal. lia. }
  exists a. destruct (insert_region_rep _ pre (hi :: post) (rg_base r) d (rg_flags r) Ra)
    as (t2 & E2 & R2 & M2 & P2).
  { rewrite length_app in *. simpl in *. lia. }
  exists t2. split_and!; done.
Qed.

Lemma indices_snoc lo mid r s e :
  indices lo mid s e ->
  indices lo (mid ++ [r]) (if (e =? 0)%nat then length (lo ++ mid) else s) (length (lo ++ mid) + 1).
Proof.
  unfold indices. rewrite length_app. destruct mid as [|x mid]; simpl.
  - intros [-> ->]. simpl. lia.
  - intros [-> ->]. destruct (Nat.eqb_spec (length lo + S (length mid)) 0); [lia|].
    rewrite length_app. simpl. lia.
Qed.

Lemma ordered_above lo l r post :
  ordered lo (l ++ r :: post) -> Forall (above (rg_base r + rg_size r)) post.
Proof.
  intros Ho. apply Forall_forall. intros x Hx. apply list_elem_of_split in Hx as (l1 & l2 & ->).
  rewrite app_comm_cons, app_assoc in Ho. eapply (ordered_before lo); [exact Ho|].
  rewrite elem_of_app. right. left.
Qed.

Lemma above_weaken x y rs : y <= x -> Forall (above x) rs -> Forall (above y) rs.
Proof. intros Hxy H. eapply Forall_impl; [exact H|]. unfold above. intros. lia. Qed.

Lemma rep_more t pre r post : rep t (pre ++ r :: post) -> (length pre <? mt_cnt t)%nat = true.
Proof. intros H. apply Nat.ltb_lt. rewrite (rep_cnt _ _ H), length_app. simpl. lia. Qed.

Lemma rep_done t pre : rep t pre -> (length pre <? mt_cnt t)%nat = false.
Proof. intros H. apply Nat.ltb_ge. by rewrite (rep_cnt _ _ H). Qed.

(** The loop once no region crosses [base] any more. *)
Lemma isolate_scan_upper fuel t lo mid post base end_ s e :
  rep t (lo ++ mid ++ post) -> ordered 0 (lo ++ mid ++ post) ->
  Forall (below base) lo -> Forall (within base end_) mid -> Forall (above base) post ->
  indices lo mid s e -> (length post + 2 <= fuel)%nat ->
  (length (lo ++ mid ++ post) < mt_max t)%nat ->
  exists t' s' e' mid' hi,
    isolate_scan fuel t (length (lo ++ mid)) base end_ s e = Ret (t', s', e')
    /\ isolated (lo ++ mid ++ post) base end_ t' s' e' lo mid' hi
    /\ mt_max t' = mt_max t /\ (length (lo ++ mid' ++ hi) <= length (lo ++ mid ++ post) + 1)%nat.
Proof.
  revert fuel t mid s e. induction post as [|r post IH];
    intros fuel t mid s e H Ho Hlo Hmid Hpost Hi Hf Hroom;
    (destruct fuel as [|fuel]; [simpl in Hf; lia|]); cbn [isolate_scan];
    rewrite app_assoc in H.
  - rewrite app_nil_r in H. rewrite (rep_done _ _ H).
    exists t, s, e, mid, []. unfold isolated. rewrite !app_nil_r in *. split_and!; done || lia.
  - rewrite (rep_more _ _ _ _ H), (rep_get _ _ _ _ H). cbn [obind].
    assert (r ∈ lo ++ mid ++ r :: post) as Hin by (rewrite !elem_of_app; right; right; left).
    rewrite (ordered_region_end 0 _ r (Z.le_refl 0) Ho Hin).
    destruct (ordered_bounds _ _ _ Ho Hin) as (B1 & B2 & B3).
    apply Forall_cons in Hpost as [Hr Hpost]. unfold above in Hr.
    destruct (Z.leb_spec end_ (rg_base r)).
    { exists t, s, e, mid, (r :: post). unfold isolated.
      split_and!; try done; [by rewrite app_assoc| |lia].
      apply Forall_cons. split; [done|]. rewrite app_assoc in Ho.
      eapply above_weaken; [|eapply ordered_above, Ho]. lia. }
    destruct (Z.leb_spec (rg_base r + rg_size r) base); [lia|].
    destruct (Z.ltb_spec (rg_base r) base); [lia|].
    destruct (Z.ltb_spec end_ (rg_base r + rg_size r)).
    + (* r crosses end_: cut it and stop after its lower half *)
      rewrite (u32_small (end_ - rg_base r)) by lia.
      destruct (cut_rep t (lo ++ mid) r post (end_ - rg_base r) H) as (a & t2 & E1 & E2 & R2 & M2 & _);
        [lia|lia|by rewrite <- app_assoc|].
      replace (rg_base r + (end_ - rg_base r)) with end_ in * by lia.
      rewrite E1. cbn [obind]. rewrite E2. cbn [obind].
      set (r1 := mk_region (rg_base r) (end_ - rg_base r) (rg_flags r)) in *.
      set (r2 := mk_region end_ (rg_size r - (end_ - rg_base r)) (rg_flags r)) in *.
      destruct fuel as [|fuel]; [simpl in Hf; lia|]. destruct fuel as [|fuel]; [simpl in Hf; lia|].
      cbn [isolate_scan]. rewrite (rep_more _ _ _ _ R2), (rep_get _ _ _ _ R2). cbn [obind].
      assert (rg_end r1 = end_) as -> by (unfold rg_end; simpl; rewrite u32_small; lia).
      change (rg_base r1) with (rg_base r). destruct (Z.leb_spec end_ (rg_base r)); [lia|].
      destruct (Z.leb_spec end_ base); [lia|]. destruct (Z.ltb_spec (rg_base r) base); [lia|].
      rewrite Z.ltb_irrefl.
      replace (length (lo ++ mid) + 1)%nat with (length ((lo ++ mid) ++ [r1])) by (rewrite length_app; done).
      assert (rep t2 (((lo ++ mid) ++ [r1]) ++ r2 :: post)) as R3 by (by rewrite <- app_assoc).
      rewrite (rep_more _ _ _ _ R3), (rep_get _ _ _ _ R3). cbn [obind].
      change (rg_base r2) with end_. rewrite Z.leb_refl.
      eexists t2, _, _, (mid ++ [r1]), (r2 :: post). split; [reflexivity|].
      assert (lo ++ (mid ++ [r1]) ++ r2 :: post = (lo ++ mid) ++ r1 :: r2 :: post) as Eq
        by (by rewrite <- !app_assoc).
      split; [|split; [done|rewrite Eq, !length_app; simpl; lia]].
      unfold isolated. rewrite !Eq.
      assert (ordered 0 ((lo ++ mid) ++ r1 :: r2 :: post)) as Ho2.
      { subst r1 r2. replace end_ with (rg_base r + (end_ - rg_base r)) at 2 by lia.
        apply ordered_cut; [lia|]. by rewrite <- app_assoc. }
      split_and!; try done.
      * apply Forall_app. split; [done|]. apply Forall_singleton. unfold within. simpl. lia.
      * apply Forall_cons. split; [unfold above; simpl; lia|].
        rewrite app_assoc in Ho. eapply above_weaken; [|eapply ordered_above, Ho]. lia.
      * rewrite (length_app (lo ++ mid) [r1]). by apply indices_snoc.
      * intros a' f. subst r1 r2. replace end_ with (rg_base r + (end_ - rg_base r)) at 2 by lia.
        rewrite maps_cut by lia. by rewrite <- app_assoc.
    + (* r is inside: record it *)
      assert (lo ++ mid ++ r :: post = lo ++ (mid ++ [r]) ++ post) as Eq by (by rewrite <- !app_assoc).
      assert (length (lo ++ mid ++ [r]) = length (lo ++ mid) + 1)%nat as El
        by (rewrite !length_app; simpl; lia).
      rewrite Eq in *. rewrite <- (app_assoc lo mid), Eq in H.
      destruct (IH fuel t (mid ++ [r]) (if (e =? 0)%nat then length (lo ++ mid) else s)
                  (length (lo ++ mid) + 1)%nat) as (t' & s' & e' & mid' & hi & E & I & M & Hl);
        try done.
      * apply Forall_app. split; [done|]. apply Forall_singleton. unfold within. lia.
      * by apply indices_snoc.
      * simpl in Hf. lia.
      * rewrite El in E. eauto 10.
Qed.

(** The whole loop, from a cursor below which every region ends before [base]. *)
Lemma isolate_scan_spec fuel t lo post base end_ :
  rep t (lo ++ post) -> ordered 0 (lo ++ post) -> base < end_ -> Forall (below base) lo ->
  (length post + 3 <= fuel)%nat -> (length (lo ++ post) + 2 <= mt_max t)%nat ->
  exists t' s e lo' mid hi,
    isolate_scan fuel t (length lo) base end_ 0 0 = Ret (t', s, e)
    /\ isolated (lo ++ post) base end_ t' s e lo' mid hi /\ mt_max t' = mt_max t
    /\ (length (lo' ++ mid ++ hi) <= length (lo ++ post) + 2)%nat.
Proof.
  revert fuel lo. induction post as [|r post IH]; intros fuel lo H Ho Hbe Hlo Hf Hroom.
  - destruct (isolate_scan_upper fuel t lo [] [] base end_ 0 0) as (t' & s & e & mid & hi & E & I & M & Hl);
      try done; [simpl in *; lia|simpl; lia|].
    rewrite app_nil_r in E. exists t', s, e, lo, mid, hi. split_and!; try done. simpl in Hl. lia.
  - assert (r ∈ lo ++ r :: post) as Hin by (rewrite elem_of_app; right; left).
    destruct (ordered_bounds _ _ _ Ho Hin) as (B1 & B2 & B3).
    destruct (Z_lt_ge_dec (rg_base r) base) as [Hlt|Hge].
    2:{ destruct (isolate_scan_upper fuel t lo [] (r :: post) base end_ 0 0)
          as (t' & s & e & mid & hi & E & I & M & Hl); try done; [|simpl in *; lia|simpl app; lia|].
        - apply Forall_cons. split; [unfold above; lia|].
          eapply above_weaken; [|eapply ordered_above, Ho]. lia.
        - rewrite app_nil_r in E. exists t', s, e, lo, mid, hi. split_and!; try done. simpl in Hl. lia. }
    destruct fuel as [|fuel]; [simpl in Hf; lia|]. cbn [isolate_scan].
    rewrite (rep_more _ _ _ _ H), (rep_get _ _ _ _ H). cbn [obind].
    rewrite (ordered_region_end 0 _ r (Z.le_refl 0) Ho Hin).
    destruct (Z.leb_spec end_ (rg_base r)); [lia|].
    destruct (Z.leb_spec (rg_base r + rg_size r) base).
    + assert (lo ++ r :: post = (lo ++ [r]) ++ post) as Eq by (by rewrite <- app_assoc).
      replace (length lo + 1)%nat with (length (lo ++ [r])) by (rewrite length_app; done).
      rewrite Eq in *. apply IH; try done; [|simpl in Hf; lia].
      apply Forall_app. split; [done|]. by apply Forall_singleton.
    + destruct (Z.ltb_spec (rg_base r) base); [|lia].
      rewrite (u32_small (base - rg_base r)) by lia.
      destruct (cut_rep t lo r post (base - rg_base r) H) as (a & t2 & E1 & E2 & R2 & M2 & _);
        [lia|lia|lia|].
      replace (rg_base r + (base - rg_base r)) with base in * by lia.
      rewrite E1. cbn [obind]. rewrite E2. cbn [obind].
      pose proof (ordered_cut 0 lo r post (base - rg_base r)) as Hc.
      pose proof (fun a f => maps_cut lo r post (base - rg_base r) a f) as Hm.
      replace (rg_base r + (base - rg_base r)) with base in * by lia.
      set (r1 := mk_region (rg_base r) (base - rg_base r) (rg_flags r)) in *.
      set (r2 := mk_region base (rg_size r - (base - rg_base r)) (rg_flags r)) in *.
      assert (lo ++ r1 :: r2 :: post = (lo ++ [r1]) ++ [] ++ r2 :: post) as Eq by (by rewrite <- app_assoc).
      rewrite Eq in *. specialize (Hc ltac:(lia) Ho).
      destruct (isolate_scan_upper fuel t2 (lo ++ [r1]) [] (r2 :: post) base end_ 0 0)
        as (t' & s & e & mid & hi & E & I & M & Hl); try done.
      * apply Forall_app. split; [done|]. apply Forall_singleton. unfold below. simpl. lia.
      * apply Forall_cons. split; [unfold above; simpl; lia|].
        eapply above_weaken; [|eapply ordered_above, Ho]. lia.
      * simpl in *. lia.
      * rewrite M2. rewrite !length_app in *. simpl in *. lia.
      * rewrite app_nil_r, length_app in E. exists t', s, e, (lo ++ [r1]), mid, hi.
        split_and!; [done| |congruence|rewrite !length_app in *; simpl in *; lia]. unfold isolated in *.
        destruct I as (I1 & I2 & I3 & I4 & I5 & I6 & I7). split_and!; try done.
        intros a' f. rewrite I7. apply Hm. lia.
Qed.

(** ** Removal *)

Lemma remove_loop_spec t lo mid hi :
  rep t (lo ++ mid ++ hi) -> lo ++ mid ++ hi <> [] ->
  exists t', remove_loop t (length lo) (length mid) = Ret t'
    /\ view t' (lo ++ hi) /\ mt_max t' = mt_max t.
Proof.
  revert t. induction mid as [|r mid IH] using rev_ind; intros t H Hn0.
  - exists t. simpl. split_and!; try done. by right.
  - rewrite length_app, Nat.add_1_r. cbn [remove_loop].
    replace (length lo + length mid)%nat with (length (lo ++ mid)) by (by rewrite length_app).
    rewrite <- app_assoc in H. simpl in H. rewrite app_assoc in H.
    destruct (decide ((lo ++ mid) ++ hi = [])) as [Enil|Hne].
    + apply app_eq_nil in Enil as [Enil ->]. apply app_eq_nil in Enil as [-> ->].
      destruct (remove_last_region_rep t r H) as (t' & E & R & M & _).
      simpl. rewrite E. cbn [obind]. exists t'. split_and!; try done. by left.
    + destruct (remove_region_rep t (lo ++ mid) r hi H Hne) as (t1 & E & R & M & _).
      rewrite E. cbn [obind]. rewrite <- app_assoc in R, Hne.
      destruct (IH t1 R Hne) as (t' & E' & V & M'). exists t'. split_and!; congruence || done.
Qed.

Lemma maps_range lo mid hi base end_ a f :
  Forall (below base) lo -> Forall (within base end_) mid -> Forall (above end_) hi -> base <= end_ ->
  ((maps lo a f -> a < base) /\ (maps mid a f -> base <= a < end_) /\ (maps hi a f -> end_ <= a)).
Proof.
  intros H1 H2 H3 Hbe. unfold maps. rewrite !Exists_exists. split_and!.
  - intros (r & Hin & Ha & _). rewrite Forall_forall in H1. specialize (H1 r Hin).
    unfold below, in_region in *. lia.
  - intros (r & Hin & Ha & _). rewrite Forall_forall in H2. specialize (H2 r Hin).
    unfold within, in_region in *. lia.
  - intros (r & Hin & Ha & _). rewrite Forall_forall in H3. specialize (H3 r Hin).
    unfold above, in_region in *. lia.
Qed.

Lemma ordered_drop_mid lo0 lo mid hi : ordered lo0 (lo ++ mid ++ hi) -> ordered lo0 (lo ++ hi).
Proof.
  revert lo0. induction lo as [|x lo IH]; simpl; intros lo0 H.
  - revert lo0 H. induction mid as [|m mid IHm]; simpl; intros lo0 H; [done|].
    destruct H as (? & ? & ? & H). apply IHm in H. eapply ordered_weaken; [|exact H]. lia.
  - intuition.
Qed.

(** Isolation leaves the empty map alone. *)
Lemma isolate_scan_empty fuel t base end_ :
  rep t [zero_region] -> 0 <= base < end_ ->
  isolate_scan (S (S fuel)) t 0 base end_ 0 0 = Ret (t, 0%nat, 0%nat).
Proof.
  intros H Hb. cbn [isolate_scan]. pose proof (rep_more t [] zero_region [] H) as Hm.
  change (length []) with 0%nat in Hm. rewrite Hm.
  rewrite (rep_get' _ _ 0 zero_region H eq_refl). cbn [obind]. unfold rg_end. simpl rg_base.
  simpl rg_size. change (u32 (0 + 0)) with 0.
  destruct (Z.leb_spec end_ 0); [lia|]. destruct (Z.leb_spec 0 base); [|lia].
  change (0 + 1)%nat with (length [zero_region]). by rewrite (rep_done _ _ H).
Qed.

(** [memblock_isolate_range] when two more regions fit. *)
Lemma isolate_range_room dbl fuel w base size mb rs :
  wf_type (get_type w mb) rs -> 0 <= base <= U32_MAX -> 0 <= size ->
  (mt_cnt (get_type w mb) + 2 <= mt_max (get_type w mb))%nat ->
  let end_ := base + memblock_cap_size base size in
  exists mb' s e, memblock_isolate_range_with dbl (S fuel) w base size mb = Ret (0, mb', s, e)
    /\ same_frame w mb mb'
    /\ ((memblock_cap_size base size = 0 \/ rs = []) /\ mb' = mb /\ s = 0%nat /\ e = 0%nat
        \/ rs <> [] /\ base < end_ /\ exists lo mid hi,
             isolated rs base end_ (get_type w mb') s e lo mid hi
             /\ (length (lo ++ mid ++ hi) <= length rs + 2)%nat).
Proof.
  intros [Hv Ho] Hb Hs Hroom end_. unfold memblock_isolate_range_with.
  destruct (cap_size_range base size Hb Hs) as (C1 & C2 & C3). rewrite C3. fold end_.
  destruct (Z.eqb_spec (memblock_cap_size base size) 0) as [E0|E0].
  { exists mb, 0%nat, 0%nat. split_and!; auto with memblock. }
  rewrite ensure_room_enough by done. cbn [obind]. simpl (0 <? 0).
  destruct Hv as [[-> R]|[Hne R]].
  - rewrite (rep_cnt _ _ R). simpl (length [zero_region] + 4)%nat.
    rewrite isolate_scan_empty by (done || lia). cbn [obind].
    exists mb, 0%nat, 0%nat. split_and!; auto with memblock. by destruct w, mb.
  - rewrite (rep_cnt _ _ R) in *.
    destruct (isolate_scan_spec (length rs + 4) (get_type w mb) [] rs base end_)
      as (t' & s & e & lo & mid & hi & E & I & M & Hl); try done; try lia.
    change (length []) with 0%nat in E. rewrite E. cbn [obind].
    exists (set_type w t' mb), s, e. split_and!; [done|by apply same_frame_set|].
    right. rewrite get_set_type. split_and!; [done|lia|]. by exists lo, mid, hi.
Qed.

(** [memblock_remove_range] when two more regions fit. *)
Lemma remove_range_room dbl fuel w base size mb rs :
  wf_type (get_type w mb) rs -> 0 <= base <= U32_MAX -> 0 <= size ->
  (mt_cnt (get_type w mb) + 2 <= mt_max (get_type w mb))%nat ->
  let end_ := base + memblock_cap_size base size in
  exists mb' rs', memblock_remove_range_with dbl (S fuel) w base size mb = Ret (0, mb')
    /\ wf_type (get_type w mb') rs' /\ same_frame w mb mb'
    /\ (forall a f, maps rs' a f <-> maps rs a f /\ ~ base <= a < end_)
    /\ (length rs' <= length rs + 2)%nat.
Proof.
  intros Hwf Hb Hs Hroom end_. unfold memblock_remove_range_with.
  destruct (isolate_range_room dbl fuel w base size mb rs Hwf Hb Hs Hroom)
    as (mb1 & s & e & E & F & C). rewrite E. cbn [obind]. simpl (negb (0 =? 0)).
  destruct Hwf as [Hv Ho]. fold end_ in C.
  destruct C as [(C & -> & -> & ->)|(Hne & Hlt & lo & mid & hi & I & Hl)].
  - simpl. exists mb, rs. split_and!; [by destruct w, mb|by split|done| |lia].
    intros a f. split; [|tauto]. intros Hm. split; [done|].
    destruct C as [C| ->]; [unfold end_; lia|]. by apply maps_nil in Hm.
  - destruct I as (R & Ho' & L & W & A & Ix & Mp).
    assert (lo ++ mid ++ hi <> []) as Hne'.
    { intros En. rewrite En in Mp. destruct rs as [|r rs]; [done|].
      destruct (Mp (rg_base r) (rg_flags r)) as [_ Hm]. apply (maps_nil (rg_base r) (rg_flags r)), Hm.
      rewrite maps_cons. left. unfold in_region. simpl in Ho. lia. }
    assert (exists t', remove_loop (get_type w mb1) s (e - s) = Ret t'
              /\ view t' (lo ++ hi) /\ mt_max t' = mt_max (get_type w mb1)) as (t' & E' & V & M').
    { unfold indices in Ix. destruct mid as [|m mid].
      - destruct Ix as [-> ->]. exists (get_type w mb1). split_and!; try done. by right.
      - destruct Ix as [-> ->].
        replace (length lo + length (m :: mid) - length lo)%nat with (length (m :: mid)) by lia.
        by apply remove_loop_spec. }
    rewrite E'. cbn [obind]. exists (set_type w t' mb1), (lo ++ hi). rewrite get_set_type.
    split_and!; try done.
    + split; [done|]. by eapply ordered_drop_mid.
    + unfold same_frame in *. destruct w; simpl in *; intuition congruence.
    + intros a f. rewrite <- Mp, !maps_app.
      destruct (maps_range lo mid hi base end_ a f L W A) as (K1 & K2 & K3); [lia|].
      intuition lia.
    + rewrite !length_app in *. lia.
Qed.

(** ** Flags *)

Lemma merge_list_maps lo r rs a f : ordered lo (r :: rs) ->
  maps (merge_list r rs) a f <-> maps (r :: rs) a f.
Proof.
  revert lo r. induction rs as [|n rs IH]; intros lo r H; [done|]. simpl merge_list.
  destruct (_ && _) eqn:E.
  - apply andb_true_iff in E as [E1 E2]. apply Z.eqb_eq in E1, E2. rewrite (IH lo).
    + rewrite !maps_cons. unfold in_region. simpl in *. intuition (lia || congruence).
    + simpl in *. intuition; try lia. eapply ordered_weaken; [|eassumption]. lia.
  - destruct H as (? & ? & ? & H). rewrite maps_cons, (IH _ _ H), (maps_cons r). done.
Qed.

Lemma setclr_loop_spec mid pre post stale set flag :
  setclr_loop (pre ++ mid ++ post ++ stale) (length pre) (length mid) set flag
  = Ret (pre ++ (set_flag_at set flag <$> mid) ++ post ++ stale).
Proof.
  revert pre. induction mid as [|r mid IH]; intros pre; [done|].
  cbn [setclr_loop length]. simpl app.
  rewrite (arr_get_Some _ _ r) by (by apply list_lookup_middle). cbn [obind].
  rewrite arr_set_middle. cbn [obind].
  replace (length pre + 1)%nat with (length (pre ++ [set_flag_at set flag r]))
    by (rewrite length_app; done).
  rewrite (cons_middle _ pre), app_assoc, IH. by rewrite <- app_assoc.
Qed.

Lemma set_flag_sum set flag rs : sum_sizes (set_flag_at set flag <$> rs) = sum_sizes rs.
Proof. induction rs as [|r rs IH]; [done|]. by rewrite fmap_cons, !sum_sizes_cons, IH. Qed.

Lemma set_flag_ordered lo set flag rs1 mid rs2 :
  ordered lo (rs1 ++ mid ++ rs2) -> ordered lo (rs1 ++ (set_flag_at set flag <$> mid) ++ rs2).
Proof.
  revert lo. induction rs1 as [|x rs1 IH]; simpl; intros lo H; [|intuition].
  revert lo H. induction mid as [|m mid IHm]; simpl; intros lo H; [done|]. intuition.
Qed.

Lemma set_flag_maps set flag rs a f :
  maps (set_flag_at set flag <$> rs) a f
  <-> exists f0, maps rs a f0 /\ f = rg_flags (set_flag_at set flag (mk_region 0 0 f0)).
Proof.
  unfold maps. rewrite Exists_exists. setoid_rewrite Exists_exists. split.
  - intros (r & Hin & Ha & <-). apply list_elem_of_fmap in Hin as (r0 & -> & Hin).
    exists (rg_flags r0). split; [|done]. exists r0. unfold in_region in *. simpl in *. done.
  - intros (f0 & (r & Hin & Ha & <-) & ->). exists (set_flag_at set flag r).
    split; [by apply list_elem_of_fmap_2|]. unfold in_region in *. done.
Qed.

(** Merging a well-formed array keeps what it maps. *)
Lemma merge_wf t rs :
  rep t rs -> rs <> [] -> ordered 0 rs ->
  exists t' rs', memblock_merge_regions t = Ret t' /\ wf_type t' rs' /\ minimal rs'
    /\ mt_max t' = mt_max t /\ (forall a f, maps rs' a f <-> maps rs a f).
Proof.
  intros R Hne Ho. destruct rs as [|r rs]; [done|].
  destruct (merge_regions_spec t r rs R Ho) as (t' & E & R' & M & _).
  exists t', (merge_list r rs). split_and!; [done| |apply merge_list_minimal|done|].
  - split; [right; split; [|done]|by apply merge_list_ordered].
    apply merge_list_ne.
  - intros. by eapply merge_list_maps.
Qed.

Lemma merge_empty t : rep t [zero_region] -> memblock_merge_regions t = Ret t.
Proof. intros R. unfold memblock_merge_regions. rewrite (rep_cnt _ _ R). simpl. by rewrite (rep_cnt _ _ R). Qed.

(** The flag an address has after [memblock_setclr_flag]. *)
Definition new_flags (set : bool) (flag f0 : Z) : Z :=
  if set then Z.lor f0 flag else Z.land f0 (u32 (Z.lnot flag)).

Lemma setclr_room dbl fuel base size set flag mb rs :
  wf_type (mb_memory mb) rs -> 0 <= base <= U32_MAX -> 0 <= size ->
  (mt_cnt (mb_memory mb) + 2 <= mt_max (mb_memory mb))%nat ->
  let end_ := base + memblock_cap_size base size in
  exists mb1 s e a t rs',
    memblock_isolate_range_with dbl (S fuel) Memory base size mb = Ret (0, mb1, s, e)
    /\ setclr_loop (mt_regions (mb_memory mb1)) s (e - s) set flag = Ret a
    /\ memblock_merge_regions (mk_type (mt_cnt (mb_memory mb1)) (mt_max (mb_memory mb1))
         (mt_total_size (mb_memory mb1)) a (mt_pa (mb_memory mb1))) = Ret t
    /\ wf_type t rs' /\ (rs <> [] -> minimal rs') /\ same_frame Memory mb mb1
    /\ mt_max t = mt_max (mb_memory mb)
    /\ (forall x f, maps rs' x f <->
          (maps rs x f /\ ~ base <= x < end_)
          \/ (base <= x < end_ /\ exists f0, maps rs x f0 /\ f = new_flags set flag f0)).
Proof.
  intros Hwf Hb Hs Hroom end_.
  destruct (isolate_range_room dbl fuel Memory base size mb rs Hwf Hb Hs Hroom)
    as (mb1 & s & e & E & F & C). exists mb1, s, e. simpl get_type in *. fold end_ in C.
  assert (mt_max (mb_memory mb1) = mt_max (mb_memory mb)) as Mx by apply F.
  destruct Hwf as [Hv Ho].
  destruct C as [(C & -> & -> & ->)|(Hne & Hlt & lo & mid & hi & I & _)].
  - exists (mt_regions (mb_memory mb)). simpl setclr_loop.
    replace (mk_type _ _ _ _ _) with (mb_memory mb) by (by destruct (mb_memory mb)).
    destruct Hv as [[-> R]|[Hne R]].
    + exists (mb_memory mb), []. rewrite merge_empty by done.
      split_and!; try done; [by split; [left|]|]. intros x f. rewrite maps_nil. split; [done|].
      intros [[[] _]|(_ & f0 & Hm & _)]. by apply maps_nil in Hm.
    + destruct C as [C| ->]; [|done]. destruct (merge_wf _ _ R Hne Ho) as (t' & rs' & -> & W & Mi & M & Mp).
      exists t', rs'. split_and!; try done. intros x f. rewrite Mp.
      assert (~ base <= x < end_) by (unfold end_; lia). tauto.
  - destruct I as (R & Ho' & L & W & A & Ix & Mp).
    assert (lo ++ mid ++ hi <> []) as Hne'.
    { intros En. rewrite En in Mp. destruct rs as [|r rs]; [done|].
      destruct (Mp (rg_base r) (rg_flags r)) as [_ Hm]. apply (maps_nil (rg_base r) (rg_flags r)), Hm.
      rewrite maps_cons. left. unfold in_region. simpl in Ho. lia. }
    destruct (rep_split _ _ R) as (stale & Ea & Ll).
    exists (lo ++ (set_flag_at set flag <$> mid) ++ hi ++ stale).
    assert (setclr_loop (mt_regions (mb_memory mb1)) s (e - s) set flag
            = Ret (lo ++ (set_flag_at set flag <$> mid) ++ hi ++ stale)) as Es.
    { rewrite Ea, <- !app_assoc. unfold indices in Ix. destruct mid as [|m mid].
      - destruct Ix as [-> ->]. done.
      - destruct Ix as [-> ->].
        replace (length lo + length (m :: mid) - length lo)%nat with (length (m :: mid)) by lia.
        apply setclr_loop_spec. }
    destruct (merge_wf (mk_type (mt_cnt (mb_memory mb1)) (mt_max (mb_memory mb1))
         (mt_total_size (mb_memory mb1)) (lo ++ (set_flag_at set flag <$> mid) ++ hi ++ stale)
         (mt_pa (mb_memory mb1))) (lo ++ (set_flag_at set flag <$> mid) ++ hi))
      as (t' & rs' & Em & Wm & Mi & M & Mpm).
    { rewrite (rep_cnt _ _ R).
      replace (length (lo ++ mid ++ hi)) with (length (lo ++ (set_flag_at set flag <$> mid) ++ hi))
        by (by rewrite !length_app, length_fmap).
      rewrite !app_assoc, <- (app_assoc (_ ++ _) hi stale), (app_assoc (_ ++ _) hi stale).
      rewrite <- (app_assoc lo). apply rep_intro.
      - by rewrite <- Ll, !length_app, length_fmap.
      - rewrite (rep_total _ _ R), !sum_sizes_app, set_flag_sum. done. }
    { intros En. apply Hne'. apply app_eq_nil in En as [-> En]. apply app_eq_nil in En as [En ->].
      by apply fmap_nil_inv in En as ->. }
    { by apply set_flag_ordered. }
    exists t', rs'. simpl in M. split_and!; try done; [congruence|].
    intros x f. rewrite Mpm, !maps_app, set_flag_maps. setoid_rewrite <- Mp. setoid_rewrite maps_app.
    setoid_rewrite maps_app.
    assert (forall g, (maps lo x g -> x < base) /\ (maps mid x g -> base <= x < end_)
                      /\ (maps hi x g -> end_ <= x)) as K
      by (intros g; apply maps_range; done || lia).
    split.
    + intros [H|[(f0 & H & ->)|H]].
      * left. pose proof (K f). intuition lia.
      * right. pose proof (K f0). split; [tauto|]. exists f0. split; [tauto|]. by destruct set.
      * left. pose proof (K f). intuition lia.
    + intros [[H Hn]|(Hr & f0 & H & ->)].
      * pose proof (K f). tauto.
      * pose proof (K f0). right. left. exists f0. split; [intuition lia|]. by destruct set.
Qed.

(** ** Growing the array *)

(** A doubling function that leaves the memory array alone when it grows the
    reserved one. *)
Definition reserved_only (dbl : dbl_fn) : Prop :=
  forall b s mb r mb', dbl Reserved b s mb = Ret (r, mb') -> mb_memory mb' = mb_memory mb.

Lemma ensure_room_frame dbl fuel extra b s mb r mb' :
  reserved_only dbl -> ensure_room fuel dbl Reserved extra b s mb = Ret (r, mb') ->
  mb_memory mb' = mb_memory mb.
Proof.
  intros Hd. revert mb. induction fuel as [|fuel IH]; intros mb H; [done|]. cbn [ensure_room] in H.
  destruct (_ <? _)%nat; [|by injection H as _ <-].
  destruct (dbl Reserved b s mb) as [[q m]| | |] eqn:E; try discriminate H. cbn [obind] in H.
  apply Hd in E. destruct (q <? 0); [injection H as _ <-; done|]. apply IH in H. congruence.
Qed.

Lemma add_range_frame dbl fuel b s f mb r mb' :
  reserved_only dbl -> memblock_add_range_with dbl fuel Reserved b s f mb = Ret (r, mb') ->
  mb_memory mb' = mb_memory mb.
Proof.
  intros Hd H. unfold memblock_add_range_with in H. cbn zeta in H.
  destruct (_ =? 0); [by injection H as _ <-|]. bind_in H as r0 eqn E0.
  destruct (rg_size r0 =? 0); [bind_in H as a eqn E1; by injection H as _ <-|].
  bind_in H as [t1 nr] eqn E1. destruct (nr =? 0)%nat; [by injection H as _ <-|].
  bind_in H as [q m] eqn E2. apply ensure_room_frame in E2; [|done].
  destruct (q <? 0); [by injection H as _ <-|].
  bind_in H as [t2 nr2] eqn E3. destruct (nr2 =? 0)%nat; [by injection H as _ <-|].
  bind_in H as t3 eqn E4. by injection H as _ <-.
Qed.

Lemma remove_range_frame dbl fuel b s mb r mb' :
  reserved_only dbl -> memblock_remove_range_with dbl fuel Reserved b s mb = Ret (r, mb') ->
  mb_memory mb' = mb_memory mb.
Proof.
  intros Hd H. unfold memblock_remove_range_with in H. bind_in H as [[[q m] s0] e0] eqn E.
  assert (mb_memory m = mb_memory mb) as Em.
  { unfold memblock_isolate_range_with in E. cbn zeta in E.
    destruct (_ =? 0); [by injection E as _ <-|]. bind_in E as [q' m'] eqn E'.
    apply ensure_room_frame in E'; [|done].
    destruct (q' <? 0); [by injection E as _ <-|]. bind_in E as [[t' s1] e1] eqn E1.
    by injection E as _ <-. }
  destruct (negb _); [by injection H as _ <-|]. bind_in H as t eqn E1. by injection H as _ <-.
Qed.

Section Growth.
Context `{SlabAllocator}.

(** Doubling keeps the memory regions: they are only copied when the memory
    array itself grows, and untouched when the reserved one does. *)
Lemma double_array_memory n w b s mb r mb' :
  memblock_double_array n w b s mb = Ret (r, mb') ->
  match w with
  | Reserved => mb_memory mb' = mb_memory mb
  | Memory => mb_memory mb' = mb_memory mb \/
      exists pa, mb_memory mb' = mk_type (mt_cnt (mb_memory mb)) (mt_max (mb_memory mb) + mt_max (mb_memory mb))
        (mt_total_size (mb_memory mb))
        (mt_regions (mb_memory mb) ++ replicate (mt_max (mb_memory mb)) zero_region) pa
  end.
Proof.
  revert w b s mb r mb'. induction n as [|n IH]; intros w b s mb r mb' H0; [done|].
  assert (reserved_only (memblock_double_array n)) as Hro.
  { intros b' s' m q m' Hm. by apply (IH Reserved) in Hm. }
  cbn [memblock_double_array] in H0. unfold double_array_body in H0. cbn zeta in H0.
  destruct (negb _). { injection H0 as _ <-. destruct w; auto. }
  bind_in H0 as addr eqn E1. destruct (addr =? 0). { injection H0 as _ <-. destruct w; auto. }
  bind_in H0 as mb2 eqn E2. bind_in H0 as mb3 eqn E3. injection H0 as _ <-.
  assert (mb_memory mb3 = mb_memory mb2) as K3.
  { destruct (negb _); [|congruence]. bind_in E3 as [q m] eqn Ea.
    destruct (negb _); [discriminate E3|]. injection E3 as <-. by apply add_range_frame in Ea. }
  match type of E2 with context [set_type w ?t mb] => set (mb1 := set_type w t mb) in * end.
  assert (mb_memory mb2 = mb_memory mb1) as K2.
  { destruct (in_slab w mb1); [congruence|]. destruct (mt_pa _) as [pa|]; [|congruence].
    bind_in E2 as [q m] eqn Er. injection E2 as <-. by apply remove_range_frame in Er. }
  destruct w; simpl; rewrite K3, K2; [right; by eexists|done].
Qed.

Lemma double_array_rep n b s mb r mb' rs :
  memblock_double_array n Memory b s mb = Ret (r, mb') -> rep (mb_memory mb) rs ->
  rep (mb_memory mb') rs.
Proof.
  intros E R. apply double_array_memory in E as [->|[pa ->]]; [done|].
  destruct (rep_split _ _ R) as (stale & Ea & L). rewrite (rep_cnt _ _ R), Ea, <- app_assoc.
  apply rep_intro; [rewrite length_app, length_replicate; lia|apply R].
Qed.

Lemma ensure_room_rep n fuel extra b s mb r mb' rs :
  ensure_room fuel (memblock_double_array n) Memory extra b s mb = Ret (r, mb') ->
  rep (mb_memory mb) rs ->
  rep (mb_memory mb') rs
  /\ (r = 0 /\ (length rs + extra <= mt_max (mb_memory mb'))%nat \/ r = - ENOMEM).
Proof.
  revert mb. induction fuel as [|fuel IH]; intros mb E R; [done|]. cbn [ensure_room] in E.
  simpl get_type in E. rewrite (rep_cnt _ _ R) in E.
  destruct (Nat.ltb_spec (mt_max (mb_memory mb)) (length rs + extra)).
  - destruct (memblock_double_array _ _ _ _ _) as [[q m]| | |] eqn:Ed; try discriminate E.
    cbn [obind] in E. apply (double_array_rep _ _ _ _ _ _ rs) in Ed; [|done].
    destruct (q <? 0); [injection E as <- <-; auto|]. eauto.
  - injection E as <- <-. auto.
Qed.
End Growth.

(** ** Properties *)

(** A map used to instantiate the theorems: one gigabyte of memory at
    0x40000000 with a firmware area carved out of it. *)
Definition demo_type (rs : list memblock_region) : memblock_type :=
  mk_type (length rs) 16 (sum_sizes rs) (rs ++ replicate (16 - length rs) zero_region) None.

Definition demo_memory : list memblock_region :=
  [mk_region 1073741824 268435456 0; mk_region 1350565888 796917760 0].

Definition demo_reserved : list memblock_region :=
  [mk_region 1074790400 4096 0; mk_region 1075838976 1048576 0].

Definition demo_mb : memblock :=
  mk_memblock 2147483648 (demo_type demo_memory) (demo_type demo_reserved) false true false false.

Lemma demo_memory_wf : wf_type (mb_memory demo_mb) demo_memory.
Proof.
  split; [right; split; [done|by constructor]|]. simpl. unfold U32_MAX. repeat split; lia.
Qed.

Lemma demo_reserved_wf : wf_type (mb_reserved demo_mb) demo_reserved.
Proof.
  split; [right; split; [done|by constructor]|]. simpl. unfold U32_MAX. repeat split; lia.
Qed.

#[local] Instance demo_slab : SlabAllocator :=
  {| slab_is_available := false; kmalloc_pa := fun _ => 0; kernel_end_pa := 1090519040 |}.

Section Properties.
Context `{SlabAllocator}.

(** C8: memblock_add_range on a well-formed region array with room for the new
    regions returns 0 without tripping a BUG_ON or leaving the array; the array
    is well-formed again (sorted, disjoint, non-empty regions, total_size the
    sum of the sizes), covers exactly what it covered before plus
    [base, base + size) capped at the end of the address space, stays minimal,
    and nothing else of the memblock state changes. *)
Theorem memblock_add_range_union fuel w base size flags mb rs :
  wf_type (get_type w mb) rs -> 0 <= base <= U32_MAX -> 0 <= size ->
  (length (add_list base (base + memblock_cap_size base size) flags rs)
     <= mt_max (get_type w mb))%nat ->
  exists mb' rs', memblock_add_range (S fuel) w base size flags mb = Ret (0, mb')
    /\ wf_type (get_type w mb') rs' /\ same_frame w mb mb'
    /\ (minimal rs -> minimal rs')
    /\ (forall a, covered rs' a <-> covered rs a \/ base <= a < base + memblock_cap_size base size).
Proof.
  intros W Hb Hs Hroom.
  destruct (add_range_room (memblock_double_array (S fuel)) fuel w base size flags mb rs W Hb Hs Hroom)
    as (mb' & rs' & E & W' & F & Mi & _ & Cv). eauto 10.
Qed.

(** C9: memblock_remove_range on a well-formed array with two spare slots
    returns 0, keeps the array well-formed, and removes exactly the addresses
    of the range: every other address keeps its region flags. *)
Theorem memblock_remove_range_difference fuel w base size mb rs :
  wf_type (get_type w mb) rs -> 0 <= base <= U32_MAX -> 0 <= size ->
  (mt_cnt (get_type w mb) + 2 <= mt_max (get_type w mb))%nat ->
  exists mb' rs', memblock_remove_range (S fuel) w base size mb = Ret (0, mb')
    /\ wf_type (get_type w mb') rs' /\ same_frame w mb mb'
    /\ (forall a f, maps rs' a f <-> maps rs a f /\ ~ base <= a < base + memblock_cap_size base size).
Proof.
  intros W Hb Hs Hroom.
  destruct (remove_range_room (memblock_double_array (S fuel)) fuel w base size mb rs W Hb Hs Hroom)
    as (mb' & rs' & E & W' & F & M & _). eauto 10.
Qed.

(** Nothing mapped, no regions. *)
Lemma maps_none_nil t rs : wf_type t rs -> (forall a f, ~ maps rs a f) -> rs = [].
Proof.
  intros [_ Ho] Hno. destruct rs as [|r rs]; [done|]. exfalso. simpl in Ho. apply (Hno (rg_base r) (rg_flags r)).
  constructor. split; [|done]. unfold in_region. lia.
Qed.

(** C10: memblock_setclr_flag (behind memblock_mark_hotplug, _clear_hotplug,
    _mark_mirror and _mark_nomap): if the memory array has two spare slots, it
    returns 0, keeps the array well-formed and merged, and changes the flags of
    exactly the memory addresses in the range; if it has not and resizing is not
    allowed, it returns -ENOMEM for every non-empty range and changes nothing. *)
Theorem memblock_setclr_flag_exact fuel base size set flag mb rs :
  wf_type (mb_memory mb) rs -> 0 <= base <= U32_MAX -> 0 <= size ->
  ((mt_cnt (mb_memory mb) + 2 <= mt_max (mb_memory mb))%nat ->
   exists mb' rs', memblock_setclr_flag (S fuel) base size set flag mb = Ret (0, mb')
    /\ wf_type (mb_memory mb') rs' /\ minimal rs' /\ mb_reserved mb' = mb_reserved mb
    /\ (forall a f, maps rs' a f <->
          (maps rs a f /\ ~ base <= a < base + memblock_cap_size base size)
          \/ (base <= a < base + memblock_cap_size base size
              /\ exists f0, maps rs a f0 /\ f = new_flags set flag f0)))
  /\ ((mt_max (mb_memory mb) < mt_cnt (mb_memory mb) + 2)%nat -> mb_can_resize mb = false -> memblock_cap_size base size <> 0 ->
      memblock_setclr_flag (S fuel) base size set flag mb = Ret (- ENOMEM, mb)).
Proof.
  intros Hwf Hb Hs. split.
  - intros Hroom. destruct (setclr_room (memblock_double_array (S fuel)) fuel base size set flag mb rs)
      as (mb1 & s & e & a & t & rs' & E1 & E2 & E3 & W & Mi & F & M & Mp); try done.
    unfold memblock_setclr_flag, memblock_isolate_range. rewrite E1. cbn [obind negb Z.eqb].
    rewrite E2. cbn [obind]. rewrite E3. cbn [obind]. exists (set_type Memory t mb1), rs'.
    split_and!; auto; [|apply F]. destruct rs as [|r rs]; [|by apply Mi]. rewrite (maps_none_nil t rs'); [done|done|].
    intros x f Hx. apply Mp in Hx as [[Hx _]|(_ & f0 & Hx & _)]; inversion Hx.
  - intros Hfull Hno Hsz. unfold memblock_setclr_flag, memblock_isolate_range, memblock_isolate_range_with.
    rewrite (proj2 (Z.eqb_neq _ 0)) by done. cbn [ensure_room get_type]. rewrite (proj2 (Nat.ltb_lt _ _)) by done.
    cbn [memblock_double_array]. unfold double_array_body. by rewrite Hno.
Qed.

(** What adding memory leaves behind, with any doublings on the way. *)
Lemma add_memory_result fuel base size flags mb rs r mb' :
  wf_type (mb_memory mb) rs -> 0 <= base <= U32_MAX -> 0 <= size ->
  memblock_add_range fuel Memory base size flags mb = Ret (r, mb') ->
  (r = 0 /\ exists rs', wf_type (mb_memory mb') rs'
     /\ forall a, covered rs' a <-> covered rs a \/ base <= a < base + memblock_cap_size base size)
  \/ (r = - ENOMEM /\ wf_type (mb_memory mb') rs).
Proof.
  intros [Hv Ho] Hb Hs E. unfold memblock_add_range, memblock_add_range_with in E.
  destruct (cap_size_range base size Hb Hs) as (C1 & C2 & C3). rewrite C3 in E.
  set (sz := memblock_cap_size base size) in *. cbn zeta in E. simpl get_type in E.
  destruct (Z.eqb_spec sz 0) as [E0|E0].
  { injection E as <- <-. left. split; [done|]. exists rs. split; [by split|]. intros a. intuition lia. }
  destruct Hv as [[-> R]|[Hne R]].
  - rewrite (rep_get' _ _ 0 zero_region R eq_refl) in E. cbn [obind] in E. simpl (rg_size _ =? 0) in E.
    destruct (set_region_rep (mb_memory mb) [] zero_region [] (mk_region base sz flags) sz R)
      as (a & Ea & Ra).
    { simpl. rewrite u32_small; lia. }
    simpl in Ea. rewrite Ea in E. injection E as <- <-. left. split; [done|].
    exists [mk_region base sz flags]. split.
    + split; [by right|]. simpl. repeat split; lia.
    + intros a'. rewrite covered_cons, !covered_nil. unfold in_region. simpl. intuition lia.
  - destruct rs as [|r0 rs]; [done|].
    rewrite (rep_get' _ _ 0 r0 R eq_refl) in E. cbn [obind] in E.
    destruct (Z.eqb_spec (rg_size r0) 0); [simpl in Ho; lia|].
    destruct (add_pass_false (mb_memory mb) (r0 :: rs) base (base + sz) flags R Ho) as (nr & Ep & N).
    rewrite Ep in E. cbn [obind] in E. destruct (Nat.eqb_spec nr 0) as [Hnr|Hnr].
    + injection E as <- <-. left. split; [done|]. exists (r0 :: rs). split; [by split; [right|]|].
      intros a. rewrite <- (add_list_same base (base + sz) flags (r0 :: rs)) at 1 by lia.
      by eapply add_list_covered.
    + bind_in E as [q m] eqn Er.
      destruct (ensure_room_rep _ _ _ _ _ _ _ _ _ Er R) as [R' [[-> Hr]| ->]].
      * simpl (0 <? 0) in E.
        destruct (add_insert_merge (mb_memory m) (r0 :: rs) base (base + sz) flags)
          as (t2 & nr2 & t3 & rs' & E2 & E3 & W & Mi & _ & Mx & _ & Hl & Cv); try done; try lia.
        simpl get_type in E. rewrite E2 in E. cbn [obind Nat.eqb] in E. rewrite E3 in E.
        injection E as <- <-. left. split; [done|]. by exists rs'.
      * injection E as <- <-. right. split; [done|]. by split; [right|].
Qed.

(** when the array is full and memblock_allow_resize has not been called,
    memblock_add_range fails with -ENOMEM and changes nothing. *)
Theorem memblock_add_range_enomem fuel w base size flags mb rs :
  wf_type (get_type w mb) rs -> rs <> [] -> 0 <= base <= U32_MAX -> 0 <= size ->
  (mt_max (get_type w mb)
     < length (add_list base (base + memblock_cap_size base size) flags rs))%nat ->
  mb_can_resize mb = false ->
  memblock_add_range (S fuel) w base size flags mb = Ret (- ENOMEM, mb).
Proof.
  intros [Hv Ho] Hne Hb Hs Hfull Hres. destruct Hv as [[-> _]|[_ R]]; [done|].
  unfold memblock_add_range, memblock_add_range_with.
  destruct (cap_size_range base size Hb Hs) as (C1 & C2 & C3). rewrite C3.
  set (sz := memblock_cap_size base size) in *. cbn zeta.
  pose proof (rep_le _ _ R) as Hle.
  destruct (Z.eqb_spec sz 0) as [E0|E0].
  { rewrite E0, Z.add_0_r, add_list_empty in Hfull. lia. }
  destruct rs as [|r0 rs]; [done|].
  rewrite (rep_get' _ _ 0 r0 R eq_refl). cbn [obind].
  destruct (Z.eqb_spec (rg_size r0) 0); [simpl in Ho; lia|].
  destruct (add_pass_false (get_type w mb) (r0 :: rs) base (base + sz) flags R Ho) as (nr & -> & N).
  cbn [obind]. destruct (Nat.eqb_spec nr 0) as [->|Hnr]; [lia|].
  cbn [ensure_room]. rewrite (rep_cnt _ _ R).
  destruct (Nat.ltb_spec (mt_max (get_type w mb)) (length (r0 :: rs) + nr)); [|lia].
  cbn [memblock_double_array]. unfold double_array_body. by rewrite Hres.
Qed.
End Properties.

(** memblock_search finds the region that holds an address, and returns -1
    exactly when no region of the array does. *)
Theorem memblock_search_correct t rs addr :
  wf_type t rs -> 0 <= addr ->
  (exists i r, memblock_search t addr = Ret (Z.of_nat i) /\ rs !! i = Some r /\ in_region addr r)
  \/ (memblock_search t addr = Ret (-1) /\ ~ covered rs addr).
Proof.
  intros [[[-> R]|[Hne R]] Ho] Ha; unfold memblock_search.
  - right. rewrite (rep_cnt _ _ R). split; [|intros Hc; by apply covered_nil in Hc]. cbn [search_loop length].
    change ((1 + 0) / 2)%nat with 0%nat. rewrite (rep_get' _ _ 0 zero_region R eq_refl). cbn [obind].
    change (rg_end zero_region) with 0. change (rg_base zero_region) with 0.
    destruct (Z.ltb_spec addr 0); [lia|]. by destruct (Z.leb_spec 0 addr); [|lia].
  - apply search_loop_spec; try done; rewrite ?(rep_cnt _ _ R); try lia.
    + destruct rs; [done|]. simpl. lia.
    + intros i r Hr Hi. apply lookup_lt_Some in Hr. lia.
Qed.

(** ** Instances at a concrete map *)

Lemma memblock_add_range_union_witness :
  exists mb' rs', memblock_add_range 3 Memory 1342177280 16777216 0 demo_mb = Ret (0, mb')
    /\ wf_type (mb_memory mb') rs' /\ same_frame Memory demo_mb mb'
    /\ (minimal demo_memory -> minimal rs')
    /\ (forall a, covered rs' a <-> covered demo_memory a \/ 1342177280 <= a < 1342177280 + 16777216).
Proof.
  apply (memblock_add_range_union 2 Memory 1342177280 16777216 0 demo_mb demo_memory).
  - exact demo_memory_wf.
  - unfold U32_MAX. lia.
  - lia.
  - vm_compute. lia.
Defined.

Lemma memblock_remove_range_difference_witness :
  exists mb' rs', memblock_remove_range 3 Reserved 1075838976 4096 demo_mb = Ret (0, mb')
    /\ wf_type (mb_reserved mb') rs' /\ same_frame Reserved demo_mb mb'
    /\ (forall a f, maps rs' a f <-> maps demo_reserved a f /\ ~ 1075838976 <= a < 1075838976 + 4096).
Proof.
  apply (memblock_remove_range_difference 2 Reserved 1075838976 4096 demo_mb demo_reserved).
  - exact demo_reserved_wf.
  - unfold U32_MAX. lia.
  - lia.
  - vm_compute. lia.
Defined.

Lemma memblock_setclr_flag_exact_witness :
  exists mb' rs', memblock_setclr_flag 3 1342177280 33554432 true MEMBLOCK_NOMAP demo_mb = Ret (0, mb')
    /\ wf_type (mb_memory mb') rs' /\ minimal rs' /\ mb_reserved mb' = mb_reserved demo_mb
    /\ (forall a f, maps rs' a f <->
          (maps demo_memory a f /\ ~ 1342177280 <= a < 1342177280 + 33554432)
          \/ (1342177280 <= a < 1342177280 + 33554432
              /\ exists f0, maps demo_memory a f0 /\ f = Z.lor f0 4)).
Proof.
  destruct (memblock_setclr_flag_exact 2 1342177280 33554432 true MEMBLOCK_NOMAP demo_mb demo_memory) as [H _].
  - exact demo_memory_wf.
  - unfold U32_MAX. lia.
  - lia.
  - apply H. vm_compute. lia.
Defined.

(** A full memory array (three slots, all used) that has to be doubled. *)
Definition full_memory : list memblock_region :=
  [mk_region 1073741824 1048576 0; mk_region 1075838976 1048576 0; mk_region 1077936128 16777216 0].

Definition full_mb (resize : bool) : memblock :=
  mk_memblock 2147483648
    (mk_type 3 3 (sum_sizes full_memory) full_memory None)
    (demo_type demo_reserved) false resize false false.

Lemma full_memory_wf resize : wf_type (mb_memory (full_mb resize)) full_memory.
Proof.
  split; [right; split; [done|by constructor]|]. simpl. unfold U32_MAX. repeat split; lia.
Qed.

Lemma memblock_add_range_enomem_witness :
  memblock_add_range 3 Memory 1610612736 4096 0 (full_mb false) = Ret (- ENOMEM, full_mb false).
Proof.
  apply (memblock_add_range_enomem 2 Memory 1610612736 4096 0 (full_mb false) full_memory).
  - apply full_memory_wf.
  - done.
  - unfold U32_MAX. lia.
  - lia.
  - vm_compute. lia.
  - done.
Defined.

Lemma memblock_search_correct_witness :
  (exists i r, memblock_search (mb_memory demo_mb) 1350565889 = Ret (Z.of_nat i)
     /\ demo_memory !! i = Some r /\ in_region 1350565889 r)
  \/ (memblock_search (mb_memory demo_mb) 1350565889 = Ret (-1) /\ ~ covered demo_memory 1350565889).
Proof.
  apply (memblock_search_correct (mb_memory demo_mb) demo_memory 1350565889).
  - exact demo_memory_wf.
  - lia.
Defined.
