(* ===== verification/MemblockFind.v ===== *)
(** * Finding and allocating free memory in memblock

    The reverse free-range iterator visits every intersection of a memory
    region with a gap between reserved regions, from the top down; the
    top-down search built on it is sound, complete and returns the highest
    suitable address; an allocation returns memory that was free and is
    reserved afterwards. *)
From Stdlib Require Import ZArith Lia Bool.
From stdpp Require Import base numbers list.
From S2P Require Import Prelude Memblock MemblockRegions MemblockRange.

(** ** Packing the two indices of an iterator *)

Lemma land_ones32 x : Z.land x 4294967295 = x mod 2 ^ 32.
Proof. change 4294967295 with (Z.ones 32). by apply Z.land_ones. Qed.


Lemma pack_idx_val a b : pack_idx a b = a mod 2 ^ 32 + 2 ^ 32 * (b mod 2 ^ 32).
Proof.
  unfold pack_idx, wrap. rewrite Z.shiftl_mul_pow2 by lia.
  replace (2 ^ 64) with (2 ^ 32 * 2 ^ 32) by lia.
  rewrite (Z.mul_comm b), Zmult_mod_distr_l.
  apply lor_shift_add; [lia|]. apply Z.mod_pos_bound. lia.
Qed.

Lemma unpack_idx a b :
  -1 <= a < 2 ^ 31 -> -1 <= b < 2 ^ 31 ->
  s32 (Z.land (pack_idx a b) 4294967295) = a /\ s32 (Z.shiftr (pack_idx a b) 32) = b
  /\ (pack_idx a b = U64_MAX -> a = -1 /\ b = -1).
Proof.
  intros Ha Hb. rewrite land_ones32, pack_idx_val, Z.shiftr_div_pow2 by lia.
  pose proof (Z.mod_pos_bound a (2 ^ 32) ltac:(lia)).
  pose proof (Z.mod_pos_bound b (2 ^ 32) ltac:(lia)).
  rewrite (Z.mul_comm (2 ^ 32)), Z.mod_add, Z.mod_mod by lia.
  rewrite Z.div_add, Z.div_small, Z.add_0_l by lia.
  rewrite !swrap_mod by lia. rewrite !s32_small by lia. split_and!; [done|done|].
  unfold U64_MAX. intros E.
  assert (a mod 2 ^ 32 = 2 ^ 32 - 1 /\ b mod 2 ^ 32 = 2 ^ 32 - 1) as [E1 E2] by lia.
  apply (f_equal s32) in E1, E2. rewrite !swrap_mod, !s32_small in E1, E2 by lia.
  split; [rewrite E1|rewrite E2]; reflexivity.
Qed.

(** ** Alignment *)

Lemma round_down_spec x j : 0 <= x <= U32_MAX -> 0 <= j < 32 ->
  round_down x (2 ^ j) = x - x mod 2 ^ j.
Proof.
  intros Hx Hj. unfold round_down.
  assert (0 < 2 ^ j <= 2 ^ 31) by (split; [lia|apply Z.pow_le_mono_r; lia]).
  rewrite (u32_small (2 ^ j - 1)) by (unfold U32_MAX; lia).
  rewrite land_wrap by (unfold U32_MAX in *; lia). apply land_lnot_ones. lia.
Qed.

Lemma round_down_le x j c : 0 <= j -> c <= x -> (2 ^ j | c) -> c <= x - x mod 2 ^ j.
Proof.
  intros Hj Hc [q ->]. pose proof (Z.div_mod x (2 ^ j) ltac:(lia)) as E.
  assert (q <= x / 2 ^ j) by (apply Z.div_le_lower_bound; lia). nia.
Qed.

(** ** Gaps between reserved regions *)

(** Regions that may be empty: what is stored, the dummy entry included. *)
Fixpoint wordered (lo : Z) (rs : list memblock_region) : Prop :=
  match rs with
  | [] => True
  | r :: rs' =>
      lo <= rg_base r /\ 0 <= rg_size r /\ rg_base r + rg_size r <= U32_MAX
      /\ wordered (rg_base r + rg_size r) rs'
  end.

Lemma ordered_wordered lo rs : ordered lo rs -> wordered lo rs.
Proof. revert lo. induction rs as [|r rs IH]; simpl; [done|]. intros lo (? & ? & ? & H). split_and!; try lia. by apply IH. Qed.

Lemma wf_stored t rs : wf_type t rs ->
  exists st, rep t st /\ wordered 0 st /\ st <> []
    /\ (st = rs \/ rs = [] /\ st = [zero_region]).
Proof.
  intros [[[-> R]|[Hne R]] Ho].
  - exists [zero_region]. split_and!; try done. by right.
  - exists rs. split_and!; try done; [by apply ordered_wordered|by left].
Qed.

Definition region_end (rs : list memblock_region) (i : nat) : Z :=
  match rs !! i with Some r => rg_base r + rg_size r | None => 0 end.

Definition gap_lo (bs : list memblock_region) (k : nat) : Z :=
  match k with O => 0 | S p => region_end bs p end.

Definition gap_hi (bs : list memblock_region) (k : nat) : Z :=
  match bs !! k with Some r => rg_base r | None => U32_MAX end.

Lemma wordered_lookup lo rs i r : wordered lo rs -> rs !! i = Some r ->
  lo <= rg_base r /\ 0 <= rg_size r /\ rg_base r + rg_size r <= U32_MAX.
Proof.
  revert lo i. induction rs as [|x rs IH]; intros lo i H Hi; [done|].
  destruct H as (? & ? & ? & H). destruct i as [|i]; simpl in Hi.
  - injection Hi as ->. lia.
  - destruct (IH _ _ H Hi) as (? & ? & ?). lia.
Qed.

Lemma wordered_lt lo rs i j ri rj : wordered lo rs -> rs !! i = Some ri -> rs !! j = Some rj ->
  (i < j)%nat -> rg_base ri + rg_size ri <= rg_base rj.
Proof.
  revert lo i j. induction rs as [|x rs IH]; intros lo i j H Hi Hj Hlt; [done|].
  destruct H as (? & ? & ? & H). destruct j as [|j]; [lia|]. destruct i as [|i]; simpl in Hi, Hj.
  - injection Hi as ->. by destruct (wordered_lookup _ _ _ _ H Hj).
  - eapply IH; try done. lia.
Qed.

Lemma wordered_end t rs i r : rep t rs -> wordered 0 rs -> rs !! i = Some r ->
  rg_end r = rg_base r + rg_size r.
Proof.
  intros R W Hi. destruct (wordered_lookup _ _ _ _ W Hi) as (? & ? & ?).
  unfold rg_end. apply u32_small. lia.
Qed.

Lemma gap_start_rep tb bs k : rep tb bs -> wordered 0 bs -> (k <= length bs)%nat ->
  gap_start tb k = Ret (gap_lo bs k).
Proof.
  intros R W Hk. destruct k as [|p]; [done|]. unfold gap_start, gap_lo, region_end.
  destruct (lookup_lt_is_Some_2 bs p) as [r Hr]; [lia|].
  rewrite (rep_get' _ _ _ _ R Hr), Hr. cbn [obind]. by erewrite wordered_end.
Qed.

Lemma gap_end_rep tb bs k : rep tb bs -> (k <= length bs)%nat -> gap_end tb k = Ret (gap_hi bs k).
Proof.
  intros R Hk. unfold gap_end, gap_hi. rewrite (rep_cnt _ _ R).
  destruct (Nat.ltb_spec k (length bs)).
  - destruct (lookup_lt_is_Some_2 bs k) as [r Hr]; [lia|]. by rewrite (rep_get' _ _ _ _ R Hr), Hr.
  - by rewrite lookup_ge_None_2 by lia.
Qed.

Lemma gap_lo_range bs k : wordered 0 bs -> 0 <= gap_lo bs k <= U32_MAX.
Proof.
  intros W. destruct k as [|p]; simpl; [unfold U32_MAX; lia|]. unfold region_end.
  destruct (bs !! p) as [r|] eqn:E; [|unfold U32_MAX; lia].
  destruct (wordered_lookup _ _ _ _ W E) as (? & ? & ?). lia.
Qed.

Lemma gap_hi_range bs k : wordered 0 bs -> 0 <= gap_hi bs k <= U32_MAX.
Proof.
  intros W. unfold gap_hi. destruct (bs !! k) as [r|] eqn:E; [|unfold U32_MAX; lia].
  destruct (wordered_lookup _ _ _ _ W E) as (? & ? & ?). lia.
Qed.

(** Gaps are ordered. *)
Lemma gap_mono bs k k' : wordered 0 bs -> (k < k' <= length bs)%nat -> gap_hi bs k <= gap_lo bs k'.
Proof.
  intros W Hk. destruct k' as [|p]; [lia|]. simpl. unfold gap_hi, region_end.
  destruct (lookup_lt_is_Some_2 bs p) as [rp Hp]; [lia|]. rewrite Hp.
  destruct (lookup_lt_is_Some_2 bs k) as [rk Hr]; [lia|]. rewrite Hr.
  destruct (wordered_lookup _ _ _ _ W Hp) as (? & ? & ?).
  destruct (decide (k = p)) as [->|].
  - rewrite Hr in Hp. injection Hp as ->. lia.
  - pose proof (wordered_lt _ _ _ _ _ _ W Hr Hp ltac:(lia)).
    destruct (wordered_lookup _ _ _ _ W Hr) as (? & ? & ?). lia.
Qed.

(** An interval that meets no reserved region lies in one gap. *)
Lemma gap_exists bs c d : wordered 0 bs -> 0 <= c -> d <= U32_MAX ->
  (forall r, r ∈ bs -> d <= rg_base r \/ rg_base r + rg_size r <= c) ->
  exists k, (k <= length bs)%nat /\ gap_lo bs k <= c /\ d <= gap_hi bs k.
Proof.
  intros W Hc Hd Hdis.
  assert (forall n, (n <= length bs)%nat ->
    (exists k, (k <= n)%nat /\ (k <= length bs)%nat /\ gap_lo bs k <= c /\ d <= gap_hi bs k)
    \/ (forall p r, (p < n)%nat -> bs !! p = Some r -> rg_base r + rg_size r <= c)) as K.
  { induction n as [|n IH]; intros Hn; [right; intros; lia|].
    destruct IH as [(k & ? & ? & ? & ?)|IH]; [lia|left; exists k; split_and!; lia|].
    destruct (lookup_lt_is_Some_2 bs n) as [r Hr]; [lia|].
    destruct (Hdis r) as [H|H]; [by eapply list_elem_of_lookup_2| |].
    - left. exists n. split_and!; [lia|lia| |].
      + destruct n as [|p]; simpl; [done|]. unfold region_end.
        destruct (bs !! p) as [rp|] eqn:Ep; [|lia]. apply (IH p); [lia|done].
      + unfold gap_hi. by rewrite Hr.
    - right. intros p rp Hp Hrp. destruct (decide (p = n)) as [->|]; [congruence|].
      apply (IH p); [lia|done]. }
  destruct (K (length bs)) as [(k & ? & ? & ? & ?)|K']; [lia|by exists k|].
  exists (length bs). split_and!; [lia| |].
  - destruct (length bs) as [|p] eqn:El; simpl; [done|]. unfold region_end.
    destruct (bs !! p) as [rp|] eqn:Ep; [|lia]. apply (K' p); [lia|done].
  - unfold gap_hi. by rewrite lookup_ge_None_2.
Qed.

(** ** The reverse iterator *)

Section Iterator.
Context (ta tb : memblock_type) (ms bs : list memblock_region).
Context (Ra : rep ta ms) (Rb : rep tb bs) (Wa : wordered 0 ms) (Wb : wordered 0 bs).
Context (nid flags : Z).

(** Region [m] meets gap [k]: the test the inner loop makes. *)
Definition meets (m : memblock_region) (k : nat) : Prop :=
  gap_lo bs k < rg_base m + rg_size m /\ rg_base m < gap_hi bs k.

Definition usable (i : nat) (m : memblock_region) : Prop :=
  ms !! i = Some m /\ range_skipped nid flags m = false.

(** The range stored for a meeting pair. *)
Definition range_lo (m : memblock_region) (k : nat) : Z := Z.max (rg_base m) (gap_lo bs k).
Definition range_hi (m : memblock_region) (k : nat) : Z :=
  Z.min (rg_base m + rg_size m) (gap_hi bs k).

(** The indices after a meeting pair, one more than [idx_a] and [idx_b]. *)
Definition next_a (i : nat) (m : memblock_region) (k : nat) : nat :=
  if gap_lo bs k <=? rg_base m then i else S i.
Definition next_b (m : memblock_region) (k : nat) : nat :=
  if gap_lo bs k <=? rg_base m then S k else k.

Definition found_is (f : found_range) (i : nat) (m : memblock_region) (k : nat) : Prop :=
  fr_start f = range_lo m k /\ fr_end f = range_hi m k
  /\ fr_idx_a f = Z.of_nat (next_a i m k) - 1 /\ fr_idx_b f = Z.of_nat (next_b m k) - 1.

Lemma rev_scan_b_spec i m n :
  ms !! i = Some m -> (n <= S (length bs))%nat ->
  (exists f k, rev_scan_b (rg_base m) (rg_end m) i tb n = Ret (inl f) /\ (k < n)%nat
     /\ meets m k /\ found_is f i m k
     /\ (forall k', (k < k' < n)%nat -> rg_base m + rg_size m <= gap_lo bs k'))
  \/ (exists n', rev_scan_b (rg_base m) (rg_end m) i tb n = Ret (inr n') /\ (n' <= n)%nat
     /\ (forall k', (n' <= k' < n)%nat -> rg_base m + rg_size m <= gap_lo bs k')
     /\ (n' = 0%nat \/ gap_hi bs (n' - 1) <= rg_base m)).
Proof.
  intros Hm. rewrite (wordered_end ta ms i m Ra Wa Hm).
  induction n as [|k IH]; intros Hn; cbn [rev_scan_b].
  - right. exists 0%nat. split_and!; [done|lia|lia|by left].
  - rewrite (gap_start_rep tb bs k Rb Wb), (gap_end_rep tb bs k Rb) by lia. cbn [obind].
    destruct (Z.leb_spec (gap_hi bs k) (rg_base m)).
    { right. exists (S k). split_and!; [done|lia|lia|]. right. by rewrite Nat.sub_succ, Nat.sub_0_r. }
    destruct (Z.ltb_spec (gap_lo bs k) (rg_base m + rg_size m)).
    + left. unfold found_is, next_a, next_b.
      destruct (gap_lo bs k <=? rg_base m) eqn:Eg; eexists _, k; (split; [reflexivity|]);
        rewrite Eg; split_and!; simpl; try done; lia.
    + destruct IH as [(f & k' & E & ? & ? & ? & Hk)|(n' & E & ? & Hk & ?)]; [lia| |].
      * left. exists f, k'. split_and!; try done; [lia|]. intros k2 Hk2.
        destruct (decide (k2 = k)) as [->|]; [done|]. apply Hk. lia.
      * right. exists n'. split_and!; try done; [lia|]. intros k2 Hk2.
        destruct (decide (k2 = k)) as [->|]; [done|]. apply Hk. lia.
Qed.

(** Regions below one that does not reach gap [k'] do not reach it either. *)
Lemma region_below i j mi mj : ms !! i = Some mi -> ms !! j = Some mj -> (i <= j)%nat ->
  rg_base mi + rg_size mi <= rg_base mj + rg_size mj.
Proof.
  intros Hi Hj Hij. destruct (decide (i = j)) as [->|]; [rewrite Hi in Hj; injection Hj as ->; lia|].
  pose proof (wordered_lt _ _ _ _ _ _ Wa Hi Hj ltac:(lia)).
  destruct (wordered_lookup _ _ _ _ Wa Hj) as (? & ? & ?). lia.
Qed.

Lemma gap_hi_mono k k' : (k <= k' <= length bs)%nat -> gap_hi bs k <= gap_hi bs k'.
Proof.
  intros Hk. destruct (decide (k = k')) as [->|]; [lia|].
  pose proof (gap_mono bs k k' Wb ltac:(lia)).
  assert (gap_lo bs k' <= gap_hi bs k'); [|lia].
  destruct k' as [|p]; [lia|]. simpl. unfold region_end, gap_hi.
  destruct (lookup_lt_is_Some_2 bs p) as [rp Hp]; [lia|]. rewrite Hp.
  destruct (bs !! S p) as [r|] eqn:E.
  - eapply wordered_lt; try done. lia.
  - by destruct (wordered_lookup _ _ _ _ Wb Hp) as (? & ? & ?).
Qed.

(** What one call of the iterator returns from the pair of indices [n], [nb]:
    nothing that meets is left, or the highest pair that meets, after which
    every other pair that meets lies below it and is still to come. *)
Lemma rev_scan_a_spec n nb :
  (n <= length ms)%nat -> (nb <= S (length bs))%nat ->
  (rev_scan_a nid flags ta (Some tb) n nb = Ret None
   /\ forall i m k, usable i m -> (i < n)%nat -> (k < nb)%nat -> ~ meets m k)
  \/ (exists f i m k, rev_scan_a nid flags ta (Some tb) n nb = Ret (Some f)
      /\ usable i m /\ (i < n)%nat /\ (k < nb)%nat /\ meets m k /\ found_is f i m k
      /\ forall i' m' k', usable i' m' -> (i' < n)%nat -> (k' < nb)%nat -> meets m' k' ->
           (i' = i /\ k' = k) \/ ((i' < next_a i m k)%nat /\ (k' < next_b m k)%nat
                                  /\ range_hi m' k' <= range_lo m k)).
Proof.
  revert nb. induction n as [|i IH]; intros nb Hn Hnb; cbn [rev_scan_a].
  { left. split; [done|]. intros. lia. }
  destruct (lookup_lt_is_Some_2 ms i) as [m Hm]; [lia|].
  rewrite (rep_get' _ _ _ _ Ra Hm). cbn [obind].
  destruct (range_skipped nid flags m) eqn:Sk.
  { destruct (IH nb) as [[E K]|(f & j & mj & k & E & U & ? & ? & ? & ? & K)]; try lia.
    - left. split; [done|]. intros i' m' k U Hi Hk.
      destruct (decide (i' = i)) as [->|]; [|apply (K i'); try done; lia].
      destruct U as [U1 U2]. congruence.
    - right. exists f, j, mj, k. split_and!; try done; [lia|]. intros i' m' k' U' Hi Hk Hmt.
      destruct (decide (i' = i)) as [->|]; [destruct U'; congruence|]. apply K; try done; lia. }
  destruct (rev_scan_b_spec i m nb Hm Hnb) as [(f & k & E & Hk & Hmt & Hf & K)|(n' & E & Hn' & K & Hlow)];
    rewrite E; cbn [obind].
  - right. exists f, i, m, k. split_and!; try done; [lia|]. intros i' m' k' [U1 U2] Hi Hk' [M1 M2].
    pose proof (region_below i' i m' m U1 Hm ltac:(lia)) as Hb.
    destruct (decide (k < k')%nat) as [Hgt|]; [specialize (K k' ltac:(lia)); lia|].
    unfold next_a, next_b, range_lo, range_hi.
    destruct (Z.leb_spec (gap_lo bs k) (rg_base m)).
    + destruct (decide (i' = i)) as [->|].
      * rewrite Hm in U1. injection U1 as <-. destruct (decide (k' = k)) as [->|]; [by left|].
        pose proof (gap_mono bs k' k Wb ltac:(lia)). lia.
      * right. pose proof (wordered_lt _ _ _ _ _ _ Wa U1 Hm ltac:(lia)). split_and!; lia.
    + destruct (decide (k' = k)) as [->|].
      * destruct (decide (i' = i)) as [->|]; [by left|].
        pose proof (wordered_lt _ _ _ _ _ _ Wa U1 Hm ltac:(lia)). lia.
      * right. pose proof (gap_mono bs k' k Wb ltac:(lia)). split_and!; lia.
  - assert (forall i' m' k', ms !! i' = Some m' -> (i' < S i)%nat -> (k' < nb)%nat -> meets m' k' ->
              (i' < i)%nat /\ (k' < n')%nat) as Rest.
    { intros i' m' k' U1 Hi Hk' [M1 M2].
      pose proof (region_below i' i m' m U1 Hm ltac:(lia)) as Hb.
      destruct (decide (n' <= k')%nat) as [Hge|]; [specialize (K k' ltac:(lia)); lia|].
      split; [|lia]. destruct (decide (i' = i)) as [->|]; [|lia].
      rewrite Hm in U1. injection U1 as <-. destruct Hlow as [->|Hlow]; [lia|].
      pose proof (gap_hi_mono k' (n' - 1) ltac:(lia)). lia. }
    destruct (IH n') as [[E' K']|(f & j & mj & k & E' & U & ? & ? & ? & ? & K')]; try lia.
    + left. split; [done|]. intros i' m' k' U Hi Hk' Hmt.
      destruct (Rest i' m' k' (proj1 U) Hi Hk' Hmt) as [? ?]. by eapply K'.
    + right. exists f, j, mj, k. split_and!; try done; try lia. intros i' m' k' U' Hi Hk' Hmt.
      destruct (Rest i' m' k' (proj1 U') Hi Hk' Hmt) as [? ?]. by apply K'.
Qed.
End Iterator.

(** ** The top-down search *)

Section Search.
Context (mb : memblock) (ms bs : list memblock_region).
Context (Ra : rep (mb_memory mb) ms) (Rb : rep (mb_reserved mb) bs).
Context (Wa : wordered 0 ms) (Wb : wordered 0 bs).
Context (Sa : Z.of_nat (length ms) < 2 ^ 31) (Sb : Z.of_nat (length bs) < 2 ^ 31 - 1).
Context (start end_ size j nid flags : Z).
Context (Hse : 0 < start <= end_) (He : end_ <= U32_MAX) (Hsz : 0 < size) (Hj : 0 <= j < 32).

Definition usable_in : nat -> memblock_region -> Prop := usable ms (fix_nid nid) flags.

(** [c] is a suitable address inside the range region [m] leaves in gap [k]. *)
Definition cand_in (m : memblock_region) (k : nat) (c : Z) : Prop :=
  start <= c /\ c + size <= end_ /\ (2 ^ j | c)
  /\ range_lo bs m k <= c /\ c + size <= range_hi bs m k.

(** The loop variable [idx] stands for the pair of indices [na - 1], [nb - 1]. *)
Definition idx_rep (idx : Z) (na nb : nat) : Prop :=
  (idx = U64_MAX /\ na = length ms /\ nb = S (length bs))
  \/ (idx <> U64_MAX /\ s32 (Z.land idx 4294967295) = Z.of_nat na - 1
      /\ s32 (Z.shiftr idx 32) = Z.of_nat nb - 1).

Lemma next_rev_scan idx na nb : idx_rep idx na nb ->
  __next_mem_range_rev idx nid flags (mb_memory mb) (Some (mb_reserved mb))
  = let* r := rev_scan_a (fix_nid nid) flags (mb_memory mb) (Some (mb_reserved mb)) na nb in
    match r with
    | Some f => Ret (pack_idx (fr_idx_a f) (fr_idx_b f), Some (fr_start f, fr_end f))
    | None => Ret (U64_MAX, None)
    end.
Proof.
  unfold __next_mem_range_rev. intros [(-> & -> & ->)|(Hne & E1 & E2)].
  - rewrite Z.eqb_refl, (rep_cnt _ _ Ra), (rep_cnt _ _ Rb).
    replace (Z.to_nat (Z.of_nat (length ms) - 1 + 1)) with (length ms) by lia.
    replace (Z.to_nat (Z.of_nat (length bs) + 1)) with (S (length bs)) by lia. done.
  - rewrite (proj2 (Z.eqb_neq _ _) Hne), E1, E2.
    replace (Z.to_nat (Z.of_nat na - 1 + 1)) with na by lia.
    replace (Z.to_nat (Z.of_nat nb - 1 + 1)) with nb by lia. done.
Qed.

(** The test in the loop body finds the highest candidate of the range. *)
Lemma body_spec m i k : ms !! i = Some m ->
  let ts := clamp (range_lo bs m k) start end_ in
  let te := clamp (range_hi bs m k) start end_ in
  let cand := round_down (u32 (te - size)) (2 ^ j) in
  (te < size -> forall c, ~ cand_in m k c)
  /\ (size <= te -> ts <= cand -> cand_in m k cand /\ forall c, cand_in m k c -> c <= cand)
  /\ (size <= te -> cand < ts -> forall c, ~ cand_in m k c).
Proof.
  intros Hm ts te cand.
  destruct (wordered_lookup _ _ _ _ Wa Hm) as (B1 & B2 & B3).
  pose proof (gap_lo_range bs k Wb). pose proof (gap_hi_range bs k Wb).
  assert (0 <= te <= U32_MAX) as Hte by (subst te; unfold clamp; lia).
  assert (forall c, cand_in m k c -> ts <= c /\ c + size <= te) as Hin.
  { intros c (? & ? & ? & ? & ?). subst ts te. unfold clamp. lia. }
  assert (size <= te -> cand = (te - size) - (te - size) mod 2 ^ j) as Ec.
  { intros Hs. subst cand. rewrite u32_small by lia. apply round_down_spec; lia. }
  assert (size <= te -> forall c, cand_in m k c -> c <= cand) as Hmax.
  { intros Hs c Hc. rewrite Ec by done. apply round_down_le; [lia| |apply Hc].
    apply Hin in Hc. lia. }
  split_and!.
  - intros Hlt c Hc. pose proof (Hin c Hc). destruct Hc as (? & _). lia.
  - intros Hs Hle. split; [|auto].
    pose proof (Z.mod_pos_bound (te - size) (2 ^ j) ltac:(lia)) as Hmod.
    unfold cand_in. rewrite Ec in * by done. subst ts te. unfold clamp in *. split_and!; try lia.
    exists ((Z.min (Z.max (range_hi bs m k) start) end_ - size) / 2 ^ j).
    pose proof (Z.div_mod (Z.min (Z.max (range_hi bs m k) start) end_ - size) (2 ^ j) ltac:(lia)). lia.
  - intros Hs Hlt c Hc. pose proof (Hmax Hs c Hc). pose proof (Hin c Hc). lia.
Qed.

Lemma find_loop_spec fuel idx na nb :
  idx_rep idx na nb -> (na <= length ms)%nat -> (nb <= S (length bs))%nat -> (na + nb < fuel)%nat ->
  exists r, find_top_down_loop fuel mb idx start end_ size (2 ^ j) nid flags = Ret r
    /\ ((r = 0 /\ forall i m k c, usable_in i m -> (i < na)%nat -> (k < nb)%nat -> ~ cand_in m k c)
        \/ (exists i m k, usable_in i m /\ (k <= length bs)%nat /\ cand_in m k r
            /\ forall i' m' k' c, usable_in i' m' -> (i' < na)%nat -> (k' < nb)%nat ->
                 cand_in m' k' c -> c <= r)).
Proof.
  revert idx na nb. induction fuel as [|fuel IH]; intros idx na nb Hidx Hna Hnb Hf; [lia|].
  cbn [find_top_down_loop]. rewrite (next_rev_scan _ _ _ Hidx).
  assert (forall m k c, cand_in m k c -> meets bs m k) as Hmeet.
  { intros m k c (? & ? & ? & ? & ?). unfold range_lo, range_hi, meets in *. lia. }
  destruct (rev_scan_a_spec (mb_memory mb) (mb_reserved mb) ms bs Ra Rb Wa Wb (fix_nid nid) flags na nb Hna Hnb)
    as [[E K]|(f & i & m & k & E & U & Hi & Hk & Hmt & (F1 & F2 & F3 & F4) & K)];
    rewrite E; cbn [obind].
  { rewrite Z.eqb_refl. exists 0. split; [done|]. left. split; [done|].
    intros i m k c U Hi Hk Hc. by eapply (K i m k U Hi Hk), Hmeet. }
  rewrite F1, F2, F3, F4.
  set (na' := next_a bs i m k) in *. set (nb' := next_b bs m k) in *.
  assert ((na' = i /\ nb' = S k) \/ (na' = S i /\ nb' = k)) as Hn'.
  { subst na' nb'. unfold next_a, next_b. destruct (_ <=? _); auto. }
  destruct (unpack_idx (Z.of_nat na' - 1) (Z.of_nat nb' - 1)) as (P1 & P2 & P3); [lia|lia|].
  assert (pack_idx (Z.of_nat na' - 1) (Z.of_nat nb' - 1) <> U64_MAX) as Hp by (intros Hp; apply P3 in Hp; lia).
  rewrite (proj2 (Z.eqb_neq _ _) Hp).
  destruct (body_spec m i k (proj1 U)) as (Q1 & Q2 & Q3).
  destruct (IH (pack_idx (Z.of_nat na' - 1) (Z.of_nat nb' - 1)) na' nb') as (r & Er & Hr);
    [right; split_and!; done|lia|lia|lia|].
  assert ((forall c, ~ cand_in m k c) ->
    (r = 0 /\ forall i m k c, usable_in i m -> (i < na)%nat -> (k < nb)%nat -> ~ cand_in m k c)
     \/ (exists i m k, usable_in i m /\ (k <= length bs)%nat /\ cand_in m k r
         /\ forall i' m' k' c, usable_in i' m' -> (i' < na)%nat -> (k' < nb)%nat ->
              cand_in m' k' c -> c <= r)) as Skip.
  { intros Hno.
    assert (forall i' m' k' c, usable_in i' m' -> (i' < na)%nat -> (k' < nb)%nat -> cand_in m' k' c ->
              (i' < na')%nat /\ (k' < nb')%nat) as Later.
    { intros i' m' k' c U' Hi' Hk' Hc.
      destruct (K i' m' k' U' Hi' Hk' (Hmeet _ _ _ Hc)) as [[-> ->]|(? & ? & _)]; [|done].
      destruct U as [U _], U' as [U' _]. rewrite U in U'. injection U' as <-. by destruct (Hno c). }
    destruct Hr as [[-> Hr]|(i1 & m1 & k1 & U1 & K1 & C1 & Hr)].
    - left. split; [done|]. intros i' m' k' c U' Hi' Hk' Hc.
      destruct (Later i' m' k' c U' Hi' Hk' Hc). by eapply Hr.
    - right. exists i1, m1, k1. split_and!; try done. intros i' m' k' c U' Hi' Hk' Hc.
      destruct (Later i' m' k' c U' Hi' Hk' Hc). by eapply Hr. }
  cbn zeta in Q1, Q2, Q3.
  destruct (Z.ltb_spec (clamp (range_hi bs m k) start end_) size); [by eauto|].
  destruct (Z.leb_spec (clamp (range_lo bs m k) start end_)
             (round_down (u32 (clamp (range_hi bs m k) start end_ - size)) (2 ^ j))) as [Hle|Hgt];
    [|by eauto].
  destruct (Q2 ltac:(done) Hle) as [Hc Hmx]. eexists. split; [reflexivity|].
  right. exists i, m, k. split_and!; [done|lia|done|]. intros i' m' k' c U' Hi' Hk' Hc'.
  destruct (K i' m' k' U' Hi' Hk' (Hmeet _ _ _ Hc')) as [[-> ->]|(? & ? & Hlow)].
  - destruct U as [U _], U' as [U' _]. rewrite U in U'. injection U' as <-. auto.
  - destruct Hc' as (_ & _ & _ & _ & Hc'), Hc as (_ & _ & _ & Hc & _). lia.
Qed.
End Search.

(** ** Properties *)

(** [size] bytes at [c] lie in one memory region the flags allow and meet no
    reserved region. *)
Definition free_block (mem res : list memblock_region) (nid flags c size : Z) : Prop :=
  (exists m, m ∈ mem /\ range_skipped (fix_nid nid) flags m = false
     /\ rg_base m <= c /\ c + size <= rg_base m + rg_size m)
  /\ (forall a, c <= a < c + size -> ~ covered res a).

Lemma free_block_cand ms bs mem res start end_ size j nid flags c :
  (ms = mem \/ mem = [] /\ ms = [zero_region]) -> (bs = res \/ res = [] /\ bs = [zero_region]) ->
  wordered 0 ms -> wordered 0 bs -> ordered 0 res -> 0 < start -> 0 < size ->
  start <= c -> c + size <= end_ -> (2 ^ j | c) ->
  free_block mem res nid flags c size
  <-> exists i m k, usable ms (fix_nid nid) flags i m /\ (k <= length bs)%nat
        /\ cand_in bs start end_ size j m k c.
Proof.
  intros Hms Hbs Wa Wb Ob Hst Hsz Hc1 Hc2 Hdiv.
  assert (forall a, covered res a <-> covered bs a) as Hcov.
  { intros a. destruct Hbs as [->|[-> ->]]; [done|]. rewrite covered_cons, !covered_nil.
    unfold in_region. simpl. intuition lia. }
  split.
  - intros [(m & Hin & Hsk & Hb & Hend) Hfree].
    assert (m ∈ ms) as Hin' by (destruct Hms as [->|[-> _]]; [done|by apply elem_of_nil in Hin]).
    apply list_elem_of_lookup in Hin' as [i Hi].
    destruct (wordered_lookup _ _ _ _ Wa Hi) as (? & ? & ?).
    destruct (gap_exists bs c (c + size) Wb) as (k & Hk & Hlo & Hhi); [lia|lia| |].
    { intros r Hr. destruct (Z_le_gt_dec (c + size) (rg_base r)); [by left|]. right.
      apply list_elem_of_lookup in Hr as [p Hp].
      destruct (wordered_lookup _ _ _ _ Wb Hp) as (? & ? & ?).
      destruct (Z_le_gt_dec (rg_base r + rg_size r) c); [done|]. exfalso.
      assert (0 < rg_size r) as Hpos.
      { destruct Hbs as [->|[-> ->]].
        - apply list_elem_of_lookup_2 in Hp. by destruct (ordered_bounds _ _ _ Ob Hp) as (_ & ? & _).
        - destruct p; [|done]. simpl in Hp. injection Hp as <-. simpl in *. lia. }
      apply (Hfree (Z.max c (rg_base r))); [lia|]. apply Hcov, Exists_exists. exists r.
      split; [by eapply list_elem_of_lookup_2|]. unfold in_region. lia. }
    exists i, m, k. split_and!; [done|done|]. unfold cand_in, range_lo, range_hi. split_and!; try done; lia.
  - intros (i & m & k & [Hi Hsk] & Hk & (_ & _ & _ & Hlo & Hhi)). unfold range_lo, range_hi in *.
    split.
    + exists m. split_and!; try done; try lia.
      apply list_elem_of_lookup_2 in Hi. destruct Hms as [->|[-> ->]]; [done|].
      apply list_elem_of_singleton in Hi as ->. simpl in *. lia.
    + intros a Ha Hcv. apply Hcov, Exists_exists in Hcv as (r & Hr & Hin).
      apply list_elem_of_lookup in Hr as [p Hp]. unfold in_region in Hin.
      destruct (decide (p < k)%nat) as [Hlt|Hge].
      * destruct k as [|q]; [lia|]. simpl in Hlo. unfold region_end in Hlo.
        destruct (lookup_lt_is_Some_2 bs q) as [rq Hq]; [lia|]. rewrite Hq in Hlo.
        destruct (wordered_lookup _ _ _ _ Wb Hq) as (? & ? & ?).
        destruct (decide (p = q)) as [->|]; [rewrite Hp in Hq; injection Hq as <-; lia|].
        pose proof (wordered_lt _ _ _ _ _ _ Wb Hp Hq ltac:(lia)). lia.
      * unfold gap_hi in Hhi. apply lookup_lt_Some in Hp as Hpl.
        destruct (lookup_lt_is_Some_2 bs k) as [rk Hrk]; [lia|]. rewrite Hrk in Hhi.
        destruct (decide (p = k)) as [->|]; [rewrite Hp in Hrk; injection Hrk as <-; lia|].
        pose proof (wordered_lt _ _ _ _ _ _ Wb Hrk Hp ltac:(lia)).
        destruct (wordered_lookup _ _ _ _ Wb Hrk) as (? & ? & ?). lia.
Qed.

(** An address at which a request of [size] bytes aligned to [2 ^ j] can be
    served from [start .. end_). *)
Definition fits (mem res : list memblock_region) (start end_ size j nid flags c : Z) : Prop :=
  start <= c /\ c + size <= end_ /\ (2 ^ j | c) /\ free_block mem res nid flags c size.

Definition small_type (t : memblock_type) : Prop := Z.of_nat (mt_cnt t) < 2 ^ 31 - 1.

Lemma top_down_fits mb mem res start end_ size j nid flags :
  wf_type (mb_memory mb) mem -> wf_type (mb_reserved mb) res ->
  small_type (mb_memory mb) -> small_type (mb_reserved mb) ->
  0 < start <= end_ -> end_ <= U32_MAX -> 0 < size -> 0 <= j < 32 ->
  exists r, __memblock_find_range_top_down mb start end_ size (2 ^ j) nid flags = Ret r
    /\ ((r = 0 /\ forall c, ~ fits mem res start end_ size j nid flags c)
        \/ (fits mem res start end_ size j nid flags r
            /\ forall c, fits mem res start end_ size j nid flags c -> c <= r)).
Proof.
  intros Wm Wr Sm Sr Hse He Hsz Hj.
  destruct (wf_stored _ _ Wm) as (ms & Ra & Wa & _ & Hms).
  destruct (wf_stored _ _ Wr) as (bs & Rb & Wb & _ & Hbs).
  unfold small_type in Sm, Sr. rewrite (rep_cnt _ _ Ra) in Sm. rewrite (rep_cnt _ _ Rb) in Sr.
  assert (forall c, fits mem res start end_ size j nid flags c <->
    exists i m k, usable ms (fix_nid nid) flags i m /\ (k <= length bs)%nat
      /\ cand_in bs start end_ size j m k c) as Hfit.
  { intros c. unfold fits. split.
    - intros (H1 & H2 & H3 & H4).
      apply (free_block_cand ms bs mem res start end_ size j nid flags c Hms Hbs Wa Wb (proj2 Wr));
        try done; lia.
    - intros (i & m & k & U & Hk & Hc). pose proof Hc as (H1 & H2 & H3 & _). split_and!; try done.
      apply (free_block_cand ms bs mem res start end_ size j nid flags c Hms Hbs Wa Wb (proj2 Wr));
        try done; [lia|]. by exists i, m, k. }
  destruct (find_loop_spec mb ms bs Ra Rb Wa Wb ltac:(lia) ltac:(lia) start end_ size j nid flags
              Hse He Hsz Hj (range_fuel mb) U64_MAX (length ms) (S (length bs)))
    as (r & E & Hr); [by left|lia|lia| |].
  { unfold range_fuel. rewrite (rep_cnt _ _ Ra), (rep_cnt _ _ Rb). lia. }
  exists r. split; [exact E|].
  destruct Hr as [[-> Hno]|(i & m & k & U & Hk & Hc & Hmax)]; [left|right]; split; try done.
  - intros c Hc. apply Hfit in Hc as (i & m & k & U & Hk & Hc).
    eapply (Hno i m k c U); [|lia|done]. by eapply lookup_lt_Some, (proj1 U).
  - apply Hfit. by exists i, m, k.
  - intros c Hc'. apply Hfit in Hc' as (i' & m' & k' & U' & Hk' & Hc').
    eapply (Hmax i' m' k' c U'); [|lia|done]. by eapply lookup_lt_Some, (proj1 U').
Qed.

(** C12: __memblock_find_range_top_down terminates and is exact: it returns the
    highest aligned address in the window at which the requested bytes lie in
    one usable memory region and meet no reservation, and 0 only when there is
    no such address. *)
Theorem memblock_find_range_top_down_highest mb mem res start end_ size j nid flags :
  wf_type (mb_memory mb) mem -> wf_type (mb_reserved mb) res ->
  small_type (mb_memory mb) -> small_type (mb_reserved mb) ->
  0 < start <= end_ -> end_ <= U32_MAX -> 0 < size -> 0 <= j < 32 ->
  exists r, __memblock_find_range_top_down mb start end_ size (2 ^ j) nid flags = Ret r
    /\ ((r = 0 /\ forall c, ~ fits mem res start end_ size j nid flags c)
        \/ (fits mem res start end_ size j nid flags r
            /\ forall c, fits mem res start end_ size j nid flags c -> c <= r)).
Proof. apply top_down_fits. Qed.

(** A block that meets no region takes one more slot. *)
Lemma add_list_free lo c size flags rs : ordered lo rs -> 0 < size ->
  (forall a, c <= a < c + size -> ~ covered rs a) ->
  length (add_list c (c + size) flags rs) = S (length rs).
Proof.
  revert lo. induction rs as [|r rs IH]; intros lo Ho Hsz Hfree; simpl.
  - by destruct (Z.ltb_spec c (c + size)); [|lia].
  - destruct Ho as (? & ? & ? & Ho).
    assert (c + size <= rg_base r \/ rg_base r + rg_size r <= c) as Hd.
    { destruct (Z_le_gt_dec (c + size) (rg_base r)); [by left|].
      destruct (Z_le_gt_dec (rg_base r + rg_size r) c); [by right|].
      destruct (Hfree (Z.max c (rg_base r))); [lia|]. apply covered_cons. left. unfold in_region. lia. }
    destruct (Z.leb_spec (c + size) (rg_base r)).
    + by destruct (Z.ltb_spec c (c + size)); [|lia].
    + destruct (Z.leb_spec (rg_base r + rg_size r) c); [|lia]. simpl. f_equal. eapply IH; try done.
      intros a Ha Hc. eapply Hfree; [done|]. apply covered_cons. by right.
Qed.

Section Alloc.
Context `{SlabAllocator}.

(** C13: memblock_alloc_range_nid, with a spare slot in the reserved array or with
    resizing not allowed, does one of three things.  No block fits: it returns 0
    and changes nothing.  There is a spare slot: it returns the highest aligned
    block that was usable memory and free, and leaves exactly that block added
    to the reservations.  The array is full and may not be resized: it returns 0
    and changes nothing although a block fits. *)
Theorem memblock_alloc_range_nid_correct fuel size j start end_ nid flags mb mem res :
  wf_type (mb_memory mb) mem -> wf_type (mb_reserved mb) res ->
  small_type (mb_memory mb) -> small_type (mb_reserved mb) ->
  0 <= start <= U32_MAX -> 0 < end_ <= U32_MAX -> 0 < size -> 0 <= j < 32 ->
  (length res < mt_max (mb_reserved mb))%nat \/ mb_can_resize mb = false ->
  let lo := Z.max start PAGE_SIZE in
  let hi := Z.max lo end_ in
  (memblock_alloc_range_nid (S fuel) size (2 ^ j) start end_ nid flags mb = Ret (0, mb)
   /\ forall c, ~ fits mem res lo hi size j nid flags c)
  \/ ((length res < mt_max (mb_reserved mb))%nat /\ exists c mb' res',
       memblock_alloc_range_nid (S fuel) size (2 ^ j) start end_ nid flags mb = Ret (c, mb')
       /\ c <> 0 /\ fits mem res lo hi size j nid flags c
       /\ (forall c', fits mem res lo hi size j nid flags c' -> c' <= c)
       /\ mb_memory mb' = mb_memory mb /\ wf_type (mb_reserved mb') res'
       /\ (forall a, covered res' a <-> covered res a \/ c <= a < c + size))
  \/ ((mt_max (mb_reserved mb) <= length res)%nat
      /\ memblock_alloc_range_nid (S fuel) size (2 ^ j) start end_ nid flags mb = Ret (0, mb)
      /\ exists c, fits mem res lo hi size j nid flags c).
Proof.
  intros Wm Wr Sm Sr Hs He Hsz Hj Hroom lo hi.
  assert (0 < PAGE_SIZE <= U32_MAX) by (unfold PAGE_SIZE, U32_MAX; lia).
  unfold memblock_alloc_range_nid, memblock_find_in_range_node. cbn zeta.
  destruct (Z.eqb_spec (2 ^ j) 0); [pose proof (Z.pow_pos_nonneg 2 j); lia|].
  destruct (Z.eqb_spec end_ MEMBLOCK_ALLOC_ACCESSIBLE); [unfold MEMBLOCK_ALLOC_ACCESSIBLE in *; lia|].
  cbn [memblock_bottom_up andb]. fold lo hi.
  destruct (top_down_fits mb mem res lo hi size j nid flags) as (r & E & Hr); try done; try lia.
  rewrite E. cbn [obind].
  destruct Hr as [[-> Hno]|[Hf Hmax]]; [by left|].
  pose proof Hf as (F1 & F2 & F3 & F4).
  destruct (Z.eqb_spec r 0); [lia|]. right.
  assert (memblock_cap_size r size = size) as Ecap.
  { unfold memblock_cap_size. rewrite u32_small by lia. apply Z.min_l. lia. }
  assert (length (add_list r (r + size) 0 res) = S (length res)) as El by (rewrite (add_list_free 0); try done; [apply Wr|apply F4]).
  unfold memblock_reserve. destruct (decide (length res < mt_max (mb_reserved mb))%nat) as [Hr|Hr]; [left; split; [done|]|right; split; [lia|]].
  - destruct (add_range_room (memblock_double_array (S fuel)) fuel Reserved r size 0 mb res)
      as (mb' & res' & Ea & W' & Fr & _ & _ & Cv); try done; try lia.
    { rewrite Ecap, El. simpl get_type. lia. }
    unfold memblock_add_range. rewrite Ea. cbn [obind].
    rewrite Ecap in Cv. exists r, mb', res'. split_and!; try done. apply Fr.
  - split; [|by exists r]. rewrite (memblock_add_range_enomem fuel Reserved r size 0 mb res); try done; try lia.
    + intros ->. destruct Wr as [[[_ R]|[Hne _]] _]; [|done]. pose proof (rep_le _ _ R). simpl in *. lia.
    + rewrite Ecap, El. simpl get_type. lia.
    + by destruct Hroom.
Qed.

End Alloc.

(** ** Instances at a concrete map *)

#[local] Instance find_slab : SlabAllocator :=
  {| slab_is_available := false; kmalloc_pa := fun _ => 0; kernel_end_pa := 1090519040 |}.

Lemma memblock_find_range_top_down_highest_witness :
  __memblock_find_range_top_down demo_mb 4096 2147483648 65536 (2 ^ 12) NUMA_NO_NODE 0
    = Ret 2147418112 /\
  exists r, __memblock_find_range_top_down demo_mb 4096 2147483648 65536 (2 ^ 12) NUMA_NO_NODE 0 = Ret r
    /\ ((r = 0 /\ forall c, ~ fits demo_memory demo_reserved 4096 2147483648 65536 12 NUMA_NO_NODE 0 c)
        \/ (fits demo_memory demo_reserved 4096 2147483648 65536 12 NUMA_NO_NODE 0 r
            /\ forall c, fits demo_memory demo_reserved 4096 2147483648 65536 12 NUMA_NO_NODE 0 c -> c <= r)).
Proof.
  split; [vm_compute; reflexivity|].
  apply (memblock_find_range_top_down_highest demo_mb demo_memory demo_reserved
           4096 2147483648 65536 12 NUMA_NO_NODE 0);
    [exact demo_memory_wf|exact demo_reserved_wf|unfold small_type; simpl; lia|unfold small_type; simpl; lia
    |lia|unfold U32_MAX; lia|lia|lia].
Defined.

Lemma memblock_alloc_range_nid_correct_witness :
  let lo := Z.max 0 PAGE_SIZE in
  let hi := Z.max lo 2147483648 in
  (memblock_alloc_range_nid 3 65536 (2 ^ 12) 0 2147483648 NUMA_NO_NODE 0 demo_mb = Ret (0, demo_mb)
   /\ forall c, ~ fits demo_memory demo_reserved lo hi 65536 12 NUMA_NO_NODE 0 c)
  \/ ((length demo_reserved < mt_max (mb_reserved demo_mb))%nat /\ exists c mb' res',
       memblock_alloc_range_nid 3 65536 (2 ^ 12) 0 2147483648 NUMA_NO_NODE 0 demo_mb = Ret (c, mb')
       /\ c <> 0 /\ fits demo_memory demo_reserved lo hi 65536 12 NUMA_NO_NODE 0 c
       /\ (forall c', fits demo_memory demo_reserved lo hi 65536 12 NUMA_NO_NODE 0 c' -> c' <= c)
       /\ mb_memory mb' = mb_memory demo_mb /\ wf_type (mb_reserved mb') res'
       /\ (forall a, covered res' a <-> covered demo_reserved a \/ c <= a < c + 65536))
  \/ ((mt_max (mb_reserved demo_mb) <= length demo_reserved)%nat
      /\ memblock_alloc_range_nid 3 65536 (2 ^ 12) 0 2147483648 NUMA_NO_NODE 0 demo_mb = Ret (0, demo_mb)
      /\ exists c, fits demo_memory demo_reserved lo hi 65536 12 NUMA_NO_NODE 0 c).
Proof.
  apply (memblock_alloc_range_nid_correct 2 65536 12 0 2147483648 NUMA_NO_NODE 0 demo_mb
           demo_memory demo_reserved);
    [exact demo_memory_wf|exact demo_reserved_wf|unfold small_type; simpl; lia|unfold small_type; simpl; lia
    |unfold U32_MAX; lia|unfold U32_MAX; lia|lia|lia|left; simpl; lia].
Defined.

(** ** Trimming

    [memblock_trim_memory] shrinks a region in place and leaves [total_size]
    as it was: after trimming an unaligned region to 64 KiB the accounting
    that [memblock_phys_mem_size] returns no longer is the sum of the sizes,
    so the map has left the invariant every other operation keeps. *)
Definition ragged_memory : list memblock_region := [mk_region 1073745920 1048576 0].

Definition ragged_mb : memblock :=
  mk_memblock 2147483648 (demo_type ragged_memory) (demo_type demo_reserved) false true false false.

Theorem memblock_trim_memory_total_size :
  wf_type (mb_memory ragged_mb) ragged_memory /\
  exists mb', memblock_trim_memory 65536 ragged_mb = Ret mb'
    /\ take (mt_cnt (mb_memory mb')) (mt_regions (mb_memory mb')) = [mk_region 1073807360 983040 0]
    /\ memblock_phys_mem_size mb' = 1048576
    /\ forall rs, ~ wf_type (mb_memory mb') rs.
Proof.
  split.
  { split; [right; split; [done|by constructor]|]. simpl. unfold U32_MAX. repeat split; lia. }
  eexists. split; [vm_compute; reflexivity|]. split_and!; [done|done|].
  intros rs [[[-> R]|[Hne R]] _].
  - by apply rep_take in R.
  - pose proof (rep_cnt _ _ R) as Hc. pose proof (rep_take _ _ R) as Ht.
    pose proof (rep_total _ _ R) as Hs. rewrite <- Hc in Ht. simpl in Ht. subst rs.
    vm_compute in Hs. discriminate.
Qed.
