(* ===== verification/MemblockGrow.v ===== *)
(** * Adding memory with array doubling returns

    [memblock_add_range] on a full memory array doubles it, which searches for
    free memory, frees the old array and reserves the new one.  When the array
    of reservations has room for that bookkeeping the call returns: no BUG_ON,
    no access outside an array, and at most two doublings. *)
From Stdlib Require Import ZArith Lia Bool.
From stdpp Require Import base numbers list.
From S2P Require Import Prelude Memblock MemblockRegions MemblockRange MemblockFind.

Lemma page_align_bounds x : 0 <= x -> x + PAGE_SIZE <= U32_MAX ->
  x <= PAGE_ALIGN x < x + PAGE_SIZE.
Proof.
  intros H0 H1. by apply page_align_up.
Qed.

(** At most one region more than twice as many. *)
Lemma add_list_at_most base end_ flags rs :
  (length (add_list base end_ flags rs) <= 2 * length rs + 1)%nat.
Proof.
  revert base. induction rs as [|r rs IH]; intros base; simpl; repeat cmp; simpl; try lia;
    match goal with |- context [add_list ?b _ _ _] => pose proof (IH b); lia end.
Qed.

Lemma wf_cnt t rs : wf_type t rs -> (mt_cnt t <= length rs + 1)%nat /\ (mt_cnt t <= mt_max t)%nat.
Proof.
  intros [[[-> R]|[_ R]] _]; pose proof (rep_le _ _ R); rewrite (rep_cnt _ _ R); simpl in *; lia.
Qed.

(** The count is a function of the regions. *)
Lemma mt_cnt_wf t t' rs : wf_type t rs -> wf_type t' rs -> mt_cnt t = mt_cnt t'.
Proof.
  intros [[[-> R]|[Hne R]] _] [[[E R']|[Hne' R']] _]; try done;
    by rewrite (rep_cnt _ _ R), (rep_cnt _ _ R').
Qed.

Section Grow.
Context `{SlabAllocator}.

(** What doubling the memory array relies on: well-formed arrays of a size for
    which the sizes in bytes do not wrap, addresses of 32 bits, and [room] free
    slots for reservations. *)
Record growable (room : nat) (mb : memblock) (mem res : list memblock_region) : Prop := {
  gr_mem : wf_type (mb_memory mb) mem;
  gr_res : wf_type (mb_reserved mb) res;
  gr_mem_max : 0 < Z.of_nat (mt_max (mb_memory mb)) < 2 ^ 26;
  gr_res_max : Z.of_nat (mt_max (mb_reserved mb)) < 2 ^ 26;
  gr_limit : 0 <= mb_current_limit mb <= U32_MAX;
  gr_pa : forall pa, mt_pa (mb_memory mb) = Some pa -> 0 <= pa <= U32_MAX;
  gr_room : (length res + room <= mt_max (mb_reserved mb))%nat
}.

Lemma find_in_range_returns mb mem res size : wf_type (mb_memory mb) mem -> wf_type (mb_reserved mb) res ->
  small_type (mb_memory mb) -> small_type (mb_reserved mb) ->
  0 <= mb_current_limit mb <= U32_MAX -> 0 < size ->
  exists c, memblock_find_in_range kernel_end_pa mb 0 (mb_current_limit mb) size PAGE_SIZE = Ret c
    /\ (c = 0 \/ 0 < c /\ c + size <= U32_MAX /\ forall a, c <= a < c + size -> ~ covered res a).
Proof.
  intros Wm Wr Sm Sr Hl Hs.
  assert (forall flags, exists c,
    memblock_find_in_range_node kernel_end_pa mb size PAGE_SIZE 0 (mb_current_limit mb) NUMA_NO_NODE flags = Ret c
    /\ (c = 0 \/ 0 < c /\ c + size <= U32_MAX /\ forall a, c <= a < c + size -> ~ covered res a)) as Hn.
  { intros flags. unfold memblock_find_in_range_node. cbn zeta. cbn [memblock_bottom_up andb].
    replace (if mb_current_limit mb =? MEMBLOCK_ALLOC_ACCESSIBLE then mb_current_limit mb
             else mb_current_limit mb) with (mb_current_limit mb) by (by destruct (_ =? _)).
    assert (0 < PAGE_SIZE <= U32_MAX) by (unfold PAGE_SIZE, U32_MAX; lia).
    change PAGE_SIZE with (2 ^ 12) at 3.
    destruct (top_down_fits mb mem res (Z.max 0 PAGE_SIZE)
                (Z.max (Z.max 0 PAGE_SIZE) (mb_current_limit mb)) size 12 NUMA_NO_NODE flags)
      as (c & E & Hc); try done; try lia.
    exists c. split; [exact E|]. destruct Hc as [[-> _]|[(F1 & F2 & _ & _ & F4) _]]; [by left|].
    right. split_and!; [lia|lia|done]. }
  unfold memblock_find_in_range. cbn zeta.
  destruct (Hn (choose_memblock_flags mb)) as (c & -> & Hc). cbn [obind].
  destruct (_ && _); [apply Hn|]. by exists c.
Qed.

(** Between two states only reservations differ, and the array of them has its
    length. *)
Definition kept (mb mb' : memblock) : Prop :=
  mb_memory mb' = mb_memory mb /\ mb_current_limit mb' = mb_current_limit mb
  /\ mt_max (mb_reserved mb') = mt_max (mb_reserved mb).

Lemma kept_frame mb mb' : same_frame Reserved mb mb' -> kept mb mb'.
Proof. intros F. unfold same_frame in F. simpl in F. unfold kept. tauto. Qed.

(** Giving the old array back. *)
Lemma release_old dbl n (old : option Z) size mb res : wf_type (mb_reserved mb) res ->
  (forall pa, old = Some pa -> 0 <= pa <= U32_MAX) -> 0 <= size ->
  (length res + 3 <= mt_max (mb_reserved mb))%nat ->
  exists mb' res', (match old with
    | None => Ret mb
    | Some pa => let* (_, mb') := memblock_remove_range_with dbl (S n) Reserved pa size mb in Ret mb'
    end) = Ret mb'
    /\ wf_type (mb_reserved mb') res' /\ kept mb mb' /\ (length res' <= length res + 2)%nat
    /\ (forall a, covered res' a -> covered res a).
Proof.
  intros W Hpa Hs Hroom. destruct old as [pa|].
  - pose proof (wf_cnt _ _ W) as [Hc _].
    destruct (remove_range_room dbl n Reserved pa size mb res) as (mb' & res' & E & W' & F & M & L);
      try done; [by apply Hpa|simpl; lia|].
    rewrite E. cbn [obind]. exists mb', res'. split_and!; try done; [by apply kept_frame|].
    intros a Ha. apply covered_maps in Ha as [f Hf]. apply M in Hf as [Hf _].
    apply covered_maps. by exists f.
  - exists mb, res. split_and!; try done. lia.
Qed.

(** Reserving a block that is free. *)
Lemma reserve_new dbl n c size mb res : wf_type (mb_reserved mb) res ->
  0 < c -> 0 < size -> c + size <= U32_MAX -> (forall a, c <= a < c + size -> ~ covered res a) ->
  (length res < mt_max (mb_reserved mb))%nat ->
  exists mb' res', memblock_add_range_with dbl (S n) Reserved c size MEMBLOCK_NONE mb = Ret (0, mb')
    /\ wf_type (mb_reserved mb') res' /\ kept mb mb' /\ (length res' <= length res + 1)%nat.
Proof.
  intros W Hc Hs He Hfree Hroom.
  assert (memblock_cap_size c size = size) as Ecap.
  { unfold memblock_cap_size. rewrite u32_small by lia. apply Z.min_l. lia. }
  assert (length (add_list c (c + size) MEMBLOCK_NONE res) = S (length res)) as El
    by (eapply add_list_free; [apply W|done|done]).
  destruct (add_range_room dbl n Reserved c size MEMBLOCK_NONE mb res) as (mb' & res' & E & W' & F & _ & L & _);
    try done; try lia; [rewrite Ecap, El; done|].
  rewrite Ecap, El in L. exists mb', res'. split_and!; try done; [by apply kept_frame|lia].
Qed.

(** The array after the copy holds the same regions. *)
Lemma doubled_wf t rs pa : wf_type t rs ->
  wf_type (mk_type (mt_cnt t) (mt_max t + mt_max t) (mt_total_size t)
             (mt_regions t ++ replicate (mt_max t) zero_region) pa) rs.
Proof.
  assert (forall l, rep t l -> rep (mk_type (mt_cnt t) (mt_max t + mt_max t) (mt_total_size t)
             (mt_regions t ++ replicate (mt_max t) zero_region) pa) l) as Hrep.
  { intros l R. destruct (rep_split _ _ R) as (stale & Ea & L). rewrite (rep_cnt _ _ R), Ea, <- app_assoc.
    apply rep_intro; [rewrite length_app, length_replicate; lia|apply R]. }
  intros [[[-> R]|[Hne R]] Ho]; (split; [|done]); [left|right]; auto.
Qed.

Lemma new_sizes room mb mem res : growable room mb mem res ->
  let old := u32 (Z.of_nat (mt_max (mb_memory mb)) * sizeof_region) in
  0 <= PAGE_ALIGN old /\ 0 < PAGE_ALIGN (u32 (Z.shiftl old 1)).
Proof.
  intros G old. pose proof (gr_mem_max _ _ _ _ G) as Hm. unfold old, sizeof_region.
  rewrite (u32_small (_ * 12)) by (unfold U32_MAX; lia).
  rewrite Z.shiftl_mul_pow2 by lia. rewrite u32_small by (unfold U32_MAX; lia).
  pose proof (page_align_bounds (Z.of_nat (mt_max (mb_memory mb)) * 12)) as P1.
  pose proof (page_align_bounds (Z.of_nat (mt_max (mb_memory mb)) * 12 * 2 ^ 1)) as P2.
  unfold PAGE_SIZE, U32_MAX in *. lia.
Qed.

(** One doubling of the memory array: it fails and changes nothing, or the
    array is twice as long and three slots for reservations have been used. *)
Lemma double_memory_returns n room b s mb mem res : growable (room + 3) mb mem res ->
  (forall k, 0 <= kmalloc_pa k <= U32_MAX) ->
  exists q mb', memblock_double_array (S n) Memory b s mb = Ret (q, mb')
    /\ (q = -1 \/ q = 0 /\ mt_max (mb_memory mb') = (mt_max (mb_memory mb) + mt_max (mb_memory mb))%nat
          /\ exists res', wf_type (mb_memory mb') mem /\ wf_type (mb_reserved mb') res'
               /\ mt_max (mb_reserved mb') = mt_max (mb_reserved mb)
               /\ mb_current_limit mb' = mb_current_limit mb
               /\ (forall pa, mt_pa (mb_memory mb') = Some pa -> 0 <= pa <= U32_MAX)
               /\ (length res' + room <= mt_max (mb_reserved mb'))%nat).
Proof.
  intros G Hk. destruct (new_sizes _ _ _ _ G) as [Z1 Z2].
  destruct G as [Wm Wr Mm Mr Hl Hpa Hroom].
  assert (small_type (mb_memory mb) /\ small_type (mb_reserved mb)) as [Sm Sr].
  { unfold small_type. pose proof (wf_cnt _ _ Wm). pose proof (wf_cnt _ _ Wr). lia. }
  cbn [memblock_double_array]. unfold double_array_body. cbn zeta.
  destruct (negb (mb_can_resize mb)). { exists (-1), mb. auto. }
  simpl get_type. rewrite bool_decide_false by done. change (u32 (0 + 0)) with 0.
  set (old := u32 (Z.of_nat (mt_max (mb_memory mb)) * sizeof_region)) in *.
  set (size := PAGE_ALIGN (u32 (Z.shiftl old 1))) in *.
  destruct (find_in_range_returns mb mem res size Wm Wr Sm Sr Hl Z2) as (c & Ef & Hc).
  rewrite Ef. cbn [obind]. change (negb (0 =? 0)) with false. rewrite andb_false_r.
  assert (exists addr, (if slab_is_available then Ret (kmalloc_pa (u32 (Z.shiftl old 1))) else Ret c) = Ret addr
            /\ 0 <= addr <= U32_MAX /\ (slab_is_available = false -> addr = c)) as (addr & -> & Ha & Hac).
  { destruct slab_is_available; eexists; (split; [reflexivity|]); split; try done. lia. }
  cbn [obind]. destruct (Z.eqb_spec addr 0). { exists (-1), mb. auto. }
  set (t1 := mk_type _ _ _ _ _).
  assert (wf_type t1 mem) as W1 by (by apply doubled_wf).
  set (mb1 := set_type Memory t1 mb).
  assert (exists mb2 res2, (if in_slab Memory mb1 then Ret mb1 else
            match mt_pa (mb_memory mb) with
            | None => Ret mb1
            | Some pa => let* (_, mb') := memblock_remove_range_with (memblock_double_array n) (S n) Reserved
                           pa (PAGE_ALIGN old) mb1 in Ret mb'
            end) = Ret mb2
            /\ wf_type (mb_reserved mb2) res2 /\ kept mb1 mb2 /\ (length res2 <= length res + 2)%nat
            /\ (forall a, covered res2 a -> covered res a)) as (mb2 & res2 & -> & W2 & K2 & L2 & C2).
  { destruct (in_slab Memory mb1).
    - exists mb1, res. split_and!; try done. lia.
    - apply release_old; try done. simpl. lia. }
  cbn [obind]. destruct K2 as (K2m & K2l & K2r). simpl in K2m, K2l, K2r.
  assert (exists mb3 res3, (if negb slab_is_available then
            let* (r, mb') := memblock_add_range_with (memblock_double_array n) (S n) Reserved addr size
                               MEMBLOCK_NONE mb2 in BUG_ON (negb (r =? 0)) ;; Ret mb'
            else Ret mb2) = Ret mb3
            /\ wf_type (mb_reserved mb3) res3 /\ kept mb2 mb3 /\ (length res3 <= length res2 + 1)%nat)
    as (mb3 & res3 & -> & W3 & (K3m & K3l & K3r) & L3).
  { destruct slab_is_available; simpl negb.
    - exists mb2, res2. split_and!; try done. lia.
    - rewrite Hac in * by done. destruct Hc as [?|(Hc1 & Hc2 & Hc3)]; [done|].
      destruct (reserve_new (memblock_double_array n) n c size mb2 res2) as (mb3 & res3 & E3 & R3);
        try done; [intros a Ia Ca; by apply (Hc3 a), C2|lia|].
      rewrite E3. cbn [obind]. by exists mb3, res3. }
  cbn [obind]. eexists 0, _. split; [reflexivity|]. right. split; [done|].
  simpl. rewrite K3m, K2m. split; [done|]. exists res3.
  split_and!; try done; try congruence; [|lia]. intros pa Epa. injection Epa as <-. done.
Qed.

Lemma ensure_room_returns k fuel n extra b s mb mem res :
  growable (3 * k) mb mem res -> (forall i, 0 <= kmalloc_pa i <= U32_MAX) ->
  Z.of_nat (mt_max (mb_memory mb)) * 2 ^ Z.of_nat k < 2 ^ 26 ->
  (mt_cnt (mb_memory mb) + extra <= mt_max (mb_memory mb) * 2 ^ k)%nat -> (k < fuel)%nat ->
  exists r mb', ensure_room fuel (memblock_double_array (S n)) Memory extra b s mb = Ret (r, mb').
Proof.
  intros G Hk. revert fuel mb res G. induction k as [|k IH]; intros fuel mb res G Hmax Hn Hf;
    (destruct fuel as [|fuel]; [lia|]).
  { exists 0, mb. apply ensure_room_enough. simpl in *. lia. }
  cbn [ensure_room]. simpl get_type.
  destruct (Nat.ltb_spec (mt_max (mb_memory mb)) (mt_cnt (mb_memory mb) + extra)); [|by eexists 0, _].
  replace (3 * S k)%nat with (3 * k + 3)%nat in G by lia.
  destruct (double_memory_returns n (3 * k) b s mb mem res G Hk)
    as (q & mb' & E & [->|(-> & M & res' & Wm & Wr & Mr & Hl & Hp & Hr)]); rewrite E; cbn [obind].
  { by eexists _, _. }
  simpl (0 <? 0). destruct G as [Gm Gr Gmm Grm Gl Gp Groom].
  rewrite Nat2Z.inj_succ, Z.pow_succ_r in Hmax by lia.
  pose proof (Z.pow_pos_nonneg 2 (Z.of_nat k)) as Hpow.
  apply (IH fuel mb' res').
  - split; try done; [nia|lia|congruence].
  - rewrite M. nia.
  - rewrite M, (mt_cnt_wf _ _ _ Wm Gm). simpl in Hn. nia.
  - lia.
Qed.

Lemma add_memory_returns fuel base size flags mb mem res :
  growable 6 mb mem res -> Z.of_nat (mt_max (mb_memory mb)) < 2 ^ 24 ->
  (forall i, 0 <= kmalloc_pa i <= U32_MAX) -> 0 <= base <= U32_MAX -> 0 <= size ->
  exists r mb', memblock_add_range (S (S (S fuel))) Memory base size flags mb = Ret (r, mb').
Proof.
  intros G Hmax Hk Hb Hs. pose proof (gr_mem _ _ _ _ G) as [Hv Ho].
  unfold memblock_add_range, memblock_add_range_with.
  destruct (cap_size_range base size Hb Hs) as (C1 & C2 & C3). rewrite C3.
  set (sz := memblock_cap_size base size) in *. cbn zeta.
  destruct (Z.eqb_spec sz 0); [by eexists _, _|]. simpl get_type.
  destruct Hv as [[-> R]|[Hne R]].
  - rewrite (rep_get' _ _ 0 zero_region R eq_refl). cbn [obind]. simpl (rg_size _ =? 0).
    destruct (set_region_rep (mb_memory mb) [] zero_region [] (mk_region base sz flags) sz R)
      as (a & Ea & _); [simpl; rewrite u32_small; lia|].
    simpl in Ea. rewrite Ea. by eexists _, _.
  - destruct mem as [|r0 mem]; [done|]. rewrite (rep_get' _ _ 0 r0 R eq_refl). cbn [obind].
    destruct (Z.eqb_spec (rg_size r0) 0); [simpl in Ho; lia|].
    destruct (add_pass_false (mb_memory mb) (r0 :: mem) base (base + sz) flags R Ho) as (nr & -> & N).
    cbn [obind]. destruct (Nat.eqb_spec nr 0); [by eexists _, _|].
    pose proof (add_list_at_most base (base + sz) flags (r0 :: mem)) as Hal. pose proof (rep_le _ _ R).
    destruct (ensure_room_returns 2 (S (S (S fuel))) (S (S fuel)) nr base sz mb (r0 :: mem) res)
      as (q & m & E); try done; [lia|rewrite (rep_cnt _ _ R); simpl in *; lia|lia|].
    rewrite E. cbn [obind].
    destruct (ensure_room_rep _ _ _ _ _ _ _ _ _ E R) as [R' [[-> Hr]| ->]]; [|by eexists _, _].
    destruct (add_insert_merge (mb_memory m) (r0 :: mem) base (base + sz) flags)
      as (t2 & nr2 & t3 & rs' & E2 & E3 & _); try done; try lia.
    simpl (0 <? 0). simpl get_type. rewrite E2. cbn [obind Nat.eqb]. rewrite E3. by eexists _, _.
Qed.

(** C11: memblock_add_range on the memory array always returns when the array of
    reservations has six free slots for the bookkeeping of at most two array
    doublings: no BUG_ON trips, no access leaves an array and the recursion
    ends.  It returns 0 and the memory covered is the union of the old map and
    the capped range, or -ENOMEM and the map is as it was. *)
Theorem memblock_add_memory_returns fuel base size flags mb mem res :
  growable 6 mb mem res -> Z.of_nat (mt_max (mb_memory mb)) < 2 ^ 24 ->
  (forall i, 0 <= kmalloc_pa i <= U32_MAX) -> 0 <= base <= U32_MAX -> 0 <= size ->
  exists r mb', memblock_add_range (S (S (S fuel))) Memory base size flags mb = Ret (r, mb')
    /\ ((r = 0 /\ exists rs', wf_type (mb_memory mb') rs'
           /\ forall a, covered rs' a <-> covered mem a \/ base <= a < base + memblock_cap_size base size)
        \/ (r = - ENOMEM /\ wf_type (mb_memory mb') mem)).
Proof.
  intros G Hmax Hk Hb Hs. destruct (add_memory_returns fuel base size flags mb mem res) as (r & mb' & E);
    try done. exists r, mb'. split; [done|]. eapply add_memory_result; try done. apply G.
Qed.
End Grow.

(** A full memory array of two slots, one page of memory free for the new
    array. *)
#[local] Instance grow_slab : SlabAllocator :=
  {| slab_is_available := false; kmalloc_pa := fun _ => 0; kernel_end_pa := 1090519040 |}.

Definition full_memory : memblock_type := mk_type 2 2 (sum_sizes demo_memory) demo_memory None.

Definition full_mb : memblock :=
  mk_memblock 2147483648 full_memory (demo_type demo_reserved) false true false false.

Lemma full_growable : growable 6 full_mb demo_memory demo_reserved.
Proof.
  split; simpl; try (unfold U32_MAX; lia); [| |done].
  - split; [right; split; [done|by constructor]|]. simpl. unfold U32_MAX. repeat split; lia.
  - exact demo_reserved_wf.
Qed.

Lemma memblock_add_memory_returns_witness :
  (exists mb', memblock_add_range 3 Memory 0 4096 0 full_mb = Ret (0, mb')
     /\ mt_max (mb_memory mb') = 4%nat /\ mt_pa (mb_memory mb') = Some 2147479552) /\
  exists r mb', memblock_add_range 3 Memory 0 4096 0 full_mb = Ret (r, mb')
    /\ ((r = 0 /\ exists rs', wf_type (mb_memory mb') rs'
           /\ forall a, covered rs' a <-> covered demo_memory a \/ 0 <= a < 0 + memblock_cap_size 0 4096)
        \/ (r = - ENOMEM /\ wf_type (mb_memory mb') demo_memory)).
Proof.
  split; [eexists; vm_compute; auto|].
  apply (memblock_add_memory_returns 0 0 4096 0 full_mb demo_memory demo_reserved);
    [exact full_growable|simpl; lia|intros i; simpl; unfold U32_MAX; lia|unfold U32_MAX; lia|lia].
Defined.
