(* ===== verification/Buddy.v ===== *)
(** * The buddy page allocator (mm/page_alloc.c)

    The free lists of one zone: [free_area] with its lists of free blocks per
    order and migrate type, the [struct page] fields that mark a block as free,
    the pageblock bitmap, and the operations that free a block
    ([__free_one_page]) and take one ([__rmqueue] with its fallbacks).  All of
    them run under [zone->lock].

    Configuration: FORCE_MAX_ZONEORDER = 11; without CONFIG_HUGETLB_PAGE
    [pageblock_order] is MAX_ORDER - 1, so [max_order] of [__free_one_page] is
    MAX_ORDER and its second merging phase is compiled away; without
    CONFIG_HOLES_IN_ZONE [pfn_valid_within] is 1; without
    CONFIG_DEBUG_PAGEALLOC there are no guard pages; VM_BUG_ON is empty. *)
From Stdlib Require Import ZArith Lia Bool.
From stdpp Require Import base numbers list gmap.
From S2P Require Import Prelude.

Definition MAX_ORDER : nat := 11.
Definition pageblock_order : nat := MAX_ORDER - 1.
Definition pageblock_nr_pages : Z := 2 ^ Z.of_nat pageblock_order.

(** The migrate types, with CONFIG_CMA and CONFIG_MEMORY_ISOLATION. *)
Definition MIGRATE_UNMOVABLE : nat := 0.
Definition MIGRATE_MOVABLE : nat := 1.
Definition MIGRATE_RECLAIMABLE : nat := 2.
Definition MIGRATE_PCPTYPES : nat := 3.
Definition MIGRATE_HIGHATOMIC : nat := MIGRATE_PCPTYPES.
Definition MIGRATE_CMA : nat := 4.
Definition MIGRATE_ISOLATE : nat := 5.
Definition MIGRATE_TYPES : nat := 6.

Definition is_migrate_cma (mt : nat) : bool := (mt =? MIGRATE_CMA)%nat.
Definition is_migrate_isolate (mt : nat) : bool := (mt =? MIGRATE_ISOLATE)%nat.

Definition PAGE_BUDDY_MAPCOUNT_VALUE : Z := -128.

(** The fields of [struct page] the allocator uses; [pg_zone_id] is the zone
    number kept in the page flags, [pg_index] the migrate type of a page on
    its way to a per-CPU list. *)
Record page := mk_page {
  pg_mapcount : Z;
  pg_private : Z;
  pg_zone_id : Z;
  pg_index : nat
}.

Record free_area := mk_area { fa_free_list : list (list Z); fa_nr_free : Z }.

(** [struct zone] with the part of [mem_map] it can reach.  A page is its
    page frame number; a free list holds the numbers of the block heads in
    list order.  [z_nr_free_pages] and [z_nr_free_cma] are the two vmstat
    counters (per-CPU deltas included). *)
Record zone := mk_zone {
  z_id : Z;
  z_start_pfn : Z;
  z_spanned_pages : Z;
  z_movable_cma : bool;
  z_nr_isolate_pageblock : Z;
  z_pageblock_flags : list Z;
  z_nr_free_pages : Z;
  z_nr_free_cma : Z;
  z_free_area : list free_area;
  z_mem_map : gmap Z page
}.

Definition set_free_area (a : list free_area) (z : zone) : zone :=
  mk_zone (z_id z) (z_start_pfn z) (z_spanned_pages z) (z_movable_cma z)
    (z_nr_isolate_pageblock z) (z_pageblock_flags z) (z_nr_free_pages z) (z_nr_free_cma z) a (z_mem_map z).
Definition set_mem_map (m : gmap Z page) (z : zone) : zone :=
  mk_zone (z_id z) (z_start_pfn z) (z_spanned_pages z) (z_movable_cma z)
    (z_nr_isolate_pageblock z) (z_pageblock_flags z) (z_nr_free_pages z) (z_nr_free_cma z) (z_free_area z) m.
Definition set_pageblock_flags (f : list Z) (z : zone) : zone :=
  mk_zone (z_id z) (z_start_pfn z) (z_spanned_pages z) (z_movable_cma z)
    (z_nr_isolate_pageblock z) f (z_nr_free_pages z) (z_nr_free_cma z) (z_free_area z) (z_mem_map z).
Definition set_vmstat (pages cma : Z) (z : zone) : zone :=
  mk_zone (z_id z) (z_start_pfn z) (z_spanned_pages z) (z_movable_cma z)
    (z_nr_isolate_pageblock z) (z_pageblock_flags z) pages cma (z_free_area z) (z_mem_map z).

(** ** Pages *)

Definition get_page (z : zone) (p : Z) : outcome page :=
  match z_mem_map z !! p with Some pg => Ret pg | None => Ub end.
Definition put_page (p : Z) (pg : page) (z : zone) : zone := set_mem_map (<[p := pg]> (z_mem_map z)) z.

Definition PageBuddy (pg : page) : bool := pg_mapcount pg =? PAGE_BUDDY_MAPCOUNT_VALUE.
Definition page_order (pg : page) : Z := pg_private pg.

Definition set_page_order (p : Z) (order : nat) (z : zone) : outcome zone :=
  let* pg := get_page z p in
  Ret (put_page p (mk_page PAGE_BUDDY_MAPCOUNT_VALUE (Z.of_nat order) (pg_zone_id pg) (pg_index pg)) z).

Definition rmv_page_order (p : Z) (z : zone) : outcome zone :=
  let* pg := get_page z p in
  Ret (put_page p (mk_page (-1) 0 (pg_zone_id pg) (pg_index pg)) z).

Definition set_pcppage_migratetype (p : Z) (mt : nat) (z : zone) : outcome zone :=
  let* pg := get_page z p in
  Ret (put_page p (mk_page (pg_mapcount pg) (pg_private pg) (pg_zone_id pg) mt) z).

(** [page + d] for an [unsigned long] difference that may have wrapped. *)
Definition page_add (p d : Z) : Z := u32 (p + u32 d).

(** ** Lists *)

(** [list_add] and [list_add_tail] on [free_area[order].free_list[mt]]. *)
Definition free_list_add (tail : bool) (p : Z) (order mt : nat) (z : zone) : outcome zone :=
  let* a := arr_get (z_free_area z) order in
  let* l := arr_get (fa_free_list a) mt in
  let* ls := arr_set (fa_free_list a) mt (if tail then l ++ [p] else p :: l) in
  let* areas := arr_set (z_free_area z) order (mk_area ls (fa_nr_free a)) in
  Ret (set_free_area areas z).

Definition on_list (p : Z) (l : list Z) : bool := bool_decide (p ∈ l).

(** [list_del (&page->lru)] unlinks the page from the list it is on; a page
    that is on none of the free lists has no valid links here. *)
Definition list_del (p : Z) (z : zone) : outcome zone :=
  if existsb (fun a => existsb (on_list p) (fa_free_list a)) (z_free_area z) then
    Ret (set_free_area
           (map (fun a => mk_area (map (filter (fun q => q <> p)) (fa_free_list a)) (fa_nr_free a))
                (z_free_area z)) z)
  else Ub.

(** [free_area[order].nr_free += d]. *)
Definition nr_free_add (order : nat) (d : Z) (z : zone) : outcome zone :=
  let* a := arr_get (z_free_area z) order in
  let* areas := arr_set (z_free_area z) order (mk_area (fa_free_list a) (u32 (fa_nr_free a + d))) in
  Ret (set_free_area areas z).

(** [list_first_entry_or_null]. *)
Definition first_free (z : zone) (order mt : nat) : outcome (option Z) :=
  let* a := arr_get (z_free_area z) order in
  let* l := arr_get (fa_free_list a) mt in
  Ret (head l).

(** ** Pageblock flags *)

Definition BITS_PER_LONG : Z := 32.
Definition NR_PAGEBLOCK_BITS : Z := 4.
Definition PB_migrate : Z := 0.
Definition PB_migrate_end : Z := 2.
Definition PB_migrate_skip : Z := 3.
Definition MIGRATETYPE_MASK : Z := 7.

Definition pfn_to_bitidx (z : zone) (pfn : Z) : Z :=
  let start := Z.land (z_start_pfn z) (u32 (Z.lnot (pageblock_nr_pages - 1))) in
  u32 (Z.shiftr (u32 (pfn - start)) (Z.of_nat pageblock_order) * NR_PAGEBLOCK_BITS).

Definition get_pfnblock_flags_mask (z : zone) (pfn end_bitidx mask : Z) : outcome Z :=
  let bitidx0 := pfn_to_bitidx z pfn in
  let word_bitidx := bitidx0 / BITS_PER_LONG in
  let bitidx := Z.land bitidx0 (BITS_PER_LONG - 1) in
  let* word := arr_get (z_pageblock_flags z) (Z.to_nat word_bitidx) in
  let bitidx' := bitidx + end_bitidx in
  Ret (Z.land (Z.shiftr word (BITS_PER_LONG - bitidx' - 1)) mask).

(** The [cmpxchg] loop runs once: the words change under [zone->lock] here. *)
Definition set_pfnblock_flags_mask (flags pfn end_bitidx mask : Z) (z : zone) : outcome zone :=
  let bitidx0 := pfn_to_bitidx z pfn in
  let word_bitidx := bitidx0 / BITS_PER_LONG in
  let bitidx := Z.land bitidx0 (BITS_PER_LONG - 1) in
  let bitidx' := bitidx + end_bitidx in
  let mask' := u32 (Z.shiftl mask (BITS_PER_LONG - bitidx' - 1)) in
  let flags' := u32 (Z.shiftl flags (BITS_PER_LONG - bitidx' - 1)) in
  let* word := arr_get (z_pageblock_flags z) (Z.to_nat word_bitidx) in
  let* ws := arr_set (z_pageblock_flags z) (Z.to_nat word_bitidx)
               (Z.lor (Z.land word (u32 (Z.lnot mask'))) flags') in
  Ret (set_pageblock_flags ws z).

Definition get_pfnblock_migratetype (z : zone) (pfn : Z) : outcome nat :=
  let* f := get_pfnblock_flags_mask z pfn PB_migrate_end MIGRATETYPE_MASK in
  Ret (Z.to_nat f).

Section Mobility.
(** [page_group_by_mobility_disabled] *)
Context (mobility_disabled : bool).

Definition set_pageblock_migratetype (pfn : Z) (mt : nat) (z : zone) : outcome zone :=
  let mt' := if mobility_disabled && (mt <? MIGRATE_PCPTYPES)%nat then MIGRATE_UNMOVABLE else mt in
  set_pfnblock_flags_mask (Z.of_nat mt') pfn PB_migrate_end
    (2 ^ (PB_migrate_end - PB_migrate + 1) - 1) z.

(** ** Freeing *)

Definition __mod_zone_freepage_state (nr : Z) (mt : nat) (z : zone) : zone :=
  set_vmstat (s32 (z_nr_free_pages z + nr))
    (if is_migrate_cma mt then s32 (z_nr_free_cma z + nr) else z_nr_free_cma z) z.

Definition __find_buddy_index (page_idx : Z) (order : nat) : Z :=
  Z.lxor page_idx (2 ^ Z.of_nat order).

Definition page_is_buddy (z : zone) (p buddy : Z) (order : nat) : outcome bool :=
  let* b := get_page z buddy in
  if PageBuddy b && (page_order b =? Z.of_nat order) then
    let* pg := get_page z p in
    Ret (pg_zone_id pg =? pg_zone_id b)
  else Ret false.

(** Where the merging loop stops: the zone, [page], [page_idx], [order], and
    [buddy_idx], which is uninitialised until the loop has run once. *)
Record merged := mk_merged {
  mg_zone : zone; mg_page : Z; mg_idx : Z; mg_order : nat; mg_buddy_idx : option Z
}.

(** [while (order < max_order - 1)]; [n] is the number of rounds left. *)
Fixpoint merge_up (n : nat) (p page_idx : Z) (order : nat) (bidx : option Z) (z : zone)
    : outcome merged :=
  match n with
  | O => Ret (mk_merged z p page_idx order bidx)
  | S n' =>
      let buddy_idx := __find_buddy_index page_idx order in
      let buddy := page_add p (buddy_idx - page_idx) in
      let* ok := page_is_buddy z p buddy order in
      if negb ok then Ret (mk_merged z p page_idx order (Some buddy_idx))
      else
        let* z1 := list_del buddy z in
        let* z2 := nr_free_add order (-1) z1 in
        let* z3 := rmv_page_order buddy z2 in
        let combined_idx := Z.land buddy_idx page_idx in
        merge_up n' (page_add p (combined_idx - page_idx)) combined_idx (order + 1)
          (Some buddy_idx) z3
  end.

(** Whether the block goes to the tail of its list: the buddy of the next
    order is free already. *)
Definition tail_hint (g : merged) : outcome bool :=
  if (mg_order g <? MAX_ORDER - 2)%nat then
    match mg_buddy_idx g with
    | None => Ub
    | Some buddy_idx =>
        let combined_idx := Z.land buddy_idx (mg_idx g) in
        let higher_page := page_add (mg_page g) (combined_idx - mg_idx g) in
        let buddy_idx' := __find_buddy_index combined_idx (mg_order g + 1) in
        let higher_buddy := page_add higher_page (buddy_idx' - combined_idx) in
        page_is_buddy (mg_zone g) higher_page higher_buddy (mg_order g + 1)
    end
  else Ret false.

Definition __free_one_page (p pfn : Z) (order mt : nat) (z : zone) : outcome zone :=
  let z0 := if negb (is_migrate_isolate mt) then __mod_zone_freepage_state (2 ^ Z.of_nat order) mt z else z in
  let page_idx := Z.land pfn (2 ^ Z.of_nat MAX_ORDER - 1) in
  let* g := merge_up (MAX_ORDER - 1 - order) p page_idx order None z0 in
  let* z1 := set_page_order (mg_page g) (mg_order g) (mg_zone g) in
  let* tail := tail_hint (mk_merged z1 (mg_page g) (mg_idx g) (mg_order g) (mg_buddy_idx g)) in
  let* z2 := free_list_add tail (mg_page g) (mg_order g) mt z1 in
  nr_free_add (mg_order g) 1 z2.

(** [free_one_page] without the reclaim counter of the node. *)
Definition free_one_page (p pfn : Z) (order mt : nat) (z : zone) : outcome zone :=
  let* mt' := if negb (z_nr_isolate_pageblock z =? 0) || is_migrate_isolate mt
              then get_pfnblock_migratetype z pfn else Ret mt in
  __free_one_page p pfn order mt' z.

(** ** Allocating *)

(** [expand] from [high] down to [low]; [size] is [1 << high]. *)
Fixpoint expand_loop (n : nat) (p : Z) (high : nat) (size : Z) (mt : nat) (z : zone) : outcome zone :=
  match n with
  | O => Ret z
  | S n' =>
      let high' := (high - 1)%nat in
      let size' := Z.shiftr size 1 in
      let* z1 := free_list_add false (page_add p size') high' mt z in
      let* z2 := nr_free_add high' 1 z1 in
      let* z3 := set_page_order (page_add p size') high' z2 in
      expand_loop n' p high' size' mt z3
  end.

Definition expand (p : Z) (low high mt : nat) (z : zone) : outcome zone :=
  expand_loop (high - low) p high (2 ^ Z.of_nat high) mt z.

(** The loop of [__rmqueue_smallest]; [n] orders are left to look at. *)
Fixpoint rmqueue_scan (n current_order order mt : nat) (z : zone) : outcome (option Z * zone) :=
  match n with
  | O => Ret (None, z)
  | S n' =>
      let* page := first_free z current_order mt in
      match page with
      | None => rmqueue_scan n' (current_order + 1) order mt z
      | Some p =>
          let* z1 := list_del p z in
          let* z2 := rmv_page_order p z1 in
          let* z3 := nr_free_add current_order (-1) z2 in
          let* z4 := expand p order current_order mt z3 in
          let* z5 := set_pcppage_migratetype p mt z4 in
          Ret (Some p, z5)
      end
  end.

Definition __rmqueue_smallest (order mt : nat) (z : zone) : outcome (option Z * zone) :=
  let mt' := if z_movable_cma z && (mt =? MIGRATE_MOVABLE)%nat then MIGRATE_CMA else mt in
  rmqueue_scan (MAX_ORDER - order) order order mt' z.

(** The array [fallbacks]: a row ends at MIGRATE_TYPES, entries the source does
    not name are 0. *)
Definition fallbacks : list (list nat) :=
  [[MIGRATE_RECLAIMABLE; MIGRATE_MOVABLE; MIGRATE_TYPES; 0%nat];
   [MIGRATE_RECLAIMABLE; MIGRATE_UNMOVABLE; MIGRATE_TYPES; 0%nat];
   [MIGRATE_UNMOVABLE; MIGRATE_MOVABLE; MIGRATE_TYPES; 0%nat];
   [0%nat; 0%nat; 0%nat; 0%nat];
   [MIGRATE_TYPES; 0%nat; 0%nat; 0%nat];
   [MIGRATE_TYPES; 0%nat; 0%nat; 0%nat]].

Definition __rmqueue_cma_fallback (order : nat) (z : zone) : outcome (option Z * zone) :=
  __rmqueue_smallest order MIGRATE_CMA z.

(** [move_freepages] from [p] while [p <= end_page]; returns [pages_moved]. *)
Fixpoint move_freepages (fuel : nat) (p end_page : Z) (mt : nat) (moved : Z) (z : zone)
    : outcome (Z * zone) :=
  match fuel with
  | O => Fuel
  | S fuel' =>
      if p <=? end_page then
        let* pg := get_page z p in
        if negb (PageBuddy pg) then move_freepages fuel' (p + 1) end_page mt moved z
        else
          let order := Z.to_nat (page_order pg) in
          let* z1 := list_del p z in
          let* z2 := free_list_add false p order mt z1 in
          move_freepages fuel' (p + 2 ^ Z.of_nat order) end_page mt (moved + 2 ^ Z.of_nat order) z2
      else Ret (moved, z)
  end.

Definition zone_spans_pfn (z : zone) (pfn : Z) : bool :=
  (z_start_pfn z <=? pfn) && (pfn <? u32 (z_start_pfn z + z_spanned_pages z)).

Definition move_freepages_block (p : Z) (mt : nat) (z : zone) : outcome (Z * zone) :=
  let start_pfn := Z.land p (u32 (Z.lnot (pageblock_nr_pages - 1))) in
  let end_pfn := u32 (start_pfn + pageblock_nr_pages - 1) in
  let start_page := if negb (zone_spans_pfn z start_pfn) then p else start_pfn in
  if negb (zone_spans_pfn z end_pfn) then Ret (0, z)
  else move_freepages (Z.to_nat pageblock_nr_pages + 1) start_page end_pfn mt 0 z.

Fixpoint change_pageblock_range (n : nat) (p : Z) (mt : nat) (z : zone) : outcome zone :=
  match n with
  | O => Ret z
  | S n' =>
      let* z1 := set_pageblock_migratetype p mt z in
      change_pageblock_range n' (page_add p pageblock_nr_pages) mt z1
  end.

Definition can_steal_fallback (order start_mt : nat) : bool :=
  if (pageblock_order <=? order)%nat then true
  else (pageblock_order / 2 <=? order)%nat || (start_mt =? MIGRATE_RECLAIMABLE)%nat
       || (start_mt =? MIGRATE_UNMOVABLE)%nat || mobility_disabled.

Definition steal_suitable_fallback (p : Z) (start_type : nat) (z : zone) : outcome zone :=
  let* pg := get_page z p in
  let current_order := Z.to_nat (page_order pg) in
  if (pageblock_order <=? current_order)%nat then
    change_pageblock_range (2 ^ (current_order - pageblock_order)) p start_type z
  else
    let* (pages, z1) := move_freepages_block p start_type z in
    if (2 ^ Z.of_nat (pageblock_order - 1) <=? pages) || mobility_disabled then
      set_pageblock_migratetype p start_type z1
    else Ret z1.

(** The loop of [find_suitable_fallback] over a row of [fallbacks]; the result
    is the migrate type and [*can_steal].  A row without a terminator is left
    at its end. *)
Fixpoint suitable_loop (ls : list (list Z)) (order mt : nat) (only_stealable can_steal : bool)
    (row : list nat) : outcome (option nat * bool) :=
  match row with
  | [] => Ub
  | fallback_mt :: row' =>
      if (fallback_mt =? MIGRATE_TYPES)%nat then Ret (None, can_steal)
      else
        let* l := arr_get ls fallback_mt in
        match l with
        | [] => suitable_loop ls order mt only_stealable can_steal row'
        | _ =>
            let can_steal' := can_steal || can_steal_fallback order mt in
            if negb only_stealable then Ret (Some fallback_mt, can_steal')
            else if can_steal' then Ret (Some fallback_mt, can_steal')
            else suitable_loop ls order mt only_stealable can_steal' row'
        end
  end.

Definition find_suitable_fallback (a : free_area) (order mt : nat) (only_stealable : bool)
    : outcome (option nat * bool) :=
  if fa_nr_free a =? 0 then Ret (None, false)
  else
    let* row := arr_get fallbacks mt in
    suitable_loop (fa_free_list a) order mt only_stealable false row.

(** The loop of [__rmqueue_fallback] from [current_order] down to [order]; [n]
    orders are left. *)
Fixpoint rmqueue_fallback_loop (n current_order order start_mt : nat) (z : zone)
    : outcome (option Z * zone) :=
  match n with
  | O => Ret (None, z)
  | S n' =>
      let* a := arr_get (z_free_area z) current_order in
      let* (fallback_mt, can_steal) := find_suitable_fallback a current_order start_mt false in
      match fallback_mt with
      | None => rmqueue_fallback_loop n' (current_order - 1) order start_mt z
      | Some mt =>
          let* page := first_free z current_order mt in
          match page with
          | None => Ub
          | Some p =>
              let* z1 := if can_steal then steal_suitable_fallback p start_mt z else Ret z in
              let* z2 := nr_free_add current_order (-1) z1 in
              let* z3 := list_del p z2 in
              let* z4 := rmv_page_order p z3 in
              let* z5 := expand p order current_order start_mt z4 in
              let* z6 := set_pcppage_migratetype p start_mt z5 in
              Ret (Some p, z6)
          end
      end
  end.

Definition __rmqueue_fallback (order start_mt : nat) (z : zone) : outcome (option Z * zone) :=
  rmqueue_fallback_loop (MAX_ORDER - order) (MAX_ORDER - 1) order start_mt z.

(** [__rmqueue]. *)
Definition __rmqueue (order mt : nat) (z : zone) : outcome (option Z * zone) :=
  let* (page, z1) := __rmqueue_smallest order mt z in
  match page with
  | Some p => Ret (Some p, z1)
  | None =>
      let* (page2, z2) := if (mt =? MIGRATE_MOVABLE)%nat then __rmqueue_cma_fallback order z1
                          else Ret (None, z1) in
      match page2 with
      | Some p => Ret (Some p, z2)
      | None => __rmqueue_fallback order mt z2
      end
  end.
End Mobility.
