(* ===== verification/BuddyInv.v ===== *)
(** * The invariant of the buddy allocator

    What a consistent zone is, and that the two elementary changes of its free
    lists -- a block enters, a block leaves -- keep it consistent. *)
From Stdlib Require Import ZArith Lia Bool.
From stdpp Require Import base numbers list gmap.
From S2P Require Import Prelude Buddy.

(** The list at [free_area[o].free_list[m]] and the counter beside it. *)
Definition fl (z : zone) (o m : nat) : list Z :=
  match z_free_area z !! o with
  | Some a => default [] (fa_free_list a !! m)
  | None => []
  end.

Definition nr (z : zone) (o : nat) : Z :=
  match z_free_area z !! o with Some a => fa_nr_free a | None => 0 end.

Definition blk (o : nat) : Z := 2 ^ Z.of_nat o.

Definition shape (z : zone) : Prop :=
  length (z_free_area z) = MAX_ORDER
  /\ forall o a, z_free_area z !! o = Some a -> length (fa_free_list a) = MIGRATE_TYPES.

(** The fields the free lists do not depend on. *)
Definition same_rest (z z' : zone) : Prop :=
  z_id z' = z_id z /\ z_start_pfn z' = z_start_pfn z /\ z_spanned_pages z' = z_spanned_pages z
  /\ z_movable_cma z' = z_movable_cma z /\ z_nr_isolate_pageblock z' = z_nr_isolate_pageblock z
  /\ length (z_pageblock_flags z') = length (z_pageblock_flags z).

Definition same_vmstat (z z' : zone) : Prop :=
  z_nr_free_pages z' = z_nr_free_pages z /\ z_nr_free_cma z' = z_nr_free_cma z.

Definition list_total (z : zone) (o : nat) : Z :=
  Z.of_nat (length (fl z o 0) + length (fl z o 1) + length (fl z o 2)
            + length (fl z o 3) + length (fl z o 4) + length (fl z o 5)).

(** Physical addresses have 32 bits and pages 12. *)
Definition MAX_PFN : Z := 2 ^ 20.

(** The pages of a block are all there and belong to the zone. *)
Definition block_ok (z : zone) (p : Z) (o : nat) : Prop :=
  (blk o | p) /\ forall a, p <= a < p + blk o -> exists pg, z_mem_map z !! a = Some pg /\ pg_zone_id pg = z_id z.

(** A page frame lies in a free block. *)
Definition free_at (z : zone) (a : Z) : Prop :=
  exists o m p, p ∈ fl z o m /\ p <= a < p + blk o.

(** No two buddies are free at the same order: they would have been merged. *)
Definition coalesced (z : zone) : Prop :=
  forall o m m' p, (o < MAX_ORDER - 1)%nat -> p ∈ fl z o m -> Z.lxor p (blk o) ∉ fl z o m'.

Record buddy_inv (z : zone) : Prop := {
  bi_shape : shape z;
  bi_head : forall o m p, p ∈ fl z o m ->
    exists pg, z_mem_map z !! p = Some pg /\ pg_mapcount pg = PAGE_BUDDY_MAPCOUNT_VALUE
      /\ pg_private pg = Z.of_nat o;
  bi_block : forall o m p, p ∈ fl z o m -> block_ok z p o;
  bi_listed : forall p pg, z_mem_map z !! p = Some pg ->
    pg_mapcount pg = PAGE_BUDDY_MAPCOUNT_VALUE -> pg_zone_id pg = z_id z ->
    exists o m, p ∈ fl z o m;
  bi_nodup : forall o m, NoDup (fl z o m);
  bi_once : forall o m m' p, p ∈ fl z o m -> p ∈ fl z o m' -> m = m';
  bi_disj : forall o m p o' m' q, p ∈ fl z o m -> q ∈ fl z o' m' -> p <> q ->
    p + blk o <= q \/ q + blk o' <= p;
  bi_nr : forall o, (o < MAX_ORDER)%nat -> nr z o = u32 (list_total z o);
  bi_map : forall p, is_Some (z_mem_map z !! p) ->
    0 <= p < MAX_PFN /\ forall q, q / pageblock_nr_pages = p / pageblock_nr_pages -> is_Some (z_mem_map z !! q);
  bi_span : forall p pg, z_mem_map z !! p = Some pg ->
    (pg_zone_id pg = z_id z <-> zone_spans_pfn z p = true);
  bi_flags : forall p, is_Some (z_mem_map z !! p) -> zone_spans_pfn z p = true ->
    (Z.to_nat (pfn_to_bitidx z p / BITS_PER_LONG) < length (z_pageblock_flags z))%nat
}.

Create HintDb buddy.

Lemma blk_pos o : 0 < blk o.
Proof. apply Z.pow_pos_nonneg; lia. Qed.
#[export] Hint Resolve blk_pos : buddy.

Lemma blk_S o : blk (S o) = 2 * blk o.
Proof. unfold blk. rewrite Nat2Z.inj_succ. apply Z.pow_succ_r. lia. Qed.

Lemma blk_divide o o' : (o <= o')%nat -> (blk o | blk o').
Proof.
  intros H. exists (2 ^ (Z.of_nat o' - Z.of_nat o)). unfold blk.
  rewrite <- Z.pow_add_r by lia. f_equal. lia.
Qed.

Lemma blk_le o o' : (o <= o')%nat -> blk o <= blk o'.
Proof. intros H. apply Z.pow_le_mono_r; lia. Qed.

Lemma fl_bounds z o m p : shape z -> p ∈ fl z o m -> (o < MAX_ORDER)%nat /\ (m < MIGRATE_TYPES)%nat.
Proof.
  intros [H1 H2] Hp. unfold fl in Hp. destruct (z_free_area z !! o) as [a|] eqn:Ea;
    [|by apply elem_of_nil in Hp].
  pose proof (lookup_lt_Some _ _ _ Ea). destruct (fa_free_list a !! m) as [l|] eqn:El;
    [|by apply elem_of_nil in Hp].
  pose proof (lookup_lt_Some _ _ _ El). rewrite (H2 _ _ Ea) in *. lia.
Qed.

(** ** What the list primitives do *)

Lemma free_list_add_spec tail p o m z :
  shape z -> (o < MAX_ORDER)%nat -> (m < MIGRATE_TYPES)%nat ->
  exists z', free_list_add tail p o m z = Ret z' /\ shape z' /\ same_rest z z' /\ same_vmstat z z'
    /\ z_mem_map z' = z_mem_map z /\ (forall o', nr z' o' = nr z o')
    /\ fl z' o m = (if tail then fl z o m ++ [p] else p :: fl z o m)
    /\ (forall o' m', (o', m') <> (o, m) -> fl z' o' m' = fl z o' m').
Proof.
  intros [H1 H2] Ho Hm. unfold free_list_add.
  destruct (lookup_lt_is_Some_2 (z_free_area z) o) as [a Ea]; [lia|].
  pose proof (H2 _ _ Ea) as Hl.
  destruct (lookup_lt_is_Some_2 (fa_free_list a) m) as [l El]; [lia|].
  rewrite (arr_get_Some _ _ _ Ea). cbn [obind]. rewrite (arr_get_Some _ _ _ El). cbn [obind].
  rewrite arr_set_lt by lia. cbn [obind]. rewrite arr_set_lt by lia. cbn [obind].
  eexists. split; [done|]. unfold shape, same_rest, same_vmstat, fl, nr. simpl.
  split_and!; try done; rewrite ?length_insert; try done.
  - intros o' a'. destruct (decide (o' = o)) as [->|].
    + rewrite list_lookup_insert_eq by lia. intros E. injection E as <-. simpl. by rewrite length_insert.
    + rewrite list_lookup_insert_ne by done. apply H2.
  - intros o'. destruct (decide (o' = o)) as [->|].
    + rewrite list_lookup_insert_eq by lia. by rewrite Ea.
    + by rewrite list_lookup_insert_ne by done.
  - rewrite list_lookup_insert_eq by lia. simpl. rewrite list_lookup_insert_eq by lia. simpl.
    by rewrite Ea, El.
  - intros o' m' Hne. destruct (decide (o' = o)) as [->|].
    + rewrite list_lookup_insert_eq by lia. simpl. rewrite list_lookup_insert_ne by congruence. by rewrite Ea.
    + by rewrite list_lookup_insert_ne by done.
Qed.

Lemma nr_free_add_spec o d z :
  shape z -> (o < MAX_ORDER)%nat ->
  exists z', nr_free_add o d z = Ret z' /\ shape z' /\ same_rest z z' /\ same_vmstat z z'
    /\ z_mem_map z' = z_mem_map z /\ nr z' o = u32 (nr z o + d)
    /\ (forall o', o' <> o -> nr z' o' = nr z o') /\ (forall o' m', fl z' o' m' = fl z o' m').
Proof.
  intros [H1 H2] Ho. unfold nr_free_add.
  destruct (lookup_lt_is_Some_2 (z_free_area z) o) as [a Ea]; [lia|].
  rewrite (arr_get_Some _ _ _ Ea). cbn [obind]. rewrite arr_set_lt by lia. cbn [obind].
  eexists. split; [done|]. unfold shape, same_rest, same_vmstat, fl, nr. simpl.
  split_and!; try done; rewrite ?length_insert; try done.
  - intros o' a'. destruct (decide (o' = o)) as [->|].
    + rewrite list_lookup_insert_eq by lia. intros E. injection E as <-. simpl. by eapply H2.
    + rewrite list_lookup_insert_ne by done. apply H2.
  - rewrite list_lookup_insert_eq by lia. by rewrite Ea.
  - intros o' Hne. by rewrite list_lookup_insert_ne by done.
  - intros o' m'. destruct (decide (o' = o)) as [->|].
    + rewrite list_lookup_insert_eq by lia. by rewrite Ea.
    + by rewrite list_lookup_insert_ne by done.
Qed.

Definition without (p : Z) (l : list Z) : list Z := filter (fun q => q <> p) l.

Lemma list_del_spec p o m z :
  shape z -> p ∈ fl z o m ->
  exists z', list_del p z = Ret z' /\ shape z' /\ same_rest z z' /\ same_vmstat z z'
    /\ z_mem_map z' = z_mem_map z /\ (forall o', nr z' o' = nr z o')
    /\ (forall o' m', fl z' o' m' = without p (fl z o' m')).
Proof.
  intros [H1 H2] Hp. unfold list_del.
  assert (existsb (fun a => existsb (on_list p) (fa_free_list a)) (z_free_area z) = true) as ->.
  { unfold fl in Hp. destruct (z_free_area z !! o) as [a|] eqn:Ea; [|by apply elem_of_nil in Hp].
    destruct (fa_free_list a !! m) as [l|] eqn:El; [|by apply elem_of_nil in Hp].
    apply existsb_exists. exists a. split; [by apply list_elem_of_In, (list_elem_of_lookup_2 _ o)|].
    apply existsb_exists. exists l. split; [by apply list_elem_of_In, (list_elem_of_lookup_2 _ m)|].
    by apply bool_decide_eq_true_2. }
  eexists. split; [done|]. unfold shape, same_rest, same_vmstat, fl, nr. simpl.
  split_and!; try done; rewrite ?length_map; try done.
  - intros o' a'. rewrite list_lookup_fmap. destruct (z_free_area z !! o') as [a|] eqn:Ea; [|done].
    simpl. intros E. injection E as <-. simpl. rewrite length_map. by eapply H2.
  - intros o'. rewrite list_lookup_fmap. by destruct (z_free_area z !! o').
  - intros o' m'. rewrite list_lookup_fmap. destruct (z_free_area z !! o') as [a|]; [|done]. simpl.
    rewrite list_lookup_fmap. by destruct (fa_free_list a !! m').
Qed.

(** ** A block enters, a block leaves *)

Record adds (z z' : zone) (o m : nat) (p : Z) : Prop := {
  ad_shape : shape z';
  ad_rest : same_rest z z';
  ad_vm : same_vmstat z z';
  ad_fl : fl z' o m ≡ₚ p :: fl z o m;
  ad_other : forall o' m', (o', m') <> (o, m) -> fl z' o' m' = fl z o' m';
  ad_nr : nr z' o = u32 (nr z o + 1);
  ad_nr_other : forall o', o' <> o -> nr z' o' = nr z o';
  ad_mem : exists pg, z_mem_map z !! p = Some pg
    /\ z_mem_map z' = <[p := mk_page PAGE_BUDDY_MAPCOUNT_VALUE (Z.of_nat o) (pg_zone_id pg) (pg_index pg)]>
                        (z_mem_map z)
}.

Record dels (z z' : zone) (o : nat) (p : Z) : Prop := {
  de_shape : shape z';
  de_rest : same_rest z z';
  de_vm : same_vmstat z z';
  de_fl : forall o' m', fl z' o' m' = without p (fl z o' m');
  de_nr : nr z' o = u32 (nr z o - 1);
  de_nr_other : forall o', o' <> o -> nr z' o' = nr z o';
  de_mem : exists pg, z_mem_map z !! p = Some pg
    /\ z_mem_map z' = <[p := mk_page (-1) 0 (pg_zone_id pg) (pg_index pg)]> (z_mem_map z)
}.

(** A page changes in fields other than its zone. *)
Definition same_zones (m m' : gmap Z page) : Prop :=
  forall a, pg_zone_id <$> (m' !! a) = pg_zone_id <$> (m !! a).

Lemma same_zones_insert m p pg mc pr ix : m !! p = Some pg ->
  same_zones m (<[p := mk_page mc pr (pg_zone_id pg) ix]> m).
Proof.
  intros Hp a. destruct (decide (a = p)) as [->|]; [by rewrite lookup_insert_eq, Hp|].
  by rewrite lookup_insert_ne.
Qed.

Lemma same_zones_some m m' a pg : same_zones m m' -> m !! a = Some pg ->
  exists pg', m' !! a = Some pg' /\ pg_zone_id pg' = pg_zone_id pg.
Proof.
  intros H Ha. specialize (H a). rewrite Ha in H. destruct (m' !! a) as [pg'|]; [|done].
  injection H as H. eauto.
Qed.

Lemma same_zones_sym m m' : same_zones m m' -> same_zones m' m.
Proof. intros H a. by rewrite H. Qed.

Lemma same_zones_trans m1 m2 m3 : same_zones m1 m2 -> same_zones m2 m3 -> same_zones m1 m3.
Proof. intros H1 H2 a. by rewrite H2, H1. Qed.

Lemma same_zones_is_Some m m' a : same_zones m m' -> is_Some (m' !! a) <-> is_Some (m !! a).
Proof. intros H. specialize (H a). destruct (m !! a), (m' !! a); try done; split; eauto. Qed.

Lemma block_ok_same z z' p o : same_rest z z' -> same_zones (z_mem_map z) (z_mem_map z') ->
  block_ok z p o -> block_ok z' p o.
Proof.
  intros (E & _) Hz [Hd H]. split; [done|]. intros a Ha. destruct (H a Ha) as (pg & Hpg & Hid).
  destruct (same_zones_some _ _ _ _ Hz Hpg) as (pg' & ? & E'). exists pg'. split; [done|]. congruence.
Qed.

(** The parts of the invariant that only look at the page map and the zone. *)
Lemma spans_same z z' p : same_rest z z' -> zone_spans_pfn z' p = zone_spans_pfn z p.
Proof. intros (_ & E1 & E2 & _). unfold zone_spans_pfn. by rewrite E1, E2. Qed.

Lemma bitidx_same z z' p : same_rest z z' -> pfn_to_bitidx z' p = pfn_to_bitidx z p.
Proof. intros (_ & E1 & _). unfold pfn_to_bitidx. by rewrite E1. Qed.

Definition map_inv (z : zone) : Prop :=
  (forall p, is_Some (z_mem_map z !! p) ->
    0 <= p < MAX_PFN /\ forall q, q / pageblock_nr_pages = p / pageblock_nr_pages -> is_Some (z_mem_map z !! q))
  /\ (forall p pg, z_mem_map z !! p = Some pg -> (pg_zone_id pg = z_id z <-> zone_spans_pfn z p = true))
  /\ (forall p, is_Some (z_mem_map z !! p) -> zone_spans_pfn z p = true ->
    (Z.to_nat (pfn_to_bitidx z p / BITS_PER_LONG) < length (z_pageblock_flags z))%nat).

Lemma inv_map_inv z : buddy_inv z -> map_inv z.
Proof. intros I. split_and!; [apply (bi_map _ I)|apply (bi_span _ I)|apply (bi_flags _ I)]. Qed.

Lemma map_inv_same z z' : same_rest z z' -> same_zones (z_mem_map z) (z_mem_map z') ->
  map_inv z -> map_inv z'.
Proof.
  intros R Hz (M1 & M2 & M3). split_and!.
  - intros p Hp. rewrite same_zones_is_Some in Hp by done. destruct (M1 p Hp) as [? H]. split; [done|].
    intros q Hq. rewrite same_zones_is_Some by done. by apply H.
  - intros p pg' Hp. destruct (same_zones_some _ _ _ _ (same_zones_sym _ _ Hz) Hp) as (pg & Hpg & E).
    rewrite (spans_same _ _ _ R), <- (M2 _ _ Hpg), <- E. destruct R as (-> & _). done.
  - intros p Hp. rewrite same_zones_is_Some in Hp by done.
    rewrite (spans_same _ _ _ R), (bitidx_same _ _ _ R). destruct R as (_ & _ & _ & _ & _ & ->). by apply M3.
Qed.

Lemma adds_zones z z' o m p : adds z z' o m p -> same_zones (z_mem_map z) (z_mem_map z').
Proof. intros A. destruct (ad_mem _ _ _ _ _ A) as (pg & Hp & ->). by apply same_zones_insert. Qed.

Lemma dels_zones z z' o p : dels z z' o p -> same_zones (z_mem_map z) (z_mem_map z').
Proof. intros D. destruct (de_mem _ _ _ _ D) as (pg & Hp & ->). by apply same_zones_insert. Qed.

Lemma adds_elem z z' o m p o' m' q : adds z z' o m p ->
  q ∈ fl z' o' m' <-> q ∈ fl z o' m' \/ (o' = o /\ m' = m /\ q = p).
Proof.
  intros A. destruct (decide ((o', m') = (o, m))) as [E|Hne].
  - injection E as -> ->. rewrite (ad_fl _ _ _ _ _ A), elem_of_cons. intuition congruence.
  - rewrite (ad_other _ _ _ _ _ A _ _ Hne). intuition congruence.
Qed.

Lemma without_elem p q l : q ∈ without p l <-> q ∈ l /\ q <> p.
Proof. unfold without. rewrite list_elem_of_filter. tauto. Qed.

Lemma dels_elem z z' o p o' m' q : dels z z' o p ->
  q ∈ fl z' o' m' <-> q ∈ fl z o' m' /\ q <> p.
Proof. intros D. by rewrite (de_fl _ _ _ _ D), without_elem. Qed.

Lemma without_absent p l : p ∉ l -> without p l = l.
Proof.
  intros H. induction l as [|x l IH]; [done|]. apply not_elem_of_cons in H as [H1 H2].
  unfold without in *. rewrite filter_cons_True by done. by rewrite IH.
Qed.

Lemma without_length p l : NoDup l -> p ∈ l -> S (length (without p l)) = length l.
Proof.
  induction l as [|x l IH]; intros Hn Hp; [by apply elem_of_nil in Hp|].
  apply NoDup_cons in Hn as [Hx Hn]. unfold without in *. destruct (decide (x = p)) as [->|Hne].
  - rewrite filter_cons_False by auto. simpl. f_equal. f_equal. by apply without_absent.
  - rewrite filter_cons_True by done. simpl. f_equal. apply IH; [done|].
    by apply elem_of_cons in Hp as [->|].
Qed.

(** Exactly one of the six lists of an order changes its length. *)
Lemma list_total_change z z' o m d : (m < MIGRATE_TYPES)%nat ->
  Z.of_nat (length (fl z' o m)) = Z.of_nat (length (fl z o m)) + d ->
  (forall m', m' <> m -> length (fl z' o m') = length (fl z o m')) ->
  list_total z' o = list_total z o + d.
Proof.
  intros Hm Hl Ho. unfold list_total, MIGRATE_TYPES in *.
  do 6 (destruct m as [|m]; [rewrite ?(Ho 0%nat), ?(Ho 1%nat), ?(Ho 2%nat), ?(Ho 3%nat), ?(Ho 4%nat), ?(Ho 5%nat) by done; lia|]).
  lia.
Qed.

Lemma list_total_same z z' o : (forall m', length (fl z' o m') = length (fl z o m')) ->
  list_total z' o = list_total z o.
Proof. intros H. unfold list_total. by rewrite !H. Qed.

(** A block that meets no free block may enter. *)
Lemma inv_add z z' o m p :
  buddy_inv z -> adds z z' o m p -> (o < MAX_ORDER)%nat -> (m < MIGRATE_TYPES)%nat ->
  block_ok z p o -> (forall a, p <= a < p + blk o -> ~ free_at z a) -> buddy_inv z'.
Proof.
  intros I A Ho Hm Hb Hfree.
  assert (forall o' m' q, q ∈ fl z o' m' -> p + blk o <= q \/ q + blk o' <= p) as Hd.
  { intros o' m' q Hq. destruct (Z_le_gt_dec (p + blk o) q); [by left|].
    destruct (Z_le_gt_dec (q + blk o') p); [by right|]. exfalso.
    pose proof (blk_pos o). pose proof (blk_pos o').
    apply (Hfree (Z.max p q)); [lia|]. exists o', m', q. split; [done|lia]. }
  assert (forall o' m', p ∉ fl z o' m') as Hp.
  { intros o' m' Hq. pose proof (Hd _ _ _ Hq). pose proof (blk_pos o). pose proof (blk_pos o'). lia. }
  pose proof (adds_zones _ _ _ _ _ A) as Hz. pose proof (ad_rest _ _ _ _ _ A) as HR.
  destruct (map_inv_same _ _ HR Hz (inv_map_inv _ I)) as (M1 & M2 & M3).
  destruct (ad_mem _ _ _ _ _ A) as (pg & Hpg & Emem).
  split; try done.
  - apply (ad_shape _ _ _ _ _ A).
  - intros o' m' q Hq. rewrite Emem. apply (adds_elem _ _ _ _ _ _ _ _ A) in Hq as [Hq|(-> & -> & ->)].
    + rewrite lookup_insert_ne by (intros ->; by eapply Hp). by eapply (bi_head _ I).
    + rewrite lookup_insert_eq. by eexists.
  - intros o' m' q Hq. apply (block_ok_same z); try done.
    apply (adds_elem _ _ _ _ _ _ _ _ A) in Hq as [Hq|(-> & -> & ->)]; [|done]. by eapply (bi_block _ I).
  - intros q pg' Hq Hmc Hid. destruct (decide (q = p)) as [->|Hne].
    + exists o, m. apply (adds_elem _ _ _ _ _ _ _ _ A). auto.
    + rewrite Emem, lookup_insert_ne in Hq by done. destruct HR as (Eid & _). rewrite Eid in Hid.
      destruct (bi_listed _ I _ _ Hq Hmc Hid) as (o' & m' & ?). exists o', m'.
      apply (adds_elem _ _ _ _ _ _ _ _ A). auto.
  - intros o' m'. destruct (decide ((o', m') = (o, m))) as [E|Hne].
    + injection E as -> ->. rewrite (ad_fl _ _ _ _ _ A). apply NoDup_cons. split; [done|]. apply (bi_nodup _ I).
    + rewrite (ad_other _ _ _ _ _ A _ _ Hne). apply (bi_nodup _ I).
  - intros o' m1 m2 q H1 H2. apply (adds_elem _ _ _ _ _ _ _ _ A) in H1, H2.
    destruct H1 as [H1|(-> & -> & ->)], H2 as [H2|(? & -> & ?)]; subst; try done;
      [by eapply (bi_once _ I)|by destruct (Hp o m1)|by destruct (Hp o m2)].
  - intros o1 m1 q1 o2 m2 q2 H1 H2 Hne. apply (adds_elem _ _ _ _ _ _ _ _ A) in H1, H2.
    destruct H1 as [H1|(-> & -> & ->)], H2 as [H2|(-> & -> & ->)]; try done.
    + by eapply (bi_disj _ I).
    + apply Hd in H1. lia.
    + by apply Hd in H2.
  - intros o' Ho'. destruct (decide (o' = o)) as [->|Hne].
    + rewrite (ad_nr _ _ _ _ _ A), (bi_nr _ I) by done. rewrite u32_add_l. f_equal. symmetry.
      apply (list_total_change z z' o m 1); [done| |].
      * rewrite (ad_fl _ _ _ _ _ A). simpl. lia.
      * intros m' Hm'. rewrite (ad_other _ _ _ _ _ A); [done|congruence].
    + rewrite (ad_nr_other _ _ _ _ _ A _ Hne), (bi_nr _ I) by done. f_equal. symmetry.
      apply list_total_same. intros m'. rewrite (ad_other _ _ _ _ _ A); [done|congruence].
Qed.

Lemma head_order z o m o' m' p : buddy_inv z -> p ∈ fl z o m -> p ∈ fl z o' m' -> o = o' /\ m = m'.
Proof.
  intros I H1 H2. destruct (bi_head _ I _ _ _ H1) as (pg & E1 & _ & P1).
  destruct (bi_head _ I _ _ _ H2) as (pg' & E2 & _ & P2).
  assert (o = o') as -> by (rewrite E1 in E2; injection E2 as <-; lia).
  split; [done|]. by eapply (bi_once _ I).
Qed.

(** A free block may leave. *)
Lemma inv_del z z' o m p :
  buddy_inv z -> p ∈ fl z o m -> dels z z' o p -> buddy_inv z'.
Proof.
  intros I Hp D. destruct (fl_bounds _ _ _ _ (bi_shape _ I) Hp) as [Ho Hm].
  pose proof (dels_zones _ _ _ _ D) as Hz. pose proof (de_rest _ _ _ _ D) as HR.
  destruct (map_inv_same _ _ HR Hz (inv_map_inv _ I)) as (M1 & M2 & M3).
  destruct (de_mem _ _ _ _ D) as (pg & Hpg & Emem).
  split; try done.
  - apply (de_shape _ _ _ _ D).
  - intros o' m' q Hq. apply (dels_elem _ _ _ _ _ _ _ D) in Hq as [Hq Hne].
    rewrite Emem, lookup_insert_ne by done. by eapply (bi_head _ I).
  - intros o' m' q Hq. apply (dels_elem _ _ _ _ _ _ _ D) in Hq as [Hq Hne].
    apply (block_ok_same z); try done. by eapply (bi_block _ I).
  - intros q pg' Hq Hmc Hid. destruct (decide (q = p)) as [->|Hne].
    + rewrite Emem, lookup_insert_eq in Hq. injection Hq as <-. done.
    + rewrite Emem, lookup_insert_ne in Hq by done. destruct HR as (Eid & _). rewrite Eid in Hid.
      destruct (bi_listed _ I _ _ Hq Hmc Hid) as (o' & m' & ?). exists o', m'.
      by apply (dels_elem _ _ _ _ _ _ _ D).
  - intros o' m'. rewrite (de_fl _ _ _ _ D). apply NoDup_filter, (bi_nodup _ I).
  - intros o' m1 m2 q H1 H2. apply (dels_elem _ _ _ _ _ _ _ D) in H1 as [H1 _], H2 as [H2 _].
    by eapply (bi_once _ I).
  - intros o1 m1 q1 o2 m2 q2 H1 H2 Hne. apply (dels_elem _ _ _ _ _ _ _ D) in H1 as [H1 _], H2 as [H2 _].
    by eapply (bi_disj _ I).
  - assert (forall o' m', (o', m') <> (o, m) -> length (fl z' o' m') = length (fl z o' m')) as Hsame.
    { intros o' m' Hne. rewrite (de_fl _ _ _ _ D), without_absent; [done|]. intros Hp'.
      destruct (head_order _ _ _ _ _ _ I Hp Hp') as [-> ->]. done. }
    intros o' Ho'. destruct (decide (o' = o)) as [->|Hne].
    + rewrite (de_nr _ _ _ _ D), (bi_nr _ I) by done. change (nr z o - 1) with (nr z o + -1).
      rewrite <- Z.add_opp_r, u32_add_l. f_equal. symmetry.
      apply (list_total_change z z' o m (-1)); [done| |].
      * rewrite (de_fl _ _ _ _ D). pose proof (without_length p _ (bi_nodup _ I o m) Hp). lia.
      * intros m' Hm'. apply Hsame. congruence.
    + rewrite (de_nr_other _ _ _ _ D _ Hne), (bi_nr _ I) by done. f_equal. symmetry.
      apply list_total_same. intros m'. apply Hsame. congruence.
Qed.

(** What is free before and after. *)
Lemma adds_free_at z z' o m p a : adds z z' o m p ->
  free_at z' a <-> free_at z a \/ p <= a < p + blk o.
Proof.
  intros A. split.
  - intros (o' & m' & q & Hq & Ha). apply (adds_elem _ _ _ _ _ _ _ _ A) in Hq as [Hq|(-> & -> & ->)].
    + left. by exists o', m', q.
    + by right.
  - intros [(o' & m' & q & Hq & Ha)|Ha].
    + exists o', m', q. split; [|done]. apply (adds_elem _ _ _ _ _ _ _ _ A). auto.
    + exists o, m, p. split; [|done]. apply (adds_elem _ _ _ _ _ _ _ _ A). auto.
Qed.

Lemma dels_free_at z z' o m p a : buddy_inv z -> p ∈ fl z o m -> dels z z' o p ->
  free_at z' a <-> free_at z a /\ ~ p <= a < p + blk o.
Proof.
  intros I Hp D. split.
  - intros (o' & m' & q & Hq & Ha). apply (dels_elem _ _ _ _ _ _ _ D) in Hq as [Hq Hne]. split.
    + by exists o', m', q.
    + pose proof (bi_disj _ I _ _ _ _ _ _ Hp Hq ltac:(congruence)). lia.
  - intros [(o' & m' & q & Hq & Ha) Hn]. exists o', m', q. split; [|done].
    apply (dels_elem _ _ _ _ _ _ _ D). split; [done|]. intros ->.
    destruct (head_order _ _ _ _ _ _ I Hp Hq) as [-> ->]. lia.
Qed.
