(* ===== verification/BuddyFree.v ===== *)
(** * Freeing a block

    [__free_one_page] keeps the zone consistent, makes exactly the freed block
    free in addition, and merges buddies as far as they go. *)
From Stdlib Require Import ZArith Lia Bool.
From stdpp Require Import base numbers list gmap.
From S2P Require Import Prelude Buddy BuddyInv.

(** ** Sequences of primitives *)

Lemma same_rest_trans z1 z2 z3 : same_rest z1 z2 -> same_rest z2 z3 -> same_rest z1 z3.
Proof. unfold same_rest. intuition congruence. Qed.
Lemma same_vmstat_trans z1 z2 z3 : same_vmstat z1 z2 -> same_vmstat z2 z3 -> same_vmstat z1 z3.
Proof. unfold same_vmstat. intuition congruence. Qed.
Lemma same_rest_refl z : same_rest z z.
Proof. by unfold same_rest. Qed.
Lemma same_vmstat_refl z : same_vmstat z z.
Proof. by unfold same_vmstat. Qed.
#[export] Hint Resolve same_rest_trans same_vmstat_trans same_rest_refl same_vmstat_refl : buddy.

(** A change of the page map only. *)
Definition only_mem (z z' : zone) : Prop :=
  z_free_area z' = z_free_area z /\ same_rest z z' /\ same_vmstat z z'.

Lemma only_mem_put p pg z : only_mem z (put_page p pg z).
Proof. done. Qed.

Lemma only_mem_fl z z' o m : only_mem z z' -> fl z' o m = fl z o m.
Proof. intros (E & _). unfold fl. by rewrite E. Qed.
Lemma only_mem_nr z z' o : only_mem z z' -> nr z' o = nr z o.
Proof. intros (E & _). unfold nr. by rewrite E. Qed.
Lemma only_mem_shape z z' : only_mem z z' -> shape z -> shape z'.
Proof. intros (E & _). unfold shape. by rewrite E. Qed.

Lemma rmv_page_order_spec p pg z : z_mem_map z !! p = Some pg ->
  exists z', rmv_page_order p z = Ret z' /\ only_mem z z'
    /\ z_mem_map z' = <[p := mk_page (-1) 0 (pg_zone_id pg) (pg_index pg)]> (z_mem_map z).
Proof. intros H. unfold rmv_page_order, get_page. rewrite H. cbn [obind]. by eexists. Qed.

Lemma set_page_order_spec p o pg z : z_mem_map z !! p = Some pg ->
  exists z', set_page_order p o z = Ret z' /\ only_mem z z'
    /\ z_mem_map z' = <[p := mk_page PAGE_BUDDY_MAPCOUNT_VALUE (Z.of_nat o) (pg_zone_id pg) (pg_index pg)]>
                        (z_mem_map z).
Proof. intros H. unfold set_page_order, get_page. rewrite H. cbn [obind]. by eexists. Qed.

(** The three steps that take a block off its list, in the order
    [__free_one_page] has them. *)
Lemma take_block o m p z : buddy_inv z -> p ∈ fl z o m ->
  exists z1 z2 z3, list_del p z = Ret z1 /\ nr_free_add o (-1) z1 = Ret z2
    /\ rmv_page_order p z2 = Ret z3 /\ dels z z3 o p.
Proof.
  intros I Hp. destruct (fl_bounds _ _ _ _ (bi_shape _ I) Hp) as [Ho Hm].
  destruct (bi_head _ I _ _ _ Hp) as (pg & Hpg & _).
  destruct (list_del_spec p o m z (bi_shape _ I) Hp) as (z1 & E1 & S1 & R1 & V1 & M1 & N1 & F1).
  destruct (nr_free_add_spec o (-1) z1 S1 Ho) as (z2 & E2 & S2 & R2 & V2 & M2 & N2 & N2' & F2).
  destruct (rmv_page_order_spec p pg z2) as (z3 & E3 & O3 & M3); [congruence|].
  exists z1, z2, z3. split_and!; try done. pose proof O3 as (_ & R3 & V3).
  split; eauto using only_mem_shape with buddy.
  - intros o' m'. by rewrite (only_mem_fl _ _ _ _ O3), F2, F1.
  - by rewrite (only_mem_nr _ _ _ O3), N2, N1.
  - intros o' Hne. by rewrite (only_mem_nr _ _ _ O3), N2', N1.
  - exists pg. split; [done|]. congruence.
Qed.

(** ** Buddies *)

Definition bud (p : Z) (o : nat) : Z := Z.lxor p (blk o).
Definition par (p : Z) (o : nat) : Z := if Z.testbit p (Z.of_nat o) then p - blk o else p.
Definition idx (p : Z) : Z := p mod 2048.

Lemma testbit_ge x n : 0 <= n -> 0 <= x -> Z.testbit x n = true -> 2 ^ n <= x.
Proof.
  intros Hn Hx Ht. destruct (Z.lt_ge_cases x (2 ^ n)) as [Hlt|]; [|done].
  rewrite <- (Z.mod_small x (2 ^ n)), Z.mod_pow2_bits_high in Ht by lia. done.
Qed.

Lemma bud_cases p o : bud p o = if Z.testbit p (Z.of_nat o) then p - blk o else p + blk o.
Proof. apply lxor_pow2. lia. Qed.

Lemma idx_testbit p o : (o < MAX_ORDER)%nat -> Z.testbit (idx p) (Z.of_nat o) = Z.testbit p (Z.of_nat o).
Proof. intros H. unfold idx, MAX_ORDER in *. change 2048 with (2 ^ 11). apply Z.mod_pow2_bits_low. lia. Qed.

Lemma bud_idx p o : (o < MAX_ORDER)%nat -> __find_buddy_index (idx p) o - idx p = bud p o - p.
Proof.
  intros H. unfold __find_buddy_index. rewrite bud_cases, lxor_pow2, idx_testbit by lia.
  fold (blk o). destruct (Z.testbit p _); lia.
Qed.

Lemma par_idx p o : (o < MAX_ORDER)%nat ->
  Z.land (__find_buddy_index (idx p) o) (idx p) = idx (par p o)
  /\ idx (par p o) - idx p = par p o - p.
Proof.
  intros H. unfold __find_buddy_index. rewrite land_lxor_pow2, idx_testbit by lia. unfold par. fold (blk o).
  destruct (Z.testbit p (Z.of_nat o)) eqn:E; [|lia].
  assert (blk o <= idx p) as Hge.
  { apply testbit_ge; [lia|apply Z.mod_pos_bound; lia|by rewrite idx_testbit]. }
  assert (idx (p - blk o) = idx p - blk o) as ->; [|lia].
  pose proof (blk_pos o). unfold idx in *. symmetry. apply (Z.mod_unique _ _ (p / 2048)).
  - pose proof (Z.mod_pos_bound p 2048 ltac:(lia)). lia.
  - pose proof (Z.div_mod p 2048 ltac:(lia)). lia.
Qed.

Lemma par_aligned p o : (blk o | p) -> (blk (S o) | par p o)
  /\ (par p o = p /\ bud p o = p + blk o \/ par p o = bud p o /\ p = bud p o + blk o).
Proof.
  intros [k ->]. unfold par. rewrite bud_cases. rewrite blk_S. unfold blk. rewrite testbit_mul_pow2 by lia.
  destruct (Z.odd k) eqn:E.
  - apply Z.odd_spec in E as [j ->]. split; [exists j; lia|right; lia].
  - rewrite <- Z.negb_even in E. apply negb_false_iff, Z.even_spec in E as [j ->].
    split; [exists j; lia|left; lia].
Qed.

Lemma bud_aligned p o : (blk o | p) -> (blk o | bud p o).
Proof.
  intros H. rewrite bud_cases. destruct (Z.testbit _ _).
  - apply Z.divide_sub_r; [done|apply Z.divide_refl].
  - apply Z.divide_add_r; [done|apply Z.divide_refl].
Qed.

Lemma bud_bud p o : bud (bud p o) o = p.
Proof. unfold bud. by rewrite Z.lxor_assoc, Z.lxor_nilpotent, Z.lxor_0_r. Qed.

(** Buddies below MAX_ORDER - 1 share their pageblock. *)
Lemma same_pageblock p q o : (o <= pageblock_order)%nat -> (blk o | p) ->
  p <= q < p + blk o -> q / pageblock_nr_pages = p / pageblock_nr_pages.
Proof.
  intros Ho [k ->] Hq.
  destruct (blk_divide _ _ Ho) as [c Hc]. change (blk pageblock_order) with pageblock_nr_pages in Hc.
  pose proof (blk_pos o). assert (0 < c) by (unfold pageblock_nr_pages, pageblock_order in Hc; nia).
  rewrite Hc, (Z.mul_comm c), <- !Z.div_div by lia. f_equal.
  rewrite Z.div_mul by lia. symmetry. apply (Z.div_unique q (blk o) k (q - k * blk o)); lia.
Qed.

Lemma bud_in_map z p o : map_inv z -> (o < MAX_ORDER - 1)%nat -> (blk o | p) ->
  is_Some (z_mem_map z !! p) -> is_Some (z_mem_map z !! bud p o) /\ 0 <= bud p o < MAX_PFN.
Proof.
  intros (M1 & _) Ho Hd Hp. destruct (par_aligned p o Hd) as [Hpar Hc].
  assert (bud p o / pageblock_nr_pages = p / pageblock_nr_pages) as E.
  { unfold MAX_ORDER in Ho. pose proof (blk_pos o). pose proof (blk_S o).
    assert (S o <= pageblock_order)%nat by (unfold pageblock_order, MAX_ORDER; lia).
    rewrite (same_pageblock (par p o) (bud p o) (S o)), (same_pageblock (par p o) p (S o)); try done; lia. }
  destruct (M1 p Hp) as [_ Hq]. pose proof (Hq _ E) as Hb. split; [done|]. by apply M1.
Qed.

Lemma page_add_eq p d q : p + d = q -> 0 <= q < MAX_PFN -> page_add p d = q.
Proof.
  intros <- H. unfold page_add. unfold wrap at 1. unfold wrap. rewrite Zplus_mod_idemp_r.
  apply Z.mod_small. unfold MAX_PFN in H. lia.
Qed.

Lemma page_is_buddy_spec z p q o pg :
  buddy_inv z -> z_mem_map z !! p = Some pg -> pg_zone_id pg = z_id z -> is_Some (z_mem_map z !! q) ->
  exists b, page_is_buddy z p q o = Ret b /\ (b = true <-> exists m, q ∈ fl z o m).
Proof.
  intros I Hp Hid [qg Hq]. unfold page_is_buddy, get_page. rewrite Hq. cbn [obind].
  assert (forall m, q ∈ fl z o m -> PageBuddy qg && (page_order qg =? Z.of_nat o) = true /\ pg_zone_id qg = z_id z) as Hin.
  { intros m Hm. destruct (bi_head _ I _ _ _ Hm) as (qg' & E & Hmc & Hpr).
    destruct (bi_block _ I _ _ _ Hm) as [_ Hb]. destruct (Hb q) as (qg2 & E2 & Hz); [pose proof (blk_pos o); lia|].
    rewrite Hq in E, E2. injection E as <-. injection E2 as <-.
    split; [|done]. unfold PageBuddy, page_order. rewrite Hmc, Hpr, !Z.eqb_refl. done. }
  destruct (PageBuddy qg && (page_order qg =? Z.of_nat o)) eqn:E.
  - rewrite Hp. cbn [obind]. eexists. split; [done|]. rewrite Z.eqb_eq. split.
    + intros Ez. apply andb_true_iff in E as [E1 E2]. unfold PageBuddy, page_order in *.
      destruct (bi_listed _ I q qg Hq) as (o' & m & Hm); [lia|congruence|]. exists m.
      destruct (bi_head _ I _ _ _ Hm) as (qg' & Eq & _ & Hpr). rewrite Hq in Eq. injection Eq as <-.
      assert (o' = o) as -> by lia. done.
    + intros [m Hm]. destruct (Hin m Hm). congruence.
  - eexists. split; [done|]. split; [done|]. intros [m Hm]. by destruct (Hin m Hm).
Qed.

(** ** The merging loop *)

(** A block that is not free and could be. *)
Definition outside (z : zone) (p : Z) (o : nat) : Prop :=
  block_ok z p o /\ forall a, p <= a < p + blk o -> ~ free_at z a.

Lemma outside_head z p o : outside z p o ->
  exists pg, z_mem_map z !! p = Some pg /\ pg_zone_id pg = z_id z.
Proof. intros [[_ H] _]. apply H. pose proof (blk_pos o). lia. Qed.

(** Joining a block with its buddy that just left its list. *)
Lemma join_outside z z' p o m : buddy_inv z -> outside z p o -> bud p o ∈ fl z o m ->
  dels z z' o (bud p o) ->
  outside z' (par p o) (S o) /\
  (forall a, free_at z' a \/ par p o <= a < par p o + blk (S o)
             <-> free_at z a \/ p <= a < p + blk o).
Proof.
  intros I [Hb Hf] Hin D. pose proof (blk_S o) as ES. pose proof (blk_pos o).
  destruct (par_aligned p o (proj1 Hb)) as [Hpar Hc].
  assert (forall a, par p o <= a < par p o + blk (S o) <->
            p <= a < p + blk o \/ bud p o <= a < bud p o + blk o) as Hun by (intros a; lia).
  pose proof (fun a => dels_free_at z z' o m (bud p o) a I Hin D) as Hfr.
  assert (forall a, bud p o <= a < bud p o + blk o -> free_at z a) as Hbf.
  { intros a Ha. by exists o, m, (bud p o). }
  split; [split|].
  - apply (block_ok_same z); [apply (de_rest _ _ _ _ D)|by eapply dels_zones|]. split; [done|].
    intros a Ha. apply Hun in Ha as [Ha|Ha]; [by apply Hb|]. by apply (bi_block _ I _ _ _ Hin).
  - intros a Ha. rewrite Hfr. intros [H1 H2]. apply Hun in Ha as [Ha|Ha]; [by eapply Hf|done].
  - intros a. rewrite Hfr, Hun. split.
    + intros [[? _]|[?|?]]; auto.
    + intros [Ha|Ha]; [|auto]. destruct (decide (bud p o <= a < bud p o + blk o)); auto.
Qed.

(** What the loop leaves behind. *)
Record merge_post (z : zone) (p : Z) (o : nat) (g : merged) : Prop := {
  mp_inv : buddy_inv (mg_zone g);
  mp_out : outside (mg_zone g) (mg_page g) (mg_order g);
  mp_order : (o <= mg_order g <= MAX_ORDER - 1)%nat;
  mp_around : mg_page g <= p /\ p + blk o <= mg_page g + blk (mg_order g);
  mp_idx : mg_idx g = idx (mg_page g);
  mp_free : forall a, free_at (mg_zone g) a \/ mg_page g <= a < mg_page g + blk (mg_order g)
                      <-> free_at z a \/ p <= a < p + blk o;
  mp_rest : same_rest z (mg_zone g);
  mp_vm : same_vmstat z (mg_zone g);
  mp_sub : forall o' m q, q ∈ fl (mg_zone g) o' m -> q ∈ fl z o' m;
  mp_stop : (mg_order g < MAX_ORDER - 1)%nat ->
    mg_buddy_idx g = Some (__find_buddy_index (mg_idx g) (mg_order g))
    /\ forall m, bud (mg_page g) (mg_order g) ∉ fl (mg_zone g) (mg_order g) m
}.

Lemma merge_up_spec n p o b z :
  buddy_inv z -> outside z p o -> (o <= MAX_ORDER - 1)%nat -> n = (MAX_ORDER - 1 - o)%nat ->
  exists g, merge_up n p (idx p) o b z = Ret g /\ merge_post z p o g.
Proof.
  revert p o b z. induction n as [|n IH]; intros p o b z I Hout Ho Hn.
  - eexists. split; [done|]. split; cbn [mg_zone mg_page mg_idx mg_order mg_buddy_idx];
      eauto with buddy; try done; try lia; intros; lia.
  - cbn [merge_up]. pose proof (outside_head _ _ _ Hout) as (pg & Hpg & Hid).
    assert (o < MAX_ORDER - 1)%nat as Ho' by lia. assert (o < MAX_ORDER)%nat as Ho'' by lia.
    destruct (bud_in_map z p o (inv_map_inv _ I) Ho' (proj1 (proj1 Hout)) ltac:(eauto)) as [Hbm Hbr].
    rewrite (page_add_eq p (__find_buddy_index (idx p) o - idx p) (bud p o));
      [|rewrite bud_idx by done; lia|done].
    destruct (page_is_buddy_spec z p (bud p o) o pg I Hpg Hid Hbm) as (ok & -> & Hok). cbn [obind].
    destruct ok; simpl negb; cbv iota.
    + destruct (proj1 Hok eq_refl) as [m Hm].
      destruct (take_block o m (bud p o) z I Hm) as (z1 & z2 & z3 & -> & E2 & E3 & D). cbn [obind].
      rewrite E2. cbn [obind]. rewrite E3. cbn [obind].
      destruct (par_idx p o Ho'') as [-> Epar].
      destruct (join_outside z z3 p o m I Hout Hm D) as [Hout3 Hfree3].
      rewrite (page_add_eq p (idx (par p o) - idx p) (par p o)); [|lia|].
      2: { destruct (outside_head _ _ _ Hout3) as (pg3 & Hpg3 & _).
           eapply (bi_map z3); [|eauto]. by eapply inv_del. }
      replace (o + 1)%nat with (S o) by lia.
      destruct (IH (par p o) (S o) (Some (__find_buddy_index (idx p) o)) z3) as (g & Eg & Hg);
        [by eapply inv_del|done|lia|lia|].
      exists g. split; [done|]. destruct Hg. split; eauto using de_rest, de_vm with buddy; try lia.
      * destruct (par_aligned p o (proj1 (proj1 Hout))) as [_ Hc]. pose proof (blk_S o). pose proof (blk_pos o). lia.
      * intros a. by rewrite mp_free0.
      * intros o' m' q Hq. apply mp_sub0 in Hq. by apply (dels_elem _ _ _ _ _ _ _ D) in Hq as [? _].
    + eexists. split; [done|]. split; simpl; eauto with buddy; try lia; try done.
      intros _. split; [done|]. intros m Hm. by assert (false = true) by (apply Hok; eauto).
Qed.

(** ** Putting the merged block on its list *)

Lemma page_is_buddy_total z p q o : is_Some (z_mem_map z !! p) -> is_Some (z_mem_map z !! q) ->
  exists b, page_is_buddy z p q o = Ret b.
Proof.
  intros [pg Hp] [qg Hq]. unfold page_is_buddy, get_page. rewrite Hq. cbn [obind].
  destruct (_ && _); [rewrite Hp; cbn [obind]|]; eauto.
Qed.

Lemma tail_hint_total z p o b :
  map_inv z -> (blk o | p) -> is_Some (z_mem_map z !! p) -> (o <= MAX_ORDER - 1)%nat ->
  ((o < MAX_ORDER - 1)%nat -> b = Some (__find_buddy_index (idx p) o)) ->
  exists t, tail_hint (mk_merged z p (idx p) o b) = Ret t.
Proof.
  intros M Hd Hp Ho Hb. unfold tail_hint. cbn [mg_order mg_buddy_idx mg_idx mg_page mg_zone].
  destruct (Nat.ltb_spec o (MAX_ORDER - 2)) as [Hlt|]; [|eauto].
  rewrite Hb by lia. assert (o < MAX_ORDER)%nat as Ho' by lia.
  destruct (par_idx p o Ho') as [-> Epar]. destruct (par_aligned p o Hd) as [Hpar Hc].
  assert (is_Some (z_mem_map z !! par p o) /\ 0 <= par p o < MAX_PFN) as [Hpm Hpr].
  { destruct (bud_in_map z p o M ltac:(lia) Hd Hp). pose proof (proj1 M p Hp).
    destruct Hc as [[-> _]|[-> _]]; [split; [done|lia]|done]. }
  rewrite (page_add_eq p (idx (par p o) - idx p) (par p o)) by lia.
  replace (o + 1)%nat with (S o) by lia.
  destruct (bud_in_map z (par p o) (S o) M ltac:(lia) Hpar Hpm) as [Hbm Hbr].
  rewrite (page_add_eq (par p o) (__find_buddy_index (idx (par p o)) (S o) - idx (par p o)) (bud (par p o) (S o)));
    [|rewrite bud_idx by lia; lia|done].
  by apply page_is_buddy_total.
Qed.

(** The two steps that put a marked block on its list. *)
Lemma put_block tail o m p z pg :
  shape z -> z_mem_map z !! p = Some pg -> (o < MAX_ORDER)%nat -> (m < MIGRATE_TYPES)%nat ->
  exists z1, set_page_order p o z = Ret z1 /\ only_mem z z1
    /\ same_zones (z_mem_map z) (z_mem_map z1)
    /\ exists z2 z3, free_list_add tail p o m z1 = Ret z2 /\ nr_free_add o 1 z2 = Ret z3 /\ adds z z3 o m p.
Proof.
  intros Sz Hpg Ho Hm. destruct (set_page_order_spec p o pg z Hpg) as (z1 & E1 & O1 & M1).
  destruct (free_list_add_spec tail p o m z1 (only_mem_shape _ _ O1 Sz) Ho Hm)
    as (z2 & E2 & S2 & R2 & V2 & M2 & N2 & F2 & F2').
  destruct (nr_free_add_spec o 1 z2 S2 Ho) as (z3 & E3 & S3 & R3 & V3 & M3 & N3 & N3' & F3).
  exists z1. split_and!; try done; [rewrite M1; by apply same_zones_insert|].
  exists z2, z3. split_and!; try done. pose proof O1 as (_ & R1 & V1). split; eauto with buddy.
  - rewrite F3, F2, (only_mem_fl _ _ _ _ O1). destruct tail; [|done]. by rewrite Permutation_app_comm.
  - intros o' m' Hne. by rewrite F3, F2', (only_mem_fl _ _ _ _ O1).
  - by rewrite N3, N2, (only_mem_nr _ _ _ O1).
  - intros o' Hne. by rewrite N3', N2, (only_mem_nr _ _ _ O1).
  - exists pg. split; [done|]. congruence.
Qed.

(** Statistics only. *)
Lemma inv_vmstat z f c : buddy_inv z -> buddy_inv (set_vmstat f c z).
Proof. intros []. by split. Qed.

Definition freed_vmstat (o mt : nat) (z z' : zone) : Prop :=
  z_nr_free_pages z' = (if is_migrate_isolate mt then z_nr_free_pages z else s32 (z_nr_free_pages z + blk o))
  /\ z_nr_free_cma z' = (if is_migrate_cma mt then s32 (z_nr_free_cma z + blk o) else z_nr_free_cma z).

Lemma bud_ne p o : bud p o <> p.
Proof. rewrite bud_cases. pose proof (blk_pos o). destruct (Z.testbit _ _); lia. Qed.

Lemma coalesced_adds z z' o m p : coalesced z -> adds z z' o m p ->
  ((o < MAX_ORDER - 1)%nat -> forall m', bud p o ∉ fl z o m') -> coalesced z'.
Proof.
  intros Hc A Hb o' m1 m2 q Ho' H1 H2. fold (bud q o') in H2.
  apply (adds_elem _ _ _ _ _ _ _ _ A) in H1, H2.
  destruct H1 as [H1|(-> & -> & ->)], H2 as [H2|(E1 & E3 & E2)].
  - by eapply (Hc o' m1 m2 q).
  - subst o'. apply (Hb Ho' m1). rewrite <- E2, bud_bud. done.
  - by eapply Hb.
  - by eapply bud_ne.
Qed.

(** ** Properties *)

Lemma free_block_spec p o mt z :
  buddy_inv z -> outside z p o -> (o < MAX_ORDER)%nat -> (mt < MIGRATE_TYPES)%nat ->
  exists z', __free_one_page p p o mt z = Ret z' /\ buddy_inv z'
    /\ (forall a, free_at z' a <-> free_at z a \/ p <= a < p + blk o)
    /\ (exists q o', q ∈ fl z' o' mt /\ (o <= o')%nat /\ q <= p /\ p + blk o <= q + blk o')
    /\ (coalesced z -> coalesced z') /\ same_rest z z' /\ freed_vmstat o mt z z'.
Proof.
  intros I Hout Ho Hmt. unfold __free_one_page.
  set (z0 := if negb (is_migrate_isolate mt) then _ else z).
  assert (buddy_inv z0 /\ same_rest z z0 /\ z_free_area z0 = z_free_area z /\ z_mem_map z0 = z_mem_map z
          /\ freed_vmstat o mt z z0) as (I0 & R0 & F0 & M0 & V0).
  { unfold z0, freed_vmstat, __mod_zone_freepage_state.
    destruct (is_migrate_isolate mt) eqn:E; simpl; split_and!; try done; [|by apply inv_vmstat].
    unfold is_migrate_isolate, is_migrate_cma in *. apply Nat.eqb_eq in E as ->. done. }
  clearbody z0.
  assert (forall a, free_at z0 a <-> free_at z a) as Hfa.
  { intros a. unfold free_at, fl. by rewrite F0. }
  assert (outside z0 p o) as Hout0.
  { split; [|intros a Ha; rewrite Hfa; by apply Hout].
    apply (block_ok_same z); [done| |apply Hout]. intros a. by rewrite M0. }
  replace (Z.land p (2 ^ Z.of_nat MAX_ORDER - 1)) with (idx p) by (symmetry; apply (Z.land_ones p 11); lia).
  destruct (merge_up_spec (MAX_ORDER - 1 - o) p o None z0 I0 Hout0 ltac:(lia) eq_refl) as (g & -> & G).
  cbn [obind]. destruct (outside_head _ _ _ (mp_out _ _ _ _ G)) as (pg & Hpg & _).
  pose proof (mp_order _ _ _ _ G) as HoG. pose proof (mp_inv _ _ _ _ G) as IG.
  destruct (set_page_order_spec (mg_page g) (mg_order g) pg (mg_zone g) Hpg) as (z1 & E1 & O1 & M1).
  rewrite E1. cbn [obind]. rewrite (mp_idx _ _ _ _ G).
  assert (same_zones (z_mem_map (mg_zone g)) (z_mem_map z1)) as Hz1 by (rewrite M1; by apply same_zones_insert).
  destruct (tail_hint_total z1 (mg_page g) (mg_order g) (mg_buddy_idx g)) as [t ->].
  { apply (map_inv_same (mg_zone g)); [apply O1|done|by apply inv_map_inv]. }
  { apply (mp_out _ _ _ _ G). }
  { rewrite same_zones_is_Some by done. eauto. }
  { lia. }
  { intros Hlt. rewrite <- (mp_idx _ _ _ _ G). by apply (mp_stop _ _ _ _ G). }
  cbn [obind].
  destruct (put_block t (mg_order g) mt (mg_page g) (mg_zone g) pg (bi_shape _ IG) Hpg)
    as (z1' & E1' & _ & _ & z2 & z3 & E2 & E3 & A); [lia|done|].
  rewrite E1 in E1'. injection E1' as <-. rewrite E2. cbn [obind]. rewrite E3.
  exists z3. destruct (mp_out _ _ _ _ G) as [Hb Hnf]. split_and!; try done.
  - eapply inv_add; try done. lia.
  - intros a. rewrite (adds_free_at _ _ _ _ _ _ A), (mp_free _ _ _ _ G), Hfa. done.
  - exists (mg_page g), (mg_order g). split; [apply (adds_elem _ _ _ _ _ _ _ _ A); auto|].
    pose proof (mp_around _ _ _ _ G). lia.
  - intros Hc. eapply coalesced_adds; [|exact A|].
    + intros o' m m' q Ho' H1 H2. apply (mp_sub _ _ _ _ G) in H1, H2. unfold fl in H1, H2. rewrite F0 in H1, H2.
      by eapply (Hc o' m m' q).
    + apply (mp_stop _ _ _ _ G).
  - eapply same_rest_trans; [done|]. eapply same_rest_trans; [apply (mp_rest _ _ _ _ G)|apply (ad_rest _ _ _ _ _ A)].
  - pose proof (mp_vm _ _ _ _ G) as [Va Vb]. pose proof (ad_vm _ _ _ _ _ A) as [Vc Vd].
    destruct V0 as [V1 V2]. split; congruence.
Qed.

(** C17: __free_one_page on a consistent zone returns and leaves it consistent:
    blocks aligned, disjoint, listed once, nr_free right.  The set of free
    page frames grows by exactly the freed block, which is part of a block on
    the list of the migrate type; the counters grow by its size, and if no two buddies were both free before, none are after. *)
Theorem free_one_page_exact p o mt z :
  buddy_inv z -> outside z p o -> (o < MAX_ORDER)%nat -> (mt < MIGRATE_TYPES)%nat ->
  exists z', __free_one_page p p o mt z = Ret z' /\ buddy_inv z'
    /\ (forall a, free_at z' a <-> free_at z a \/ p <= a < p + blk o)
    /\ (exists q o', q ∈ fl z' o' mt /\ (o <= o')%nat /\ q <= p /\ p + blk o <= q + blk o')
    /\ (coalesced z -> coalesced z') /\ same_rest z z' /\ freed_vmstat o mt z z'.
Proof. apply free_block_spec. Qed.
