(* ===== verification/BuddyAlloc.v ===== *)
(** * Taking a block

    [__rmqueue_smallest] takes the first block of the smallest order that
    serves the request and splits it; [__rmqueue_fallback] takes the largest
    block of another migrate type, after moving the free pages of its
    pageblock; [__rmqueue] combines them. *)
From Stdlib Require Import ZArith Lia Bool.
From stdpp Require Import base numbers list gmap.
From S2P Require Import Prelude Buddy BuddyInv BuddyFree.

(** ** Splitting *)

(** The steps of [expand] that put one half on its list. *)
Lemma split_block o m p z pg :
  shape z -> z_mem_map z !! p = Some pg -> (o < MAX_ORDER)%nat -> (m < MIGRATE_TYPES)%nat ->
  exists z1 z2 z3, free_list_add false p o m z = Ret z1 /\ nr_free_add o 1 z1 = Ret z2
    /\ set_page_order p o z2 = Ret z3 /\ adds z z3 o m p.
Proof.
  intros Sz Hpg Ho Hm.
  destruct (free_list_add_spec false p o m z Sz Ho Hm) as (z1 & E1 & S1 & R1 & V1 & M1 & N1 & F1 & F1').
  destruct (nr_free_add_spec o 1 z1 S1 Ho) as (z2 & E2 & S2 & R2 & V2 & M2 & N2 & N2' & F2).
  destruct (set_page_order_spec p o pg z2) as (z3 & E3 & O3 & M3); [congruence|].
  exists z1, z2, z3. split_and!; try done. pose proof O3 as (_ & R3 & V3).
  split; eauto using only_mem_shape with buddy.
  - by rewrite (only_mem_fl _ _ _ _ O3), F2, F1.
  - intros o' m' Hne. by rewrite (only_mem_fl _ _ _ _ O3), F2, F1'.
  - by rewrite (only_mem_nr _ _ _ O3), N2, N1.
  - intros o' Hne. by rewrite (only_mem_nr _ _ _ O3), N2', N1.
  - exists pg. split; [done|]. congruence.
Qed.

Lemma outside_sub z p o q o' : outside z p o -> (blk o' | q) -> p <= q -> q + blk o' <= p + blk o ->
  outside z q o'.
Proof. intros [[_ Hb] Hf] Hd H1 H2. split; [split; [done|]|]; intros a Ha; [apply Hb|apply Hf]; lia. Qed.

Lemma outside_adds z z' p o q o' m : outside z p o -> adds z z' o' m q -> p + blk o <= q ->
  outside z' p o.
Proof.
  intros [Hb Hf] A Hq. split.
  - apply (block_ok_same z); [apply (ad_rest _ _ _ _ _ A)|by eapply adds_zones|done].
  - intros a Ha. rewrite (adds_free_at _ _ _ _ _ _ A). intros [H|H]; [by eapply Hf|lia].
Qed.

Lemma not_head z p o o' m : outside z p o -> p ∉ fl z o' m.
Proof.
  intros [_ Hf] Hin. pose proof (blk_pos o). pose proof (blk_pos o').
  apply (Hf p); [lia|]. exists o', m, p. split; [done|lia].
Qed.

Lemma expand_loop_spec n p high mt z :
  buddy_inv z -> outside z p high -> (n <= high < MAX_ORDER)%nat -> (mt < MIGRATE_TYPES)%nat ->
  exists z', expand_loop n p high (blk high) mt z = Ret z' /\ buddy_inv z' /\ outside z' p (high - n)
    /\ (forall a, free_at z' a <-> free_at z a \/ p + blk (high - n) <= a < p + blk high)
    /\ (coalesced z -> coalesced z') /\ same_rest z z' /\ same_vmstat z z'.
Proof.
  revert high z. induction n as [|n IH]; intros high z I Hout Hn Hm.
  - exists z. rewrite Nat.sub_0_r. split_and!; eauto with buddy. intros a. intuition lia.
  - cbn [expand_loop]. destruct high as [|h]; [lia|]. replace (S h - 1)%nat with h by lia.
    pose proof (blk_S h) as ES. pose proof (blk_pos h).
    replace (Z.shiftr (blk (S h)) 1) with (blk h).
    2: { rewrite ES, Z.shiftr_div_pow2 by lia. change (2 ^ 1) with 2. symmetry. rewrite Z.mul_comm. by apply Z.div_mul. }
    pose proof Hout as [[Hd Hb] Hf].
    assert ((blk h | p)) as Hdh by (eapply Z.divide_trans; [apply (blk_divide h (S h)); lia|done]).
    assert ((blk h | p + blk h)) as Hdh' by (apply Z.divide_add_r; [done|apply Z.divide_refl]).
    assert (outside z (p + blk h) h) as Hout' by (apply (outside_sub z p (S h)); [done|done|lia|lia]).
    destruct (outside_head _ _ _ Hout') as (pg & Hpg & _).
    rewrite (page_add_eq p (blk h) (p + blk h)); [|done|apply (bi_map _ I); eauto].
    destruct (split_block h mt (p + blk h) z pg (bi_shape _ I) Hpg ltac:(lia) Hm)
      as (z1 & z2 & z3 & -> & E2 & E3 & A). cbn [obind]. rewrite E2. cbn [obind]. rewrite E3. cbn [obind].
    assert (outside z p h) as Houtl by (apply (outside_sub z p (S h)); [done|done|lia|lia]).
    assert (outside z3 p h) as Hout3 by (eapply outside_adds; [exact Houtl|done|lia]).
    assert (bud (p + blk h) h = p) as Ebud.
    { assert (bud p h = p + blk h) as E; [|rewrite <- E; apply bud_bud]. rewrite bud_cases.
      destruct Hd as [k Hk]. rewrite ES in Hk. replace (k * (2 * blk h)) with ((2 * k) * blk h) in Hk by ring.
      assert (Z.testbit p (Z.of_nat h) = false) as ->; [|done].
      rewrite Hk. unfold blk. rewrite testbit_mul_pow2 by lia. by rewrite Z.odd_mul. }
    destruct (IH h z3) as (z' & E & I' & O' & F' & C' & R' & V'); [|done|lia|done|].
    { eapply inv_add; try done; [lia| |]; apply Hout'. }
    exists z'. replace (S h - S n)%nat with (h - n)%nat by lia.
    split_and!; try done; eauto using ad_rest, ad_vm with buddy.
    + intros a. rewrite F', (adds_free_at _ _ _ _ _ _ A).
      pose proof (blk_le (h - n) h ltac:(lia)). intuition lia.
    + intros Hc. apply C'. eapply coalesced_adds; [done|done|]. intros _ m'. rewrite Ebud. by eapply not_head.
Qed.

(** ** Pages on their way out *)

(** Only the migrate type of a page on its way to a per-CPU list changes. *)
Lemma set_pcppage_spec p mt z : buddy_inv z -> is_Some (z_mem_map z !! p) ->
  exists z', set_pcppage_migratetype p mt z = Ret z' /\ buddy_inv z' /\ only_mem z z'
    /\ same_zones (z_mem_map z) (z_mem_map z')
    /\ exists pg, z_mem_map z' !! p = Some pg /\ pg_index pg = mt.
Proof.
  intros I [pg Hp]. unfold set_pcppage_migratetype, get_page. rewrite Hp. cbn [obind].
  set (pg' := mk_page _ _ _ _).
  assert (only_mem z (put_page p pg' z)) as O by done.
  assert (same_zones (z_mem_map z) (z_mem_map (put_page p pg' z))) as Hz by by apply same_zones_insert.
  destruct (map_inv_same _ _ (proj1 (proj2 O)) Hz (inv_map_inv _ I)) as (M1 & M2 & M3).
  assert (forall q qg, z_mem_map (put_page p pg' z) !! q = Some qg -> exists qg0, z_mem_map z !! q = Some qg0
    /\ pg_mapcount qg = pg_mapcount qg0 /\ pg_private qg = pg_private qg0 /\ pg_zone_id qg = pg_zone_id qg0) as Hback.
  { intros q qg Hq. simpl in Hq. destruct (decide (q = p)) as [->|].
    - rewrite lookup_insert_eq in Hq. injection Hq as <-. by exists pg.
    - rewrite lookup_insert_ne in Hq by done. by exists qg. }
  exists (put_page p pg' z). split_and!; try done; [|exists pg'; split; [apply lookup_insert_eq|done]].
  split; try done; try apply I.
  - intros o m q Hq. destruct (bi_head _ I _ _ _ Hq) as (qg & E & H1 & H2).
    destruct (same_zones_some _ _ _ _ Hz E) as (qg' & E' & _). exists qg'. split; [done|].
    destruct (Hback _ _ E') as (qg0 & E0 & ? & ? & _). rewrite E in E0. injection E0 as <-. split; congruence.
  - intros o m q Hq. apply (block_ok_same z); try done. by eapply (bi_block _ I).
  - intros q qg Hq Hmc Hid. change (z_id (put_page p pg' z)) with (z_id z) in Hid.
    destruct (Hback _ _ Hq) as (qg0 & E0 & ? & _ & ?).
    eapply (bi_listed _ I); [done|congruence|congruence].
Qed.

(** A block of order [order] at [p] was free, is not any more, and nothing else
    changed hands. *)
Record taken (z z' : zone) (p : Z) (order mt : nat) : Prop := {
  tk_inv : buddy_inv z';
  tk_out : outside z' p order;
  tk_was : forall a, p <= a < p + blk order -> free_at z a;
  tk_free : forall a, free_at z' a <-> free_at z a /\ ~ p <= a < p + blk order;
  tk_coalesced : coalesced z -> coalesced z';
  tk_rest : same_rest z z';
  tk_vm : same_vmstat z z';
  tk_index : exists pg, z_mem_map z' !! p = Some pg /\ pg_index pg = mt
}.

Lemma coalesced_dels z z' o p : coalesced z -> dels z z' o p -> coalesced z'.
Proof.
  intros Hc D o' m m' q Ho H1 H2. apply (dels_elem _ _ _ _ _ _ _ D) in H1 as [H1 _], H2 as [H2 _].
  by eapply (Hc o' m m' q).
Qed.

(** Once the block is off its list, splitting it and marking the head finish
    the job. *)
Lemma finish_take z z3 p o m order mt :
  buddy_inv z -> p ∈ fl z o m -> dels z z3 o p -> (order <= o)%nat -> (mt < MIGRATE_TYPES)%nat ->
  exists z4 z5, expand p order o mt z3 = Ret z4 /\ set_pcppage_migratetype p mt z4 = Ret z5
    /\ taken z z5 p order mt.
Proof.
  intros I Hp D Ho Hm. destruct (fl_bounds _ _ _ _ (bi_shape _ I) Hp) as [Ho' _].
  pose proof (inv_del _ _ _ _ _ I Hp D) as I3.
  pose proof (fun a => dels_free_at z z3 o m p a I Hp D) as F3.
  assert (outside z3 p o) as Hout.
  { split; [|intros a Ha; rewrite F3; tauto].
    apply (block_ok_same z); [apply (de_rest _ _ _ _ D)|by eapply dels_zones|by eapply (bi_block _ I)]. }
  destruct (expand_loop_spec (o - order) p o mt z3 I3 Hout ltac:(lia) Hm)
    as (z4 & E4 & I4 & O4 & F4 & C4 & R4 & V4).
  replace (o - (o - order))%nat with order in * by lia.
  destruct (outside_head _ _ _ O4) as (pg & Hpg & _).
  destruct (set_pcppage_spec p mt z4 I4 ltac:(eauto)) as (z5 & E5 & I5 & O5 & Z5 & P5).
  exists z4, z5. split_and!; try done. pose proof (blk_le order o Ho). pose proof (blk_pos order).
  assert (forall a, free_at z5 a <-> free_at z4 a) as F5.
  { intros a. unfold free_at. by setoid_rewrite (fun o m => only_mem_fl z4 z5 o m O5). }
  assert (forall a, p <= a < p + blk o -> free_at z a) as Hwas by (intros a Ha; by exists o, m, p).
  pose proof O5 as (_ & R5 & V5). destruct O4 as [Hb4 Hf4].
  split; try done.
  - split; [by apply (block_ok_same z4)|]. intros a Ha. rewrite F5. by apply Hf4.
  - intros a Ha. apply Hwas. lia.
  - intros a. rewrite F5, F4, F3. split.
    + intros [[Hfa Hn]|Ha]; [split; [done|lia]|split; [apply Hwas; lia|lia]].
    + intros [Hfa Hn]. destruct (decide (p <= a < p + blk o)); [right; lia|by left].
  - intros Hc o' m' m'' q Hlt. rewrite !(only_mem_fl _ _ _ _ O5). apply C4; [|done].
    by eapply coalesced_dels.
  - eauto using de_rest with buddy.
  - eauto using de_vm with buddy.
Qed.

(** ** The smallest block of a migrate type *)

Lemma first_free_spec z o m : shape z -> (o < MAX_ORDER)%nat -> (m < MIGRATE_TYPES)%nat ->
  first_free z o m = Ret (head (fl z o m)).
Proof.
  intros [H1 H2] Ho Hm. unfold first_free, fl.
  destruct (lookup_lt_is_Some_2 (z_free_area z) o) as [a Ea]; [lia|].
  destruct (lookup_lt_is_Some_2 (fa_free_list a) m) as [l El]; [rewrite (H2 _ _ Ea); lia|].
  rewrite (arr_get_Some _ _ _ Ea), Ea. cbn [obind]. by rewrite (arr_get_Some _ _ _ El), El.
Qed.

(** The same three steps as [take_block] in the order of [__rmqueue_smallest]. *)
Lemma take_block_rmqueue o m p z : buddy_inv z -> p ∈ fl z o m ->
  exists z1 z2 z3, list_del p z = Ret z1 /\ rmv_page_order p z1 = Ret z2
    /\ nr_free_add o (-1) z2 = Ret z3 /\ dels z z3 o p.
Proof.
  intros I Hp. destruct (fl_bounds _ _ _ _ (bi_shape _ I) Hp) as [Ho Hm].
  destruct (bi_head _ I _ _ _ Hp) as (pg & Hpg & _).
  destruct (list_del_spec p o m z (bi_shape _ I) Hp) as (z1 & E1 & S1 & R1 & V1 & M1 & N1 & F1).
  destruct (rmv_page_order_spec p pg z1) as (z2 & E2 & O2 & M2); [congruence|].
  pose proof O2 as (_ & R2 & V2).
  destruct (nr_free_add_spec o (-1) z2 (only_mem_shape _ _ O2 S1) Ho) as (z3 & E3 & S3 & R3 & V3 & M3 & N3 & N3' & F3).
  exists z1, z2, z3. split_and!; try done. split; eauto with buddy.
  - intros o' m'. by rewrite F3, (only_mem_fl _ _ _ _ O2), F1.
  - by rewrite N3, (only_mem_nr _ _ _ O2), N1.
  - intros o' Hne. by rewrite N3', (only_mem_nr _ _ _ O2), N1.
  - exists pg. split; [done|]. congruence.
Qed.

Lemma rmqueue_scan_spec n co order mt z :
  buddy_inv z -> (order <= co)%nat -> (co + n = MAX_ORDER)%nat -> (mt < MIGRATE_TYPES)%nat ->
  (rmqueue_scan n co order mt z = Ret (None, z) /\ forall o, (co <= o < MAX_ORDER)%nat -> fl z o mt = [])
  \/ exists p o z', rmqueue_scan n co order mt z = Ret (Some p, z')
       /\ (co <= o < MAX_ORDER)%nat /\ head (fl z o mt) = Some p
       /\ (forall o', (co <= o' < o)%nat -> fl z o' mt = []) /\ taken z z' p order mt.
Proof.
  revert co. induction n as [|n IH]; intros co I Ho Hn Hm.
  - left. split; [done|]. intros o Hlt. lia.
  - cbn [rmqueue_scan]. rewrite first_free_spec by (try apply (bi_shape _ I); lia). cbn [obind].
    destruct (fl z co mt) as [|p l] eqn:El; [change (head (@nil Z)) with (@None Z)|change (head (p :: l)) with (Some p)].
    + destruct (IH (co + 1)%nat I ltac:(lia) ltac:(lia) Hm) as [[E H]|(p & o & z' & E & Hlt & Hh & Hs & T)].
      * left. split; [done|]. intros o Hlt. destruct (decide (o = co)) as [->|]; [done|]. apply H. lia.
      * right. exists p, o, z'. split_and!; try done; try lia. intros o' Hlt'.
        destruct (decide (o' = co)) as [->|]; [done|]. apply Hs. lia.
    + right. assert (p ∈ fl z co mt) as Hp by (rewrite El; apply elem_of_cons; auto).
      destruct (take_block_rmqueue co mt p z I Hp) as (z1 & z2 & z3 & E1 & E2 & E3 & D).
      destruct (finish_take z z3 p co mt order mt I Hp D Ho Hm) as (z4 & z5 & E4 & E5 & T).
      exists p, co, z5. rewrite E1. cbn [obind]. rewrite E2. cbn [obind]. rewrite E3. cbn [obind].
      rewrite E4. cbn [obind]. rewrite E5. cbn [obind].
      split_and!; try done; try lia; by rewrite El.
Qed.

(** ** Moving free pages between migrate types *)

(** The same blocks are free, some of them on the list of another type. *)
Record shuffled (z z' : zone) : Prop := {
  sh_shape : shape z';
  sh_mem : z_mem_map z' = z_mem_map z;
  sh_rest : same_rest z z';
  sh_vm : same_vmstat z z';
  sh_nr : forall o, nr z' o = nr z o;
  sh_elem : forall o q, (exists m, q ∈ fl z' o m) <-> exists m, q ∈ fl z o m
}.

Lemma shuffled_refl z : shape z -> shuffled z z.
Proof. intros H. by split; eauto with buddy. Qed.

Lemma shuffled_trans z1 z2 z3 : shuffled z1 z2 -> shuffled z2 z3 -> shuffled z1 z3.
Proof.
  intros [] []. split; eauto with buddy; try congruence.
  intros o q. by rewrite sh_elem1, sh_elem0.
Qed.

Lemma shuffled_free_at z z' a : shuffled z z' -> free_at z' a <-> free_at z a.
Proof.
  intros S. unfold free_at. split; intros (o & m & p & Hp & Ha).
  - destruct (proj1 (sh_elem _ _ S o p)) as [m' ?]; [eauto|]. by exists o, m', p.
  - destruct (proj2 (sh_elem _ _ S o p)) as [m' ?]; [eauto|]. by exists o, m', p.
Qed.

Lemma shuffled_coalesced z z' : shuffled z z' -> coalesced z -> coalesced z'.
Proof.
  intros S Hc o m m' p Ho H1 H2.
  destruct (proj1 (sh_elem _ _ S o p)) as [m1 H1']; [eauto|].
  destruct (proj1 (sh_elem _ _ S o (Z.lxor p (blk o)))) as [m2 H2']; [eauto|].
  by eapply (Hc o m1 m2 p).
Qed.

Lemma inv_shuffled z z' : buddy_inv z -> shuffled z z' ->
  (forall o m, NoDup (fl z' o m)) -> (forall o m m' p, p ∈ fl z' o m -> p ∈ fl z' o m' -> m = m') ->
  (forall o, list_total z' o = list_total z o) -> buddy_inv z'.
Proof.
  intros I S Hnd Honce Htot.
  assert (forall o m q, q ∈ fl z' o m -> exists m', q ∈ fl z o m') as Hback.
  { intros o m q Hq. apply (sh_elem _ _ S). eauto. }
  assert (same_zones (z_mem_map z) (z_mem_map z')) as Hz by (intros a; by rewrite (sh_mem _ _ S)).
  destruct (map_inv_same _ _ (sh_rest _ _ S) Hz (inv_map_inv _ I)) as (M1 & M2 & M3).
  split; try done.
  - apply (sh_shape _ _ S).
  - intros o m p Hp. rewrite (sh_mem _ _ S). destruct (Hback _ _ _ Hp). by eapply (bi_head _ I).
  - intros o m p Hp. destruct (Hback _ _ _ Hp). apply (block_ok_same z); [apply (sh_rest _ _ S)|done|].
    by eapply (bi_block _ I).
  - intros p pg Hp Hmc Hid. rewrite (sh_mem _ _ S) in Hp. destruct (sh_rest _ _ S) as (Eid & _).
    destruct (bi_listed _ I p pg Hp Hmc) as (o & m & Hin); [congruence|]. exists o.
    apply (sh_elem _ _ S). eauto.
  - intros o m p o' m' q Hp Hq. destruct (Hback _ _ _ Hp), (Hback _ _ _ Hq). by eapply (bi_disj _ I).
  - intros o Ho. rewrite (sh_nr _ _ S), Htot. by apply (bi_nr _ I).
Qed.

(** [list_move] of one block head. *)
Lemma move_one z o m p mt : buddy_inv z -> p ∈ fl z o m -> (mt < MIGRATE_TYPES)%nat ->
  exists z1 z2, list_del p z = Ret z1 /\ free_list_add false p o mt z1 = Ret z2
    /\ buddy_inv z2 /\ shuffled z z2
    /\ forall o' m' q, q ∈ fl z2 o' m' <-> (q ∈ fl z o' m' /\ q <> p) \/ (o' = o /\ m' = mt /\ q = p).
Proof.
  intros I Hp Hm. destruct (fl_bounds _ _ _ _ (bi_shape _ I) Hp) as [Ho Hm0].
  destruct (list_del_spec p o m z (bi_shape _ I) Hp) as (z1 & E1 & S1 & R1 & V1 & M1 & N1 & F1).
  destruct (free_list_add_spec false p o mt z1 S1 Ho Hm) as (z2 & E2 & S2 & R2 & V2 & M2 & N2 & F2 & F2').
  assert (forall o' m' q, q ∈ fl z2 o' m' <->
            (q ∈ fl z o' m' /\ q <> p) \/ (o' = o /\ m' = mt /\ q = p)) as Hel.
  { intros o' m' q. destruct (decide ((o', m') = (o, mt))) as [E|Hne].
    - injection E as -> ->. rewrite F2, F1, elem_of_cons, without_elem. intuition congruence.
    - rewrite (F2' _ _ Hne), F1, without_elem. intuition congruence. }
  assert (shuffled z z2) as Sh.
  { split; eauto with buddy; try congruence; try (intros; by rewrite N2, N1). intros o' q. split.
    - intros [m' Hq]. apply Hel in Hq as [[Hq _]|(-> & -> & ->)]; eauto.
    - intros [m' Hq]. destruct (decide (q = p)) as [->|].
      + destruct (head_order _ _ _ _ _ _ I Hp Hq) as [-> _]. exists mt. apply Hel. auto.
      + exists m'. apply Hel. auto. }
  exists z1, z2. split_and!; try done. apply (inv_shuffled z z2 I Sh).
  - intros o' m'. destruct (decide ((o', m') = (o, mt))) as [E|Hne].
    + injection E as -> ->. rewrite F2, F1. apply NoDup_cons. split; [|apply NoDup_filter, (bi_nodup _ I)].
      rewrite without_elem. tauto.
    + rewrite (F2' _ _ Hne), F1. apply NoDup_filter, (bi_nodup _ I).
  - intros o' m1 m2 q H1 H2. apply Hel in H1, H2.
    destruct H1 as [[H1 ?]|(-> & -> & ->)], H2 as [[H2 ?]|(? & -> & ?)]; try done. by eapply (bi_once _ I).
  - intros o'.
    assert (forall m', (o', m') <> (o, m) -> length (fl z1 o' m') = length (fl z o' m')) as Hs1.
    { intros m' Hne. rewrite F1, without_absent; [done|]. intros Hq.
      destruct (head_order _ _ _ _ _ _ I Hp Hq) as [-> ->]. done. }
    destruct (decide (o' = o)) as [->|Hne].
    + rewrite (list_total_change z1 z2 o mt 1), (list_total_change z z1 o m (-1)); try done; [lia| | | |].
      * rewrite F1. pose proof (without_length p _ (bi_nodup _ I o m) Hp). lia.
      * intros m' Hm'. apply Hs1. congruence.
      * rewrite F2. simpl. lia.
      * intros m' Hm'. rewrite F2'; [done|congruence].
    + apply list_total_same. intros m'. rewrite F2' by congruence. apply Hs1. congruence.
Qed.

(** Block heads in [lo .. hi] end up on the list of [mt], others stay. *)
Definition moved_to (z z' : zone) (lo hi : Z) (mt : nat) : Prop :=
  forall o m q, q ∈ fl z' o m <->
    (q ∈ fl z o m /\ ~ lo <= q <= hi) \/ (m = mt /\ lo <= q <= hi /\ exists m0, q ∈ fl z o m0).

Lemma move_freepages_spec fuel p hi mt cnt z :
  buddy_inv z -> (mt < MIGRATE_TYPES)%nat -> Z.max 0 (hi - p + 1) < Z.of_nat fuel ->
  (forall a, p <= a <= hi -> exists pg, z_mem_map z !! a = Some pg /\ pg_zone_id pg = z_id z) ->
  exists cnt' z', move_freepages fuel p hi mt cnt z = Ret (cnt', z') /\ buddy_inv z' /\ shuffled z z'
    /\ moved_to z z' p hi mt.
Proof.
  revert p cnt z. induction fuel as [|fuel IH]; intros p cnt z I Hm Hf Hmap.
  { lia. }
  cbn [move_freepages]. destruct (Z.leb_spec p hi) as [Hle|Hgt].
  2: { exists cnt, z. split_and!; try done; [apply shuffled_refl, (bi_shape _ I)|].
       intros o m q. split; [intros Hq; left; split; [done|lia]|]. intros [[? _]|(_ & ? & _)]; [done|lia]. }
  destruct (Hmap p ltac:(lia)) as (pg & Hpg & Hid). unfold get_page. rewrite Hpg. cbn [obind].
  unfold PageBuddy. destruct (Z.eqb_spec (pg_mapcount pg) PAGE_BUDDY_MAPCOUNT_VALUE) as [Hmc|Hmc]; simpl negb; cbv iota.
  - destruct (bi_listed _ I p pg Hpg Hmc Hid) as (o & m & Hp).
    destruct (bi_head _ I _ _ _ Hp) as (pg' & Hpg' & _ & Hpr). rewrite Hpg in Hpg'. injection Hpg' as <-.
    unfold page_order. rewrite Hpr, Nat2Z.id. fold (blk o). pose proof (blk_pos o).
    destruct (move_one z o m p mt I Hp Hm) as (z1 & z2 & E1 & E2 & I2 & S2 & Hel).
    rewrite E1. cbn [obind]. rewrite E2. cbn [obind].
    destruct (IH (p + blk o) (cnt + blk o) z2 I2 Hm ltac:(lia)) as (cnt' & z' & E & I' & S' & Hmv).
    { intros a Ha. rewrite (sh_mem _ _ S2). destruct (sh_rest _ _ S2) as (-> & _). apply Hmap. lia. }
    exists cnt', z'. split_and!; try done; [by eapply shuffled_trans|].
    assert (forall o' m' q, q ∈ fl z o' m' -> q <> p -> p <= q -> p + blk o <= q) as Hgap.
    { intros o' m' q Hq Hne Hge. pose proof (blk_pos o').
      destruct (bi_disj _ I _ _ _ _ _ _ Hp Hq ltac:(done)); lia. }
    assert (forall o' q, (exists m0, q ∈ fl z2 o' m0) <-> exists m0, q ∈ fl z o' m0) as Hsh by apply (sh_elem _ _ S2).
    unfold moved_to in *. intros o' m' q. rewrite Hmv, Hel, Hsh. split.
    + intros [[[[Hq Hne]|(-> & -> & ->)] Hn]|(-> & Hr & Hq)].
      * left. split; [done|]. intros Hr. pose proof (Hgap _ _ _ Hq Hne ltac:(lia)). lia.
      * right. split_and!; eauto; lia.
      * right. split_and!; try done; lia.
    + intros [[Hq Hn]|(-> & Hr & m0 & Hq)].
      * left. split; [left; split; [done|]|lia]. intros ->. lia.
      * destruct (decide (q = p)) as [->|Hne].
        -- left. destruct (head_order _ _ _ _ _ _ I Hp Hq) as [-> _]. split; [auto|lia].
        -- right. pose proof (Hgap _ _ _ Hq Hne ltac:(lia)). split_and!; eauto; lia.
  - destruct (IH (p + 1) cnt z I Hm ltac:(lia)) as (cnt' & z' & E & I' & S' & Hmv); [intros a Ha; apply Hmap; lia|].
    exists cnt', z'. split_and!; try done.
    assert (forall o m, p ∉ fl z o m) as Hno.
    { intros o m Hp. destruct (bi_head _ I _ _ _ Hp) as (pg' & Hpg' & ? & _). congruence. }
    assert (forall o m q, q ∈ fl z o m -> p <= q <= hi <-> p + 1 <= q <= hi) as Hr.
    { intros o m q Hq. assert (q <> p) by (intros ->; by eapply Hno). lia. }
    unfold moved_to in *. intros o m q. rewrite Hmv. split.
    + intros [[Hq Hn]|(-> & ? & m0 & Hq)]; [left|right]; rewrite (Hr _ _ _ Hq) in *; eauto.
    + intros [[Hq Hn]|(-> & ? & m0 & Hq)]; [left|right]; rewrite (Hr _ _ _ Hq) in *; eauto.
Qed.

Lemma spans_between z lo hi a : zone_spans_pfn z lo = true -> zone_spans_pfn z hi = true ->
  lo <= a <= hi -> zone_spans_pfn z a = true.
Proof.
  unfold zone_spans_pfn. intros H1 H2 Ha. apply andb_true_iff in H1 as [H1 _], H2 as [_ H2].
  apply andb_true_iff. split; lia.
Qed.

Lemma pageblock_start p : 0 <= p < MAX_PFN ->
  Z.land p (u32 (Z.lnot (pageblock_nr_pages - 1))) = p - p mod pageblock_nr_pages.
Proof.
  intros H. unfold MAX_PFN in H. rewrite land_wrap by lia.
  change pageblock_nr_pages with (2 ^ 10). apply land_lnot_ones. lia.
Qed.

Lemma move_block_spec p mt z pg :
  buddy_inv z -> (mt < MIGRATE_TYPES)%nat -> z_mem_map z !! p = Some pg -> pg_zone_id pg = z_id z ->
  exists cnt z', move_freepages_block p mt z = Ret (cnt, z') /\ buddy_inv z' /\ shuffled z z'.
Proof.
  intros I Hm Hp Hid. unfold move_freepages_block.
  destruct (bi_map _ I p ltac:(eauto)) as [Hr Hblk].
  rewrite pageblock_start by done.
  change pageblock_nr_pages with 1024 in *.
  pose proof (Z.mod_pos_bound p 1024 ltac:(lia)). pose proof (Z.div_mod p 1024 ltac:(lia)).
  set (sp := p - p mod 1024) in *. unfold MAX_PFN in Hr.
  rewrite (u32_small (sp + 1024 - 1)) by (unfold U32_MAX; lia).
  pose proof (proj1 (bi_span _ I p pg Hp) Hid) as Hsp.
  destruct (zone_spans_pfn z (sp + 1024 - 1)) eqn:Ee; simpl negb; cbv iota.
  2: { exists 0, z. split_and!; [done|done|]. apply shuffled_refl, (bi_shape _ I). }
  set (lo := if negb (zone_spans_pfn z sp) then p else sp).
  assert (sp <= lo /\ zone_spans_pfn z lo = true) as [Hlo Hls].
  { unfold lo. destruct (zone_spans_pfn z sp) eqn:E; simpl; split; try done; lia. }
  destruct (move_freepages_spec (Z.to_nat 1024 + 1) lo (sp + 1024 - 1) mt 0 z I Hm ltac:(lia))
    as (cnt & z' & E & I' & S' & _).
  { intros a Ha. destruct (Hblk a) as [ag Hag].
    - symmetry. apply (Z.div_unique _ _ _ (a - sp)); lia.
    - exists ag. split; [done|]. apply (bi_span _ I _ _ Hag). by apply (spans_between z lo (sp + 1024 - 1)). }
  by exists cnt, z'.
Qed.

(** ** Pageblock types *)

Lemma set_pageblock_spec md p mt z pg :
  buddy_inv z -> z_mem_map z !! p = Some pg -> pg_zone_id pg = z_id z ->
  exists z', set_pageblock_migratetype md p mt z = Ret z' /\ buddy_inv z' /\ shuffled z z'.
Proof.
  intros I Hp Hid. unfold set_pageblock_migratetype, set_pfnblock_flags_mask.
  pose proof (proj1 (bi_span _ I p pg Hp) Hid) as Hsp.
  pose proof (bi_flags _ I p ltac:(eauto) Hsp) as Hlt.
  destruct (lookup_lt_is_Some_2 _ _ Hlt) as [w Hw].
  rewrite (arr_get_Some _ _ _ Hw). cbn [obind]. rewrite arr_set_lt by done. cbn [obind].
  set (f := <[_ := _]> _). assert (length f = length (z_pageblock_flags z)) as Hl by apply length_insert.
  clearbody f.
  assert (shuffled z (set_pageblock_flags f z)) as S.
  { split; try done; apply (bi_shape _ I). }
  exists (set_pageblock_flags f z). split_and!; try done.
  apply (inv_shuffled z); try done; [apply (bi_nodup _ I)|apply (bi_once _ I)].
Qed.

Lemma steal_spec md p mt z o m :
  buddy_inv z -> (mt < MIGRATE_TYPES)%nat -> p ∈ fl z o m ->
  exists z', steal_suitable_fallback md p mt z = Ret z' /\ buddy_inv z' /\ shuffled z z'.
Proof.
  intros I Hm Hp. destruct (fl_bounds _ _ _ _ (bi_shape _ I) Hp) as [Ho _].
  destruct (bi_head _ I _ _ _ Hp) as (pg & Hpg & _ & Hpr).
  destruct (bi_block _ I _ _ _ Hp) as [_ Hb]. destruct (Hb p) as (pg' & Hpg' & Hid); [pose proof (blk_pos o); lia|].
  rewrite Hpg in Hpg'. injection Hpg' as <-.
  unfold steal_suitable_fallback, get_page. rewrite Hpg. cbn [obind]. unfold page_order. rewrite Hpr, Nat2Z.id.
  destruct (Nat.leb_spec pageblock_order o) as [Hge|Hlt].
  - assert (o = pageblock_order) as -> by (unfold pageblock_order, MAX_ORDER in *; lia).
    rewrite Nat.sub_diag. cbn [Nat.pow change_pageblock_range].
    destruct (set_pageblock_spec md p mt z pg I Hpg Hid) as (z' & -> & I' & S'). cbn [obind]. by exists z'.
  - destruct (move_block_spec p mt z pg I Hm Hpg Hid) as (cnt & z1 & -> & I1 & S1). cbn [obind].
    destruct (_ || _); [|by exists z1].
    destruct (set_pageblock_spec md p mt z1 pg I1) as (z' & -> & I' & S').
    { by rewrite (sh_mem _ _ S1). }
    { by destruct (sh_rest _ _ S1) as (-> & _). }
    exists z'. split_and!; try done. by eapply shuffled_trans.
Qed.

(** ** Falling back to another migrate type *)

Lemma nodup_range_length (l : list Z) N : 0 <= N -> NoDup l -> (forall x, x ∈ l -> 0 <= x < N) ->
  Z.of_nat (length l) <= N.
Proof.
  intros HN Hnd Hin. rewrite <- (Z2Nat.id N) by done. rewrite <- (length_seqZ 0 N).
  apply inj_le, submseteq_length, NoDup_submseteq; [done|]. intros x Hx. apply elem_of_seqZ.
  specialize (Hin x Hx). lia.
Qed.

(** The counter of an order is 0 only when its lists are empty. *)
Lemma nr_zero z o m : buddy_inv z -> (o < MAX_ORDER)%nat -> nr z o = 0 -> fl z o m = [].
Proof.
  intros I Ho Hz. destruct (fl z o m) as [|p l] eqn:El; [done|]. exfalso.
  assert (forall m', Z.of_nat (length (fl z o m')) <= MAX_PFN) as Hle.
  { intros m'. apply nodup_range_length; [done|apply (bi_nodup _ I)|]. intros q Hq.
    destruct (bi_head _ I _ _ _ Hq) as (pg & Hpg & _). apply (bi_map _ I). eauto. }
  rewrite (bi_nr _ I) in Hz by done.
  assert (0 < list_total z o) as Hpos.
  { assert (p ∈ fl z o m) as Hp by (rewrite El; apply elem_of_cons; auto).
    destruct (fl_bounds _ _ _ _ (bi_shape _ I) Hp) as [_ Hm].
    unfold list_total, MIGRATE_TYPES in *. do 6 (destruct m as [|m]; [rewrite El; simpl length; lia|]). lia. }
  pose proof (Hle 0%nat). pose proof (Hle 1%nat). pose proof (Hle 2%nat).
  pose proof (Hle 3%nat). pose proof (Hle 4%nat). pose proof (Hle 5%nat).
  unfold MAX_PFN in *. rewrite u32_small in Hz; [lia|]. unfold U32_MAX, list_total in *. lia.
Qed.

(** The types a request of type [mt] may be served from when its own lists are
    empty. *)
Definition fallback_types (mt : nat) : list nat :=
  match mt with
  | 0%nat => [MIGRATE_RECLAIMABLE; MIGRATE_MOVABLE]
  | 1%nat => [MIGRATE_RECLAIMABLE; MIGRATE_UNMOVABLE]
  | 2%nat => [MIGRATE_UNMOVABLE; MIGRATE_MOVABLE]
  | _ => []
  end.

Lemma suitable_spec md z o mt a :
  buddy_inv z -> z_free_area z !! o = Some a -> (mt < MIGRATE_PCPTYPES)%nat ->
  exists r cs, find_suitable_fallback md a o mt false = Ret (r, cs)
    /\ match r with
       | Some m => m ∈ fallback_types mt /\ fl z o m <> []
       | None => forall m, m ∈ fallback_types mt -> fl z o m = []
       end.
Proof.
  intros I Ha Hmt. unfold find_suitable_fallback.
  assert (forall m, fl z o m = default [] (fa_free_list a !! m)) as Hfl by (intros m; unfold fl; by rewrite Ha).
  assert (o < MAX_ORDER)%nat as Ho.
  { rewrite <- (proj1 (bi_shape _ I)). by eapply lookup_lt_Some. }
  destruct (Z.eqb_spec (fa_nr_free a) 0) as [E0|_].
  { eexists _, _. split; [done|]. intros m _. apply nr_zero; try done. unfold nr. by rewrite Ha. }
  assert (exists x y, fallbacks !! mt = Some [x; y; MIGRATE_TYPES; 0%nat] /\ fallback_types mt = [x; y]
            /\ (x < MIGRATE_TYPES)%nat /\ (y < MIGRATE_TYPES)%nat) as (x & y & Erow & -> & Hx & Hy).
  { unfold MIGRATE_PCPTYPES in Hmt. do 3 (destruct mt as [|mt]; [eexists _, _; split_and!; try done; by apply Nat.ltb_lt|]). lia. }
  rewrite (arr_get_Some _ _ _ Erow). cbn [obind].
  assert (length (fa_free_list a) = MIGRATE_TYPES) as Hl by (by eapply (bi_shape _ I)).
  destruct (lookup_lt_is_Some_2 (fa_free_list a) x) as [lx Ex]; [lia|].
  destruct (lookup_lt_is_Some_2 (fa_free_list a) y) as [ly Ey]; [lia|].
  cbn [suitable_loop]. rewrite (proj2 (Nat.eqb_neq x MIGRATE_TYPES)), (proj2 (Nat.eqb_neq y MIGRATE_TYPES)) by lia.
  rewrite (arr_get_Some _ _ _ Ex), (arr_get_Some _ _ _ Ey). cbn [obind negb].
  destruct lx as [|p l].
  - destruct ly as [|q l'].
    + eexists _, _. split; [done|]. intros m Hm. rewrite Hfl.
      apply elem_of_cons in Hm as [->|Hm]; [by rewrite Ex|]. apply list_elem_of_singleton in Hm as ->. by rewrite Ey.
    + eexists _, _. split; [done|]. split; [apply elem_of_cons; right; by apply list_elem_of_singleton|]. by rewrite Hfl, Ey.
  - eexists _, _. split; [done|]. split; [apply elem_of_cons; by left|]. by rewrite Hfl, Ex.
Qed.

(** The three steps in the order of [__rmqueue_fallback]. *)
Lemma take_block_fallback o m p z : buddy_inv z -> p ∈ fl z o m ->
  exists z1 z2 z3, nr_free_add o (-1) z = Ret z1 /\ list_del p z1 = Ret z2
    /\ rmv_page_order p z2 = Ret z3 /\ dels z z3 o p.
Proof.
  intros I Hp. destruct (fl_bounds _ _ _ _ (bi_shape _ I) Hp) as [Ho Hm].
  destruct (bi_head _ I _ _ _ Hp) as (pg & Hpg & _).
  destruct (nr_free_add_spec o (-1) z (bi_shape _ I) Ho) as (z1 & E1 & S1 & R1 & V1 & M1 & N1 & N1' & F1).
  destruct (list_del_spec p o m z1 S1) as (z2 & E2 & S2 & R2 & V2 & M2 & N2 & F2); [by rewrite F1|].
  destruct (rmv_page_order_spec p pg z2) as (z3 & E3 & O3 & M3); [congruence|].
  exists z1, z2, z3. split_and!; try done. pose proof O3 as (_ & R3 & V3).
  split; eauto using only_mem_shape with buddy.
  - intros o' m'. by rewrite (only_mem_fl _ _ _ _ O3), F2, F1.
  - by rewrite (only_mem_nr _ _ _ O3), N2, N1.
  - intros o' Hne. by rewrite (only_mem_nr _ _ _ O3), N2, N1'.
  - exists pg. split; [done|]. congruence.
Qed.

Lemma taken_shuffled z z1 z' p order mt : shuffled z z1 -> taken z1 z' p order mt -> taken z z' p order mt.
Proof.
  intros S []. pose proof (fun a => shuffled_free_at _ _ a S) as Hf. split; try done.
  - intros a Ha. apply Hf. by apply tk_was0.
  - intros a. by rewrite tk_free0, Hf.
  - intros Hc. by eapply tk_coalesced0, shuffled_coalesced.
  - eauto using sh_rest with buddy.
  - eauto using sh_vm with buddy.
Qed.

Lemma fallback_loop_spec md n co order mt z :
  buddy_inv z -> (co < MAX_ORDER)%nat -> (S co = order + n)%nat -> (mt < MIGRATE_PCPTYPES)%nat ->
  (rmqueue_fallback_loop md n co order mt z = Ret (None, z)
   /\ forall o m, (order <= o <= co)%nat -> m ∈ fallback_types mt -> fl z o m = [])
  \/ exists p o m z', rmqueue_fallback_loop md n co order mt z = Ret (Some p, z')
       /\ (order <= o <= co)%nat /\ m ∈ fallback_types mt /\ head (fl z o m) = Some p
       /\ (forall o' m', (o < o' <= co)%nat -> m' ∈ fallback_types mt -> fl z o' m' = [])
       /\ taken z z' p order mt.
Proof.
  intros I. revert co. induction n as [|n IH]; intros co Hco Hn Hmt.
  - left. split; [done|]. intros o m Ho. lia.
  - cbn [rmqueue_fallback_loop].
    destruct (lookup_lt_is_Some_2 (z_free_area z) co) as [a Ea]; [by rewrite (proj1 (bi_shape _ I))|].
    rewrite (arr_get_Some _ _ _ Ea). cbn [obind].
    destruct (suitable_spec md z co mt a I Ea Hmt) as (r & cs & -> & Hr). cbn [obind].
    destruct r as [m|].
    + right. destruct Hr as [Hm Hne]. destruct (fl z co m) as [|p l] eqn:El; [done|].
      assert (p ∈ fl z co m) as Hp by (rewrite El; apply elem_of_cons; auto).
      assert (mt < MIGRATE_TYPES)%nat as Hmt' by (unfold MIGRATE_PCPTYPES, MIGRATE_TYPES in *; lia).
      rewrite first_free_spec by (try apply (bi_shape _ I); try done; by eapply fl_bounds; [apply (bi_shape _ I)|]).
      cbn [obind]. rewrite El. change (head (p :: l)) with (Some p). cbv iota.
      assert (exists z1, (if cs then steal_suitable_fallback md p mt z else Ret z) = Ret z1
                /\ buddy_inv z1 /\ shuffled z z1) as (z1 & -> & I1 & S1).
      { destruct cs; [by eapply steal_spec|]. exists z. split_and!; try done. apply shuffled_refl, (bi_shape _ I). }
      cbn [obind]. destruct (proj2 (sh_elem _ _ S1 co p)) as [m1 Hp1]; [eauto|].
      destruct (take_block_fallback co m1 p z1 I1 Hp1) as (z2 & z3 & z4 & E2 & E3 & E4 & D).
      destruct (finish_take z1 z4 p co m1 order mt I1 Hp1 D ltac:(lia) Hmt') as (z5 & z6 & E5 & E6 & T).
      exists p, co, m, z6. rewrite E2. cbn [obind]. rewrite E3. cbn [obind]. rewrite E4. cbn [obind].
      rewrite E5. cbn [obind]. rewrite E6. cbn [obind].
      split_and!; try done; try lia; [by rewrite El|]. by eapply taken_shuffled.
    + destruct (decide (n = 0%nat)) as [->|Hn0].
      * left. split; [done|]. intros o m Ho Hm. assert (o = co) as -> by lia. by apply Hr.
      * destruct (IH (co - 1)%nat ltac:(lia) ltac:(lia) Hmt)
          as [[E H]|(p & o & m & z' & E & Hlt & Hm & Hh & Hs & T)].
        -- left. split; [done|]. intros o m Ho Hm. destruct (decide (o = co)) as [->|]; [by apply Hr|].
           apply H; [lia|done].
        -- right. exists p, o, m, z'. split_and!; try done; try lia. intros o' m' Ho' Hm'.
           destruct (decide (o' = co)) as [->|]; [by apply Hr|]. apply Hs; [lia|done].
Qed.

(** ** Properties *)

(** The list [__rmqueue_smallest] looks at: in the movable zone of the
    CONFIG_ZONE_MOVABLE_CMA set-up, movable requests use the CMA list. *)
Definition own_type (z : zone) (mt : nat) : nat :=
  if z_movable_cma z && (mt =? MIGRATE_MOVABLE)%nat then MIGRATE_CMA else mt.

Lemma smallest_spec order mt z :
  buddy_inv z -> (order < MAX_ORDER)%nat -> (mt < MIGRATE_TYPES)%nat ->
  (__rmqueue_smallest order mt z = Ret (None, z)
   /\ forall o, (order <= o < MAX_ORDER)%nat -> fl z o (own_type z mt) = [])
  \/ exists p o z', __rmqueue_smallest order mt z = Ret (Some p, z')
       /\ (order <= o < MAX_ORDER)%nat /\ head (fl z o (own_type z mt)) = Some p
       /\ (forall o', (order <= o' < o)%nat -> fl z o' (own_type z mt) = [])
       /\ taken z z' p order (own_type z mt).
Proof.
  intros I Ho Hm. apply rmqueue_scan_spec; [done|lia|lia|].
  unfold own_type. destruct (_ && _); [by apply Nat.ltb_lt|done].
Qed.

(** C18: __rmqueue_smallest returns NULL exactly when the list of the migrate
    type is empty from the requested order up; otherwise it takes the first
    block of the smallest order that will do.  The block it returns was free,
    is aligned and is no longer free; every other free page stays free, and
    the zone stays consistent and coalesced. *)
Theorem rmqueue_smallest_correct order mt z :
  buddy_inv z -> (order < MAX_ORDER)%nat -> (mt < MIGRATE_TYPES)%nat ->
  (__rmqueue_smallest order mt z = Ret (None, z)
   /\ forall o, (order <= o < MAX_ORDER)%nat -> fl z o (own_type z mt) = [])
  \/ exists p o z', __rmqueue_smallest order mt z = Ret (Some p, z')
       /\ (order <= o < MAX_ORDER)%nat /\ head (fl z o (own_type z mt)) = Some p
       /\ (forall o', (order <= o' < o)%nat -> fl z o' (own_type z mt) = [])
       /\ taken z z' p order (own_type z mt).
Proof. apply smallest_spec. Qed.

(** Every list a request may be served from, in the order they are tried. *)
Definition searched_types (z : zone) (mt : nat) : list nat :=
  own_type z mt :: (if (mt =? MIGRATE_MOVABLE)%nat then [MIGRATE_CMA] else []) ++ fallback_types mt.

Lemma rmqueue_spec md order mt z :
  buddy_inv z -> (order < MAX_ORDER)%nat -> (mt < MIGRATE_PCPTYPES)%nat ->
  (__rmqueue md order mt z = Ret (None, z)
   /\ forall o m, (order <= o < MAX_ORDER)%nat -> m ∈ searched_types z mt -> fl z o m = [])
  \/ exists p z' mt', __rmqueue md order mt z = Ret (Some p, z') /\ taken z z' p order mt'.
Proof.
  intros I Ho Hmt. unfold __rmqueue, __rmqueue_cma_fallback.
  assert (mt < MIGRATE_TYPES)%nat as Hmt' by (unfold MIGRATE_PCPTYPES, MIGRATE_TYPES in *; lia).
  destruct (smallest_spec order mt z I Ho Hmt') as [[-> H1]|(p & o & z' & -> & _ & _ & _ & T)]; cbn [obind];
    [|right; by exists p, z', (own_type z mt)].
  assert ((exists p z', (if (mt =? MIGRATE_MOVABLE)%nat then __rmqueue_smallest order MIGRATE_CMA z else Ret (None, z))
              = Ret (Some p, z') /\ taken z z' p order MIGRATE_CMA)
          \/ ((if (mt =? MIGRATE_MOVABLE)%nat then __rmqueue_smallest order MIGRATE_CMA z else Ret (None, z))
              = Ret (None, z) /\ forall o m, (order <= o < MAX_ORDER)%nat ->
                  m ∈ (if (mt =? MIGRATE_MOVABLE)%nat then [MIGRATE_CMA] else []) -> fl z o m = []))
    as [(p & z' & -> & T)|[-> H2]]; cbn [obind].
  { assert (own_type z MIGRATE_CMA = MIGRATE_CMA) as Eo by (unfold own_type; by destruct (z_movable_cma z)).
    destruct (Nat.eqb_spec mt MIGRATE_MOVABLE); [|right; split; [done|intros o m _ Hm; by apply elem_of_nil in Hm]].
    destruct (smallest_spec order MIGRATE_CMA z I Ho) as [[-> H2]|(p & o & z' & -> & _ & _ & _ & T)];
      [by apply Nat.ltb_lt| |]; rewrite Eo in *; [right|left; by exists p, z'].
    split; [done|]. intros o m Hlt Hm. apply list_elem_of_singleton in Hm as ->. by apply H2. }
  { right. by exists p, z', MIGRATE_CMA. }
  unfold __rmqueue_fallback.
  destruct (fallback_loop_spec md (MAX_ORDER - order) (MAX_ORDER - 1) order mt z I ltac:(unfold MAX_ORDER; lia)
              ltac:(lia) Hmt) as [[-> H3]|(p & o & m & z' & -> & _ & _ & _ & _ & T)].
  - left. split; [done|]. intros o m Hlt Hm. unfold searched_types in Hm.
    apply elem_of_cons in Hm as [->|Hm]; [by apply H1|].
    apply elem_of_app in Hm as [Hm|Hm]; [by apply H2|]. apply H3; [lia|done].
  - right. by exists p, z', mt.
Qed.

(** C19: __rmqueue on a consistent zone never leaves a list, a page or the
    pageblock bitmap: it returns NULL and changes nothing only when every list
    it may take from (its own, CMA for movable requests, the fallback types)
    is empty from the requested order up, and otherwise returns a block that
    was free and takes exactly that block out of the free pages. *)
Theorem rmqueue_correct md order mt z :
  buddy_inv z -> (order < MAX_ORDER)%nat -> (mt < MIGRATE_PCPTYPES)%nat ->
  (__rmqueue md order mt z = Ret (None, z)
   /\ forall o m, (order <= o < MAX_ORDER)%nat -> m ∈ searched_types z mt -> fl z o m = [])
  \/ exists p z' mt', __rmqueue md order mt z = Ret (Some p, z') /\ taken z z' p order mt'.
Proof. apply rmqueue_spec. Qed.

(** C20: a block that __rmqueue handed out can be freed again, and freeing it
    restores the set of free page frames. *)
Theorem rmqueue_free_roundtrip md order mt fmt z p z1 :
  buddy_inv z -> (order < MAX_ORDER)%nat -> (mt < MIGRATE_PCPTYPES)%nat -> (fmt < MIGRATE_TYPES)%nat ->
  __rmqueue md order mt z = Ret (Some p, z1) ->
  exists z2, __free_one_page p p order fmt z1 = Ret z2 /\ buddy_inv z2
    /\ (forall a, free_at z2 a <-> free_at z a).
Proof.
  intros I Ho Hmt Hf E.
  destruct (rmqueue_spec md order mt z I Ho Hmt) as [[E' _]|(p' & z' & mt' & E' & T)];
    rewrite E in E'; [done|]. injection E' as <- <-.
  destruct (free_block_spec p order fmt z1 (tk_inv _ _ _ _ _ T) (tk_out _ _ _ _ _ T) Ho Hf)
    as (z2 & E2 & I2 & F2 & _).
  exists z2. split_and!; try done. intros a. rewrite F2, (tk_free _ _ _ _ _ T). split.
  - intros [[? _]|Ha]; [done|]. by apply (tk_was _ _ _ _ _ T).
  - intros Ha. destruct (decide (p <= a < p + blk order)); auto.
Qed.

(** ** Instances at a concrete zone *)

(** One pageblock at 1 GiB, nothing free yet. *)
Definition demo_page : page := mk_page (-1) 0 0 0.
Definition demo_pages : gset Z := list_to_set (seqZ 262144 1024).
Definition empty_zone : zone :=
  mk_zone 0 262144 1024 false 0 [0] 0 0
    (replicate MAX_ORDER (mk_area (replicate MIGRATE_TYPES []) 0))
    (gset_to_gmap demo_page demo_pages).

Lemma empty_map a pg : z_mem_map empty_zone !! a = Some pg <-> 262144 <= a < 263168 /\ pg = demo_page.
Proof.
  simpl. rewrite lookup_gset_to_gmap_Some. unfold demo_pages. rewrite elem_of_list_to_set, elem_of_seqZ.
  split; intros [H ->]; (split; [lia|done]).
Qed.

Lemma empty_fl o m : fl empty_zone o m = [].
Proof.
  unfold fl. simpl z_free_area. destruct (_ !! o) as [a|] eqn:E; [|done].
  apply (lookup_replicate MAX_ORDER (mk_area (replicate MIGRATE_TYPES []) 0)) in E as [-> _].
  simpl fa_free_list. destruct (_ !! m) as [l|] eqn:E'; [|done].
  by apply (lookup_replicate MIGRATE_TYPES []) in E' as [-> _].
Qed.

Lemma empty_zone_inv : buddy_inv empty_zone.
Proof.
  assert (forall a, is_Some (z_mem_map empty_zone !! a) <-> 262144 <= a < 263168) as Hs.
  { intros a. split; [intros [pg H]; by apply empty_map in H as [? _]|]. intros H. exists demo_page. by apply empty_map. }
  assert (forall a, zone_spans_pfn empty_zone a = true <-> 262144 <= a < 263168) as Hz.
  { intros a. unfold zone_spans_pfn. simpl. change (u32 (262144 + 1024)) with 263168. lia. }
  split; try (intros *; rewrite !empty_fl; intros H; by apply elem_of_nil in H).
  - split; [done|]. intros o a E. by apply (lookup_replicate MAX_ORDER (mk_area (replicate MIGRATE_TYPES []) 0)) in E as [-> _].
  - intros p pg H. apply empty_map in H as [_ ->]. done.
  - intros o m. rewrite empty_fl. constructor.
  - intros o Ho. unfold nr, list_total. rewrite !empty_fl. destruct (_ !! o) as [a|] eqn:E; [|done].
    by apply (lookup_replicate MAX_ORDER (mk_area (replicate MIGRATE_TYPES []) 0)) in E as [-> _].
  - intros p H. apply Hs in H. split; [unfold MAX_PFN; lia|]. intros q Hq. apply Hs.
    change pageblock_nr_pages with 1024 in Hq.
    pose proof (Z.div_mod p 1024 ltac:(lia)). pose proof (Z.mod_pos_bound p 1024 ltac:(lia)).
    pose proof (Z.div_mod q 1024 ltac:(lia)). pose proof (Z.mod_pos_bound q 1024 ltac:(lia)). lia.
  - intros p pg H. apply empty_map in H as [H ->]. simpl. split; [intros _; by apply Hz|done].
  - intros p H _. apply Hs in H. unfold pfn_to_bitidx. simpl z_start_pfn.
    change (Z.land 262144 (u32 (Z.lnot (pageblock_nr_pages - 1)))) with 262144.
    rewrite (u32_small (p - 262144)) by (unfold U32_MAX; lia). rewrite Z.shiftr_div_pow2 by done.
    rewrite (Z.div_small (p - 262144)); [by apply Nat.ltb_lt|]. change (2 ^ Z.of_nat pageblock_order) with 1024. lia.
Qed.

Lemma empty_outside p o : (blk o | p) -> 262144 <= p -> p + blk o <= 263168 -> outside empty_zone p o.
Proof.
  intros Hd H1 H2. split; [split; [done|]|].
  - intros a Ha. exists demo_page. split; [|done]. apply empty_map. split; [lia|done].
  - intros a _ (o' & m & q & Hq & _). rewrite empty_fl in Hq. by apply elem_of_nil in Hq.
Qed.

Lemma free_one_page_exact_witness :
  exists z', __free_one_page 262147 262147 0 MIGRATE_MOVABLE empty_zone = Ret z' /\ buddy_inv z'
    /\ (forall a, free_at z' a <-> free_at empty_zone a \/ 262147 <= a < 262147 + blk 0)
    /\ (exists q o', q ∈ fl z' o' MIGRATE_MOVABLE /\ (0 <= o')%nat /\ q <= 262147 /\ 262147 + blk 0 <= q + blk o')
    /\ (coalesced empty_zone -> coalesced z') /\ same_rest empty_zone z'
    /\ freed_vmstat 0 MIGRATE_MOVABLE empty_zone z'.
Proof.
  apply (free_one_page_exact 262147 0 MIGRATE_MOVABLE empty_zone).
  - exact empty_zone_inv.
  - apply empty_outside; [exists 262147; reflexivity|lia|vm_compute; discriminate].
  - by apply Nat.ltb_lt.
  - by apply Nat.ltb_lt.
Defined.

(** The zone with its only block of order 10 free. *)
Definition full_zone : zone :=
  ret_or empty_zone (__free_one_page 262144 262144 10 MIGRATE_MOVABLE empty_zone).

Lemma full_zone_spec : buddy_inv full_zone /\ fl full_zone 10 MIGRATE_MOVABLE <> [].
Proof.
  destruct (free_block_spec 262144 10 MIGRATE_MOVABLE empty_zone empty_zone_inv)
    as (z & E & I & _ & (q & o & Hq & Ho & _) & _).
  - apply empty_outside; [exists 256; reflexivity|lia|vm_compute; discriminate].
  - by apply Nat.ltb_lt.
  - by apply Nat.ltb_lt.
  - unfold full_zone. rewrite E. cbn [ret_or]. split; [exact I|].
    destruct (fl_bounds _ _ _ _ (bi_shape _ I) Hq) as [Ho' _].
    assert (o = 10%nat) as -> by (unfold MAX_ORDER in Ho'; lia). intros Hn. rewrite Hn in Hq. by apply elem_of_nil in Hq.
Qed.

Lemma rmqueue_smallest_correct_witness :
  (__rmqueue_smallest 3 MIGRATE_MOVABLE full_zone = Ret (None, full_zone)
   /\ forall o, (3 <= o < MAX_ORDER)%nat -> fl full_zone o (own_type full_zone MIGRATE_MOVABLE) = [])
  \/ exists p o z', __rmqueue_smallest 3 MIGRATE_MOVABLE full_zone = Ret (Some p, z')
       /\ (3 <= o < MAX_ORDER)%nat /\ head (fl full_zone o (own_type full_zone MIGRATE_MOVABLE)) = Some p
       /\ (forall o', (3 <= o' < o)%nat -> fl full_zone o' (own_type full_zone MIGRATE_MOVABLE) = [])
       /\ taken full_zone z' p 3 (own_type full_zone MIGRATE_MOVABLE).
Proof.
  apply (rmqueue_smallest_correct 3 MIGRATE_MOVABLE full_zone);
    [exact (proj1 full_zone_spec)|by apply Nat.ltb_lt|by apply Nat.ltb_lt].
Defined.

Lemma rmqueue_correct_witness :
  (__rmqueue false 3 MIGRATE_UNMOVABLE full_zone = Ret (None, full_zone)
   /\ forall o m, (3 <= o < MAX_ORDER)%nat -> m ∈ searched_types full_zone MIGRATE_UNMOVABLE -> fl full_zone o m = [])
  \/ exists p z' mt', __rmqueue false 3 MIGRATE_UNMOVABLE full_zone = Ret (Some p, z')
       /\ taken full_zone z' p 3 mt'.
Proof.
  apply (rmqueue_correct false 3 MIGRATE_UNMOVABLE full_zone);
    [exact (proj1 full_zone_spec)|by apply Nat.ltb_lt|by apply Nat.ltb_lt].
Defined.

(** An unmovable request is served from the movable block. *)
Lemma rmqueue_free_roundtrip_witness :
  exists p z1, __rmqueue false 3 MIGRATE_UNMOVABLE full_zone = Ret (Some p, z1) /\
  exists z2, __free_one_page p p 3 MIGRATE_UNMOVABLE z1 = Ret z2 /\ buddy_inv z2
    /\ (forall a, free_at z2 a <-> free_at full_zone a).
Proof.
  assert (3 < MAX_ORDER)%nat as H3 by (by apply Nat.ltb_lt).
  assert (MIGRATE_UNMOVABLE < MIGRATE_PCPTYPES)%nat as H0 by (by apply Nat.ltb_lt).
  destruct (rmqueue_spec false 3 MIGRATE_UNMOVABLE full_zone (proj1 full_zone_spec) H3 H0)
    as [[_ H]|(p & z1 & mt & E & _)].
  - assert (fl full_zone 10 MIGRATE_MOVABLE = []) as Hnil.
    { apply H; [unfold MAX_ORDER; lia|]. unfold searched_types.
      apply elem_of_cons. right. apply elem_of_app. right. apply elem_of_cons. right. by apply list_elem_of_singleton. }
    by destruct (proj2 full_zone_spec).
  - exists p, z1. split; [exact E|].
    apply (rmqueue_free_roundtrip false 3 MIGRATE_UNMOVABLE MIGRATE_UNMOVABLE full_zone p z1);
      [exact (proj1 full_zone_spec)|exact H3|exact H0|by apply Nat.ltb_lt|exact E].
Defined.
