(* ===== verification/PageCounter.v ===== *)
(** * Hierarchical page counters (mm/page_counter.c)

    The counters behind the memory cgroup limits.  A counter is a node of a
    tree; charging walks from it to the root.  This file has the functions one
    caller at a time sees; [PageCounterRace] interleaves them. *)
From Stdlib Require Import ZArith Lia Bool.
From stdpp Require Import base numbers list gmap.
From S2P Require Import Prelude.

(** [struct page_counter]; pointers are numbers.  [count] is an
    [atomic_long_t], the other numbers are [unsigned long]. *)
Record page_counter := mk_counter {
  pc_count : Z;
  pc_limit : Z;
  pc_parent : option nat;
  pc_watermark : Z;
  pc_failcnt : Z
}.

Abbreviation heap := (gmap nat page_counter).

Definition PAGE_COUNTER_MAX : Z := LONG_MAX.

Definition load (h : heap) (c : nat) : outcome page_counter :=
  match h !! c with Some p => Ret p | None => Ub end.

(** [page_counter_init] leaves the legacy fields as they are. *)
Definition page_counter_init (c : nat) (parent : option nat) (h : heap) : outcome heap :=
  let* p := load h c in
  Ret (<[c := mk_counter 0 PAGE_COUNTER_MAX parent (pc_watermark p) (pc_failcnt p)]> h).

Definition page_counter_read (h : heap) (c : nat) : outcome Z :=
  let* p := load h c in Ret (u32 (pc_count p)).

(** One node of the loops.  [new] is a [long]; compared with an
    [unsigned long] it is converted to one. *)
Definition cancel_node (n : Z) (p : page_counter) : page_counter :=
  mk_counter (s32 (pc_count p - n)) (pc_limit p) (pc_parent p) (pc_watermark p) (pc_failcnt p).

Definition charge_node (n : Z) (p : page_counter) : page_counter :=
  let new := s32 (pc_count p + n) in
  mk_counter new (pc_limit p) (pc_parent p)
    (if pc_watermark p <? u32 new then u32 new else pc_watermark p) (pc_failcnt p).

Definition over_limit (n : Z) (p : page_counter) : bool := pc_limit p <? u32 (s32 (pc_count p + n)).

Definition refuse_node (n : Z) (p : page_counter) : page_counter :=
  mk_counter (s32 (s32 (pc_count p + n) - n)) (pc_limit p) (pc_parent p) (pc_watermark p)
    (u32 (pc_failcnt p + 1)).

Definition page_counter_cancel (c : nat) (n : Z) (h : heap) : outcome heap :=
  let* p := load h c in Ret (<[c := cancel_node n p]> h).

Fixpoint page_counter_charge (fuel : nat) (c : option nat) (n : Z) (h : heap) : outcome heap :=
  match fuel, c with
  | _, None => Ret h
  | O, _ => Fuel
  | S fuel', Some c =>
      let* p := load h c in
      page_counter_charge fuel' (pc_parent p) n (<[c := charge_node n p]> h)
  end.

Fixpoint page_counter_uncharge (fuel : nat) (c : option nat) (n : Z) (h : heap) : outcome heap :=
  match fuel, c with
  | _, None => Ret h
  | O, _ => Fuel
  | S fuel', Some c =>
      let* p := load h c in
      let* h1 := page_counter_cancel c n h in
      page_counter_uncharge fuel' (pc_parent p) n h1
  end.

(** The charging loop; [Some f] is the counter that hit its limit. *)
Fixpoint try_charge_loop (fuel : nat) (c : option nat) (n : Z) (h : heap) : outcome (option nat * heap) :=
  match fuel, c with
  | _, None => Ret (None, h)
  | O, _ => Fuel
  | S fuel', Some c =>
      let* p := load h c in
      if over_limit n p then Ret (Some c, <[c := refuse_node n p]> h)
      else try_charge_loop fuel' (pc_parent p) n (<[c := charge_node n p]> h)
  end.

(** [for (c = counter; c != *fail; c = c->parent) page_counter_cancel (c, n)]; walking
    past the root would dereference NULL. *)
Fixpoint cancel_until (fuel : nat) (c : option nat) (fail : nat) (n : Z) (h : heap) : outcome heap :=
  match fuel with
  | O => Fuel
  | S fuel' =>
      match c with
      | None => Ub
      | Some c =>
          if (c =? fail)%nat then Ret h
          else
            let* p := load h c in
            let* h1 := page_counter_cancel c n h in
            cancel_until fuel' (pc_parent p) fail n h1
      end
  end.

(** Returns the result and [*fail]. *)
Definition page_counter_try_charge (fuel : nat) (c : nat) (n : Z) (h : heap)
    : outcome (bool * option nat * heap) :=
  let* (fail, h1) := try_charge_loop fuel (Some c) n h in
  match fail with
  | None => Ret (true, None, h1)
  | Some f => let* h2 := cancel_until fuel (Some c) f n h1 in Ret (false, Some f, h2)
  end.

(** [page_counter_limit] without interference: the second read sees the same
    count, so the loop body runs once. *)
Definition page_counter_limit (c : nat) (limit : Z) (h : heap) : outcome (Z * heap) :=
  let* p := load h c in
  if limit <? u32 (pc_count p) then Ret (- EBUSY, h)
  else Ret (0, <[c := mk_counter (pc_count p) limit (pc_parent p) (pc_watermark p) (pc_failcnt p)]> h).

Definition page_counter_reset_watermark (c : nat) (h : heap) : outcome heap :=
  let* p := load h c in
  Ret (<[c := mk_counter (pc_count p) (pc_limit p) (pc_parent p) (u32 (pc_count p)) (pc_failcnt p)]> h).

(** ** The path to the root *)

Fixpoint chain (h : heap) (c : option nat) (l : list nat) : Prop :=
  match c, l with
  | None, [] => True
  | Some c, d :: l' => c = d /\ exists p, h !! c = Some p /\ chain h (pc_parent p) l'
  | _, _ => False
  end.

(** Only the parent pointers matter. *)
Definition same_tree (h h' : heap) : Prop := forall c, pc_parent <$> (h' !! c) = pc_parent <$> (h !! c).

Lemma chain_same h h' c l : same_tree h h' -> chain h c l -> chain h' c l.
Proof.
  intros Ht. revert c. induction l as [|d l IH]; intros [c|] H; try done.
  destruct H as (-> & p & Hp & Hl). split; [done|]. specialize (Ht d). rewrite Hp in Ht.
  destruct (h' !! d) as [p'|]; [|done]. injection Ht as Ht. exists p'. split; [done|]. rewrite Ht. by apply IH.
Qed.

Lemma same_tree_insert h c p p' : h !! c = Some p -> pc_parent p' = pc_parent p -> same_tree h (<[c := p']> h).
Proof.
  intros Hp Hpar d. destruct (decide (d = c)) as [->|]; [rewrite lookup_insert_eq, Hp; simpl; by f_equal|].
  by rewrite lookup_insert_ne.
Qed.

(** A path along parent pointers never meets a counter twice. *)
Section Paths.
Context (parent : nat -> option nat).

Fixpoint is_path (c : option nat) (l : list nat) : Prop :=
  match c, l with
  | None, [] => True
  | Some c, d :: l' => c = d /\ is_path (parent c) l'
  | _, _ => False
  end.

Lemma is_path_det c l l' : is_path c l -> is_path c l' -> l = l'.
Proof.
  revert c l'. induction l as [|d l IH]; intros [c|] [|d' l']; try done.
  intros (-> & H1) (-> & H2). f_equal. eauto.
Qed.

Lemma is_path_suffix c l l2 d : is_path c (l ++ d :: l2) -> is_path (Some d) (d :: l2).
Proof.
  revert c. induction l as [|e l IH]; intros [c|] H; try done.
  - destruct H as (-> & H). by split.
  - destruct H as (-> & H). by eapply IH.
Qed.

Lemma is_path_nodup c l : is_path c l -> NoDup l.
Proof.
  revert c. induction l as [|d l IH]; intros c H; [constructor|]. apply NoDup_cons. split.
  - intros Hin. apply list_elem_of_split in Hin as (l1 & l2 & ->).
    pose proof (is_path_suffix c [] (l1 ++ d :: l2) d H) as H1.
    pose proof (is_path_suffix c (d :: l1) l2 d H) as H2.
    pose proof (is_path_det _ _ _ H1 H2) as E. apply (f_equal length) in E.
    rewrite !length_cons, length_app, length_cons in E. lia.
  - destruct c as [c|]; [|done]. destruct H as (_ & H). by eapply IH.
Qed.
End Paths.

Lemma chain_is_path h c l : chain h c l -> is_path (fun d => h !! d ≫= pc_parent) c l.
Proof.
  revert c. induction l as [|d l IH]; intros [c|] H; try done.
  destruct H as (-> & p & Hp & H). split; [done|]. rewrite Hp. by apply IH.
Qed.

Lemma chain_nodup h c l : chain h c l -> NoDup l.
Proof. intros H. by eapply is_path_nodup, chain_is_path. Qed.

(** ** What the walks do *)

(** [f] applied to every counter of [l]. *)
Definition update (f : page_counter -> page_counter) (l : list nat) (h h' : heap) : Prop :=
  forall d, h' !! d = (if bool_decide (d ∈ l) then f <$> (h !! d) else h !! d).

Definition keeps_parent (f : page_counter -> page_counter) : Prop := forall p, pc_parent (f p) = pc_parent p.

Lemma update_nil f h : update f [] h h.
Proof. intros d. by rewrite bool_decide_eq_false_2 by apply not_elem_of_nil. Qed.

Lemma update_cons f c l p h h' : c ∉ l -> h !! c = Some p -> update f l (<[c := f p]> h) h' ->
  update f (c :: l) h h'.
Proof.
  intros Hc Hp H d. rewrite H. destruct (decide (d = c)) as [->|Hne].
  - rewrite bool_decide_eq_false_2 by done. rewrite bool_decide_eq_true_2 by (apply elem_of_cons; auto).
    rewrite lookup_insert_eq, Hp. done.
  - rewrite lookup_insert_ne by done.
    by rewrite (bool_decide_ext (d ∈ c :: l) (d ∈ l)) by (rewrite elem_of_cons; tauto).
Qed.

Lemma chain_step h c p l f : keeps_parent f -> h !! c = Some p -> chain h (pc_parent p) l ->
  chain (<[c := f p]> h) (pc_parent p) l.
Proof. intros Hk Hp Hl. apply (chain_same h); [|done]. by eapply same_tree_insert. Qed.

Lemma charge_walk fuel c n l h : chain h c l -> (length l <= fuel)%nat ->
  exists h', page_counter_charge fuel c n h = Ret h' /\ update (charge_node n) l h h'.
Proof.
  revert c l h. induction fuel as [|fuel IH]; intros [c|] [|d l] h H Hf; try done; simpl in Hf.
  - lia.
  - exists h. split; [done|apply update_nil].
  - pose proof (chain_nodup _ _ _ H) as Hnd. apply NoDup_cons in Hnd as [Hd _].
    destruct H as (-> & p & Hp & Hl). cbn [page_counter_charge]. unfold load. rewrite Hp. cbn [obind].
    destruct (IH (pc_parent p) l (<[d := charge_node n p]> h)) as (h' & E & U); [by apply chain_step|lia|].
    exists h'. split; [done|]. by eapply update_cons.
  - exists h. split; [done|apply update_nil].
Qed.

Lemma uncharge_walk fuel c n l h : chain h c l -> (length l <= fuel)%nat ->
  exists h', page_counter_uncharge fuel c n h = Ret h' /\ update (cancel_node n) l h h'.
Proof.
  revert c l h. induction fuel as [|fuel IH]; intros [c|] [|d l] h H Hf; try done; simpl in Hf.
  - lia.
  - exists h. split; [done|apply update_nil].
  - pose proof (chain_nodup _ _ _ H) as Hnd. apply NoDup_cons in Hnd as [Hd _].
    destruct H as (-> & p & Hp & Hl). cbn [page_counter_uncharge]. unfold page_counter_cancel, load.
    rewrite Hp. cbn [obind].
    destruct (IH (pc_parent p) l (<[d := cancel_node n p]> h)) as (h' & E & U); [by apply chain_step|lia|].
    exists h'. split; [done|]. by eapply update_cons.
  - exists h. split; [done|apply update_nil].
Qed.

(** Where a charge of [n] is stopped on the path [l]. *)
Definition stops_at (h : heap) (n : Z) (pre : list nat) (f : nat) : Prop :=
  (forall d p, d ∈ pre -> h !! d = Some p -> over_limit n p = false)
  /\ exists p, h !! f = Some p /\ over_limit n p = true.

Lemma try_loop_walk fuel c n l h : chain h c l -> (length l <= fuel)%nat ->
  (exists h', try_charge_loop fuel c n h = Ret (None, h') /\ update (charge_node n) l h h'
     /\ forall d p, d ∈ l -> h !! d = Some p -> over_limit n p = false)
  \/ exists pre f post p h' h1, l = pre ++ f :: post /\ try_charge_loop fuel c n h = Ret (Some f, h')
     /\ h !! f = Some p /\ stops_at h n pre f
     /\ update (charge_node n) pre h h1 /\ h' = <[f := refuse_node n p]> h1.
Proof.
  revert c l h. induction fuel as [|fuel IH]; intros [c|] [|d l] h H Hf; try done; simpl in Hf.
  - lia.
  - left. exists h. split_and!; [done|apply update_nil|]. intros e p He. by apply elem_of_nil in He.
  - pose proof (chain_nodup _ _ _ H) as Hnd. apply NoDup_cons in Hnd as [Hd _].
    destruct H as (-> & p & Hp & Hl). cbn [try_charge_loop]. unfold load. rewrite Hp. cbn [obind].
    destruct (over_limit n p) eqn:Eo.
    + right. exists [], d, l, p, (<[d := refuse_node n p]> h), h. split_and!; try done; try apply update_nil.
      split; [intros e q He; by apply elem_of_nil in He|eauto].
    + assert (forall e q, e ∈ l -> h !! e = Some q <-> (<[d := charge_node n p]> h) !! e = Some q) as Hsame.
      { intros e q He. rewrite lookup_insert_ne; [done|]. intros <-. done. }
      destruct (IH (pc_parent p) l (<[d := charge_node n p]> h)) as [(h' & E & U & Hok)|
        (pre & f & post & q & h' & h1 & -> & E & Hq & [Hs1 Hs2] & U & ->)]; [by apply chain_step|lia| |].
      * left. exists h'. split_and!; [done|by eapply update_cons|]. intros e q He Hq.
        apply elem_of_cons in He as [->|He]; [congruence|]. apply Hsame in Hq; [|done]. by eapply Hok.
      * right. assert (f <> d) as Hfd by (intros ->; apply Hd; set_solver).
        exists (d :: pre), f, post, q, (<[f := refuse_node n q]> h1), h1.
        rewrite lookup_insert_ne in Hq by done. split_and!; try done.
        -- split.
           ++ intros e r He Hr. apply elem_of_cons in He as [->|He]; [congruence|].
              eapply Hs1; [done|]. apply Hsame; [set_solver|done].
           ++ destruct Hs2 as (r & Hr & ?). rewrite lookup_insert_ne in Hr by done. eauto.
        -- eapply update_cons; [|done|done]. set_solver.
  - left. exists h. split_and!; [done|apply update_nil|]. intros e p He. by apply elem_of_nil in He.
Qed.

Lemma cancel_until_walk fuel c f n pre post h :
  chain h c (pre ++ f :: post) -> (length pre < fuel)%nat ->
  exists h', cancel_until fuel c f n h = Ret h' /\ update (cancel_node n) pre h h'.
Proof.
  revert c pre h. induction fuel as [|fuel IH]; intros c pre h H Hf; [lia|].
  pose proof (chain_nodup _ _ _ H) as Hnd. destruct c as [c|]; [|by destruct pre].
  cbn [cancel_until]. destruct pre as [|d pre].
  - destruct H as (-> & _). rewrite Nat.eqb_refl. exists h. split; [done|apply update_nil].
  - simpl in Hnd, Hf. apply NoDup_cons in Hnd as [Hd Hnd]. destruct H as (-> & p & Hp & Hl).
    destruct (Nat.eqb_spec d f) as [->|Hne]; [exfalso; apply Hd; set_solver|].
    unfold page_counter_cancel, load. rewrite Hp. cbn [obind].
    destruct (IH (pc_parent p) pre (<[d := cancel_node n p]> h)) as (h' & E & U); [by apply chain_step|lia|].
    exists h'. split; [done|]. eapply update_cons; [set_solver|done|done].
Qed.

(** ** Properties *)

Definition long_range (p : page_counter) : Prop := - 2 ^ 31 <= pc_count p < 2 ^ 31.

(** Adding and taking back leaves a [long] as it was, whether or not it
    wrapped in between. *)
Lemma charge_back x n : - 2 ^ 31 <= x < 2 ^ 31 -> s32 (s32 (x + n) - n) = x.
Proof.
  intros H. rewrite <- Z.add_opp_r, swrap_swrap_add by lia. replace (x + n + - n) with x by lia.
  by apply s32_small.
Qed.

Lemma update_elem f l h h' d p : update f l h h' -> h !! d = Some p ->
  h' !! d = Some (if bool_decide (d ∈ l) then f p else p).
Proof. intros U Hp. rewrite U, Hp. by case_bool_decide. Qed.

Lemma update_tree f l h h' : keeps_parent f -> update f l h h' -> same_tree h h'.
Proof.
  intros Hk U d. rewrite U. case_bool_decide; [|done]. destruct (h !! d) as [p|]; [|done]. simpl. by rewrite Hk.
Qed.

(** What a refused charge leaves of a counter: only the legacy fields move. *)
Definition undisturbed (p p' : page_counter) : Prop :=
  pc_count p' = pc_count p /\ pc_limit p' = pc_limit p /\ pc_parent p' = pc_parent p
  /\ pc_watermark p <= pc_watermark p'.

Lemma try_charge_spec fuel c n l h :
  chain h (Some c) l -> (length l <= fuel)%nat -> (forall d p, h !! d = Some p -> long_range p) ->
  (exists h', page_counter_try_charge fuel c n h = Ret (true, None, h') /\ update (charge_node n) l h h'
     /\ forall d p, d ∈ l -> h !! d = Some p -> over_limit n p = false)
  \/ exists pre f post h', l = pre ++ f :: post
     /\ page_counter_try_charge fuel c n h = Ret (false, Some f, h') /\ stops_at h n pre f
     /\ (forall d, h !! d = None -> h' !! d = None)
     /\ forall d p, h !! d = Some p -> exists p', h' !! d = Some p' /\ undisturbed p p'
          /\ pc_failcnt p' = (if bool_decide (d = f) then u32 (pc_failcnt p + 1) else pc_failcnt p).
Proof.
  intros Hc Hf Hlong. unfold page_counter_try_charge.
  destruct (try_loop_walk fuel (Some c) n l h Hc Hf) as [(h' & -> & U & Hok)|
    (pre & f & post & q & h' & h1 & -> & -> & Hq & Hs & U & ->)]; cbn [obind]; [left; by exists h'|right].
  assert (keeps_parent (charge_node n)) as Hk by done.
  assert (f ∉ pre) as Hfp.
  { pose proof (chain_nodup _ _ _ Hc) as Hnd. apply NoDup_app in Hnd as (_ & Hdis & _). intros Hin.
    apply (Hdis f Hin). apply elem_of_cons. by left. }
  assert (h1 !! f = Some q) as Hq1 by (rewrite U; by rewrite bool_decide_eq_false_2).
  destruct (cancel_until_walk fuel (Some c) f n pre post (<[f := refuse_node n q]> h1)) as (h2 & -> & U2).
  { apply (chain_same h1); [by eapply same_tree_insert|]. apply (chain_same h); [by eapply update_tree|done]. }
  { rewrite length_app in Hf. simpl in Hf. lia. }
  cbn [obind]. exists pre, f, post, h2. split_and!; try done.
  - intros d Hd. rewrite U2. destruct (decide (d = f)) as [->|]; [congruence|].
    rewrite lookup_insert_ne, U, Hd by done. by repeat case_bool_decide.
  - unfold undisturbed. intros d p Hp. rewrite U2. destruct (decide (d = f)) as [->|Hne].
    + rewrite Hq in Hp. injection Hp as <-. rewrite bool_decide_eq_false_2, lookup_insert_eq by done.
      eexists. split; [done|]. rewrite bool_decide_eq_true_2 by done. split; [|done].
      split_and!; try done; simpl; try lia. apply charge_back. by eapply Hlong.
    + rewrite lookup_insert_ne, U, Hp by done. rewrite (bool_decide_eq_false_2 (d = f)) by done.
      case_bool_decide; simpl; eexists; (split; [done|]); (split; [|done]); split_and!; try done; simpl; try lia.
      * apply charge_back. by eapply Hlong.
      * cmp; lia.
Qed.

(** C21: page_counter_try_charge is all or nothing.  It returns true exactly
    when no counter on the path to the root would go over its limit, and has
    then charged every one of them and nothing else; otherwise it reports the
    first counter that would, counts one failure there, and leaves every count
    and limit of the tree as it was. *)
Theorem try_charge_all_or_nothing fuel c n l h :
  chain h (Some c) l -> (length l <= fuel)%nat -> (forall d p, h !! d = Some p -> long_range p) ->
  (exists h', page_counter_try_charge fuel c n h = Ret (true, None, h') /\ update (charge_node n) l h h'
     /\ forall d p, d ∈ l -> h !! d = Some p -> over_limit n p = false)
  \/ exists pre f post h', l = pre ++ f :: post
     /\ page_counter_try_charge fuel c n h = Ret (false, Some f, h') /\ stops_at h n pre f
     /\ (forall d, h !! d = None -> h' !! d = None)
     /\ forall d p, h !! d = Some p -> exists p', h' !! d = Some p' /\ undisturbed p p'
          /\ pc_failcnt p' = (if bool_decide (d = f) then u32 (pc_failcnt p + 1) else pc_failcnt p).
Proof. apply try_charge_spec. Qed.

(** a successful charge respects every limit on the path in true numbers:
    as long as count and charge stay below 2^32 together and limits are at most
    PAGE_COUNTER_MAX, the new count is the sum and is at most the limit, so the
    signed counter has not wrapped. *)
Theorem try_charge_within_limits fuel c n l h h' d p :
  chain h (Some c) l -> (length l <= fuel)%nat ->
  (forall e q, h !! e = Some q -> long_range q) ->
  page_counter_try_charge fuel c n h = Ret (true, None, h') ->
  d ∈ l -> h !! d = Some p -> 0 <= pc_count p -> 0 <= n -> pc_count p + n < 2 ^ 32 ->
  pc_limit p <= PAGE_COUNTER_MAX ->
  exists p', h' !! d = Some p' /\ pc_count p' = pc_count p + n /\ pc_count p' <= pc_limit p.
Proof.
  intros Hc Hf Hlong E Hd Hp H0 Hn Hlt Hmax.
  destruct (try_charge_spec fuel c n l h Hc Hf Hlong) as [(h2 & E2 & U & Hok)|
    (pre & f & post & h2 & _ & E2 & _)]; rewrite E in E2; [|done]. injection E2 as <-.
  exists (charge_node n p). rewrite (update_elem _ _ _ _ _ _ U Hp), bool_decide_eq_true_2 by done.
  specialize (Hok d p Hd Hp). unfold over_limit in Hok. apply Z.ltb_ge in Hok.
  rewrite wrap_swrap in Hok by lia. unfold PAGE_COUNTER_MAX, LONG_MAX in Hmax.
  rewrite u32_small in Hok by (unfold U32_MAX; lia).
  simpl. rewrite s32_small by lia. split_and!; [done|done|lia].
Qed.

(** uncharging what was charged, forced or not, restores every count and
    leaves limits and the tree alone. *)
Theorem charge_uncharge_roundtrip fuel c n l h :
  chain h (Some c) l -> (length l <= fuel)%nat -> (forall d p, h !! d = Some p -> long_range p) ->
  exists h1 h2, page_counter_charge fuel (Some c) n h = Ret h1
    /\ page_counter_uncharge fuel (Some c) n h1 = Ret h2
    /\ forall d p, h !! d = Some p -> exists p', h2 !! d = Some p' /\ undisturbed p p'
         /\ pc_failcnt p' = pc_failcnt p.
Proof.
  intros Hc Hf Hlong. destruct (charge_walk fuel (Some c) n l h Hc Hf) as (h1 & E1 & U1).
  assert (keeps_parent (charge_node n)) as Hk by done.
  destruct (uncharge_walk fuel (Some c) n l h1) as (h2 & E2 & U2); [|done|].
  { apply (chain_same h); [by eapply update_tree|done]. }
  unfold undisturbed. exists h1, h2. split_and!; try done. intros d p Hp.
  rewrite (update_elem _ _ _ _ _ _ U2 (update_elem _ _ _ _ _ _ U1 Hp)). eexists. split; [done|].
  case_bool_decide; simpl; (split; [|done]); split_and!; try done; simpl; try lia.
  - apply charge_back. by eapply Hlong.
  - cmp; lia.
Qed.

(** ** Instances at a concrete tree *)

(** A root with room for 1000 pages and a group below it with room for 100. *)
Definition demo_heap : heap :=
  <[1%nat := mk_counter 90 100 (Some 0%nat) 95 0]> {[0%nat := mk_counter 500 1000 None 600 2]}.

Lemma demo_chain : chain demo_heap (Some 1%nat) [1%nat; 0%nat].
Proof. split; [done|]. eexists. split; [done|]. split; [done|]. eexists. by split. Qed.

Lemma demo_long d p : demo_heap !! d = Some p -> long_range p.
Proof.
  unfold demo_heap, long_range. rewrite lookup_insert_Some, lookup_singleton_Some.
  intros [[_ <-]|[_ [_ <-]]]; simpl; lia.
Qed.

Lemma try_charge_all_or_nothing_witness :
  (exists h', page_counter_try_charge 5 1 20 demo_heap = Ret (true, None, h')
     /\ update (charge_node 20) [1%nat; 0%nat] demo_heap h'
     /\ forall d p, d ∈ [1%nat; 0%nat] -> demo_heap !! d = Some p -> over_limit 20 p = false)
  \/ exists pre f post h', [1%nat; 0%nat] = pre ++ f :: post
     /\ page_counter_try_charge 5 1 20 demo_heap = Ret (false, Some f, h') /\ stops_at demo_heap 20 pre f
     /\ (forall d, demo_heap !! d = None -> h' !! d = None)
     /\ forall d p, demo_heap !! d = Some p -> exists p', h' !! d = Some p' /\ undisturbed p p'
          /\ pc_failcnt p' = (if bool_decide (d = f) then u32 (pc_failcnt p + 1) else pc_failcnt p).
Proof.
  apply (try_charge_all_or_nothing 5 1 20 [1%nat; 0%nat] demo_heap);
    [exact demo_chain|simpl; lia|exact demo_long].
Defined.

Definition demo_charged : heap :=
  <[1%nat := mk_counter 100 100 (Some 0%nat) 100 0]> {[0%nat := mk_counter 510 1000 None 600 2]}.

Lemma try_charge_within_limits_witness :
  exists p', demo_charged !! 1%nat = Some p' /\ pc_count p' = 90 + 10 /\ pc_count p' <= 100.
Proof.
  apply (try_charge_within_limits 5 1 10 [1%nat; 0%nat] demo_heap demo_charged 1
           (mk_counter 90 100 (Some 0%nat) 95 0));
    [exact demo_chain|simpl; lia|exact demo_long|vm_compute; reflexivity|apply elem_of_cons; by left
    |reflexivity|simpl; lia|lia|simpl; lia|vm_compute; discriminate].
Defined.

Lemma charge_uncharge_roundtrip_witness :
  exists h1 h2, page_counter_charge 5 (Some 1%nat) 4000 demo_heap = Ret h1
    /\ page_counter_uncharge 5 (Some 1%nat) 4000 h1 = Ret h2
    /\ forall d p, demo_heap !! d = Some p -> exists p', h2 !! d = Some p' /\ undisturbed p p'
         /\ pc_failcnt p' = pc_failcnt p.
Proof.
  apply (charge_uncharge_roundtrip 5 1 4000 [1%nat; 0%nat] demo_heap);
    [exact demo_chain|simpl; lia|exact demo_long].
Defined.
