(* ===== verification/PageCounterRace.v ===== *)
(** * Page counters under concurrency (mm/page_counter.c)

    The counters are lockless.  Here every atomic access is a step of its own
    and any number of threads charge, uncharge and set limits in any order.
    The comments in the code promise that a charge racing with a new limit
    either sees that limit or makes the setter retry; this is the invariant
    proved here.  The watermark and the failure count are left out: the code
    says they are racy. *)
From Stdlib Require Import ZArith Lia Bool.
From stdpp Require Import base numbers list gmap relations.
From S2P Require Import Prelude PageCounter.

(** What a thread is doing.
    [Walk n ps rest]: in the loop of [page_counter_try_charge], past the
    counters [ps], about to add to the head of [rest].
    [Compare n new ps c rest]: added to [c], about to compare with its limit.
    [Undo n ps c]: over the limit of [c], about to subtract there.
    [Force n ps rest]: in the loop of [page_counter_charge].
    [Hold f n ps]: the charge stands on [ps] ([f]: it was forced).
    [Drop f n ps]: subtracting from [ps], as [page_counter_uncharge] and the
    failure path of [page_counter_try_charge] do. *)
Inductive thread :=
| Idle
| Walk (n : Z) (ps rest : list nat)
| Compare (n new : Z) (ps : list nat) (c : nat) (rest : list nat)
| Undo (n : Z) (ps : list nat) (c : nat)
| Force (n : Z) (ps rest : list nat)
| Hold (forced : bool) (n : Z) (ps : list nat)
| Drop (forced : bool) (n : Z) (ps : list nat).

(** The one caller of [page_counter_limit] a counter has at a time. *)
Inductive setter :=
| SIdle
| SRetry (limit : Z)
| SRead (limit count : Z)
| SSwapped (limit count old : Z).

(** A counter, its setter, and the limit the last call that returned 0 set, if
    no later call has touched the limit since. *)
Record counter := mk_ctr { k_count : Z; k_limit : Z; k_setter : setter; k_sealed : option Z }.

Record world := mk_world { w_ctrs : gmap nat counter; w_threads : list thread }.

Definition set_thread (i : nat) (t : thread) (w : world) : world :=
  mk_world (w_ctrs w) (<[i := t]> (w_threads w)).
Definition set_ctr (c : nat) (k : counter) (w : world) : world :=
  mk_world (<[c := k]> (w_ctrs w)) (w_threads w).
Definition add_count (n : Z) (k : counter) : counter :=
  mk_ctr (s32 (k_count k + n)) (k_limit k) (k_setter k) (k_sealed k).

Section Race.
(** The parent pointers, which do not change while there are charges. *)
Context (parent : nat -> option nat).

(** [page_counter_try_charge], [page_counter_charge] and
    [page_counter_uncharge]. *)
Inductive charge_step : world -> world -> Prop :=
| step_try w i c n l :
    w_threads w !! i = Some Idle -> is_path parent (Some c) l -> 0 <= n <= U32_MAX ->
    charge_step w (set_thread i (Walk n [] l) w)
| step_add w i n ps c rest k :
    w_threads w !! i = Some (Walk n ps (c :: rest)) -> w_ctrs w !! c = Some k ->
    charge_step w (set_thread i (Compare n (s32 (k_count k + n)) ps c rest) (set_ctr c (add_count n k) w))
| step_pass w i n new ps c rest k :
    w_threads w !! i = Some (Compare n new ps c rest) -> w_ctrs w !! c = Some k ->
    u32 new <= k_limit k ->
    charge_step w (set_thread i (Walk n (ps ++ [c]) rest) w)
| step_over w i n new ps c rest k :
    w_threads w !! i = Some (Compare n new ps c rest) -> w_ctrs w !! c = Some k ->
    k_limit k < u32 new ->
    charge_step w (set_thread i (Undo n ps c) w)
| step_undo w i n ps c k :
    w_threads w !! i = Some (Undo n ps c) -> w_ctrs w !! c = Some k ->
    charge_step w (set_thread i (Drop false n ps) (set_ctr c (add_count (- n) k) w))
| step_charged w i n ps :
    w_threads w !! i = Some (Walk n ps []) ->
    charge_step w (set_thread i (Hold false n ps) w)
| step_force w i c n l :
    w_threads w !! i = Some Idle -> is_path parent (Some c) l -> 0 <= n <= U32_MAX ->
    charge_step w (set_thread i (Force n [] l) w)
| step_force_add w i n ps c rest k :
    w_threads w !! i = Some (Force n ps (c :: rest)) -> w_ctrs w !! c = Some k ->
    charge_step w (set_thread i (Force n (ps ++ [c]) rest) (set_ctr c (add_count n k) w))
| step_forced w i n ps :
    w_threads w !! i = Some (Force n ps []) ->
    charge_step w (set_thread i (Hold true n ps) w)
| step_uncharge w i f n ps :
    w_threads w !! i = Some (Hold f n ps) ->
    charge_step w (set_thread i (Drop f n ps) w)
| step_cancel w i f n c ps k :
    w_threads w !! i = Some (Drop f n (c :: ps)) -> w_ctrs w !! c = Some k ->
    charge_step w (set_thread i (Drop f n ps) (set_ctr c (add_count (- n) k) w))
| step_dropped w i f n :
    w_threads w !! i = Some (Drop f n []) ->
    charge_step w (set_thread i Idle w).

(** [page_counter_limit]. *)
Inductive limit_step : world -> world -> Prop :=
| step_limit_read w c k limit :
    w_ctrs w !! c = Some k -> k_setter k = SIdle \/ k_setter k = SRetry limit ->
    0 <= limit <= U32_MAX -> u32 (k_count k) <= limit ->
    limit_step w (set_ctr c (mk_ctr (k_count k) (k_limit k) (SRead limit (k_count k)) (k_sealed k)) w)
| step_limit_busy w c k limit :
    w_ctrs w !! c = Some k -> k_setter k = SIdle \/ k_setter k = SRetry limit ->
    limit < u32 (k_count k) ->
    limit_step w (set_ctr c (mk_ctr (k_count k) (k_limit k) SIdle (k_sealed k)) w)
| step_limit_xchg w c k limit count :
    w_ctrs w !! c = Some k -> k_setter k = SRead limit count ->
    limit_step w (set_ctr c (mk_ctr (k_count k) limit (SSwapped limit count (k_limit k)) None) w)
| step_limit_done w c k limit count old :
    w_ctrs w !! c = Some k -> k_setter k = SSwapped limit count old -> k_count k <= count ->
    limit_step w (set_ctr c (mk_ctr (k_count k) (k_limit k) SIdle (Some limit)) w)
| step_limit_restore w c k limit count old :
    w_ctrs w !! c = Some k -> k_setter k = SSwapped limit count old -> count < k_count k ->
    limit_step w (set_ctr c (mk_ctr (k_count k) old (SRetry limit) None) w).

Definition step (w w' : world) : Prop := charge_step w w' \/ limit_step w w'.

(** ** What the threads have added to a counter *)

Definition at_counter (c : nat) (ps : list nat) (n : Z) : Z := if bool_decide (c ∈ ps) then n else 0.

(** Charges that passed the limit of [c] and stand or are being dropped. *)
Definition granted_by (c : nat) (t : thread) : Z :=
  match t with
  | Walk n ps _ | Hold false n ps | Drop false n ps | Undo n ps _ | Compare n _ ps _ _ => at_counter c ps n
  | _ => 0
  end.

(** Forced charges. *)
Definition forced_by (c : nat) (t : thread) : Z :=
  match t with
  | Force n ps _ | Hold true n ps | Drop true n ps => at_counter c ps n
  | _ => 0
  end.

(** Charges added to [c] whose comparison is still to come or has failed. *)
Definition pending_by (c : nat) (t : thread) : Z :=
  match t with
  | Compare n _ _ d _ | Undo n _ d => if bool_decide (c = d) then n else 0
  | _ => 0
  end.

(** Of those, the ones a limit of [limit] lets through. *)
Definition promised_by (limit : Z) (c : nat) (t : thread) : Z :=
  match t with
  | Compare n new _ d _ => if bool_decide (c = d /\ u32 new <= limit) then n else 0
  | _ => 0
  end.

Definition total (f : thread -> Z) (ts : list thread) : Z := foldr Z.add 0 (map f ts).

Definition granted (w : world) (c : nat) : Z := total (granted_by c) (w_threads w).
Definition usage (w : world) (c : nat) : Z :=
  total (fun t => granted_by c t + forced_by c t + pending_by c t) (w_threads w).

(** The counters are [long]s counting pages of at most 4 GiB of memory: the
    executions considered keep every sum of outstanding charges below 2^31. *)
Definition bounded (w : world) : Prop := forall c, usage w c < 2 ^ 31.

Definition bounded_step (w w' : world) : Prop := step w w' /\ bounded w'.

(** A thread's lists hold a counter at most once. *)
Definition wf_thread (t : thread) : Prop :=
  match t with
  | Idle => True
  | Walk n ps rest | Force n ps rest => 0 <= n /\ NoDup (ps ++ rest)
  | Compare n _ ps c rest => 0 <= n /\ NoDup (ps ++ c :: rest)
  | Undo n ps c => 0 <= n /\ NoDup (ps ++ [c])
  | Hold _ n ps | Drop _ n ps => 0 <= n /\ NoDup ps
  end.

Definition wf_setter (k : counter) : Prop :=
  match k_setter k with
  | SRead limit count => count <= limit /\ 0 <= limit
  | SSwapped limit count _ => count <= limit /\ k_limit k = limit /\ k_sealed k = None
  | _ => True
  end.

Record race_inv (w : world) : Prop := {
  ri_threads : forall i t, w_threads w !! i = Some t -> wf_thread t;
  ri_count : forall c k, w_ctrs w !! c = Some k -> k_count k = usage w c;
  ri_setter : forall c k, w_ctrs w !! c = Some k -> wf_setter k;
  ri_sealed : forall c k limit, w_ctrs w !! c = Some k -> k_sealed k = Some limit ->
    k_limit k = limit
    /\ total (fun t => granted_by c t + promised_by limit c t) (w_threads w) <= limit
}.

(** ** Sums over threads *)

Lemma total_insert f ts i t t' : ts !! i = Some t ->
  total f (<[i := t']> ts) = total f ts - f t + f t'.
Proof.
  revert i. induction ts as [|x ts IH]; intros i Hi; [done|].
  destruct i as [|i]; simpl in Hi.
  - injection Hi as ->. unfold total. simpl. lia.
  - specialize (IH i Hi). unfold total in *. simpl. lia.
Qed.

Lemma total_le f g ts : (forall i t, ts !! i = Some t -> f t <= g t) -> total f ts <= total g ts.
Proof.
  induction ts as [|x ts IH]; intros H; [done|]. unfold total in *. simpl.
  pose proof (H 0%nat x eq_refl). specialize (IH (fun i t Ht => H (S i) t Ht)). lia.
Qed.

Lemma total_nonneg f ts : (forall i t, ts !! i = Some t -> 0 <= f t) -> 0 <= total f ts.
Proof.
  induction ts as [|x ts IH]; intros H; [done|]. unfold total in *. simpl.
  pose proof (H 0%nat x eq_refl). specialize (IH (fun i t Ht => H (S i) t Ht)). lia.
Qed.

Lemma at_counter_range c ps n : 0 <= n -> 0 <= at_counter c ps n <= n.
Proof. intros H. unfold at_counter. case_bool_decide; lia. Qed.

Lemma wf_parts c limit t : wf_thread t ->
  0 <= granted_by c t /\ 0 <= forced_by c t /\ 0 <= pending_by c t
  /\ 0 <= promised_by limit c t <= pending_by c t.
Proof.
  intros H. destruct t as [|n ps rest|n new ps d rest|n ps d|n ps rest|[] n ps|[] n ps]; [simpl; lia|..];
    simpl in *; destruct H as [Hn _]; pose proof (at_counter_range c ps n Hn); try lia.
  - case_bool_decide; case_bool_decide; lia.
  - case_bool_decide; lia.
Qed.


(** ** Preservation *)

Definition contrib (c : nat) (t : thread) : Z := granted_by c t + forced_by c t + pending_by c t.
Definition claim (limit : Z) (c : nat) (t : thread) : Z := granted_by c t + promised_by limit c t.

Lemma claims_below_usage w c limit : race_inv w ->
  total (claim limit c) (w_threads w) <= usage w c.
Proof.
  intros I. apply total_le. intros i t Ht. unfold claim.
  destruct (wf_parts c limit t (ri_threads _ I _ _ Ht)) as (? & ? & ? & ?). lia.
Qed.

Lemma wf_usage_nonneg (ts : list thread) c : (forall i t, ts !! i = Some t -> wf_thread t) -> 0 <= total (contrib c) ts.
Proof.
  intros H. apply total_nonneg. intros i t Ht. unfold contrib.
  destruct (wf_parts c 0 t (H _ _ Ht)) as (? & ? & ? & ?). lia.
Qed.

Lemma wf_insert (ts : list thread) i t' : (forall j t, ts !! j = Some t -> wf_thread t) -> wf_thread t' ->
  forall j t, <[i := t']> ts !! j = Some t -> wf_thread t.
Proof.
  intros H Ht j t Hj. apply list_lookup_insert_Some in Hj as [(_ & <- & _)|[_ Hj]]; eauto.
Qed.

(** One thread moves from [t] to [t'] and the counters follow. *)
Lemma thread_step w w' i t t' :
  race_inv w -> w_threads w !! i = Some t -> w_threads w' = <[i := t']> (w_threads w) -> wf_thread t' ->
  (forall c k', w_ctrs w' !! c = Some k' -> exists k, w_ctrs w !! c = Some k
     /\ k_limit k' = k_limit k /\ k_setter k' = k_setter k /\ k_sealed k' = k_sealed k
     /\ k_count k' = k_count k + contrib c t' - contrib c t) ->
  (forall c k limit, w_ctrs w !! c = Some k -> k_sealed k = Some limit ->
     claim limit c t' <= claim limit c t \/ usage w' c <= limit) ->
  race_inv w'.
Proof.
  intros I Ht Hw Hwf Hc Hcl.
  assert (forall j u, w_threads w' !! j = Some u -> wf_thread u) as Hwf'.
  { rewrite Hw. apply wf_insert; [|done]. apply (ri_threads _ I). }
  assert (forall c, usage w' c = usage w c - contrib c t + contrib c t') as Hu.
  { intros c. unfold usage. rewrite Hw. exact (total_insert (contrib c) _ _ _ t' Ht). }
  split; [done| | |].
  - intros c k' Hk'. destruct (Hc _ _ Hk') as (k & Hk & _ & _ & _ & ->).
    rewrite (ri_count _ I _ _ Hk), Hu. lia.
  - intros c k' Hk'. destruct (Hc _ _ Hk') as (k & Hk & El & Es & Ese & _).
    pose proof (ri_setter _ I _ _ Hk) as H. unfold wf_setter in *. by rewrite El, Es, Ese.
  - intros c k' limit Hk' Hs. destruct (Hc _ _ Hk') as (k & Hk & El & _ & Ese & _). rewrite Ese in Hs.
    destruct (ri_sealed _ I _ _ _ Hk Hs) as [HL Hle]. split; [congruence|].
    destruct (Hcl c k limit Hk Hs) as [Hcl'|Hcl'].
    + rewrite Hw. change (total (claim limit c) (<[i := t']> (w_threads w)) <= limit).
      rewrite (total_insert _ _ _ _ _ Ht). change (total (claim limit c) (w_threads w) <= limit) in Hle. lia.
    + etrans; [|exact Hcl']. apply total_le. intros j u Hj.
      destruct (wf_parts c limit u (Hwf' _ _ Hj)) as (? & ? & ? & ?). lia.
Qed.

(** The counters when one thread adds [n] at [c] and its shares follow. *)
Lemma count_follows w i t t' c k n :
  race_inv w -> w_threads w !! i = Some t -> wf_thread t' -> w_ctrs w !! c = Some k ->
  (forall d, contrib d t' = contrib d t + (if bool_decide (d = c) then n else 0)) ->
  bounded (set_thread i t' (set_ctr c (add_count n k) w)) ->
  s32 (k_count k + n) = usage (set_thread i t' (set_ctr c (add_count n k) w)) c /\
  forall d k', w_ctrs (set_thread i t' (set_ctr c (add_count n k) w)) !! d = Some k' ->
    exists k0, w_ctrs w !! d = Some k0
     /\ k_limit k' = k_limit k0 /\ k_setter k' = k_setter k0 /\ k_sealed k' = k_sealed k0
     /\ k_count k' = k_count k0 + contrib d t' - contrib d t.
Proof.
  intros I Ht Hwf Hk Hco Hb.
  assert (usage (set_thread i t' (set_ctr c (add_count n k) w)) c = k_count k + n) as Hu.
  { rewrite (ri_count _ I _ _ Hk). unfold usage. simpl.
    change (total (contrib c) (<[i := t']> (w_threads w)) = total (contrib c) (w_threads w) + n).
    rewrite (total_insert _ _ _ _ _ Ht), Hco. rewrite bool_decide_eq_true_2 by done. lia. }
  specialize (Hb c). rewrite Hu in *.
  assert (0 <= k_count k + n) as Hpos.
  { rewrite <- Hu. unfold usage. simpl. apply wf_usage_nonneg. apply wf_insert; [|done]. apply (ri_threads _ I). }
  rewrite s32_small by lia. split; [done|].
  intros d k' Hk'. simpl in Hk'. apply lookup_insert_Some in Hk' as [[<- <-]|[Hne Hk']].
  - exists k. split_and!; try done. simpl. rewrite s32_small by lia. rewrite Hco, bool_decide_eq_true_2 by done. lia.
  - exists k'. split_and!; try done. rewrite Hco, bool_decide_eq_false_2 by done. lia.
Qed.

(** A setter moves; the count stays. *)
Lemma setter_step w c k k' :
  race_inv w -> w_ctrs w !! c = Some k -> k_count k' = k_count k -> wf_setter k' ->
  (forall limit, k_sealed k' = Some limit ->
     (k_sealed k = Some limit /\ k_limit k' = k_limit k)
     \/ (k_limit k' = limit /\ usage w c <= limit)) ->
  race_inv (set_ctr c k' w).
Proof.
  intros I Hk Hcnt Hwf Hseal.
  assert (forall d q, w_ctrs (set_ctr c k' w) !! d = Some q -> (d = c /\ q = k') \/ w_ctrs w !! d = Some q) as Hl.
  { intros d q Hq. simpl in Hq. apply lookup_insert_Some in Hq as [[<- <-]|[_ Hq]]; auto. }
  split.
  - apply (ri_threads _ I).
  - intros d q Hq. destruct (Hl _ _ Hq) as [[-> ->]|Hq']; [|by apply (ri_count _ I)].
    rewrite Hcnt. by apply (ri_count _ I).
  - intros d q Hq. destruct (Hl _ _ Hq) as [[-> ->]|Hq']; [done|by eapply (ri_setter _ I)].
  - intros d q limit Hq Hs. destruct (Hl _ _ Hq) as [[-> ->]|Hq']; [|by eapply (ri_sealed _ I)].
    destruct (Hseal limit Hs) as [[Hs' El]|[El Hu]].
    + rewrite El. by eapply (ri_sealed _ I).
    + split; [done|]. etrans; [apply (claims_below_usage w c limit I)|done].
Qed.

(** ** Every step *)

Lemma at_counter_app c ps d n : d ∉ ps ->
  at_counter c (ps ++ [d]) n = at_counter c ps n + (if bool_decide (c = d) then n else 0).
Proof.
  intros H. unfold at_counter. destruct (decide (c = d)) as [->|Hne].
  - rewrite bool_decide_eq_true_2 by (apply elem_of_app; right; by apply list_elem_of_singleton).
    rewrite bool_decide_eq_false_2 by done. by rewrite bool_decide_eq_true_2.
  - rewrite (bool_decide_eq_false_2 (c = d)) by done.
    rewrite (bool_decide_ext (c ∈ ps ++ [d]) (c ∈ ps)); [lia|].
    rewrite elem_of_app, list_elem_of_singleton. tauto.
Qed.

Lemma at_counter_cons c ps d n : d ∉ ps ->
  at_counter c (d :: ps) n = at_counter c ps n + (if bool_decide (c = d) then n else 0).
Proof.
  intros H. unfold at_counter. destruct (decide (c = d)) as [->|Hne].
  - rewrite bool_decide_eq_true_2 by (apply elem_of_cons; by left).
    rewrite bool_decide_eq_false_2 by done. by rewrite bool_decide_eq_true_2.
  - rewrite (bool_decide_eq_false_2 (c = d)) by done.
    rewrite (bool_decide_ext (c ∈ d :: ps) (c ∈ ps)); [lia|]. rewrite elem_of_cons. tauto.
Qed.

Lemma nodup_mid (ps : list nat) c rest : NoDup (ps ++ c :: rest) ->
  (c ∉ ps) /\ NoDup (ps ++ [c]) /\ NoDup ps /\ NoDup ((ps ++ [c]) ++ rest).
Proof.
  intros H. pose proof H as H'. apply NoDup_app in H as (H1 & H2 & H3). split_and!; try done.
  - intros Hin. apply (H2 c Hin). apply elem_of_cons. by left.
  - apply NoDup_app. split_and!; [done| |apply NoDup_singleton]. intros d Hd Hin.
    apply list_elem_of_singleton in Hin as ->. apply (H2 c Hd). apply elem_of_cons. by left.
  - by rewrite <- app_assoc.
Qed.

(** A step that leaves the counters alone. *)
Lemma quiet_step w i t t' :
  race_inv w -> w_threads w !! i = Some t -> wf_thread t' ->
  (forall c, contrib c t' = contrib c t) ->
  (forall c k limit, w_ctrs w !! c = Some k -> k_sealed k = Some limit -> claim limit c t' <= claim limit c t) ->
  race_inv (set_thread i t' w).
Proof.
  intros I Ht Hwf Hco Hcl. eapply (thread_step w _ i t t'); try done.
  - intros c k' Hk'. exists k'. split_and!; try done. rewrite Hco. lia.
  - intros c k limit Hk Hs. left. by eapply Hcl.
Qed.

(** A step that adds [n] at one counter without a new claim on its limit. *)
Lemma adding_step w i t t' c k n :
  race_inv w -> w_threads w !! i = Some t -> wf_thread t' -> w_ctrs w !! c = Some k ->
  (forall d, contrib d t' = contrib d t + (if bool_decide (d = c) then n else 0)) ->
  (forall limit d, claim limit d t' <= claim limit d t) ->
  bounded (set_thread i t' (set_ctr c (add_count n k) w)) ->
  race_inv (set_thread i t' (set_ctr c (add_count n k) w)).
Proof.
  intros I Ht Hwf Hk Hco Hcl Hb. destruct (count_follows w i t t' c k n) as [_ Hf]; try done.
  eapply (thread_step w _ i t t'); try done. intros d k0 limit _ _. by left.
Qed.

Lemma at_counter_nil c n : at_counter c [] n = 0.
Proof. unfold at_counter. by rewrite bool_decide_eq_false_2 by apply not_elem_of_nil. Qed.

Lemma guarded_le (P Q : Prop) `{Decision P, Decision Q} n : 0 <= n -> (P -> Q) ->
  (if bool_decide P then n else 0) <= (if bool_decide Q then n else 0).
Proof. intros Hn HPQ. do 2 case_bool_decide; try lia. tauto. Qed.

Lemma guarded_opp (P : Prop) `{Decision P} n :
  (if bool_decide P then - n else 0) = - (if bool_decide P then n else 0).
Proof. case_bool_decide; lia. Qed.

Lemma charge_step_preserves w w' : race_inv w -> bounded w' -> charge_step w w' -> race_inv w'.
Proof.
  intros I Hb Hs. destruct Hs;
    match goal with H : w_threads _ !! _ = Some _ |- _ => pose proof (ri_threads _ I _ _ H) as Hwf; simpl in Hwf end.
  - eapply quiet_step; try done. split; [lia|by eapply is_path_nodup].
  - destruct Hwf as [Hn Hnd].
    assert (wf_thread (Compare n (s32 (k_count k + n)) ps c rest)) as Hwf' by done.
    destruct (count_follows w i (Walk n ps (c :: rest)) (Compare n (s32 (k_count k + n)) ps c rest) c k n)
      as [Hnew Hf]; try done; [intros d; unfold contrib; simpl; lia|].
    eapply (thread_step w _ i _ _ I H); try done. intros d k0 limit _ _.
    unfold claim. simpl. case_bool_decide as Hc; [|left; lia]. right. destruct Hc as [-> Hc].
    rewrite Hnew, u32_small in Hc; [done|]. specialize (Hb c). unfold U32_MAX. split; [|lia].
    apply wf_usage_nonneg, wf_insert; [apply (ri_threads _ I)|done].
  - destruct Hwf as [Hn Hnd]. destruct (nodup_mid _ _ _ Hnd) as (Hc & _ & _ & Hnd').
    eapply quiet_step; try done.
    + intros d. unfold contrib. simpl. rewrite at_counter_app by done. lia.
    + intros d k0 limit Hk0 Hs. unfold claim. simpl. rewrite at_counter_app by done.
      pose proof (guarded_le (d = c) (d = c /\ u32 new <= limit) n Hn) as Hg.
      rewrite Z.add_0_r. apply Zplus_le_compat_l, Hg. intros ->. split; [done|].
      rewrite H0 in Hk0. injection Hk0 as <-. by destruct (ri_sealed _ I _ _ _ H0 Hs) as [<- _].
  - destruct Hwf as [Hn Hnd]. destruct (nodup_mid _ _ _ Hnd) as (Hc & Hnd' & _).
    eapply quiet_step; try done.
    intros d k0 limit _ _. unfold claim. simpl. case_bool_decide; lia.
  - destruct Hwf as [Hn Hnd]. destruct (nodup_mid _ _ _ Hnd) as (Hc & _ & Hnd' & _).
    eapply adding_step; try done.
    intros d. unfold contrib. simpl. rewrite guarded_opp. lia.
  - destruct Hwf as [Hn Hnd]. rewrite app_nil_r in Hnd. by eapply quiet_step.
  - eapply quiet_step; try done. split; [lia|by eapply is_path_nodup].
  - destruct Hwf as [Hn Hnd]. destruct (nodup_mid _ _ _ Hnd) as (Hc & _ & _ & Hnd').
    eapply adding_step; try done.
    intros d. unfold contrib. simpl. rewrite at_counter_app by done. lia.
  - destruct Hwf as [Hn Hnd]. rewrite app_nil_r in Hnd. by eapply quiet_step.
  - eapply quiet_step; try done; intros; by destruct f.
  - destruct Hwf as [Hn Hnd]. apply NoDup_cons in Hnd as [Hc Hnd].
    eapply adding_step; try done; intros; unfold contrib, claim; destruct f; simpl;
      rewrite ?at_counter_cons, ?guarded_opp by done; try lia; case_bool_decide; lia.
  - eapply quiet_step; try done; intros; unfold contrib, claim; destruct f; simpl; rewrite ?at_counter_nil; lia.
Qed.

Lemma limit_step_preserves w w' : race_inv w -> bounded w' -> limit_step w w' -> race_inv w'.
Proof.
  intros I Hb Hs. destruct Hs.
  - eapply setter_step; try done; [|intros l Hl; by left].
    pose proof (ri_count _ I _ _ H) as Hc. specialize (Hb c).
    assert (0 <= usage w c) by (apply wf_usage_nonneg, (ri_threads _ I)).
    change (usage w c < 2 ^ 31) in Hb. rewrite u32_small in H2 by (unfold U32_MAX; lia). unfold wf_setter. simpl. lia.
  - eapply setter_step; try done. intros l Hl. by left.
  - eapply setter_step; try done. pose proof (ri_setter _ I _ _ H) as Hw. unfold wf_setter in Hw.
    rewrite H0 in Hw. unfold wf_setter. simpl. tauto.
  - eapply setter_step; try done. pose proof (ri_setter _ I _ _ H) as Hw. unfold wf_setter in Hw.
    rewrite H0 in Hw. destruct Hw as (Hle & El & _). intros l Hl. injection Hl as <-. right.
    split; [done|]. rewrite <- (ri_count _ I _ _ H). lia.
  - by eapply setter_step.
Qed.

Lemma steps_preserve w w' : rtc bounded_step w w' -> race_inv w -> race_inv w'.
Proof.
  induction 1 as [|w1 w2 w3 [Hs Hb] _ IH]; intros I; [done|]. apply IH.
  destruct Hs; [by eapply charge_step_preserves|by eapply limit_step_preserves].
Qed.

(** Nobody is charging and no limit has been set. *)
Definition initial (w : world) : Prop :=
  Forall (eq Idle) (w_threads w)
  /\ forall c k, w_ctrs w !! c = Some k -> k_count k = 0 /\ k_setter k = SIdle /\ k_sealed k = None.

Lemma initial_inv w : initial w -> race_inv w.
Proof.
  intros [Hi Hc].
  assert (forall f, f Idle = 0 -> total f (w_threads w) = 0) as Hz.
  { intros f Hf. clear Hc. destruct w as [cs ts]. simpl in *.
    induction Hi as [|t ts <- _ IH]; unfold total in *; simpl; [done|]. lia. }
  split.
  - intros i t Ht. rewrite Forall_lookup in Hi. by rewrite <- (Hi _ _ Ht).
  - intros c k Hk. destruct (Hc _ _ Hk) as (-> & _). symmetry. by apply Hz.
  - intros c k Hk. destruct (Hc _ _ Hk) as (_ & E & _). unfold wf_setter. by rewrite E.
  - intros c k limit Hk Hs. destruct (Hc _ _ Hk) as (_ & _ & E). congruence.
Qed.
End Race.

(** ** Properties *)

(** C23: at every moment of every interleaving a counter holds exactly the
    charges outstanding at it: those that passed it, the forced ones, and those
    added but not yet compared or taken back. *)
Theorem race_accounting parent w0 w c k :
  initial w0 -> rtc (bounded_step parent) w0 w -> w_ctrs w !! c = Some k ->
  k_count k = usage w c.
Proof. intros Hi Hs. apply (ri_count w), (steps_preserve parent w0 w Hs), initial_inv, Hi. Qed.

(** C22: once page_counter_limit has returned 0 for a limit, and until another
    call changes it, the charges that passed the counter never exceed it,
    however charges, uncharges and other limit changes interleave: a charge
    that raced with the call either compared with the new limit or was seen by
    the second read of the count. *)
Theorem limit_race_safe parent w0 w c k limit :
  initial w0 -> rtc (bounded_step parent) w0 w ->
  w_ctrs w !! c = Some k -> k_sealed k = Some limit ->
  k_limit k = limit /\ granted w c <= limit.
Proof.
  intros Hi Hs Hk Hl. pose proof (steps_preserve parent w0 w Hs (initial_inv w0 Hi)) as I.
  destruct (ri_sealed w I _ _ _ Hk Hl) as [El Hle]. split; [done|].
  etrans; [|exact Hle]. apply total_le. intros i t Ht.
  destruct (wf_parts c limit t (ri_threads w I _ _ Ht)) as (? & ? & ? & ?). lia.
Qed.

(** ** Concrete executions *)

Definition no_parent : nat -> option nat := fun _ => None.

Definition start_world (limit : Z) : world :=
  mk_world {[0%nat := mk_ctr 0 limit SIdle None]} [Idle; Idle].

Lemma start_initial limit : initial (start_world limit).
Proof.
  split; [by repeat constructor|]. intros c k Hk. simpl in Hk.
  apply lookup_singleton_Some in Hk as [_ <-]. done.
Qed.

Lemma root_path : is_path no_parent (Some 0%nat) [0%nat].
Proof. done. Qed.

(** One step of a concrete execution with the given rule. *)
Ltac side := simpl; first [reflexivity|exact root_path|by left|by right|unfold U32_MAX; lia
                          |vm_compute; discriminate|vm_compute; reflexivity].
Ltac in_bounds := intros ?c; unfold usage, total; simpl; unfold at_counter; repeat case_bool_decide; lia.
Tactic Notation "charge" open_constr(r) :=
  eapply rtc_l; [split; [left; eapply r; side|in_bounds]|].
Tactic Notation "limit" open_constr(r) :=
  eapply rtc_l; [split; [right; eapply r; side|in_bounds]|].

(** A charge of 10 that saw the old limit 100, and a setter that saw the
    charge. *)
Lemma demo_run : exists w k, rtc (bounded_step no_parent) (start_world 100) w
  /\ w_ctrs w !! 0%nat = Some k /\ k_sealed k = Some 50 /\ w_threads w = [Walk 10 [0%nat] []; Idle].
Proof.
  eexists _, _. split; [|split; [|split]].
  - charge (step_try no_parent _ 0%nat 0%nat 10 [0%nat]).
    charge (step_add no_parent _ 0%nat).
    limit (step_limit_read _ 0%nat _ 50).
    charge (step_pass no_parent _ 0%nat).
    limit (step_limit_xchg _ 0%nat).
    limit (step_limit_done _ 0%nat).
    apply rtc_refl.
  - reflexivity.
  - reflexivity.
  - reflexivity.
Qed.

Lemma race_accounting_witness :
  exists w k, rtc (bounded_step no_parent) (start_world 100) w /\ k_count k = usage w 0.
Proof.
  destruct demo_run as (w & k & Hs & Hk & _). exists w, k. split; [exact Hs|].
  apply (race_accounting no_parent (start_world 100) w 0 k); [apply start_initial|exact Hs|exact Hk].
Defined.

Lemma limit_race_safe_witness :
  exists w k, rtc (bounded_step no_parent) (start_world 100) w /\ k_limit k = 50 /\ granted w 0 <= 50.
Proof.
  destruct demo_run as (w & k & Hs & Hk & Hl & _). exists w, k. split; [exact Hs|].
  apply (limit_race_safe no_parent (start_world 100) w 0 k 50);
    [apply start_initial|exact Hs|exact Hk|exact Hl].
Defined.

(** Raising a limit from 10 to 20 while others charge can return -EBUSY and
    leave 15 pages charged under the limit of 10 it put back: a charge of 15
    passed the new limit before the setter put the old one back, and a charge
    that would be refused anyway was in the count at the next read. *)
Theorem limit_restore_below_usage : exists w k,
  rtc (bounded_step no_parent) (start_world 10) w /\ w_ctrs w !! 0%nat = Some k
  /\ k_setter k = SIdle /\ k_limit k = 10 /\ k_count k = 15
  /\ w_threads w = [Hold false 15 [0%nat]; Idle].
Proof.
  eexists _, _. split; [|split; [|split_and!]].
  - limit (step_limit_read _ 0%nat _ 20).
    limit (step_limit_xchg _ 0%nat).
    charge (step_try no_parent _ 0%nat 0%nat 15 [0%nat]).
    charge (step_add no_parent _ 0%nat).
    charge (step_pass no_parent _ 0%nat).
    charge (step_charged no_parent _ 0%nat).
    limit (step_limit_restore _ 0%nat).
    charge (step_try no_parent _ 1%nat 0%nat 10 [0%nat]).
    charge (step_add no_parent _ 1%nat).
    limit (step_limit_busy _ 0%nat _ 20).
    charge (step_over no_parent _ 1%nat).
    charge (step_undo no_parent _ 1%nat).
    charge (step_dropped no_parent _ 1%nat).
    apply rtc_refl.
  - reflexivity.
  - reflexivity.
  - reflexivity.
  - reflexivity.
  - reflexivity.
Qed.
