(* ===== verification/Badblocks.v ===== *)
(** * Bad-block tables (block/badblocks.c)

    A page of 64-bit entries, sorted by offset, each a range of at most 512
    sectors with an acknowledged flag.  The seqlock is not modelled: a reader
    sees the table of one writer. *)
From Stdlib Require Import ZArith Lia Bool.
From stdpp Require Import base numbers list.
From S2P Require Import Prelude.

Definition BB_LEN_MASK : Z := 511.
Definition BB_OFFSET_MASK : Z := 9223372036854775296.
Definition BB_ACK_MASK : Z := 9223372036854775808.
Definition BB_MAX_LEN : Z := 512.
Definition MAX_BADBLOCKS : nat := 512.

Definition BB_OFFSET (x : Z) : Z := Z.shiftr (Z.land x BB_OFFSET_MASK) 9.
Definition BB_LEN (x : Z) : Z := Z.land x BB_LEN_MASK + 1.
Definition BB_ACK (x : Z) : bool := negb (Z.land x BB_ACK_MASK =? 0).
Definition BB_MAKE (a l : Z) (ack : bool) : Z :=
  Z.lor (Z.lor (u64 (Z.shiftl a 9)) (u64 (l - 1))) (Z.shiftl (if ack then 1 else 0) 63).

(** [struct badblocks] without the device, the lock and the two fields only
    the users of the table look at.  An empty [bb_page] is the NULL pointer. *)
Record badblocks := mk_bb {
  bb_count : nat;
  bb_unacked_exist : bool;
  bb_shift : Z;
  bb_page : list Z;
  bb_changed : bool
}.

Definition set_table (count : nat) (page : list Z) (bb : badblocks) : badblocks :=
  mk_bb count (bb_unacked_exist bb) (bb_shift bb) page (bb_changed bb).

(** The binary searches: the last entry [lo] with [before (BB_OFFSET p[lo])],
    if there is one between the bounds. *)
Fixpoint bsearch_loop (fuel : nat) (p : list Z) (before : Z -> bool) (lo hi : nat) : outcome (nat * nat) :=
  match fuel with
  | O => Fuel
  | S fuel' =>
      if (1 <? hi - lo)%nat then
        let mid := ((lo + hi) / 2)%nat in
        let* x := arr_get p mid in
        if before (BB_OFFSET x) then bsearch_loop fuel' p before mid hi
        else bsearch_loop fuel' p before lo mid
      else Ret (lo, hi)
  end.

(** ** Checking *)

(** The scan of [badblocks_check] from entry [n - 1] downwards; the result is
    [rv] and the last [first_bad], [bad_sectors] stored. *)
Fixpoint check_scan (p : list Z) (s target : Z) (n : nat) (rv : Z) (out : option (Z * Z))
    : outcome (Z * option (Z * Z)) :=
  match n with
  | O => Ret (rv, out)
  | S lo =>
      let* x := arr_get p lo in
      if s <? u64 (BB_OFFSET x + BB_LEN x) then
        if BB_OFFSET x <? target then
          check_scan p s target lo (if negb (rv =? -1) && BB_ACK x then 1 else -1)
            (Some (BB_OFFSET x, BB_LEN x))
        else check_scan p s target lo rv out
      else Ret (rv, out)
  end.

(** Rounding [s] down and the end up to blocks. *)
Definition outer_window (shift s sectors : Z) : Z * Z :=
  let target := u64 (s + sectors) in
  if 0 <? shift then
    (Z.shiftr s shift, Z.shiftr (u64 (target + (Z.shiftl 1 shift - 1))) shift)
  else (s, target).

Definition badblocks_check (bb : badblocks) (s0 sectors : Z) : outcome (Z * option (Z * Z)) :=
  let '(s, target) := outer_window (bb_shift bb) s0 sectors in
  let* (lo, hi) := bsearch_loop (bb_count bb + 1) (bb_page bb) (fun a => a <? target) 0 (bb_count bb) in
  if (lo <? hi)%nat then check_scan (bb_page bb) s target (lo + 1) 0 None
  else Ret (0, None).

(** ** Acknowledging *)

Fixpoint unacked_in (xs : list Z) : bool :=
  match xs with
  | [] => false
  | x :: xs' => if negb (BB_ACK x) then true else unacked_in xs'
  end.

Definition badblocks_update_acked (bb : badblocks) : badblocks :=
  if negb (bb_unacked_exist bb) then bb
  else if unacked_in (take (bb_count bb) (bb_page bb)) then bb
  else mk_bb (bb_count bb) false (bb_shift bb) (bb_page bb) (bb_changed bb).

Fixpoint ack_loop (p : list Z) (n : nat) : list Z :=
  match n, p with
  | S n', x :: p' => (if negb (BB_ACK x) then BB_MAKE (BB_OFFSET x) (BB_LEN x) true else x) :: ack_loop p' n'
  | _, _ => p
  end.

Definition ack_all_badblocks (bb : badblocks) : badblocks :=
  if bool_decide (bb_page bb = []) || bb_changed bb then bb
  else if bb_unacked_exist bb then
    mk_bb (bb_count bb) false (bb_shift bb) (ack_loop (bb_page bb) (bb_count bb)) (bb_changed bb)
  else bb.

(** ** Setting *)

(** The locals of [badblocks_set] with the table. *)
Record set_state := mk_set {
  ss_page : list Z; ss_count : nat; ss_s : Z; ss_sectors : Z; ss_lo : nat; ss_hi : nat
}.

(** Merge with the range found before [s]. *)
Definition merge_prev (acknowledged : bool) (st : set_state) : outcome set_state :=
  let s := ss_s st in let sectors := ss_sectors st in let lo := ss_lo st in
  if (lo <? ss_hi st)%nat then
    let* x := arr_get (ss_page st) lo in
    let a := BB_OFFSET x in
    let e := u64 (a + BB_LEN x) in
    if s <=? e then
      let ack := if (s =? a) && (e <=? u64 (s + sectors)) then acknowledged
                 else BB_ACK x && acknowledged in
      let e' := if e <? u64 (s + sectors) then u64 (s + sectors) else e in
      if u64 (e' - a) <=? BB_MAX_LEN then
        let* p := arr_set (ss_page st) lo (BB_MAKE a (u64 (e' - a)) ack) in
        Ret (mk_set p (ss_count st) e' (s32 (e' - e')) lo (ss_hi st))
      else
        let* p := if negb (BB_LEN x =? BB_MAX_LEN)
                  then arr_set (ss_page st) lo (BB_MAKE a BB_MAX_LEN ack) else Ret (ss_page st) in
        let s' := u64 (a + BB_MAX_LEN) in
        Ret (mk_set p (ss_count st) s' (s32 (e' - s')) lo (ss_hi st))
    else Ret st
  else Ret st.

(** Merge with the range that starts after [s]. *)
Definition merge_next (acknowledged : bool) (st : set_state) : outcome set_state :=
  let s := ss_s st in let sectors := ss_sectors st in let hi := ss_hi st in
  if negb (sectors =? 0) && (hi <? ss_count st)%nat then
    let* x := arr_get (ss_page st) hi in
    let a := BB_OFFSET x in
    let e := u64 (a + BB_LEN x) in
    if a <=? u64 (s + sectors) then
      let '(e', ack) := if e <=? u64 (s + sectors) then (u64 (s + sectors), acknowledged)
                        else (e, BB_ACK x && acknowledged) in
      if u64 (e' - s) <=? BB_MAX_LEN then
        let* p := arr_set (ss_page st) hi (BB_MAKE s (u64 (e' - s)) ack) in
        Ret (mk_set p (ss_count st) e' (s32 (e' - e')) hi (hi + 1))
      else
        let* p := arr_set (ss_page st) hi (BB_MAKE s BB_MAX_LEN ack) in
        let s' := u64 (s + BB_MAX_LEN) in
        Ret (mk_set p (ss_count st) s' (s32 (e' - s')) hi (hi + 1))
    else Ret st
  else Ret st.

(** Combine the two entries around [s]. *)
Definition combine (st : set_state) : outcome set_state :=
  let s := ss_s st in let lo := ss_lo st in let hi := ss_hi st in
  if (ss_sectors st =? 0) && (hi <? ss_count st)%nat then
    let* xh := arr_get (ss_page st) hi in
    let* xl := arr_get (ss_page st) lo in
    let a := BB_OFFSET xh in
    let newlen := s32 (BB_LEN xl + BB_LEN xh - (s - a)) in
    if (a <=? s) && (newlen <? BB_MAX_LEN) then
      let* p := arr_set (ss_page st) lo (BB_MAKE (BB_OFFSET xl) newlen (BB_ACK xl && BB_ACK xh)) in
      let* p' := memmove p hi (hi + 1) (ss_count st - hi - 1) in
      Ret (mk_set p' (ss_count st - 1) s (ss_sectors st) lo hi)
    else Ret st
  else Ret st.

(** [while (sectors)]: new entries before [hi]; the result is [rv]. *)
Fixpoint insert_loop (fuel : nat) (acknowledged : bool) (st : set_state) : outcome (Z * set_state) :=
  match fuel with
  | O => Fuel
  | S fuel' =>
      if ss_sectors st =? 0 then Ret (0, st)
      else if (MAX_BADBLOCKS <=? ss_count st)%nat then Ret (1, st)
      else
        let hi := ss_hi st in
        let* p := memmove (ss_page st) (hi + 1) hi (ss_count st - hi) in
        let this_sectors := if BB_MAX_LEN <? ss_sectors st then BB_MAX_LEN else ss_sectors st in
        let* p' := arr_set p hi (BB_MAKE (ss_s st) this_sectors acknowledged) in
        insert_loop fuel' acknowledged
          (mk_set p' (ss_count st + 1) (u64 (ss_s st + this_sectors)) (s32 (ss_sectors st - this_sectors))
             (ss_lo st) hi)
  end.

Definition badblocks_set (bb : badblocks) (s0 sectors0 : Z) (acknowledged : bool)
    : outcome (Z * badblocks) :=
  if bb_shift bb <? 0 then Ret (1, bb)
  else
    let '(s, sectors) :=
      if negb (bb_shift bb =? 0) then
        let '(s, next) := outer_window (bb_shift bb) s0 sectors0 in (s, s32 (next - s))
      else (s0, sectors0) in
    let* (lo, hi) := bsearch_loop (bb_count bb + 1) (bb_page bb) (fun a => a <=? s) 0 (bb_count bb) in
    let* hi' := if (lo <? hi)%nat then
                  let* x := arr_get (bb_page bb) lo in
                  Ret (if s <? BB_OFFSET x then lo else hi)
                else Ret hi in
    let* st1 := merge_prev acknowledged (mk_set (bb_page bb) (bb_count bb) s sectors lo hi') in
    let* st2 := merge_next acknowledged st1 in
    let* st3 := combine st2 in
    let* (rv, st4) := insert_loop (MAX_BADBLOCKS + 2) acknowledged st3 in
    let bb1 := mk_bb (ss_count st4) (bb_unacked_exist bb) (bb_shift bb) (ss_page st4) true in
    Ret (rv, if negb acknowledged then mk_bb (ss_count st4) true (bb_shift bb) (ss_page st4) true
             else badblocks_update_acked bb1).

(** ** Clearing *)

(** Rounding [s] up and the end down to blocks. *)
Definition inner_window (shift s sectors : Z) : Z * Z :=
  let target := u64 (s + sectors) in
  if 0 <? shift then
    (Z.shiftr (u64 (s + (Z.shiftl 1 shift - 1))) shift, Z.shiftr target shift)
  else (s, target).

(** The loop that finds how far down the entries overlap; [n] is [lo + 1].
    Returns the table and the final [lo + 1]. *)
Fixpoint clear_scan (p : list Z) (s target : Z) (n : nat) : outcome (list Z * nat) :=
  match n with
  | O => Ret (p, O)
  | S lo =>
      let* x := arr_get p lo in
      if (s <? u64 (BB_OFFSET x + BB_LEN x)) && (BB_OFFSET x <? target) then
        if BB_OFFSET x <? s then
          let* p' := arr_set p lo (BB_MAKE (BB_OFFSET x) (s - BB_OFFSET x) (BB_ACK x)) in
          Ret (p', n)
        else clear_scan p s target lo
      else Ret (p, n)
  end.

(** Cut the entry that sticks out above [target]; [None]: the table is full.
    Returns the table, its count, [lo + 1] and [hi]. *)
Definition clear_tail (p : list Z) (count : nat) (s target : Z) (lo hi : nat)
    : outcome (option (list Z * nat * nat * nat)) :=
  let* x := arr_get p lo in
  let a := BB_OFFSET x in
  let end_ := u64 (a + BB_LEN x) in
  if (target <? end_) && (a <? target) then
    if a <? s then
      if (MAX_BADBLOCKS <=? count)%nat then Ret None
      else
        let* p1 := memmove p (lo + 1) lo (count - lo) in
        let* p2 := arr_set p1 lo (BB_MAKE a (s - a) (BB_ACK x)) in
        let* p3 := arr_set p2 (lo + 1) (BB_MAKE target (end_ - target) (BB_ACK x)) in
        Ret (Some (p3, count + 1, lo + 1, lo + 1)%nat)
    else
      let* p1 := arr_set p lo (BB_MAKE target (end_ - target) (BB_ACK x)) in
      Ret (Some (p1, count, lo, lo))
  else Ret (Some (p, count, lo + 1, hi)%nat).

Definition badblocks_clear (bb : badblocks) (s0 sectors0 : Z) : outcome (Z * badblocks) :=
  let '(s, target) := inner_window (bb_shift bb) s0 sectors0 in
  let* (lo, hi) := bsearch_loop (bb_count bb + 1) (bb_page bb) (fun a => a <? target) 0 (bb_count bb) in
  let finish (count : nat) (p : list Z) :=
    let bb' := badblocks_update_acked (mk_bb count (bb_unacked_exist bb) (bb_shift bb) p (bb_changed bb)) in
    Ret (0, mk_bb (bb_count bb') (bb_unacked_exist bb') (bb_shift bb') (bb_page bb') true) in
  if (lo <? hi)%nat then
    let* r := clear_tail (bb_page bb) (bb_count bb) s target lo hi in
    match r with
    | None => Ret (- ENOSPC, bb)
    | Some (p, count, n, hi') =>
        let* (p', n') := clear_scan p s target n in
        if (n' <? hi')%nat then
          let* p'' := memmove p' n' hi' (count - hi') in
          finish (count - (hi' - n'))%nat p''
        else finish count p'
    end
  else finish (bb_count bb) (bb_page bb).

(** [badblocks_init] with the page [kzalloc] returned, if it did. *)
Definition badblocks_init (enable : bool) (page_ok : bool) (bb : badblocks) : Z * badblocks :=
  if page_ok then
    (0, mk_bb 0 (bb_unacked_exist bb) (if enable then 0 else -1) (replicate MAX_BADBLOCKS 0) (bb_changed bb))
  else (- 12, mk_bb 0 (bb_unacked_exist bb) (-1) [] (bb_changed bb)).
