(* ===== verification/BadblocksTable.v ===== *)
(** * What the bad-block operations do to the table

    Entries decoded to ranges, the binary searches on a sorted table, and that
    checking is exact. *)
From Stdlib Require Import ZArith Lia Bool.
From stdpp Require Import base numbers list.
From S2P Require Import Prelude Badblocks.

(** ** Encoding *)

Lemma bb_offset_val x : 0 <= x -> BB_OFFSET x = (x / 512) mod 2 ^ 54.
Proof.
  intros Hx. unfold BB_OFFSET. apply Z.bits_inj'. intros i Hi.
  rewrite Z.shiftr_spec, Z.land_spec by done. change 512 with (2 ^ 9).
  rewrite <- Z.shiftr_div_pow2 by lia.
  change BB_OFFSET_MASK with (Z.shiftl (Z.ones 54) 9).
  rewrite Z.shiftl_spec by lia. replace (i + 9 - 9) with i by lia.
  rewrite Z.testbit_ones_nonneg by lia.
  destruct (Z.ltb_spec i 54).
  - rewrite Z.mod_pow2_bits_low, Z.shiftr_spec by lia. apply andb_true_r.
  - rewrite Z.mod_pow2_bits_high by lia. apply andb_false_r.
Qed.

Lemma bb_len_val x : BB_LEN x = x mod 512 + 1.
Proof. unfold BB_LEN. change BB_LEN_MASK with (Z.ones 9). by rewrite Z.land_ones. Qed.

Lemma bb_ack_val x : BB_ACK x = Z.testbit x 63.
Proof.
  unfold BB_ACK. change BB_ACK_MASK with (2 ^ 63). destruct (Z.testbit x 63) eqn:E.
  - apply negb_true_iff, Z.eqb_neq. intros H. apply (f_equal (fun z => Z.testbit z 63)) in H.
    rewrite Z.land_spec, E, pow2_testbit in H by lia. by rewrite bool_decide_eq_true_2 in H.
  - apply negb_false_iff, Z.eqb_eq. apply Z.bits_inj'. intros i Hi.
    rewrite Z.land_spec, pow2_testbit, Z.bits_0 by lia.
    case_bool_decide; [subst; by rewrite E|apply andb_false_r].
Qed.

(** A decoded entry. *)
Record range := mk_range { r_off : Z; r_len : Z; r_ack : bool }.

Definition r_end (r : range) : Z := r_off r + r_len r.

Definition decode (x : Z) : range := mk_range (BB_OFFSET x) (BB_LEN x) (BB_ACK x).
Definition encode (r : range) : Z := BB_MAKE (r_off r) (r_len r) (r_ack r).

Definition storable (r : range) : Prop := 0 <= r_off r < 2 ^ 54 /\ 1 <= r_len r <= BB_MAX_LEN.

Lemma encode_val r : storable r ->
  encode r = r_off r * 512 + (r_len r - 1) + (if r_ack r then 2 ^ 63 else 0).
Proof.
  intros [Ha Hl]. unfold encode, BB_MAKE, BB_MAX_LEN in *. rewrite Z.shiftl_mul_pow2 by lia.
  change (2 ^ 9) with 512. rewrite !u64_small by (unfold U64_MAX; lia).
  assert (Z.lor (r_off r * 512) (r_len r - 1) = r_off r * 512 + (r_len r - 1)) as ->.
  { rewrite Z.lor_comm. replace (r_off r * 512) with (2 ^ 9 * r_off r) by lia. rewrite lor_shift_add by lia. lia. }
  destruct (r_ack r).
  - change (Z.shiftl 1 63) with (2 ^ 63 * 1). rewrite lor_shift_add by lia. lia.
  - rewrite Z.shiftl_0_l, Z.lor_0_r. lia.
Qed.

Lemma encode_range r : storable r -> 0 <= encode r < 2 ^ 64.
Proof. intros H. rewrite encode_val by done. destruct H, (r_ack r); unfold BB_MAX_LEN in *; lia. Qed.

(** An entry holds what was put into it. *)
Lemma decode_encode r : storable r -> decode (encode r) = r.
Proof.
  intros H. pose proof (encode_range r H) as Hr. pose proof (encode_val r H) as E. destruct H as [Ha Hl].
  unfold BB_MAX_LEN in *. unfold decode.
  rewrite bb_offset_val, bb_len_val, bb_ack_val by lia.
  assert (encode r mod 512 = r_len r - 1) as Em.
  { symmetry. apply (Z.mod_unique _ _ (r_off r + (if r_ack r then 2 ^ 54 else 0))); [lia|]. rewrite E. destruct (r_ack r); lia. }
  assert (encode r / 512 = r_off r + (if r_ack r then 2 ^ 54 else 0)) as Ed.
  { symmetry. apply (Z.div_unique _ _ _ (r_len r - 1)); [lia|]. rewrite E. destruct (r_ack r); lia. }
  rewrite Em, Ed. destruct r as [a l k]; cbn [r_off r_len r_ack] in *. f_equal; [|lia|].
  - destruct k.
    + replace (a + 2 ^ 54) with (a + 1 * 2 ^ 54) by lia. rewrite Z.mod_add by lia. by apply Z.mod_small.
    + rewrite Z.add_0_r. by apply Z.mod_small.
  - rewrite Z.testbit_odd, Z.shiftr_div_pow2 by lia. rewrite E. destruct k.
    + replace (a * 512 + (l - 1) + 2 ^ 63) with (a * 512 + (l - 1) + 1 * 2 ^ 63) by lia.
      rewrite Z.div_add by lia. rewrite Z.div_small by lia. done.
    + rewrite Z.add_0_r, Z.div_small by lia. done.
Qed.

(** ** Tables *)

(** The ranges in the table, and that they are sorted and disjoint. *)
Fixpoint sorted_from (lo : Z) (rs : list range) : Prop :=
  match rs with
  | [] => True
  | r :: rs' => lo <= r_off r /\ storable r /\ sorted_from (r_end r) rs'
  end.

Record holds (bb : badblocks) (rs : list range) : Prop := {
  ho_count : bb_count bb = length rs;
  ho_page : length (bb_page bb) = MAX_BADBLOCKS;
  ho_ranges : map decode (take (length rs) (bb_page bb)) = rs;
  ho_sorted : sorted_from 0 rs
}.

(** A sector is recorded as bad, with the given flag. *)
Definition bad_at (rs : list range) (a : Z) (k : bool) : Prop :=
  Exists (fun r => r_off r <= a < r_end r /\ r_ack r = k) rs.

Lemma holds_le bb rs : holds bb rs -> (length rs <= MAX_BADBLOCKS)%nat.
Proof.
  intros H. rewrite <- (ho_page _ _ H). pose proof (ho_ranges _ _ H) as E.
  apply (f_equal length) in E. rewrite length_map, length_take in E. lia.
Qed.

Lemma holds_get bb rs i r : holds bb rs -> rs !! i = Some r ->
  exists x, arr_get (bb_page bb) i = Ret x /\ decode x = r.
Proof.
  intros H Hi. pose proof (lookup_lt_Some _ _ _ Hi) as Hlt. rewrite <- (ho_ranges _ _ H) in Hi.
  rewrite list_lookup_fmap, lookup_take_lt in Hi by done.
  destruct (bb_page bb !! i) as [x|] eqn:Hx; [|done]. injection Hi as <-.
  exists x. split; [by apply arr_get_Some|done].
Qed.

Lemma sorted_lookup lo rs i r : sorted_from lo rs -> rs !! i = Some r -> lo <= r_off r /\ storable r.
Proof.
  revert lo i. induction rs as [|x rs IH]; intros lo i H Hi; [done|]. destruct H as (H1 & H2 & H3).
  destruct i as [|i]; simpl in Hi; [by injection Hi as <-|].
  destruct (IH _ _ H3 Hi) as [H4 ?]. split; [|done]. destruct H2 as [_ ?]. unfold r_end in H4. lia.
Qed.

Lemma sorted_lt lo rs i j ri rj : sorted_from lo rs -> rs !! i = Some ri -> rs !! j = Some rj ->
  (i < j)%nat -> r_end ri <= r_off rj.
Proof.
  revert lo i j. induction rs as [|x rs IH]; intros lo i j H Hi Hj Hlt; [done|]. destruct H as (H1 & H2 & H3).
  destruct j as [|j]; [lia|]. destruct i as [|i]; simpl in Hi, Hj.
  - injection Hi as <-. by destruct (sorted_lookup _ _ _ _ H3 Hj).
  - eapply IH; try done. lia.
Qed.

Lemma sorted_app lo rs1 rs2 : sorted_from lo (rs1 ++ rs2) <->
  sorted_from lo rs1 /\ sorted_from (match last rs1 with Some r => r_end r | None => lo end) rs2.
Proof.
  revert lo. induction rs1 as [|r rs1 IH]; intros lo; simpl; [tauto|].
  rewrite IH. destruct rs1 as [|r' rs1]; simpl; [tauto|].
  assert (is_Some (last (r' :: rs1))) as [y E] by (rewrite last_is_Some; done).
  rewrite E. tauto.
Qed.

Lemma sorted_weaken lo lo' rs : lo' <= lo -> sorted_from lo rs -> sorted_from lo' rs.
Proof. destruct rs; simpl; [done|]. intros ? (? & ? & ?). split_and!; try done; lia. Qed.

Lemma storable_end r : storable r -> u64 (r_off r + r_len r) = r_end r /\ r_off r < r_end r < 2 ^ 55.
Proof.
  intros [H1 H2]. unfold r_end, BB_MAX_LEN in *. rewrite u64_small by (unfold U64_MAX; lia). lia.
Qed.

(** ** The binary search *)

Lemma bsearch_spec bb rs before fuel lo hi :
  holds bb rs -> (lo <= hi <= length rs)%nat -> (hi - lo < fuel)%nat ->
  (lo = 0%nat \/ exists r, rs !! lo = Some r /\ before (r_off r) = true) ->
  (hi = length rs \/ exists r, rs !! hi = Some r /\ before (r_off r) = false) ->
  exists lo' hi', bsearch_loop fuel (bb_page bb) before lo hi = Ret (lo', hi')
    /\ (lo <= lo')%nat /\ (hi' <= length rs)%nat
    /\ ((lo < hi)%nat -> hi' = S lo') /\ ((lo = hi)%nat -> lo' = lo /\ hi' = hi)
    /\ (lo' = 0%nat \/ exists r, rs !! lo' = Some r /\ before (r_off r) = true)
    /\ (hi' = length rs \/ exists r, rs !! hi' = Some r /\ before (r_off r) = false).
Proof.
  intros H. revert lo hi. induction fuel as [|fuel IH]; intros lo hi Hb Hf Hlo Hhi; [lia|].
  cbn [bsearch_loop]. destruct (Nat.ltb_spec 1 (hi - lo)) as [Hlt|Hge].
  - assert (lo < (lo + hi) / 2 < hi)%nat as Hmid.
    { split; [apply Nat.div_le_lower_bound; lia|apply Nat.Div0.div_lt_upper_bound; lia]. }
    set (mid := ((lo + hi) / 2)%nat) in *. clearbody mid.
    destruct (lookup_lt_is_Some_2 rs mid) as [r Hr]; [lia|].
    destruct (holds_get _ _ _ _ H Hr) as (x & -> & Hx). cbn [obind].
    replace (BB_OFFSET x) with (r_off r) by (by rewrite <- Hx).
    destruct (before (r_off r)) eqn:Eb.
    + destruct (IH mid hi) as (lo' & hi' & E & ? & ? & H1 & H2 & ? & ?); [lia|lia|eauto|done|].
      exists lo', hi'. split_and!; try done; try lia.
    + destruct (IH lo mid) as (lo' & hi' & E & ? & ? & H1 & H2 & ? & ?); [lia|lia|done|eauto|].
      exists lo', hi'. split_and!; try done; try lia.
  - exists lo, hi. split_and!; try done; try lia.
Qed.

(** ** Checking *)

Definition overlaps (s t : Z) (r : range) : bool := (r_off r <? t) && (s <? r_end r).

Definition hits (s t : Z) (rs : list range) : list range := List.filter (overlaps s t) rs.

(** What [rv] becomes after going over the entries [hs], downwards. *)
Definition verdict (rv : Z) (hs : list range) : Z :=
  match hs with
  | [] => rv
  | _ => if (rv =? -1) || negb (forallb r_ack hs) then -1 else 1
  end.

Definition first_hit (out : option (Z * Z)) (hs : list range) : option (Z * Z) :=
  match hs with [] => out | r :: _ => Some (r_off r, r_len r) end.

Lemma hits_below s t rs n r : sorted_from 0 rs -> rs !! n = Some r -> r_end r <= s ->
  hits s t (take (S n) rs) = [].
Proof.
  intros Hs Hr He. apply bfilter_none. intros i x Hx. apply lookup_take_Some in Hx as [Hx Hi].
  unfold overlaps. apply andb_false_intro2, Z.ltb_ge.
  destruct (decide (i = n)) as [->|]; [rewrite Hr in Hx; injection Hx as <-; lia|].
  pose proof (sorted_lt _ _ _ _ _ _ Hs Hx Hr ltac:(lia)).
  destruct (sorted_lookup _ _ _ _ Hs Hr) as [_ ?]. destruct (storable_end r) as [_ ?]; [done|]. lia.
Qed.

Lemma hits_above s t rs n r : sorted_from 0 rs -> rs !! n = Some r -> t <= r_off r ->
  hits s t (drop n rs) = [].
Proof.
  intros Hs Hr He. apply bfilter_none. intros i x Hx. rewrite lookup_drop in Hx.
  unfold overlaps. apply andb_false_intro1, Z.ltb_ge.
  destruct (decide (i = 0)%nat) as [->|]; [rewrite Nat.add_0_r, Hr in Hx; injection Hx as <-; lia|].
  pose proof (sorted_lt _ _ _ _ _ _ Hs Hr Hx ltac:(lia)).
  destruct (sorted_lookup _ _ _ _ Hs Hr) as [_ ?]. destruct (storable_end r) as [_ ?]; [done|]. lia.
Qed.

Lemma verdict_app rv hs r : (rv = 0 \/ rv = 1 \/ rv = -1) ->
  verdict (if negb (rv =? -1) && r_ack r then 1 else -1) hs = verdict rv (hs ++ [r]).
Proof.
  intros Hrv. unfold verdict. destruct hs as [|h hs]; simpl.
  - destruct Hrv as [->|[->| ->]]; by destruct (r_ack r).
  - rewrite forallb_app. simpl.
    destruct Hrv as [->|[->| ->]]; destruct (r_ack h), (r_ack r), (forallb r_ack hs); done.
Qed.

Lemma check_scan_spec bb rs s t n rv out :
  holds bb rs -> (n <= length rs)%nat -> (rv = 0 \/ rv = 1 \/ rv = -1) ->
  check_scan (bb_page bb) s t n rv out
  = Ret (verdict rv (hits s t (take n rs)), first_hit out (hits s t (take n rs))).
Proof.
  intros H. revert rv out. induction n as [|n IH]; intros rv out Hn Hrv; [done|].
  destruct (lookup_lt_is_Some_2 rs n) as [r Hr]; [lia|].
  destruct (holds_get _ _ _ _ H Hr) as (x & Ex & Hx). cbn [check_scan]. rewrite Ex. cbn [obind].
  assert (BB_OFFSET x = r_off r /\ BB_LEN x = r_len r /\ BB_ACK x = r_ack r) as (-> & -> & ->) by (by rewrite <- Hx).
  destruct (sorted_lookup _ _ _ _ (ho_sorted _ _ H) Hr) as [_ Hst].
  destruct (storable_end r Hst) as [-> He].
  destruct (Z.ltb_spec s (r_end r)) as [Hlt|Hge].
  - rewrite (take_S_r _ _ _ Hr). unfold hits in *. rewrite List.filter_app. simpl. unfold overlaps at 2 4.
    destruct (Z.ltb_spec (r_off r) t) as [Hlt'|Hge']; simpl.
    + rewrite (proj2 (Z.ltb_lt s (r_end r))) by done. rewrite IH; [|lia|by destruct (_ && _); auto].
      rewrite verdict_app by done. f_equal. f_equal.
      by destruct (List.filter (overlaps s t) (take n rs)).
    + rewrite IH by (done || lia). by rewrite app_nil_r.
  - rewrite (hits_below s t rs n r (ho_sorted _ _ H) Hr) by lia. done.
Qed.

Lemma check_hits bb rs s0 sectors : holds bb rs ->
  let '(s, t) := outer_window (bb_shift bb) s0 sectors in
  badblocks_check bb s0 sectors = Ret (verdict 0 (hits s t rs), first_hit None (hits s t rs)).
Proof.
  intros H. unfold badblocks_check. destruct (outer_window _ _ _) as [s t].
  rewrite (ho_count _ _ H).
  destruct (bsearch_spec bb rs (fun a => a <? t) (length rs + 1) 0 (length rs))
    as (lo & hi & -> & _ & Hhi & H1 & H2 & Hlo' & Hhi'); [done|lia|lia|by left|by left|]. cbn [obind].
  destruct (Nat.ltb_spec lo hi) as [Hlt|Hge].
  - destruct (decide (length rs = 0)%nat) as [E0|]; [lia|]. specialize (H1 ltac:(lia)). subst hi.
    rewrite (check_scan_spec bb rs) by (done || lia || by left).
    assert (hits s t rs = hits s t (take (lo + 1) rs)) as ->; [|done].
    rewrite <- (take_drop (lo + 1) rs) at 1. unfold hits. rewrite List.filter_app.
    replace (lo + 1)%nat with (S lo) by lia.
    destruct Hhi' as [Hhi'|(r & Hr & Hf)].
    + rewrite Hhi', drop_all. simpl. apply app_nil_r.
    + pose proof (hits_above s t rs (S lo) r (ho_sorted _ _ H) Hr ltac:(lia)) as E.
      unfold hits in E. rewrite E. apply app_nil_r.
  - destruct (decide (length rs = 0)%nat) as [E0|]; [|lia].
    destruct rs; [done|simpl in E0; lia].
Qed.

Lemma window_blocks shift s n b : 0 <= shift < 31 -> 0 <= s -> 0 < n -> s + n + 2 ^ 32 < 2 ^ 64 ->
  let '(s', t') := outer_window shift s n in
  s' <= b < t' <-> exists x, s <= x < s + n /\ Z.shiftr x shift = b.
Proof.
  intros Hk Hs Hn Hlt. unfold outer_window.
  assert (2 ^ shift <= 2 ^ 31) by (apply Z.pow_le_mono_r; lia).
  assert (0 < 2 ^ shift) by (apply Z.pow_pos_nonneg; lia).
  rewrite (u64_small (s + n)) by (unfold U64_MAX; lia).
  assert (forall y, y / 2 ^ shift = b <-> b * 2 ^ shift <= y < (b + 1) * 2 ^ shift) as Hdiv.
  { intros y. split.
    - intros <-. pose proof (Z.div_mod y (2 ^ shift)). pose proof (Z.mod_pos_bound y (2 ^ shift)). lia.
    - intros Hy. symmetry. apply (Z.div_unique _ _ _ (y - b * 2 ^ shift)); lia. }
  destruct (Z.ltb_spec 0 shift) as [Hpos|Hz].
  - rewrite Z.shiftl_mul_pow2, Z.mul_1_l by lia. rewrite u64_small by (unfold U64_MAX; lia).
    rewrite !Z.shiftr_div_pow2 by lia. setoid_rewrite Z.shiftr_div_pow2; [|lia]. setoid_rewrite Hdiv. split.
    + intros [H1 H2]. exists (Z.max s (b * 2 ^ shift)).
      assert (s < (b + 1) * 2 ^ shift).
      { pose proof (Z.div_mod s (2 ^ shift)). pose proof (Z.mod_pos_bound s (2 ^ shift)). nia. }
      assert ((b + 1) * 2 ^ shift <= s + n + (2 ^ shift - 1)).
      { pose proof (Z.div_mod (s + n + (2 ^ shift - 1)) (2 ^ shift)).
        pose proof (Z.mod_pos_bound (s + n + (2 ^ shift - 1)) (2 ^ shift)). nia. }
      lia.
    + intros (x & Hx & Hb). split; [apply Z.lt_succ_r, Z.div_lt_upper_bound; lia|].
      apply Z.lt_le_trans with (b + 1); [lia|]. apply Z.div_le_lower_bound; lia.
  - assert (shift = 0) as -> by lia. setoid_rewrite Z.shiftr_0_r. split; [intros Hb; by exists b|].
    intros (x & ? & <-). done.
Qed.

(** A sector is recorded as bad. *)
Definition bad_sector (bb : badblocks) (rs : list range) (x : Z) (k : bool) : Prop :=
  bad_at rs (Z.shiftr x (bb_shift bb)) k.

Lemma hit_block s t r : storable r -> s < t ->
  overlaps s t r = true <-> exists b, s <= b < t /\ r_off r <= b < r_end r.
Proof.
  intros Hst Hlt. destruct (storable_end r Hst) as [_ ?]. unfold overlaps. rewrite andb_true_iff, !Z.ltb_lt. split.
  - intros [H1 H2]. exists (Z.max s (r_off r)). lia.
  - intros (b & H1 & H2). lia.
Qed.

Lemma sorted_elem lo rs r : sorted_from lo rs -> r ∈ rs -> storable r.
Proof. intros H Hr. apply list_elem_of_lookup in Hr as [i Hi]. by eapply sorted_lookup. Qed.

Lemma hits_blocks s t rs r : sorted_from 0 rs -> s < t ->
  r ∈ hits s t rs <-> r ∈ rs /\ exists b, s <= b < t /\ r_off r <= b < r_end r.
Proof.
  intros Hs Hlt. unfold hits. rewrite bfilter_elem. split; intros [Hr H]; (split; [done|]);
    apply (hit_block s t r (sorted_elem _ _ _ Hs Hr) Hlt); done.
Qed.

Lemma sorted_hits lo s t rs : sorted_from lo rs -> sorted_from lo (hits s t rs).
Proof.
  revert lo. induction rs as [|r rs IH]; intros lo H; [done|]. destruct H as (H1 & H2 & H3). simpl.
  destruct (overlaps s t r); [split_and!; try done; by apply IH|].
  apply (sorted_weaken (r_end r)); [|by apply IH]. destruct (storable_end r H2). lia.
Qed.

(** C15: badblocks_check is exact on a sorted table: it returns 0 when no sector
    of the request lies in a recorded range, 1 when some do and all of those
    ranges are acknowledged, -1 when one is not; in the last two cases
    [first_bad] and [bad_sectors] describe the lowest range the request meets. *)
Theorem badblocks_check_exact bb rs s n :
  holds bb rs -> 0 <= bb_shift bb < 31 -> 0 <= s -> 0 < n -> s + n + 2 ^ 32 < 2 ^ 64 ->
  exists rv out, badblocks_check bb s n = Ret (rv, out)
    /\ ((rv = 0 /\ out = None /\ forall x k, s <= x < s + n -> ~ bad_sector bb rs x k)
        \/ (exists r, r ∈ rs /\ out = Some (r_off r, r_len r)
             /\ (exists x, s <= x < s + n /\ r_off r <= Z.shiftr x (bb_shift bb) < r_end r)
             /\ (forall x k, s <= x < s + n -> bad_sector bb rs x k -> r_off r <= Z.shiftr x (bb_shift bb))
             /\ ((rv = 1 /\ forall x k, s <= x < s + n -> bad_sector bb rs x k -> k = true)
                 \/ (rv = -1 /\ exists x, s <= x < s + n /\ bad_sector bb rs x false)))).
Proof.
  intros H Hk Hs Hn Hlt. pose proof (check_hits bb rs s n H) as E.
  pose proof (fun b => window_blocks (bb_shift bb) s n b Hk Hs Hn Hlt) as Hw.
  destruct (outer_window _ _ _) as [s' t'].
  assert (s' < t') as Hst.
  { destruct (proj2 (Hw (Z.shiftr s (bb_shift bb)))); [exists s; split; [lia|done]|]. lia. }
  pose proof (fun r => hits_blocks s' t' rs r (ho_sorted _ _ H) Hst) as Hh.
  assert (forall x k, s <= x < s + n -> bad_sector bb rs x k ->
            exists r, r ∈ hits s' t' rs /\ r_off r <= Z.shiftr x (bb_shift bb) < r_end r /\ r_ack r = k) as Hbad.
  { intros x k Hx Hb. apply Exists_exists in Hb as (r & Hr & Ha & <-). exists r. split_and!; try done; try lia.
    apply Hh. split; [done|]. exists (Z.shiftr x (bb_shift bb)). split; [apply Hw; by exists x|done]. }
  eexists _, _. split; [exact E|]. destruct (hits s' t' rs) as [|h hs] eqn:Eh.
  - left. split_and!; try done. intros x k Hx Hb. destruct (Hbad x k Hx Hb) as (r & Hr & _).
    by apply elem_of_nil in Hr.
  - right. pose proof (sorted_hits 0 s' t' rs (ho_sorted _ _ H)) as Hso. rewrite Eh in Hso.
    destruct (proj1 (Hh h)) as [Hhr (b & Hb1 & Hb2)]; [apply elem_of_cons; by left|].
    exists h. split_and!; try done.
    + apply Hw in Hb1 as (x & Hx & <-). by exists x.
    + intros x k Hx Hb. destruct (Hbad x k Hx Hb) as (r & Hr & Hro & _).
      apply elem_of_cons in Hr as [->|Hr]; [lia|]. destruct Hso as (_ & Hsth & Hso).
      apply list_elem_of_lookup in Hr as [i Hi]. destruct (sorted_lookup _ _ _ _ Hso Hi).
      destruct (storable_end h Hsth). lia.
    + unfold verdict. change (0 =? -1) with false. rewrite orb_false_l.
      destruct (forallb r_ack (h :: hs)) eqn:Ea; simpl negb; cbv iota.
      * left. split; [done|]. intros x k Hx Hb. destruct (Hbad x k Hx Hb) as (r & Hr & _ & <-).
        rewrite forallb_forall in Ea. apply Ea. by apply list_elem_of_In.
      * right. split; [done|]. apply forallb_false in Ea as (r & Hr & Hra).
        apply Hh in Hr as [Hr (b' & Hb1' & Hb2')].
        apply Hw in Hb1' as (x & Hx & <-). exists x. split; [done|]. apply Exists_exists. by exists r.
Qed.
