(* ===== verification/BadblocksUpdate.v ===== *)
(** * Clearing and setting bad blocks

    [badblocks_clear] removes exactly the given sectors from a sorted table or,
    when the table is full and an entry has to be split, nothing.
    [badblocks_set] adds a range of at most 512 blocks that touches no entry. *)
From Stdlib Require Import ZArith Lia Bool.
From stdpp Require Import base numbers list.
From S2P Require Import Prelude Badblocks BadblocksTable.

(** ** Pages as lists of entries *)

Lemma holds_split bb rs1 rs2 : holds bb (rs1 ++ rs2) ->
  exists p1 p2 rest, bb_page bb = p1 ++ p2 ++ rest /\ map decode p1 = rs1 /\ map decode p2 = rs2
    /\ length p1 = length rs1 /\ length p2 = length rs2
    /\ (length rs1 + length rs2 + length rest = MAX_BADBLOCKS)%nat.
Proof.
  intros H. pose proof (holds_le _ _ H) as Hle. pose proof (ho_ranges _ _ H) as Er.
  pose proof (ho_page _ _ H) as Ep. rewrite length_app in *.
  exists (take (length rs1) (bb_page bb)), (take (length rs2) (drop (length rs1) (bb_page bb))),
    (drop (length rs1 + length rs2) (bb_page bb)).
  assert (length (take (length rs1) (bb_page bb)) = length rs1) as L1 by (rewrite length_take; lia).
  assert (length (take (length rs2) (drop (length rs1) (bb_page bb))) = length rs2) as L2
    by (rewrite length_take, length_drop; lia).
  rewrite <- (take_drop (length rs1) (take (length rs1 + length rs2) (bb_page bb))) in Er.
  rewrite take_take, skipn_firstn_comm, map_app in Er.
  replace (length rs1 `min` (length rs1 + length rs2))%nat with (length rs1) in Er by lia.
  replace (length rs1 + length rs2 - length rs1)%nat with (length rs2) in Er by lia.
  apply app_inj_1 in Er as [E1 E2]; [|by rewrite length_map].
  split_and!; try done; [|rewrite length_drop; lia].
  rewrite <- drop_drop, take_drop, take_drop. done.
Qed.

Lemma holds_intro count u shift p rest ch rs :
  map decode p = rs -> count = length rs -> length (p ++ rest) = MAX_BADBLOCKS -> sorted_from 0 rs ->
  holds (mk_bb count u shift (p ++ rest) ch) rs.
Proof.
  intros <- Hc Hl Hs. rewrite length_map in Hc. split; simpl; try done; rewrite ?length_map; try done.
  by rewrite take_app_length.
Qed.

(** ** Cutting a range *)

(** What is left of a range when [s .. t) is cleared. *)
Definition cut (s t : Z) (r : range) : list range :=
  if overlaps s t r then
    (if r_off r <? s then [mk_range (r_off r) (s - r_off r) (r_ack r)] else [])
    ++ (if t <? r_end r then [mk_range t (r_end r - t) (r_ack r)] else [])
  else [r].

Definition cut_all (s t : Z) (rs : list range) : list range := concat (map (cut s t) rs).

Lemma cut_all_app s t rs1 rs2 : cut_all s t (rs1 ++ rs2) = cut_all s t rs1 ++ cut_all s t rs2.
Proof. unfold cut_all. by rewrite map_app, concat_app. Qed.

Lemma cut_all_one s t r : cut_all s t [r] = cut s t r.
Proof. unfold cut_all. simpl. apply app_nil_r. Qed.

Lemma cut_all_id s t rs : (forall r, r ∈ rs -> overlaps s t r = false) -> cut_all s t rs = rs.
Proof.
  induction rs as [|r rs IH]; intros H; [done|]. unfold cut_all in *. simpl. unfold cut at 1.
  rewrite (H r) by (apply elem_of_cons; by left). simpl. f_equal. apply IH. intros x Hx. apply H.
  apply elem_of_cons. by right.
Qed.

Lemma cut_below s t lo rs b : sorted_from lo rs -> (forall r, r ∈ rs -> r_end r <= b) -> b <= s ->
  cut_all s t rs = rs.
Proof.
  intros Hs Hb Hle. apply cut_all_id. intros r Hr. unfold overlaps. apply andb_false_intro2, Z.ltb_ge.
  specialize (Hb r Hr). lia.
Qed.

Lemma cut_above s t lo rs : sorted_from lo rs -> t <= lo -> cut_all s t rs = rs.
Proof.
  intros Hs Hlo. apply cut_all_id. intros r Hr. unfold overlaps. apply andb_false_intro1, Z.ltb_ge.
  apply list_elem_of_lookup in Hr as [i Hi]. destruct (sorted_lookup _ _ _ _ Hs Hi). lia.
Qed.

Lemma sorted_cut lo s t rs : 0 <= s -> s <= t < 2 ^ 54 -> sorted_from lo rs -> sorted_from lo (cut_all s t rs).
Proof.
  intros Hs Ht. revert lo. induction rs as [|r rs IH]; intros lo H; [done|].
  destruct H as (H1 & H2 & H3). specialize (IH _ H3). destruct (storable_end r H2) as [_ He].
  unfold cut_all in *. simpl. unfold cut at 1, overlaps. destruct H2 as [Ho Hl]. unfold BB_MAX_LEN, r_end in *.
  repeat cmp; simpl; unfold storable, r_end, BB_MAX_LEN; simpl;
    repeat match goal with |- _ /\ _ => split end; try lia; try done;
    (eapply sorted_weaken; [|exact IH]; lia).
Qed.

(** Sector by sector: what was bad and is not cleared. *)
Lemma cut_bad s t r a k : s <= t ->
  bad_at (cut s t r) a k <-> (r_off r <= a < r_end r /\ r_ack r = k) /\ ~ s <= a < t.
Proof.
  intros Hst. unfold cut, overlaps, bad_at.
  repeat cmp; simpl; rewrite ?Exists_cons, ?Exists_nil; unfold r_end in *; simpl; intuition (subst; try lia).
  destruct (Z_lt_ge_dec a s); [left|right; left]; split; done || lia.
Qed.

Lemma cut_all_bad s t rs a k : s <= t ->
  bad_at (cut_all s t rs) a k <-> bad_at rs a k /\ ~ s <= a < t.
Proof.
  intros Hst. induction rs as [|r rs IH].
  - unfold bad_at, cut_all. simpl. rewrite Exists_nil. tauto.
  - change (r :: rs) with ([r] ++ rs). rewrite cut_all_app, cut_all_one. unfold bad_at in *.
    rewrite !Exists_app, IH. fold (bad_at (cut s t r) a k). rewrite (cut_bad s t r a k Hst).
    rewrite Exists_cons, Exists_nil. tauto.
Qed.

(** ** The scan downwards *)

Lemma entry_fields x r : decode x = r -> BB_OFFSET x = r_off r /\ BB_LEN x = r_len r /\ BB_ACK x = r_ack r.
Proof. by intros <-. Qed.

Lemma clear_scan_spec s t p rest rs :
  map decode p = rs -> sorted_from 0 rs -> 0 <= s -> (forall r, r ∈ rs -> r_end r <= t) ->
  exists p' junk, clear_scan (p ++ rest) s t (length p) = Ret (p' ++ junk ++ rest, length p')
    /\ length (p' ++ junk) = length p /\ map decode p' = cut_all s t rs.
Proof.
  revert rs rest. induction p as [|x p IH] using rev_ind; intros rs rest Hd Hs H0 Ht.
  - simpl in Hd. subst rs. exists [], []. done.
  - rewrite map_app in Hd. change (map decode [x]) with [decode x] in Hd. subst rs. rewrite length_app. simpl length. replace (length p + 1)%nat with (S (length p)) by lia.
    pose proof Hs as Hs'. apply sorted_app in Hs' as [Hsp Hsx]. simpl in Hsx.
    remember (decode x) as r eqn:Er. destruct Hsx as (Hlast & Hst & _). destruct (storable_end r Hst) as [Eu He].
    assert (forall q, q ∈ map decode p -> r_end q <= r_off r) as Hbelow.
    { intros q Hq. apply list_elem_of_lookup in Hq as [i Hi].
      eapply (sorted_lt 0 (map decode p ++ [r]) i (length p)); [done| | |].
      - rewrite lookup_app_l; [done|]. by eapply lookup_lt_Some.
      - rewrite lookup_app_r; rewrite length_map; [by rewrite Nat.sub_diag|lia].
      - apply lookup_lt_Some in Hi. by rewrite length_map in Hi. }
    assert (r_end r <= t) as Hrt by (apply Ht, elem_of_app; right; by apply list_elem_of_singleton).
    cbn [clear_scan]. rewrite <- app_assoc.
    rewrite (arr_get_Some (p ++ [x] ++ rest) (length p) x) by (rewrite lookup_app_r, Nat.sub_diag by lia; done).
    cbn [obind]. destruct (entry_fields x r (eq_sym Er)) as (-> & -> & ->). rewrite Eu.
    rewrite cut_all_app, cut_all_one.
    destruct (Z.ltb_spec s (r_end r)) as [Hov|Hno]; simpl andb; cbv iota.
    + destruct (Z.ltb_spec (r_off r) t) as [_|]; [|lia].
      destruct (Z.ltb_spec (r_off r) s) as [Hlt|Hge].
      * rewrite arr_set_lt by (rewrite length_app; simpl; lia). cbn [obind].
        rewrite insert_app_r_alt, Nat.sub_diag by lia. simpl insert.
        exists (p ++ [BB_MAKE (r_off r) (s - r_off r) (r_ack r)]), []. split_and!.
        -- rewrite length_app, Nat.add_1_r. by rewrite <- app_assoc.
        -- rewrite app_nil_r, length_app. simpl. lia.
        -- rewrite map_app. f_equal.
           ++ symmetry. eapply (cut_below s t 0 _ (r_off r)); [done|done|lia].
           ++ simpl. change (BB_MAKE (r_off r) (s - r_off r) (r_ack r)) with (encode (mk_range (r_off r) (s - r_off r) (r_ack r))).
              rewrite decode_encode.
              ** unfold cut, overlaps. repeat cmp; lia || done.
              ** destruct Hst as [? ?]. unfold storable, BB_MAX_LEN, r_end in *. simpl. lia.
      * destruct (IH (map decode p) ([x] ++ rest) eq_refl Hsp H0) as (p' & junk & E & Hl & Hm).
        { intros q Hq. specialize (Hbelow q Hq). lia. }
        exists p', (junk ++ [x]). rewrite E, <- app_assoc. split_and!; [done| |].
        -- rewrite !length_app in *. simpl. lia.
        -- rewrite Hm. unfold cut, overlaps. repeat cmp; try lia; simpl; by rewrite ?app_nil_r.
    + exists (p ++ [x]), []. split_and!.
      * rewrite length_app, Nat.add_1_r. by rewrite <- app_assoc.
      * rewrite app_nil_r, length_app. simpl. lia.
      * rewrite map_app. f_equal.
        -- symmetry. eapply (cut_below s t 0 _ (r_off r)); [done|done|lia].
        -- simpl. rewrite <- Er. unfold cut, overlaps. by repeat cmp; try lia.
Qed.

(** ** Clearing *)

(** Dropping the entries between [n'] and [hi']. *)
Lemma close_gap {R} (p1 junk q rest : list Z) (f : nat -> list Z -> outcome R) :
  exists rest', length rest' = (length junk + length rest)%nat
    /\ (if (length p1 <? length (p1 ++ junk))%nat then
          let* p := memmove (p1 ++ junk ++ q ++ rest) (length p1) (length (p1 ++ junk))
                      (length (p1 ++ junk) + length q - length (p1 ++ junk)) in
          f (length (p1 ++ junk) + length q - (length (p1 ++ junk) - length p1))%nat p
        else f (length (p1 ++ junk) + length q)%nat (p1 ++ junk ++ q ++ rest))
       = f (length p1 + length q)%nat (p1 ++ q ++ rest').
Proof.
  rewrite length_app. destruct (Nat.ltb_spec (length p1) (length p1 + length junk)) as [Hlt|Hge].
  - replace (length p1 + length junk + length q - (length p1 + length junk))%nat with (length q) by lia.
    rewrite memmove_close. cbn [obind]. eexists. split; [|f_equal; lia].
    rewrite length_drop, !length_app. lia.
  - destruct junk; simpl in *; [|lia]. exists rest. split; [done|]. f_equal. lia.
Qed.

(** What [clear_tail] leaves to the scan: [p1] with the entries before [hi],
    none of which sticks out above [t], and [q] with the others. *)
Definition tail_cut (s t : Z) (rs : list range) (P : list Z) (c n hi : nat) : Prop :=
  exists p1 q rest, P = p1 ++ q ++ rest /\ n = length p1 /\ hi = length p1
    /\ c = (length p1 + length q)%nat /\ length P = MAX_BADBLOCKS
    /\ sorted_from 0 (map decode p1) /\ (forall r, r ∈ map decode p1 -> r_end r <= t)
    /\ cut_all s t (map decode p1) ++ map decode q = cut_all s t rs.

Lemma sorted_ends lo rs r : sorted_from lo (rs ++ [r]) -> forall q, q ∈ rs -> r_end q <= r_off r.
Proof.
  intros Hs q Hq. apply list_elem_of_lookup in Hq as [i Hi].
  eapply (sorted_lt lo (rs ++ [r]) i (length rs)); [done| | |].
  - rewrite lookup_app_l; [done|]. by eapply lookup_lt_Some.
  - rewrite lookup_app_r by lia. by rewrite Nat.sub_diag.
  - by eapply lookup_lt_Some.
Qed.

Lemma sorted_app_l lo rs1 rs2 : sorted_from lo (rs1 ++ rs2) -> sorted_from lo rs1.
Proof. intros H. by apply sorted_app in H as [? _]. Qed.

(** Storing entries in the middle of a page. *)
Lemma page_set (p1 p2 : list Z) x y : arr_set (p1 ++ x :: p2) (length p1) y = Ret (p1 ++ y :: p2).
Proof.
  rewrite arr_set_lt by (rewrite length_app; simpl; lia). by rewrite insert_app_r_alt, Nat.sub_diag by lia.
Qed.

Lemma page_get (p1 p2 : list Z) x : arr_get (p1 ++ x :: p2) (length p1) = Ret x.
Proof. apply arr_get_Some. by rewrite lookup_app_r, Nat.sub_diag by lia. Qed.

Lemma page_open (p1 p2 : list Z) x y rest :
  memmove (p1 ++ x :: p2 ++ y :: rest) (length p1 + 1) (length p1) (S (length p2))
  = Ret (p1 ++ x :: x :: p2 ++ rest).
Proof.
  pose proof (memmove_open p1 (x :: p2) y rest) as E. simpl in E. rewrite E. f_equal.
  change (x :: p2 ++ y :: rest) with ([x] ++ p2 ++ y :: rest). rewrite app_assoc.
  replace (length p1 + 1)%nat with (length (p1 ++ [x])) by (rewrite length_app; simpl; lia).
  rewrite take_app_length. by rewrite <- app_assoc.
Qed.

Lemma cut_inside s t r : r_off r < s -> s <= t -> t < r_end r ->
  cut s t r = [mk_range (r_off r) (s - r_off r) (r_ack r); mk_range t (r_end r - t) (r_ack r)].
Proof. intros. unfold cut, overlaps. repeat cmp; lia || done. Qed.

Lemma cut_tail s t r : s <= r_off r -> r_off r < t -> t < r_end r ->
  cut s t r = [mk_range t (r_end r - t) (r_ack r)].
Proof. intros. unfold cut, overlaps. repeat cmp; lia || done. Qed.

Lemma decode_make a l k : 0 <= a < 2 ^ 54 -> 1 <= l <= BB_MAX_LEN -> decode (BB_MAKE a l k) = mk_range a l k.
Proof. intros Ha Hl. apply (decode_encode (mk_range a l k)). done. Qed.

Lemma clear_tail_spec (pA pB rest : list Z) x s t :
  let A := map decode pA in let r := decode x in let B := map decode pB in
  let rs := A ++ r :: B in
  sorted_from 0 rs -> sorted_from t B -> 0 <= s <= t -> t < 2 ^ 54 -> r_off r < t ->
  length (pA ++ x :: pB ++ rest) = MAX_BADBLOCKS ->
  (clear_tail (pA ++ x :: pB ++ rest) (length rs) s t (length pA) (S (length pA)) = Ret None
     /\ (MAX_BADBLOCKS <= length rs)%nat /\ (MAX_BADBLOCKS < length (cut_all s t rs))%nat)
  \/ (exists P c n hi, clear_tail (pA ++ x :: pB ++ rest) (length rs) s t (length pA) (S (length pA))
        = Ret (Some (P, c, n, hi)) /\ tail_cut s t rs P c n hi).
Proof.
  intros A r B rs Hs HB Hst Ht Hat Hlen.
  assert (sorted_from 0 (A ++ [r])) as HsAr.
  { apply (sorted_app_l 0 (A ++ [r]) B). by rewrite <- app_assoc. }
  pose proof (sorted_app_l _ _ _ HsAr) as HsA. pose proof (sorted_ends _ _ _ HsAr) as HA.
  assert (storable r) as Hr.
  { eapply (sorted_elem 0 _ r HsAr), elem_of_app. right. by apply list_elem_of_singleton. }
  destruct (storable_end r Hr) as [Eu He].
  assert (cut_all s t rs = cut_all s t A ++ cut s t r ++ B) as Ecut.
  { unfold rs. change (r :: B) with ([r] ++ B). rewrite !cut_all_app, cut_all_one, (cut_above s t t B HB) by lia. done. }
  assert (length rs = (length pA + S (length pB))%nat) as Elen.
  { unfold rs, A, B. rewrite length_app. simpl. by rewrite !length_map. }
  unfold clear_tail. rewrite page_get. cbn [obind].
  destruct (entry_fields x r eq_refl) as (-> & -> & ->). rewrite Eu.
  destruct Hr as [Ho Hl]. unfold BB_MAX_LEN in Hl. unfold r_end in He, Eu.
  rewrite (proj2 (Z.ltb_lt _ _) Hat), andb_true_r.
  destruct (Z.ltb_spec t (r_end r)) as [Htail|Hin].
  - destruct (Z.ltb_spec (r_off r) s) as [Has|Hsa].
    + rewrite (cut_inside s t r) in Ecut by lia.
      rewrite (cut_below s t 0 A (r_off r) HsA HA) in Ecut by lia.
      destruct (Nat.leb_spec MAX_BADBLOCKS (length rs)) as [Hfull|Hroom].
      * left. split_and!; [done|done|]. rewrite Ecut. rewrite !length_app. simpl. unfold A, B.
        rewrite !length_map. lia.
      * right. destruct rest as [|y rest].
        { exfalso. rewrite length_app in Hlen. simpl in Hlen. rewrite app_nil_r in Hlen. lia. }
        rewrite Elen. replace (length pA + S (length pB) - length pA)%nat with (S (length pB)) by lia.
        rewrite page_open. cbn [obind]. rewrite page_set. cbn [obind].
        set (e1 := BB_MAKE (r_off r) _ _). set (e2 := BB_MAKE t _ _).
        change (pA ++ e1 :: x :: pB ++ rest) with (pA ++ [e1] ++ x :: pB ++ rest). rewrite app_assoc.
        replace (length pA + 1)%nat with (length (pA ++ [e1])) by (rewrite length_app; simpl; lia).
        rewrite page_set. cbn [obind].
        assert (decode e1 = mk_range (r_off r) (s - r_off r) (r_ack r)) as E1
          by (apply decode_make; unfold BB_MAX_LEN, r_end in *; lia).
        assert (decode e2 = mk_range t (r_end r - t) (r_ack r)) as E2
          by (apply decode_make; unfold BB_MAX_LEN, r_end in *; lia).
        eexists _, _, _, _. split; [reflexivity|]. exists (pA ++ [e1]), (e2 :: pB), rest.
        rewrite map_app. cbn [map]. rewrite E1, E2.
        split_and!; [done|done|done| | | | |].
        -- rewrite length_app. simpl. lia.
        -- rewrite !length_app in *. simpl in *. rewrite !length_app in *. simpl in *. lia.
        -- fold A. apply sorted_app in HsAr as [_ HsAr]. apply sorted_app. split; [done|]. simpl in *.
           unfold storable, BB_MAX_LEN, r_end in *. simpl. destruct (last A); simpl in *; lia.
        -- intros q Hq. apply elem_of_app in Hq as [Hq|Hq]; [specialize (HA q Hq); lia|].
           apply list_elem_of_singleton in Hq as ->. unfold r_end. simpl. lia.
        -- rewrite Ecut. fold A B. rewrite cut_all_app, cut_all_one.
           rewrite (cut_below s t 0 A (r_off r) HsA HA) by lia.
           unfold cut, overlaps, r_end. simpl. repeat cmp; try lia; simpl; by rewrite <- app_assoc.
    + right. rewrite page_set. cbn [obind]. rewrite (cut_tail s t r) in Ecut by lia.
      eexists _, _, _, _. split; [reflexivity|]. set (e2 := BB_MAKE t _ _).
      assert (decode e2 = mk_range t (r_end r - t) (r_ack r)) as E2
        by (apply decode_make; unfold BB_MAX_LEN, r_end in *; lia).
      exists pA, (e2 :: pB), rest. cbn [map]. rewrite E2.
      split_and!; try done; simpl; try lia.
      -- rewrite !length_app in *. simpl in *. done.
      -- fold A. intros q Hq. specialize (HA q Hq). lia.
  - right. eexists _, _, _, _. split; [reflexivity|]. exists (pA ++ [x]), pB, rest.
    rewrite map_app. cbn [map]. fold A r B. rewrite length_app. simpl length.
    split_and!; try done; try lia.
    + by rewrite <- app_assoc.
    + intros q Hq. apply elem_of_app in Hq as [Hq|Hq]; [specialize (HA q Hq); lia|].
      apply list_elem_of_singleton in Hq as ->. done.
    + rewrite cut_all_app, cut_all_one, Ecut. by rewrite <- app_assoc.
Qed.

(** The flag [unacked_exist] after [badblocks_update_acked]. *)
Lemma unacked_in_ranges xs : unacked_in xs = negb (forallb r_ack (map decode xs)).
Proof.
  induction xs as [|x xs IH]; [done|]. cbn [unacked_in map forallb].
  change (r_ack (decode x)) with (BB_ACK x). by destruct (BB_ACK x).
Qed.

Lemma update_acked_holds bb rs : holds bb rs ->
  holds (badblocks_update_acked bb) rs
  /\ bb_unacked_exist (badblocks_update_acked bb) = bb_unacked_exist bb && negb (forallb r_ack rs).
Proof.
  intros H. unfold badblocks_update_acked. rewrite unacked_in_ranges, (ho_count _ _ H), (ho_ranges _ _ H).
  destruct (bb_unacked_exist bb) eqn:E; simpl; [|done].
  destruct (forallb r_ack rs); simpl; [|done]. split; [|done]. destruct H. split; simpl; congruence.
Qed.

(** The table that a clear of the blocks [s .. t) leaves. *)
Definition cleared (s t : Z) (bb : badblocks) (rs : list range) (bb' : badblocks) : Prop :=
  holds bb' (cut_all s t rs) /\ bb_changed bb' = true /\ bb_shift bb' = bb_shift bb
  /\ bb_unacked_exist bb' = bb_unacked_exist bb && negb (forallb r_ack (cut_all s t rs)).

Definition clear_finish (bb : badblocks) (count : nat) (p : list Z) : outcome (Z * badblocks) :=
  let bb' := badblocks_update_acked (mk_bb count (bb_unacked_exist bb) (bb_shift bb) p (bb_changed bb)) in
  Ret (0, mk_bb (bb_count bb') (bb_unacked_exist bb') (bb_shift bb') (bb_page bb') true).

Lemma clear_finish_spec bb rs s t p q rest :
  0 <= s -> s <= t < 2 ^ 54 -> sorted_from 0 rs -> length (p ++ q ++ rest) = MAX_BADBLOCKS ->
  map decode p ++ map decode q = cut_all s t rs ->
  exists bb', clear_finish bb (length p + length q) (p ++ q ++ rest) = Ret (0, bb') /\ cleared s t bb rs bb'.
Proof.
  intros Hs Ht Hso Hl Hm. eexists. split; [reflexivity|].
  set (b := mk_bb (length p + length q) (bb_unacked_exist bb) (bb_shift bb) (p ++ q ++ rest) (bb_changed bb)).
  assert (holds b (cut_all s t rs)) as H.
  { unfold b. rewrite app_assoc. apply holds_intro.
    - by rewrite map_app.
    - rewrite <- Hm, length_app, !length_map. done.
    - by rewrite <- app_assoc.
    - by apply sorted_cut. }
  destruct (update_acked_holds _ _ H) as [H1 H2]. unfold cleared. simpl. split_and!; try done.
  - destruct H1. by split.
  - unfold badblocks_update_acked. simpl. repeat case_match; done.
Qed.

Lemma clear_rest_spec bb rs s t P c n hi :
  0 <= s -> s <= t < 2 ^ 54 -> sorted_from 0 rs -> tail_cut s t rs P c n hi ->
  exists bb', (let* (p', n') := clear_scan P s t n in
               if (n' <? hi)%nat then
                 let* p'' := memmove p' n' hi (c - hi) in clear_finish bb (c - (hi - n')) p''
               else clear_finish bb c p') = Ret (0, bb') /\ cleared s t bb rs bb'.
Proof.
  intros Hs Ht Hso (p1 & q & rest & -> & -> & -> & -> & Hl & Hso1 & Hend & Hcut).
  destruct (clear_scan_spec s t p1 (q ++ rest) (map decode p1) eq_refl Hso1 Hs Hend)
    as (p' & junk & -> & Hlj & Hm). cbn [obind].
  destruct (close_gap p' junk q rest (clear_finish bb)) as (rest' & Hl' & E).
  rewrite <- Hlj, E. apply clear_finish_spec; try done; [|by rewrite Hm].
  rewrite !length_app in *. lia.
Qed.

(** The first entry is above the range: nothing to clear. *)
Lemma clear_above_spec bb rs s t x pB rest :
  0 <= s -> s <= t < 2 ^ 54 -> sorted_from 0 rs -> length (x :: pB ++ rest) = MAX_BADBLOCKS ->
  map decode (x :: pB) = rs -> t <= r_off (decode x) ->
  exists bb', (let* r := clear_tail (x :: pB ++ rest) (length rs) s t 0 1 in
               match r with
               | None => Ret (- ENOSPC, bb)
               | Some (p, count, n, hi) =>
                   let* (p', n') := clear_scan p s t n in
                   if (n' <? hi)%nat then
                     let* p'' := memmove p' n' hi (count - hi) in clear_finish bb (count - (hi - n')) p''
                   else clear_finish bb count p'
               end) = Ret (0, bb') /\ cleared s t bb rs bb'.
Proof.
  intros Hs Ht Hso Hl Hm Ha. unfold clear_tail.
  rewrite (arr_get_Some (x :: pB ++ rest) 0 x) by done. cbn [obind].
  change (r_off (decode x)) with (BB_OFFSET x) in Ha.
  rewrite (proj2 (Z.ltb_ge (BB_OFFSET x) t)), andb_false_r by lia. cbn [obind clear_scan Nat.add].
  rewrite (arr_get_Some (x :: pB ++ rest) 0 x) by done. cbn [obind].
  rewrite (proj2 (Z.ltb_ge (BB_OFFSET x) t)), andb_false_r by lia. cbn [obind]. simpl Nat.ltb. cbv iota.
  replace (length rs) with (length (@nil Z) + length (x :: pB))%nat by (by rewrite <- Hm, length_map).
  apply (clear_finish_spec bb rs s t [] (x :: pB) rest); try done.
  change (map decode (x :: pB) = cut_all s t rs). rewrite Hm. symmetry. apply (cut_above s t t); [|lia]. rewrite <- Hm in *. simpl in *.
  destruct Hso as (? & ? & ?). done.
Qed.

Lemma clear_spec bb rs s0 n s t :
  holds bb rs -> inner_window (bb_shift bb) s0 n = (s, t) -> 0 <= s -> s <= t < 2 ^ 54 ->
  (length rs = MAX_BADBLOCKS /\ (MAX_BADBLOCKS < length (cut_all s t rs))%nat /\ badblocks_clear bb s0 n = Ret (- ENOSPC, bb))
  \/ (exists bb', badblocks_clear bb s0 n = Ret (0, bb') /\ cleared s t bb rs bb').
Proof.
  intros H Hw Hs Ht. pose proof (ho_sorted _ _ H) as Hso. unfold badblocks_clear. rewrite Hw, (ho_count _ _ H).
  destruct (bsearch_spec bb rs (fun a => a <? t) (length rs + 1) 0 (length rs))
    as (lo & hi & -> & _ & Hhi & H1 & H2 & Hlo' & Hhi'); [done|lia|lia|by left|by left|]. cbn [obind].
  change (fun count p => Ret (0, _)) with (clear_finish bb). cbv zeta.
  destruct (Nat.ltb_spec lo hi) as [Hlt|Hge].
  - assert (length rs <> 0)%nat by lia. specialize (H1 ltac:(lia)). subst hi.
    destruct (lookup_lt_is_Some_2 rs lo) as [r Hr]; [lia|].
    pose proof (take_drop_middle rs lo r Hr) as Ers.
    pose proof H as Hp. rewrite <- Ers in Hp. apply holds_split in Hp
      as (pA & p2 & rest & Epg & EA & E2 & LA & L2 & _).
    destruct p2 as [|x pB]; [done|]. injection E2 as Er EB. simpl in Epg.
    assert (length pA = lo) as <- by (rewrite LA, length_take; lia).
    pose proof (ho_page _ _ H) as Hpl. rewrite Epg in *.
    destruct (Z_lt_ge_dec (r_off r) t) as [Hat|Hat].
    + assert (sorted_from t (map decode pB)) as HB.
      { rewrite EB. rewrite <- Ers in Hso. apply sorted_app in Hso as [_ (_ & _ & Hso)].
        destruct (drop (S (length pA)) rs) as [|b B] eqn:EdB; [done|].
        assert (rs !! S (length pA) = Some b) as Hb.
        { rewrite <- (Nat.add_0_r (S (length pA))), <- lookup_drop, EdB. done. }
        destruct Hhi' as [Hhi'|(r' & Hr' & Hf)]; [apply lookup_lt_Some in Hb; lia|].
        rewrite Hb in Hr'. injection Hr' as <-. apply Z.ltb_ge in Hf.
        destruct Hso as (? & ? & ?). done. }
      subst r. rewrite <- EA, <- EB in Ers. rewrite <- Ers in Hso.
      destruct (clear_tail_spec pA pB rest x s t Hso HB ltac:(lia) ltac:(lia) Hat Hpl)
        as [(E & Hfull & Hf)|(P & c & n' & hi & E & Htc)]; rewrite Ers in E, Hso; rewrite Ers in *; rewrite E; cbn [obind].
      * left. pose proof (holds_le _ _ H). split_and!; [lia|done|done].
      * right. by apply clear_rest_spec.
    + destruct Hlo' as [E0|(r' & Hr' & Hf)]; [|rewrite Hr in Hr'; injection Hr' as <-; apply Z.ltb_lt in Hf; lia].
      destruct pA; [|done]. simpl app in *. right.
      assert (map decode (x :: pB) = rs) as Em by (rewrite <- Ers; simpl; by rewrite Er, EB).
      apply (clear_above_spec bb rs s t x pB rest); try done. rewrite Er. lia.
  - assert (rs = []) as -> by (destruct rs; [done|simpl in *; lia]). right.
    apply (clear_finish_spec bb [] s t [] [] (bb_page bb)); try done. apply (ho_page _ _ H).
Qed.

Lemma inner_blocks shift s n b : 0 <= shift < 31 -> 0 <= s -> 0 <= n -> s + n < 2 ^ 54 ->
  let '(s', t') := inner_window shift s n in
  (s' <= b <-> s <= b * 2 ^ shift) /\ (b <= t' <-> b * 2 ^ shift <= s + n) /\ 0 <= s' /\ t' < 2 ^ 54.
Proof.
  intros Hk Hs Hn Hlt. unfold inner_window.
  assert (2 ^ shift <= 2 ^ 31) by (apply Z.pow_le_mono_r; lia).
  assert (0 < 2 ^ shift) by (apply Z.pow_pos_nonneg; lia).
  rewrite (u64_small (s + n)) by (unfold U64_MAX; lia).
  destruct (Z.ltb_spec 0 shift) as [Hpos|Hz].
  - rewrite Z.shiftl_mul_pow2, Z.mul_1_l by lia. rewrite u64_small by (unfold U64_MAX; lia).
    rewrite !Z.shiftr_div_pow2 by lia. split_and!.
    + pose proof (Z.div_mod (s + (2 ^ shift - 1)) (2 ^ shift)).
      pose proof (Z.mod_pos_bound (s + (2 ^ shift - 1)) (2 ^ shift)). nia.
    + pose proof (Z.div_mod (s + n) (2 ^ shift)). pose proof (Z.mod_pos_bound (s + n) (2 ^ shift)). nia.
    + apply Z.div_pos; lia.
    + apply Z.div_lt_upper_bound; nia.
  - assert (shift = 0) as -> by lia. rewrite Z.mul_1_r. lia.
Qed.

(** A block that the request covers. *)
Definition covered (shift s n b : Z) : Prop := s <= b * 2 ^ shift /\ (b + 1) * 2 ^ shift <= s + n.

(** Only an entry that sticks out on both sides makes the table longer. *)
Lemma cut_all_grows s t rs : (length rs < length (cut_all s t rs))%nat ->
  exists r, r ∈ rs /\ r_off r < s /\ t < r_end r.
Proof.
  induction rs as [|r rs IH]; [simpl; lia|]. intros Hlen.
  change (cut_all s t (r :: rs)) with (cut s t r ++ cut_all s t rs) in Hlen. rewrite length_app in Hlen.
  destruct (decide (length rs < length (cut_all s t rs))%nat) as [H|H].
  { destruct (IH H) as (r' & ? & ?). exists r'. split; [by right|done]. }
  assert (1 < length (cut s t r))%nat as H1 by (simpl in Hlen; lia).
  exists r. split; [by left|]. unfold cut in H1.
  destruct (overlaps s t r), (Z.ltb_spec (r_off r) s), (Z.ltb_spec t (r_end r)); simpl in H1; lia.
Qed.

(** C14: badblocks_clear is exact on a sorted table for every request that
    reaches a block boundary, that is, one that does not lie strictly inside one
    block: afterwards a block is bad if and only if it was and the request does
    not cover it, with the acknowledged flag it had; the table is again sorted
    and marked changed.  Only when all 512 entries are in use and one of them,
    with blocks before and after those the request covers, has to be split is
    -ENOSPC returned, and then nothing is changed. *)
Theorem badblocks_clear_exact bb rs s n :
  holds bb rs -> 0 <= bb_shift bb < 31 -> 0 <= s -> 0 <= n -> s + n < 2 ^ 54 ->
  (exists c, s <= c * 2 ^ bb_shift bb <= s + n) ->
  (exists bb' rs', badblocks_clear bb s n = Ret (0, bb') /\ holds bb' rs' /\ bb_changed bb' = true
     /\ (forall b k, bad_at rs' b k <-> bad_at rs b k /\ ~ covered (bb_shift bb) s n b))
  \/ (badblocks_clear bb s n = Ret (- ENOSPC, bb) /\ length rs = MAX_BADBLOCKS
      /\ exists r, r ∈ rs /\ r_off r * 2 ^ bb_shift bb < s /\ s + n < r_end r * 2 ^ bb_shift bb).
Proof.
  intros H Hk Hs Hn Hlt [c Hc].
  pose proof (fun b => inner_blocks (bb_shift bb) s n b Hk Hs Hn Hlt) as Hw.
  destruct (inner_window (bb_shift bb) s n) as [s' t'] eqn:E.
  assert (0 <= s' <= t' /\ t' < 2 ^ 54) as [Hst Ht] by (destruct (Hw c) as (? & ? & ? & ?); lia).
  destruct (clear_spec bb rs s n s' t' H E) as [(Hf & Hg & ->)|(bb' & -> & H1 & H2 & _ & _)]; [lia|lia| |].
  { right. split; [done|]. split; [done|]. destruct (cut_all_grows s' t' rs) as (r & Hr & ? & ?); [lia|].
    exists r. destruct (Hw (r_off r)) as (Ha & _), (Hw (r_end r)) as (_ & Hb & _). split; [done|]. lia. }
  left. exists bb', (cut_all s' t' rs). split_and!; try done. intros b k. rewrite cut_all_bad by lia.
  unfold covered. destruct (Hw b) as (Hb & _ & _ & _). destruct (Hw (b + 1)) as (_ & Hb' & _ & _).
  rewrite <- Hb, <- Hb'. split; intros [? Hno]; (split; [done|]); lia.
Qed.

(** ** Setting a range apart from every entry *)

Lemma insert_fresh fuel pA pB rest s n ack lo :
  0 < n <= BB_MAX_LEN -> (length pA + length pB < MAX_BADBLOCKS)%nat ->
  length (pA ++ pB ++ rest) = MAX_BADBLOCKS ->
  exists rest', S (length rest') = length rest
    /\ insert_loop (S (S fuel)) ack (mk_set (pA ++ pB ++ rest) (length pA + length pB) s n lo (length pA))
       = Ret (0, mk_set (pA ++ (BB_MAKE s n ack :: pB) ++ rest') (length pA + length pB + 1) (u64 (s + n)) 0
                   lo (length pA)).
Proof.
  intros Hn Hroom Hl. unfold BB_MAX_LEN in Hn. destruct rest as [|y rest].
  { rewrite app_nil_r, length_app in Hl. lia. }
  exists rest. split; [done|]. cbn [insert_loop].
  cbn [ss_sectors ss_count ss_hi ss_page ss_s ss_lo].
  rewrite (proj2 (Z.eqb_neq n 0)), (proj2 (Nat.leb_gt _ _) Hroom) by lia.
  replace (length pA + length pB - length pA)%nat with (length pB) by lia.
  rewrite (memmove_open pA pB y rest). cbn [obind].
  rewrite (proj2 (Z.ltb_ge BB_MAX_LEN n)) by (unfold BB_MAX_LEN; lia).
  assert (exists z, take (length pA + 1) (pA ++ pB ++ y :: rest) = pA ++ [z]) as [z ->].
  { destruct (pB ++ y :: rest) as [|z l] eqn:E; [by destruct pB|]. exists z.
    change (z :: l) with ([z] ++ l). rewrite app_assoc.
    replace (length pA + 1)%nat with (length (pA ++ [z])) by (rewrite length_app; simpl; lia).
    apply take_app_length. }
  rewrite <- app_assoc. simpl app. rewrite page_set. cbn [obind].
  rewrite Z.sub_diag. change (s32 0) with 0. reflexivity.
Qed.

Lemma sorted_insert (A B : list range) r :
  sorted_from 0 (A ++ B) -> storable r -> (forall q, q ∈ A -> r_end q <= r_off r) ->
  (forall q, q ∈ B -> r_end r <= r_off q) -> sorted_from 0 (A ++ r :: B).
Proof.
  intros Hs Hr HA HB. apply sorted_app in Hs as [Hs1 Hs2]. apply sorted_app. split; [done|]. simpl.
  split_and!; [|done|].
  - destruct (last A) as [q|] eqn:E; [|destruct Hr; lia]. apply HA. by apply last_Some_elem_of.
  - destruct B as [|b B]; [done|]. destruct Hs2 as (? & ? & ?). split_and!; try done.
    apply HB, elem_of_cons. by left.
Qed.

(** Where [badblocks_set] finds its place: the entries before and after. *)
Lemma set_place bb rs s t :
  holds bb rs -> s < t -> (forall r, r ∈ rs -> r_end r < s \/ t < r_off r) ->
  exists lo hi, bsearch_loop (bb_count bb + 1) (bb_page bb) (fun a => a <=? s) 0 (bb_count bb) = Ret (lo, hi)
    /\ exists A B hi', rs = A ++ B
    /\ (if (lo <? hi)%nat then
          let* x := arr_get (bb_page bb) lo in Ret (if s <? BB_OFFSET x then lo else hi)
        else Ret hi) = Ret hi'
    /\ hi' = length A /\ (lo = hi' \/ hi' = S lo)
    /\ (forall r, r ∈ A -> r_end r < s) /\ (forall r, r ∈ B -> t < r_off r).
Proof.
  intros H Hst Hno. pose proof (ho_sorted _ _ H) as Hso. rewrite (ho_count _ _ H).
  destruct (bsearch_spec bb rs (fun a => a <=? s) (length rs + 1) 0 (length rs))
    as (lo & hi & E & _ & Hhi & H1 & H2 & Hlo' & Hhi'); [done|lia|lia|by left|by left|].
  exists lo, hi. split; [done|]. destruct (Nat.ltb_spec lo hi) as [Hlt|Hge].
  - assert (hi = S lo) as -> by (apply H1; lia).
    destruct (lookup_lt_is_Some_2 rs lo) as [r Hr]; [lia|].
    destruct (holds_get _ _ _ _ H Hr) as (x & Ex & Hx).
    assert (forall j, (j <= length rs)%nat -> (forall q, rs !! (j - 1)%nat = Some q -> (0 < j)%nat -> r_off q <= s) ->
              (forall q, rs !! j = Some q -> s < r_off q) ->
              (forall q, q ∈ take j rs -> r_end q < s) /\ (forall q, q ∈ drop j rs -> t < r_off q)) as Hcut.
    { intros j Hj Hbef Haft. split; intros q Hq; apply list_elem_of_lookup in Hq as [i Hi].
      - apply lookup_take_Some in Hi as [Hi Hij].
        destruct (Hno q) as [?|?]; [by apply list_elem_of_lookup_2 in Hi|done|].
        destruct (lookup_lt_is_Some_2 rs (j - 1)) as [z Hz]; [lia|]. specialize (Hbef z Hz ltac:(lia)).
        destruct (decide (i = j - 1)%nat) as [->|]; [rewrite Hi in Hz; injection Hz as <-; lia|].
        pose proof (sorted_lt _ _ _ _ _ _ Hso Hi Hz ltac:(lia)).
        destruct (storable_end q (proj2 (sorted_lookup _ _ _ _ Hso Hi))). lia.
      - rewrite lookup_drop in Hi. destruct (Hno q) as [?|?]; [by apply list_elem_of_lookup_2 in Hi| |done].
        destruct (lookup_lt_is_Some_2 rs j) as [z Hz]; [apply lookup_lt_Some in Hi; lia|]. specialize (Haft z Hz).
        destruct (storable_end q (proj2 (sorted_lookup _ _ _ _ Hso Hi))).
        destruct (decide (i = 0)%nat) as [->|]; [rewrite Nat.add_0_r, Hz in Hi; injection Hi as <-; lia|].
        pose proof (sorted_lt _ _ _ _ _ _ Hso Hz Hi ltac:(lia)).
        destruct (storable_end z (proj2 (sorted_lookup _ _ _ _ Hso Hz))). lia. }
    rewrite Ex. cbn [obind]. replace (BB_OFFSET x) with (r_off r) by (by rewrite <- Hx).
    destruct (Z.ltb_spec s (r_off r)) as [Hbefore|Hafter].
    + destruct Hlo' as [->|(r' & Hr' & Hf)]; [|rewrite Hr in Hr'; injection Hr' as <-; apply Z.leb_le in Hf; lia].
      destruct (Hcut 0%nat) as [HA HB]; [lia|lia|by intros q Hq; rewrite Hr in Hq; injection Hq as <-|].
      exists [], rs, 0%nat. rewrite drop_0 in HB. split_and!; try done. by left.
    + destruct (Hcut (S lo)) as [HA HB]; [lia| | |].
      * intros q Hq _. simpl in Hq. rewrite Nat.sub_0_r, Hr in Hq. by injection Hq as <-.
      * intros q Hq. destruct Hhi' as [Hl|(q' & Hq' & Hf)]; [apply lookup_lt_Some in Hq; lia|].
        rewrite Hq in Hq'. injection Hq' as <-. by apply Z.leb_gt in Hf.
      * exists (take (S lo) rs), (drop (S lo) rs), (S lo).
        split_and!; try done; [by rewrite take_drop|rewrite length_take; lia|by right].
  - assert (rs = []) as -> by (destruct rs; [done|simpl in *; lia]).
    destruct (H2 eq_refl) as [-> ->]. exists [], [], 0%nat.
    split_and!; try done; [by left|..]; intros q Hq; by apply elem_of_nil in Hq.
Qed.

Lemma combine_busy st : ss_sectors st <> 0 -> combine st = Ret st.
Proof. intros H. unfold combine. by rewrite (proj2 (Z.eqb_neq _ _) H). Qed.

(** Neither neighbour touches the range. *)
Lemma merge_apart ack bb (A B : list range) lo s n :
  holds bb (A ++ B) -> 0 <= s -> 0 < n -> s + n < 2 ^ 54 ->
  (lo = length A \/ length A = S lo) ->
  (forall r, r ∈ A -> r_end r < s) -> (forall r, r ∈ B -> s + n < r_off r) ->
  let st := mk_set (bb_page bb) (bb_count bb) s n lo (length A) in
  merge_prev ack st = Ret st /\ merge_next ack st = Ret st.
Proof.
  intros H Hs Hn Hlt Hlo HA HB st. split.
  - unfold merge_prev, st. cbn [ss_s ss_sectors ss_lo ss_hi ss_page]. destruct (Nat.ltb_spec lo (length A)); [|done].
    destruct (lookup_lt_is_Some_2 A lo) as [r Hr]; [lia|].
    assert ((A ++ B) !! lo = Some r) as Hr' by (by apply lookup_app_l_Some).
    destruct (holds_get _ _ _ _ H Hr') as (x & -> & Hx). cbn [obind].
    destruct (entry_fields x r Hx) as (-> & -> & ->).
    destruct (storable_end r (proj2 (sorted_lookup _ _ _ _ (ho_sorted _ _ H) Hr'))) as [-> _].
    specialize (HA r (list_elem_of_lookup_2 _ _ _ Hr)). rewrite (proj2 (Z.leb_gt s (r_end r))) by lia. done.
  - unfold merge_next, st. cbn [ss_s ss_sectors ss_lo ss_hi ss_page ss_count].
    rewrite (proj2 (Z.eqb_neq n 0)), (ho_count _ _ H) by lia. simpl andb.
    destruct (Nat.ltb_spec (length A) (length (A ++ B))) as [Hl|]; [|done]. rewrite length_app in Hl.
    destruct (lookup_lt_is_Some_2 B 0) as [r Hr]; [lia|].
    assert ((A ++ B) !! length A = Some r) as Hr' by (rewrite lookup_app_r, Nat.sub_diag by lia; done).
    destruct (holds_get _ _ _ _ H Hr') as (x & -> & Hx). cbn [obind].
    destruct (entry_fields x r Hx) as (-> & -> & ->).
    specialize (HB r (list_elem_of_lookup_2 _ _ _ Hr)).
    rewrite (u64_small (s + n)) by (unfold U64_MAX; lia).
    rewrite (proj2 (Z.leb_gt (r_off r) (s + n))) by lia. done.
Qed.

Definition set_finish (bb : badblocks) (ack : bool) (rv : Z) (st : set_state) : outcome (Z * badblocks) :=
  let bb1 := mk_bb (ss_count st) (bb_unacked_exist bb) (bb_shift bb) (ss_page st) true in
  Ret (rv, if negb ack then mk_bb (ss_count st) true (bb_shift bb) (ss_page st) true
           else badblocks_update_acked bb1).

Lemma set_finish_spec bb ack rv st rs :
  holds (mk_bb (ss_count st) (bb_unacked_exist bb) (bb_shift bb) (ss_page st) true) rs ->
  exists bb', set_finish bb ack rv st = Ret (rv, bb') /\ holds bb' rs /\ bb_changed bb' = true
    /\ (ack = false -> bb_unacked_exist bb' = true).
Proof.
  intros H. eexists. split; [reflexivity|]. destruct ack; simpl.
  - destruct (update_acked_holds _ _ H) as [H1 _]. split_and!; try done.
    unfold badblocks_update_acked. simpl. repeat case_match; done.
  - destruct H. by repeat split.
Qed.

Lemma insert_full fuel ack st : (MAX_BADBLOCKS <= ss_count st)%nat -> ss_sectors st <> 0 ->
  insert_loop (S fuel) ack st = Ret (1, st).
Proof. intros H Hs. cbn [insert_loop]. by rewrite (proj2 (Z.eqb_neq _ _) Hs), (proj2 (Nat.leb_le _ _) H). Qed.

#[local] Opaque insert_loop.

Lemma set_fresh_spec bb rs ack a n :
  holds bb rs -> 0 <= a -> 0 < n <= BB_MAX_LEN -> a + n < 2 ^ 54 ->
  (forall r, r ∈ rs -> r_end r < a \/ a + n < r_off r) ->
  exists lo hi hi' rv st bb', bsearch_loop (bb_count bb + 1) (bb_page bb) (fun x => x <=? a) 0 (bb_count bb) = Ret (lo, hi)
    /\ (if (lo <? hi)%nat then
          let* x := arr_get (bb_page bb) lo in Ret (if a <? BB_OFFSET x then lo else hi)
        else Ret hi) = Ret hi'
    /\ (let st0 := mk_set (bb_page bb) (bb_count bb) a n lo hi' in
        merge_prev ack st0 = Ret st0 /\ merge_next ack st0 = Ret st0 /\ combine st0 = Ret st0
        /\ insert_loop (MAX_BADBLOCKS + 2) ack st0 = Ret (rv, st))
    /\ set_finish bb ack rv st = Ret (rv, bb') /\ bb_changed bb' = true
    /\ (ack = false -> bb_unacked_exist bb' = true)
    /\ ((length rs < MAX_BADBLOCKS)%nat /\ rv = 0
        /\ (exists A B, rs = A ++ B /\ holds bb' (A ++ mk_range a n ack :: B))
       \/ (length rs = MAX_BADBLOCKS)%nat /\ rv = 1 /\ holds bb' rs).
Proof.
  intros H Ha Hn Hlt Hno. unfold BB_MAX_LEN in Hn.
  destruct (set_place bb rs a (a + n) H ltac:(lia) Hno) as (lo & hi & Eb & A & B & hi' & Ers & Eh & -> & Hlo & HA & HB).
  subst rs. destruct (merge_apart ack bb A B lo a n H Ha ltac:(lia) ltac:(lia)) as [E1 E2]; [lia|done|done|].
  set (st0 := mk_set (bb_page bb) (bb_count bb) a n lo (length A)) in *.
  assert (combine st0 = Ret st0) as E3 by (apply combine_busy; simpl; lia).
  replace (MAX_BADBLOCKS + 2)%nat with (S (S MAX_BADBLOCKS)) by lia.
  pose proof (holds_le _ _ H) as Hle. pose proof (ho_page _ _ H) as Hpl. pose proof (ho_count _ _ H) as Hc.
  destruct (decide (length (A ++ B) < MAX_BADBLOCKS)%nat) as [Hroom|Hfull].
  - destruct (holds_split _ _ _ H) as (pA & pB & rest & Ep & EA & EB & LA & LB & _).
    rewrite Ep in Hpl. rewrite length_app in Hroom, Hc.
    destruct (insert_fresh MAX_BADBLOCKS pA pB rest a n ack lo) as (rest' & Hr & Ei); [done|lia|done|].
    rewrite LA, LB, <- Hc, <- Ep in Ei. fold st0 in Ei. set (st := mk_set _ _ (u64 (a + n)) _ _ _) in Ei.
    assert (storable (mk_range a n ack)) as Hst by (unfold storable, BB_MAX_LEN; simpl; lia).
    destruct (set_finish_spec bb ack 0 st (A ++ mk_range a n ack :: B)) as (bb' & Ef & Hb' & Hch & Hu).
    { unfold st. cbn [ss_count ss_page]. rewrite app_assoc. apply holds_intro.
      - rewrite map_app. cbn [map]. rewrite EA, EB, decode_make by (unfold BB_MAX_LEN; lia). done.
      - rewrite length_app. simpl. lia.
      - rewrite !length_app in *. simpl in *. lia.
      - apply sorted_insert; [exact (ho_sorted _ _ H)|done|..]; intros q Hq; unfold r_end; simpl.
        + specialize (HA q Hq). unfold r_end in HA. lia.
        + specialize (HB q Hq). lia. }
    exists lo, hi, (length A), 0, st, bb'. repeat (split; [done|]). left.
    rewrite length_app. split_and!; try done. by exists A, B.
  - destruct (set_finish_spec bb ack 1 st0 (A ++ B)) as (bb' & Ef & Hb' & Hch & Hu).
    { destruct H. by split. }
    exists lo, hi, (length A), 1, st0, bb'. split_and!; try done.
    + cbv zeta. split_and!; [done..|]. apply insert_full; simpl; lia.
    + right. split_and!; try done. lia.
Qed.

#[local] Transparent insert_loop.

Lemma bad_insert A B r b k :
  bad_at (A ++ r :: B) b k <-> bad_at (A ++ B) b k \/ (r_off r <= b < r_end r /\ r_ack r = k).
Proof. unfold bad_at. rewrite !Exists_app, Exists_cons. tauto. Qed.

Lemma outer_bounds shift s n : 0 <= shift < 31 -> 0 <= s -> 0 < n -> s + n < 2 ^ 53 ->
  let '(a, z) := outer_window shift s n in 0 <= a < z /\ z < 2 ^ 54.
Proof.
  intros Hk Hs Hn Hlt. pose proof (window_blocks shift s n (Z.shiftr s shift) Hk Hs Hn ltac:(lia)) as Hw.
  unfold outer_window in *. rewrite (u64_small (s + n)) in * by (unfold U64_MAX; lia).
  destruct (Z.ltb_spec 0 shift); [|lia].
  assert (2 ^ shift <= 2 ^ 31) by (apply Z.pow_le_mono_r; lia).
  assert (0 < 2 ^ shift) by (apply Z.pow_pos_nonneg; lia).
  rewrite Z.shiftl_mul_pow2, Z.mul_1_l in * by lia. rewrite u64_small in * by (unfold U64_MAX; lia).
  destruct (proj2 Hw) as [Hlo Hhi]; [exists s; split; [lia|done]|]. split; [split; [by apply Z.shiftr_nonneg|lia]|].
  rewrite Z.shiftr_div_pow2 by lia. apply Z.div_lt_upper_bound; [done|nia].
Qed.

(** C16: badblocks_set, on a request of at most 512 blocks that neither overlaps
    nor touches an entry, adds exactly the blocks of the request with the given
    acknowledged flag and keeps the table sorted; on a full table it returns 1
    and leaves the entries as they are. *)
Theorem badblocks_set_apart bb rs s n ack a z :
  holds bb rs -> 0 <= bb_shift bb < 31 -> 0 <= s -> 0 < n -> s + n < 2 ^ 53 ->
  outer_window (bb_shift bb) s n = (a, z) -> z - a <= BB_MAX_LEN ->
  (forall r, r ∈ rs -> r_end r < a \/ z < r_off r) ->
  exists rv bb' rs', badblocks_set bb s n ack = Ret (rv, bb') /\ holds bb' rs' /\ bb_changed bb' = true
    /\ (ack = false -> bb_unacked_exist bb' = true)
    /\ ((length rs < MAX_BADBLOCKS)%nat -> rv = 0 /\
          forall b k, bad_at rs' b k <->
            bad_at rs b k \/ ((exists x, s <= x < s + n /\ Z.shiftr x (bb_shift bb) = b) /\ ack = k))
    /\ (length rs = MAX_BADBLOCKS -> rv = 1 /\ rs' = rs).
Proof.
  intros H Hk Hs Hn Hlt Hw Hlen Hno.
  pose proof (outer_bounds (bb_shift bb) s n Hk Hs Hn Hlt) as Hb.
  pose proof (fun b => window_blocks (bb_shift bb) s n b Hk Hs Hn ltac:(lia)) as Hblk.
  rewrite Hw in Hb, Hblk. unfold BB_MAX_LEN in Hlen.
  destruct (set_fresh_spec bb rs ack a (z - a)) as (lo & hi & hi' & rv & st & bb' & E1 & E2 & E3 & E4 & Hch & Hu & Hr);
    [done|lia|unfold BB_MAX_LEN; lia|lia|by replace (a + (z - a)) with z by lia|].
  assert ((if negb (bb_shift bb =? 0) then
             let '(s', next) := outer_window (bb_shift bb) s n in (s', s32 (next - s')) else (s, n)) = (a, z - a)) as Ew.
  { rewrite Hw. destruct (Z.eqb_spec (bb_shift bb) 0) as [E0|]; simpl.
    - unfold outer_window in Hw. rewrite E0 in Hw. simpl in Hw.
      rewrite u64_small in Hw by (unfold U64_MAX; lia). injection Hw as <- <-. f_equal. lia.
    - f_equal. apply s32_small. lia. }
  unfold badblocks_set. rewrite (proj2 (Z.ltb_ge _ _)) by lia. rewrite Ew, E1. cbn [obind].
  rewrite E2. cbn [obind]. destruct E3 as (-> & Em & Ec & Ei). cbn [obind]. rewrite Em. cbn [obind].
  rewrite Ec. cbn [obind]. rewrite Ei. cbn [obind]. unfold set_finish in E4. rewrite E4.
  destruct Hr as [(Hroom & -> & A & B & -> & Hh)|(Hfull & -> & Hh)].
  - exists 0, bb', (A ++ mk_range a (z - a) ack :: B). split_and!; try done; [|lia].
    intros _. split; [done|]. intros b k. rewrite bad_insert, <- Hblk. unfold r_end. simpl.
    replace (a + (z - a)) with z by lia. done.
  - exists 1, bb', rs. split_and!; try done. lia.
Qed.
