(* ===== verification/BadblocksExamples.v ===== *)
(** * Bad-block tables: concrete tables and what setting gets wrong

    Witnesses of the theorems on checking, clearing and setting, and three
    requests on which the table does not hold what was asked for. *)
From Stdlib Require Import ZArith Lia Bool.
From stdpp Require Import base numbers list.
From S2P Require Import Prelude Badblocks BadblocksTable BadblocksUpdate.

(** A table with the given entries. *)
Definition table (shift : Z) (rs : list range) : badblocks :=
  mk_bb (length rs) false shift (map encode rs ++ replicate (MAX_BADBLOCKS - length rs) 0) false.

Definition one : list range := [mk_range 10 5 true].

Lemma one_holds shift : holds (table shift one) one.
Proof. split; vm_compute; intuition discriminate. Qed.

Lemma badblocks_check_exact_witness :
  exists rv out, badblocks_check (table 0 one) 12 4 = Ret (rv, out) /\ rv = 1 /\ out = Some (10, 5).
Proof.
  destruct (badblocks_check_exact (table 0 one) one 12 4) as (rv & out & E & _); [apply one_holds|simpl; lia..|].
  exists rv, out. split; [exact E|]. vm_compute in E. injection E as <- <-. done.
Defined.

Lemma badblocks_clear_exact_witness :
  exists bb' rs', badblocks_clear (table 0 one) 11 2 = Ret (0, bb') /\ holds bb' rs' /\ bb_changed bb' = true
     /\ (forall b k, bad_at rs' b k <-> bad_at one b k /\ ~ covered 0 11 2 b).
Proof.
  destruct (badblocks_clear_exact (table 0 one) one 11 2) as [H|[_ [H _]]]; [apply one_holds|simpl; lia..| | |].
  - exists 11. simpl. lia.
  - exact H.
  - discriminate H.
Defined.

Lemma badblocks_set_apart_witness :
  exists bb' rs', badblocks_set (table 0 one) 40 100 false = Ret (0, bb') /\ holds bb' rs'
     /\ forall b k, bad_at rs' b k <->
          bad_at one b k \/ ((exists x, 40 <= x < 40 + 100 /\ Z.shiftr x 0 = b) /\ false = k).
Proof.
  destruct (badblocks_set_apart (table 0 one) one 40 100 false 40 140)
    as (rv & bb' & rs' & E & Hh & _ & _ & Hroom & _); [apply one_holds|simpl; lia..|reflexivity|unfold BB_MAX_LEN; lia| |].
  - intros r Hr. apply list_elem_of_singleton in Hr as ->. left. unfold r_end. simpl. lia.
  - destruct Hroom as [-> Hb]; [unfold MAX_BADBLOCKS; simpl; lia|]. by exists bb', rs'.
Defined.

(** The ranges a table holds, as (offset, length) pairs. *)
Definition entries (bb : badblocks) : list (Z * Z) :=
  map (fun x => (BB_OFFSET x, BB_LEN x)) (take (bb_count bb) (bb_page bb)).

(** Two chunks of one request are stored in the wrong order, after which the
    binary search misses the second one: sector 600 was set bad and is reported
    good. *)
Theorem badblocks_set_two_chunks :
  exists bb', badblocks_set (table 0 []) 0 1024 true = Ret (0, bb')
    /\ entries bb' = [(512, 512); (0, 512)] /\ badblocks_check bb' 600 1 = Ret (0, None).
Proof. eexists. split; [vm_compute; reflexivity|]. vm_compute. done. Qed.

(** A request over two entries that do not touch: the entry after the merge is
    five sectors short, and the sectors 25 to 29 that were set are reported
    good. *)
Theorem badblocks_set_over_two :
  exists bb', badblocks_set (table 0 [mk_range 10 5 true; mk_range 20 5 true]) 0 30 true = Ret (0, bb')
    /\ entries bb' = [(0, 25)] /\ badblocks_check bb' 25 5 = Ret (0, None).
Proof. eexists. split; [vm_compute; reflexivity|]. vm_compute. done. Qed.

(** Clearing sectors 9 and 10 with 8-sector blocks covers no block, yet splits
    an entry in two that overlap. *)
Theorem badblocks_clear_inside_block :
  exists bb', badblocks_clear (table 3 [mk_range 0 100 true]) 9 2 = Ret (0, bb')
    /\ entries bb' = [(0, 2); (1, 99)].
Proof. eexists. split; [vm_compute; reflexivity|]. vm_compute. done. Qed.
