(* ===== verification/Kfifo.v ===== *)
(** * The generic kernel FIFO (lib/kfifo.c, include/linux/kfifo.h)

    A ring buffer of [mask + 1] elements of [esize] bytes, with free-running
    32-bit counters [in] and [out].  Bytes are integers in [0, 256); the buffer
    is a list, and an access outside it is [Ub]. *)
From Stdlib Require Import ZArith Lia Bool.
From stdpp Require Import base numbers list.
From S2P Require Import Prelude.

(** [struct __kfifo]; an empty [data] stands for a NULL pointer. *)
Record __kfifo := mk_kfifo {
  kf_in : Z; kf_out : Z; kf_mask : Z; kf_esize : Z; kf_data : list Z
}.

Definition set_in (v : Z) (f : __kfifo) : __kfifo :=
  mk_kfifo v (kf_out f) (kf_mask f) (kf_esize f) (kf_data f).
Definition set_out (v : Z) (f : __kfifo) : __kfifo :=
  mk_kfifo (kf_in f) v (kf_mask f) (kf_esize f) (kf_data f).
Definition set_data (d : list Z) (f : __kfifo) : __kfifo :=
  mk_kfifo (kf_in f) (kf_out f) (kf_mask f) (kf_esize f) d.

(** ** Memory *)

(** [memcpy (mem + off, bs, ...)] *)
Definition write_bytes (mem : list Z) (off : Z) (bs : list Z) : outcome (list Z) :=
  if (0 <=? off) && (off + Z.of_nat (length bs) <=? Z.of_nat (length mem))
  then Ret (take (Z.to_nat off) mem ++ bs ++ drop (Z.to_nat off + length bs) mem)
  else Ub.

(** The [n] bytes at [mem + off]. *)
Definition read_bytes (mem : list Z) (off n : Z) : outcome (list Z) :=
  if (0 <=? off) && (0 <=? n) && (off + n <=? Z.of_nat (length mem))
  then Ret (take (Z.to_nat n) (drop (Z.to_nat off) mem))
  else Ub.

(** ** Sizes and initialisation *)

(** [1UL << fls_long (n - 1)]; a shift by the word width gives 0 on ARM. *)
Definition roundup_pow_of_two (n : Z) : Z := u32 (Z.shiftl 1 (fls (u32 (n - 1)))).

Definition kfifo_unused (f : __kfifo) : Z := u32 (u32 (kf_mask f + 1) - u32 (kf_in f - kf_out f)).

(** [kmalloc] gives a buffer of the requested size with any contents, or fails. *)
Definition __kfifo_alloc (kmalloc : Z -> option (list Z)) (f : __kfifo) (size esize : Z) : Z * __kfifo :=
  let size := roundup_pow_of_two size in
  if size <? 2 then (- EINVAL, mk_kfifo 0 0 0 esize [])
  else match kmalloc (u32 (size * esize)) with
       | None => (- ENOMEM, mk_kfifo 0 0 0 esize [])
       | Some buf => (0, mk_kfifo 0 0 (size - 1) esize buf)
       end.

Definition __kfifo_free (f : __kfifo) : __kfifo := mk_kfifo 0 0 0 0 [].

Definition __kfifo_init (f : __kfifo) (buffer : list Z) (size esize : Z) : outcome (Z * __kfifo) :=
  if esize =? 0 then Ub
  else
    let size := roundup_pow_of_two (size / esize) in
    if size <? 2 then Ret (- EINVAL, mk_kfifo 0 0 0 esize buffer)
    else Ret (0, mk_kfifo 0 0 (size - 1) esize buffer).

(** ** Copying in and out *)

(** The common start of the copy routines: [off], [len] and [l] in bytes. *)
Definition kfifo_span (f : __kfifo) (len off : Z) : Z * Z * Z :=
  let size := u32 (kf_mask f + 1) in
  let off := Z.land off (kf_mask f) in
  let '(off, size, len) :=
    if negb (kf_esize f =? 1)
    then (u32 (off * kf_esize f), u32 (size * kf_esize f), u32 (len * kf_esize f))
    else (off, size, len) in
  (off, len, Z.min len (u32 (size - off))).

Definition kfifo_copy_in (f : __kfifo) (src : list Z) (len off : Z) : outcome __kfifo :=
  let '(off, len, l) := kfifo_span f len off in
  let* s1 := read_bytes src 0 l in
  let* d1 := write_bytes (kf_data f) off s1 in
  let* s2 := read_bytes src l (u32 (len - l)) in
  let* d2 := write_bytes d1 0 s2 in
  Ret (set_data d2 f).

Definition __kfifo_in (f : __kfifo) (buf : list Z) (len : Z) : outcome (Z * __kfifo) :=
  let l := kfifo_unused f in
  let len := if l <? len then l else len in
  let* f1 := kfifo_copy_in f buf len (kf_in f) in
  Ret (len, set_in (u32 (kf_in f1 + len)) f1).

(** The bytes stored at [dst]. *)
Definition kfifo_copy_out (f : __kfifo) (len off : Z) : outcome (list Z) :=
  let '(off, len, l) := kfifo_span f len off in
  let* b1 := read_bytes (kf_data f) off l in
  let* b2 := read_bytes (kf_data f) 0 (u32 (len - l)) in
  Ret (b1 ++ b2).

(** The return value and the bytes stored at [buf]. *)
Definition __kfifo_out_peek (f : __kfifo) (len : Z) : outcome (Z * list Z) :=
  let l := u32 (kf_in f - kf_out f) in
  let len := if l <? len then l else len in
  let* bs := kfifo_copy_out f len (kf_out f) in
  Ret (len, bs).

Definition __kfifo_out (f : __kfifo) (len : Z) : outcome (Z * list Z * __kfifo) :=
  let* (len, bs) := __kfifo_out_peek f len in
  Ret (len, bs, set_out (u32 (kf_out f + len)) f).

(** ** Copying from and to user space *)

Definition DIV_ROUND_UP (n d : Z) : Z := u32 (n + d - 1) / d.

Section User.
(** [copy_from_user addr n]: the number of bytes not copied and the [n] bytes
    the destination holds afterwards.  [copy_to_user addr bs]: the number of
    bytes not copied. *)
Variable copy_from_user : Z -> Z -> Z * list Z.
Variable copy_to_user : Z -> list Z -> Z.

(** The return value, [*copied] and the FIFO. *)
Definition kfifo_copy_from_user (f : __kfifo) (from len off : Z) : outcome (Z * Z * __kfifo) :=
  let '(off, len, l) := kfifo_span f len off in
  let '(ret1, b1) := copy_from_user from l in
  let* d1 := write_bytes (kf_data f) off b1 in
  if negb (ret1 =? 0) then
    let ret := DIV_ROUND_UP (u32 (ret1 + len - l)) (kf_esize f) in
    Ret (ret, u32 (len - ret * kf_esize f), set_data d1 f)
  else
    let '(ret2, b2) := copy_from_user (u32 (from + l)) (u32 (len - l)) in
    let* d2 := write_bytes d1 0 b2 in
    let ret := if negb (ret2 =? 0) then DIV_ROUND_UP ret2 (kf_esize f) else ret2 in
    Ret (ret, u32 (len - ret * kf_esize f), set_data d2 f).

Definition __kfifo_from_user (f : __kfifo) (from len : Z) : outcome (Z * Z * __kfifo) :=
  if kf_esize f =? 0 then Ub
  else
    let len := if negb (kf_esize f =? 1) then len / kf_esize f else len in
    let l := kfifo_unused f in
    let len := if l <? len then l else len in
    let* (ret, copied, f1) := kfifo_copy_from_user f from len (kf_in f) in
    let '(len, err) := if negb (ret =? 0) then (u32 (len - ret), - EFAULT) else (len, 0) in
    Ret (err, copied, set_in (u32 (kf_in f1 + len)) f1).

(** The return value, [*copied] and the bytes copied to user space, by address. *)
Definition kfifo_copy_to_user (f : __kfifo) (to len off : Z) : outcome (Z * Z * list (Z * list Z)) :=
  let '(off, len, l) := kfifo_span f len off in
  let* b1 := read_bytes (kf_data f) off l in
  let ret1 := copy_to_user to b1 in
  let w1 := (to, take (length b1 - Z.to_nat ret1) b1) in
  if negb (ret1 =? 0) then
    let ret := DIV_ROUND_UP (u32 (ret1 + len - l)) (kf_esize f) in
    Ret (ret, u32 (len - ret * kf_esize f), [w1])
  else
    let* b2 := read_bytes (kf_data f) 0 (u32 (len - l)) in
    let ret2 := copy_to_user (u32 (to + l)) b2 in
    let w2 := (u32 (to + l), take (length b2 - Z.to_nat ret2) b2) in
    let ret := if negb (ret2 =? 0) then DIV_ROUND_UP ret2 (kf_esize f) else ret2 in
    Ret (ret, u32 (len - ret * kf_esize f), [w1; w2]).

Definition __kfifo_to_user (f : __kfifo) (to len : Z) : outcome (Z * Z * list (Z * list Z) * __kfifo) :=
  if kf_esize f =? 0 then Ub
  else
    let len := if negb (kf_esize f =? 1) then len / kf_esize f else len in
    let l := u32 (kf_in f - kf_out f) in
    let len := if l <? len then l else len in
    let* (ret, copied, ws) := kfifo_copy_to_user f to len (kf_out f) in
    let '(len, err) := if negb (ret =? 0) then (u32 (len - ret), - EFAULT) else (len, 0) in
    Ret (err, copied, ws, set_out (u32 (kf_out f + len)) f).
End User.

(** ** Records: a length of [recsize] bytes before the data, [esize] 1 *)

Definition __kfifo_max_r (len recsize : Z) : Z :=
  let max := u32 (Z.shiftl 1 (Z.shiftl recsize 3) - 1) in
  if max <? len then max else len.

Definition __KFIFO_PEEK (data : list Z) (out mask : Z) : outcome Z :=
  arr_get data (Z.to_nat (Z.land out mask)).

Definition __kfifo_peek_n (f : __kfifo) (recsize : Z) : outcome Z :=
  let* l := __KFIFO_PEEK (kf_data f) (kf_out f) (kf_mask f) in
  if negb (u32 (recsize - 1) =? 0) then
    let* h := __KFIFO_PEEK (kf_data f) (u32 (kf_out f + 1)) (kf_mask f) in
    Ret (Z.lor l (Z.shiftl h 8))
  else Ret l.

Definition __KFIFO_POKE (data : list Z) (in_ mask val : Z) : outcome (list Z) :=
  arr_set data (Z.to_nat (Z.land in_ mask)) (u8 val).

Definition __kfifo_poke_n (f : __kfifo) (n recsize : Z) : outcome __kfifo :=
  let* d1 := __KFIFO_POKE (kf_data f) (kf_in f) (kf_mask f) n in
  if 1 <? recsize then
    let* d2 := __KFIFO_POKE d1 (u32 (kf_in f + 1)) (kf_mask f) (Z.shiftr n 8) in
    Ret (set_data d2 f)
  else Ret (set_data d1 f).

Definition __kfifo_len_r (f : __kfifo) (recsize : Z) : outcome Z := __kfifo_peek_n f recsize.

Definition __kfifo_in_r (f : __kfifo) (buf : list Z) (len recsize : Z) : outcome (Z * __kfifo) :=
  if kfifo_unused f <? u32 (len + recsize) then Ret (0, f)
  else
    let* f1 := __kfifo_poke_n f len recsize in
    let* f2 := kfifo_copy_in f1 buf len (u32 (kf_in f1 + recsize)) in
    Ret (len, set_in (u32 (kf_in f2 + u32 (len + recsize))) f2).

(** The return value, [*n] and the bytes stored at [buf]. *)
Definition kfifo_out_copy_r (f : __kfifo) (len recsize : Z) : outcome (Z * Z * list Z) :=
  let* n := __kfifo_peek_n f recsize in
  let len := if n <? len then n else len in
  let* bs := kfifo_copy_out f len (u32 (kf_out f + recsize)) in
  Ret (len, n, bs).

Definition __kfifo_out_peek_r (f : __kfifo) (len recsize : Z) : outcome (Z * list Z) :=
  if kf_in f =? kf_out f then Ret (0, [])
  else
    let* (len, _, bs) := kfifo_out_copy_r f len recsize in
    Ret (len, bs).

Definition __kfifo_out_r (f : __kfifo) (len recsize : Z) : outcome (Z * list Z * __kfifo) :=
  if kf_in f =? kf_out f then Ret (0, [], f)
  else
    let* (len, n, bs) := kfifo_out_copy_r f len recsize in
    Ret (len, bs, set_out (u32 (kf_out f + u32 (n + recsize))) f).

Definition __kfifo_skip_r (f : __kfifo) (recsize : Z) : outcome __kfifo :=
  let* n := __kfifo_peek_n f recsize in
  Ret (set_out (u32 (kf_out f + u32 (n + recsize))) f).

(** The return value, [*copied] and the FIFO. *)
Definition __kfifo_from_user_r (copy_from_user : Z -> Z -> Z * list Z) (f : __kfifo) (from len recsize : Z)
    : outcome (Z * Z * __kfifo) :=
  let len := __kfifo_max_r len recsize in
  if kfifo_unused f <? u32 (len + recsize) then Ret (0, 0, f)
  else
    let* f1 := __kfifo_poke_n f len recsize in
    let* (ret, copied, f2) := kfifo_copy_from_user copy_from_user f1 from len (u32 (kf_in f1 + recsize)) in
    if negb (ret =? 0) then Ret (- EFAULT, 0, f2)
    else Ret (0, copied, set_in (u32 (kf_in f2 + u32 (len + recsize))) f2).

Definition __kfifo_to_user_r (copy_to_user : Z -> list Z -> Z) (f : __kfifo) (to len recsize : Z)
    : outcome (Z * Z * list (Z * list Z) * __kfifo) :=
  if kf_in f =? kf_out f then Ret (0, 0, [], f)
  else
    let* n := __kfifo_peek_n f recsize in
    let len := if n <? len then n else len in
    let* (ret, copied, ws) := kfifo_copy_to_user copy_to_user f to len (u32 (kf_out f + recsize)) in
    if negb (ret =? 0) then Ret (- EFAULT, 0, ws, f)
    else Ret (0, copied, ws, set_out (u32 (kf_out f + u32 (n + recsize))) f).

Definition __kfifo_dma_in_finish_r (f : __kfifo) (len recsize : Z) : outcome __kfifo :=
  let len := __kfifo_max_r len recsize in
  let* f1 := __kfifo_poke_n f len recsize in
  Ret (set_in (u32 (kf_in f1 + u32 (len + recsize))) f1).

Definition __kfifo_dma_out_finish_r (f : __kfifo) (recsize : Z) : outcome __kfifo :=
  let* len := __kfifo_peek_n f recsize in
  Ret (set_out (u32 (kf_out f + u32 (len + recsize))) f).

(** ** The macros of kfifo.h, without a record length *)

Definition kfifo_reset (f : __kfifo) : __kfifo := set_in 0 (set_out 0 f).
Definition kfifo_reset_out (f : __kfifo) : __kfifo := set_out (kf_in f) f.
Definition kfifo_len (f : __kfifo) : Z := u32 (kf_in f - kf_out f).
Definition kfifo_is_empty (f : __kfifo) : bool := kf_in f =? kf_out f.
Definition kfifo_is_full (f : __kfifo) : bool := kf_mask f <? kfifo_len f.

Definition kfifo_avail (f : __kfifo) (recsize : Z) : Z :=
  let avail := u32 (u32 (kf_mask f + 1) - kfifo_len f) in
  if negb (recsize =? 0)
  then (if avail <=? recsize then 0 else __kfifo_max_r (u32 (avail - recsize)) recsize)
  else avail.

Definition kfifo_in (f : __kfifo) (buf : list Z) (n recsize : Z) : outcome (Z * __kfifo) :=
  if negb (recsize =? 0) then __kfifo_in_r f buf n recsize else __kfifo_in f buf n.

Definition kfifo_out (f : __kfifo) (n recsize : Z) : outcome (Z * list Z * __kfifo) :=
  if negb (recsize =? 0) then __kfifo_out_r f n recsize else __kfifo_out f n.
