(* ===== verification/KfifoQueue.v ===== *)
(** * The kernel FIFO is a bounded queue

    The ring buffer read from [out] up to [in] is the contents of the FIFO;
    every operation does to the contents what the operation of a bounded queue
    of elements does. *)
From Stdlib Require Import ZArith Lia Bool.
From stdpp Require Import base numbers list.
From S2P Require Import Prelude Kfifo.

(** ** Reading around a ring *)

Definition ring (d : list Z) (o n : nat) : list Z :=
  map (fun j => nth ((o + j) mod length d)%nat d 0) (seq 0 n).

Lemma ring_length d o n : length (ring d o n) = n.
Proof. unfold ring. by rewrite length_map, length_seq. Qed.

Lemma ring_get d o n j : (j < n)%nat -> ring d o n !! j = Some (nth ((o + j) mod length d)%nat d 0).
Proof.
  intros Hj. unfold ring. rewrite list_lookup_fmap, lookup_seq_lt by done. done.
Qed.

Lemma ring_ext d d' o o' n :
  (forall j, (j < n)%nat -> nth ((o + j) mod length d)%nat d 0 = nth ((o' + j) mod length d')%nat d' 0) ->
  ring d o n = ring d' o' n.
Proof.
  intros H. apply list_eq. intros j. destruct (decide (j < n)%nat) as [Hj|Hj].
  - rewrite !ring_get by done. f_equal. by apply H.
  - rewrite !lookup_ge_None_2; [done|..]; rewrite ring_length; lia.
Qed.

Lemma ring_app d o a b : ring d o (a + b) = ring d o a ++ ring d (o + a) b.
Proof.
  unfold ring. rewrite seq_app, map_app. f_equal. simpl.
  rewrite <- (Nat.add_0_r a) at 1. rewrite <- fmap_add_seq, map_map. apply map_ext. intros j. f_equal. f_equal. lia.
Qed.

Lemma ring_mod d o n : ring d (o mod length d) n = ring d o n.
Proof. apply ring_ext. intros j _. by rewrite Nat.Div0.add_mod_idemp_l. Qed.

Lemma ring_take d o n m : (m <= n)%nat -> take m (ring d o n) = ring d o m.
Proof.
  intros H. replace n with (m + (n - m))%nat by lia. rewrite ring_app.
  rewrite take_app_le, take_ge; [done|..]; rewrite ring_length; lia.
Qed.

Lemma ring_drop d o n m : (m <= n)%nat -> drop m (ring d o n) = ring d (o + m) (n - m).
Proof.
  intros H. replace n with (m + (n - m))%nat at 1 by lia. rewrite ring_app.
  rewrite drop_app_ge, ring_length by (rewrite ring_length; lia). by rewrite Nat.sub_diag.
Qed.

(** Two positions that are the same around the ring. *)
Lemma ring_same d o o' n : (o mod length d = o' mod length d)%nat -> ring d o n = ring d o' n.
Proof. intros H. by rewrite <- ring_mod, H, ring_mod. Qed.

Lemma nth_get (d : list Z) i x : d !! i = Some x -> nth i d 0 = x.
Proof. intros H. apply nth_lookup_Some with (d := 0) in H. done. Qed.

Lemma mod_wrap i n : (n <= i < n + n)%nat -> (i mod n = i - n)%nat.
Proof.
  intros H. replace i with ((i - n) + 1 * n)%nat at 1 by lia. rewrite Nat.Div0.mod_add. apply Nat.mod_small. lia.
Qed.

(** ** Writing around the ring *)

(** The two [memcpy] of [kfifo_copy_in]. *)
Definition put_ring (d src : list Z) (off len : nat) : list Z :=
  let l := Nat.min len (length d - off) in
  let d1 := take off d ++ take l src ++ drop (off + l) d in
  take (len - l) (drop l src) ++ drop (len - l) d1.

Lemma put_ring_get d src off len i :
  (off < length d)%nat -> (len <= length d)%nat -> (len <= length src)%nat -> (i < length d)%nat ->
  let l := Nat.min len (length d - off) in
  put_ring d src off len !! i =
    if decide (i < len - l)%nat then src !! (l + i)%nat
    else if decide (off <= i < off + l)%nat then src !! (i - off)%nat else d !! i.
Proof.
  intros Ho Hl Hs Hi l. unfold put_ring. fold l. assert (l <= len)%nat by lia.
  assert (length (take (len - l) (drop l src)) = (len - l)%nat) as E2 by (rewrite length_take, length_drop; lia).
  assert (length (take off d) = off) as E0 by (rewrite length_take; lia).
  assert (length (take l src) = l) as E1 by (rewrite length_take; lia).
  destruct (decide (i < len - l)%nat).
  - rewrite lookup_app_l, lookup_take_lt, lookup_drop by lia. done.
  - rewrite lookup_app_r, E2, lookup_drop by lia. replace (len - l + (i - (len - l)))%nat with i by lia.
    destruct (decide (off <= i < off + l)%nat).
    + rewrite lookup_app_r, E0, lookup_app_l, lookup_take_lt by lia. done.
    + destruct (decide (i < off)%nat).
      * rewrite lookup_app_l, lookup_take_lt by lia. done.
      * rewrite lookup_app_r, E0, lookup_app_r, E1, lookup_drop by lia. f_equal. lia.
Qed.

Lemma put_ring_length d src off len :
  (off < length d)%nat -> (len <= length d)%nat -> (len <= length src)%nat ->
  length (put_ring d src off len) = length d.
Proof.
  intros Ho Hl Hs. unfold put_ring. set (l := Nat.min len (length d - off)).
  repeat rewrite ?length_app, ?length_take, ?length_drop. lia.
Qed.

(** The new bytes are where they should be, and all others are unchanged. *)
Lemma put_ring_new d src off len :
  (off < length d)%nat -> (len <= length d)%nat -> (len <= length src)%nat ->
  ring (put_ring d src off len) off len = take len src.
Proof.
  intros Ho Hl Hs. apply list_eq. intros j. destruct (decide (j < len)%nat) as [Hj|Hj].
  2:{ rewrite !lookup_ge_None_2; [done|..]; rewrite ?ring_length, ?length_take; lia. }
  rewrite ring_get, lookup_take_lt by done. rewrite put_ring_length by done.
  destruct (lookup_lt_is_Some_2 src j) as [x Hx]; [lia|]. rewrite Hx. f_equal. apply nth_get.
  assert ((off + j) mod length d < length d)%nat as Hm by (apply Nat.mod_upper_bound; lia).
  rewrite put_ring_get by done.
  destruct (decide (off + j < length d)%nat).
  - rewrite Nat.mod_small by done. rewrite decide_False by lia. rewrite decide_True by lia.
    rewrite <- Hx. f_equal. lia.
  - rewrite mod_wrap by lia. rewrite decide_True by lia. rewrite <- Hx. f_equal. lia.
Qed.

Lemma put_ring_old d src off len :
  (off < length d)%nat -> (len <= length d)%nat -> (len <= length src)%nat ->
  ring (put_ring d src off len) (off + len) (length d - len) = ring d (off + len) (length d - len).
Proof.
  intros Ho Hl Hs. apply ring_ext. intros j Hj. rewrite put_ring_length by done.
  assert ((off + len + j) mod length d < length d)%nat as Hm by (apply Nat.mod_upper_bound; lia).
  destruct (lookup_lt_is_Some_2 d _ Hm) as [x Hx]. rewrite (nth_get _ _ _ Hx). apply nth_get.
  rewrite put_ring_get by done. rewrite <- Hx.
  assert ((off + len + j) mod length d =
    if decide (off + len + j < length d) then off + len + j else off + len + j - length d)%nat as E.
  { case_decide; [by apply Nat.mod_small|]. apply mod_wrap. lia. }
  rewrite E. case_decide; rewrite decide_False by lia; rewrite decide_False by lia; done.
Qed.

(** ** The invariant *)

Record kf_wf (f : __kfifo) (k : Z) : Prop := {
  wf_k : 1 <= k <= 31;
  wf_mask : kf_mask f = 2 ^ k - 1;
  wf_esize : 1 <= kf_esize f;
  wf_fits : 2 ^ k * kf_esize f < 2 ^ 32;
  wf_data : Z.of_nat (length (kf_data f)) = 2 ^ k * kf_esize f;
  wf_in : 0 <= kf_in f < 2 ^ 32;
  wf_out : 0 <= kf_out f < 2 ^ 32;
  wf_used : kfifo_len f <= 2 ^ k
}.

(** The byte position of an index, and the number of bytes of [n] elements. *)
Definition pos (f : __kfifo) (off : Z) : nat := Z.to_nat (off mod (kf_mask f + 1) * kf_esize f).
Definition bytes (f : __kfifo) (n : Z) : nat := Z.to_nat (n * kf_esize f).

Definition contents (f : __kfifo) : list Z := ring (kf_data f) (pos f (kf_out f)) (bytes f (kfifo_len f)).

Lemma wf_pow f k : kf_wf f k -> 2 <= 2 ^ k <= 2 ^ 31.
Proof.
  intros H. pose proof (wf_k _ _ H). split; [change 2 with (2 ^ 1) at 1|]; apply Z.pow_le_mono_r; lia.
Qed.

Lemma wf_land f k off : kf_wf f k -> Z.land off (kf_mask f) = off mod 2 ^ k.
Proof.
  intros H. rewrite (wf_mask _ _ H). replace (2 ^ k - 1) with (Z.ones k) by (rewrite Z.ones_equiv; lia).
  apply Z.land_ones. pose proof (wf_k _ _ H). lia.
Qed.

Lemma pos_lt f k off : kf_wf f k -> (pos f off < length (kf_data f))%nat.
Proof.
  intros H. pose proof (wf_pow _ _ H). pose proof (wf_esize _ _ H). pose proof (wf_data _ _ H). unfold pos.
  rewrite (wf_mask _ _ H). replace (2 ^ k - 1 + 1) with (2 ^ k) by lia.
  pose proof (Z.mod_pos_bound off (2 ^ k)). nia.
Qed.

Lemma kfifo_span_spec f k len off : kf_wf f k -> 0 <= len <= 2 ^ k ->
  kfifo_span f len off =
    (Z.of_nat (pos f off), Z.of_nat (bytes f len),
     Z.of_nat (Nat.min (bytes f len) (length (kf_data f) - pos f off))).
Proof.
  intros H Hlen. pose proof (wf_pow _ _ H). pose proof (wf_esize _ _ H). pose proof (wf_data _ _ H) as Hd.
  pose proof (wf_fits _ _ H). pose proof (pos_lt f k off H) as Hp.
  pose proof (Z.mod_pos_bound off (2 ^ k)). unfold kfifo_span. rewrite (wf_land f k off H), (wf_mask _ _ H).
  replace (2 ^ k - 1 + 1) with (2 ^ k) by lia. rewrite (u32_small (2 ^ k)) by (unfold U32_MAX; lia).
  assert (Z.of_nat (pos f off) = off mod 2 ^ k * kf_esize f) as Ep.
  { unfold pos. rewrite (wf_mask _ _ H). replace (2 ^ k - 1 + 1) with (2 ^ k) by lia. lia. }
  assert (Z.of_nat (bytes f len) = len * kf_esize f) as Eb by (unfold bytes; lia).
  assert (off mod 2 ^ k * kf_esize f < 2 ^ k * kf_esize f) by nia.
  assert (len * kf_esize f <= 2 ^ k * kf_esize f) by nia.
  destruct (Z.eqb_spec (kf_esize f) 1) as [E1|_]; simpl.
  - rewrite E1, Z.mul_1_r in *. rewrite u32_small by (unfold U32_MAX; lia).
    repeat f_equal; lia.
  - rewrite !(u32_small (_ * _)) by (unfold U32_MAX; lia). rewrite u32_small by (unfold U32_MAX; lia).
    repeat f_equal; lia.
Qed.

Lemma read_bytes_in mem off n : (off + n <= length mem)%nat ->
  read_bytes mem (Z.of_nat off) (Z.of_nat n) = Ret (take n (drop off mem)).
Proof.
  intros H. unfold read_bytes. rewrite !Nat2Z.id. by repeat (cmp; [|lia]).
Qed.

Lemma write_bytes_in mem off bs : (off + length bs <= length mem)%nat ->
  write_bytes mem (Z.of_nat off) bs = Ret (take off mem ++ bs ++ drop (off + length bs) mem).
Proof.
  intros H. unfold write_bytes. rewrite !Nat2Z.id. by repeat (cmp; [|lia]).
Qed.

Lemma bytes_le f k n : kf_wf f k -> 0 <= n <= 2 ^ k -> (bytes f n <= length (kf_data f))%nat.
Proof.
  intros H Hn. pose proof (wf_data _ _ H). pose proof (wf_esize _ _ H). unfold bytes. nia.
Qed.

Lemma copy_in_ring f k src len off : kf_wf f k -> 0 <= len <= 2 ^ k -> (bytes f len <= length src)%nat ->
  kfifo_copy_in f src len off = Ret (set_data (put_ring (kf_data f) src (pos f off) (bytes f len)) f).
Proof.
  intros H Hlen Hs. unfold kfifo_copy_in. rewrite (kfifo_span_spec f k) by done.
  pose proof (pos_lt f k off H). pose proof (bytes_le f k len H Hlen). pose proof (wf_data _ _ H). pose proof (wf_fits _ _ H).
  set (l := Nat.min _ _). assert (l <= bytes f len)%nat by lia.
  rewrite <- Nat2Z.inj_sub by done. rewrite u32_small by (unfold U32_MAX; lia).
  change 0 with (Z.of_nat 0). rewrite read_bytes_in by lia. cbn [obind]. rewrite drop_0.
  rewrite write_bytes_in by (rewrite length_take; lia). cbn [obind].
  rewrite read_bytes_in by lia. cbn [obind].
  rewrite write_bytes_in by (repeat rewrite ?length_app, ?length_take, ?length_drop; lia). cbn [obind].
  f_equal. f_equal. unfold put_ring. fold l. rewrite take_0, Nat.add_0_l. simpl app.
  assert (length (take (bytes f len - l) (drop l src)) = bytes f len - l)%nat as ->
    by (rewrite length_take, length_drop; lia).
  assert (length (take l src) = l) as -> by (rewrite length_take; lia). done.
Qed.

Lemma copy_out_ring f k len off : kf_wf f k -> 0 <= len <= 2 ^ k ->
  kfifo_copy_out f len off = Ret (ring (kf_data f) (pos f off) (bytes f len)).
Proof.
  intros H Hlen. unfold kfifo_copy_out. rewrite (kfifo_span_spec f k) by done.
  pose proof (pos_lt f k off H). pose proof (bytes_le f k len H Hlen). pose proof (wf_data _ _ H). pose proof (wf_fits _ _ H).
  set (l := Nat.min _ _). assert (l <= bytes f len)%nat by lia.
  rewrite <- Nat2Z.inj_sub by done. rewrite u32_small by (unfold U32_MAX; lia).
  rewrite read_bytes_in by lia. cbn [obind].
  change 0 with (Z.of_nat 0). rewrite read_bytes_in by lia. cbn [obind]. rewrite drop_0. f_equal.
  set (d := kf_data f) in *. set (p := pos f off) in *. set (n := bytes f len) in *.
  apply list_eq. intros j. destruct (decide (j < n)%nat) as [Hj|Hj].
  - rewrite ring_get by done. destruct (decide (j < l)%nat).
    + rewrite lookup_app_l, lookup_take_lt, lookup_drop by (rewrite ?length_take, ?length_drop; lia).
      rewrite Nat.mod_small by lia. symmetry.
      destruct (lookup_lt_is_Some_2 d (p + j)) as [x Hx]; [lia|]. by rewrite Hx, (nth_get _ _ _ Hx).
    + rewrite lookup_app_r by (rewrite length_take, length_drop; lia). rewrite length_take, length_drop.
      rewrite lookup_take_lt by lia. rewrite mod_wrap by lia.
      destruct (lookup_lt_is_Some_2 d (p + j - length d)) as [x Hx]; [lia|]. rewrite (nth_get _ _ _ Hx), <- Hx.
      f_equal. lia.
  - rewrite !lookup_ge_None_2; [done|..]; rewrite ?ring_length; [lia|].
    repeat rewrite ?length_app, ?length_take, ?length_drop. lia.
Qed.

(** ** Indices *)

Lemma len_range f k : kf_wf f k -> 0 <= kfifo_len f <= 2 ^ k.
Proof. intros H. pose proof (wf_used _ _ H). unfold kfifo_len in *. pose proof (u32_range (kf_in f - kf_out f)). lia. Qed.

Lemma unused_val f k : kf_wf f k -> kfifo_unused f = 2 ^ k - kfifo_len f.
Proof.
  intros H. pose proof (len_range f k H) as Hl. pose proof (wf_pow _ _ H).
  unfold kfifo_unused. fold (kfifo_len f). rewrite (wf_mask _ _ H). replace (2 ^ k - 1 + 1) with (2 ^ k) by lia.
  rewrite (u32_small (2 ^ k)) by (unfold U32_MAX; lia). apply u32_small. unfold U32_MAX. lia.
Qed.

Lemma in_out f k : kf_wf f k -> kf_in f = u32 (kf_out f + kfifo_len f).
Proof.
  intros H. pose proof (wf_in _ _ H). unfold kfifo_len. rewrite Z.add_comm, u32_add_l.
  rewrite u32_small by (unfold U32_MAX; lia). lia.
Qed.

Lemma u32_pow_mod k z : 0 <= k <= 32 -> u32 z mod 2 ^ k = z mod 2 ^ k.
Proof.
  intros Hk. unfold wrap. apply Z.mod_mod_divide.
  exists (2 ^ (32 - k)). rewrite <- Z.pow_add_r by lia. f_equal. lia.
Qed.

Lemma pos_add f k o n : kf_wf f k -> 0 <= o -> 0 <= n ->
  (pos f (u32 (o + n)) mod length (kf_data f) = (pos f o + bytes f n) mod length (kf_data f))%nat.
Proof.
  intros H Ho Hn. pose proof (wf_k _ _ H). pose proof (wf_pow _ _ H). pose proof (wf_esize _ _ H).
  apply Nat2Z.inj. rewrite !Nat2Z.inj_mod, Nat2Z.inj_add, (wf_data _ _ H). unfold pos, bytes.
  rewrite (wf_mask _ _ H). replace (2 ^ k - 1 + 1) with (2 ^ k) by lia.
  pose proof (Z.mod_pos_bound o (2 ^ k)). pose proof (Z.mod_pos_bound (u32 (o + n)) (2 ^ k)).
  rewrite !Z2Nat.id by nia. rewrite u32_pow_mod by lia. rewrite <- Z.mul_add_distr_r.
  rewrite !Z.mul_mod_distr_r by lia. rewrite Z.mod_mod by lia. by rewrite Z.add_mod_idemp_l by lia.
Qed.

Lemma bytes_add f a b : 0 <= a -> 0 <= b -> 0 <= kf_esize f -> bytes f (a + b) = (bytes f a + bytes f b)%nat.
Proof. intros. unfold bytes. rewrite Z.mul_add_distr_r, Z2Nat.inj_add by nia. done. Qed.

Lemma ring_part d d' o m a b : ring d' o m = ring d o m -> (a + b <= m)%nat ->
  ring d' (o + a) b = ring d (o + a) b.
Proof.
  intros H Hab. rewrite <- (ring_take d' _ (m - a)), <- (ring_take d _ (m - a)) by lia.
  rewrite <- !ring_drop by lia. by rewrite H.
Qed.

(** A FIFO whose buffer got the bytes of [src] after its contents. *)
Lemma contents_put f k src n :
  kf_wf f k -> 0 <= n <= kfifo_unused f -> (bytes f n <= length src)%nat ->
  let f' := set_in (u32 (kf_in f + n)) (set_data (put_ring (kf_data f) src (pos f (kf_in f)) (bytes f n)) f) in
  kf_wf f' k /\ contents f' = contents f ++ take (bytes f n) src /\ kfifo_len f' = kfifo_len f + n.
Proof.
  intros H Hn Hs f'. pose proof (len_range f k H) as Hl. rewrite (unused_val f k H) in Hn.
  pose proof (wf_pow _ _ H). pose proof (wf_esize _ _ H). pose proof (wf_out _ _ H). pose proof (wf_in _ _ H).
  pose proof (pos_lt f k (kf_in f) H) as Hpi. pose proof (bytes_le f k n H ltac:(lia)) as Hbn.
  assert (kfifo_len f' = kfifo_len f + n) as El.
  { unfold f', kfifo_len. simpl. rewrite u32_sub_l. replace (kf_in f + n - kf_out f) with (kf_in f - kf_out f + n) by lia.
    rewrite <- u32_add_l. fold (kfifo_len f). apply u32_small. unfold U32_MAX. lia. }
  split_and!; [|unfold contents; rewrite El|done].
  - destruct H. split; try done; simpl; try (rewrite put_ring_length; done).
    + pose proof (u32_range (kf_in f + n)). unfold U32_MAX in *. lia.
    + change (kfifo_len f' <= 2 ^ k). lia.
  - unfold f'. simpl kf_data. simpl kf_out. change (pos (set_in _ (set_data _ f))) with (pos f).
    change (bytes (set_in _ (set_data _ f))) with (bytes f). rewrite bytes_add by lia.
    set (d' := put_ring _ _ _ _). assert (length d' = length (kf_data f)) as Ed by (by apply put_ring_length).
    assert ((pos f (kf_in f) mod length (kf_data f) =
             (pos f (kf_out f) + bytes f (kfifo_len f)) mod length (kf_data f))%nat) as Ep.
    { rewrite (in_out f k H) at 1. apply (pos_add f k); try done; lia. }
    rewrite ring_app. f_equal.
    + pose proof (put_ring_old (kf_data f) src (pos f (kf_in f)) (bytes f n) Hpi Hbn Hs) as Eo. fold d' in Eo.
      set (N := length (kf_data f)) in *.
      assert (bytes f (kfifo_len f) + bytes f n <= N)%nat as Hfit.
      { rewrite <- bytes_add by lia. apply (bytes_le f k); [done|lia]. }
      pose proof (ring_part _ _ _ _ (N - bytes f n - bytes f (kfifo_len f)) (bytes f (kfifo_len f)) Eo ltac:(lia)) as Er.
      assert ((pos f (kf_in f) + bytes f n + (N - bytes f n - bytes f (kfifo_len f))) mod N
              = pos f (kf_out f) mod N)%nat as Em.
      { replace (pos f (kf_in f) + bytes f n + (N - bytes f n - bytes f (kfifo_len f)))%nat
          with (pos f (kf_in f) + (N - bytes f (kfifo_len f)))%nat by lia.
        rewrite <- Nat.Div0.add_mod_idemp_l, Ep, Nat.Div0.add_mod_idemp_l.
        replace (pos f (kf_out f) + bytes f (kfifo_len f) + (N - bytes f (kfifo_len f)))%nat
          with (pos f (kf_out f) + 1 * N)%nat by lia. apply Nat.Div0.mod_add. }
      rewrite (ring_same d' _ (pos f (kf_out f))) in Er by (by rewrite Ed).
      rewrite (ring_same (kf_data f) _ (pos f (kf_out f))) in Er by done. done.
    + rewrite (ring_same d' _ (pos f (kf_in f))) by (rewrite Ed; by symmetry).
      by apply put_ring_new.
Qed.

(** A FIFO read to further on. *)
Lemma contents_skip f k n : kf_wf f k -> 0 <= n <= kfifo_len f ->
  let f' := set_out (u32 (kf_out f + n)) f in
  kf_wf f' k /\ contents f' = drop (bytes f n) (contents f) /\ kfifo_len f' = kfifo_len f - n.
Proof.
  intros H Hn f'. pose proof (len_range f k H) as Hl. pose proof (wf_pow _ _ H). pose proof (wf_esize _ _ H).
  pose proof (wf_out _ _ H).
  assert (kfifo_len f' = kfifo_len f - n) as El.
  { unfold f', kfifo_len. simpl. rewrite <- (u32_small (u32 (kf_in f - kf_out f) - n)).
    - rewrite u32_sub_l. unfold wrap. rewrite Zminus_mod_idemp_r. f_equal. lia.
    - change (0 <= kfifo_len f - n <= U32_MAX). unfold U32_MAX. lia. }
  split_and!; [|unfold contents; rewrite El|done].
  - destruct H. split; try done; simpl.
    + pose proof (u32_range (kf_out f + n)). unfold U32_MAX in *. lia.
    + change (kfifo_len f' <= 2 ^ k). lia.
  - unfold f'. simpl kf_data. simpl kf_out. change (pos (set_out _ f)) with (pos f).
    change (bytes (set_out _ f)) with (bytes f). pose proof (bytes_add f n (kfifo_len f - n)) as Eb.
    replace (n + (kfifo_len f - n)) with (kfifo_len f) in Eb by lia.
    rewrite ring_drop by lia. rewrite (ring_same _ _ (pos f (kf_out f) + bytes f n)); [f_equal; lia|].
    apply (pos_add f k); try done; lia.
Qed.

Lemma contents_length f k : kf_wf f k -> length (contents f) = bytes f (kfifo_len f).
Proof. intros _. apply ring_length. Qed.

(** ** The operations *)

Lemma clip_val (l len : Z) : (if l <? len then l else len) = Z.min len l.
Proof. cmp; lia. Qed.

Lemma bytes_set f n len : 0 <= kf_esize f -> n <= len -> (bytes f n <= bytes f len)%nat.
Proof. intros. unfold bytes. nia. Qed.

Lemma kfifo_in_spec f k buf len :
  kf_wf f k -> 0 <= len -> (bytes f len <= length buf)%nat ->
  let n := Z.min len (2 ^ k - kfifo_len f) in
  exists f', __kfifo_in f buf len = Ret (n, f') /\ kf_wf f' k
    /\ contents f' = contents f ++ take (bytes f n) buf /\ kfifo_len f' = kfifo_len f + n
    /\ kf_esize f' = kf_esize f.
Proof.
  intros H Hlen Hb n. pose proof (len_range f k H). pose proof (wf_esize _ _ H).
  unfold __kfifo_in. rewrite clip_val, (unused_val f k H). fold n.
  assert (bytes f n <= length buf)%nat as Hb' by (pose proof (bytes_set f n len); lia).
  rewrite (copy_in_ring f k) by (done || lia). cbn [obind]. eexists. split; [reflexivity|].
  destruct (contents_put f k buf n H ltac:(rewrite (unused_val f k H); lia) Hb') as (? & ? & ?).
  split_and!; done.
Qed.

Lemma kfifo_peek_spec f k len : kf_wf f k -> 0 <= len ->
  let n := Z.min len (kfifo_len f) in
  __kfifo_out_peek f len = Ret (n, take (bytes f n) (contents f)).
Proof.
  intros H Hlen n. pose proof (len_range f k H). pose proof (wf_esize _ _ H). unfold __kfifo_out_peek.
  fold (kfifo_len f). rewrite clip_val. fold n. rewrite (copy_out_ring f k) by (done || lia). cbn [obind].
  unfold contents. rewrite ring_take by (apply bytes_set; lia). done.
Qed.

Lemma kfifo_out_spec f k len : kf_wf f k -> 0 <= len ->
  let n := Z.min len (kfifo_len f) in
  exists f', __kfifo_out f len = Ret (n, take (bytes f n) (contents f), f') /\ kf_wf f' k
    /\ contents f' = drop (bytes f n) (contents f) /\ kfifo_len f' = kfifo_len f - n /\ kf_esize f' = kf_esize f.
Proof.
  intros H Hlen n. pose proof (len_range f k H). unfold __kfifo_out. rewrite (kfifo_peek_spec f k) by done.
  fold n. cbn [obind]. eexists. split; [reflexivity|].
  destruct (contents_skip f k n H ltac:(lia)) as (? & ? & ?). split_and!; done.
Qed.

(** ** A bounded queue *)

(** The operations of one user of the FIFO. *)
Inductive fifo_op :=
| In (buf : list Z)
| Out (n : Z)
| Peek (n : Z)
| ResetOut.

(** What an operation returned: a count and the bytes stored. *)
Definition fifo_ret : Type := Z * list Z.

Definition fifo_do (f : __kfifo) (o : fifo_op) : outcome (fifo_ret * __kfifo) :=
  match o with
  | In buf => let* (n, f') := __kfifo_in f buf (Z.of_nat (length buf) / kf_esize f) in Ret ((n, []), f')
  | Out n => let* (n', bs, f') := __kfifo_out f n in Ret ((n', bs), f')
  | Peek n => let* (n', bs) := __kfifo_out_peek f n in Ret ((n', bs), f)
  | ResetOut => Ret ((0, []), kfifo_reset_out f)
  end.

Fixpoint fifo_run (f : __kfifo) (os : list fifo_op) : outcome (list fifo_ret * __kfifo) :=
  match os with
  | [] => Ret ([], f)
  | o :: os' =>
      let* (r, f1) := fifo_do f o in
      let* (rs, f2) := fifo_run f1 os' in
      Ret (r :: rs, f2)
  end.

(** The specification: at most [cap] elements of [e] bytes, in a list. *)
Definition queue_do (cap e : Z) (q : list Z) (o : fifo_op) : fifo_ret * list Z :=
  let used := Z.of_nat (length q) / e in
  match o with
  | In buf => let n := Z.min (Z.of_nat (length buf) / e) (cap - used) in
              ((n, []), q ++ take (Z.to_nat (n * e)) buf)
  | Out n => let n' := Z.min n used in
             ((n', take (Z.to_nat (n' * e)) q), drop (Z.to_nat (n' * e)) q)
  | Peek n => let n' := Z.min n used in ((n', take (Z.to_nat (n' * e)) q), q)
  | ResetOut => ((0, []), [])
  end.

Fixpoint queue_run (cap e : Z) (q : list Z) (os : list fifo_op) : list fifo_ret * list Z :=
  match os with
  | [] => ([], q)
  | o :: os' =>
      let '(r, q1) := queue_do cap e q o in
      let '(rs, q2) := queue_run cap e q1 os' in
      (r :: rs, q2)
  end.

Definition op_ok (o : fifo_op) : Prop :=
  match o with Out n | Peek n => 0 <= n | _ => True end.

Lemma used_contents f k : kf_wf f k -> Z.of_nat (length (contents f)) / kf_esize f = kfifo_len f.
Proof.
  intros H. rewrite (contents_length f k H). unfold bytes. pose proof (wf_esize _ _ H).
  pose proof (len_range f k H). rewrite Z2Nat.id by nia. apply Z.div_mul. lia.
Qed.

Lemma fifo_do_refines f k o : kf_wf f k -> op_ok o ->
  exists f', fifo_do f o = Ret (fst (queue_do (2 ^ k) (kf_esize f) (contents f) o), f') /\ kf_wf f' k
    /\ contents f' = snd (queue_do (2 ^ k) (kf_esize f) (contents f) o) /\ kf_esize f' = kf_esize f.
Proof.
  intros H Ho. pose proof (wf_esize _ _ H). unfold queue_do. rewrite (used_contents f k H). destruct o as [buf|n|n|]; simpl.
  - destruct (kfifo_in_spec f k buf (Z.of_nat (length buf) / kf_esize f) H) as (f' & E & H1 & H2 & _ & H4).
    + apply Z.div_pos; lia.
    + unfold bytes. pose proof (Z.mul_div_le (Z.of_nat (length buf)) (kf_esize f)). nia.
    + rewrite E. cbn [obind]. exists f'. done.
  - destruct (kfifo_out_spec f k n H Ho) as (f' & E & H1 & H2 & _ & H4). rewrite E. cbn [obind]. exists f'. done.
  - rewrite (kfifo_peek_spec f k) by done. cbn [obind]. exists f. done.
  - exists (kfifo_reset_out f). split; [done|]. pose proof (wf_pow _ _ H).
    assert (kfifo_len (kfifo_reset_out f) = 0) as E0 by (unfold kfifo_len; simpl; by rewrite Z.sub_diag).
    split_and!; [|unfold contents; by rewrite E0|done]. destruct H. split; try done. rewrite E0. lia.
Qed.

Lemma fifo_run_spec f k os : kf_wf f k -> Forall op_ok os ->
  exists f', fifo_run f os = Ret (fst (queue_run (2 ^ k) (kf_esize f) (contents f) os), f') /\ kf_wf f' k
    /\ contents f' = snd (queue_run (2 ^ k) (kf_esize f) (contents f) os).
Proof.
  intros H Ho. revert f H. induction Ho as [|o os Ho Hos IH]; intros f H; [by exists f|].
  destruct (fifo_do_refines f k o H Ho) as (f1 & E1 & H1 & C1 & S1). simpl. rewrite E1. cbn [obind].
  destruct (queue_do (2 ^ k) (kf_esize f) (contents f) o) as [r q1]. simpl in *.
  destruct (IH f1 H1) as (f2 & E2 & H2 & C2). rewrite C1, S1 in *. rewrite E2. cbn [obind].
  destruct (queue_run (2 ^ k) (kf_esize f) q1 os) as [rs q2]. exists f2. done.
Qed.

(** C25: the FIFO refines a bounded queue: from any consistent FIFO of 2^k
    elements, every sequence of in, out, peek and reset-out calls returns the
    counts and bytes the queue of elements returns, never accesses memory outside
    the buffer, and leaves a consistent FIFO with the queue's contents, however
    often the 32-bit counters and the ring wrap around. *)
Theorem kfifo_refines_queue f k os :
  kf_wf f k -> Forall op_ok os ->
  exists f', fifo_run f os = Ret (fst (queue_run (2 ^ k) (kf_esize f) (contents f) os), f') /\ kf_wf f' k
    /\ contents f' = snd (queue_run (2 ^ k) (kf_esize f) (contents f) os).
Proof. apply fifo_run_spec. Qed.

(** ** Initialisation *)

Lemma roundup_val n : 1 <= n <= 2 ^ 31 -> roundup_pow_of_two n = 2 ^ Z.log2_up n.
Proof.
  intros Hn. unfold roundup_pow_of_two, fls. rewrite (u32_small (n - 1)) by (unfold U32_MAX; lia).
  assert (0 <= Z.log2_up n <= 31) as Hb.
  { split; [apply Z.log2_up_nonneg|]. apply Z.log2_up_le_pow2; lia. }
  assert ((if n - 1 =? 0 then 0 else Z.log2 (n - 1) + 1) = Z.log2_up n) as ->.
  { unfold Z.log2_up. destruct (Z.eqb_spec (n - 1) 0).
    - assert (n = 1) as -> by lia. done.
    - rewrite (proj2 (Z.compare_lt_iff 1 n)) by lia. rewrite <- Z.sub_1_r. lia. }
  rewrite Z.shiftl_mul_pow2, Z.mul_1_l by lia. apply u32_small. unfold U32_MAX.
  assert (2 ^ Z.log2_up n <= 2 ^ 31) by (apply Z.pow_le_mono_r; lia).
  assert (0 < 2 ^ Z.log2_up n) by (apply Z.pow_pos_nonneg; lia). lia.
Qed.

Lemma fresh_wf k esize buf : 1 <= k <= 31 -> 1 <= esize -> 2 ^ k * esize < 2 ^ 32 ->
  Z.of_nat (length buf) = 2 ^ k * esize ->
  kf_wf (mk_kfifo 0 0 (2 ^ k - 1) esize buf) k /\ contents (mk_kfifo 0 0 (2 ^ k - 1) esize buf) = [].
Proof.
  intros Hk He Hf Hb. split; [|done]. assert (0 < 2 ^ k) by (apply Z.pow_pos_nonneg; lia).
  split; simpl; try done. change (0 <= 2 ^ k). lia.
Qed.

(** __kfifo_alloc for 2 to 2^31 elements, when the byte size fits the word,
    either fails with -ENOMEM and leaves the FIFO without a buffer, or gives an
    empty consistent FIFO of the next power of two of elements, at least as many
    and fewer than twice as many as asked for. *)
Theorem kfifo_alloc_correct (kmalloc : Z -> option (list Z)) f size esize :
  (forall n buf, kmalloc n = Some buf -> Z.of_nat (length buf) = n) ->
  2 <= size <= 2 ^ 31 -> 1 <= esize -> 2 ^ Z.log2_up size * esize < 2 ^ 32 ->
  (kmalloc (2 ^ Z.log2_up size * esize) = None
     /\ __kfifo_alloc kmalloc f size esize = (- ENOMEM, mk_kfifo 0 0 0 esize []))
  \/ (exists f', __kfifo_alloc kmalloc f size esize = (0, f') /\ kf_wf f' (Z.log2_up size) /\ contents f' = []
        /\ size <= kf_mask f' + 1 < 2 * size).
Proof.
  intros Hm Hs He Hf. unfold __kfifo_alloc. rewrite roundup_val by lia.
  destruct (Z.log2_up_spec size ltac:(lia)) as [Hlo Hhi].
  assert (1 <= Z.log2_up size <= 31) as Hk.
  { split; [apply (Z.log2_up_le_mono 2); lia|]. apply Z.log2_up_le_pow2; lia. }
  rewrite (proj2 (Z.ltb_ge (2 ^ Z.log2_up size) 2)) by lia. rewrite u32_small by (unfold U32_MAX; nia).
  destruct (kmalloc (2 ^ Z.log2_up size * esize)) as [buf|] eqn:E; [right|by left].
  destruct (fresh_wf (Z.log2_up size) esize buf Hk He Hf (Hm _ _ E)) as [H1 H2].
  eexists. split; [reflexivity|]. split_and!; try done; simpl; [lia|].
  replace (Z.log2_up size) with (Z.succ (Z.pred (Z.log2_up size))) by lia. rewrite Z.pow_succ_r by lia. lia.
Qed.

(** ** User space *)

Lemma div_up_sub e len r : 1 <= e -> 0 <= r <= len * e -> len * e + e < 2 ^ 32 ->
  let q := DIV_ROUND_UP r e in 0 <= q <= len /\ len - q = (len * e - r) / e.
Proof.
  intros He Hr Hlt q. unfold q, DIV_ROUND_UP. rewrite u32_small by (unfold U32_MAX; lia).
  pose proof (Z.div_mod (r + e - 1) e). pose proof (Z.mod_pos_bound (r + e - 1) e).
  split.
  - split; [apply Z.div_pos; lia|]. apply Z.lt_succ_r, Z.div_lt_upper_bound; nia.
  - apply (Z.div_unique _ _ _ (e * ((r + e - 1) / e) - r)); lia.
Qed.
