(* ===== verification/KfifoUser.v ===== *)
(** * The kernel FIFO and user space

    [copy_from_user] and [copy_to_user] may stop anywhere; whole elements that
    arrived are taken over, and the rest of the request is reported. *)
From Stdlib Require Import ZArith Lia Bool.
From stdpp Require Import base numbers list.
From S2P Require Import Prelude Kfifo KfifoQueue.

(** A buffer that got [n] elements, of which only [m] are taken over. *)
Lemma contents_put_some f k src n m :
  kf_wf f k -> 0 <= m <= n -> n <= kfifo_unused f -> (bytes f n <= length src)%nat ->
  let f' := set_in (u32 (kf_in f + m)) (set_data (put_ring (kf_data f) src (pos f (kf_in f)) (bytes f n)) f) in
  kf_wf f' k /\ contents f' = contents f ++ take (bytes f m) src /\ kfifo_len f' = kfifo_len f + m.
Proof.
  intros H Hm Hn Hs f'. pose proof (len_range f k H). pose proof (unused_val f k H) as Eu. pose proof (wf_esize _ _ H).
  pose proof (wf_pow _ _ H).
  destruct (contents_put f k src n H ltac:(lia) Hs) as (Hw & Hc & Hl).
  set (g := set_in (u32 (kf_in f + n)) _) in *.
  assert (kfifo_len f' = kfifo_len f + m) as El.
  { unfold f', kfifo_len. simpl. rewrite u32_sub_l. replace (kf_in f + m - kf_out f) with (kf_in f - kf_out f + m) by lia.
    rewrite <- u32_add_l. fold (kfifo_len f). apply u32_small. unfold U32_MAX. lia. }
  split_and!; [| |done].
  - destruct Hw. split; try done; simpl.
    + pose proof (u32_range (kf_in f + m)). unfold U32_MAX in *. lia.
    + change (kfifo_len f' <= 2 ^ k). lia.
  - unfold contents in Hc |- *. rewrite El. rewrite Hl in Hc.
    change (kf_data g) with (kf_data f') in Hc. change (pos g (kf_out g)) with (pos f' (kf_out f')) in Hc.
    change (bytes g) with (bytes f') in Hc. change (bytes f) with (bytes f') in Hc |- *.
    rewrite <- (ring_take _ _ (bytes f' (kfifo_len f + n))) by (apply bytes_set; simpl; lia). rewrite Hc.
    assert (bytes f' (kfifo_len f + m) = (bytes f' (kfifo_len f) + bytes f' m)%nat) as -> by (apply bytes_add; simpl; lia).
    rewrite take_app, ring_length, (take_ge (ring _ _ _)) by (rewrite ring_length; lia).
    rewrite Nat.add_comm, Nat.add_sub, take_take. f_equal. f_equal.
    pose proof (bytes_set f' m n ltac:(simpl; lia) ltac:(lia)). lia.
Qed.

(** Writing up to the end of the ring, and both parts. *)
Lemma put_ring_flat d bs off : (off + length bs <= length d)%nat ->
  put_ring d bs off (length bs) = take off d ++ bs ++ drop (off + length bs) d.
Proof.
  intros H. unfold put_ring. replace (Nat.min (length bs) (length d - off)) with (length bs) by lia.
  rewrite Nat.sub_diag, take_0, drop_0, firstn_all. done.
Qed.

Lemma put_ring_two d b1 b2 off : (off < length d)%nat -> (length b2 = 0 \/ off + length b1 = length d)%nat ->
  (off + length b1 <= length d)%nat ->
  put_ring d (b1 ++ b2) off (length b1 + length b2)
  = b2 ++ drop (length b2) (take off d ++ b1 ++ drop (off + length b1) d).
Proof.
  intros Ho Hor Hle. unfold put_ring.
  replace (Nat.min (length b1 + length b2) (length d - off)) with (length b1) by lia.
  rewrite Nat.add_comm, Nat.add_sub, drop_app_length, take_app_length, firstn_all. done.
Qed.

(** The three small computations the two directions share. *)
Lemma elems_val e len : (if negb (e =? 1) then len / e else len) = len / e.
Proof. destruct (Z.eqb_spec e 1) as [->|]; simpl; [by rewrite Z.div_1_r|done]. Qed.

Lemma short_val n ret : 0 <= ret <= n -> n < 2 ^ 32 ->
  (if negb (ret =? 0) then (u32 (n - ret), - EFAULT) else (n, 0)) = (n - ret, if negb (ret =? 0) then - EFAULT else 0).
Proof.
  intros H Hn. destruct (Z.eqb_spec ret 0) as [->|]; simpl; [by rewrite Z.sub_0_r|]. f_equal.
  apply u32_small. unfold U32_MAX. lia.
Qed.

Lemma div_up_0 r e : 1 <= e < 2 ^ 32 -> (if negb (r =? 0) then DIV_ROUND_UP r e else r) = DIV_ROUND_UP r e.
Proof.
  intros He. destruct (Z.eqb_spec r 0) as [->|]; [|done]. simpl. unfold DIV_ROUND_UP.
  rewrite u32_small by (unfold U32_MAX; lia). symmetry. apply Z.div_small. lia.
Qed.

Section User.
(** What user space holds, and the documented behaviour of the two copies:
    [copy_from_user] returns the number of bytes it could not copy, after a
    prefix that it did copy. *)
Variable user : Z -> Z.
Variable copy_from_user : Z -> Z -> Z * list Z.
Variable copy_to_user : Z -> list Z -> Z.

Definition user_bytes (a : Z) (n : nat) : list Z := map (fun i => user (u32 (a + Z.of_nat i))) (seq 0 n).

Definition copies_from : Prop := forall a n r bs, 0 <= n -> copy_from_user a n = (r, bs) ->
  0 <= r <= n /\ Z.of_nat (length bs) = n
  /\ take (Z.to_nat (n - r)) bs = user_bytes a (Z.to_nat (n - r)).

Definition copies_to : Prop := forall a bs, 0 <= copy_to_user a bs <= Z.of_nat (length bs).

Lemma user_bytes_app a m n : user_bytes a (m + n) = user_bytes a m ++ user_bytes (u32 (a + Z.of_nat m)) n.
Proof.
  unfold user_bytes. rewrite seq_app, map_app. f_equal. simpl.
  rewrite <- (Nat.add_0_r m) at 1. rewrite <- fmap_add_seq, map_map. apply map_ext. intros i. f_equal.
  rewrite u32_add_l. f_equal. lia.
Qed.

Lemma user_bytes_take a m n : (m <= n)%nat -> take m (user_bytes a n) = user_bytes a m.
Proof.
  intros H. unfold user_bytes. rewrite <- fmap_take. f_equal. rewrite take_seq. f_equal. lia.
Qed.

(** The space up to the end of the ring is a whole number of elements. *)
Definition until_end (k n off : Z) : Z := Z.min n (2 ^ k - off mod 2 ^ k).

Lemma first_part f k n off : kf_wf f k -> 0 <= n <= 2 ^ k ->
  0 <= until_end k n off <= n /\ Nat.min (bytes f n) (length (kf_data f) - pos f off) = bytes f (until_end k n off).
Proof.
  intros H Hn. unfold until_end. pose proof (wf_esize _ _ H). pose proof (wf_pow _ _ H).
  pose proof (Z.mod_pos_bound off (2 ^ k)). split; [lia|]. apply Nat2Z.inj.
  rewrite Nat2Z.inj_min, Nat2Z.inj_sub, (wf_data _ _ H) by (pose proof (pos_lt f k off H); lia).
  unfold pos, bytes. rewrite (wf_mask _ _ H). replace (2 ^ k - 1 + 1) with (2 ^ k) by lia.
  rewrite !Z2Nat.id by nia. nia.
Qed.

Lemma bytes_val f n : 0 <= n -> 0 <= kf_esize f -> Z.of_nat (bytes f n) = n * kf_esize f.
Proof. intros. unfold bytes. nia. Qed.

Lemma take_prefix (bs : list Z) a m n : (m <= n)%nat -> take n bs = user_bytes a n -> take m bs = user_bytes a m.
Proof.
  intros Hmn E. rewrite <- (user_bytes_take a m n Hmn), <- E, take_take. f_equal. lia.
Qed.

(** All elements are there exactly when all bytes are. *)
Lemma whole_elems f n g : 0 <= n -> 1 <= kf_esize f -> (g <= bytes f n)%nat ->
  let m := Z.of_nat g / kf_esize f in 0 <= m <= n /\ (g = bytes f n <-> m = n).
Proof.
  intros Hn He Hg m. pose proof (bytes_val f n Hn ltac:(lia)) as Bn. pose proof (Z.mul_div_le (Z.of_nat g) (kf_esize f)) as Hlo. fold m in Hlo.
  assert (0 <= m) by (apply Z.div_pos; lia). split; [nia|]. split; [intros ->; unfold m; rewrite Bn; apply Z.div_mul; lia|]. intros Hmn. rewrite Hmn in Hlo. lia.
Qed.

(** What the two copies bring from user space: the bytes up to the end of the ring, and the
    others if the first copy was complete. *)
Definition bytes_in (f : __kfifo) (k from n : Z) : nat :=
  let n1 := bytes f (until_end k n (kf_in f)) in
  let r1 := (copy_from_user from (Z.of_nat n1)).1 in
  let r2 := (copy_from_user (u32 (from + Z.of_nat n1)) (Z.of_nat (bytes f n - n1))).1 in
  if r1 =? 0 then (bytes f n - Z.to_nat r2)%nat else (n1 - Z.to_nat r1)%nat.

Lemma copy_from_spec f k from n :
  copies_from -> kf_wf f k -> (2 ^ k + 1) * kf_esize f < 2 ^ 32 -> 0 <= n <= kfifo_unused f ->
  exists ret n1 bs, kfifo_copy_from_user copy_from_user f from n (kf_in f)
      = Ret (ret, (n - ret) * kf_esize f, set_data (put_ring (kf_data f) bs (pos f (kf_in f)) (bytes f n1)) f)
    /\ (bytes_in f k from n <= bytes f n)%nat /\ n - ret = Z.of_nat (bytes_in f k from n) / kf_esize f
    /\ 0 <= ret <= n /\ n - ret <= n1 <= n /\ length bs = bytes f n1
    /\ take (bytes f (n - ret)) bs = user_bytes from (bytes f (n - ret)).
Proof.
  intros Hcf H Hbig Hn. rewrite (unused_val f k H) in Hn. pose proof (len_range f k H).
  pose proof (wf_esize _ _ H) as He. pose proof (wf_data _ _ H) as Hd. pose proof (pos_lt f k (kf_in f) H) as Hp.
  unfold kfifo_copy_from_user. rewrite (kfifo_span_spec f k) by (done || lia).
  unfold bytes_in. destruct (first_part f k n (kf_in f) H ltac:(lia)) as (Hn1 & El). rewrite El. set (n1 := until_end k n (kf_in f)) in *.
  assert (bytes f n1 <= bytes f n)%nat as Hle by lia.
  pose proof (bytes_val f n ltac:(lia) ltac:(lia)) as Bn. pose proof (bytes_val f n1 ltac:(lia) ltac:(lia)) as Bn1.
  assert (n * kf_esize f <= 2 ^ k * kf_esize f) by nia.
  destruct (copy_from_user from (Z.of_nat (bytes f n1))) as [r1 b1] eqn:E1. cbn [fst].
  destruct (Hcf _ _ _ _ (Nat2Z.is_nonneg _) E1) as (Hr1 & Hl1 & Ht1). apply Nat2Z.inj in Hl1.
  rewrite write_bytes_in by lia. cbn [obind]. destruct (Z.eqb_spec r1 0) as [->|Hne]; simpl negb; cbv iota.
  - rewrite Z.sub_0_r, Nat2Z.id in Ht1. rewrite <- Hl1, firstn_all in Ht1.
    rewrite <- Nat2Z.inj_sub by done. rewrite (u32_small (Z.of_nat (_ - _))) by (unfold U32_MAX; lia).
    destruct (copy_from_user (u32 (from + Z.of_nat (bytes f n1))) (Z.of_nat (bytes f n - bytes f n1))) as [r2 b2] eqn:E2. cbn [fst].
    destruct (Hcf _ _ _ _ (Nat2Z.is_nonneg _) E2) as (Hr2 & Hl2 & Ht2). apply Nat2Z.inj in Hl2.
    change 0 with (Z.of_nat 0). rewrite write_bytes_in
      by (repeat rewrite ?length_app, ?length_take, ?length_drop; lia). cbn [obind]. change (Z.of_nat 0) with 0.
    rewrite take_0, Nat.add_0_l. simpl app.
    set (q := if negb (r2 =? 0) then DIV_ROUND_UP r2 (kf_esize f) else r2).
    destruct (div_up_sub (kf_esize f) n r2 He ltac:(lia) ltac:(nia)) as [Hq1 Hq2].
    assert (q = DIV_ROUND_UP r2 (kf_esize f)) as Eq by (apply div_up_0; nia).
    rewrite <- Eq in Hq1, Hq2. clearbody q. exists q, n, (b1 ++ b2). split_and!; try lia.
    + f_equal. f_equal; [f_equal|].
      * rewrite Bn, <- Z.mul_sub_distr_r. apply u32_small. unfold U32_MAX. nia.
      * f_equal. replace (bytes f n) with (length b1 + length b2)%nat by lia. symmetry.
        apply put_ring_two; [done|lia|lia].
    + rewrite Hq2. f_equal. lia.
    + rewrite length_app. lia.
    + apply (take_prefix _ _ _ (bytes f n1 + Z.to_nat (Z.of_nat (bytes f n - bytes f n1) - r2))).
      { apply Nat2Z.inj_le. rewrite bytes_val by lia. rewrite Hq2.
        pose proof (Z.mul_div_le (n * kf_esize f - r2) (kf_esize f)). nia. }
      rewrite user_bytes_app, <- Ht2, <- Hl1, <- Ht1, take_app, (take_ge b1) by lia.
      f_equal. f_equal. lia.
  - rewrite (u32_small (r1 + Z.of_nat (bytes f n) - Z.of_nat (bytes f n1))) by (unfold U32_MAX; lia).
    set (r := r1 + Z.of_nat (bytes f n) - Z.of_nat (bytes f n1)).
    destruct (div_up_sub (kf_esize f) n r He ltac:(lia) ltac:(nia)) as [Hq1 Hq2]. set (q := DIV_ROUND_UP _ _) in *.
    clearbody q. assert ((n - q) * kf_esize f <= n1 * kf_esize f - r1) as Hg.
    { rewrite Hq2, Z.mul_comm. pose proof (Z.mul_div_le (n * kf_esize f - r) (kf_esize f)). lia. }
    assert (n - q <= n1) by (apply (Zmult_le_reg_r _ _ (kf_esize f)); lia).
    exists q, n1, b1. split_and!; try lia.
    + f_equal. f_equal; [f_equal|].
      * rewrite Bn, <- Z.mul_sub_distr_r. apply u32_small. unfold U32_MAX. nia.
      * f_equal. rewrite <- Hl1. symmetry. apply put_ring_flat. lia.
    + rewrite Hq2. f_equal. unfold r. lia.
    + eapply take_prefix; [|exact Ht1]. apply Nat2Z.inj_le. rewrite bytes_val by lia. lia.
Qed.

(** C29: __kfifo_from_user takes over the elements that arrive whole.  With room for [n] of the
    elements asked for, [g] bytes arrive: those the copy of the part up to the end of the
    ring brings, and those of the second copy if the first was complete.  Exactly the
    [g / esize] elements that arrived whole are appended, *copied is their size, and the
    call returns 0 if all [n] elements arrived and -EFAULT if not. *)
Theorem kfifo_from_user_correct f k from len :
  copies_from -> kf_wf f k -> (2 ^ k + 1) * kf_esize f < 2 ^ 32 -> 0 <= len ->
  let n := Z.min (len / kf_esize f) (2 ^ k - kfifo_len f) in let g := bytes_in f k from n in let m := Z.of_nat g / kf_esize f in
  (g <= bytes f n)%nat /\ exists f',
    __kfifo_from_user copy_from_user f from len = Ret (if decide (g = bytes f n) then 0 else - EFAULT, m * kf_esize f, f')
    /\ kf_wf f' k /\ contents f' = contents f ++ user_bytes from (bytes f m).
Proof.
  intros Hcf H Hbig Hlen n g m. pose proof (wf_esize _ _ H) as He. pose proof (len_range f k H).
  pose proof (unused_val f k H) as Eu. unfold __kfifo_from_user.
  rewrite (proj2 (Z.eqb_neq (kf_esize f) 0)) by lia.
  rewrite elems_val, clip_val, Eu. fold n. pose proof (Z.div_pos len (kf_esize f) Hlen ltac:(lia)).
  destruct (copy_from_spec f k from n Hcf H Hbig ltac:(lia)) as (ret & n1 & bs & -> & Hg & Hret & Hr & Hn1 & Hl & Ht). fold g in Hg, Hret. fold m in Hret.
  cbn [obind]. destruct (whole_elems f n g ltac:(lia) ltac:(lia) Hg) as [Hm Hall]. fold m in Hm, Hall.
  rewrite short_val by (pose proof (wf_pow _ _ H); lia).
  destruct (contents_put_some f k bs n1 (n - ret) H ltac:(lia) ltac:(lia) ltac:(lia)) as (Hw & Hc & _).
  rewrite Ht, Hret in Hc. rewrite Hret in Hw |- *. split; [done|]. eexists. split; [|done].
  destruct (decide (g = bytes f n)) as [Hgn|Hgn]; [rewrite (proj2 (Z.eqb_eq _ _))|rewrite (proj2 (Z.eqb_neq _ _))]; try done; [apply Hall in Hgn|rewrite Hall in Hgn]; lia.
Qed.

(** What user space got: from [to] upwards, a prefix of the bytes [bs]. *)
Definition user_got (to : Z) (ws : list (Z * list Z)) (bs : list Z) : Prop :=
  match ws with
  | [(a, b)] => a = to /\ b = bs
  | [(a, b); (a', b')] => a = to /\ a' = u32 (to + Z.of_nat (length b)) /\ b ++ b' = bs
  | _ => False
  end.

(** What the two copies of [n] elements get to user space: the bytes up to the end of the
    ring, and the others if the first copy was complete. *)
Definition bytes_out (f : __kfifo) (k to n : Z) : nat :=
  let n1 := bytes f (until_end k n (kf_out f)) in
  let r1 := copy_to_user to (take n1 (contents f)) in
  let r2 := copy_to_user (u32 (to + Z.of_nat n1)) (take (bytes f n - n1) (drop n1 (contents f))) in
  if r1 =? 0 then (bytes f n - Z.to_nat r2)%nat else (n1 - Z.to_nat r1)%nat.

(** Rounding up what is missing is rounding down what arrived. *)
Lemma arrived_whole f n r : 1 <= kf_esize f -> (n + 1) * kf_esize f < 2 ^ 32 -> 0 <= r <= n * kf_esize f ->
  let g := n * kf_esize f - r in DIV_ROUND_UP r (kf_esize f) = n - g / kf_esize f /\ 0 <= g / kf_esize f <= n /\ (g / kf_esize f) * kf_esize f <= g.
Proof.
  intros He Hn Hr g. destruct (div_up_sub (kf_esize f) n r He ltac:(lia) ltac:(nia)) as [Hq1 Hq2]. fold g in Hq2.
  pose proof (Z.mul_div_le g (kf_esize f)). split_and!; lia.
Qed.

Lemma copied_val f n q : 0 <= q <= n -> 1 <= kf_esize f -> n * kf_esize f < 2 ^ 32 -> u32 (n * kf_esize f - (n - q) * kf_esize f) = q * kf_esize f.
Proof. intros Hq He Hn. rewrite <- Z.mul_sub_distr_r. replace (n - (n - q)) with q by lia. apply u32_small. unfold U32_MAX. nia. Qed.

Lemma two_parts (l b1 b2 : list Z) n : take n l = b1 ++ b2 -> take (length b1) l = b1 /\ take (length b2) (drop (length b1) l) = b2.
Proof.
  intros H. rewrite <- (take_drop n l), H, <- app_assoc. by rewrite take_app_length, drop_app_length, take_app_length.
Qed.

Lemma copy_to_spec f k to n :
  copies_to -> kf_wf f k -> (2 ^ k + 1) * kf_esize f < 2 ^ 32 -> 0 <= n <= kfifo_len f ->
  let g := bytes_out f k to n in let m := Z.of_nat g / kf_esize f in
  (g <= bytes f n)%nat /\ exists ws, kfifo_copy_to_user copy_to_user f to n (kf_out f) = Ret (n - m, m * kf_esize f, ws) /\ user_got to ws (take g (contents f)).
Proof.
  intros Hct H Hbig Hn g m. pose proof (len_range f k H).
  pose proof (wf_esize _ _ H) as He. pose proof (wf_data _ _ H) as Hd. pose proof (pos_lt f k (kf_out f) H) as Hp.
  pose proof (copy_out_ring f k n (kf_out f) H ltac:(lia)) as Er. unfold kfifo_copy_out in Er.
  unfold kfifo_copy_to_user. rewrite (kfifo_span_spec f k) in * by (done || lia).
  unfold m, g, bytes_out. destruct (first_part f k n (kf_out f) H ltac:(lia)) as (Hn1 & El). rewrite El in *. set (n1 := until_end k n (kf_out f)) in *.
  assert (bytes f n1 <= bytes f n)%nat as Hle by lia.
  pose proof (bytes_val f n ltac:(lia) ltac:(lia)) as Bn. pose proof (bytes_val f n1 ltac:(lia) ltac:(lia)) as Bn1.
  assert (n * kf_esize f <= 2 ^ k * kf_esize f) by nia.
  rewrite <- Nat2Z.inj_sub in * by done. rewrite (u32_small (Z.of_nat (_ - _))) in * by (unfold U32_MAX; lia).
  change 0 with (Z.of_nat 0) in Er at 1. rewrite read_bytes_in in Er by lia. cbn [obind] in Er.
  rewrite read_bytes_in in Er by lia. cbn [obind] in Er. rewrite read_bytes_in by lia. cbn [obind].
  set (b1 := take (bytes f n1) (drop _ _)) in *. set (b2 := take (bytes f n - bytes f n1) (drop 0 _)) in *. injection Er as Er.
  assert (take (bytes f n) (contents f) = b1 ++ b2) as Ec.
  { rewrite Er. unfold contents. apply ring_take, bytes_set; lia. }
  assert (length b1 = bytes f n1) as Hl1 by (unfold b1; rewrite length_take, length_drop; lia).
  assert (length b2 = (bytes f n - bytes f n1)%nat) as Hl2 by (unfold b2; rewrite length_take, length_drop; lia).
  destruct (two_parts _ _ _ _ Ec) as [E1 E2]. rewrite Hl1 in E1, E2. rewrite Hl2 in E2. rewrite E1, E2. pose proof (Hct to b1) as Hr1. pose proof (Hct (u32 (to + Z.of_nat (bytes f n1))) b2) as Hr2.
  set (r1 := copy_to_user to b1) in *. set (r2 := copy_to_user (u32 _) b2) in *. destruct (Z.eqb_spec r1 0) as [E0|Hne]; simpl negb; cbv iota.
  - change (read_bytes (kf_data f) 0) with (read_bytes (kf_data f) (Z.of_nat 0)). rewrite read_bytes_in by lia. cbn [obind]. fold b2 r2. rewrite div_up_0 by nia.
    destruct (arrived_whole f n r2) as (-> & Hm & Hg); [lia|nia|lia|]. replace (n * kf_esize f - r2) with (Z.of_nat (bytes f n - Z.to_nat r2)) in * by lia.
    split; [lia|]. eexists. split; [by rewrite Bn, copied_val by nia|].
    rewrite E0. simpl. rewrite Nat.sub_0_r, firstn_all. split_and!; [done|by rewrite Hl1|].
    replace (take _ (contents f)) with (take (bytes f n - Z.to_nat r2) (take (bytes f n) (contents f))) by (rewrite take_take; f_equal; lia).
    rewrite Ec, take_app, (take_ge b1) by lia. f_equal. f_equal. lia.
  - rewrite (u32_small (_ + _ - _)) by (unfold U32_MAX; lia).
    destruct (arrived_whole f n (r1 + Z.of_nat (bytes f n) - Z.of_nat (bytes f n1))) as (-> & Hm & Hg); [lia|nia|lia|].
    replace (n * kf_esize f - (r1 + Z.of_nat (bytes f n) - Z.of_nat (bytes f n1))) with (Z.of_nat (bytes f n1 - Z.to_nat r1)) in * by lia.
    split; [lia|]. eexists. split; [by rewrite Bn, copied_val by nia|]. simpl. split; [done|].
    replace (take _ (contents f)) with (take (bytes f n1 - Z.to_nat r1) (take (bytes f n) (contents f))) by (rewrite take_take; f_equal; lia).
    rewrite Ec, take_app_le by lia. f_equal. lia.
Qed.

(** C28: __kfifo_to_user hands out the elements that reach user space whole.  With [n]
    elements to hand out, [g] bytes reach user space: those the copy of the part up to the
    end of the ring gets there, and those of the second copy if the first was complete.
    User space then has the first [g] bytes of the contents from [to] upwards; exactly the
    [g / esize] elements that arrived whole are removed, *copied is their size, and the
    call returns 0 if all [n] elements arrived and -EFAULT if not. *)
Theorem kfifo_to_user_correct f k to len :
  copies_to -> kf_wf f k -> (2 ^ k + 1) * kf_esize f < 2 ^ 32 -> 0 <= len ->
  let n := Z.min (len / kf_esize f) (kfifo_len f) in let g := bytes_out f k to n in let m := Z.of_nat g / kf_esize f in
  (g <= bytes f n)%nat /\ exists ws f',
    __kfifo_to_user copy_to_user f to len = Ret (if decide (g = bytes f n) then 0 else - EFAULT, m * kf_esize f, ws, f')
    /\ kf_wf f' k /\ contents f' = drop (bytes f m) (contents f) /\ user_got to ws (take g (contents f)).
Proof.
  intros Hct H Hbig Hlen n g m. pose proof (wf_esize _ _ H) as He. pose proof (len_range f k H).
  unfold __kfifo_to_user. rewrite (proj2 (Z.eqb_neq (kf_esize f) 0)) by lia.
  rewrite elems_val, clip_val. fold (kfifo_len f). fold n. pose proof (Z.div_pos len (kf_esize f) Hlen ltac:(lia)).
  destruct (copy_to_spec f k to n Hct H Hbig ltac:(lia)) as (Hg & ws & -> & Hu). fold g in Hg, Hu |- *. fold m. cbn [obind].
  destruct (whole_elems f n g ltac:(lia) ltac:(lia) Hg) as [Hm Hall]. fold m in Hm, Hall.
  rewrite short_val by (pose proof (wf_pow _ _ H); lia). replace (n - (n - m)) with m by lia.
  destruct (contents_skip f k m H ltac:(lia)) as (Hw & Hc & _). split; [done|]. eexists ws, _. split; [|done].
  destruct (decide (g = bytes f n)) as [Hgn|Hgn]; [rewrite (proj2 (Z.eqb_eq _ _))|rewrite (proj2 (Z.eqb_neq _ _))]; try done; [apply Hall in Hgn|rewrite Hall in Hgn]; lia.
Qed.
End User.
