(* ===== verification/KfifoRecord.v ===== *)
(** * Record FIFOs: a queue of byte strings

    With a record length of one or two bytes the FIFO is a queue of records;
    every call moves a whole record or none. *)
From Stdlib Require Import ZArith Lia Bool.
From stdpp Require Import base numbers list.
From S2P Require Import Prelude Kfifo KfifoQueue.

(** The length field and a record in the ring. *)
Definition header (recsize n : Z) : list Z :=
  if recsize =? 1 then [u8 n] else [u8 n; u8 (Z.shiftr n 8)].

Definition frame (recsize : Z) (r : list Z) : list Z := header recsize (Z.of_nat (length r)) ++ r.

Definition record_ok (recsize : Z) (r : list Z) : Prop := Z.of_nat (length r) < 2 ^ (8 * recsize).

Record kf_recs (f : __kfifo) (k recsize : Z) (rs : list (list Z)) : Prop := {
  kr_wf : kf_wf f k;
  kr_esize : kf_esize f = 1;
  kr_contents : contents f = concat (map (frame recsize) rs);
  kr_ok : Forall (record_ok recsize) rs
}.

(** ** Single bytes of the ring *)

Lemma poke_ring f k off v : kf_wf f k -> kf_esize f = 1 ->
  __KFIFO_POKE (kf_data f) off (kf_mask f) v = Ret (put_ring (kf_data f) [u8 v] (pos f off) 1).
Proof.
  intros H He. unfold __KFIFO_POKE. rewrite (wf_land f k off H). pose proof (pos_lt f k off H) as Hp.
  assert (Z.to_nat (off mod 2 ^ k) = pos f off) as Ep.
  { unfold pos. rewrite He, (wf_mask _ _ H), Z.mul_1_r. do 2 f_equal. lia. }
  rewrite Ep, arr_set_lt by done. f_equal. unfold put_ring. replace (Nat.min 1 _) with 1%nat by lia. simpl.
  rewrite drop_0. apply list_eq. intros i.
  destruct (decide (i = pos f off)) as [->|Hne].
  - rewrite list_lookup_insert_eq by done. rewrite lookup_app_r by (rewrite length_take; lia).
    rewrite length_take. replace (_ - _)%nat with 0%nat by lia. done.
  - rewrite list_lookup_insert_ne by done. destruct (decide (i < pos f off)%nat).
    + rewrite lookup_app_l, lookup_take_lt by (rewrite ?length_take; lia). done.
    + rewrite lookup_app_r by (rewrite length_take; lia). rewrite length_take, Nat.min_l by lia.
      destruct (i - pos f off)%nat as [|j] eqn:E; [lia|]. simpl. rewrite lookup_drop. f_equal. lia.
Qed.

Lemma bytes_one f n : kf_esize f = 1 -> bytes f n = Z.to_nat n.
Proof. intros H. unfold bytes. by rewrite H, Z.mul_1_r. Qed.

Lemma peek_ring f k i : kf_wf f k -> kf_esize f = 1 -> 0 <= i < kfifo_len f ->
  exists x, __KFIFO_PEEK (kf_data f) (u32 (kf_out f + i)) (kf_mask f) = Ret x /\ contents f !! Z.to_nat i = Some x.
Proof.
  intros H He Hi. unfold __KFIFO_PEEK. rewrite (wf_land f k _ H). pose proof (pos_lt f k (u32 (kf_out f + i)) H) as Hp.
  pose proof (wf_out _ _ H). pose proof (pos_add f k (kf_out f) i H ltac:(lia) ltac:(lia)) as Ea.
  rewrite (Nat.mod_small (pos f (u32 _))) in Ea by done. rewrite (bytes_one f i He) in Ea.
  assert (Z.to_nat (u32 (kf_out f + i) mod 2 ^ k) = pos f (u32 (kf_out f + i))) as Ep.
  { unfold pos. rewrite He, (wf_mask _ _ H), Z.mul_1_r. do 2 f_equal. lia. }
  rewrite Ep. destruct (lookup_lt_is_Some_2 _ _ Hp) as [x Hx]. exists x. split; [by apply arr_get_Some|].
  unfold contents. rewrite ring_get by (rewrite bytes_one by done; lia). f_equal. rewrite <- Ea. by apply nth_get.
Qed.

(** ** Putting a record *)

Lemma contents_put1 f k v : kf_wf f k -> kf_esize f = 1 -> 1 <= kfifo_unused f ->
  let f' := set_in (u32 (kf_in f + 1)) (set_data (put_ring (kf_data f) [v] (pos f (kf_in f)) 1) f) in
  kf_wf f' k /\ contents f' = contents f ++ [v] /\ kfifo_unused f' = kfifo_unused f - 1.
Proof.
  intros H He Hu f'. destruct (contents_put f k [v] 1 H ltac:(lia)) as (H1 & H2 & H3); [by rewrite bytes_one|].
  rewrite (bytes_one f 1 He) in *. change (Z.to_nat 1) with 1%nat in *. fold f' in H1, H2, H3.
  split_and!; try done. rewrite (unused_val _ k H1), (unused_val f k H). lia.
Qed.

Lemma wf_data_only f k d v : kf_wf (set_in v (set_data d f)) k -> kf_wf f k -> kf_wf (set_data d f) k.
Proof. intros [] []. split; done. Qed.

Lemma poke_spec f k n recsize :
  kf_wf f k -> kf_esize f = 1 -> recsize = 1 \/ recsize = 2 -> recsize <= kfifo_unused f ->
  exists d, __kfifo_poke_n f n recsize = Ret (set_data d f)
    /\ let g := set_in (u32 (kf_in f + recsize)) (set_data d f) in
       kf_wf g k /\ contents g = contents f ++ header recsize n /\ kfifo_unused g = kfifo_unused f - recsize.
Proof.
  intros H He Hrec Hu. unfold __kfifo_poke_n. rewrite (poke_ring f k) by done. cbn [obind].
  destruct (contents_put1 f k (u8 n) H He) as (H1 & H2 & H3); [lia|].
  set (d1 := put_ring (kf_data f) [u8 n] (pos f (kf_in f)) 1) in *.
  destruct Hrec as [-> | ->]; simpl.
  - exists d1. done.
  - set (g := set_in (u32 (kf_in f + 1)) (set_data d1 f)) in *.
    pose proof (poke_ring g k (u32 (kf_in f + 1)) (Z.shiftr n 8) H1 He) as E. simpl in E. rewrite E. cbn [obind].
    destruct (contents_put1 g k (u8 (Z.shiftr n 8)) H1 He) as (H4 & H5 & H6); [lia|].
    eexists. split; [reflexivity|]. simpl in H4, H5, H6. rewrite u32_add_l in *.
    replace (kf_in f + 1 + 1) with (kf_in f + 2) in * by lia.
    change (set_data _ g) with (set_data (put_ring d1 [u8 (Z.shiftr n 8)] (pos g (u32 (kf_in f + 1))) 1) (set_in (u32 (kf_in f + 1)) f)) in *.
    split_and!; try done.
    + unfold header. simpl. change (contents f ++ [u8 n; u8 (Z.shiftr n 8)]) with (contents f ++ [u8 n] ++ [u8 (Z.shiftr n 8)]).
      rewrite app_assoc, <- H2. exact H5.
    + transitivity (kfifo_unused g - 1); [exact H6|lia].
Qed.

Lemma in_r_spec f k recsize rs buf :
  kf_recs f k recsize rs -> recsize = 1 \/ recsize = 2 -> record_ok recsize buf ->
  let len := Z.of_nat (length buf) in
  (2 ^ k - kfifo_len f < len + recsize /\ __kfifo_in_r f buf len recsize = Ret (0, f))
  \/ (len + recsize <= 2 ^ k - kfifo_len f
      /\ exists f', __kfifo_in_r f buf len recsize = Ret (len, f') /\ kf_recs f' k recsize (rs ++ [buf])).
Proof.
  intros [H He Hc Hok] Hrec Hb len. unfold __kfifo_in_r. pose proof (unused_val f k H) as Eu. pose proof (wf_pow _ _ H).
  pose proof (len_range f k H). pose proof (wf_in _ _ H).
  assert (0 <= len < 2 ^ 16) as Hlen.
  { unfold record_ok in Hb. fold len in Hb. assert (2 ^ (8 * recsize) <= 2 ^ 16) by (apply Z.pow_le_mono_r; lia). lia. }
  rewrite (u32_small (len + recsize)) by (unfold U32_MAX; lia).
  destruct (Z.ltb_spec (kfifo_unused f) (len + recsize)) as [Hfull|Hroom]; [left; split; [lia|done]|right].
  split; [lia|]. destruct (poke_spec f k len recsize H He Hrec ltac:(lia)) as (d & -> & Hg & Hcg & Hug). cbn [obind].
  set (g := set_in (u32 (kf_in f + recsize)) (set_data d f)) in *.
  rewrite (copy_in_ring (set_data d f) k);
    [|by eapply wf_data_only|lia|rewrite bytes_one by done; unfold len; lia]. cbn [obind].
  destruct (contents_put g k buf len Hg ltac:(lia)) as (Hw' & Hc' & _); [rewrite bytes_one by done; unfold len; lia|].
  eexists. split; [reflexivity|].
  assert (u32 (kf_in f + (len + recsize)) = u32 (kf_in g + len)) as Ei.
  { unfold g. simpl. rewrite u32_add_l. f_equal. lia. }
  simpl kf_in. rewrite Ei. split.
  - exact Hw'.
  - done.
  - transitivity (contents g ++ take (bytes g len) buf); [exact Hc'|]. rewrite Hcg, Hc, map_app, concat_app. simpl.
    rewrite app_nil_r, <- app_assoc. unfold frame at 2. fold len. f_equal. f_equal.
    rewrite bytes_one by done. rewrite take_ge; [done|]. unfold len. lia.
  - apply Forall_app. auto.
Qed.

(** ** Taking a record *)

Lemma header_length recsize n : recsize = 1 \/ recsize = 2 -> length (header recsize n) = Z.to_nat recsize.
Proof. by intros [-> | ->]. Qed.

Lemma byte_pair n : 0 <= n < 2 ^ 16 -> Z.lor (u8 n) (Z.shiftl (u8 (Z.shiftr n 8)) 8) = n.
Proof.
  intros H. unfold wrap. rewrite Z.shiftl_mul_pow2, Z.shiftr_div_pow2 by lia. rewrite Z.mul_comm.
  pose proof (Z.mod_pos_bound n (2 ^ 8)). rewrite lor_shift_add by lia.
  rewrite (Z.mod_small (n / 2 ^ 8)).
  - pose proof (Z.div_mod n (2 ^ 8)). lia.
  - split; [apply Z.div_pos; lia|]. apply Z.div_lt_upper_bound; lia.
Qed.

Lemma peek_n_spec f k recsize r rs :
  kf_recs f k recsize (r :: rs) -> recsize = 1 \/ recsize = 2 ->
  __kfifo_peek_n f recsize = Ret (Z.of_nat (length r)).
Proof.
  intros [H He Hc Hok] Hrec. apply Forall_cons in Hok as [Hr _]. unfold record_ok in Hr. cbn [map concat] in Hc.
  unfold frame in Hc at 1. set (n := Z.of_nat (length r)) in *.
  assert (Z.of_nat (length (contents f)) = kfifo_len f) as El.
  { rewrite (contents_length f k H), bytes_one by done. pose proof (len_range f k H). lia. }
  rewrite Hc, !length_app, header_length in El by done. pose proof (wf_out _ _ H).
  destruct (peek_ring f k 0 H He ltac:(lia)) as (x & Ex & Hx). rewrite Z.add_0_r in Ex.
  rewrite u32_small in Ex by (unfold U32_MAX; lia). unfold __kfifo_peek_n. rewrite Ex. cbn [obind].
  rewrite Hc in Hx. destruct Hrec as [-> | ->]; simpl in Hx |- *.
  - injection Hx as <-. f_equal. apply wrap_small. unfold in_u. simpl in Hr. lia.
  - injection Hx as <-. change (u32 1) with 1. simpl.
    destruct (peek_ring f k 1 H He ltac:(lia)) as (y & -> & Hy). cbn [obind].
    rewrite Hc in Hy. simpl in Hy. injection Hy as <-. f_equal. apply byte_pair. simpl in Hr. lia.
Qed.

Lemma out_copy_r_spec f k recsize r rs len :
  kf_recs f k recsize (r :: rs) -> recsize = 1 \/ recsize = 2 -> 0 <= len ->
  kfifo_out_copy_r f len recsize =
    Ret (Z.min len (Z.of_nat (length r)), Z.of_nat (length r), take (Z.to_nat len) r)
  /\ kf_recs (set_out (u32 (kf_out f + u32 (Z.of_nat (length r) + recsize))) f) k recsize rs.
Proof.
  intros Hf Hrec Hlen. pose proof (peek_n_spec f k recsize r rs Hf Hrec) as Ep. destruct Hf as [H He Hc Hok].
  apply Forall_cons in Hok as [Hr Hok]. cbn [map concat] in Hc. unfold frame in Hc at 1.
  set (n := Z.of_nat (length r)) in *. pose proof (wf_out _ _ H). pose proof (wf_pow _ _ H).
  assert (Z.of_nat (length (contents f)) = kfifo_len f) as El.
  { rewrite (contents_length f k H), bytes_one by done. pose proof (len_range f k H). lia. }
  rewrite Hc, !length_app, header_length in El by done. pose proof (len_range f k H).
  unfold kfifo_out_copy_r. rewrite Ep. cbn [obind]. rewrite clip_val. split.
  - rewrite (copy_out_ring f k) by (done || lia). cbn [obind]. do 2 f_equal.
    rewrite (ring_same _ _ (pos f (kf_out f) + bytes f recsize)) by (apply (pos_add f k); try done; lia).
    rewrite !bytes_one by done.
    assert (ring (kf_data f) (pos f (kf_out f) + Z.to_nat recsize) (Z.to_nat (Z.min len n))
            = take (Z.to_nat (Z.min len n)) (drop (Z.to_nat recsize) (contents f))) as ->.
    { unfold contents. rewrite bytes_one, ring_drop, ring_take by (done || lia). done. }
    rewrite Hc, <- (header_length recsize n Hrec), <- app_assoc, drop_app_length, take_app_le by (unfold n; lia).
    destruct (Z.min_spec len n) as [[? ->]|[? ->]]; [done|]. rewrite !take_ge; unfold n in *; done || lia.
  - rewrite (u32_small (n + recsize)) by (unfold U32_MAX; lia).
    destruct (contents_skip f k (n + recsize) H ltac:(lia)) as (Hw' & Hc' & _). split; try done.
    rewrite Hc', Hc, bytes_one by done.
    replace (Z.to_nat (n + recsize)) with (length (header recsize n ++ r))
      by (rewrite length_app, header_length by done; unfold n; lia).
    by rewrite drop_app_length.
Qed.

(** ** A queue of records *)

Inductive rec_op :=
| InR (buf : list Z)
| OutR (n : Z)
| PeekR (n : Z).

Definition rec_do (recsize : Z) (f : __kfifo) (o : rec_op) : outcome (fifo_ret * __kfifo) :=
  match o with
  | InR buf => let* (n, f') := kfifo_in f buf (Z.of_nat (length buf)) recsize in Ret ((n, []), f')
  | OutR n => let* (n', bs, f') := kfifo_out f n recsize in Ret ((n', bs), f')
  | PeekR n => let* (n', bs) := __kfifo_out_peek_r f n recsize in Ret ((n', bs), f)
  end.

Fixpoint rec_run (recsize : Z) (f : __kfifo) (os : list rec_op) : outcome (list fifo_ret * __kfifo) :=
  match os with
  | [] => Ret ([], f)
  | o :: os' =>
      let* (r, f1) := rec_do recsize f o in
      let* (rs, f2) := rec_run recsize f1 os' in
      Ret (r :: rs, f2)
  end.

(** The room records take, and the specification. *)
Definition room (recsize : Z) (rs : list (list Z)) : Z :=
  foldr Z.add 0 (map (fun r => Z.of_nat (length r) + recsize) rs).

Definition recq_do (cap recsize : Z) (rs : list (list Z)) (o : rec_op) : fifo_ret * list (list Z) :=
  match o, rs with
  | InR buf, _ => if room recsize (rs ++ [buf]) <=? cap
                  then ((Z.of_nat (length buf), []), rs ++ [buf]) else ((0, []), rs)
  | OutR n, [] | PeekR n, [] => ((0, []), [])
  | OutR n, r :: rs' => ((Z.min n (Z.of_nat (length r)), take (Z.to_nat n) r), rs')
  | PeekR n, r :: rs' => ((Z.min n (Z.of_nat (length r)), take (Z.to_nat n) r), rs)
  end.

Fixpoint recq_run (cap recsize : Z) (rs : list (list Z)) (os : list rec_op) : list fifo_ret * list (list Z) :=
  match os with
  | [] => ([], rs)
  | o :: os' =>
      let '(r, rs1) := recq_do cap recsize rs o in
      let '(ret, rs2) := recq_run cap recsize rs1 os' in
      (r :: ret, rs2)
  end.

Definition rec_op_ok (recsize : Z) (o : rec_op) : Prop :=
  match o with InR buf => record_ok recsize buf | OutR n | PeekR n => 0 <= n end.

Lemma room_app recsize rs rs' : room recsize (rs ++ rs') = room recsize rs + room recsize rs'.
Proof. unfold room. rewrite map_app. induction (map _ rs) as [|x l IH]; simpl in *; lia. Qed.

Lemma room_used f k recsize rs : kf_recs f k recsize rs -> recsize = 1 \/ recsize = 2 ->
  room recsize rs = kfifo_len f.
Proof.
  intros [H He Hc _] Hrec. pose proof (len_range f k H). pose proof (contents_length f k H) as El.
  rewrite bytes_one, Hc in El by done. assert (Z.of_nat (length (concat (map (frame recsize) rs))) = room recsize rs) as E.
  { clear -Hrec. induction rs as [|r rs IH]; [done|]. unfold room in *. cbn [map concat foldr].
    rewrite length_app, Nat2Z.inj_add, IH. unfold frame. rewrite length_app, header_length by done. simpl. lia. }
  lia.
Qed.

Lemma recs_empty f k recsize rs : kf_recs f k recsize rs -> recsize = 1 \/ recsize = 2 ->
  (kf_in f =? kf_out f) = match rs with [] => true | _ => false end.
Proof.
  intros Hf Hrec. pose proof (room_used f k recsize rs Hf Hrec) as Er. destruct Hf as [H _ _ _].
  pose proof (wf_in _ _ H). pose proof (wf_out _ _ H). pose proof (in_out f k H) as Eio.
  destruct rs as [|r rs].
  - unfold room in Er. simpl in Er. rewrite <- Er, Z.add_0_r, u32_small in Eio by (unfold U32_MAX; lia). lia.
  - apply Z.eqb_neq. intros E. unfold kfifo_len in Er. rewrite E, Z.sub_diag in Er. change (u32 0) with 0 in Er.
    change (r :: rs) with ([r] ++ rs) in Er. rewrite room_app in Er. unfold room in Er at 1. simpl in Er.
    assert (0 <= room recsize rs); [|lia]. clear -Hrec. unfold room. induction rs; simpl; lia.
Qed.

Lemma rec_do_refines f k recsize rs o : kf_recs f k recsize rs -> recsize = 1 \/ recsize = 2 -> rec_op_ok recsize o ->
  exists f', rec_do recsize f o = Ret (fst (recq_do (2 ^ k) recsize rs o), f')
    /\ kf_recs f' k recsize (snd (recq_do (2 ^ k) recsize rs o)).
Proof.
  intros Hf Hrec Ho. pose proof (room_used f k recsize rs Hf Hrec) as Er.
  pose proof (recs_empty f k recsize rs Hf Hrec) as Ee.
  assert ((recsize =? 0) = false) as E0 by (destruct Hrec as [-> | ->]; done).
  destruct o as [buf|n|n]; unfold rec_do, recq_do, kfifo_in, kfifo_out; rewrite ?E0; simpl negb; cbv iota.
  - rewrite room_app, Er. unfold room at 1 2. simpl. rewrite Z.add_0_r.
    destruct (in_r_spec f k recsize rs buf Hf Hrec Ho) as [[Hl ->]|[Hl (f' & -> & Hf')]]; cbn [obind];
      cmp; try lia; eexists; done.
  - unfold __kfifo_out_r. rewrite Ee. destruct rs as [|r rs]; [by exists f|].
    destruct (out_copy_r_spec f k recsize r rs n Hf Hrec Ho) as [-> Hf']. cbn [obind]. eexists. done.
  - unfold __kfifo_out_peek_r. rewrite Ee. destruct rs as [|r rs]; [by exists f|].
    destruct (out_copy_r_spec f k recsize r rs n Hf Hrec Ho) as [-> Hf']. cbn [obind]. by exists f.
Qed.

Lemma rec_run_spec f k recsize rs os :
  kf_recs f k recsize rs -> recsize = 1 \/ recsize = 2 -> Forall (rec_op_ok recsize) os ->
  exists f', rec_run recsize f os = Ret (fst (recq_run (2 ^ k) recsize rs os), f')
    /\ kf_recs f' k recsize (snd (recq_run (2 ^ k) recsize rs os)).
Proof.
  intros Hf Hrec Ho. revert f rs Hf. induction Ho as [|o os Ho Hos IH]; intros f rs Hf; [by exists f|].
  destruct (rec_do_refines f k recsize rs o Hf Hrec Ho) as (f1 & E1 & H1). simpl. rewrite E1. cbn [obind].
  destruct (recq_do (2 ^ k) recsize rs o) as [r rs1]. simpl in *.
  destruct (IH f1 rs1 H1) as (f2 & E2 & H2). rewrite E2. cbn [obind].
  destruct (recq_run (2 ^ k) recsize rs1 os) as [ret rs2]. exists f2. done.
Qed.

(** C27: with a record length of one or two bytes the FIFO refines a queue of
    records: every sequence of in, out and peek calls with records short enough
    for the length field returns what the queue of records returns, whole
    records only, and accesses no memory outside the buffer. *)
Theorem kfifo_records_refine f k recsize rs os :
  kf_recs f k recsize rs -> recsize = 1 \/ recsize = 2 -> Forall (rec_op_ok recsize) os ->
  exists f', rec_run recsize f os = Ret (fst (recq_run (2 ^ k) recsize rs os), f')
    /\ kf_recs f' k recsize (snd (recq_run (2 ^ k) recsize rs os)).
Proof. apply rec_run_spec. Qed.
