(* ===== verification/KfifoRace.v ===== *)
(** * One writer and one reader without a lock

    kfifo.h promises that one concurrent reader and one concurrent writer need
    no locking.  Here both run [__kfifo_in] and [__kfifo_out] a byte at a time,
    in any order of bytes and any interleaving.  Stores become visible in
    program order, which is what the barriers before the counter updates are
    there for. *)
From Stdlib Require Import ZArith Lia Bool.
From stdpp Require Import base numbers list.
From S2P Require Import Prelude Kfifo KfifoQueue.

(** The writer is outside [__kfifo_in], or copies [n] elements of [buf] with the
    bytes [todo] still to be stored. *)
Inductive writer :=
| WIdle
| WCopy (buf : list Z) (n : Z) (todo : list nat).

(** The reader is outside [__kfifo_out], or copies [n] elements to [dst] with
    the bytes [todo] still to be loaded. *)
Inductive reader :=
| RIdle
| RCopy (n : Z) (dst : list Z) (todo : list nat).

(** The FIFO, both threads, and what has been put in and taken out so far. *)
Record world := mk_world {
  w_fifo : __kfifo; w_writer : writer; w_reader : reader; w_sent : list Z; w_got : list Z
}.

(** Byte [i] from the ring position of [off]. *)
Definition slot (f : __kfifo) (off : Z) (i : nat) : nat := ((pos f off + i) mod length (kf_data f))%nat.

(** [__kfifo_in]: the length is clipped to the free space seen on entry, the
    bytes are stored, and [in] moves when all are. *)
Inductive writer_step : world -> world -> Prop :=
| w_begin f r s g buf len :
    0 <= len -> (bytes f len <= length buf)%nat ->
    writer_step (mk_world f WIdle r s g)
      (mk_world f (WCopy buf (Z.min len (kfifo_unused f)) (seq 0 (bytes f (Z.min len (kfifo_unused f))))) r s g)
| w_store f r s g buf n todo1 i todo2 b :
    buf !! i = Some b ->
    writer_step (mk_world f (WCopy buf n (todo1 ++ i :: todo2)) r s g)
      (mk_world (set_data (<[slot f (kf_in f) i := b]> (kf_data f)) f) (WCopy buf n (todo1 ++ todo2)) r s g)
| w_commit f r s g buf n :
    writer_step (mk_world f (WCopy buf n []) r s g)
      (mk_world (set_in (u32 (kf_in f + n)) f) WIdle r (s ++ take (bytes f n) buf) g).

(** [__kfifo_out]: the length is clipped to the contents seen on entry, the
    bytes are loaded, and [out] moves when all are. *)
Inductive reader_step : world -> world -> Prop :=
| r_begin f w s g len :
    0 <= len ->
    reader_step (mk_world f w RIdle s g)
      (mk_world f w (RCopy (Z.min len (kfifo_len f)) (replicate (bytes f (Z.min len (kfifo_len f))) 0)
                      (seq 0 (bytes f (Z.min len (kfifo_len f))))) s g)
| r_load f w s g n dst todo1 i todo2 b :
    kf_data f !! slot f (kf_out f) i = Some b ->
    reader_step (mk_world f w (RCopy n dst (todo1 ++ i :: todo2)) s g)
      (mk_world f w (RCopy n (<[i := b]> dst) (todo1 ++ todo2)) s g)
| r_commit f w s g n dst :
    reader_step (mk_world f w (RCopy n dst []) s g)
      (mk_world (set_out (u32 (kf_out f + n)) f) w RIdle s (g ++ dst)).

Definition step (a b : world) : Prop := writer_step a b \/ reader_step a b.

Inductive runs : world -> world -> Prop :=
| runs_refl a : runs a a
| runs_step a b c : runs a b -> step b c -> runs a c.

(** ** The invariant *)

Definition writer_ok (f : __kfifo) (w : writer) : Prop :=
  match w with
  | WIdle => True
  | WCopy buf n todo =>
      0 <= n <= kfifo_unused f /\ (bytes f n <= length buf)%nat
      /\ (forall i, i ∈ todo -> (i < bytes f n)%nat)
      /\ (forall i, (i < bytes f n)%nat -> i ∉ todo -> kf_data f !! slot f (kf_in f) i = buf !! i)
  end.

Definition reader_ok (f : __kfifo) (r : reader) : Prop :=
  match r with
  | RIdle => True
  | RCopy n dst todo =>
      0 <= n <= kfifo_len f /\ length dst = bytes f n
      /\ (forall i, i ∈ todo -> (i < bytes f n)%nat)
      /\ (forall i, (i < bytes f n)%nat -> i ∉ todo -> dst !! i = contents f !! i)
  end.

Record world_ok (k : Z) (a : world) : Prop := {
  wo_wf : kf_wf (w_fifo a) k;
  wo_writer : writer_ok (w_fifo a) (w_writer a);
  wo_reader : reader_ok (w_fifo a) (w_reader a);
  wo_stream : w_sent a = w_got a ++ contents (w_fifo a)
}.

Lemma slot_lt f k off i : kf_wf f k -> (slot f off i < length (kf_data f))%nat.
Proof. intros H. apply Nat.mod_upper_bound. pose proof (pos_lt f k 0 H). lia. Qed.

Lemma contents_get f k i : kf_wf f k -> (i < bytes f (kfifo_len f))%nat ->
  contents f !! i = kf_data f !! slot f (kf_out f) i.
Proof.
  intros H Hi. unfold contents. rewrite ring_get by done.
  destruct (lookup_lt_is_Some_2 _ _ (slot_lt f k (kf_out f) i H)) as [x Hx]. rewrite Hx. f_equal. by apply nth_get.
Qed.

(** Bytes at and after [in] are, up to the free space, outside the contents,
    and different bytes of a copy are in different places. *)
Lemma slot_in f k i : kf_wf f k -> slot f (kf_in f) i = slot f (kf_out f) (bytes f (kfifo_len f) + i).
Proof.
  intros H. unfold slot. pose proof (wf_out _ _ H). pose proof (len_range f k H).
  rewrite Nat.add_assoc, <- (Nat.Div0.add_mod_idemp_l (pos f (kf_out f) + _)).
  rewrite <- (pos_add f k) by (done || lia). rewrite <- (in_out f k H), Nat.Div0.add_mod_idemp_l. done.
Qed.

Lemma slot_inj f k off i j : kf_wf f k -> (i < length (kf_data f))%nat -> (j < length (kf_data f))%nat ->
  slot f off i = slot f off j -> i = j.
Proof.
  intros H Hi Hj E. unfold slot in E. set (N := length (kf_data f)) in *. pose proof (pos_lt f k off H) as Hp. fold N in Hp.
  assert (forall x, (x < N)%nat -> ((pos f off + x) mod N = if decide (pos f off + x < N) then pos f off + x else pos f off + x - N)%nat) as Hm.
  { intros x Hx. case_decide; [by apply Nat.mod_small|]. apply mod_wrap. lia. }
  rewrite !Hm in E by done. repeat case_decide; lia.
Qed.

Lemma free_fits f k n : kf_wf f k -> 0 <= n <= kfifo_unused f ->
  (bytes f (kfifo_len f) + bytes f n <= length (kf_data f))%nat.
Proof.
  intros H Hn. rewrite (unused_val f k H) in Hn. pose proof (len_range f k H). pose proof (wf_esize _ _ H).
  rewrite <- bytes_add by lia. apply (bytes_le f k); [done|lia].
Qed.

(** A store to the free space. *)
Lemma store_free f k n i b : kf_wf f k -> 0 <= n <= kfifo_unused f -> (i < bytes f n)%nat ->
  let f' := set_data (<[slot f (kf_in f) i := b]> (kf_data f)) f in
  kf_wf f' k /\ contents f' = contents f /\ (forall off j, slot f' off j = slot f off j).
Proof.
  intros H Hn Hi f'. assert (forall off j, slot f' off j = slot f off j) as Es.
  { intros off j. unfold slot, f'. simpl. rewrite length_insert. done. }
  assert (kf_wf f' k) as Hw by (destruct H; split; try done; simpl; by rewrite length_insert).
  split_and!; try done. pose proof (free_fits f k n H Hn) as Hfit. apply list_eq. intros j.
  destruct (decide (j < bytes f (kfifo_len f))%nat) as [Hj|Hj].
  - rewrite (contents_get f' k), (contents_get f k) by done. rewrite Es. unfold f'. simpl.
    apply list_lookup_insert_ne. rewrite (slot_in f k) by done. intros E.
    apply (slot_inj f k) in E; [lia|done|lia|lia].
  - rewrite !lookup_ge_None_2; [done|..]; unfold contents; rewrite ring_length; try lia.
    change (bytes f' (kfifo_len f')) with (bytes f (kfifo_len f)). lia.
Qed.

(** Moving [in] past bytes that are all there. *)
Lemma contents_commit f k buf n : kf_wf f k -> 0 <= n <= kfifo_unused f -> (bytes f n <= length buf)%nat ->
  (forall i, (i < bytes f n)%nat -> kf_data f !! slot f (kf_in f) i = buf !! i) ->
  let f' := set_in (u32 (kf_in f + n)) f in
  kf_wf f' k /\ contents f' = contents f ++ take (bytes f n) buf /\ kfifo_len f' = kfifo_len f + n.
Proof.
  intros H Hn Hb Hall f'. pose proof (len_range f k H) as Hl. pose proof (unused_val f k H) as Eu.
  pose proof (wf_pow _ _ H). pose proof (wf_esize _ _ H). pose proof (free_fits f k n H Hn) as Hfit.
  assert (kfifo_len f' = kfifo_len f + n) as El.
  { unfold f', kfifo_len. simpl. rewrite u32_sub_l. replace (kf_in f + n - kf_out f) with (kf_in f - kf_out f + n) by lia.
    rewrite <- u32_add_l. fold (kfifo_len f). apply u32_small. unfold U32_MAX. lia. }
  assert (kf_wf f' k) as Hw.
  { destruct H. split; try done; simpl; [|by rewrite El; lia].
    pose proof (u32_range (kf_in f + n)). unfold U32_MAX in *. lia. }
  assert (bytes f' (kfifo_len f') = bytes f (kfifo_len f) + bytes f n)%nat as Eb.
  { rewrite El. change (bytes f') with (bytes f). apply bytes_add; lia. }
  split_and!; try done. apply list_eq. intros j.
  destruct (decide (j < bytes f (kfifo_len f) + bytes f n)%nat) as [Hj|Hj].
  - rewrite (contents_get f' k) by (done || lia). change (slot f' (kf_out f') j) with (slot f (kf_out f) j).
    change (kf_data f') with (kf_data f).
    destruct (decide (j < bytes f (kfifo_len f))%nat).
    + rewrite lookup_app_l by (by rewrite (contents_length f k)). symmetry. by apply (contents_get f k).
    + rewrite lookup_app_r by (rewrite (contents_length f k) by done; lia). rewrite (contents_length f k) by done.
      rewrite lookup_take_lt by lia. rewrite <- Hall by lia. rewrite (slot_in f k) by done. do 2 f_equal. lia.
  - rewrite !lookup_ge_None_2; [done|..].
    + rewrite length_app, length_take, (contents_length f k) by done. lia.
    + rewrite (contents_length f' k) by done. lia.
Qed.

Lemma writer_step_ok k a b : world_ok k a -> writer_step a b -> world_ok k b.
Proof.
  intros [Hw Hwr Hrd Hst] Hs. destruct Hs as [f r s g buf len Hlen Hb|f r s g buf n t1 i t2 b Hi|f r s g buf n]; simpl in *.
  - split; simpl; try done. pose proof (unused_val f k Hw). pose proof (len_range f k Hw). pose proof (wf_esize _ _ Hw).
    split_and!; try lia.
    + pose proof (bytes_set f (Z.min len (kfifo_unused f)) len). lia.
    + intros i Hi. apply elem_of_seq in Hi. lia.
    + intros i Hi Hno. exfalso. apply Hno, elem_of_seq. lia.
  - destruct Hwr as (Hn & Hb & Htodo & Hdone). pose proof (free_fits f k n Hw Hn) as Hfit.
    assert (i < bytes f n)%nat as Hin by (apply Htodo, elem_of_app; right; apply elem_of_cons; by left).
    destruct (store_free f k n i b Hw Hn Hin) as (Hw' & Hc' & Hs'). set (f' := set_data _ f) in *.
    split; simpl; [done| | |by rewrite Hc'].
    + split; [done|]. split; [done|]. split.
      * intros j Hj. apply Htodo. rewrite elem_of_app, elem_of_cons in *. tauto.
      * intros j Hj Hno. rewrite Hs'. unfold f'. simpl. change (bytes f' n) with (bytes f n) in Hj.
        destruct (decide (j = i)) as [->|Hne].
        -- rewrite list_lookup_insert_eq by (by apply (slot_lt f k)). done.
        -- rewrite list_lookup_insert_ne.
           ++ apply Hdone; [done|]. rewrite elem_of_app, elem_of_cons in *. naive_solver.
           ++ intros E. apply (slot_inj f k) in E; [done|done|lia|lia].
    + destruct r as [|m dst todo]; [done|]. unfold reader_ok in *. rewrite Hc'. done.
  - destruct Hwr as (Hn & Hb & _ & Hdone).
    destruct (contents_commit f k buf n Hw Hn Hb) as (Hw' & Hc' & Hl').
    { intros i Hi. apply Hdone; [done|]. apply not_elem_of_nil. }
    set (f' := set_in _ f) in *. split; simpl; [done|done| |by rewrite Hc', Hst, app_assoc].
    destruct r as [|m dst todo]; [done|]. destruct Hrd as (Hm & Hd & Ht & Hdn). unfold reader_ok. rewrite Hl', Hc'.
    change (bytes f' m) with (bytes f m). split_and!; try done; try lia.
    intros i Hi Hno. rewrite lookup_app_l; [by apply Hdn|]. rewrite (contents_length f k) by done.
    pose proof (bytes_set f m (kfifo_len f)). pose proof (wf_esize _ _ Hw). lia.
Qed.

Lemma reader_step_ok k a b : world_ok k a -> reader_step a b -> world_ok k b.
Proof.
  intros [Hw Hwr Hrd Hst] Hs. pose proof (len_range _ k Hw) as Hl. pose proof (wf_esize _ _ Hw) as He.
  destruct Hs as [f w s g len Hlen|f w s g n dst t1 i t2 b Hi|f w s g n dst]; simpl in *.
  - split; simpl; try done. split_and!; try lia.
    + by rewrite length_replicate.
    + intros i Hi. apply elem_of_seq in Hi. lia.
    + intros i Hi Hno. exfalso. apply Hno, elem_of_seq. lia.
  - destruct Hrd as (Hn & Hd & Htodo & Hdone).
    assert (i < bytes f n)%nat as Hin by (apply Htodo, elem_of_app; right; apply elem_of_cons; by left).
    split; simpl; try done. split_and!; try lia.
    + by rewrite length_insert.
    + intros j Hj. apply Htodo. rewrite elem_of_app, elem_of_cons in *. tauto.
    + intros j Hj Hno. destruct (decide (j = i)) as [->|Hne].
      * rewrite list_lookup_insert_eq by lia. rewrite (contents_get f k), Hi; try done.
        pose proof (bytes_set f n (kfifo_len f)). lia.
      * rewrite list_lookup_insert_ne by done. apply Hdone; [done|]. rewrite elem_of_app, elem_of_cons in *. naive_solver.
  - destruct Hrd as (Hn & Hd & _ & Hdone).
    assert (dst = take (bytes f n) (contents f)) as Edst.
    { pose proof (bytes_set f n (kfifo_len f)). apply list_eq. intros i. destruct (decide (i < bytes f n)%nat) as [Hi|Hi].
      - rewrite lookup_take_lt by done. apply Hdone; [done|]. apply not_elem_of_nil.
      - rewrite !lookup_ge_None_2; [done|..]; rewrite ?length_take; lia. }
    destruct (contents_skip f k n Hw Hn) as (Hw' & Hc' & Hl'). set (f' := set_out _ f) in *.
    split; simpl; [done| |done|].
    + destruct w as [|buf m todo]; [done|]. destruct Hwr as (Hm & Hb & Ht & Hdn).
      unfold writer_ok. change (bytes f' m) with (bytes f m). rewrite (unused_val f' k Hw'), Hl'.
      rewrite (unused_val f k Hw) in Hm. split_and!; try done; lia.
    + rewrite Hc', Hst, Edst, <- app_assoc, take_drop. done.
Qed.

Lemma runs_ok k a b : world_ok k a -> runs a b -> world_ok k b.
Proof.
  intros Ha Hr. induction Hr as [|a b c Hr IH [Hs|Hs]]; [done| |].
  - eapply writer_step_ok; [by apply IH|done].
  - eapply reader_step_ok; [by apply IH|done].
Qed.

(** C26: one writer in __kfifo_in and one reader in __kfifo_out need no lock:
    whatever the interleaving of their byte-wise copies and counter updates, at
    every moment the bytes taken out followed by the contents of the FIFO are
    exactly the bytes put in, in order, and the FIFO is consistent. *)
Theorem kfifo_spsc_safe f k b :
  kf_wf f k -> runs (mk_world f WIdle RIdle (contents f) []) b ->
  w_sent b = w_got b ++ contents (w_fifo b) /\ kf_wf (w_fifo b) k.
Proof.
  intros Hf Hr. assert (world_ok k b) as [H1 _ _ H2]; [|done]. eapply runs_ok; [|exact Hr]. by split.
Qed.
