(* ===== verification/KfifoExamples.v ===== *)
(** * The kernel FIFO on concrete buffers

    Witnesses of the theorems, on a FIFO whose counters are about to wrap, and
    two inputs on which the code does not keep within its bounds. *)
From Stdlib Require Import ZArith Lia Bool.
From stdpp Require Import base numbers list.
From S2P Require Import Prelude Kfifo KfifoQueue KfifoUser KfifoRecord KfifoRace.

(** Four elements of two bytes, one of them in use, [in] one before the wrap. *)
Definition wide : __kfifo := mk_kfifo 4294967295 4294967294 3 2 [0; 1; 2; 3; 4; 5; 6; 7].

Lemma wide_wf : kf_wf wide 2.
Proof. split; vm_compute; intuition discriminate. Qed.

Lemma kfifo_refines_queue_witness :
  exists f', fifo_run wide [In [20; 21; 30; 31]; Out 2; Peek 5; In [40; 41]]
             = Ret ([(2, []); (2, [4; 5; 20; 21]); (1, [30; 31]); (1, [])], f')
    /\ kf_wf f' 2 /\ contents f' = [30; 31; 40; 41].
Proof.
  destruct (kfifo_refines_queue wide 2 [In [20; 21; 30; 31]; Out 2; Peek 5; In [40; 41]]) as (f' & E & Hw & Hc).
  - apply wide_wf.
  - repeat constructor; simpl; lia.
  - exists f'. split_and!; [exact E|exact Hw|exact Hc].
Defined.

Lemma kfifo_alloc_correct_witness :
  exists f', __kfifo_alloc (fun n => Some (replicate (Z.to_nat n) 0)) wide 5 2 = (0, f')
    /\ kf_wf f' 3 /\ contents f' = [] /\ 5 <= kf_mask f' + 1 < 10.
Proof.
  destruct (kfifo_alloc_correct (fun n => if decide (0 <= n) then Some (replicate (Z.to_nat n) 0) else None) wide 5 2)
    as [[H _]|H]; [|lia|lia|vm_compute; done|discriminate H|exact H].
  intros n buf E. case_decide; [|done]. injection E as <-. rewrite length_replicate. lia.
Defined.

(** A user copy that stops three bytes before the end. *)
Definition ubyte (a : Z) : Z := u8 a.
Definition short_from (a n : Z) : Z * list Z :=
  let r := Z.min n 3 in
  (r, user_bytes ubyte a (Z.to_nat (n - r)) ++ replicate (Z.to_nat r) 0).

Lemma user_bytes_length u a n : length (user_bytes u a n) = n.
Proof. unfold user_bytes. by rewrite length_map, length_seq. Qed.

Lemma short_from_ok : copies_from ubyte short_from.
Proof.
  intros a n r bs Hn E. unfold short_from in E. injection E as <- <-. split_and!; try lia.
  - rewrite length_app, length_replicate, user_bytes_length. lia.
  - rewrite take_app_le by (rewrite user_bytes_length; lia). rewrite take_ge; [done|]. rewrite user_bytes_length. lia.
Qed.

(** Of three elements one byte of the first arrives and none is taken over: a fault. *)
Lemma kfifo_from_user_correct_witness :
  exists f', __kfifo_from_user short_from wide 100 6 = Ret (- EFAULT, 0, f') /\ kf_wf f' 2 /\ contents f' = [4; 5].
Proof.
  destruct (kfifo_from_user_correct ubyte short_from wide 2 100 6) as (_ & f' & E & Hw & Hc);
    [apply short_from_ok|apply wide_wf|vm_compute; done|lia|].
  exists f'. split; [exact E|]. split; [exact Hw|exact Hc].
Defined.

(** A copy that stops after three bytes of each part. *)
Definition short_to (a : Z) (bs : list Z) : Z := Z.max 0 (Z.of_nat (length bs) - 3).

(** Four elements of two bytes, all in use, three of them before the end of the ring. *)
Definition full : __kfifo := mk_kfifo 5 1 3 2 [0; 1; 2; 3; 4; 5; 6; 7].

Lemma full_wf : kf_wf full 2.
Proof. split; vm_compute; intuition discriminate. Qed.

(** Three bytes reach user space: one element is removed, the half of the second is not. *)
Lemma kfifo_to_user_correct_witness :
  exists f', __kfifo_to_user short_to full 100 8 = Ret (- EFAULT, 2, [(100, [2; 3; 4])], f')
    /\ kf_wf f' 2 /\ contents f' = [4; 5; 6; 7; 0; 1].
Proof.
  destruct (kfifo_to_user_correct short_to full 2 100 8) as (_ & ws & f' & E & Hw & Hc & _);
    [|apply full_wf|vm_compute; done|lia|].
  - intros a bs. unfold short_to. lia.
  - exists f'. split; [|split; [exact Hw|exact Hc]]. transitivity (Ret (- EFAULT, 2, ws, f')); [exact E|].
    assert (Hws : ws = [(100, [2; 3; 4])]) by (vm_compute in E; congruence). by rewrite Hws.
Defined.

(** Eight bytes, empty, one before the wrap. *)
Definition narrow : __kfifo := mk_kfifo 4294967295 4294967295 7 1 (replicate 8 0).

Lemma narrow_recs : kf_recs narrow 3 1 [].
Proof. by split. Qed.

Lemma kfifo_records_refine_witness :
  exists f', rec_run 1 narrow [InR [7; 8; 9]; InR [5]; InR [1; 2]; OutR 2; PeekR 9]
             = Ret ([(3, []); (1, []); (0, []); (2, [7; 8]); (1, [5])], f') /\ kf_recs f' 3 1 [[5]].
Proof.
  destruct (kfifo_records_refine narrow 3 1 [] [InR [7; 8; 9]; InR [5]; InR [1; 2]; OutR 2; PeekR 9]) as (f' & E & H).
  - apply narrow_recs.
  - by left.
  - repeat constructor; simpl; unfold record_ok; simpl; lia.
  - exists f'. split; [exact E|exact H].
Defined.

(** A reader that starts while the writer is half way. *)
Lemma kfifo_spsc_safe_witness :
  exists b, runs (mk_world wide WIdle RIdle [4; 5] []) b
    /\ w_sent b = [4; 5; 20; 21] /\ w_got b = [4; 5] /\ w_sent b = w_got b ++ contents (w_fifo b).
Proof.
  refine (ex_intro _ ?[b] _). assert (runs (mk_world wide WIdle RIdle [4; 5] []) ?b) as Hr.
  { eapply runs_step; [eapply runs_step; [eapply runs_step; [eapply runs_step; [eapply runs_step; [eapply runs_step;
    [eapply runs_step; [eapply runs_step; [apply runs_refl|]|]|]|]|]|]|]|].
  - left. apply (w_begin _ _ _ _ [20; 21] 1); [lia|vm_compute; lia].
  - left. apply (w_store _ _ _ _ [20; 21] 1 [0%nat] 1 [] 21). done.
  - right. apply (r_begin _ _ _ _ 4). lia.
  - right. apply (r_load _ _ _ _ 1 [0; 0] [] 0 [1%nat] 4). done.
  - left. apply (w_store _ _ _ _ [20; 21] 1 [] 0 [] 20). done.
  - left. apply w_commit.
  - right. apply (r_load _ _ _ _ 1 [4; 0] [] 1 [] 5). done.
  - right. apply r_commit. }
  split; [exact Hr|]. split; [reflexivity|]. split; [reflexivity|].
  exact (proj1 (kfifo_spsc_safe wide 2 _ wide_wf Hr)).
Defined.

(** [__kfifo_init] rounds a buffer of three bytes up to four elements; filling
    it stores behind the buffer. *)
Theorem kfifo_init_overrun :
  exists f, __kfifo_init narrow [0; 0; 0] 3 1 = Ret (0, f) /\ __kfifo_in f [1; 2; 3; 4] 4 = Ub.
Proof. eexists. split; reflexivity. Qed.

(** A record of 300 bytes with a one-byte length field: it is accepted whole,
    but the reader gets a record of 44 bytes, and the rest of it as records. *)
Theorem kfifo_in_r_long_record :
  exists f bs f2, __kfifo_in_r (mk_kfifo 0 0 511 1 (replicate 512 0)) (replicate 300 9) 300 1 = Ret (300, f)
    /\ __kfifo_out_r f 300 1 = Ret (44, bs, f2) /\ __kfifo_len_r f2 1 = Ret 9.
Proof. do 3 eexists. split; [vm_compute; reflexivity|]. split; vm_compute; reflexivity. Qed.
