(* ===== verification/KList.v ===== *)
(** * Doubly linked lists (include/linux/list.h)

    The store maps the address of a [struct list_head] to its [next] and
    [prev]; reading or writing any other address is [Ub].  The functions are
    modelled store by store, as they are written. *)
From Stdlib Require Import ZArith Lia Bool.
From stdpp Require Import base numbers list gmap.
From S2P Require Import Prelude.

Abbreviation heap := (gmap Z (Z * Z)).

(** [CONFIG_ILLEGAL_POINTER_VALUE] is 0. *)
Definition LIST_POISON1 : Z := 256.
Definition LIST_POISON2 : Z := 512.

Definition get_next (h : heap) (p : Z) : outcome Z :=
  match h !! p with Some (n, _) => Ret n | None => Ub end.
Definition get_prev (h : heap) (p : Z) : outcome Z :=
  match h !! p with Some (_, q) => Ret q | None => Ub end.
Definition set_next (h : heap) (p v : Z) : outcome heap :=
  match h !! p with Some (_, q) => Ret (<[p := (v, q)]> h) | None => Ub end.
Definition set_prev (h : heap) (p v : Z) : outcome heap :=
  match h !! p with Some (n, _) => Ret (<[p := (n, v)]> h) | None => Ub end.

Definition INIT_LIST_HEAD (h : heap) (list : Z) : outcome heap :=
  let* h := set_next h list list in
  set_prev h list list.

Definition __list_add (h : heap) (new prev next : Z) : outcome heap :=
  let* h := set_prev h next new in
  let* h := set_next h new next in
  let* h := set_prev h new prev in
  set_next h prev new.

Definition list_add (h : heap) (new head : Z) : outcome heap :=
  let* n := get_next h head in
  __list_add h new head n.

Definition list_add_tail (h : heap) (new head : Z) : outcome heap :=
  let* p := get_prev h head in
  __list_add h new p head.

Definition __list_del (h : heap) (prev next : Z) : outcome heap :=
  let* h := set_prev h next prev in
  set_next h prev next.

Definition __list_del_entry (h : heap) (entry : Z) : outcome heap :=
  let* p := get_prev h entry in
  let* n := get_next h entry in
  __list_del h p n.

Definition list_del (h : heap) (entry : Z) : outcome heap :=
  let* p := get_prev h entry in
  let* n := get_next h entry in
  let* h := __list_del h p n in
  let* h := set_next h entry LIST_POISON1 in
  set_prev h entry LIST_POISON2.

Definition list_replace (h : heap) (old new : Z) : outcome heap :=
  let* n := get_next h old in
  let* h := set_next h new n in
  let* n := get_next h new in
  let* h := set_prev h n new in
  let* p := get_prev h old in
  let* h := set_prev h new p in
  let* p := get_prev h new in
  set_next h p new.

Definition list_replace_init (h : heap) (old new : Z) : outcome heap :=
  let* h := list_replace h old new in
  INIT_LIST_HEAD h old.

Definition list_del_init (h : heap) (entry : Z) : outcome heap :=
  let* h := __list_del_entry h entry in
  INIT_LIST_HEAD h entry.

Definition list_move (h : heap) (list head : Z) : outcome heap :=
  let* h := __list_del_entry h list in
  list_add h list head.

Definition list_move_tail (h : heap) (list head : Z) : outcome heap :=
  let* h := __list_del_entry h list in
  list_add_tail h list head.

Definition list_is_last (h : heap) (list head : Z) : outcome bool :=
  let* n := get_next h list in
  Ret (n =? head).

Definition list_empty (h : heap) (head : Z) : outcome bool :=
  let* n := get_next h head in
  Ret (n =? head).

Definition list_empty_careful (h : heap) (head : Z) : outcome bool :=
  let* n := get_next h head in
  let* p := get_prev h head in
  Ret ((n =? head) && (n =? p)).

Definition list_rotate_left (h : heap) (head : Z) : outcome heap :=
  let* e := list_empty h head in
  if negb e then
    let* first := get_next h head in
    list_move_tail h first head
  else Ret h.

Definition list_is_singular (h : heap) (head : Z) : outcome bool :=
  let* e := list_empty h head in
  if negb e then
    let* n := get_next h head in
    let* p := get_prev h head in
    Ret (n =? p)
  else Ret false.

Definition __list_cut_position (h : heap) (list head entry : Z) : outcome heap :=
  let* new_first := get_next h entry in
  let* hn := get_next h head in
  let* h := set_next h list hn in
  let* ln := get_next h list in
  let* h := set_prev h ln list in
  let* h := set_prev h list entry in
  let* h := set_next h entry list in
  let* h := set_next h head new_first in
  set_prev h new_first head.

Definition list_cut_position (h : heap) (list head entry : Z) : outcome heap :=
  let* e := list_empty h head in
  if e then Ret h
  else
    let* s := list_is_singular h head in
    let* n := get_next h head in
    if s && (negb (n =? entry) && negb (head =? entry)) then Ret h
    else if entry =? head then INIT_LIST_HEAD h list
    else __list_cut_position h list head entry.

Definition __list_splice (h : heap) (list prev next : Z) : outcome heap :=
  let* first := get_next h list in
  let* last := get_prev h list in
  let* h := set_prev h first prev in
  let* h := set_next h prev first in
  let* h := set_next h last next in
  set_prev h next last.

Definition list_splice (h : heap) (list head : Z) : outcome heap :=
  let* e := list_empty h list in
  if negb e then
    let* n := get_next h head in
    __list_splice h list head n
  else Ret h.

Definition list_splice_tail (h : heap) (list head : Z) : outcome heap :=
  let* e := list_empty h list in
  if negb e then
    let* p := get_prev h head in
    __list_splice h list p head
  else Ret h.

Definition list_splice_init (h : heap) (list head : Z) : outcome heap :=
  let* e := list_empty h list in
  if negb e then
    let* n := get_next h head in
    let* h := __list_splice h list head n in
    INIT_LIST_HEAD h list
  else Ret h.

Definition list_splice_tail_init (h : heap) (list head : Z) : outcome heap :=
  let* e := list_empty h list in
  if negb e then
    let* p := get_prev h head in
    let* h := __list_splice h list p head in
    INIT_LIST_HEAD h list
  else Ret h.

(** [list_for_each]: the entries visited. *)
Fixpoint list_walk (fuel : nat) (h : heap) (pos head : Z) : outcome (list Z) :=
  match fuel with
  | O => Fuel
  | S fuel' =>
      if pos =? head then Ret []
      else
        let* n := get_next h pos in
        let* rest := list_walk fuel' h n head in
        Ret (pos :: rest)
  end.

Definition list_for_each (fuel : nat) (h : heap) (head : Z) : outcome (list Z) :=
  let* pos := get_next h head in
  list_walk fuel h pos head.
