(* ===== verification/KListSpec.v ===== *)
(** * Linked lists are sequences

    [dll h head xs]: the circular list at [head] has the entries [xs].  What
    each function of list.h does to the lists it touches, and that it touches
    nothing else. *)
From Stdlib Require Import ZArith Lia Bool.
From stdpp Require Import base numbers list gmap.
From S2P Require Import Prelude KList.

(** ** Fields *)

Definition nx (h : heap) (p : Z) : option Z := fst <$> h !! p.
Definition pv (h : heap) (p : Z) : option Z := snd <$> h !! p.

Lemma nx_pv h p : is_Some (nx h p) <-> is_Some (pv h p).
Proof. unfold nx, pv. by rewrite !fmap_is_Some. Qed.

Lemma get_next_nx h p n : nx h p = Some n -> get_next h p = Ret n.
Proof. unfold nx, get_next. destruct (h !! p) as [[]|]; simpl; [by intros [= ->]|done]. Qed.

Lemma get_prev_pv h p q : pv h p = Some q -> get_prev h p = Ret q.
Proof. unfold pv, get_prev. destruct (h !! p) as [[]|]; simpl; [by intros [= ->]|done]. Qed.

Definition upd (p v : Z) (f : Z -> option Z) (x : Z) : option Z := if decide (x = p) then Some v else f x.

Lemma set_next_spec h p v : is_Some (nx h p) -> exists h', set_next h p v = Ret h'
  /\ (forall x, nx h' x = upd p v (nx h) x) /\ (forall x, pv h' x = pv h x).
Proof.
  unfold nx, pv, set_next. destruct (h !! p) as [[n q]|] eqn:E; [|by intros [? [=]]]. intros _.
  eexists. split; [done|]. unfold upd.
  split; intros x; (destruct (decide (x = p)) as [->|]; [rewrite lookup_insert_eq|rewrite lookup_insert_ne by done]; try done).
  by rewrite E.
Qed.

Lemma set_prev_spec h p v : is_Some (nx h p) -> exists h', set_prev h p v = Ret h'
  /\ (forall x, nx h' x = nx h x) /\ (forall x, pv h' x = upd p v (pv h) x).
Proof.
  unfold nx, pv, set_prev. destruct (h !! p) as [[n q]|] eqn:E; [|by intros [? [=]]]. intros _.
  eexists. split; [done|]. unfold upd.
  split; intros x; (destruct (decide (x = p)) as [->|]; [rewrite lookup_insert_eq|rewrite lookup_insert_ne by done]; try done).
  by rewrite E.
Qed.

Lemma heap_at h h' x : nx h' x = nx h x -> pv h' x = pv h x -> h' !! x = h !! x.
Proof.
  unfold nx, pv. destruct (h' !! x) as [[]|], (h !! x) as [[]|]; simpl; congruence.
Qed.

(** [h'] differs from [h] in the [next] of [N] and the [prev] of [P] only. *)
Definition agree (h h' : heap) (N P : list Z) : Prop :=
  (forall x, x ∉ N -> nx h' x = nx h x) /\ (forall x, x ∉ P -> pv h' x = pv h x).

Lemma agree_at h h' N P x : agree h h' N P -> x ∉ N -> x ∉ P -> h' !! x = h !! x.
Proof. intros [H1 H2] Hn Hp. apply heap_at; auto. Qed.

Lemma agree_trans h1 h2 h3 N1 P1 N2 P2 :
  agree h1 h2 N1 P1 -> agree h2 h3 N2 P2 -> agree h1 h3 (N1 ++ N2) (P1 ++ P2).
Proof.
  intros [H1 H2] [H3 H4]. split; intros x Hx; rewrite elem_of_app in Hx;
    [rewrite H3, H1|rewrite H4, H2]; done || tauto.
Qed.

(** ** Chains *)

Definition link (h : heap) (a b : Z) : Prop := nx h a = Some b /\ pv h b = Some a.

Fixpoint chain (h : heap) (l : list Z) : Prop :=
  match l with
  | a :: ((b :: _) as t) => link h a b /\ chain h t
  | _ => True
  end.

Lemma chain_cat h l p q m : chain h ((l ++ [p]) ++ q :: m) <-> chain h (l ++ [p]) /\ link h p q /\ chain h (q :: m).
Proof.
  induction l as [|a l IH]; simpl; [tauto|]. destruct l as [|b l]; simpl in *; tauto.
Qed.

Lemma chain_at h l x y m : chain h (l ++ x :: y :: m) -> link h x y.
Proof. induction l as [|a l IH]; [by intros [? _]|]. intros H. apply IH. destruct l; apply H. Qed.

Lemma chain_frame h h' N P l : agree h h' N P -> chain h l ->
  (forall a, a ∈ removelast l -> a ∉ N) -> (forall b, b ∈ tail l -> b ∉ P) -> chain h' l.
Proof.
  intros [Ha Hb]. induction l as [|a l IH]; [done|]. intros Hc Hs Ht. destruct l as [|b l]; [done|].
  destruct Hc as [[H1 H2] Hc]. split.
  - split; [rewrite Ha|rewrite Hb]; try done; [apply Hs|apply Ht]; simpl; apply elem_of_cons; by left.
  - apply IH; [done|..].
    + intros x Hx. apply Hs. simpl. apply elem_of_cons. by right.
    + intros x Hx. apply Ht. simpl. apply elem_of_cons. right. done.
Qed.

Definition dll (h : heap) (head : Z) (xs : list Z) : Prop :=
  NoDup (head :: xs) /\ chain h (head :: xs ++ [head]).

(** The neighbours of a place in a list. *)
Lemma place (head : Z) l1 l2 : exists l p q m, head :: l1 = l ++ [p] /\ l2 ++ [head] = q :: m.
Proof.
  destruct (exists_last (l := head :: l1)) as (l & p & E); [done|].
  destruct (l2 ++ [head]) as [|q m] eqn:E2; [by destruct l2|]. by exists l, p, q, m.
Qed.

Lemma dll_place h head l1 l2 l p q m :
  dll h head (l1 ++ l2) -> head :: l1 = l ++ [p] -> l2 ++ [head] = q :: m ->
  chain h (l ++ [p]) /\ link h p q /\ chain h (q :: m).
Proof. intros [_ H] E1 E2. rewrite <- app_assoc, E2, app_comm_cons, E1 in H. by apply chain_cat. Qed.

Lemma dll_empty h head : dll h head [] <-> link h head head.
Proof.
  unfold dll. simpl. split; [by intros (_ & ? & _)|]. intros H. split; [|done].
  apply NoDup_cons. split; [apply not_elem_of_nil|apply NoDup_nil_2].
Qed.

(** A list none of whose addresses is touched stays. *)
Lemma dll_frame h h' N P head xs : agree h h' N P -> dll h head xs ->
  (forall x, x ∈ head :: xs -> x ∉ N) -> (forall x, x ∈ head :: xs -> x ∉ P) -> dll h' head xs.
Proof.
  intros Ha [Hn Hc] HN HP. split; [done|]. eapply chain_frame; [done|done|..].
  - intros a Ha'. apply HN. rewrite app_comm_cons, removelast_last in Ha'. done.
  - intros b Hb. apply HP. simpl in Hb. apply elem_of_app in Hb as [Hb|Hb]; [by apply elem_of_cons; right|].
    apply list_elem_of_singleton in Hb as ->. apply elem_of_cons. by left.
Qed.

Lemma link_dom h a b : link h a b -> is_Some (nx h a) /\ is_Some (pv h a) /\ is_Some (nx h b) /\ is_Some (pv h b).
Proof. intros [H1 H2]. rewrite <- (nx_pv h a), (nx_pv h b). by rewrite H1, H2. Qed.

(** ** Stepping through stores *)

Definition has (h : heap) (p : Z) : Prop := is_Some (nx h p).

Lemma has_upd h h' p v : (forall x, nx h' x = upd p v (nx h) x) -> forall x, has h x -> has h' x.
Proof. intros H x Hx. unfold has. rewrite H. unfold upd. case_decide; [by eexists|done]. Qed.

Lemma has_same h h' : (forall x, nx h' x = nx h x) -> forall x, has h x -> has h' x.
Proof. intros H x Hx. unfold has. by rewrite H. Qed.

Lemma link_has h a b : link h a b -> has h a /\ has h b.
Proof. intros H. apply link_dom in H as (? & ? & ? & ?). done. Qed.

Ltac dom := repeat match goal with
  | |- is_Some (nx _ _) => change (is_Some (nx ?h ?p)) with (has h p)
  | H : forall x, nx ?h' x = upd _ _ (nx ?h) x |- has ?h' _ => apply (has_upd h h' _ _ H)
  | H : forall x, nx ?h' x = nx ?h x |- has ?h' _ => apply (has_same h h' H)
  end; done.

(** One store, or one load whose value is known. *)
Ltac hstep :=
  match goal with
  | |- context [obind (set_next ?h ?p ?v) _] =>
      let h' := fresh "h" in let E := fresh "E" in let Hn := fresh "Hn" in let Hp := fresh "Hp" in
      destruct (set_next_spec h p v) as (h' & E & Hn & Hp); [dom|rewrite E; cbn [obind]; clear E]
  | |- context [obind (set_prev ?h ?p ?v) _] =>
      let h' := fresh "h" in let E := fresh "E" in let Hn := fresh "Hn" in let Hp := fresh "Hp" in
      destruct (set_prev_spec h p v) as (h' & E & Hn & Hp); [dom|rewrite E; cbn [obind]; clear E]
  | |- exists _, set_next ?h ?p ?v = Ret _ /\ _ =>
      let h' := fresh "h" in let E := fresh "E" in let Hn := fresh "Hn" in let Hp := fresh "Hp" in
      destruct (set_next_spec h p v) as (h' & E & Hn & Hp); [dom|exists h'; split; [exact E|clear E]]
  | |- exists _, set_prev ?h ?p ?v = Ret _ /\ _ =>
      let h' := fresh "h" in let E := fresh "E" in let Hn := fresh "Hn" in let Hp := fresh "Hp" in
      destruct (set_prev_spec h p v) as (h' & E & Hn & Hp); [dom|exists h'; split; [exact E|clear E]]
  end.

(** What the fields are after the stores. *)
Ltac fields := repeat (match goal with
  | H : forall x, nx ?h' x = _ |- context [nx ?h' _] => rewrite H
  | H : forall x, pv ?h' x = _ |- context [pv ?h' _] => rewrite H
  | |- context [upd _ _ _ _] => unfold upd; case_decide; try congruence
  end).

Ltac frame := let x := fresh in let Hx := fresh in
  split; intros x Hx; fields; exfalso; apply Hx; subst; rewrite ?elem_of_cons; auto 8.

(** ** Single stores *)

Lemma agree_weaken h h' N P N' P' : agree h h' N P -> N ⊆ N' -> P ⊆ P' -> agree h h' N' P'.
Proof. intros [H1 H2] HN HP. split; intros x Hx; [apply H1|apply H2]; auto. Qed.

Lemma set_next_ok h p v : has h p -> exists h', set_next h p v = Ret h'
  /\ agree h h' [p] [] /\ nx h' p = Some v /\ (forall x, has h x -> has h' x).
Proof.
  intros Hp. destruct (set_next_spec h p v Hp) as (h' & E & Hn & Hv). exists h'. split_and!; [done| |by fields|].
  - split; intros x Hx; [|apply Hv]. fields. by apply not_elem_of_cons in Hx as [].
  - by eapply has_upd.
Qed.

Lemma set_prev_ok h p v : has h p -> exists h', set_prev h p v = Ret h'
  /\ agree h h' [] [p] /\ pv h' p = Some v /\ (forall x, has h x -> has h' x).
Proof.
  intros Hp. destruct (set_prev_spec h p v Hp) as (h' & E & Hn & Hv). exists h'. split_and!; [done| |by fields|].
  - split; intros x Hx; [apply Hn|]. fields. by apply not_elem_of_cons in Hx as [].
  - by apply has_same.
Qed.

Lemma agree_then h1 h2 h3 N P N1 P1 N2 P2 : agree h1 h2 N1 P1 -> agree h2 h3 N2 P2 ->
  N1 ⊆ N -> N2 ⊆ N -> P1 ⊆ P -> P2 ⊆ P -> agree h1 h3 N P.
Proof.
  intros A1 A2 ????. eapply agree_weaken; [by eapply agree_trans|..]; intros x; rewrite elem_of_app; naive_solver.
Qed.

Lemma init_spec h p : has h p -> exists h', INIT_LIST_HEAD h p = Ret h' /\ link h' p p /\ agree h h' [p] [p].
Proof. intros H. unfold INIT_LIST_HEAD. hstep. hstep. split; [split; fields|frame]. Qed.

Lemma __list_add_spec h new prev next : has h new -> has h prev -> has h next -> new <> prev -> new <> next ->
  exists h', __list_add h new prev next = Ret h' /\ link h' prev new /\ link h' new next
    /\ agree h h' [prev; new] [new; next].
Proof.
  intros H1 H2 H3 N1 N2. unfold __list_add. do 4 hstep. split; [split; fields|]. split; [split; fields|frame].
Qed.

Lemma __list_del_spec h prev next : has h prev -> has h next ->
  exists h', __list_del h prev next = Ret h' /\ link h' prev next /\ agree h h' [prev] [next].
Proof. intros H1 H2. unfold __list_del. do 2 hstep. split; [split; fields|frame]. Qed.

(** ** A place in a list *)

(** Membership in lists built with [::] and [++]. *)
Ltac mem :=
  repeat match goal with
  | H : ?P |- _ => lazymatch P with
                   | _ ∈ _ => fail
                   | ~ (_ ∈ _) => fail
                   | _ = _ => fail
                   | _ => clear H
                   end
  end;
  repeat (rewrite elem_of_cons in * || rewrite elem_of_app in * || rewrite elem_of_nil in * );
  first [tauto | naive_solver].

(** The neighbours [p], [q] of a place, and what is before and after them. *)
Record at_place (head : Z) (l1 l2 l : list Z) (p q : Z) (m : list Z) : Prop := {
  ap_left : head :: l1 = l ++ [p];
  ap_right : l2 ++ [head] = q :: m;
  ap_p_l : p ∉ l; ap_q_l1 : q ∉ l1; ap_p_l2 : p ∉ l2; ap_q_m : q ∉ m;
  ap_p : p ∈ head :: l1; ap_q : q ∈ head :: l2;
  ap_l : forall x, x ∈ l -> x ∈ head :: l1;
  ap_m : forall x, x ∈ m -> x ∈ head :: l2
}.

Lemma get_place head l1 l2 : NoDup (head :: l1 ++ l2) -> exists l p q m, at_place head l1 l2 l p q m.
Proof.
  intros Hn. destruct (place head l1 l2) as (l & p & q & m & E1 & E2). exists l, p, q, m.
  apply NoDup_cons in Hn as [Hh Hn]. apply NoDup_app in Hn as (N1 & Hd & N2). rewrite elem_of_app in Hh.
  assert (p ∈ head :: l1) as Hp by (rewrite E1; set_solver).
  assert (q ∈ head :: l2) as Hq by (assert (q ∈ l2 ++ [head]) by (rewrite E2; set_solver); set_solver).
  assert (NoDup (l ++ [p])) as Nl by (rewrite <- E1; apply NoDup_cons; tauto).
  assert (NoDup (q :: m)) as Nm.
  { rewrite <- E2. apply NoDup_app. split_and!; [done|set_solver|apply NoDup_singleton]. }
  apply NoDup_app in Nl as (_ & Nl & _). apply NoDup_cons in Nm as [Nm _].
  split; try done.
  - intros Hx. apply (Nl p Hx). set_solver.
  - intros Hx. apply elem_of_cons in Hq as [->|Hq]; [tauto|]. by apply (Hd q).
  - intros Hx. apply elem_of_cons in Hp as [->|Hp]; [tauto|]. by apply (Hd p).
  - intros x Hx. rewrite E1. set_solver.
  - intros x Hx. assert (x ∈ l2 ++ [head]) by (rewrite E2; set_solver). set_solver.
Qed.

(** Changing the links at the place leaves what is on either side. *)
Lemma left_frame h h' N P head l1 l2 l p q m : at_place head l1 l2 l p q m -> agree h h' N P ->
  chain h (l ++ [p]) -> (forall x, x ∈ N -> x ∉ l) -> (forall x, x ∈ P -> x ∉ l1) -> chain h' (l ++ [p]).
Proof.
  intros Ha Hag Hc HN HP. eapply chain_frame; [done|done|..].
  - intros a H1 H2. rewrite removelast_last in H1. by apply (HN a).
  - intros b H1 H2. rewrite <- (ap_left _ _ _ _ _ _ _ Ha) in H1. by apply (HP b).
Qed.

Lemma right_frame h h' N P head l1 l2 l p q m : at_place head l1 l2 l p q m -> agree h h' N P ->
  chain h (q :: m) -> (forall x, x ∈ N -> x ∉ l2) -> (forall x, x ∈ P -> x ∉ m) -> chain h' (q :: m).
Proof.
  intros Ha Hag Hc HN HP. eapply chain_frame; [done|done|..].
  - intros a H1 H2. rewrite <- (ap_right _ _ _ _ _ _ _ Ha), removelast_last in H1. by apply (HN a).
  - intros b H1 H2. by apply (HP b).
Qed.

Lemma cut_chain h head l1 mid l2 l p q m : at_place head l1 l2 l p q m ->
  chain h (head :: (l1 ++ mid ++ l2) ++ [head]) <-> chain h ((l ++ [p]) ++ mid ++ q :: m).
Proof.
  intros Ha. rewrite <- !app_assoc, (ap_right _ _ _ _ _ _ _ Ha), app_comm_cons, (ap_left _ _ _ _ _ _ _ Ha).
  by rewrite <- !app_assoc.
Qed.

Lemma elem2 (x a b : Z) : x ∈ [a; b] -> x = a \/ x = b.
Proof. rewrite !elem_of_cons, elem_of_nil. tauto. Qed.

Lemma elem1 (x a : Z) : x ∈ [a] -> x = a.
Proof. rewrite elem_of_cons, elem_of_nil. tauto. Qed.

Lemma add_place h head l1 l2 l p q m new :
  dll h head (l1 ++ l2) -> at_place head l1 l2 l p q m -> has h new -> new ∉ head :: l1 ++ l2 ->
  exists h', __list_add h new p q = Ret h' /\ dll h' head (l1 ++ new :: l2) /\ agree h h' [p; new] [new; q].
Proof.
  intros [Hn Hc] Ha Hnew Hout. apply (cut_chain h head l1 [] l2 _ _ _ _ Ha), chain_cat in Hc as (C1 & Lk & C2).
  destruct Ha as [E1 E2 A1 A2 A3 A4 A5 A6 A7 A8] eqn:Ea. clear Ea. rewrite elem_of_cons, elem_of_app in Hout.
  setoid_rewrite elem_of_cons in A5. setoid_rewrite elem_of_cons in A6. setoid_rewrite elem_of_cons in A7.
  setoid_rewrite elem_of_cons in A8.
  destruct (link_has _ _ _ Lk) as [D1 D2].
  destruct (__list_add_spec h new p q) as (h' & E & L1 & L2 & Hag); try done; [naive_solver..|].
  exists h'. split_and!; try done. split.
  - apply NoDup_cons in Hn as [Hh Hn]. apply NoDup_app in Hn as (N1 & Hd & N2).
    apply NoDup_cons. split; [set_solver|]. apply NoDup_app. split_and!; [done|set_solver|].
    apply NoDup_cons. split; [tauto|done].
  - apply (cut_chain h' head l1 [new] l2 _ _ _ _ Ha). simpl. apply chain_cat. split_and!; [|done|split; [done|]].
    + eapply (left_frame h h' [p; new] [new; q]); try done; intros x Hx; apply elem2 in Hx as [-> | ->]; naive_solver.
    + eapply (right_frame h h' [p; new] [new; q]); try done; intros x Hx; apply elem2 in Hx as [-> | ->]; naive_solver.
Qed.

(** What the two fields of a head and of an entry are. *)
Lemma dll_next h head xs : dll h head xs -> nx h head = Some (hd head xs).
Proof. intros [_ H]. destruct xs; simpl in *; apply H. Qed.

Lemma dll_prev h head l1 l2 l p q m : dll h head (l1 ++ l2) -> at_place head l1 l2 l p q m ->
  nx h p = Some q /\ pv h q = Some p.
Proof.
  intros [_ Hc] Ha. apply (cut_chain h head l1 [] l2 _ _ _ _ Ha), chain_cat in Hc as (_ & L & _). exact L.
Qed.

Lemma dll_has h head xs x : dll h head xs -> x ∈ head :: xs -> has h x.
Proof.
  intros [Hn Hc] Hx. assert (exists l1 l2, head :: xs = l1 ++ x :: l2) as (l1 & l2 & E) by (by apply list_elem_of_split in Hx).
  rewrite app_comm_cons, E in Hc. rewrite <- app_assoc in Hc. clear -Hc. simpl in Hc.
  assert (exists y m, l2 ++ [head] = y :: m) as (y & m & Ey) by (destruct l2; simpl; eauto).
  rewrite Ey in Hc. induction l1 as [|a l1 IH]; [exact (proj1 (link_has _ _ _ (proj1 Hc)))|].
  apply IH. destruct l1; apply Hc.
Qed.

Lemma list_add_spec h head xs new :
  dll h head xs -> has h new -> new ∉ head :: xs ->
  exists h' N P, list_add h new head = Ret h' /\ dll h' head (new :: xs) /\ agree h h' N P
    /\ (forall x, x ∈ N \/ x ∈ P -> x ∈ new :: head :: xs).
Proof.
  intros H Hnew Hout. destruct (get_place head [] xs (proj1 H)) as (l & p & q & m & Ha).
  destruct (add_place h head [] xs l p q m new H Ha Hnew Hout) as (h' & E & Hd & Hag).
  assert (p = head) as -> by (pose proof (ap_p _ _ _ _ _ _ _ Ha) as Hp; by apply elem1 in Hp).
  unfold list_add. rewrite (get_next_nx _ _ _ (proj1 (dll_prev h head [] xs _ _ _ _ H Ha))). cbn [obind].
  exists h', [head; new], [new; q]. split_and!; try done. pose proof (ap_q _ _ _ _ _ _ _ Ha).
  intros x [Hx|Hx]; apply elem2 in Hx as [-> | ->]; set_solver.
Qed.

Lemma list_add_tail_spec h head xs new :
  dll h head xs -> has h new -> new ∉ head :: xs ->
  exists h' N P, list_add_tail h new head = Ret h' /\ dll h' head (xs ++ [new]) /\ agree h h' N P
    /\ (forall x, x ∈ N \/ x ∈ P -> x ∈ new :: head :: xs).
Proof.
  rewrite <- (app_nil_r xs) at 1 2. intros H Hnew Hout. destruct (get_place head xs [] (proj1 H)) as (l & p & q & m & Ha).
  destruct (add_place h head xs [] l p q m new H Ha Hnew Hout) as (h' & E & Hd & Hag).
  assert (q = head) as -> by (pose proof (ap_q _ _ _ _ _ _ _ Ha) as Hp; by apply elem1 in Hp).
  unfold list_add_tail. rewrite (get_prev_pv _ _ _ (proj2 (dll_prev h head xs [] _ _ _ _ H Ha))). cbn [obind].
  exists h', [p; new], [new; head]. split_and!; try done. pose proof (ap_p _ _ _ _ _ _ _ Ha).
  intros x [Hx|Hx]; apply elem2 in Hx as [-> | ->]; set_solver.
Qed.

Lemma nodup_entry {A} (a : A) l1 x l2 : NoDup (a :: l1 ++ x :: l2) -> NoDup (a :: l1 ++ l2) /\ x ∉ a :: l1 ++ l2.
Proof.
  rewrite !NoDup_cons, !NoDup_app, NoDup_cons, !elem_of_app, !elem_of_cons, !elem_of_app. setoid_rewrite elem_of_cons.
  intros (H1 & H2 & H3 & H4 & H5). split_and!; try naive_solver.
Qed.

(** Taking an entry out: its own fields keep their values. *)
Lemma del_entry_spec h head l1 e l2 :
  dll h head (l1 ++ e :: l2) ->
  exists h' p q, __list_del_entry h e = Ret h' /\ dll h' head (l1 ++ l2) /\ agree h h' [p] [q]
    /\ p ∈ head :: l1 ++ l2 /\ q ∈ head :: l1 ++ l2 /\ has h' e
    /\ get_prev h e = Ret p /\ get_next h e = Ret q /\ __list_del h p q = Ret h'.
Proof.
  intros [Hn Hc]. destruct (nodup_entry _ _ _ _ Hn) as [Hn' He].
  destruct (get_place head l1 l2 Hn') as (l & p & q & m & Ha).
  apply (cut_chain h head l1 [e] l2 _ _ _ _ Ha) in Hc. simpl in Hc. apply chain_cat in Hc as (C1 & L1 & L2 & C2).
  destruct (__list_del_spec h p q) as (h' & E & L & Hag); [apply (link_has _ _ _ L1)|apply (link_has _ _ _ L2)|].
  pose proof (get_prev_pv _ _ _ (proj2 L1)) as Gp. pose proof (get_next_nx _ _ _ (proj1 L2)) as Gn.
  destruct Ha as [E1 E2 A1 A2 A3 A4 A5 A6 A7 A8] eqn:Ea. clear Ea.
  exists h', p, q. split_and!; try done.
  - unfold __list_del_entry. rewrite Gp. cbn [obind]. rewrite Gn. cbn [obind]. exact E.
  - split; [done|]. apply (cut_chain h' head l1 [] l2 _ _ _ _ Ha). simpl. apply chain_cat. split_and!; [|done|].
    + eapply (left_frame h h' [p] [q]); try done; intros x Hx; apply elem1 in Hx as ->; done.
    + eapply (right_frame h h' [p] [q]); try done; intros x Hx; apply elem1 in Hx as ->; done.
  - set_solver.
  - set_solver.
  - unfold has. rewrite (proj1 Hag); [by rewrite (proj1 L2)|]. intros Hx. apply elem1 in Hx as ->. set_solver.
Qed.

(** ** Splicing and cutting *)

Lemma __list_splice_spec h list prev next first last :
  nx h list = Some first -> pv h list = Some last ->
  has h first -> has h last -> has h prev -> has h next ->
  prev <> last -> first <> next ->
  exists h', __list_splice h list prev next = Ret h' /\ link h' prev first /\ link h' last next
    /\ agree h h' [prev; last] [first; next].
Proof.
  intros En Ep D1 D2 D3 D4 N1 N2. unfold __list_splice.
  rewrite (get_next_nx _ _ _ En). cbn [obind]. rewrite (get_prev_pv _ _ _ Ep). cbn [obind].
  do 4 hstep. split; [split; fields|]. split; [split; fields|frame].
Qed.

Lemma chain_sub h a l b : chain h (a :: l ++ [b]) -> chain h l.
Proof.
  intros H. destruct l as [|x l]; [done|]. simpl in H. destruct H as [_ H]. revert x H.
  induction l as [|y l IH]; intros x H; [done|]. destruct H as [H1 H2]. split; [done|]. by apply IH.
Qed.

Lemma nodup_weave {A} (a : A) l1 l2 ys : NoDup (a :: l1 ++ l2) -> NoDup ys ->
  (forall x, x ∈ ys -> x ∉ a :: l1 ++ l2) -> NoDup (a :: l1 ++ ys ++ l2).
Proof.
  rewrite !NoDup_cons, !NoDup_app, !elem_of_app. intros (H1 & H2 & H3 & H4) H5 H6.
  setoid_rewrite elem_of_cons in H6. setoid_rewrite elem_of_app in H6. setoid_rewrite elem_of_app.
  split_and!; naive_solver.
Qed.

Lemma splice_place h head l1 l2 l p q m list ys :
  dll h head (l1 ++ l2) -> at_place head l1 l2 l p q m -> dll h list ys -> ys <> [] ->
  (forall x, x ∈ list :: ys -> x ∉ head :: l1 ++ l2) ->
  exists h' first last, __list_splice h list p q = Ret h' /\ dll h' head (l1 ++ ys ++ l2)
    /\ agree h h' [p; last] [first; q] /\ first ∈ ys /\ last ∈ ys.
Proof.
  intros [Hn Hc] Ha Hys Hne Hdis. apply (cut_chain h head l1 [] l2 _ _ _ _ Ha), chain_cat in Hc as (C1 & Lk & C2).
  destruct Ha as [E1 E2 A1 A2 A3 A4 A5 A6 A7 A8] eqn:Ea. clear Ea.
  destruct ys as [|first t]; [done|]. destruct (exists_last (l := first :: t)) as (i & last & El); [done|].
  pose proof (dll_next _ _ _ Hys) as Nf. simpl in Nf.
  assert (pv h list = Some last) as Pl.
  { destruct Hys as [_ Hc]. rewrite El, app_comm_cons in Hc. change ((list :: i ++ [last]) ++ [list]) with (list :: (i ++ [last]) ++ [list]) in Hc.
    rewrite app_comm_cons in Hc. change (list :: i ++ [last]) with ((list :: i) ++ [last]) in Hc.
    apply chain_cat in Hc as (_ & L & _). apply L. }
  assert (last ∈ first :: t) as Hla by (rewrite El; mem).
  assert (first ∈ first :: t) as Hfi by mem.
  assert (forall x, x ∈ first :: t -> x ∉ head :: l1 ++ l2) as Hd by (intros x Hx; apply Hdis; mem).
  pose proof (Hd _ Hla) as D1. pose proof (Hd _ Hfi) as D2. destruct (link_has _ _ _ Lk) as [D3 D4].
  assert (p ∈ head :: l1 ++ l2) as Hp by mem. assert (q ∈ head :: l1 ++ l2) as Hq by mem.
  destruct (__list_splice_spec h list p q first last Nf Pl) as (h' & E & L1 & L2 & Hag); try done.
  { eapply dll_has; [exact Hys|]. mem. } { eapply dll_has; [exact Hys|]. mem. }
  { intros ->. done. } { intros ->. done. }
  exists h', first, last. split_and!; try done. destruct Hys as [Nys Cys]. apply chain_sub in Cys.
  apply NoDup_cons in Nys as [Hl Nys]. split; [by apply nodup_weave|].
  apply (cut_chain h' head l1 _ l2 _ _ _ _ Ha).
  assert (chain h' (first :: t)) as C3.
  { eapply chain_frame; [exact Hag|exact Cys|..]; intros x Hx Hin; apply elem2 in Hin as [-> | ->].
    - rewrite El, removelast_last in Hx. assert (p ∈ first :: t) by (rewrite El; mem). by apply (Hd p).
    - rewrite El, removelast_last in Hx. rewrite El, NoDup_app in Nys. destruct Nys as (_ & Hno & _).
      apply (Hno last Hx). mem.
    - apply NoDup_cons in Nys as [Hno _]. done.
    - apply (Hd q); [mem|done]. }
  assert (chain h' (l ++ [p])) as C4.
  { eapply (left_frame h h' [p; last] [first; q]); try done; intros x Hx; apply elem2 in Hx as [-> | ->]; try done.
    - intros Hx. apply A7 in Hx. mem.
    - mem. }
  assert (chain h' (q :: m)) as C5.
  { eapply (right_frame h h' [p; last] [first; q]); try done; intros x Hx; apply elem2 in Hx as [-> | ->]; try done.
    - mem.
    - intros Hx. apply A8 in Hx. mem. }
  simpl. apply chain_cat. split_and!; [done|done|]. rewrite El, app_comm_cons in *. rewrite El. apply chain_cat. done.
Qed.

Lemma __list_cut_spec h list head entry f q :
  nx h entry = Some q -> nx h head = Some f ->
  has h list -> has h head -> has h entry -> has h f -> has h q ->
  list <> entry -> list <> head -> head <> entry -> f <> list -> q <> list -> q <> f ->
  exists h', __list_cut_position h list head entry = Ret h' /\ link h' list f /\ link h' entry list /\ link h' head q
    /\ agree h h' [list; entry; head] [f; list; q].
Proof.
  intros En Ef D1 D2 D3 D4 D5 N1 N2 N3 N4 N5 N6. unfold __list_cut_position.
  rewrite (get_next_nx _ _ _ En). cbn [obind]. rewrite (get_next_nx _ _ _ Ef). cbn [obind].
  hstep. rewrite (get_next_nx h0 list f) by fields. cbn [obind]. do 5 hstep.
  split; [split; fields|]. split; [split; fields|]. split; [split; fields|frame].
Qed.

Lemma cut_spec h list head l1 e l2 :
  dll h head (l1 ++ e :: l2) -> dll h list [] -> list ∉ head :: l1 ++ e :: l2 ->
  exists h' N P, __list_cut_position h list head e = Ret h' /\ dll h' list (l1 ++ [e]) /\ dll h' head l2
    /\ agree h h' N P /\ (forall x, x ∈ N \/ x ∈ P -> x ∈ list :: head :: l1 ++ e :: l2).
Proof.
  intros Hd Hlist Hout. pose proof Hd as [Hn Hc].
  destruct (l1 ++ [e]) as [|f c] eqn:Ec; [by destruct l1|]. destruct (l2 ++ [head]) as [|q m] eqn:Em; [by destruct l2|].
  assert (head :: (l1 ++ e :: l2) ++ [head] = head :: (l1 ++ [e]) ++ q :: m) as Eall.
  { rewrite <- Em. f_equal. by rewrite <- !app_assoc. }
  rewrite Eall, app_comm_cons in Hc. change (head :: (l1 ++ [e])) with ((head :: l1) ++ [e]) in Hc.
  apply chain_cat in Hc as (C1 & Le & C2). simpl in C1. rewrite Ec in C1. destruct C1 as [Lf C1].
  apply NoDup_cons in Hn as [Hh Hn].
  assert (NoDup (l1 ++ [e]) /\ NoDup l2 /\ (forall x, x ∈ l1 ++ [e] -> x ∉ l2)) as (Nc & N2 & Hdis).
  { change (e :: l2) with ([e] ++ l2) in Hn. rewrite app_assoc in Hn. apply NoDup_app in Hn as (? & ? & ?). done. }
  assert ((head ∉ l1 ++ [e]) /\ (head ∉ l2)) as [Hh1 Hh2] by (rewrite !elem_of_app, !elem_of_cons, elem_of_nil in *; tauto).
  assert ((list ∉ l1 ++ [e]) /\ (list ∉ l2) /\ list <> head) as (Hl1 & Hl2 & Hl3)
    by (rewrite !elem_of_app, !elem_of_cons, ?elem_of_app, ?elem_of_cons, ?elem_of_nil in *; tauto).
  assert (e ∈ l1 ++ [e]) as He by (apply elem_of_app; right; by apply list_elem_of_singleton).
  assert (f ∈ l1 ++ [e]) as Hf by (rewrite Ec; apply elem_of_cons; by left).
  assert (q ∈ l2 ++ [head]) as Hq by (rewrite Em; apply elem_of_cons; by left).
  assert (q = head \/ q ∈ l2) as Hq' by (apply elem_of_app in Hq as [?|Hq]; [by right|left; by apply elem1]).
  assert (NoDup (q :: m)) as Nm.
  { rewrite <- Em. apply NoDup_app. split_and!; [done| |apply NoDup_singleton]. intros x Hx Hx'. apply elem1 in Hx' as ->. done. }
  destruct (__list_cut_spec h list head e f q) as (h' & E & L1 & L2 & L3 & Hag); try done.
  { apply Le. } { apply Lf. } { eapply dll_has; [exact Hlist|]. apply elem_of_cons. by left. }
  { apply (link_has _ _ _ Lf). } { apply (link_has _ _ _ Le). } { apply (link_has _ _ _ Lf). } { apply (link_has _ _ _ Le). }
  { intros ->. done. } { intros ->. done. } { intros ->. done. }
  { intros ->. destruct Hq' as [->|]; done. } { intros ->. destruct Hq' as [->|]; [done|by apply (Hdis f)]. }
  exists h', [list; e; head], [f; list; q]. split_and!; try done.
  - rewrite <- Ec. split; [apply NoDup_cons; done|]. change (list :: ((l1 ++ [e]) ++ [list])) with ((list :: (l1 ++ [e])) ++ [list]).
    change (list :: (l1 ++ [e])) with ((list :: l1) ++ [e]). apply chain_cat. split_and!; [|done|done]. simpl. rewrite Ec.
    split; [done|]. eapply chain_frame; [exact Hag|exact C1|..]; intros x Hx; rewrite !elem_of_cons, elem_of_nil.
    + rewrite <- Ec, removelast_last in Hx. apply NoDup_app in Nc as (_ & Hne & _).
      assert (x ∈ l1 ++ [e]) as Hx' by (apply elem_of_app; by left).
      intros [->|[->|[->|[]]]]; [done| |done]. apply (Hne e Hx). by apply list_elem_of_singleton.
    + simpl in Hx. rewrite Ec in Nc. apply NoDup_cons in Nc as [Hnf _].
      assert (x ∈ l1 ++ [e]) as Hx' by (rewrite Ec; apply elem_of_cons; by right).
      intros [->|[->|[->|[]]]]; [done|done|]. destruct Hq' as [->|?]; [done|by apply (Hdis q)].
  - split; [apply NoDup_cons; done|]. rewrite Em. split; [done|].
    eapply chain_frame; [exact Hag|exact C2|..]; intros x Hx; rewrite !elem_of_cons, elem_of_nil.
    + rewrite <- Em, removelast_last in Hx. intros [->|[->|[->|[]]]]; [done|by apply (Hdis e)|done].
    + simpl in Hx. apply NoDup_cons in Nm as [Hnq _].
      assert (x ∈ l2 ++ [head]) as Hx' by (rewrite Em; apply elem_of_cons; by right).
      assert (x = head \/ x ∈ l2) as Hx2 by (apply elem_of_app in Hx' as [?|Hx']; [by right|left; by apply elem1]).
      intros [->|[->|[->|[]]]]; [|destruct Hx2; done|done]. destruct Hx2 as [->|]; [done|by apply (Hdis f)].
  - intros x Hx. rewrite !elem_of_cons, elem_of_nil, !elem_of_app, elem_of_cons in *. rewrite elem_of_nil in *. naive_solver.
Qed.

(** ** Replacing *)

Lemma __list_replace_spec h old new p q :
  nx h old = Some q -> pv h old = Some p -> has h new -> has h p -> has h q ->
  old <> new -> old <> q -> new <> p -> new <> q ->
  exists h', list_replace h old new = Ret h' /\ link h' p new /\ link h' new q /\ agree h h' [p; new] [new; q].
Proof.
  intros En Ep D1 D2 D3 N1 N2 N3 N4. unfold list_replace. rewrite (get_next_nx _ _ _ En). cbn [obind].
  hstep. rewrite (get_next_nx h0 new q) by fields. cbn [obind]. hstep.
  rewrite (get_prev_pv h1 old p) by fields. cbn [obind]. hstep.
  rewrite (get_prev_pv h2 new p) by fields. cbn [obind]. hstep.
  split; [split; fields|]. split; [split; fields|frame].
Qed.

Lemma replace_spec h head l1 old l2 new :
  dll h head (l1 ++ old :: l2) -> has h new -> new ∉ head :: l1 ++ old :: l2 ->
  exists h' p q, list_replace h old new = Ret h' /\ dll h' head (l1 ++ new :: l2) /\ agree h h' [p; new] [new; q]
    /\ p ∈ head :: l1 ++ l2 /\ q ∈ head :: l1 ++ l2 /\ has h' old.
Proof.
  intros [Hn Hc] Hnew Hout. destruct (nodup_entry _ _ _ _ Hn) as [Hn' Hold].
  destruct (get_place head l1 l2 Hn') as (l & p & q & m & Ha).
  apply (cut_chain h head l1 [old] l2 _ _ _ _ Ha) in Hc. simpl in Hc. apply chain_cat in Hc as (C1 & L1 & L2 & C2).
  destruct Ha as [E1 E2 A1 A2 A3 A4 A5 A6 A7 A8] eqn:Ea. clear Ea.
  assert (p ∈ head :: l1 ++ l2) as Hp by mem. assert (q ∈ head :: l1 ++ l2) as Hq by mem.
  assert ((new ∉ head :: l1 ++ l2) /\ new <> old) as [Ho1 Ho2].
  { rewrite !elem_of_cons, !elem_of_app, ?elem_of_cons in *. tauto. }
  destruct (__list_replace_spec h old new p q) as (h' & E & L3 & L4 & Hag); try done;
    [apply L2|apply L1|apply (link_has _ _ _ L1)|apply (link_has _ _ _ L2)|by intros ->..|].
  exists h', p, q. split_and!; try done.
  - split.
    + apply (nodup_weave head l1 l2 [new]); [done|apply NoDup_singleton|]. intros x Hx. by apply elem1 in Hx as ->.
    + apply (cut_chain h' head l1 [new] l2 _ _ _ _ Ha). simpl. apply chain_cat. split_and!; [|done|split; [done|]].
      * eapply (left_frame h h' [p; new] [new; q]); try done; intros x Hx; apply elem2 in Hx as [-> | ->]; try done.
        -- intros Hx. apply A7 in Hx. mem.
        -- mem.
      * eapply (right_frame h h' [p; new] [new; q]); try done; intros x Hx; apply elem2 in Hx as [-> | ->]; try done.
        -- mem.
        -- intros Hx. apply A8 in Hx. mem.
  - unfold has. rewrite (proj1 Hag); [by rewrite (proj1 L2)|]. intros Hx. apply elem2 in Hx as [->| ->]; done.
Qed.

(** ** Reading *)

Lemma list_empty_spec h head xs : dll h head xs ->
  list_empty h head = Ret (match xs with [] => true | _ => false end).
Proof.
  intros H. unfold list_empty. rewrite (get_next_nx _ _ _ (dll_next _ _ _ H)). cbn [obind]. f_equal.
  destruct xs as [|x xs]; simpl; [apply Z.eqb_refl|]. apply Z.eqb_neq. intros ->. destruct H as [H _].
  apply NoDup_cons in H as [H _]. apply H, elem_of_cons. by left.
Qed.

(** [list_for_each] visits the entries in order and ends. *)
Lemma list_walk_spec h head l1 l2 fuel : dll h head (l1 ++ l2) -> (length l2 < fuel)%nat ->
  list_walk fuel h (hd head l2) head = Ret l2.
Proof.
  intros H. revert l1 fuel H. induction l2 as [|x l2 IH]; intros l1 fuel H Hf; (destruct fuel as [|fuel]; [simpl in Hf; lia|]).
  - simpl. by rewrite Z.eqb_refl.
  - simpl. rewrite (proj2 (Z.eqb_neq x head)).
    + assert (nx h x = Some (hd head l2)) as En.
      { destruct H as [_ Hc]. rewrite <- app_assoc in Hc.
        destruct l2 as [|y l2]; [eapply (chain_at h (head :: l1) x head [])|eapply (chain_at h (head :: l1) x y)]; exact Hc. }
      rewrite (get_next_nx _ _ _ En). cbn [obind]. rewrite (IH (l1 ++ [x])); [done| |simpl in Hf; lia].
      by rewrite <- app_assoc.
    + intros ->. destruct H as [H _]. apply NoDup_cons in H as [H _]. apply H, elem_of_app. right. apply elem_of_cons. by left.
Qed.

Lemma list_for_each_spec h head xs fuel : dll h head xs -> (length xs < fuel)%nat ->
  list_for_each fuel h head = Ret xs.
Proof.
  intros H Hf. unfold list_for_each. rewrite (get_next_nx _ _ _ (dll_next _ _ _ H)). cbn [obind].
  by apply (list_walk_spec h head [] xs).
Qed.
