(* ===== verification/KListStore.v ===== *)
(** * Stores of linked lists

    All the lists of a store at once: a map from the heads to the entries, an
    entry on no list being the head of an empty one.  Every operation of list.h
    does to the map what it should, and leaves all other lists alone. *)
From Stdlib Require Import ZArith Lia Bool.
From stdpp Require Import base numbers list gmap.
From S2P Require Import Prelude KList KListSpec.

Abbreviation lists := (gmap Z (list Z)).

Record lists_ok (h : heap) (L : lists) : Prop := {
  lo_dll : forall a xs, L !! a = Some xs -> dll h a xs;
  lo_apart : forall a b xs ys, a <> b -> L !! a = Some xs -> L !! b = Some ys ->
             forall x, x ∈ a :: xs -> x ∉ b :: ys
}.

(** A change inside the footprint [F] of some lists. *)
Lemma lists_change h h' (L L' : lists) N P (F : Z -> Prop) :
  lists_ok h L -> agree h h' N P -> (forall x, x ∈ N \/ x ∈ P -> F x) ->
  (forall a xs, L' !! a = Some xs ->
     (L !! a = Some xs /\ (forall x, x ∈ a :: xs -> ~ F x)) \/ (dll h' a xs /\ (forall x, x ∈ a :: xs -> F x))) ->
  (forall a b xs ys, a <> b -> L' !! a = Some xs -> L' !! b = Some ys ->
     (forall x, x ∈ a :: xs -> F x) -> (forall x, x ∈ b :: ys -> F x) -> forall x, x ∈ a :: xs -> x ∉ b :: ys) ->
  lists_ok h' L'.
Proof.
  intros [Hd Ha] Hag HF Hnew Hap. split.
  - intros a xs E. destruct (Hnew a xs E) as [[E' Hno]|[H _]]; [|done].
    eapply dll_frame; [exact Hag|by apply Hd|..]; intros x Hx Hin; apply (Hno x Hx), HF; auto.
  - intros a b xs ys Hab Ea Eb x Hx.
    destruct (Hnew a xs Ea) as [[Ea' Na]|[_ Fa]], (Hnew b ys Eb) as [[Eb' Nb]|[_ Fb]].
    + by apply (Ha a b xs ys).
    + intros Hy. by apply (Na x Hx), Fb.
    + intros Hy. by apply (Nb x Hy), Fa.
    + by apply (Hap a b xs ys).
Qed.

(** ** The operations *)

Inductive list_op :=
| OAdd (new head : Z)
| OAddTail (new head : Z)
| ODelInit (entry : Z)
| OMove (entry head : Z)
| OMoveTail (entry head : Z)
| OReplaceInit (old new : Z)
| ORotateLeft (head : Z)
| OCut (list head entry : Z)
| OSpliceInit (list head : Z)
| OSpliceTailInit (list head : Z).

Definition list_do (h : heap) (o : list_op) : outcome heap :=
  match o with
  | OAdd new head => list_add h new head
  | OAddTail new head => list_add_tail h new head
  | ODelInit entry => list_del_init h entry
  | OMove entry head => list_move h entry head
  | OMoveTail entry head => list_move_tail h entry head
  | OReplaceInit old new => list_replace_init h old new
  | ORotateLeft head => list_rotate_left h head
  | OCut list head entry => list_cut_position h list head entry
  | OSpliceInit list head => list_splice_init h list head
  | OSpliceTailInit list head => list_splice_tail_init h list head
  end.

Fixpoint list_dos (h : heap) (os : list list_op) : outcome heap :=
  match os with
  | [] => Ret h
  | o :: os' => let* h' := list_do h o in list_dos h' os'
  end.

(** What they promise, on sequences. *)
Inductive list_spec : lists -> list_op -> lists -> Prop :=
| s_add L new head xs :
    L !! new = Some [] -> L !! head = Some xs -> new <> head ->
    list_spec L (OAdd new head) (<[head := new :: xs]> (delete new L))
| s_add_tail L new head xs :
    L !! new = Some [] -> L !! head = Some xs -> new <> head ->
    list_spec L (OAddTail new head) (<[head := xs ++ [new]]> (delete new L))
| s_del_init L head l1 e l2 :
    L !! head = Some (l1 ++ e :: l2) ->
    list_spec L (ODelInit e) (<[e := []]> (<[head := l1 ++ l2]> L))
| s_move L from l1 e l2 head xs :
    L !! from = Some (l1 ++ e :: l2) -> <[from := l1 ++ l2]> L !! head = Some xs ->
    list_spec L (OMove e head) (<[head := e :: xs]> (<[from := l1 ++ l2]> L))
| s_move_tail L from l1 e l2 head xs :
    L !! from = Some (l1 ++ e :: l2) -> <[from := l1 ++ l2]> L !! head = Some xs ->
    list_spec L (OMoveTail e head) (<[head := xs ++ [e]]> (<[from := l1 ++ l2]> L))
| s_replace L head l1 old l2 new :
    L !! head = Some (l1 ++ old :: l2) -> L !! new = Some [] -> new <> head ->
    list_spec L (OReplaceInit old new) (<[old := []]> (<[head := l1 ++ new :: l2]> (delete new L)))
| s_rotate L head x xs :
    L !! head = Some (x :: xs) ->
    list_spec L (ORotateLeft head) (<[head := xs ++ [x]]> L)
| s_rotate_empty L head :
    L !! head = Some [] ->
    list_spec L (ORotateLeft head) L
| s_cut L list head l1 e l2 :
    L !! list = Some [] -> L !! head = Some (l1 ++ e :: l2) -> list <> head ->
    list_spec L (OCut list head e) (<[list := l1 ++ [e]]> (<[head := l2]> L))
| s_cut_empty L list head e :
    L !! list = Some [] -> L !! head = Some [] ->
    list_spec L (OCut list head e) L
| s_cut_head L list head xs :
    L !! list = Some [] -> L !! head = Some xs ->
    list_spec L (OCut list head head) L
| s_splice L list head ys xs :
    L !! list = Some ys -> L !! head = Some xs -> list <> head ->
    list_spec L (OSpliceInit list head) (<[list := []]> (<[head := ys ++ xs]> L))
| s_splice_tail L list head ys xs :
    L !! list = Some ys -> L !! head = Some xs -> list <> head ->
    list_spec L (OSpliceTailInit list head) (<[list := []]> (<[head := xs ++ ys]> L)).

Inductive list_specs : lists -> list list_op -> lists -> Prop :=
| ss_nil L : list_specs L [] L
| ss_cons L o L1 os L2 : list_spec L o L1 -> list_specs L1 os L2 -> list_specs L (o :: os) L2.

(** ** Two lists at a time *)

Lemma foot_key h L a xs b : lists_ok h L -> L !! a = Some xs -> is_Some (L !! b) -> b ∈ a :: xs -> b = a.
Proof.
  intros H Ea [ys Eb] Hb. destruct (decide (b = a)) as [|Hne]; [done|]. exfalso.
  apply (lo_apart _ _ H a b xs ys ltac:(congruence) Ea Eb b Hb). apply elem_of_cons. by left.
Qed.

(** The lists at [k1] and [k2] became the lists at [a1] and [a2] of the same entries. *)
Lemma lists_two h h' (L L' : lists) N P k1 ys1 k2 ys2 a1 xs1 a2 xs2 :
  lists_ok h L -> L !! k1 = Some ys1 -> L !! k2 = Some ys2 -> agree h h' N P ->
  (forall x, x ∈ N \/ x ∈ P -> x ∈ k1 :: ys1 \/ x ∈ k2 :: ys2) ->
  dll h' a1 xs1 -> dll h' a2 xs2 ->
  (forall x, x ∈ a1 :: xs1 \/ x ∈ a2 :: xs2 -> x ∈ k1 :: ys1 \/ x ∈ k2 :: ys2) ->
  (a1 = a2 \/ forall x, x ∈ a1 :: xs1 -> x ∉ a2 :: xs2) ->
  (forall a, L' !! a = if decide (a = a1) then Some xs1 else if decide (a = a2) then Some xs2
                       else if decide (a = k1 \/ a = k2) then None else L !! a) ->
  lists_ok h' L'.
Proof.
  intros H E1 E2 Hag HNP D1 D2 HF Hap HL.
  assert (forall a xs, L !! a = Some xs -> a <> k1 -> a <> k2 -> forall x, x ∈ a :: xs -> ~ (x ∈ k1 :: ys1 \/ x ∈ k2 :: ys2)) as Hno.
  { intros a xs Ea N1 N2 x Hx [Hk|Hk]; [eapply (lo_apart _ _ H a k1)|eapply (lo_apart _ _ H a k2)]; done. }
  eapply (lists_change h h' L L' N P (fun x => x ∈ k1 :: ys1 \/ x ∈ k2 :: ys2)); try done.
  - intros a xs Ea. rewrite HL in Ea. repeat case_decide; simplify_eq.
    + right. split; [done|]. intros x Hx. apply HF. by left.
    + right. split; [done|]. intros x Hx. apply HF. by right.
    + left. split; [done|]. apply Hno; naive_solver.
  - intros a b xs ys Hab Ea Eb Fa Fb. rewrite HL in Ea, Eb.
    assert (forall c zs, L !! c = Some zs -> c <> k1 -> c <> k2 -> (forall x, x ∈ c :: zs -> x ∈ k1 :: ys1 \/ x ∈ k2 :: ys2) -> False) as Hout.
    { intros c zs Ec N1 N2 Fc. apply (Hno c zs Ec N1 N2 c); [apply elem_of_cons; by left|]. apply Fc, elem_of_cons. by left. }
    repeat case_decide; simplify_eq; 
      try (exfalso; apply (Hout a xs); done || tauto); try (exfalso; apply (Hout b ys); done || tauto).
    all: destruct Hap as [->|Hap]; [done|]; intros x Hx Hy; by apply (Hap x).
Qed.

Ltac lookups := intros ?a; repeat first [rewrite lookup_insert | rewrite lookup_delete]; repeat case_decide; naive_solver.

Ltac norm_in := repeat (rewrite elem_of_cons in * || rewrite elem_of_app in * || rewrite elem_of_nil in * ).

Lemma add_ok h L new head xs h' N P zs :
  lists_ok h L -> L !! new = Some [] -> L !! head = Some xs -> new <> head ->
  dll h' head zs -> agree h h' N P -> (forall x, x ∈ N \/ x ∈ P -> x ∈ new :: head :: xs) ->
  (forall x, x ∈ zs -> x ∈ new :: xs) -> lists_ok h' (<[head := zs]> (delete new L)).
Proof.
  intros H E1 E2 Hne Hd Hag HNP Hz.
  eapply (lists_two h h' L _ N P new [] head xs head zs head zs); try done.
  - intros x Hx. specialize (HNP x Hx). norm_in. tauto.
  - intros x Hx. specialize (Hz x). norm_in. tauto.
  - by left.
  - lookups.
Qed.

Lemma out_of h L a xs b ys : lists_ok h L -> L !! a = Some xs -> L !! b = Some ys -> a <> b -> a ∉ b :: ys.
Proof. intros H Ea Eb Hab. apply (lo_apart _ _ H a b xs ys Hab Ea Eb). apply elem_of_cons. by left. Qed.

Lemma step_add h L new head xs : lists_ok h L -> L !! new = Some [] -> L !! head = Some xs -> new <> head ->
  (exists h', list_add h new head = Ret h' /\ lists_ok h' (<[head := new :: xs]> (delete new L)))
  /\ (exists h', list_add_tail h new head = Ret h' /\ lists_ok h' (<[head := xs ++ [new]]> (delete new L))).
Proof.
  intros H E1 E2 Hne. pose proof (lo_dll _ _ H _ _ E2) as Hd.
  assert (has h new) as Hh by (eapply dll_has; [exact (lo_dll _ _ H _ _ E1)|apply elem_of_cons; by left]).
  pose proof (out_of h L new [] head xs H E1 E2 Hne) as Hout. split.
  - destruct (list_add_spec h head xs new Hd Hh Hout) as (h' & N & P & E & Hd' & Hag & HNP). exists h'.
    split; [done|]. by eapply (add_ok h L new head xs h' N P).
  - destruct (list_add_tail_spec h head xs new Hd Hh Hout) as (h' & N & P & E & Hd' & Hag & HNP). exists h'.
    split; [done|]. eapply (add_ok h L new head xs h' N P); try done. intros x Hx. norm_in. tauto.
Qed.

(** Taking [e] out and initialising it. *)
Lemma step_del h L head l1 e l2 : lists_ok h L -> L !! head = Some (l1 ++ e :: l2) ->
  exists h', list_del_init h e = Ret h' /\ lists_ok h' (<[e := []]> (<[head := l1 ++ l2]> L)).
Proof.
  intros H E. pose proof (lo_dll _ _ H _ _ E) as Hd.
  destruct (del_entry_spec h head l1 e l2 Hd) as (h1 & p & q & E1 & Hd1 & Hag1 & Hp & Hq & Hh & _).
  destruct (init_spec h1 e Hh) as (h2 & E2 & Hl & Hag2). exists h2.
  unfold list_del_init. rewrite E1. cbn [obind]. split; [exact E2|].
  destruct (nodup_entry _ _ _ _ (proj1 Hd)) as [_ He].
  eapply (lists_two h h2 L _ ([p] ++ [e]) ([q] ++ [e]) head (l1 ++ e :: l2) head (l1 ++ e :: l2) e [] head (l1 ++ l2)); try done.
  - exact (agree_trans _ _ _ _ _ _ _ Hag1 Hag2).
  - intros x Hx. left. norm_in. naive_solver.
  - by apply dll_empty.
  - eapply dll_frame; [exact Hag2|exact Hd1|..]; intros x Hx Hin; apply elem1 in Hin as ->; done.
  - intros x Hx. left. norm_in. tauto.
  - right. intros x Hx Hin. apply elem1 in Hx as ->. done.
  - lookups.
Qed.

(** After [__list_del_entry] the entry is free, whatever its fields say. *)
Lemma step_unlink h L head l1 e l2 : lists_ok h L -> L !! head = Some (l1 ++ e :: l2) ->
  exists h', __list_del_entry h e = Ret h' /\ lists_ok h' (<[head := l1 ++ l2]> L) /\ has h' e
    /\ (forall a xs, <[head := l1 ++ l2]> L !! a = Some xs -> e ∉ a :: xs).
Proof.
  intros H E. pose proof (lo_dll _ _ H _ _ E) as Hd.
  destruct (del_entry_spec h head l1 e l2 Hd) as (h1 & p & q & E1 & Hd1 & Hag1 & Hp & Hq & Hh & _).
  destruct (nodup_entry _ _ _ _ (proj1 Hd)) as [_ He]. exists h1. split_and!; try done.
  - eapply (lists_two h h1 L _ [p] [q] head (l1 ++ e :: l2) head (l1 ++ e :: l2) head (l1 ++ l2) head (l1 ++ l2)); try done.
    + intros x Hx. left. norm_in. naive_solver.
    + intros x Hx. left. norm_in. tauto.
    + by left.
    + lookups.
  - intros a xs Ea. rewrite lookup_insert in Ea. case_decide; simplify_eq; [done|].
    eapply (lo_apart _ _ H head a); [done|done|done|]. norm_in. tauto.
Qed.

(** Linking a free entry. *)
Lemma link_ok h L e head xs h' N P zs :
  lists_ok h L -> L !! head = Some xs -> (forall a ys, L !! a = Some ys -> e ∉ a :: ys) ->
  dll h' head zs -> agree h h' N P -> (forall x, x ∈ N \/ x ∈ P -> x ∈ e :: head :: xs) ->
  (forall x, x ∈ zs -> x ∈ e :: xs) -> lists_ok h' (<[head := zs]> L).
Proof.
  intros H E Hfree Hd Hag HNP Hz.
  eapply (lists_change h h' L _ N P (fun x => x = e \/ x ∈ head :: xs)); try done.
  - intros x Hx. specialize (HNP x Hx). norm_in. tauto.
  - intros a ys Ea. rewrite lookup_insert in Ea. case_decide; simplify_eq.
    + right. split; [done|]. intros x Hx. specialize (Hz x). norm_in. tauto.
    + left. split; [done|]. intros x Hx [->|Hin]; [by apply (Hfree a ys Ea)|].
      by apply (lo_apart _ _ H a head ys xs ltac:(congruence) Ea E x).
  - intros a b ys ys' Hab Ea Eb Fa Fb x Hx Hy. rewrite !lookup_insert in Ea, Eb.
    assert (forall c cs, head <> c -> L !! c = Some cs -> (forall x, x ∈ c :: cs -> x = e \/ x ∈ head :: xs) -> False) as Hout.
    { intros c cs Hc Ec Fc. destruct (Fc c) as [->|Hin]; [apply elem_of_cons; by left| |].
      - apply (Hfree e cs Ec), elem_of_cons. by left.
      - apply (lo_apart _ _ H head c xs cs Hc E Ec c Hin), elem_of_cons. by left. }
    repeat case_decide; simplify_eq; eauto.
Qed.

Lemma step_move h L from l1 e l2 head xs : lists_ok h L -> L !! from = Some (l1 ++ e :: l2) ->
  <[from := l1 ++ l2]> L !! head = Some xs ->
  (exists h', list_move h e head = Ret h' /\ lists_ok h' (<[head := e :: xs]> (<[from := l1 ++ l2]> L)))
  /\ (exists h', list_move_tail h e head = Ret h' /\ lists_ok h' (<[head := xs ++ [e]]> (<[from := l1 ++ l2]> L))).
Proof.
  intros H E Eh. destruct (step_unlink h L from l1 e l2 H E) as (h1 & E1 & H1 & Hh & Hfree).
  pose proof (lo_dll _ _ H1 _ _ Eh) as Hd. unfold list_move, list_move_tail. rewrite E1. cbn [obind]. split.
  - destruct (list_add_spec h1 head xs e Hd Hh (Hfree _ _ Eh)) as (h' & N & P & E2 & Hd' & Hag & HNP). exists h'.
    split; [done|]. by eapply (link_ok h1 _ e head xs h' N P).
  - destruct (list_add_tail_spec h1 head xs e Hd Hh (Hfree _ _ Eh)) as (h' & N & P & E2 & Hd' & Hag & HNP). exists h'.
    split; [done|]. eapply (link_ok h1 _ e head xs h' N P); try done. intros x Hx. norm_in. tauto.
Qed.

Lemma step_replace h L head l1 old l2 new : lists_ok h L -> L !! head = Some (l1 ++ old :: l2) ->
  L !! new = Some [] -> new <> head ->
  exists h', list_replace_init h old new = Ret h' /\ lists_ok h' (<[old := []]> (<[head := l1 ++ new :: l2]> (delete new L))).
Proof.
  intros H E En Hne. pose proof (lo_dll _ _ H _ _ E) as Hd.
  assert (has h new) as Hh by (eapply dll_has; [exact (lo_dll _ _ H _ _ En)|apply elem_of_cons; by left]).
  pose proof (out_of h L new [] head _ H En E Hne) as Hout.
  destruct (replace_spec h head l1 old l2 new Hd Hh Hout) as (h1 & p & q & E1 & Hd1 & Hag1 & Hp & Hq & Ho).
  destruct (init_spec h1 old Ho) as (h2 & E2 & Hl & Hag2). exists h2.
  unfold list_replace_init. rewrite E1. cbn [obind]. split; [exact E2|].
  destruct (nodup_entry _ _ _ _ (proj1 Hd)) as [_ Hold].
  assert (old <> new) as Hon by (intros ->; norm_in; tauto).
  eapply (lists_two h h2 L _ ([p; new] ++ [old]) ([new; q] ++ [old]) head (l1 ++ old :: l2) new [] old [] head (l1 ++ new :: l2)); try done.
  - exact (agree_trans _ _ _ _ _ _ _ Hag1 Hag2).
  - intros x Hx. clear -Hx Hp Hq. norm_in. naive_solver.
  - by apply dll_empty.
  - eapply dll_frame; [exact Hag2|exact Hd1|..]; intros x Hx Hin; apply elem1 in Hin as ->; clear -Hx Hold Hon; norm_in; tauto.
  - intros x Hx. clear -Hx. norm_in. tauto.
  - right. intros x Hx Hin. apply elem1 in Hx as ->. clear -Hin Hold Hon. norm_in. tauto.
  - lookups.
Qed.

Lemma step_rotate h L head x xs : lists_ok h L -> L !! head = Some (x :: xs) ->
  exists h', list_rotate_left h head = Ret h' /\ lists_ok h' (<[head := xs ++ [x]]> L).
Proof.
  intros H E. pose proof (lo_dll _ _ H _ _ E) as Hd. unfold list_rotate_left.
  rewrite (list_empty_spec h head (x :: xs) Hd). cbn [obind negb]. cbv iota.
  rewrite (get_next_nx _ _ _ (dll_next _ _ _ Hd)). cbn [obind hd].
  destruct (step_move h L head [] x xs head xs H E) as [_ (h' & Em & Ho)]; [by rewrite lookup_insert_eq|].
  exists h'. split; [done|]. by rewrite insert_insert_eq in Ho.
Qed.

Lemma list_is_singular_spec h head xs : dll h head xs ->
  list_is_singular h head = Ret (match xs with [_] => true | _ => false end).
Proof.
  intros H. unfold list_is_singular. rewrite (list_empty_spec h head xs H). cbn [obind].
  destruct xs as [|x xs]; [done|]. cbn [negb]. rewrite (get_next_nx _ _ _ (dll_next _ _ _ H)). cbn [obind hd].
  destruct (exists_last (l := x :: xs)) as (i & z & El); [done|].
  assert (pv h head = Some z) as Ep.
  { destruct H as [_ H]. rewrite El, <- app_assoc in H. apply (chain_at h (head :: i) z head []) in H. apply H. }
  rewrite (get_prev_pv _ _ _ Ep). cbn [obind]. f_equal. destruct i as [|y i]; simpl in El; injection El as -> ->.
  - apply Z.eqb_refl.
  - destruct H as [H _]. rewrite !NoDup_cons in H. destruct H as (_ & H & _).
    destruct (i ++ [z]) eqn:Ei; [by destruct i|]. rewrite <- Ei in H. apply Z.eqb_neq. intros ->.
    apply H, elem_of_app. right. by apply list_elem_of_singleton.
Qed.

Lemma step_cut h L list head l1 e l2 : lists_ok h L -> L !! list = Some [] -> L !! head = Some (l1 ++ e :: l2) ->
  list <> head ->
  exists h', list_cut_position h list head e = Ret h' /\ lists_ok h' (<[list := l1 ++ [e]]> (<[head := l2]> L)).
Proof.
  intros H El Eh Hne. pose proof (lo_dll _ _ H _ _ Eh) as Hd. pose proof (lo_dll _ _ H _ _ El) as Hl.
  pose proof (out_of h L list [] head _ H El Eh Hne) as Hout.
  destruct (cut_spec h list head l1 e l2 Hd Hl Hout) as (h' & N & P & E & D1 & D2 & Hag & HNP). exists h'.
  destruct (nodup_entry _ _ _ _ (proj1 Hd)) as [_ He]. split.
  - unfold list_cut_position. rewrite (list_empty_spec h head _ Hd), (list_is_singular_spec h head _ Hd).
    rewrite (get_next_nx _ _ _ (dll_next _ _ _ Hd)). cbn [obind].
    assert ((e =? head) = false) as -> by (apply Z.eqb_neq; intros ->; apply He, elem_of_cons; by left).
    destruct l1 as [|y l1]; simpl.
    + rewrite Z.eqb_refl, andb_false_r. done.
    + destruct (l1 ++ e :: l2) eqn:Ex; [by destruct l1|]. done.
  - eapply (lists_two h h' L _ N P list [] head (l1 ++ e :: l2) list (l1 ++ [e]) head l2); try done.
    + intros x Hx. specialize (HNP x Hx). clear -HNP. norm_in. tauto.
    + intros x Hx. clear -Hx. norm_in. tauto.
    + right. intros x Hx Hin. destruct Hd as [Hn _]. rewrite NoDup_cons, NoDup_app, NoDup_cons in Hn.
      destruct Hn as (H1 & H2 & H3 & H4 & H5). specialize (H3 x). clear -Hx Hin Hout H1 H3 H4. norm_in. naive_solver.
    + lookups.
Qed.

(** [INIT_LIST_HEAD] of a list that is empty already. *)
Lemma step_init h L list : lists_ok h L -> L !! list = Some [] ->
  exists h', INIT_LIST_HEAD h list = Ret h' /\ lists_ok h' L.
Proof.
  intros H E. pose proof (lo_dll _ _ H _ _ E) as Hd.
  destruct (init_spec h list) as (h' & Ei & Hl & Hag); [eapply dll_has; [exact Hd|apply elem_of_cons; by left]|].
  exists h'. split; [done|].
  eapply (lists_two h h' L _ [list] [list] list [] list [] list [] list []); try done; try (by apply dll_empty).
  - by left.
  - lookups.
Qed.

Lemma splice_ok h L list head ys xs l1 l2 l p q m :
  lists_ok h L -> L !! list = Some ys -> L !! head = Some xs -> list <> head -> ys <> [] ->
  xs = l1 ++ l2 -> at_place head l1 l2 l p q m ->
  exists h', (let* h1 := __list_splice h list p q in INIT_LIST_HEAD h1 list) = Ret h'
    /\ lists_ok h' (<[list := []]> (<[head := l1 ++ ys ++ l2]> L)).
Proof.
  intros H El Eh Hne Hy -> Ha. pose proof (lo_dll _ _ H _ _ Eh) as Hd. pose proof (lo_dll _ _ H _ _ El) as Hl.
  destruct (splice_place h head l1 l2 l p q m list ys Hd Ha Hl Hy) as (h1 & f & z & E1 & D1 & Hag1 & Hf & Hz).
  { by apply (lo_apart _ _ H list head ys (l1 ++ l2)). }
  rewrite E1. cbn [obind]. pose proof (ap_p _ _ _ _ _ _ _ Ha) as Hp. pose proof (ap_q _ _ _ _ _ _ _ Ha) as Hq.
  pose proof (lo_apart _ _ H list head ys (l1 ++ l2) Hne El Eh) as Hap.
  pose proof (Hap list ltac:(apply elem_of_cons; by left)) as Hap1.
  assert (list ∉ ys) as Hly by (destruct Hl as [Hn _]; by apply NoDup_cons in Hn as [? _]).
  assert (has h1 list) as Hh.
  { unfold has. rewrite (proj1 Hag1); [apply (dll_has h list ys list Hl), elem_of_cons; by left|].
    intros Hx. apply elem2 in Hx as [->| ->]; [|done]. clear -Hp Hap1. norm_in. tauto. }
  destruct (init_spec h1 list Hh) as (h2 & E2 & Hlk & Hag2). exists h2. split; [exact E2|].
  eapply (lists_two h h2 L _ ([p; z] ++ [list]) ([f; q] ++ [list]) list ys head (l1 ++ l2) list [] head (l1 ++ ys ++ l2)); try done.
  - exact (agree_trans _ _ _ _ _ _ _ Hag1 Hag2).
  - intros x Hx. clear -Hx Hp Hq Hf Hz. norm_in. naive_solver.
  - by apply dll_empty.
  - eapply dll_frame; [exact Hag2|exact D1|..]; intros x Hx Hin; apply elem1 in Hin as ->; clear -Hx Hap1 Hly; norm_in; tauto.
  - intros x Hx. clear -Hx. norm_in. tauto.
  - right. intros x Hx Hin. apply elem1 in Hx as ->. clear -Hin Hap1 Hly. norm_in. tauto.
  - lookups.
Qed.

Lemma step_splice h L list head ys xs : lists_ok h L -> L !! list = Some ys -> L !! head = Some xs -> list <> head ->
  (exists h', list_splice_init h list head = Ret h' /\ lists_ok h' (<[list := []]> (<[head := ys ++ xs]> L)))
  /\ (exists h', list_splice_tail_init h list head = Ret h' /\ lists_ok h' (<[list := []]> (<[head := xs ++ ys]> L))).
Proof.
  intros H El Eh Hne. pose proof (lo_dll _ _ H _ _ Eh) as Hd. unfold list_splice_init, list_splice_tail_init.
  rewrite (list_empty_spec h list ys (lo_dll _ _ H _ _ El)). cbn [obind].
  destruct ys as [|y ys]; cbn [negb].
  - rewrite app_nil_r. simpl app. rewrite (insert_id L head xs Eh), (insert_id L list [] El). by split; exists h.
  - split.
    + destruct (get_place head [] xs (proj1 Hd)) as (l & p & q & m & Ha).
      assert (p = head) as -> by (pose proof (ap_p _ _ _ _ _ _ _ Ha) as Hp; by apply elem1 in Hp).
      rewrite (get_next_nx _ _ _ (proj1 (dll_prev h head [] xs _ _ _ _ Hd Ha))). cbn [obind].
      by apply (splice_ok h L list head (y :: ys) xs [] xs l head q m).
    + rewrite <- (app_nil_r xs) in Hd. destruct (get_place head xs [] (proj1 Hd)) as (l & p & q & m & Ha).
      assert (q = head) as -> by (pose proof (ap_q _ _ _ _ _ _ _ Ha) as Hp; by apply elem1 in Hp).
      rewrite (get_prev_pv _ _ _ (proj2 (dll_prev h head xs [] _ _ _ _ Hd Ha))). cbn [obind].
      destruct (splice_ok h L list head (y :: ys) xs xs [] l p head m) as (h' & E & Ho); try done; [by rewrite app_nil_r|].
      exists h'. rewrite app_nil_r in Ho. done.
Qed.

(** ** Sequences of operations *)

Lemma list_do_spec h L o L' : lists_ok h L -> list_spec L o L' -> exists h', list_do h o = Ret h' /\ lists_ok h' L'.
Proof.
  intros H Hs. destruct Hs as [L new head xs E1 E2 Hn|L new head xs E1 E2 Hn|L head l1 e l2 E|L from l1 e l2 head xs E1 E2
    |L from l1 e l2 head xs E1 E2|L head l1 old l2 new E1 E2 Hn|L head x xs E|L head E|L list head l1 e l2 E1 E2 Hn
    |L list head e E1 E2|L list head xs E1 E2|L list head ys xs E1 E2 Hn|L list head ys xs E1 E2 Hn]; simpl.
  - by apply (step_add h L new head xs).
  - by apply (step_add h L new head xs).
  - by apply step_del.
  - by apply (step_move h L from l1 e l2 head xs).
  - by apply (step_move h L from l1 e l2 head xs).
  - by apply step_replace.
  - by apply step_rotate.
  - exists h. unfold list_rotate_left. rewrite (list_empty_spec h head []) by (by apply (lo_dll _ _ H)). done.
  - by apply step_cut.
  - exists h. unfold list_cut_position. rewrite (list_empty_spec h head []) by (by apply (lo_dll _ _ H)). done.
  - pose proof (lo_dll _ _ H _ _ E2) as Hd. unfold list_cut_position. rewrite (list_empty_spec h head xs Hd). cbn [obind].
    destruct xs as [|x xs]; [by exists h|]. rewrite (list_is_singular_spec h head _ Hd). cbn [obind].
    rewrite (get_next_nx _ _ _ (dll_next _ _ _ Hd)). cbn [obind]. rewrite Z.eqb_refl, !andb_false_r.
    by apply step_init.
  - by apply (step_splice h L list head ys xs).
  - by apply (step_splice h L list head ys xs).
Qed.

Lemma list_dos_spec h L os L' : lists_ok h L -> list_specs L os L' ->
  exists h', list_dos h os = Ret h' /\ lists_ok h' L'.
Proof.
  intros H Hs. revert h H. induction Hs as [L|L o L1 os L2 Ho Hs IH]; intros h H; [by exists h|].
  destruct (list_do_spec h L o L1 H Ho) as (h1 & E & H1). simpl. rewrite E. cbn [obind]. by apply IH.
Qed.

(** C30: the functions of list.h refine operations on sequences: on a store of
    any number of disjoint circular lists, every sequence of calls whose
    arguments meet the documented conditions runs without an invalid access,
    changes the lists it names as the sequence operation says, leaves all other
    lists as they are, and list_for_each then visits exactly the entries of
    each list in order. *)
Theorem list_ops_refine h L os L' :
  lists_ok h L -> list_specs L os L' ->
  exists h', list_dos h os = Ret h' /\ lists_ok h' L'
    /\ (forall head xs, L' !! head = Some xs -> list_for_each (S (length xs)) h' head = Ret xs).
Proof.
  intros H Hs. destruct (list_dos_spec h L os L' H Hs) as (h' & E & Ho). exists h'. split_and!; try done.
  intros head xs Eh. apply list_for_each_spec; [by apply (lo_dll _ _ Ho)|lia].
Qed.

(** Three entries and two heads, all unlinked. *)
Definition heads5 : list Z := [100; 200; 1; 2; 3].
Definition heap5 : heap := list_to_map (map (fun a => (a, (a, a))) heads5).
Definition lists5 : lists := list_to_map (map (fun a => (a, [])) heads5).

Lemma lists5_elem a xs : lists5 !! a = Some xs -> xs = [] /\ a ∈ heads5.
Proof.
  unfold lists5. intros H. apply elem_of_list_to_map_2 in H. apply list_elem_of_fmap in H as (b & [= -> ->] & Hb). done.
Qed.

Lemma heap5_ok : lists_ok heap5 lists5.
Proof.
  split.
  - intros a xs H. apply lists5_elem in H as [-> Ha]. apply dll_empty.
    unfold heads5 in Ha. rewrite !elem_of_cons, elem_of_nil in Ha.
    destruct Ha as [->|[->|[->|[->|[->|[]]]]]]; split; reflexivity.
  - intros a b xs ys Hab Ea Eb x Hx Hy. apply lists5_elem in Ea as [-> _]. apply lists5_elem in Eb as [-> _].
    apply elem1 in Hx. apply elem1 in Hy. congruence.
Qed.

Definition ops5 : list list_op :=
  [OAddTail 1 100; OAddTail 2 100; OAdd 3 100; ORotateLeft 100; OMove 2 200; OSpliceTailInit 100 200; ODelInit 1].

Lemma list_ops_refine_witness :
  exists h' L', list_dos heap5 ops5 = Ret h' /\ lists_ok h' L' /\ L' !! 200 = Some [2; 3]
    /\ list_for_each 3 h' 200 = Ret [2; 3].
Proof.
  assert (exists L', list_specs lists5 ops5 L' /\ L' !! 200 = Some [2; 3]) as (L' & Hs & E).
  { eexists. split.
    - eapply ss_cons; [apply (s_add_tail _ 1 100 []); reflexivity || done|].
      eapply ss_cons; [apply (s_add_tail _ 2 100 [1]); reflexivity || done|].
      eapply ss_cons; [apply (s_add _ 3 100 [1; 2]); reflexivity || done|].
      eapply ss_cons; [apply (s_rotate _ 100 3 [1; 2]); reflexivity|].
      eapply ss_cons; [apply (s_move _ 100 [1] 2 [3] 200 []); reflexivity|].
      eapply ss_cons; [apply (s_splice_tail _ 100 200 [1; 3] [2]); reflexivity || done|].
      eapply ss_cons; [apply (s_del_init _ 200 [2] 1 [3]); reflexivity|]. apply ss_nil.
    - reflexivity. }
  destruct (list_ops_refine heap5 lists5 ops5 L' heap5_ok Hs) as (h' & E1 & Ho & Hf).
  exists h', L'. split; [exact E1|]. split; [exact Ho|]. split; [exact E|]. exact (Hf 200 [2; 3] E).
Defined.
