(* ===== verification/StableSort.v ===== *)
(** * Stable sorting of sequences

    The reference for the sorting routines: merging two sequences with
    preference for the first, and insertion sort as repeated merging of one
    element.  Merging is associative, so any tree of merges that keeps the order
    of the pieces gives the same result. *)
From Stdlib Require Import ZArith Lia Bool Sorting.Sorted.
From stdpp Require Import base numbers list.
From S2P Require Import Prelude.

(** What a comparison function has to be for sorting to make sense. *)
Class TotalPreorder {A} (cmp : A -> A -> Z) : Prop := {
  cmp_total a b : cmp a b <= 0 \/ cmp b a <= 0;
  cmp_trans a b c : cmp a b <= 0 -> cmp b c <= 0 -> cmp a c <= 0
}.

Section Stable.
Context {A : Type} (cmp : A -> A -> Z).

Fixpoint lmerge (xs : list A) : list A -> list A :=
  fix go ys :=
    match xs, ys with
    | [], _ => ys
    | _, [] => xs
    | x :: xs', y :: ys' => if cmp x y <=? 0 then x :: lmerge xs' ys else y :: go ys'
    end.

Definition isort (xs : list A) : list A := foldr (fun x ys => lmerge [x] ys) [] xs.

(** Entries the comparison does not tell from [k]. *)
Definition same_key (k x : A) : bool := (cmp k x <=? 0) && (cmp x k <=? 0).

Lemma lmerge_nil_r xs : lmerge xs [] = xs.
Proof. by destruct xs. Qed.

Lemma lmerge_nil_l ys : lmerge [] ys = ys.
Proof. by destruct ys. Qed.

Lemma lmerge_cons x xs y ys : lmerge (x :: xs) (y :: ys) =
  if cmp x y <=? 0 then x :: lmerge xs (y :: ys) else y :: lmerge (x :: xs) ys.
Proof. done. Qed.

Lemma lmerge_perm xs ys : lmerge xs ys ≡ₚ xs ++ ys.
Proof.
  revert ys. induction xs as [|x xs IHx]; intros ys; [by rewrite lmerge_nil_l|].
  induction ys as [|y ys IHy]; [by rewrite lmerge_nil_r, app_nil_r|].
  rewrite lmerge_cons. destruct (_ <=? _); [by rewrite IHx|]. rewrite IHy. solve_Permutation.
Qed.

Lemma lmerge_elem xs ys x : x ∈ lmerge xs ys <-> x ∈ xs \/ x ∈ ys.
Proof. by rewrite lmerge_perm, elem_of_app. Qed.

Lemma isort_cons x xs : isort (x :: xs) = lmerge [x] (isort xs).
Proof. done. Qed.

Lemma isort_perm xs : isort xs ≡ₚ xs.
Proof. induction xs as [|x xs IH]; [done|]. rewrite isort_cons. rewrite lmerge_perm. simpl. by rewrite IH. Qed.

Lemma isort_nil xs : isort xs = [] -> xs = [].
Proof. intros E. pose proof (isort_perm xs) as P. rewrite E in P. by apply Permutation_nil in P. Qed.

Context `{!TotalPreorder cmp}.

Lemma cmp_refl a : cmp a a <= 0.
Proof. destruct (cmp_total a a); done. Qed.

Lemma lmerge_assoc xs ys zs : lmerge xs (lmerge ys zs) = lmerge (lmerge xs ys) zs.
Proof.
  revert ys zs. induction xs as [|x xs IHx]; intros ys zs; [by rewrite !lmerge_nil_l|].
  revert zs. induction ys as [|y ys IHy]; intros zs; [by rewrite lmerge_nil_l, lmerge_nil_r|].
  induction zs as [|z zs IHz]; [by rewrite !lmerge_nil_r|].
  rewrite (lmerge_cons y ys z zs), (lmerge_cons x xs y ys).
  destruct (Z.leb_spec (cmp y z) 0) as [Hyz|Hyz], (Z.leb_spec (cmp x y) 0) as [Hxy|Hxy].
  - rewrite !lmerge_cons. rewrite !(proj2 (Z.leb_le _ _)) by (done || by eapply cmp_trans).
    f_equal. rewrite <- IHx, lmerge_cons. by rewrite (proj2 (Z.leb_le _ _) Hyz).
  - rewrite !lmerge_cons. rewrite (proj2 (Z.leb_gt _ _) Hxy), (proj2 (Z.leb_le _ _) Hyz).
    f_equal. apply IHy.
  - rewrite !lmerge_cons. destruct (Z.leb_spec (cmp x z) 0) as [Hxz|Hxz].
    + f_equal. rewrite <- IHx, lmerge_cons. by rewrite (proj2 (Z.leb_gt _ _) Hyz).
    + f_equal. rewrite IHz, lmerge_cons. by rewrite (proj2 (Z.leb_le _ _) Hxy).
  - assert (0 < cmp x z).
    { destruct (Z_le_gt_dec (cmp x z) 0) as [Hxz|]; [|lia]. destruct (cmp_total y x) as [?|?]; [|lia].
      pose proof (cmp_trans y x z). lia. }
    rewrite !lmerge_cons. rewrite (proj2 (Z.leb_gt (cmp x z) 0)), (proj2 (Z.leb_gt _ _) Hyz) by done.
    f_equal. rewrite IHz, lmerge_cons. by rewrite (proj2 (Z.leb_gt _ _) Hxy).
Qed.

(** Sorting two pieces and merging them is sorting the whole. *)
Lemma isort_app xs ys : isort (xs ++ ys) = lmerge (isort xs) (isort ys).
Proof.
  induction xs as [|x xs IH]; [by rewrite lmerge_nil_l|].
  simpl app. by rewrite !isort_cons, IH, lmerge_assoc.
Qed.

Lemma lmerge_sorted xs ys : StronglySorted (fun a b => cmp a b <= 0) xs ->
  StronglySorted (fun a b => cmp a b <= 0) ys -> StronglySorted (fun a b => cmp a b <= 0) (lmerge xs ys).
Proof.
  revert ys. induction xs as [|x xs IHx]; intros ys Hx Hy; [by rewrite lmerge_nil_l|].
  induction ys as [|y ys IHy]; [by rewrite lmerge_nil_r|].
  apply StronglySorted_inv in Hx as Hx'. destruct Hx' as [Hx1 Hx2].
  apply StronglySorted_inv in Hy as Hy'. destruct Hy' as [Hy1 Hy2].
  rewrite Forall_forall in Hx2, Hy2. rewrite lmerge_cons. destruct (Z.leb_spec (cmp x y) 0) as [H|H].
  - constructor; [by apply IHx|]. apply Forall_forall. intros z Hz.
    apply lmerge_elem in Hz as [Hz|Hz]; [by apply Hx2|].
    apply elem_of_cons in Hz as [->|Hz]; [done|]. eapply cmp_trans; [done|]. by apply Hy2.
  - assert (cmp y x <= 0) by (destruct (cmp_total y x); lia).
    constructor; [by apply IHy|]. apply Forall_forall. intros z Hz.
    apply lmerge_elem in Hz as [Hz|Hz]; [|by apply Hy2].
    apply elem_of_cons in Hz as [->|Hz]; [done|]. eapply cmp_trans; [done|]. by apply Hx2.
Qed.

Lemma isort_sorted xs : StronglySorted (fun a b => cmp a b <= 0) (isort xs).
Proof.
  induction xs as [|x xs IH]; [constructor|]. rewrite isort_cons. apply lmerge_sorted; [|done].
  repeat constructor.
Qed.

(** Inserting at the front of what is not smaller keeps equal entries in order. *)
Lemma insert_stable k x ys : StronglySorted (fun a b => cmp a b <= 0) ys ->
  List.filter (same_key k) (lmerge [x] ys) = List.filter (same_key k) (x :: ys).
Proof.
  induction ys as [|y ys IH]; intros Hs; [done|]. rewrite lmerge_cons.
  destruct (Z.leb_spec (cmp x y) 0) as [H|H]; [by rewrite lmerge_nil_l|].
  apply StronglySorted_inv in Hs as [Hs _]. cbn [List.filter]. rewrite IH by done. cbn [List.filter].
  destruct (same_key k y) eqn:Ey, (same_key k x) eqn:Ex; try done. exfalso.
  unfold same_key in *. apply andb_true_iff in Ex as [Ex1 Ex2], Ey as [Ey1 Ey2].
  apply Z.leb_le in Ex1, Ex2, Ey1, Ey2. pose proof (cmp_trans x k y). lia.
Qed.

Lemma isort_stable k xs : List.filter (same_key k) (isort xs) = List.filter (same_key k) xs.
Proof.
  induction xs as [|x xs IH]; [done|]. rewrite isort_cons, insert_stable by apply isort_sorted.
  cbn [List.filter]. by rewrite IH.
Qed.
End Stable.

#[global] Arguments lmerge {A} cmp xs ys : simpl never.
#[global] Arguments isort {A} cmp xs : simpl never.
