(* ===== verification/ListSort.v ===== *)
(** * Sorting linked lists (lib/list_sort.c)

    A bottom-up merge sort of the lists of [KList].  While it runs the entries
    are on lists that end with NULL and whose [prev] pointers are stale.  The
    comparison is the caller's; the number of entries of the store bounds the
    length of every list, and with it the loops. *)
From Stdlib Require Import ZArith Lia Bool.
From stdpp Require Import base numbers list gmap.
From S2P Require Import Prelude KList.

Definition NULL : Z := 0.
Definition MAX_LIST_LENGTH_BITS : nat := 20.

Section Sort.
Context (cmp : Z -> Z -> Z).

(** The local [head] of [merge] is not in the store: [None] as [tail] is its
    address and [hn] its [next]. *)
Definition put_next (h : heap) (hn : Z) (tail : option Z) (v : Z) : outcome (heap * Z) :=
  match tail with
  | None => Ret (h, v)
  | Some t => let* h := set_next h t v in Ret (h, hn)
  end.

Definition tail_next (h : heap) (hn : Z) (tail : option Z) : outcome Z :=
  match tail with None => Ret hn | Some t => get_next h t end.

Fixpoint merge_while (fuel : nat) (h : heap) (hn : Z) (tail : option Z) (a b : Z)
    : outcome (heap * Z * option Z * Z * Z) :=
  match fuel with
  | O => Fuel
  | S fuel' =>
      if negb (a =? NULL) && negb (b =? NULL) then
        if cmp a b <=? 0 then
          let* (h, hn) := put_next h hn tail a in
          let* a := get_next h a in
          let* t := tail_next h hn tail in
          merge_while fuel' h hn (Some t) a b
        else
          let* (h, hn) := put_next h hn tail b in
          let* b := get_next h b in
          let* t := tail_next h hn tail in
          merge_while fuel' h hn (Some t) a b
      else Ret (h, hn, tail, a, b)
  end.

Definition merge (h : heap) (a b : Z) : outcome (heap * Z) :=
  let* (h, hn, tail, a, b) := merge_while (S (size h)) h NULL None a b in
  put_next h hn tail (if negb (a =? NULL) then a else b).

Fixpoint restore_while (fuel : nat) (h : heap) (tail a b : Z) : outcome (heap * Z * Z * Z) :=
  match fuel with
  | O => Fuel
  | S fuel' =>
      if negb (a =? NULL) && negb (b =? NULL) then
        if cmp a b <=? 0 then
          let* h := set_next h tail a in
          let* h := set_prev h a tail in
          let* a := get_next h a in
          let* tail := get_next h tail in
          restore_while fuel' h tail a b
        else
          let* h := set_next h tail b in
          let* h := set_prev h b tail in
          let* b := get_next h b in
          let* tail := get_next h tail in
          restore_while fuel' h tail a b
      else Ret (h, tail, a, b)
  end.

(** The [do ... while (tail->next)] loop.  The result of the extra calls of the
    comparison is not used. *)
Fixpoint restore_do (fuel : nat) (h : heap) (tail : Z) : outcome (heap * Z) :=
  match fuel with
  | O => Fuel
  | S fuel' =>
      let* n := get_next h tail in
      let* h := set_prev h n tail in
      let* tail := get_next h tail in
      let* n := get_next h tail in
      if negb (n =? NULL) then restore_do fuel' h tail else Ret (h, tail)
  end.

Definition merge_and_restore_back_links (h : heap) (head a b : Z) : outcome heap :=
  let* (h, tail, a, b) := restore_while (S (size h)) h head a b in
  let* h := set_next h tail (if negb (a =? NULL) then a else b) in
  let* (h, tail) := restore_do (S (size h)) h tail in
  let* h := set_next h tail head in
  set_prev h head tail.

(** [for (lev = 0; part[lev]; lev++)] *)
Fixpoint merge_levels (fuel : nat) (h : heap) (part : list Z) (lev : nat) (cur : Z)
    : outcome (heap * list Z * nat * Z) :=
  match fuel with
  | O => Fuel
  | S fuel' =>
      let* p := arr_get part lev in
      if negb (p =? NULL) then
        let* (h, cur) := merge h p cur in
        let* part := arr_set part lev NULL in
        merge_levels fuel' h part (lev + 1) cur
      else Ret (h, part, lev, cur)
  end.

(** [while (list)] *)
Fixpoint take_entries (fuel : nat) (h : heap) (part : list Z) (max_lev : nat) (lst : Z)
    : outcome (heap * list Z * nat) :=
  match fuel with
  | O => Fuel
  | S fuel' =>
      if negb (lst =? NULL) then
        let cur := lst in
        let* lst := get_next h lst in
        let* h := set_next h cur NULL in
        let* (h, part, lev, cur) := merge_levels (S (length part)) h part 0 cur in
        let '(lev, max_lev) :=
          if (max_lev <? lev)%nat then
            let lev := if (length part - 1 <=? lev)%nat then (lev - 1)%nat else lev in
            (lev, lev)
          else (lev, max_lev) in
        let* part := arr_set part lev cur in
        take_entries fuel' h part max_lev lst
      else Ret (h, part, max_lev)
  end.

(** [for (lev = 0; lev < max_lev; lev++)], [n] levels to go *)
Fixpoint merge_parts (n : nat) (h : heap) (part : list Z) (lev : nat) (lst : Z) : outcome (heap * Z) :=
  match n with
  | O => Ret (h, lst)
  | S n' =>
      let* p := arr_get part lev in
      if negb (p =? NULL) then
        let* (h, lst) := merge h p lst in
        merge_parts n' h part (lev + 1) lst
      else merge_parts n' h part (lev + 1) lst
  end.

Definition list_sort (h : heap) (head : Z) : outcome heap :=
  let* e := list_empty h head in
  if e then Ret h
  else
    let part := replicate (MAX_LIST_LENGTH_BITS + 1) NULL in
    let* last := get_prev h head in
    let* h := set_next h last NULL in
    let* lst := get_next h head in
    let* (h, part, max_lev) := take_entries (S (size h)) h part 0 lst in
    let* (h, lst) := merge_parts max_lev h part 0 NULL in
    let* p := arr_get part max_lev in
    merge_and_restore_back_links h head p lst.
End Sort.
