(* ===== verification/ListSortSpec.v ===== *)
(** * list_sort is stable insertion sort

    The lists that end with NULL as sequences; what [merge] and
    [merge_and_restore_back_links] do to them; the partial lists of [list_sort]
    are sorted pieces of what was taken off the list, oldest at the highest
    level. *)
From Stdlib Require Import ZArith Lia Bool Sorting.Sorted.
From stdpp Require Import base numbers list gmap.
From S2P Require Import Prelude KList KListSpec StableSort ListSort.

(** ** Lists that end with NULL *)

Fixpoint sll (h : heap) (p : Z) (xs : list Z) : Prop :=
  match xs with
  | [] => p = NULL
  | x :: xs' => p = x /\ x <> NULL /\ exists n, nx h x = Some n /\ sll h n xs'
  end.

Lemma sll_frame h h' N P p xs : agree h h' N P -> (forall x, x ∈ xs -> x ∉ N) -> sll h p xs -> sll h' p xs.
Proof.
  intros [Ha _]. revert p. induction xs as [|x xs IH]; intros p HN; [done|].
  intros (-> & H0 & n & Hn & Hs). split_and!; try done. exists n.
  rewrite Ha by (apply HN; left). split; [done|]. apply IH; [|done]. intros y Hy. apply HN. by right.
Qed.

Lemma sll_has h p xs x : sll h p xs -> x ∈ xs -> has h x.
Proof.
  revert p. induction xs as [|y xs IH]; intros p H Hx; [by apply elem_of_nil in Hx|].
  destruct H as (_ & _ & n & Hn & H). apply elem_of_cons in Hx as [->|Hx]; [by exists n|eauto].
Qed.

Lemma sll_cons h x n xs : x <> NULL -> nx h x = Some n -> sll h n xs -> sll h x (x :: xs).
Proof. intros. split_and!; try done. by exists n. Qed.

Lemma sll_null h p xs : sll h p xs -> (p =? NULL) = true -> xs = [].
Proof. destruct xs; [done|]. intros (-> & H & _) E. apply Z.eqb_eq in E. done. Qed.

Lemma sll_not_null h p xs : sll h p xs -> (p =? NULL) = false ->
  exists xs' n, xs = p :: xs' /\ nx h p = Some n /\ sll h n xs'.
Proof.
  destruct xs as [|x xs]; simpl; [intros ->; by rewrite Z.eqb_refl|].
  intros (-> & _ & n & Hn & H) _. by exists xs, n.
Qed.

(** The store has an entry for each entry of a list. *)
Lemma length_size (h : heap) xs : NoDup xs -> (forall x, x ∈ xs -> has h x) -> (length xs <= size h)%nat.
Proof.
  intros Hd Hh. rewrite <- (size_list_to_set (C := gset Z) xs Hd), <- size_dom.
  apply subseteq_size. intros x Hx. apply elem_of_list_to_set in Hx.
  apply elem_of_dom. apply Hh in Hx as [n Hn]. unfold nx in Hn. by apply fmap_Some in Hn as (c & ? & _).
Qed.

Section Spec.
Context (cmp : Z -> Z -> Z).

(** ** Merging *)

(** The loop of [merge] and the store after it, once [tail] is an entry. *)
Lemma merge_rest fuel h hn t a b xs ys :
  sll h a xs -> sll h b ys -> NoDup (t :: xs ++ ys) -> has h t ->
  (length xs + length ys < fuel)%nat ->
  exists h', (let* (h, hn, tail, a, b) := merge_while cmp fuel h hn (Some t) a b in
              put_next h hn tail (if negb (a =? NULL) then a else b)) = Ret (h', hn)
    /\ agree h h' (t :: xs ++ ys) [] /\ exists n, nx h' t = Some n /\ sll h' n (lmerge cmp xs ys).
Proof.
  revert h t a b xs ys. induction fuel as [|fuel IH]; intros h t a b xs ys Ha Hb Hd Ht Hf; [lia|].
  cbn [merge_while]. destruct (a =? NULL) eqn:Ea; cbn [negb andb].
  { cbn [obind put_next]. rewrite Ea. cbn [negb]. rewrite (sll_null _ _ _ Ha Ea) in *.
    destruct (set_next_ok h t b Ht) as (h' & -> & Ag & Hn & _). exists h'. rewrite lmerge_nil_l.
    split_and!; [done|eapply agree_weaken; [done|set_solver|done]|]. exists b. split; [done|].
    eapply sll_frame; [done| |done]. apply NoDup_cons in Hd. set_solver. }
  destruct (b =? NULL) eqn:Eb; cbn [negb andb].
  { cbn [obind put_next]. rewrite Ea. cbn [negb]. rewrite (sll_null _ _ _ Hb Eb) in *.
    destruct (set_next_ok h t a Ht) as (h' & -> & Ag & Hn & _). exists h'. rewrite lmerge_nil_r.
    split_and!; [done|eapply agree_weaken; [done|set_solver|done]|]. exists a. split; [done|].
    eapply sll_frame; [done| |done]. apply NoDup_cons in Hd. set_solver. }
  destruct (sll_not_null _ _ _ Ha Ea) as (xs' & na & -> & Hna & Ha').
  destruct (sll_not_null _ _ _ Hb Eb) as (ys' & nb & -> & Hnb & Hb').
  rewrite lmerge_cons. destruct (Z.leb_spec (cmp a b) 0) as [Hc|Hc]; cbn [put_next tail_next].
  - destruct (set_next_ok h t a Ht) as (h1 & -> & Ag & Hn & Hh). cbn [obind].
    apply NoDup_cons in Hd as [Hd1 Hd2].
    rewrite (get_next_nx h1 a na) by (rewrite (proj1 Ag); [done|set_solver]). cbn [obind].
    rewrite (get_next_nx h1 t a Hn). cbn [obind].
    destruct (IH h1 a na b xs' (b :: ys')) as (h2 & E2 & Ag2 & n & Hn2 & Hs2); try done.
    + eapply sll_frame; [done| |done]. set_solver.
    + eapply sll_frame; [done| |done]. set_solver.
    + apply Hh. by exists na.
    + simpl in *. lia.
    + exists h2. split; [done|]. split; [eapply agree_then; [done|done|set_solver..]|].
      exists a. split; [rewrite (proj1 Ag2); [done|set_solver]|]. split_and!; try done; [|by exists n].
      by intros ->.
  - destruct (set_next_ok h t b Ht) as (h1 & -> & Ag & Hn & Hh). cbn [obind].
    apply NoDup_cons in Hd as [Hd1 Hd2].
    rewrite (get_next_nx h1 b nb) by (rewrite (proj1 Ag); [done|set_solver]). cbn [obind].
    rewrite (get_next_nx h1 t b Hn). cbn [obind].
    destruct (IH h1 b a nb (a :: xs') ys') as (h2 & E2 & Ag2 & n & Hn2 & Hs2); try done.
    + eapply sll_frame; [done| |done]. set_solver.
    + eapply sll_frame; [done| |done]. set_solver.
    + by rewrite <- Permutation_middle in Hd2.
    + apply Hh. by exists nb.
    + simpl in *. lia.
    + exists h2. split; [done|]. split; [eapply agree_then; [done|done|set_solver..]|].
      exists b. split; [rewrite (proj1 Ag2); [done|set_solver]|]. split_and!; try done; [|by exists n].
      by intros ->.
Qed.

Lemma merge_spec h a b xs ys : sll h a xs -> sll h b ys -> NoDup (xs ++ ys) ->
  exists h' r, merge cmp h a b = Ret (h', r) /\ sll h' r (lmerge cmp xs ys) /\ agree h h' (xs ++ ys) [].
Proof.
  intros Ha Hb Hd.
  assert (length xs + length ys <= size h)%nat as Hf.
  { rewrite <- length_app. apply length_size; [done|]. intros x Hx.
    apply elem_of_app in Hx as [Hx|Hx]; [exact (sll_has _ _ _ _ Ha Hx)|exact (sll_has _ _ _ _ Hb Hx)]. }
  unfold merge. cbn [merge_while]. destruct (a =? NULL) eqn:Ea; cbn [negb andb].
  { cbn [obind put_next]. rewrite Ea. rewrite (sll_null _ _ _ Ha Ea), lmerge_nil_l. by exists h, b. }
  destruct (b =? NULL) eqn:Eb; cbn [negb andb].
  { cbn [obind put_next]. rewrite Ea. rewrite (sll_null _ _ _ Hb Eb), lmerge_nil_r. by exists h, a. }
  destruct (sll_not_null _ _ _ Ha Ea) as (xs' & na & -> & Hna & Ha').
  destruct (sll_not_null _ _ _ Hb Eb) as (ys' & nb & -> & Hnb & Hb').
  apply Z.eqb_neq in Ea, Eb. simpl length in Hf.
  rewrite lmerge_cons. destruct (Z.leb_spec (cmp a b) 0) as [Hc|Hc]; cbn [put_next tail_next obind].
  - rewrite (get_next_nx _ _ _ Hna). cbn [obind].
    destruct (merge_rest (size h) h a a na b xs' (b :: ys')) as (h' & E & Ag & n & Hn & Hs); try done;
      [by exists na|].
    rewrite E. exists h', a. split_and!; try done. by eapply sll_cons.
  - rewrite (get_next_nx _ _ _ Hnb). cbn [obind].
    destruct (merge_rest (size h) h b b a nb (a :: xs') ys') as (h' & E & Ag & n & Hn & Hs); try done;
      [by rewrite <- Permutation_middle in Hd|by exists nb|simpl; lia|].
    rewrite E. exists h', b. split_and!; try done; [by eapply sll_cons|].
    eapply agree_weaken; [done|set_solver|done].
Qed.

(** ** The last merge *)

(** The rest of [merge_and_restore_back_links] when only one list is left. *)
Lemma restore_rest fuel h head t a xs :
  nx h t = Some a -> sll h a (a :: xs) -> NoDup (t :: a :: xs) -> head ∉ a :: xs -> has h head ->
  (length xs < fuel)%nat ->
  exists h', (let* (h, tail) := restore_do fuel h t in
              let* h := set_next h tail head in set_prev h head tail) = Ret h'
    /\ agree h h' (a :: xs) (head :: a :: xs) /\ chain h' (t :: (a :: xs) ++ [head]).
Proof.
  revert h t a xs.
  induction fuel as [|fuel IH]; intros h t a xs Ht Hs Hd Hh Hhas Hf; [lia|].
  destruct Hs as (_ & Ha0 & n & Hn & Hs). cbn [restore_do].
  rewrite (get_next_nx _ _ _ Ht). cbn [obind].
  destruct (set_prev_ok h a t) as (h1 & -> & Ag & Hp & Hh1); [by exists n|]. cbn [obind].
  assert (forall x, nx h1 x = nx h x) as Hnx by (intros x; apply Ag; apply not_elem_of_nil).
  rewrite (get_next_nx h1 t a) by (by rewrite Hnx). cbn [obind].
  rewrite (get_next_nx h1 a n) by (by rewrite Hnx). cbn [obind].
  apply NoDup_cons in Hd as [Hd1 Hd2]. assert (t <> a) as Hta by (intros ->; apply Hd1; left).
  assert (a <> head) as Hah by (intros ->; apply Hh; left).
  destruct (n =? NULL) eqn:En; cbn [negb].
  - rewrite (sll_null _ _ _ Hs En) in *. cbn [obind].
    destruct (set_next_ok h1 a head) as (h2 & -> & Ag2 & Hn2 & Hh2); [apply Hh1; by exists n|]. cbn [obind].
    destruct (set_prev_ok h2 head a) as (h3 & -> & Ag3 & Hp3 & _); [by apply Hh2, Hh1|].
    exists h3. split; [done|]. split.
    + eapply agree_then; [exact Ag|eapply agree_then; [exact Ag2|exact Ag3|reflexivity|apply list_subseteq_nil
        |apply list_subseteq_nil|reflexivity]|..]; set_solver.
    + simpl. split_and!; [split|split|done].
      * rewrite (proj1 Ag3), (proj1 Ag2), Hnx; [done|set_solver..].
      * rewrite (proj2 Ag3), (proj2 Ag2); [done|set_solver..].
      * rewrite (proj1 Ag3); [done|set_solver].
      * done.
  - destruct (sll_not_null _ _ _ Hs En) as (xs' & m & -> & Hm & Hs').
    destruct (IH h1 a n xs') as (h2 & E & Ag2 & Hc); try done.
    + by rewrite Hnx.
    + eapply sll_frame; [exact Ag| |exact Hs]. set_solver.
    + set_solver.
    + by apply Hh1.
    + simpl in Hf. lia.
    + exists h2. split; [done|]. split; [eapply agree_then; [exact Ag|exact Ag2|set_solver..]|].
      simpl in Hc. simpl. split; [|done]. split.
      * rewrite (proj1 Ag2), Hnx; [done|set_solver].
      * rewrite (proj2 Ag2); [done|]. apply NoDup_cons in Hd2 as [Hd2 _]. set_solver.
Qed.

(** Linking the rest of the lists behind [t]. *)
Lemma restore_tail h head t a b xs ys :
  sll h a xs -> sll h b ys -> xs ++ ys <> [] -> xs = [] \/ ys = [] ->
  NoDup (t :: xs ++ ys) -> head ∉ xs ++ ys -> has h t -> has h head ->
  exists h', (let* h := set_next h t (if negb (a =? NULL) then a else b) in
              let* (h, tail) := restore_do (S (size h)) h t in
              let* h := set_next h tail head in set_prev h head tail) = Ret h'
    /\ agree h h' (t :: xs ++ ys) (head :: xs ++ ys) /\ chain h' (t :: lmerge cmp xs ys ++ [head]).
Proof.
  intros Ha Hb Hne Hor Hd Hh Ht Hhead.
  assert (exists p zs, (if negb (a =? NULL) then a else b) = p /\ xs ++ ys = p :: zs
            /\ lmerge cmp xs ys = p :: zs /\ sll h p (p :: zs)) as (p & zs & -> & Exy & El & Hs).
  { destruct Hor as [->| ->].
    - simpl in Ha. subst a. simpl. destruct ys as [|y ys]; [done|].
      destruct Hb as (-> & Hb). exists y, ys. by rewrite lmerge_nil_l.
    - rewrite app_nil_r in *. destruct xs as [|x xs]; [done|]. destruct Ha as (-> & H0 & Ha).
      rewrite (proj2 (Z.eqb_neq _ _) H0). exists x, xs. by rewrite lmerge_nil_r. }
  rewrite Exy in *. rewrite El.
  destruct (set_next_ok h t p Ht) as (h1 & -> & Ag & Hn & Hh1). cbn [obind].
  apply NoDup_cons in Hd as Hd'. destruct Hd' as [Hd1 Hd2].
  assert (sll h1 p (p :: zs)) as Hs1 by (eapply sll_frame; [done| |done]; set_solver).
  pose proof (length_size h1 (p :: zs) Hd2 (fun x => sll_has _ _ _ x Hs1)) as Hl.
  destruct (restore_rest (S (size h1)) h1 head t p zs) as (h2 & E & Ag2 & Hc); try done.
  - by apply Hh1.
  - simpl in Hl. lia.
  - exists h2. split; [done|]. split; [|done]. eapply agree_then; [exact Ag|exact Ag2|set_solver..].
Qed.

Lemma restore_while_spec fuel h head t a b xs ys :
  sll h a xs -> sll h b ys -> xs ++ ys <> [] -> NoDup (t :: xs ++ ys) -> head ∉ xs ++ ys ->
  has h t -> has h head -> (length (xs ++ ys) < fuel)%nat ->
  exists h', (let* (h, tail, a, b) := restore_while cmp fuel h t a b in
              let* h := set_next h tail (if negb (a =? NULL) then a else b) in
              let* (h, tail) := restore_do (S (size h)) h tail in
              let* h := set_next h tail head in set_prev h head tail) = Ret h'
    /\ agree h h' (t :: xs ++ ys) (head :: xs ++ ys) /\ chain h' (t :: lmerge cmp xs ys ++ [head]).
Proof.
  revert h t a b xs ys. induction fuel as [|fuel IH]; intros h t a b xs ys Ha Hb Hne Hd Hh Ht Hhead Hf; [lia|].
  cbn [restore_while]. destruct (a =? NULL) eqn:Ea; cbn [negb andb].
  { cbn [obind]. apply restore_tail; try done. left. by eapply sll_null. }
  destruct (b =? NULL) eqn:Eb; cbn [negb andb].
  { cbn [obind]. apply restore_tail; try done. right. by eapply sll_null. }
  destruct (sll_not_null _ _ _ Ha Ea) as (xs' & na & -> & Hna & Ha').
  destruct (sll_not_null _ _ _ Hb Eb) as (ys' & nb & -> & Hnb & Hb').
  apply NoDup_cons in Hd as [Hd1 Hd2].
  rewrite lmerge_cons. destruct (Z.leb_spec (cmp a b) 0) as [Hc|Hc].
  - destruct (set_next_ok h t a Ht) as (h1 & -> & Ag & Hn & Hh1). cbn [obind].
    destruct (set_prev_ok h1 a t) as (h2 & -> & Ag2 & Hp & Hh2); [apply Hh1; by exists na|]. cbn [obind].
    assert (agree h h2 [t] [a]) as Ag3 by (eapply agree_then; [exact Ag|exact Ag2|set_solver..]).
    rewrite (get_next_nx h2 a na) by (rewrite (proj1 Ag3); [done|set_solver]). cbn [obind].
    assert (nx h2 t = Some a) as Hn2 by (rewrite (proj1 Ag2); [done|set_solver]).
    rewrite (get_next_nx h2 t a Hn2). cbn [obind].
    destruct (IH h2 a na b xs' (b :: ys')) as (h3 & E & Ag4 & Hch); try done.
    + eapply sll_frame; [exact Ag3| |done]. set_solver.
    + eapply sll_frame; [exact Ag3| |done]. set_solver.
    + by destruct xs'.
    + set_solver.
    + apply Hh2, Hh1. by exists na.
    + by apply Hh2, Hh1.
    + simpl in Hf. lia.
    + exists h3. split; [done|]. split; [eapply agree_then; [exact Ag3|exact Ag4|set_solver..]|].
      apply NoDup_cons in Hd2 as [Hd2 _].
      split; [split|exact Hch]; [rewrite (proj1 Ag4)|rewrite (proj2 Ag4)]; done || set_solver.
  - destruct (set_next_ok h t b Ht) as (h1 & -> & Ag & Hn & Hh1). cbn [obind].
    destruct (set_prev_ok h1 b t) as (h2 & -> & Ag2 & Hp & Hh2); [apply Hh1; by exists nb|]. cbn [obind].
    assert (agree h h2 [t] [b]) as Ag3 by (eapply agree_then; [exact Ag|exact Ag2|set_solver..]).
    rewrite (get_next_nx h2 b nb) by (rewrite (proj1 Ag3); [done|set_solver]). cbn [obind].
    assert (nx h2 t = Some b) as Hn2 by (rewrite (proj1 Ag2); [done|set_solver]).
    rewrite (get_next_nx h2 t b Hn2). cbn [obind].
    rewrite <- Permutation_middle in Hd2.
    destruct (IH h2 b a nb (a :: xs') ys') as (h3 & E & Ag4 & Hch); try done.
    + eapply sll_frame; [exact Ag3| |done]. set_solver.
    + eapply sll_frame; [exact Ag3| |done]. set_solver.
    + set_solver.
    + apply Hh2, Hh1. by exists nb.
    + by apply Hh2, Hh1.
    + rewrite length_app in *. simpl in *. lia.
    + exists h3. split; [done|]. split; [eapply agree_then; [exact Ag3|exact Ag4|set_solver..]|].
      apply NoDup_cons in Hd2 as [Hd2 _].
      split; [split|exact Hch]; [rewrite (proj1 Ag4)|rewrite (proj2 Ag4)]; done || set_solver.
Qed.

Lemma merge_and_restore_spec h head a b xs ys :
  sll h a xs -> sll h b ys -> xs ++ ys <> [] -> NoDup (head :: xs ++ ys) -> has h head ->
  exists h', merge_and_restore_back_links cmp h head a b = Ret h'
    /\ dll h' head (lmerge cmp xs ys) /\ agree h h' (head :: xs ++ ys) (head :: xs ++ ys).
Proof.
  intros Ha Hb Hne Hd Hh. apply NoDup_cons in Hd as Hd'. destruct Hd' as [Hd1 Hd2].
  assert (length (xs ++ ys) <= size h)%nat as Hf.
  { apply length_size; [done|]. intros x Hx.
    apply elem_of_app in Hx as [Hx|Hx]; [exact (sll_has _ _ _ _ Ha Hx)|exact (sll_has _ _ _ _ Hb Hx)]. }
  destruct (restore_while_spec (S (size h)) h head head a b xs ys) as (h' & E & Ag & Hc); try done; [lia|].
  exists h'. split; [exact E|]. split; [|done]. split; [|done]. by rewrite lmerge_perm.
Qed.
End Spec.
