(* ===== verification/ListSortLevels.v ===== *)
(** * The levels of list_sort

    The partial lists of [list_sort] are sorted pieces of what was taken off
    the list, the oldest piece at the highest level; merging them in the order
    of the levels gives the whole list in order. *)
From Stdlib Require Import ZArith Lia Bool Sorting.Sorted.
From stdpp Require Import base numbers list gmap.
From S2P Require Import Prelude KList KListSpec StableSort ListSort ListSortSpec.

Section Levels.
Context (cmp : Z -> Z -> Z) `{!TotalPreorder cmp}.

(** [ps] are the partial lists; each holds one of the pieces [segs], sorted. *)
Definition parts (h : heap) (ps : list Z) (segs : list (list Z)) : Prop :=
  Forall2 (fun p s => sll h p (isort cmp s)) ps segs.

Lemma parts_frame h h' N P ps segs : agree h h' N P -> (forall x, x ∈ concat segs -> x ∉ N) ->
  parts h ps segs -> parts h' ps segs.
Proof.
  intros Ag HN Hp. induction Hp as [|p s ps segs Hs Hp IH]; [constructor|]. simpl in HN. constructor.
  - eapply sll_frame; [done| |done]. intros x. rewrite isort_perm. intros Hx. apply HN.
    apply elem_of_app. by left.
  - apply IH. intros x Hx. apply HN. apply elem_of_app. by right.
Qed.

Lemma concat_rev_elem (segs : list (list Z)) x : x ∈ concat (rev segs) <-> x ∈ concat segs.
Proof.
  induction segs as [|s segs IH]; [done|]. simpl.
  rewrite concat_app, !elem_of_app, IH. simpl. rewrite app_nil_r. tauto.
Qed.

(** [for (lev = 0; part[lev]; lev++)]: the pieces up to the first empty level
    are merged into the new one. *)
Lemma merge_levels_spec fuel h lev ps segs cur C :
  parts h ps segs -> [] ∈ segs -> sll h cur (isort cmp C) -> NoDup (concat segs ++ C) ->
  (length segs < fuel)%nat ->
  exists h' cur' A B psB, segs = A ++ [] :: B /\ Forall (fun s => s <> []) A
    /\ merge_levels cmp fuel h (replicate lev NULL ++ ps) lev cur
       = Ret (h', replicate (lev + length A) NULL ++ NULL :: psB, (lev + length A)%nat, cur')
    /\ sll h' cur' (isort cmp (concat (rev A) ++ C)) /\ parts h' psB B
    /\ agree h h' (concat A ++ C) [].
Proof.
  revert h lev ps segs cur C. induction fuel as [|fuel IH]; intros h lev ps segs cur C Hp Hin Hc Hd Hf; [lia|].
  destruct Hp as [|p s ps segs Hs Hp]; [by apply elem_of_nil in Hin|]. cbn [merge_levels].
  rewrite arr_get_at by (by rewrite length_replicate).
  cbn [obind]. destruct (p =? NULL) eqn:Ep; cbn [negb].
  - pose proof (isort_nil _ _ (sll_null _ _ _ Hs Ep)) as ->. apply Z.eqb_eq in Ep as ->.
    exists h, cur, [], segs, ps. simpl. rewrite Nat.add_0_r. split_and!; done.
  - assert (s <> []) as Hne by (intros ->; simpl in Hs; by rewrite Hs in Ep).
    simpl in Hd. rewrite <- app_assoc in Hd.
    assert (NoDup (s ++ C) /\ NoDup (concat segs ++ s ++ C)) as [Hsc Hd'].
    { apply NoDup_app in Hd as Hd2. destruct Hd2 as (N1 & N2 & N3).
      assert (concat segs ++ s ++ C ≡ₚ s ++ concat segs ++ C) as Hperm by solve_Permutation.
      split; [|by rewrite Hperm]. apply NoDup_app. apply NoDup_app in N3 as (N4 & N5 & N6). set_solver. }
    destruct (merge_spec cmp h p cur (isort cmp s) (isort cmp C)) as (h1 & r & -> & Hr & Ag); try done.
    { by rewrite !isort_perm. }
    rewrite <- isort_app in Hr by done.
    cbn [obind]. rewrite arr_set_at by (by rewrite length_replicate). cbn [obind].
    replace (replicate lev NULL ++ NULL :: ps) with (replicate (lev + 1) NULL ++ ps)
      by (by rewrite replicate_add, <- app_assoc).
    destruct (IH h1 (lev + 1)%nat ps segs r (s ++ C)) as (h' & cur' & A & B & psB & -> & HA & E & Hr' & Hp' & Ag');
      try done.
    + eapply parts_frame; [exact Ag| |done]. intros x Hx. rewrite !isort_perm.
      apply NoDup_app in Hd' as (_ & Hdis & _). by apply Hdis.
    + apply elem_of_cons in Hin as [Hin|Hin]; [by symmetry in Hin|done].
    + simpl in Hf. lia.
    + exists h', cur', (s :: A), B, psB. simpl. split_and!; try done; [by constructor| | |].
      * rewrite E. replace (lev + 1 + length A)%nat with (lev + S (length A))%nat by lia. done.
      * rewrite concat_app. simpl. by rewrite app_nil_r, <- app_assoc.
      * eapply agree_then; [exact Ag|exact Ag'| | |done|done];
          intros x; rewrite ?isort_perm, !elem_of_app, ?isort_perm; tauto.
Qed.

(** The pieces after [max_lev = length T]: [T] below, [top] at [max_lev] and
    [k] unused levels above, the last of which stays unused. *)
Definition levels (T : list (list Z)) (top : list Z) (k : nat) : list (list Z) :=
  T ++ top :: replicate k [].

Definition levels_ok (T : list (list Z)) (top : list Z) (k : nat) : Prop :=
  (length T + S k = MAX_LIST_LENGTH_BITS + 1)%nat /\ (1 <= k)%nat /\ (top = [] -> T = []).

(** What was taken so far, in order. *)
Definition taken (T : list (list Z)) (top : list Z) : list Z := top ++ concat (rev T).

Lemma concat_rev_empty n (l : list (list Z)) : concat (rev (replicate n [] ++ l)) = concat (rev l).
Proof.
  rewrite rev_app_distr, concat_app. induction n as [|n IH]; simpl; [by rewrite app_nil_r|].
  rewrite concat_app. simpl. rewrite app_nil_r. apply IH.
Qed.

Lemma levels_elem T top k x : x ∈ concat (levels T top k) <-> x ∈ taken T top.
Proof.
  unfold levels, taken. rewrite concat_app, !elem_of_app, concat_rev_elem. simpl. rewrite elem_of_app.
  assert (concat (replicate k ([] : list Z)) = []) as -> by (induction k; done).
  rewrite elem_of_nil. tauto.
Qed.

Lemma levels_nodup T top k l : NoDup (concat (levels T top k) ++ l) <-> NoDup (taken T top ++ l).
Proof.
  assert (concat (levels T top k) ≡ₚ taken T top) as ->; [|done].
  unfold levels, taken. rewrite concat_app. simpl.
  assert (concat (replicate k ([] : list Z)) = []) as -> by (induction k; done). rewrite app_nil_r.
  assert (concat (rev T) ≡ₚ concat T) as ->; [|apply Permutation_app_comm].
  induction T as [|t T IH]; [done|]. simpl. rewrite concat_app. simpl. rewrite app_nil_r, IH.
  apply Permutation_app_comm.
Qed.

(** Where the first empty level can be. *)
Lemma first_empty T top k A B : levels T top k = A ++ [] :: B -> Forall (fun s => s <> []) A ->
  levels_ok T top k ->
  (exists T2, T = A ++ [] :: T2 /\ B = T2 ++ top :: replicate k [])
  \/ (T = [] /\ top = [] /\ A = [] /\ B = replicate k [])
  \/ (top <> [] /\ A = T ++ [top] /\ B = replicate (k - 1) []).
Proof.
  intros E HA (Hl & Hk & Ht). unfold levels in E. apply app_eq_inv in E as [(l & -> & E)|(l & -> & E)].
  - destruct l as [|s l]; simpl in E; simplify_eq.
    + right. left. rewrite app_nil_r in *. rewrite Ht in * by done. done.
    + left. by exists l.
  - destruct l as [|s l]; simpl in E; simplify_eq.
    + right. left. rewrite app_nil_r. rewrite Ht by done. done.
    + right. right. apply Forall_app in HA as [_ HA]. apply Forall_cons in HA as [Hs HA]. split; [done|].
      destruct l as [|s' l].
      * split; [done|]. simpl in *. destruct k as [|k]; simplify_eq/=. by rewrite Nat.sub_0_r.
      * exfalso. apply Forall_cons in HA as [HA _]. apply HA. destruct k as [|k]; simplify_eq/=.
Qed.

(** One entry: the place [list_sort] chooses for the merged piece. *)
Lemma place_entry T top k A B x : levels T top k = A ++ [] :: B -> Forall (fun s => s <> []) A ->
  levels_ok T top k ->
  let n := length A in
  let C := concat (rev A) ++ [x] in
  exists T' top' k' lev, levels_ok T' top' k' /\ taken T' top' = taken T top ++ [x] /\ top' <> []
    /\ (if (length T <? n)%nat
         then let lev := if (MAX_LIST_LENGTH_BITS + 1 - 1 <=? n)%nat then (n - 1)%nat else n in (lev, lev)
         else (n, length T)) = (lev, length T')
    /\ <[lev := C]> (replicate n [] ++ [] :: B) = levels T' top' k'
    /\ (lev < length (replicate n ([] : list Z) ++ [] :: B))%nat.
Proof.
  intros E HA Hok n C. assert (C <> []) as HC by (unfold C; by destruct (concat (rev A))).
  destruct (first_empty T top k A B E HA Hok) as [(T2 & -> & ->)|[(-> & -> & -> & ->)|(Htop & -> & ->)]];
    destruct Hok as (Hl & Hk & Ht).
  - assert (length (A ++ [] :: T2) = n + S (length T2))%nat as En by (rewrite length_app; done).
    rewrite En in Hl.
    exists (replicate n [] ++ C :: T2), top, k, n. rewrite (proj2 (Nat.ltb_ge _ _)) by lia.
    split_and!.
    + split_and!; [rewrite length_app, length_replicate; cbn [length]; lia|done|].
      intros Htop. by apply Ht, app_eq_nil in Htop as [_ ?].
    + unfold taken. rewrite concat_rev_empty, rev_app_distr. simpl. rewrite !concat_app. simpl.
      unfold C. by rewrite !app_nil_r, <- !app_assoc.
    + intros Htop. by apply Ht, app_eq_nil in Htop as [_ ?].
    + by rewrite En, length_app, length_replicate.
    + rewrite insert_app_r_alt by (by rewrite length_replicate).
      rewrite length_replicate, Nat.sub_diag. simpl. unfold levels. by rewrite <- app_assoc.
    + rewrite length_app, length_replicate. cbn [length]. lia.
  - exists [], C, k, 0%nat. simpl in *. split_and!; try done. lia.
  - assert (n = S (length T)) as En by (unfold n; rewrite length_app; cbn [length]; lia).
    rewrite (proj2 (Nat.ltb_lt _ _)) by lia.
    destruct (Nat.leb_spec (MAX_LIST_LENGTH_BITS + 1 - 1) n) as [Hcap|Hcap].
    + assert (k = 1%nat) as -> by lia.
      exists (replicate (length T) []), C, 1%nat, (length T). simpl Nat.sub. split_and!.
      * split_and!; [by rewrite length_replicate|done|done].
      * unfold taken. rewrite <- (app_nil_r (replicate _ _)), concat_rev_empty. simpl. unfold C.
        rewrite rev_app_distr. simpl. by rewrite app_nil_r, <- app_assoc.
      * done.
      * rewrite length_replicate, En. simpl. by rewrite Nat.sub_0_r.
      * rewrite En, replicate_S_end, <- app_assoc. rewrite insert_app_r_alt by (by rewrite length_replicate).
        rewrite length_replicate, Nat.sub_diag. done.
      * rewrite length_app, length_replicate. cbn [length]. lia.
    + exists (replicate n []), C, (k - 1)%nat, n. split_and!.
      * split_and!; [rewrite length_replicate; lia|lia|done].
      * unfold taken. rewrite <- (app_nil_r (replicate _ _)), concat_rev_empty. simpl. unfold C.
        rewrite rev_app_distr. simpl. by rewrite app_nil_r, <- app_assoc.
      * done.
      * by rewrite length_replicate.
      * rewrite insert_app_r_alt by (by rewrite length_replicate).
        rewrite length_replicate, Nat.sub_diag. done.
      * rewrite length_app, length_replicate. cbn [length]. lia.
Qed.

Lemma parts_empty h n : parts h (replicate n NULL) (replicate n []).
Proof. apply Forall2_replicate. done. Qed.

(** Taking entries off the list keeps them, in order, in the pieces. *)
Lemma take_entries_spec fuel h part T top k lst rest :
  parts h part (levels T top k) -> levels_ok T top k -> sll h lst rest -> NoDup (taken T top ++ rest) ->
  (length rest < fuel)%nat ->
  exists h' part' T' top' k', take_entries cmp fuel h part (length T) lst = Ret (h', part', length T')
    /\ parts h' part' (levels T' top' k') /\ taken T' top' = taken T top ++ rest
    /\ (rest <> [] \/ top <> [] -> top' <> []) /\ agree h h' (taken T top ++ rest) [].
Proof.
  revert h part T top k lst rest.
  induction fuel as [|fuel IH]; intros h part T top k lst rest Hp Hok Hs Hd Hf; [lia|].
  cbn [take_entries]. destruct (lst =? NULL) eqn:El; cbn [negb].
  { rewrite (sll_null _ _ _ Hs El). exists h, part, T, top, k. rewrite app_nil_r. split_and!; try done. tauto. }
  destruct (sll_not_null _ _ _ Hs El) as (rest' & n & -> & Hn & Hs'). apply Z.eqb_neq in El.
  rewrite (get_next_nx _ _ _ Hn). cbn [obind].
  destruct (set_next_ok h lst NULL) as (h1 & -> & Ag & Hn1 & _); [by exists n|]. cbn [obind].
  apply NoDup_app in Hd as Hd'. destruct Hd' as (D1 & D2 & D3). apply NoDup_cons in D3 as [D3 D4].
  assert (length part = length (levels T top k)) as Hlen by (by eapply Forall2_length).
  assert (length (levels T top k) = MAX_LIST_LENGTH_BITS + 1)%nat as Hmax
    by (unfold levels; rewrite length_app; cbn [length]; rewrite length_replicate; apply Hok).
  destruct (merge_levels_spec (S (length part)) h1 0 part (levels T top k) lst [lst])
    as (h2 & cur & A & B & psB & E & HA & Em & Hc & HpB & Ag2).
  { eapply parts_frame; [exact Ag| |done]. intros x. rewrite levels_elem. intros Hx.
    rewrite list_elem_of_singleton. intros ->. apply (D2 lst Hx). left. }
  { unfold levels. apply elem_of_app. right. right. destruct Hok as (_ & Hk & _). destruct k; [lia|]. left. }
  { by apply (sll_cons _ _ NULL). }
  { rewrite levels_nodup. rewrite cons_middle, app_assoc in Hd. by apply NoDup_app in Hd as (? & _ & _). }
  { rewrite Hlen. lia. }
  simpl replicate in Em. rewrite app_nil_l, Nat.add_0_l in Em. rewrite Em. cbn [obind].
  destruct (place_entry T top k A B lst E HA Hok) as (T' & top' & k' & lev & Hok' & Ht' & Hne & El' & Ei & Hlt).
  assert (length psB = length B) as HlB by (by eapply Forall2_length).
  assert (length (replicate (length A) NULL ++ NULL :: psB) = MAX_LIST_LENGTH_BITS + 1)%nat as Hpl.
  { rewrite <- Hmax, E, !length_app, length_replicate. cbn [length]. lia. }
  rewrite Hpl.
  assert (lev < length (replicate (length A) NULL ++ NULL :: psB))%nat as Hlt'.
  { rewrite length_app, length_replicate in Hlt. rewrite length_app, length_replicate. cbn [length] in *. lia. }
  cbn zeta in El'. rewrite El', arr_set_lt by done. cbn [obind].
  assert (forall x, x ∈ concat A ++ [lst] -> x ∈ taken T top ++ [lst]) as Hsub.
  { intros x. rewrite !elem_of_app, <- (levels_elem T top k), E, concat_app, elem_of_app. tauto. }
  destruct (IH h2 (<[lev:=cur]> (replicate (length A) NULL ++ NULL :: psB)) T' top' k' n rest')
    as (h3 & part3 & T3 & top3 & k3 & -> & Hp3 & Ht3 & Hne3 & Ag3); try done.
  - rewrite <- Ei. apply Forall2_insert; [|done].
    apply Forall2_app; [apply parts_empty|by constructor].
  - eapply sll_frame; [exact Ag2| |eapply sll_frame; [exact Ag| |exact Hs']].
    + intros x Hx Hx'. apply Hsub in Hx'. apply elem_of_app in Hx' as [Hx'|Hx'].
      * apply (D2 x Hx'). by right.
      * apply list_elem_of_singleton in Hx' as ->. done.
    + intros x Hx. rewrite list_elem_of_singleton. by intros ->.
  - by rewrite Ht', <- app_assoc.
  - simpl in Hf. lia.
  - exists h3, part3, T3, top3, k3. rewrite Ht3, Ht', <- app_assoc. split_and!; try done; [auto|].
    eapply (agree_then h h2 h3 _ _ (taken T top ++ lst :: rest') []);
      [eapply (agree_then h h1 h2); [exact Ag|exact Ag2| | |done|done]|exact Ag3|done| |done|done]; intros x Hx.
    + apply list_elem_of_singleton in Hx as ->. apply elem_of_app. right. left.
    + apply Hsub in Hx. rewrite !elem_of_app, ?elem_of_cons, ?elem_of_nil in *. tauto.
    + rewrite Ht', <- app_assoc in Hx. done.
Qed.

Lemma merge_parts_spec h pre ps post T lst C :
  parts h ps T -> sll h lst (isort cmp C) -> NoDup (concat T ++ C) ->
  exists h' lst', merge_parts cmp (length ps) h (pre ++ ps ++ post) (length pre) lst = Ret (h', lst')
    /\ sll h' lst' (isort cmp (concat (rev T) ++ C)) /\ agree h h' (concat T ++ C) [].
Proof.
  intros Hp. revert h pre lst C Hp. induction ps as [|p ps IH] in T |- *; intros h pre lst C Hp Hs Hd.
  { apply Forall2_nil_inv_l in Hp as ->. by exists h, lst. }
  apply Forall2_cons_inv_l in Hp as (s & T' & Hps & Hp & ->). simpl app. cbn [merge_parts length].
  rewrite arr_get_at by done. cbn [obind].
  replace (pre ++ p :: ps ++ post) with ((pre ++ [p]) ++ ps ++ post) by (by rewrite <- app_assoc).
  replace (length pre + 1)%nat with (length (pre ++ [p])) by (rewrite length_app; done).
  simpl concat in Hd. rewrite <- app_assoc in Hd.
  assert (concat T' ++ s ++ C ≡ₚ s ++ concat T' ++ C) as Hperm by solve_Permutation.
  destruct (p =? NULL) eqn:Ep; cbn [negb].
  - pose proof (isort_nil _ _ (sll_null _ _ _ Hps Ep)) as ->.
    destruct (IH T' h (pre ++ [p]) lst C) as (h' & lst' & -> & Hs' & Ag); try done.
    exists h', lst'. simpl. rewrite concat_app. simpl. by rewrite app_nil_r.
  - assert (NoDup (s ++ C)) as Hsc.
    { apply NoDup_app in Hd as (N1 & N2 & N3). apply NoDup_app in N3 as (N4 & N5 & N6).
      apply NoDup_app. split_and!; try done. intros x Hx Hx'. apply (N2 x Hx). apply elem_of_app. by right. }
    destruct (merge_spec cmp h p lst (isort cmp s) (isort cmp C)) as (h1 & r & -> & Hr & Ag); try done.
    { by rewrite !isort_perm. }
    rewrite <- isort_app in Hr by done. cbn [obind].
    destruct (IH T' h1 (pre ++ [p]) r (s ++ C)) as (h' & lst' & -> & Hs' & Ag'); try done.
    + eapply parts_frame; [exact Ag| |done]. intros x Hx. rewrite !isort_perm. rewrite <- Hperm in Hd.
      apply NoDup_app in Hd as (_ & Hdis & _). by apply Hdis.
    + by rewrite Hperm.
    + exists h', lst'. simpl. rewrite concat_app. simpl. rewrite app_nil_r, <- app_assoc.
      split_and!; try done. eapply agree_then; [exact Ag|exact Ag'| | |done|done];
        intros x; rewrite ?isort_perm, !elem_of_app, ?isort_perm; tauto.
Qed.

(** Cutting the circle behind the last entry. *)
Lemma sll_of_chain h h' ys z : chain h (ys ++ [z]) -> agree h h' [z] [] -> nx h' z = Some NULL ->
  NoDup (ys ++ [z]) -> NULL ∉ ys ++ [z] -> sll h' (hd NULL (ys ++ [z])) (ys ++ [z]).
Proof.
  intros Hc Ag Hz. induction ys as [|y ys IH]; intros Hd H0.
  - apply (sll_cons _ _ NULL); [|done|done]. simpl. intros ->. apply H0. left.
  - simpl in *. apply NoDup_cons in Hd as [Hy Hd]. rewrite not_elem_of_cons in H0. destruct H0 as [H0 H1].
    assert (y <> z) as Hyz by (intros ->; apply Hy, elem_of_app; right; left).
    assert (exists w m, ys ++ [z] = w :: m) as (w & m & E) by (destruct ys; simpl; eauto).
    rewrite E in *. destruct Hc as [[Hn _] Hc]. split_and!; [done|done|]. exists w.
    rewrite (proj1 Ag) by (by rewrite list_elem_of_singleton). split; [done|]. by apply IH.
Qed.

Lemma sll_of_dll h head xs : dll h head xs -> NULL ∉ xs -> xs <> [] ->
  exists last h', get_prev h head = Ret last /\ set_next h last NULL = Ret h'
    /\ get_next h' head = Ret (hd NULL xs) /\ sll h' (hd NULL xs) xs /\ agree h h' xs [] /\ has h' head.
Proof.
  intros Hdll H0 Hne. pose proof (dll_next _ _ _ Hdll) as Hnx. pose proof (dll_has h head xs) as Hall.
  destruct (exists_last Hne) as (ys & z & ->). pose proof Hdll as [Hd Hc].
  rewrite <- app_assoc in Hc. pose proof (chain_at h (head :: ys) z head [] Hc) as [Hz Hp].
  exists z. destruct (set_next_ok h z NULL) as (h' & E & Ag & Hz' & Hh); [by exists head|].
  apply NoDup_cons in Hd as [Hd1 Hd2].
  assert (head <> z) as Hhz by (intros ->; apply Hd1, elem_of_app; right; left).
  exists h'. split_and!; [by apply get_prev_pv|done| | | |].
  - apply get_next_nx. rewrite (proj1 Ag) by (by rewrite list_elem_of_singleton). rewrite Hnx.
    by destruct ys.
  - apply (sll_of_chain h); try done.
    apply (chain_sub h head (ys ++ [z]) head). by rewrite <- app_assoc.
  - eapply agree_weaken; [exact Ag| |done]. intros x Hx. apply elem_of_app. by right.
  - apply Hh, Hall; [done|left].
Qed.

(** [list_sort] leaves the stably sorted list behind and touches nothing else. *)
Lemma list_sort_spec h head xs : dll h head xs -> NULL ∉ xs ->
  exists h', list_sort cmp h head = Ret h' /\ dll h' head (isort cmp xs)
    /\ (forall x, x ∉ head :: xs -> h' !! x = h !! x).
Proof.
  intros Hdll H0. unfold list_sort. rewrite (list_empty_spec _ _ _ Hdll). cbn [obind].
  destruct (decide (xs = [])) as [->|Hne]; [by exists h|].
  assert (match xs with [] => true | _ => false end = false) as -> by (by destruct xs).
  pose proof Hdll as [Hd _].
  destruct (sll_of_dll h head xs Hdll H0 Hne) as (z & h1 & -> & Es & Eg & Hs & Ag & Hh). cbn [obind].
  rewrite Es. cbn [obind]. rewrite Eg. cbn [obind].
  apply NoDup_cons in Hd as Hd'. destruct Hd' as [Hd1 Hd2].
  pose proof (length_size h1 xs Hd2 (fun x => sll_has _ _ _ x Hs)) as Hl.
  destruct (take_entries_spec (S (size h1)) h1 (replicate (MAX_LIST_LENGTH_BITS + 1) NULL) [] [] 20 (hd NULL xs) xs)
    as (h2 & part & T & top & k & Et & Hp & Htk & Htop & Ag2); try done.
  { apply (parts_empty h1 21). }
  { split_and!; done || lia. }
  { lia. }
  change (length (@nil (list Z))) with 0%nat in Et. rewrite Et. cbn [obind]. simpl in Htk.
  change (taken [] [] ++ xs) with xs in Ag2.
  assert (NoDup (concat (levels T top k) ++ [])) as Hnd by (rewrite levels_nodup, Htk, app_nil_r; done).
  rewrite app_nil_r in Hnd. unfold levels in Hp, Hnd.
  apply Forall2_app_inv_r in Hp as (ps & qs & Hps & Hqs & ->).
  apply Forall2_cons_inv_r in Hqs as (p & qs' & Hp & Hqs & ->).
  assert (length ps = length T) as Hlen by (by eapply Forall2_length).
  rewrite concat_app in Hnd. simpl in Hnd. apply NoDup_app in Hnd as (N1 & N2 & N3).
  apply NoDup_app in N3 as (N3 & _ & _).
  destruct (merge_parts_spec h2 [] ps (p :: qs') T NULL []) as (h3 & lst & Em & Hl3 & Ag3);
    [done|done|by rewrite app_nil_r|].
  rewrite app_nil_r in Hl3, Ag3. simpl app in Em. change (length (@nil Z)) with 0%nat in Em.
  rewrite Hlen in Em. rewrite Em. cbn [obind]. rewrite arr_get_at by done. cbn [obind].
  assert (lmerge cmp (isort cmp top) (isort cmp (concat (rev T))) = isort cmp xs) as Eis
    by (rewrite <- isort_app by done; by f_equal).
  assert (isort cmp top ++ isort cmp (concat (rev T)) ≡ₚ xs) as Hperm
    by (rewrite !isort_perm; by rewrite <- Htk).
  destruct (merge_and_restore_spec cmp h3 head p lst (isort cmp top) (isort cmp (concat (rev T))))
    as (h4 & -> & Hdll4 & Ag4); try done.
  - eapply sll_frame; [exact Ag3| |done]. intros x. rewrite isort_perm. intros Hx Hx'.
    apply (N2 x Hx'). apply elem_of_app. by left.
  - intros E. rewrite E in Hperm. by apply Permutation_nil in Hperm.
  - by rewrite Hperm.
  - unfold has. rewrite (proj1 Ag3), (proj1 Ag2); [done|done|].
    rewrite <- concat_rev_elem. intros Hx. apply Hd1. rewrite <- Htk. apply elem_of_app. by right.
  - exists h4. split; [done|]. rewrite Eis in Hdll4. split; [done|]. intros x Hx.
    apply not_elem_of_cons in Hx as [Hxh Hx].
    assert (x ∉ concat T) as HxT.
    { rewrite <- concat_rev_elem. intros Hx'. apply Hx. rewrite <- Htk. apply elem_of_app. by right. }
    rewrite (agree_at _ _ _ _ x Ag4), (agree_at _ _ _ _ x Ag3), (agree_at _ _ _ _ x Ag2),
      (agree_at _ _ _ _ x Ag); try done; try apply not_elem_of_nil;
      rewrite not_elem_of_cons, Hperm; done.
Qed.
End Levels.
