(* ===== verification/ListSortStore.v ===== *)
(** * Sorting one list of a store

    What callers of [list_sort] rely on: the list is sorted, stably, and the
    other lists of the store are as they were. *)
From Stdlib Require Import ZArith Lia Bool Sorting.Sorted.
From stdpp Require Import base numbers list gmap.
From S2P Require Import Prelude KList KListSpec KListStore StableSort ListSort ListSortSpec ListSortLevels.

Lemma agree_outside (h h' : heap) l : (forall x, x ∉ l -> h' !! x = h !! x) -> agree h h' l l.
Proof. intros H. split; intros x Hx; unfold nx, pv; by rewrite H. Qed.

(** The list at one head is rearranged. *)
Lemma lists_rearrange h h' (L : lists) head xs ys : lists_ok h L -> L !! head = Some xs ->
  dll h' head ys -> ys ≡ₚ xs -> (forall x, x ∉ head :: xs -> h' !! x = h !! x) ->
  lists_ok h' (<[head := ys]> L).
Proof.
  intros Hok Hl Hd Hp Hf.
  eapply (lists_change h h' L _ (head :: xs) (head :: xs) (fun x => x ∈ head :: xs)); [done|by apply agree_outside|tauto| |].
  - intros a zs E. destruct (decide (a = head)) as [->|Hne].
    + rewrite lookup_insert_eq in E. injection E as <-. right. split; [done|]. intros x. by rewrite Hp.
    + rewrite lookup_insert_ne in E by done. left. split; [done|]. intros x Hx.
      by apply (lo_apart _ _ Hok a head zs xs).
  - intros a b zs ws Hab Ea Eb Fa Fb. exfalso. apply Hab.
    assert (forall c vs, <[head := ys]> L !! c = Some vs -> (forall x, x ∈ c :: vs -> x ∈ head :: xs) -> c = head) as Hc.
    { intros c vs Ec Fc. apply (foot_key h L head xs c Hok Hl); [|apply Fc; left].
      destruct (decide (c = head)) as [->|Hne]; [by exists xs|].
      rewrite lookup_insert_ne in Ec by done. by exists vs. }
    by rewrite (Hc a zs Ea Fa), (Hc b ws Eb Fb).
Qed.

Section Claims.
Context (cmp : Z -> Z -> Z) `{!TotalPreorder cmp}.

(** C31: list_sort, a bottom-up merge sort over at most twenty levels of partial
    lists, returns for every list, however long, with the list insertion sort
    gives, correctly linked both ways, and changes nothing else in memory. *)
Theorem list_sort_is_insertion_sort h head xs : dll h head xs -> NULL ∉ xs ->
  exists h', list_sort cmp h head = Ret h' /\ dll h' head (isort cmp xs)
    /\ (forall x, x ∉ head :: xs -> h' !! x = h !! x).
Proof. apply list_sort_spec. done. Qed.

(** on a store of disjoint lists list_sort leaves the same entries on the
    list, in ascending order, entries that compare equal in the order they had;
    the other lists are unchanged, and walking the list visits the entries in
    the new order. *)
Theorem list_sort_stable_in_store h L head xs : lists_ok h L -> L !! head = Some xs -> NULL ∉ xs ->
  exists h' ys, list_sort cmp h head = Ret h' /\ lists_ok h' (<[head := ys]> L)
    /\ ys ≡ₚ xs /\ StronglySorted (fun a b => cmp a b <= 0) ys
    /\ (forall k, List.filter (same_key cmp k) ys = List.filter (same_key cmp k) xs)
    /\ list_for_each (S (length ys)) h' head = Ret ys.
Proof.
  intros Hok Hl H0. destruct (list_sort_spec cmp h head xs) as (h' & E & Hd & Hf); [by apply (lo_dll _ _ Hok)|done|].
  exists h', (isort cmp xs). pose proof (isort_perm cmp xs) as Hp. split_and!; try done.
  - by eapply lists_rearrange.
  - by apply isort_sorted.
  - intros k. by apply isort_stable.
  - by apply list_for_each_spec; [|lia].
Qed.
End Claims.

(** ** Instances at a concrete store *)

(** Entries are compared by the tens of their address. *)
Definition by_tens (a b : Z) : Z := a / 10 - b / 10.

#[local] Instance by_tens_preorder : TotalPreorder by_tens.
Proof. split; unfold by_tens; lia. Qed.

(** The list 25, 11, 23, 12 at 100 and the list 40 at 200. *)
Definition sort_heap : heap :=
  list_to_map [(100, (25, 12)); (25, (11, 100)); (11, (23, 25)); (23, (12, 11)); (12, (100, 23));
               (200, (40, 40)); (40, (200, 200))].

Definition sort_lists : lists := list_to_map [(100, [25; 11; 23; 12]); (200, [40])].

Lemma sort_heap_dlls : dll sort_heap 100 [25; 11; 23; 12] /\ dll sort_heap 200 [40].
Proof.
  split; (split; [apply (bool_decide_unpack _); reflexivity|]);
    repeat (split; [split; reflexivity|]); done.
Qed.

Lemma sort_lists_inv a xs : sort_lists !! a = Some xs ->
  (a = 100 /\ xs = [25; 11; 23; 12]) \/ (a = 200 /\ xs = [40]).
Proof.
  unfold sort_lists. simpl. rewrite !lookup_insert_Some, lookup_empty. naive_solver.
Qed.

Lemma sort_heap_ok : lists_ok sort_heap sort_lists.
Proof.
  split.
  - intros a xs E. apply sort_lists_inv in E as [[-> ->]|[-> ->]]; apply sort_heap_dlls.
  - intros a b xs ys Hab Ea Eb x. apply sort_lists_inv in Ea as [[-> ->]|[-> ->]], Eb as [[-> ->]|[-> ->]];
      try done; rewrite !elem_of_cons, elem_of_nil; lia.
Qed.

Lemma no_null : NULL ∉ [25; 11; 23; 12].
Proof. unfold NULL. rewrite !elem_of_cons, elem_of_nil. lia. Qed.

Lemma list_sort_is_insertion_sort_witness :
  exists h', list_sort by_tens sort_heap 100 = Ret h' /\ dll h' 100 [11; 12; 25; 23]
    /\ h' !! 40 = Some (200, 200).
Proof.
  destruct (list_sort_is_insertion_sort by_tens sort_heap 100 [25; 11; 23; 12] (proj1 sort_heap_dlls) no_null)
    as (h' & E & Hd & Hf).
  exists h'. split; [exact E|]. split; [exact Hd|]. rewrite Hf; [reflexivity|].
  rewrite !elem_of_cons, elem_of_nil. lia.
Defined.

Lemma list_sort_stable_in_store_witness :
  exists h' ys, list_sort by_tens sort_heap 100 = Ret h' /\ lists_ok h' (<[100 := ys]> sort_lists)
    /\ ys ≡ₚ [25; 11; 23; 12] /\ StronglySorted (fun a b => by_tens a b <= 0) ys
    /\ (forall k, List.filter (same_key by_tens k) ys = List.filter (same_key by_tens k) [25; 11; 23; 12])
    /\ list_for_each (S (length ys)) h' 100 = Ret ys.
Proof.
  exact (list_sort_stable_in_store by_tens sort_heap sort_lists 100 [25; 11; 23; 12] sort_heap_ok eq_refl no_null).
Defined.
