(* ===== verification/Semaphore.v ===== *)
(** * Counting semaphores (kernel/locking/semaphore.c)

    The semaphore's [wait_list] is a list of the store of [KList]; a waiter is
    on the stack of the task that waits, at an address that is in the store only
    while [__down_common] runs.  Every definition is one critical section: what
    runs under [sem->lock] from taking it to releasing it, so [down] is a call
    that returns or goes to sleep, and a wake-up that returns or sleeps again.
    Signals and the clock are arguments.  The step relation interleaves the
    critical sections of any number of tasks. *)
From Stdlib Require Import ZArith Lia Bool.
From stdpp Require Import base numbers list gmap.
From S2P Require Import Prelude KList.

Definition ETIME : Z := 62.

Definition TASK_INTERRUPTIBLE : Z := 1.
Definition TASK_UNINTERRUPTIBLE : Z := 2.
Definition TASK_WAKEKILL : Z := 128.
Definition TASK_KILLABLE : Z := Z.lor TASK_WAKEKILL TASK_UNINTERRUPTIBLE.
Definition MAX_SCHEDULE_TIMEOUT : Z := 2147483647.

(** What [signal_pending] and [__fatal_signal_pending] say of a task. *)
Record signals := mk_signals { sg_pending : bool; sg_fatal : bool }.

Definition signal_pending_state (state : Z) (sg : signals) : bool :=
  if Z.land state (Z.lor TASK_INTERRUPTIBLE TASK_WAKEKILL) =? 0 then false
  else if negb (sg_pending sg) then false
  else negb (Z.land state TASK_INTERRUPTIBLE =? 0) || sg_fatal sg.

(** [jiffies] is [j0] when the task goes to sleep and [j1] when it runs again. *)
Definition schedule_timeout (timeout j0 j1 : Z) : Z :=
  let out t := if t <? 0 then 0 else t in
  if timeout =? MAX_SCHEDULE_TIMEOUT then out timeout
  else if timeout <? 0 then out timeout
  else
    let expire := u32 (timeout + j0) in
    out (s32 (expire - j1)).

(** [struct semaphore] with the store its list is in and, for each waiter, its
    [task] and [up]. *)
Record semaphore := mk_sem {
  sem_count : Z;
  sem_heap : heap;
  sem_waiters : gmap Z (Z * bool)
}.

(** A critical section of [down] ends with a return or with a sleep. *)
Inductive down_result :=
| Returned (result : Z)
| Asleep (timeout : Z).

Section Semaphore.
(** The address of [sem->wait_list]. *)
Context (wait_list : Z).

Definition sema_init (val : Z) : semaphore :=
  mk_sem (u32 val) {[wait_list := (wait_list, wait_list)]} ∅.

(** The stack frame with the waiter is gone. *)
Definition pop_waiter (s : semaphore) (waiter : Z) : semaphore :=
  mk_sem (sem_count s) (delete waiter (sem_heap s)) (delete waiter (sem_waiters s)).

(** [list_del (&waiter.list); return err;] *)
Definition leave_queue (s : semaphore) (waiter err : Z) : outcome (down_result * semaphore) :=
  let* h := list_del (sem_heap s) waiter in
  Ret (Returned (- err), pop_waiter (mk_sem (sem_count s) h (sem_waiters s)) waiter).

(** The loop of [__down_common] from its top to the release of the lock. *)
Definition down_pass (s : semaphore) (waiter state timeout : Z) (sg : signals)
    : outcome (down_result * semaphore) :=
  if signal_pending_state state sg then leave_queue s waiter EINTR
  else if timeout <=? 0 then leave_queue s waiter ETIME
  else Ret (Asleep timeout, s).

(** [junk] is what the stack held. *)
Definition __down_common (s : semaphore) (waiter : Z) (junk : Z * Z) (task state timeout : Z) (sg : signals)
    : outcome (down_result * semaphore) :=
  let* h := list_add_tail (<[waiter := junk]> (sem_heap s)) waiter wait_list in
  down_pass (mk_sem (sem_count s) h (<[waiter := (task, false)]> (sem_waiters s))) waiter state timeout sg.

(** The loop from where [schedule_timeout] was called. *)
Definition down_wake (s : semaphore) (waiter state timeout0 j0 j1 : Z) (sg : signals)
    : outcome (down_result * semaphore) :=
  let timeout := schedule_timeout timeout0 j0 j1 in
  match (sem_waiters s !! waiter : option (Z * bool)) with
  | None => Ub
  | Some (_, up) =>
      if up then Ret (Returned 0, pop_waiter s waiter)
      else down_pass s waiter state timeout sg
  end.

Definition __down (s : semaphore) (waiter : Z) (junk : Z * Z) (task : Z) (sg : signals) :=
  __down_common s waiter junk task TASK_UNINTERRUPTIBLE MAX_SCHEDULE_TIMEOUT sg.
Definition __down_interruptible (s : semaphore) (waiter : Z) (junk : Z * Z) (task : Z) (sg : signals) :=
  __down_common s waiter junk task TASK_INTERRUPTIBLE MAX_SCHEDULE_TIMEOUT sg.
Definition __down_killable (s : semaphore) (waiter : Z) (junk : Z * Z) (task : Z) (sg : signals) :=
  __down_common s waiter junk task TASK_KILLABLE MAX_SCHEDULE_TIMEOUT sg.
Definition __down_timeout (s : semaphore) (waiter : Z) (junk : Z * Z) (task timeout : Z) (sg : signals) :=
  __down_common s waiter junk task TASK_UNINTERRUPTIBLE timeout sg.

Definition take_one (s : semaphore) : semaphore :=
  mk_sem (sem_count s - 1) (sem_heap s) (sem_waiters s).

Definition down (s : semaphore) (waiter : Z) (junk : Z * Z) (task : Z) (sg : signals) :=
  if 0 <? sem_count s then Ret (Returned 0, take_one s) else __down s waiter junk task sg.
Definition down_interruptible (s : semaphore) (waiter : Z) (junk : Z * Z) (task : Z) (sg : signals) :=
  if 0 <? sem_count s then Ret (Returned 0, take_one s) else __down_interruptible s waiter junk task sg.
Definition down_killable (s : semaphore) (waiter : Z) (junk : Z * Z) (task : Z) (sg : signals) :=
  if 0 <? sem_count s then Ret (Returned 0, take_one s) else __down_killable s waiter junk task sg.
Definition down_timeout (s : semaphore) (waiter : Z) (junk : Z * Z) (task timeout : Z) (sg : signals) :=
  if 0 <? sem_count s then Ret (Returned 0, take_one s) else __down_timeout s waiter junk task timeout sg.

Definition down_trylock (s : semaphore) : Z * semaphore :=
  let count := s32 (sem_count s - 1) in
  let s' := if 0 <=? count then mk_sem count (sem_heap s) (sem_waiters s) else s in
  (if count <? 0 then 1 else 0, s').

(** Returns the task to wake. *)
Definition __up (s : semaphore) : outcome (Z * semaphore) :=
  let* waiter := get_next (sem_heap s) wait_list in
  let* h := list_del (sem_heap s) waiter in
  match (sem_waiters s !! waiter : option (Z * bool)) with
  | None => Ub
  | Some (task, _) => Ret (task, mk_sem (sem_count s) h (<[waiter := (task, true)]> (sem_waiters s)))
  end.

Definition up (s : semaphore) : outcome (option Z * semaphore) :=
  let* e := list_empty (sem_heap s) wait_list in
  if e then Ret (None, mk_sem (u32 (sem_count s + 1)) (sem_heap s) (sem_waiters s))
  else let* (task, s') := __up s in Ret (Some task, s').

(** ** Interleaving *)

(** The calls a task can make, and the task state and timeout it sleeps with. *)
Inductive down_kind := KDown | KInterruptible | KKillable | KTimeout (timeout : Z).

Definition kind_state (k : down_kind) : Z :=
  match k with
  | KDown => TASK_UNINTERRUPTIBLE
  | KInterruptible => TASK_INTERRUPTIBLE
  | KKillable => TASK_KILLABLE
  | KTimeout _ => TASK_UNINTERRUPTIBLE
  end.

Definition kind_timeout (k : down_kind) : Z :=
  match k with KTimeout t => t | _ => MAX_SCHEDULE_TIMEOUT end.

Definition call_down (k : down_kind) (s : semaphore) (waiter : Z) (junk : Z * Z) (task : Z) (sg : signals) :=
  match k with
  | KDown => down s waiter junk task sg
  | KInterruptible => down_interruptible s waiter junk task sg
  | KKillable => down_killable s waiter junk task sg
  | KTimeout t => down_timeout s waiter junk task t sg
  end.

(** The semaphore, the sleeping tasks by the address of their waiter with the
    state and timeout they sleep with, and how often a down has succeeded and
    [up] has been called. *)
Record world := mk_world {
  wd_sem : semaphore;
  wd_sleep : gmap Z (down_kind * Z);
  wd_acquired : Z;
  wd_ups : Z
}.

Inductive event :=
| EDown (waiter : Z)
| EWake (waiter : Z)
| ETrylock
| EUp.

(** How the world goes on after a critical section of the task with kind [k]. *)
Definition after_down (wd : world) (waiter : Z) (k : down_kind) (r : down_result) (s : semaphore) : world :=
  match r with
  | Returned res => mk_world s (delete waiter (wd_sleep wd))
                      (if res =? 0 then wd_acquired wd + 1 else wd_acquired wd) (wd_ups wd)
  | Asleep t => mk_world s (<[waiter := (k, t)]> (wd_sleep wd)) (wd_acquired wd) (wd_ups wd)
  end.

Inductive sem_step : event -> world -> world -> Prop :=
| step_down wd k waiter junk task sg r s :
    sem_heap (wd_sem wd) !! waiter = None ->
    call_down k (wd_sem wd) waiter junk task sg = Ret (r, s) ->
    sem_step (EDown waiter) wd (after_down wd waiter k r s)
| step_wake wd k waiter t j0 j1 sg r s :
    wd_sleep wd !! waiter = Some (k, t) ->
    down_wake (wd_sem wd) waiter (kind_state k) t j0 j1 sg = Ret (r, s) ->
    sem_step (EWake waiter) wd (after_down wd waiter k r s)
| step_trylock wd r s :
    down_trylock (wd_sem wd) = (r, s) ->
    sem_step ETrylock wd (mk_world s (wd_sleep wd)
                            (if r =? 0 then wd_acquired wd + 1 else wd_acquired wd) (wd_ups wd))
| step_up wd woken s :
    up (wd_sem wd) = Ret (woken, s) ->
    sem_step EUp wd (mk_world s (wd_sleep wd) (wd_acquired wd) (wd_ups wd + 1)).

Inductive sem_run : list event -> world -> world -> Prop :=
| run_nil wd : sem_run [] wd wd
| run_cons e es a b c : sem_step e a b -> sem_run es b c -> sem_run (e :: es) a c.

Definition sem_start (val : Z) : world := mk_world (sema_init val) ∅ 0 0.

Definition is_up (e : event) : bool := match e with EUp => true | _ => false end.

(** How often a sequence of events calls [up]. *)
Definition ups (es : list event) : nat := length (List.filter is_up es).
End Semaphore.
