(* ===== verification/SemaphoreSpec.v ===== *)
(** * Semaphores hand out what was put in, first come first served

    The invariant of the semaphore under any interleaving of calls, signals and
    timeouts, what each critical section does, and the two promises: never more
    acquisitions than the initial value and the releases, and a waiter gets its
    turn after as many releases as it has predecessors. *)
From Stdlib Require Import ZArith Lia Bool.
From stdpp Require Import base numbers list gmap.
From S2P Require Import Prelude KList KListSpec Semaphore.

(** ** Lists whose entries come and go *)

Lemma has_lookup (h : heap) x : has h x <-> is_Some (h !! x).
Proof. unfold has, nx. by rewrite fmap_is_Some. Qed.

Lemma dll_delete h head xs w : dll h head xs -> w ∉ head :: xs -> dll (delete w h) head xs.
Proof.
  intros Hd Hw. eapply (dll_frame h _ [w] [w]); [|done|..].
  - split; intros x Hx; unfold nx, pv; rewrite lookup_delete_ne; try done; intros ->; apply Hx; left.
  - intros x Hx. rewrite list_elem_of_singleton. by intros ->.
  - intros x Hx. rewrite list_elem_of_singleton. by intros ->.
Qed.

Lemma unlink_spec h head l1 e l2 : dll h head (l1 ++ e :: l2) ->
  exists h', list_del h e = Ret h' /\ dll h' head (l1 ++ l2) /\ has h' e
    /\ (forall x, x ∉ head :: l1 ++ e :: l2 -> h' !! x = h !! x).
Proof.
  intros Hd. destruct (del_entry_spec h head l1 e l2 Hd) as (h1 & p & q & _ & Hd1 & Ag & Hp & Hq & He & Gp & Gn & E).
  destruct (nodup_entry _ _ _ _ (proj1 Hd)) as [_ Hout].
  unfold list_del. rewrite Gp. cbn [obind]. rewrite Gn. cbn [obind]. rewrite E. cbn [obind].
  destruct (set_next_ok h1 e LIST_POISON1 He) as (h2 & -> & Ag2 & _ & Hh2). cbn [obind].
  destruct (set_prev_ok h2 e LIST_POISON2 (Hh2 e He)) as (h3 & E3 & Ag3 & _ & Hh3).
  assert (agree h1 h3 [e] [e]) as Ag4 by (eapply agree_then; [exact Ag2|exact Ag3|set_solver..]).
  exists h3. split_and!; [done| |by apply Hh3, Hh2|].
  - eapply dll_frame; [exact Ag4|done|..]; intros x Hx; rewrite list_elem_of_singleton; by intros ->.
  - intros x Hx. assert (x <> p /\ x <> q /\ x <> e) as (X1 & X2 & X3).
    { split_and!; intros ->; apply Hx; rewrite ?elem_of_cons, ?elem_of_app, ?elem_of_cons in *; tauto. }
    rewrite (agree_at _ _ _ _ x Ag4), (agree_at _ _ _ _ x Ag); rewrite ?list_elem_of_singleton; done.
Qed.

(** A new entry at the end of a list. *)
Lemma push_back h head xs w junk : dll h head xs -> h !! w = None ->
  exists h', list_add_tail (<[w := junk]> h) w head = Ret h' /\ dll h' head (xs ++ [w])
    /\ (forall x, x ∉ w :: head :: xs -> h' !! x = h !! x).
Proof.
  intros Hd Hw.
  assert (w ∉ head :: xs) as Hout.
  { intros Hx. apply (dll_has _ _ _ _ Hd), has_lookup in Hx. by rewrite Hw in Hx; destruct Hx. }
  destruct (list_add_tail_spec (<[w := junk]> h) head xs w) as (h' & N & P & E & Hd' & Ag & HNP).
  - eapply (dll_frame h _ [w] [w]); [|done|..].
    + split; intros x Hx; unfold nx, pv; rewrite lookup_insert_ne; try done; intros ->; apply Hx; left.
    + intros x Hx. rewrite list_elem_of_singleton. by intros ->.
    + intros x Hx. rewrite list_elem_of_singleton. by intros ->.
  - apply has_lookup. rewrite lookup_insert_eq. by exists junk.
  - done.
  - exists h'. split_and!; [done|done|]. intros x Hx. rewrite (agree_at _ _ _ _ x Ag).
    + apply lookup_insert_ne. intros ->. apply Hx. left.
    + intros Hi. apply Hx, HNP. by left.
    + intros Hi. apply Hx, HNP. by right.
Qed.

(** A value that is not negative as an [int]. *)
Lemma s32_nonneg z : -1 <= z <= U32_MAX -> 0 <= s32 z -> 0 <= z /\ s32 z = z.
Proof.
  intros Hz. unfold swrap, U32_MAX in *. destruct (decide (z = -1)) as [->|Hne]; [vm_compute; tauto|].
  rewrite Z.mod_small by lia. destruct (Z.ltb_spec z (2 ^ (32 - 1))); lia.
Qed.

(** ** Waiters that have been granted the semaphore *)

Definition granted (m : gmap Z (Z * bool)) : Z :=
  Z.of_nat (size (filter (fun p : Z * (Z * bool) => p.2.2 = true) m)).

Lemma granted_new (m : gmap Z (Z * bool)) w t : m !! w = None -> granted (<[w := (t, false)]> m) = granted m.
Proof.
  intros Hw. unfold granted. rewrite map_filter_insert_False by done. by rewrite delete_id.
Qed.

Lemma granted_grant (m : gmap Z (Z * bool)) w t t' : m !! w = Some (t, false) -> granted (<[w := (t', true)]> m) = granted m + 1.
Proof.
  intros Hw. unfold granted. rewrite map_filter_insert_True by done. rewrite map_size_insert_None; [lia|].
  apply map_lookup_filter_None. right. intros x Hx. rewrite Hw in Hx. injection Hx as <-. done.
Qed.

Lemma granted_delete (m : gmap Z (Z * bool)) w t (b : bool) : m !! w = Some (t, b) ->
  granted (delete w m) = granted m - (if b then 1 else 0).
Proof.
  intros Hw. unfold granted. rewrite map_filter_delete. destruct b.
  - assert (filter (fun p : Z * (Z * bool) => p.2.2 = true) m !! w = Some (t, true)) as Hf by (by apply map_lookup_filter_Some).
    rewrite (map_size_delete_Some _ _ (mk_is_Some _ _ Hf)).
    assert (size (filter (fun p : Z * (Z * bool) => p.2.2 = true) m) <> 0%nat); [|lia].
    apply map_size_non_empty_iff. intros E. by rewrite E, lookup_empty in Hf.
  - rewrite delete_id; [lia|]. apply map_lookup_filter_None. right. intros x Hx. rewrite Hw in Hx.
    injection Hx as <-. done.
Qed.

Lemma granted_nonneg m : 0 <= granted m.
Proof. unfold granted. lia. Qed.

(** ** The invariant *)

Section Inv.
Context (wl : Z).

(** [q] are the waiters not yet granted the semaphore, oldest first. *)
Record sem_inv (val : Z) (wd : world) (q : list Z) : Prop := {
  si_dll : dll (sem_heap (wd_sem wd)) wl q;
  si_dom : forall w, is_Some (sem_heap (wd_sem wd) !! w) <-> w = wl \/ is_Some (wd_sleep wd !! w);
  si_head : wd_sleep wd !! wl = None;
  si_waiters : forall w, is_Some (wd_sleep wd !! w) ->
    exists task, sem_waiters (wd_sem wd) !! w = Some (task, bool_decide (w ∉ q));
  si_only : forall w, wd_sleep wd !! w = None -> sem_waiters (wd_sem wd) !! w = None;
  si_count : 0 <= sem_count (wd_sem wd) /\ (0 < sem_count (wd_sem wd) -> q = []);
  si_acquired : 0 <= wd_acquired wd;
  si_total : sem_count (wd_sem wd) + wd_acquired wd + granted (sem_waiters (wd_sem wd)) = val + wd_ups wd
}.

Lemma si_queue val wd q w : sem_inv val wd q -> w ∈ q -> is_Some (wd_sleep wd !! w).
Proof.
  intros I Hw. pose proof (dll_has _ _ _ w (si_dll _ _ _ I)) as Hh.
  assert (has (sem_heap (wd_sem wd)) w) as Hx by (apply Hh; by right).
  apply has_lookup, (si_dom _ _ _ I) in Hx as [->|Hx]; [|done].
  destruct (si_dll _ _ _ I) as [Hd _]. apply NoDup_cons in Hd as [Hd _]. done.
Qed.

Lemma start_inv val : 0 <= val <= U32_MAX -> sem_inv val (sem_start wl val) [].
Proof.
  intros Hv. split; simpl.
  - apply dll_empty. split; unfold nx, pv; by rewrite lookup_singleton_eq.
  - intros w. rewrite lookup_empty. destruct (decide (w = wl)) as [->|Hne].
    + rewrite lookup_singleton_eq. split; eauto.
    + rewrite lookup_singleton_ne by done. split; [by intros [? ?]|]. intros [?|[? ?]]; done.
  - apply lookup_empty.
  - intros w. rewrite lookup_empty. by intros [? ?].
  - intros w _. apply lookup_empty.
  - rewrite u32_small by done. split; [lia|done].
  - lia.
  - rewrite u32_small by done. unfold granted. rewrite map_filter_empty, map_size_empty. lia.
Qed.

(** ** Critical sections *)

Lemma queue_split (w : Z) q : w ∈ q -> exists l1 l2, q = l1 ++ w :: l2.
Proof. apply list_elem_of_split. Qed.

Lemma inv_waiting val wd q w : sem_inv val wd q -> w ∈ q ->
  exists task, sem_waiters (wd_sem wd) !! w = Some (task, false).
Proof.
  intros I Hw. destruct (si_waiters _ _ _ I w (si_queue _ _ _ _ I Hw)) as [task E].
  exists task. rewrite E. by rewrite bool_decide_false by tauto.
Qed.

(** A waiter leaves the queue without the semaphore. *)
Lemma leave_inv val wd l1 w l2 k err : sem_inv val wd (l1 ++ w :: l2) -> err <> 0 ->
  exists s', leave_queue (wd_sem wd) w err = Ret (Returned (- err), s')
    /\ sem_inv val (after_down wd w k (Returned (- err)) s') (l1 ++ l2).
Proof.
  intros I Herr. unfold leave_queue.
  destruct (unlink_spec _ _ _ _ _ (si_dll _ _ _ I)) as (h' & -> & Hd & He & Hf). cbn [obind].
  destruct (nodup_entry _ _ _ _ (proj1 (si_dll _ _ _ I))) as [_ Hout].
  destruct (inv_waiting _ _ _ w I) as [task Ew]; [apply elem_of_app; right; left|].
  eexists. split; [reflexivity|]. unfold after_down, pop_waiter. simpl.
  rewrite (proj2 (Z.eqb_neq (- err) 0)) by lia. destruct I as [I1 I2 I3 I4 I5 I6 I7 I8].
  assert (forall x, x <> w -> is_Some (h' !! x) <-> is_Some (sem_heap (wd_sem wd) !! x)) as Hdom.
  { intros x Hx. destruct (decide (x ∈ wl :: l1 ++ l2)) as [Hin|Hn].
    - rewrite <- !has_lookup. split; intros _; [apply (dll_has _ _ _ _ I1)|by apply (dll_has _ _ _ _ Hd)].
      rewrite elem_of_cons, elem_of_app, elem_of_cons. rewrite elem_of_cons, elem_of_app in Hin. tauto.
    - rewrite Hf; [done|]. rewrite elem_of_cons, elem_of_app, elem_of_cons.
      rewrite elem_of_cons, elem_of_app in Hn. tauto. }
  split; simpl.
  - by apply dll_delete.
  - intros x. destruct (decide (x = w)) as [->|Hx].
    + rewrite !lookup_delete_eq. split; [by intros [? ?]|]. intros [->|[? ?]]; [|done].
      exfalso. apply Hout. left.
    + rewrite !lookup_delete_ne by done. rewrite Hdom by done. apply I2.
  - destruct (decide (wl = w)) as [->|Hne]; [by rewrite lookup_delete_eq|by rewrite lookup_delete_ne].
  - intros x Hx. destruct (decide (x = w)) as [->|Hne]; [by rewrite lookup_delete_eq in Hx; destruct Hx|].
    rewrite lookup_delete_ne in Hx by done. rewrite lookup_delete_ne by done. destruct (I4 x Hx) as [t Et]. exists t. rewrite Et.
    do 2 f_equal. apply bool_decide_ext. rewrite !elem_of_app, elem_of_cons. tauto.
  - intros x Hx. destruct (decide (x = w)) as [->|Hne]; [apply lookup_delete_eq|].
    rewrite lookup_delete_ne in Hx by done. rewrite lookup_delete_ne by done. by apply I5.
  - split; [lia|]. intros Hc. destruct I6 as [_ I6]. apply I6 in Hc. by destruct l1.
  - done.
  - rewrite (granted_delete _ _ _ _ Ew). lia.
Qed.

(** A task queues up. *)
Lemma enqueue_inv val wd q w junk task kt : sem_inv val wd q -> sem_heap (wd_sem wd) !! w = None ->
  sem_count (wd_sem wd) = 0 ->
  exists h', list_add_tail (<[w := junk]> (sem_heap (wd_sem wd))) w wl = Ret h'
    /\ sem_inv val (mk_world (mk_sem (sem_count (wd_sem wd)) h' (<[w := (task, false)]> (sem_waiters (wd_sem wd))))
                      (<[w := kt]> (wd_sleep wd)) (wd_acquired wd) (wd_ups wd)) (q ++ [w]).
Proof.
  intros I Hw Hc. destruct (push_back _ _ _ w junk (si_dll _ _ _ I) Hw) as (h' & E & Hd & Hf).
  exists h'. split; [done|].
  assert (w <> wl /\ wd_sleep wd !! w = None) as [Hwl Hsl].
  { split; [|apply eq_None_not_Some]; intros Hx; destruct (proj2 (si_dom _ _ _ I w)) as [? Hs]; auto; congruence. }
  assert (w ∉ q) as Hwq by (intros Hx; apply (si_queue _ _ _ _ I) in Hx as [? Hx]; congruence).
  destruct I as [I1 I2 I3 I4 I5 I6 I7 I8]. split; simpl.
  - done.
  - intros x. destruct (decide (x ∈ w :: wl :: q)) as [Hin|Hn].
    + rewrite <- has_lookup. split; intros _.
      * apply elem_of_cons in Hin as [->|Hin]; [right; rewrite lookup_insert_eq; by eexists|].
        destruct (decide (x = w)) as [->|Hne]; [right; rewrite lookup_insert_eq; by eexists|].
        rewrite lookup_insert_ne by done. apply I2, has_lookup, (dll_has _ _ _ _ I1 Hin).
      * apply (dll_has _ _ _ _ Hd). rewrite !elem_of_cons, elem_of_app, elem_of_cons in *. tauto.
    + rewrite Hf by done. rewrite lookup_insert_ne; [apply I2|]. intros ->. apply Hn. left.
  - by rewrite lookup_insert_ne.
  - intros x Hx. destruct (decide (x = w)) as [->|Hne].
    + exists task. rewrite lookup_insert_eq. rewrite bool_decide_false; [done|].
      rewrite elem_of_app, elem_of_cons. tauto.
    + rewrite lookup_insert_ne in Hx by done. rewrite lookup_insert_ne by done.
      destruct (I4 x Hx) as [t Et]. exists t. rewrite Et. do 2 f_equal. apply bool_decide_ext.
      rewrite elem_of_app, elem_of_cons, elem_of_nil. tauto.
  - intros x Hx. destruct (decide (x = w)) as [->|Hne]; [by rewrite lookup_insert_eq in Hx|].
    rewrite lookup_insert_ne in Hx by done. rewrite lookup_insert_ne by done. by apply I5.
  - split; lia.
  - done.
  - rewrite granted_new by (by apply I5). lia.
Qed.

(** A waiter that has been granted the semaphore returns. *)
Lemma return_inv val wd q w k task : sem_inv val wd q -> sem_waiters (wd_sem wd) !! w = Some (task, true) ->
  sem_inv val (after_down wd w k (Returned 0) (pop_waiter (wd_sem wd) w)) q.
Proof.
  intros I Ew.
  assert (is_Some (wd_sleep wd !! w)) as Hsl.
  { destruct (wd_sleep wd !! w) eqn:E; [by eexists|]. rewrite (si_only _ _ _ I w E) in Ew. done. }
  destruct (si_waiters _ _ _ I w Hsl) as [t Et]. rewrite Et in Ew. injection Ew as -> Hq.
  apply bool_decide_eq_true in Hq.
  assert (w <> wl) as Hwl by (intros ->; rewrite (si_head _ _ _ I) in Hsl; by destruct Hsl).
  destruct I as [I1 I2 I3 I4 I5 I6 I7 I8]. split; simpl.
  - apply dll_delete; [done|]. rewrite elem_of_cons. tauto.
  - intros x. destruct (decide (x = w)) as [->|Hx].
    + rewrite !lookup_delete_eq. split; [by intros [? ?]|]. by intros [?|[? ?]].
    + rewrite !lookup_delete_ne by done. apply I2.
  - by rewrite lookup_delete_ne.
  - intros x Hx. destruct (decide (x = w)) as [->|Hne]; [by rewrite lookup_delete_eq in Hx; destruct Hx|].
    rewrite lookup_delete_ne in Hx by done. rewrite lookup_delete_ne by done. by apply I4.
  - intros x Hx. destruct (decide (x = w)) as [->|Hne]; [apply lookup_delete_eq|].
    rewrite lookup_delete_ne in Hx by done. rewrite lookup_delete_ne by done. by apply I5.
  - done.
  - lia.
  - rewrite (granted_delete _ _ _ _ Et). rewrite bool_decide_true by done. lia.
Qed.

Lemma up_inv val wd q : sem_inv val wd q -> val + wd_ups wd + 1 <= U32_MAX ->
  exists woken s', up wl (wd_sem wd) = Ret (woken, s')
    /\ sem_inv val (mk_world s' (wd_sleep wd) (wd_acquired wd) (wd_ups wd + 1)) (tail q)
    /\ (match q with
        | [] => woken = None
        | w :: _ => exists task, woken = Some task /\ sem_waiters s' !! w = Some (task, true)
        end).
Proof.
  intros I Hb. unfold up. rewrite (list_empty_spec _ _ _ (si_dll _ _ _ I)). cbn [obind].
  pose proof (granted_nonneg (sem_waiters (wd_sem wd))) as Hg.
  destruct q as [|w q].
  - eexists _, _. split; [reflexivity|]. split; [|done]. destruct I as [I1 I2 I3 I4 I5 I6 I7 I8].
    simpl. split; simpl; try done; rewrite u32_small; lia || (split; [lia|done]).
  - destruct (inv_waiting _ _ _ w I) as [task Ew]; [left|].
    unfold __up. rewrite (get_next_nx _ _ _ (dll_next _ _ _ (si_dll _ _ _ I))). cbn [obind hd].
    destruct (unlink_spec _ _ [] w q (si_dll _ _ _ I)) as (h' & -> & Hd & He & Hf). cbn [obind].
    rewrite Ew. cbn [obind]. eexists _, _. split; [reflexivity|].
    split; [|exists task; simpl; by rewrite lookup_insert_eq].
    destruct (nodup_entry wl [] w q (proj1 (si_dll _ _ _ I))) as [_ Hout]. simpl in Hout.
    pose proof (si_queue _ _ _ w I ltac:(left)) as Hsl.
    destruct I as [I1 I2 I3 I4 I5 I6 I7 I8]. simpl in *. split; simpl.
    + done.
    + intros x. rewrite <- I2. destruct (decide (x ∈ wl :: w :: q)) as [Hin|Hn]; [|by rewrite Hf].
      rewrite <- !has_lookup. split; intros _; [by apply (dll_has _ _ _ _ I1)|].
      destruct (decide (x = w)) as [->|Hne]; [done|]. apply (dll_has _ _ _ _ Hd).
      rewrite !elem_of_cons in *. tauto.
    + done.
    + intros x Hx. destruct (decide (x = w)) as [->|Hne].
      * exists task. rewrite lookup_insert_eq, bool_decide_true; [done|]. intros Hq. apply Hout. by right.
      * rewrite lookup_insert_ne by done. destruct (I4 x Hx) as [t Et]. exists t. rewrite Et. do 2 f_equal.
        apply bool_decide_ext. rewrite elem_of_cons. tauto.
    + intros x Hx. rewrite lookup_insert_ne; [by apply I5|]. intros ->. rewrite Hx in Hsl. by destruct Hsl.
    + split; [lia|]. intros Hc. destruct I6 as [_ I6]. by apply I6 in Hc.
    + done.
    + rewrite (granted_grant _ _ _ _ Ew). lia.
Qed.

Lemma trylock_inv val wd q r s : sem_inv val wd q -> sem_count (wd_sem wd) <= U32_MAX ->
  down_trylock (wd_sem wd) = (r, s) ->
  sem_inv val (mk_world s (wd_sleep wd) (if r =? 0 then wd_acquired wd + 1 else wd_acquired wd) (wd_ups wd)) q.
Proof.
  intros I Hb E. unfold down_trylock in E. injection E as <- <-.
  destruct (Z.leb_spec 0 (s32 (sem_count (wd_sem wd) - 1))) as [Hc|Hc].
  - rewrite (proj2 (Z.ltb_ge _ _) Hc). simpl.
    destruct (s32_nonneg (sem_count (wd_sem wd) - 1)) as [Hp ->]; [pose proof (proj1 (si_count _ _ _ I)); lia|done|].
    destruct I as [I1 I2 I3 I4 I5 I6 I7 I8]. split; simpl; try done; [split; [lia|]|lia..].
    intros _. apply I6. lia.
  - rewrite (proj2 (Z.ltb_lt _ _) Hc). simpl. destruct I. by split.
Qed.

(** Only which tasks sleep matters, not for how long. *)
Lemma sleep_again_inv val wd q w kt : sem_inv val wd q -> is_Some (wd_sleep wd !! w) ->
  sem_inv val (mk_world (wd_sem wd) (<[w := kt]> (wd_sleep wd)) (wd_acquired wd) (wd_ups wd)) q.
Proof.
  intros I Hw.
  assert (forall x, is_Some (<[w := kt]> (wd_sleep wd) !! x) <-> is_Some (wd_sleep wd !! x)) as Hs.
  { intros x. destruct (decide (x = w)) as [->|]; [|by rewrite lookup_insert_ne].
    rewrite lookup_insert_eq. split; [done|by eexists]. }
  destruct I as [I1 I2 I3 I4 I5 I6 I7 I8]. split; simpl; try done.
  - intros x. by rewrite Hs.
  - apply eq_None_not_Some. rewrite Hs. by apply eq_None_not_Some.
  - intros x Hx. apply I4. by apply Hs.
  - intros x Hx. apply I5. apply eq_None_not_Some in Hx. apply eq_None_not_Some. by rewrite <- Hs.
Qed.

(** What one turn of the loop of [__down_common] does to a waiter in the queue. *)
Definition turn (val : Z) (wd : world) (l1 : list Z) (w : Z) (l2 : list Z) (k : down_kind) (timeout : Z)
    (sg : signals) (r : down_result) (s : semaphore) : Prop :=
  (signal_pending_state (kind_state k) sg = true /\ r = Returned (- EINTR)
     /\ sem_inv val (after_down wd w k r s) (l1 ++ l2))
  \/ (signal_pending_state (kind_state k) sg = false /\ timeout <= 0 /\ r = Returned (- ETIME)
     /\ sem_inv val (after_down wd w k r s) (l1 ++ l2))
  \/ (signal_pending_state (kind_state k) sg = false /\ 0 < timeout /\ r = Asleep timeout
     /\ sem_inv val (after_down wd w k r s) (l1 ++ w :: l2)).

Lemma pass_spec val wd l1 w l2 k timeout sg : sem_inv val wd (l1 ++ w :: l2) ->
  exists r s, down_pass (wd_sem wd) w (kind_state k) timeout sg = Ret (r, s)
    /\ turn val wd l1 w l2 k timeout sg r s.
Proof.
  intros I. unfold down_pass, turn. destruct (signal_pending_state (kind_state k) sg) eqn:Es.
  - destruct (leave_inv val wd l1 w l2 k EINTR I) as (s' & E & I'); [done|]. eauto 8.
  - destruct (Z.leb_spec timeout 0) as [Ht|Ht].
    + destruct (leave_inv val wd l1 w l2 k ETIME I) as (s' & E & I'); [done|]. eauto 10.
    + eexists _, _. split; [reflexivity|]. right. right. split_and!; try done.
      apply sleep_again_inv; [done|]. apply (si_queue _ _ _ _ I), elem_of_app. right. left.
Qed.

Lemma wake_spec val wd q w k t j0 j1 sg : sem_inv val wd q -> wd_sleep wd !! w = Some (k, t) ->
  exists r s, down_wake (wd_sem wd) w (kind_state k) t j0 j1 sg = Ret (r, s)
    /\ (((w ∉ q) /\ r = Returned 0 /\ sem_inv val (after_down wd w k r s) q)
        \/ exists l1 l2, q = l1 ++ w :: l2 /\ turn val wd l1 w l2 k (schedule_timeout t j0 j1) sg r s).
Proof.
  intros I Hw. unfold down_wake. cbn zeta.
  destruct (si_waiters _ _ _ I w) as [task Ew]; [by eexists|]. rewrite Ew.
  destruct (decide (w ∈ q)) as [Hq|Hq].
  - rewrite bool_decide_false by tauto. destruct (queue_split w q Hq) as (l1 & l2 & ->).
    destruct (pass_spec val wd l1 w l2 k (schedule_timeout t j0 j1) sg I) as (r & s' & E & Ht). eauto 10.
  - rewrite bool_decide_true in Ew |- * by done. eexists _, _. split; [reflexivity|]. left.
    split_and!; try done. by eapply return_inv.
Qed.

(** All four calls are the same but for the state and the timeout. *)
Lemma call_down_eq k s w junk task sg : call_down wl k s w junk task sg =
  if 0 <? sem_count s then Ret (Returned 0, take_one s)
  else __down_common wl s w junk task (kind_state k) (kind_timeout k) sg.
Proof. by destruct k. Qed.

Lemma call_down_spec val wd q k w junk task sg : sem_inv val wd q -> sem_heap (wd_sem wd) !! w = None ->
  exists r s, call_down wl k (wd_sem wd) w junk task sg = Ret (r, s)
    /\ ((0 < sem_count (wd_sem wd) /\ r = Returned 0 /\ sem_inv val (after_down wd w k r s) q)
        \/ (sem_count (wd_sem wd) = 0
            /\ ((signal_pending_state (kind_state k) sg = true /\ r = Returned (- EINTR)
                   /\ sem_inv val (after_down wd w k r s) q)
                \/ (signal_pending_state (kind_state k) sg = false /\ kind_timeout k <= 0 /\ r = Returned (- ETIME)
                   /\ sem_inv val (after_down wd w k r s) q)
                \/ (signal_pending_state (kind_state k) sg = false /\ 0 < kind_timeout k
                   /\ r = Asleep (kind_timeout k) /\ sem_inv val (after_down wd w k r s) (q ++ [w]))))).
Proof.
  intros I Hw. rewrite call_down_eq.
  assert (wd_sleep wd !! w = None) as Hsl.
  { apply eq_None_not_Some. intros Hx. destruct (proj2 (si_dom _ _ _ I w)) as [? Hs]; [by right|congruence]. }
  destruct (Z.ltb_spec 0 (sem_count (wd_sem wd))) as [Hc|Hc].
  - eexists _, _. split; [reflexivity|]. left. split_and!; try done. unfold after_down, take_one. simpl.
    rewrite delete_id by done. destruct I as [I1 I2 I3 I4 I5 I6 I7 I8]. split; simpl; try done; [|lia|lia].
    split; [lia|]. intros _. by apply I6.
  - assert (sem_count (wd_sem wd) = 0) as Hz by (pose proof (proj1 (si_count _ _ _ I)); lia).
    unfold __down_common.
    destruct (enqueue_inv val wd q w junk task (k, kind_timeout k) I Hw Hz) as (h' & -> & I'). cbn [obind].
    match type of I' with sem_inv _ ?m _ => set (wd1 := m) in * end.
    destruct (pass_spec val wd1 q w [] k (kind_timeout k) sg I') as (r & s' & E & Ht).
    exists r, s'. split; [exact E|]. right. split; [done|]. unfold turn in Ht. rewrite app_nil_r in Ht.
    assert (after_down wd1 w k r s' = after_down wd w k r s') as Ea.
    { unfold after_down. destruct r; simpl; [by rewrite delete_insert_eq|by rewrite insert_insert_eq]. }
    rewrite Ea in Ht. exact Ht.
Qed.
End Inv.
