(* ===== verification/SemaphoreRun.v ===== *)
(** * Semaphores in every interleaving

    The properties of all runs of the step relation of [Semaphore]: counting,
    memory safety, what a wake-up returns, and bounded waiting. *)
From Stdlib Require Import ZArith Lia Bool.
From stdpp Require Import base numbers list gmap.
From S2P Require Import Prelude KList KListSpec Semaphore SemaphoreSpec.

(** The list at a head is determined by the store. *)
Lemma dll_functional h head xs ys : dll h head xs -> dll h head ys -> xs = ys.
Proof.
  intros Hx Hy.
  pose proof (list_for_each_spec h head xs (S (length xs + length ys)) Hx) as E1.
  pose proof (list_for_each_spec h head ys (S (length xs + length ys)) Hy) as E2.
  rewrite E1 in E2 by lia. specialize (E2 ltac:(lia)). by injection E2.
Qed.

Section Run.
Context (wl : Z).

(** What an event can do to the queue. *)
Definition queue_step (e : event) (q q' : list Z) : Prop :=
  match e with
  | EUp => q' = tail q
  | EDown w => q' = q \/ q' = q ++ [w]
  | EWake w => q' = q \/ exists l1 l2, q = l1 ++ w :: l2 /\ q' = l1 ++ l2
  | ETrylock => q' = q
  end.

Lemma after_down_ups wd w k r s : wd_ups (after_down wd w k r s) = wd_ups wd.
Proof. by destruct r. Qed.

Lemma step_inv val e wd wd' q : sem_inv wl val wd q -> sem_step wl e wd wd' -> val + wd_ups wd' <= U32_MAX ->
  wd_ups wd' = wd_ups wd + (if is_up e then 1 else 0)
  /\ exists q', sem_inv wl val wd' q' /\ queue_step e q q'.
Proof.
  intros I Hs Hb. destruct Hs as [wd k w junk task sg r s Hw E|wd k w t j0 j1 sg r s Hw E|wd r s E|wd woken s E].
  - split; [simpl; rewrite after_down_ups; lia|].
    destruct (call_down_spec wl val wd q k w junk task sg I Hw) as (r' & s' & E' & Hr).
    rewrite E in E'. injection E' as <- <-. simpl.
    destruct Hr as [(_ & _ & I')|(_ & [(_ & _ & I')|[(_ & _ & _ & I')|(_ & _ & _ & I')]])]; eauto.
  - split; [simpl; rewrite after_down_ups; lia|].
    destruct (wake_spec wl val wd q w k t j0 j1 sg I Hw) as (r' & s' & E' & Hr).
    rewrite E in E'. injection E' as <- <-. simpl.
    destruct Hr as [(_ & _ & I')|(l1 & l2 & -> & [(_ & _ & I')|[(_ & _ & _ & I')|(_ & _ & _ & I')]])]; eauto 8.
  - split; [simpl; lia|]. exists q. split; [|done]. eapply trylock_inv; try done.
    pose proof (si_total _ _ _ _ I). pose proof (si_acquired _ _ _ _ I).
    pose proof (granted_nonneg (sem_waiters (wd_sem wd))). simpl in Hb. lia.
  - split; [done|]. simpl in Hb. destruct (up_inv wl val wd q I) as (r' & s' & E' & I' & _); [lia|].
    rewrite E in E'. injection E' as <- <-. by exists (tail q).
Qed.

Lemma ups_cons e es : Z.of_nat (ups (e :: es)) = (if is_up e then 1 else 0) + Z.of_nat (ups es).
Proof. unfold ups. simpl. destruct (is_up e); simpl; lia. Qed.

Lemma run_ups val es wd wd' q : sem_inv wl val wd q -> sem_run wl es wd wd' ->
  val + wd_ups wd + Z.of_nat (ups es) <= U32_MAX ->
  wd_ups wd' = wd_ups wd + Z.of_nat (ups es) /\ exists q', sem_inv wl val wd' q'.
Proof.
  intros I Hr. revert q I. induction Hr as [wd|e es a b c Hs Hr IH]; intros q I Hb.
  - unfold ups. simpl. split; [lia|by exists q].
  - rewrite ups_cons in *.
    assert (wd_ups b = wd_ups a + (if is_up e then 1 else 0)) as Eb
      by (destruct Hs; simpl; rewrite ?after_down_ups; lia).
    destruct (step_inv val e a b q I Hs) as [_ (q' & I' & _)]; [lia|].
    destruct (IH q' I') as [E I2]; [lia|]. split; [lia|done].
Qed.

Lemma reach_inv val es wd : 0 <= val -> sem_run wl es (sem_start wl val) wd ->
  val + Z.of_nat (ups es) <= U32_MAX ->
  wd_ups wd = Z.of_nat (ups es) /\ exists q, sem_inv wl val wd q.
Proof.
  intros Hv Hr Hb. destruct (run_ups val es (sem_start wl val) wd []) as [E I].
  - apply start_inv. lia.
  - done.
  - simpl. lia.
  - simpl in E. split; [lia|done].
Qed.

(** Without a timeout of its own a task sleeps without limit. *)
Lemma run_unlimited es wd wd' : sem_run wl es wd wd' ->
  (forall w k t, wd_sleep wd !! w = Some (k, t) -> (forall d, k <> KTimeout d) -> t = MAX_SCHEDULE_TIMEOUT) ->
  (forall w k t, wd_sleep wd' !! w = Some (k, t) -> (forall d, k <> KTimeout d) -> t = MAX_SCHEDULE_TIMEOUT).
Proof.
  intros Hr. induction Hr as [wd|e es a b c Hs Hr IH]; [done|]. intros Ha. apply IH. clear IH Hr.
  assert (forall w k r s, (forall t, r = Asleep t -> (forall d, k <> KTimeout d) -> t = MAX_SCHEDULE_TIMEOUT) ->
    forall w' k' t', wd_sleep (after_down a w k r s) !! w' = Some (k', t') -> (forall d, k' <> KTimeout d) ->
    t' = MAX_SCHEDULE_TIMEOUT) as Hafter.
  { intros w k r s Hk w' k' t' E Hd. destruct r as [res|t]; simpl in E.
    - apply lookup_delete_Some in E as [_ E]. by eapply Ha.
    - apply lookup_insert_Some in E as [[_ [= -> ->]]|[_ E]]; [by apply Hk|by eapply Ha]. }
  assert (forall s w state t sg t' s', down_pass s w state t sg = Ret (Asleep t', s') -> t' = t) as Hpass.
  { intros s w state t sg t' s' E. unfold down_pass, leave_queue in E.
    repeat (case_match; try discriminate E); try (by injection E as <- _);
      destruct (list_del (sem_heap s) w); discriminate E. }
  destruct Hs as [wd k w junk task sg r s Hw E|wd k w t j0 j1 sg r s Hw E|wd r s E|wd woken s E]; try done.
  - apply Hafter. intros t -> Hd. rewrite call_down_eq in E. destruct (_ <? _); [discriminate E|].
    unfold __down_common in E. destruct (list_add_tail _ _ _); try discriminate E. cbn [obind] in E.
    apply Hpass in E as ->. destruct k; done || (by destruct (Hd timeout)).
  - apply Hafter. intros t' -> Hd. unfold down_wake in E. cbn zeta in E. repeat (case_match; try discriminate E).
    apply Hpass in E as ->. by rewrite (Ha w k t Hw Hd).
Qed.

(** The waiter [w] has been granted the semaphore, or fewer than [n] waiters
    are before it. *)
Definition turn_within (n : nat) (w : Z) (wd : world) (q : list Z) : Prop :=
  is_Some (wd_sleep wd !! w)
  /\ ((w ∉ q) \/ exists l1 l2, q = l1 ++ w :: l2 /\ (length l1 < n)%nat).

Lemma sleep_other wd w w' k r s : w' <> w ->
  wd_sleep (after_down wd w' k r s) !! w = wd_sleep wd !! w.
Proof. intros Hne. destruct r; simpl; [by apply lookup_delete_ne|by apply lookup_insert_ne]. Qed.

(** Steps of others do not move a waiter back; a release moves it forward. *)
Lemma turn_step val e wd wd' q q' n w : sem_inv wl val wd q -> sem_step wl e wd wd' -> queue_step e q q' ->
  e <> EWake w -> turn_within n w wd q -> turn_within (if is_up e then n - 1 else n) w wd' q'.
Proof.
  intros I Hs Hq He [Hsl Ht].
  assert (e <> EDown w) as Hd.
  { intros ->. inversion Hs as [wd0 k w0 junk task sg r s Hw| | |]; subst.
    destruct (proj2 (si_dom _ _ _ _ I w)) as [? Hx]; [by right|congruence]. }
  assert (is_Some (wd_sleep wd' !! w)) as Hsl'.
  { destruct Hs as [wd k w' junk task sg r s Hw E|wd k w' t j0 j1 sg r s Hw E|wd r s E|wd woken s E]; try done;
      (rewrite sleep_other; [done|congruence]). }
  split; [done|]. destruct e as [w'|w'| |]; simpl in *.
  - destruct Hq as [->| ->]; [done|]. destruct Ht as [Ht|(l1 & l2 & -> & Hl)].
    + left. rewrite elem_of_app, list_elem_of_singleton. intros [?|?]; congruence.
    + right. exists l1, (l2 ++ [w']). by rewrite <- app_assoc.
  - destruct Hq as [->|(m1 & m2 & -> & ->)]; [done|]. destruct Ht as [Ht|(l1 & l2 & E & Hl)].
    + left. rewrite elem_of_app in *. rewrite elem_of_cons in Ht. tauto.
    + right. assert (w <> w') as Hww by congruence.
      apply app_eq_inv in E as [(m & -> & E)|(m & -> & E)]; destruct m as [|x m]; simplify_eq/=.
      * exists l1, (m ++ m2). by rewrite <- app_assoc.
      * exists (m1 ++ m), l2. rewrite <- app_assoc. split; [done|]. rewrite !length_app in *. simpl in Hl. lia.
  - by subst q'.
  - subst q'. destruct Ht as [Ht|(l1 & l2 & -> & Hl)].
    + left. destruct q; [done|]. simpl. rewrite elem_of_cons in Ht. tauto.
    + destruct (si_dll _ _ _ _ I) as [Hnd _]. destruct l1 as [|x l1]; simpl in *.
      * left. apply NoDup_cons in Hnd as [_ Hnd]. by apply NoDup_cons in Hnd as [? _].
      * right. exists l1, l2. split; [done|lia].
Qed.

Lemma turn_run val es wd wd' q n w : sem_inv wl val wd q -> sem_run wl es wd wd' ->
  val + wd_ups wd + Z.of_nat (ups es) <= U32_MAX -> EWake w ∉ es -> turn_within n w wd q ->
  exists q', sem_inv wl val wd' q' /\ turn_within (n - ups es) w wd' q'.
Proof.
  intros I Hr. revert q n I. induction Hr as [wd|e es a b c Hs Hr IH]; intros q n I Hb Hw Ht.
  { exists q. unfold ups. simpl. by rewrite Nat.sub_0_r. }
  rewrite not_elem_of_cons in Hw. destruct Hw as [He Hw]. rewrite ups_cons in Hb.
  assert (wd_ups b = wd_ups a + (if is_up e then 1 else 0)) as Eb
    by (destruct Hs; simpl; rewrite ?after_down_ups; lia).
  destruct (step_inv val e a b q I Hs) as [_ (q1 & I1 & Hq)]; [lia|].
  pose proof (turn_step val e a b q q1 n w I Hs Hq ltac:(congruence) Ht) as Ht1.
  destruct (IH q1 _ I1 ltac:(lia) Hw Ht1) as (q2 & I2 & Ht2). exists q2. split; [done|].
  replace (n - ups (e :: es))%nat with ((if is_up e then n - 1 else n) - ups es)%nat; [done|].
  unfold ups. simpl. destruct (is_up e); simpl; lia.
Qed.

(** C35: in every interleaving of down in all its variants, down_trylock, up,
    signals and timeouts, the count, the downs that succeeded and the waiters
    that up has handed the semaphore to add up to the initial value and the
    calls of up; the count is positive only when nobody waits; and every next
    critical section returns, so none touches the waiter of a task that has
    left. *)
Theorem semaphore_accounting val es wd : 0 <= val -> sem_run wl es (sem_start wl val) wd ->
  val + Z.of_nat (ups es) < U32_MAX ->
  sem_count (wd_sem wd) + wd_acquired wd + granted (sem_waiters (wd_sem wd)) = val + Z.of_nat (ups es)
  /\ (0 < sem_count (wd_sem wd) -> list_empty (sem_heap (wd_sem wd)) wl = Ret true)
  /\ (exists woken s, up wl (wd_sem wd) = Ret (woken, s))
  /\ (forall k w junk task sg, sem_heap (wd_sem wd) !! w = None ->
         exists r s, call_down wl k (wd_sem wd) w junk task sg = Ret (r, s))
  /\ (forall w k t j0 j1 sg, wd_sleep wd !! w = Some (k, t) ->
         exists r s, down_wake (wd_sem wd) w (kind_state k) t j0 j1 sg = Ret (r, s)).
Proof.
  intros Hv Hr Hb. destruct (reach_inv val es wd Hv Hr) as [E (q & I)]; [lia|]. split_and!.
  - rewrite <- E. apply I.
  - intros Hc. rewrite (list_empty_spec _ _ _ (si_dll _ _ _ _ I)).
    by rewrite (proj2 (si_count _ _ _ _ I) Hc).
  - destruct (up_inv wl val wd q I) as (r & s & Eu & _); [lia|]. eauto.
  - intros k w junk task sg Hw. destruct (call_down_spec wl val wd q k w junk task sg I Hw) as (r & s & Ec & _). eauto.
  - intros w k t j0 j1 sg Hw. destruct (wake_spec wl val wd q w k t j0 j1 sg I Hw) as (r & s & Ec & _). eauto.
Qed.

(** C36: a waiter is served after as many releases as there are waiters before
    it and one more, whatever the other tasks do in between: newcomers,
    trylocks, other waiters that give up.  From then on its next wake-up
    returns 0, even when a signal is pending or its timeout has passed. *)
Theorem semaphore_bounded_wait val es wd l1 w l2 es' wd' : 0 <= val -> sem_run wl es (sem_start wl val) wd ->
  dll (sem_heap (wd_sem wd)) wl (l1 ++ w :: l2) ->
  sem_run wl es' wd wd' -> EWake w ∉ es' -> (length l1 < ups es')%nat ->
  val + Z.of_nat (ups es) + Z.of_nat (ups es') <= U32_MAX ->
  forall state timeout j0 j1 sg,
    exists s, down_wake (wd_sem wd') w state timeout j0 j1 sg = Ret (Returned 0, s).
Proof.
  intros Hv Hr Hd Hr' Hw Hl Hb state timeout j0 j1 sg.
  destruct (reach_inv val es wd Hv Hr) as [E (q & I)]; [lia|].
  pose proof (dll_functional _ _ _ _ (si_dll _ _ _ _ I) Hd) as ->.
  destruct (turn_run val es' wd wd' _ (S (length l1)) w I Hr') as (q' & I' & [Hsl Ht]); [lia|done| |].
  { split; [apply (si_queue _ _ _ _ _ I), elem_of_app; right; left|]. right. exists l1, l2. split; [done|lia]. }
  destruct Ht as [Ht|(m1 & m2 & _ & Hm)]; [|lia].
  destruct (si_waiters _ _ _ _ I' w Hsl) as [task Ew]. unfold down_wake. cbn zeta. rewrite Ew.
  rewrite bool_decide_true by done. by eexists.
Qed.

Lemma signal_kind k sg : signal_pending_state (kind_state k) sg = true ->
  sg_pending sg = true /\ (k = KInterruptible \/ k = KKillable /\ sg_fatal sg = true).
Proof.
  destruct k, sg as [[] []]; intros E; vm_compute in E; try discriminate E; simpl; auto.
Qed.

Lemma pass_state s w state t sg r s' : down_pass s w state t sg = Ret (r, s') ->
  sem_count s' = sem_count s /\ (forall t', r = Asleep t' -> s' = s).
Proof.
  intros E. unfold down_pass, leave_queue in E.
  repeat case_match; try (by injection E as <- <-);
    (destruct (list_del (sem_heap s) w); try discriminate E; by injection E as <- <-).
Qed.

Lemma wake_state s w state t j0 j1 sg r s' : down_wake s w state t j0 j1 sg = Ret (r, s') ->
  sem_count s' = sem_count s /\ (forall t', r = Asleep t' -> s' = s).
Proof.
  intros E. unfold down_wake in E. cbn zeta in E. repeat case_match; try discriminate E.
  - by injection E as <- <-.
  - by eapply pass_state.
Qed.

(** C37: what a wake-up can return.  0 is returned exactly when up has handed the
    semaphore over.  Otherwise -EINTR is returned only to a call that takes the
    signal, -ETIME only to down_timeout, and then the waiter is off the list,
    the others keep their order and the count is unchanged; or the task sleeps
    again.  In particular down never fails. *)
Theorem semaphore_wake_results val es wd w k t j0 j1 sg : 0 <= val -> sem_run wl es (sem_start wl val) wd ->
  val + Z.of_nat (ups es) <= U32_MAX -> wd_sleep wd !! w = Some (k, t) ->
  exists task up r s, sem_waiters (wd_sem wd) !! w = Some (task, up)
    /\ down_wake (wd_sem wd) w (kind_state k) t j0 j1 sg = Ret (r, s)
    /\ sem_count s = sem_count (wd_sem wd)
    /\ (up = true /\ r = Returned 0
        \/ up = false /\ exists l1 l2, dll (sem_heap (wd_sem wd)) wl (l1 ++ w :: l2)
           /\ ((r = Returned (- EINTR) /\ sg_pending sg = true
                  /\ (k = KInterruptible \/ k = KKillable /\ sg_fatal sg = true)
                  /\ dll (sem_heap s) wl (l1 ++ l2))
               \/ (r = Returned (- ETIME) /\ (exists d, k = KTimeout d) /\ dll (sem_heap s) wl (l1 ++ l2))
               \/ (exists t', r = Asleep t' /\ 0 < t' /\ s = wd_sem wd))).
Proof.
  intros Hv Hr Hb Hw. destruct (reach_inv val es wd Hv Hr) as [_ (q & I)]; [lia|].
  assert ((forall d, k <> KTimeout d) -> t = MAX_SCHEDULE_TIMEOUT) as Hmax.
  { intros Hd. eapply (run_unlimited es _ _ Hr); try done. }
  destruct (si_waiters _ _ _ _ I w) as [task Ew]; [by eexists|].
  destruct (wake_spec wl val wd q w k t j0 j1 sg I Hw) as (r & s & E & Hres).
  exists task, (bool_decide (w ∉ q)), r, s. split_and!; try done.
  - by apply wake_state in E as [? _].
  - destruct Hres as [(Hq & -> & _)|(l1 & l2 & -> & Ht)].
    { left. by rewrite bool_decide_true. }
    right. rewrite bool_decide_false by (intros Hn; apply Hn, elem_of_app; right; left).
    split; [done|]. exists l1, l2. split; [apply I|].
    destruct Ht as [(Hsg & -> & I')|[(_ & Hto & -> & I')|(_ & Hto & -> & _)]].
    + left. split; [done|]. apply signal_kind in Hsg as [Hp Hk]. split_and!; try done. apply I'.
    + right. left. split_and!; [done| |apply I']. destruct k; eauto; rewrite Hmax in Hto; done.
    + right. right. exists (schedule_timeout t j0 j1). split_and!; try done. apply wake_state in E as [_ E]. by eapply E.
Qed.
End Run.

(** ** A concrete run

    One task takes a semaphore of value 1, two more queue up behind it and the
    semaphore is released twice. *)
Section Example.
Definition no_signals : signals := mk_signals false false.

(** The world after a down, for calls that return. *)
Definition do_down (wl : Z) (wd : world) (k : down_kind) (w task : Z) : world :=
  match call_down wl k (wd_sem wd) w (0, 0) task no_signals with
  | Ret (r, s) => after_down wd w k r s
  | _ => wd
  end.

Definition do_up (wl : Z) (wd : world) : world :=
  match up wl (wd_sem wd) with
  | Ret (_, s) => mk_world s (wd_sleep wd) (wd_acquired wd) (wd_ups wd + 1)
  | _ => wd
  end.

Lemma do_down_step wl wd k w task : sem_heap (wd_sem wd) !! w = None ->
  (exists r s, call_down wl k (wd_sem wd) w (0, 0) task no_signals = Ret (r, s)) ->
  sem_step wl (EDown w) wd (do_down wl wd k w task).
Proof. intros Hw (r & s & E). unfold do_down. rewrite E. by eapply step_down. Qed.

Lemma do_up_step wl wd : (exists r s, up wl (wd_sem wd) = Ret (r, s)) -> sem_step wl EUp wd (do_up wl wd).
Proof. intros (r & s & E). unfold do_up. rewrite E. by eapply step_up. Qed.

Definition ex1 : world := do_down 1000 (sem_start 1000 1) KDown 10 1.
Definition ex2 : world := do_down 1000 ex1 KInterruptible 20 2.
Definition ex3 : world := do_down 1000 ex2 KDown 30 3.
Definition ex4 : world := do_up 1000 ex3.
Definition ex5 : world := do_up 1000 ex4.

Lemma ex3_run : sem_run 1000 [EDown 10; EDown 20; EDown 30] (sem_start 1000 1) ex3.
Proof.
  apply (run_cons _ _ _ _ ex1); [apply do_down_step; [reflexivity|eexists _, _; reflexivity]|].
  apply (run_cons _ _ _ _ ex2); [apply do_down_step; [reflexivity|eexists _, _; reflexivity]|].
  apply (run_cons _ _ _ _ ex3); [apply do_down_step; [reflexivity|eexists _, _; reflexivity]|].
  apply run_nil.
Qed.

Lemma ex5_run : sem_run 1000 [EUp; EUp] ex3 ex5.
Proof.
  apply (run_cons _ _ _ _ ex4); [apply do_up_step; eexists _, _; reflexivity|].
  apply (run_cons _ _ _ _ ex5); [apply do_up_step; eexists _, _; reflexivity|].
  apply run_nil.
Qed.

Lemma ex3_queue : dll (sem_heap (wd_sem ex3)) 1000 [20; 30].
Proof.
  split; [apply (bool_decide_unpack _); reflexivity|]. repeat (split; [split; reflexivity|]). done.
Qed.

Lemma semaphore_accounting_witness :
  wd_acquired ex3 = 1 /\
  sem_count (wd_sem ex3) + wd_acquired ex3 + granted (sem_waiters (wd_sem ex3)) = 1 + 0.
Proof.
  split; [reflexivity|].
  exact (proj1 (semaphore_accounting 1000 1 [EDown 10; EDown 20; EDown 30] ex3 ltac:(lia) ex3_run
                  ltac:(vm_compute; reflexivity))).
Defined.

Lemma semaphore_bounded_wait_witness :
  exists s, down_wake (wd_sem ex5) 30 TASK_UNINTERRUPTIBLE MAX_SCHEDULE_TIMEOUT 0 9 (mk_signals true true)
            = Ret (Returned 0, s).
Proof.
  apply (semaphore_bounded_wait 1000 1 [EDown 10; EDown 20; EDown 30] ex3 [20] 30 [] [EUp; EUp] ex5);
    [lia|exact ex3_run|exact ex3_queue|exact ex5_run| |vm_compute; lia|vm_compute; discriminate].
  rewrite !elem_of_cons, elem_of_nil. intros [E|[E|[]]]; discriminate E.
Defined.

Lemma semaphore_wake_results_witness :
  exists r s, down_wake (wd_sem ex3) 20 TASK_INTERRUPTIBLE MAX_SCHEDULE_TIMEOUT 0 5 (mk_signals true false) = Ret (r, s)
    /\ r = Returned (- EINTR).
Proof.
  destruct (semaphore_wake_results 1000 1 [EDown 10; EDown 20; EDown 30] ex3 20 KInterruptible
              MAX_SCHEDULE_TIMEOUT 0 5 (mk_signals true false) ltac:(lia) ex3_run
              ltac:(vm_compute; discriminate) ltac:(reflexivity)) as (task & u & r & s & _ & E & _).
  exists r, s. split; [exact E|]. vm_compute in E. injection E as <- _. reflexivity.
Defined.
End Example.
