(* ===== verification/HeapSort.v ===== *)
(** * Heap sort of a sequence

    The reference for lib/sort.c: sifting down, building the heap and taking
    the maximum off it, on a list with indices, and that the result is sorted
    and a permutation. *)
From Stdlib Require Import ZArith Lia Bool Sorting.Sorted.
From stdpp Require Import base numbers list.
From S2P Require Import Prelude.

(** A comparison function as [sort] and [bsearch] want it. *)
Class Comparison {A} (cmp : A -> A -> Z) : Prop := {
  cmp_opp a b : cmp a b <= 0 <-> 0 <= cmp b a;
  cmp_le_trans a b c : cmp a b <= 0 -> cmp b c <= 0 -> cmp a c <= 0
}.

Section HeapSort.
Context {A : Type} `{Inhabited A} (cmp : A -> A -> Z).

Definition swap_at (xs : list A) (i j : nat) : list A := <[i := xs !!! j]> (<[j := xs !!! i]> xs).

(** The child of [r] to compare with. *)
Definition larger_child (xs : list A) (n r : nat) : nat :=
  if (2 * r + 2 <? n)%nat && (cmp (xs !!! (2 * r + 1)%nat) (xs !!! (2 * r + 2)%nat) <? 0)
  then (2 * r + 2)%nat else (2 * r + 1)%nat.

Fixpoint sift (fuel : nat) (xs : list A) (n r : nat) : list A :=
  match fuel with
  | O => xs
  | S fuel' =>
      if (2 * r + 1 <? n)%nat then
        let c := larger_child xs n r in
        if 0 <=? cmp (xs !!! r) (xs !!! c) then xs else sift fuel' (swap_at xs r c) n c
      else xs
  end.

(** The roots below [m], from the last to the first. *)
Fixpoint build (m : nat) (xs : list A) : list A :=
  match m with
  | O => xs
  | S i => build i (sift (S (length xs)) xs (length xs) i)
  end.

Fixpoint drain (i : nat) (xs : list A) : list A :=
  match i with
  | O => xs
  | S i' => drain i' (sift (S (length xs)) (swap_at xs 0 i) i 0)
  end.

Definition heap_sort (xs : list A) : list A := drain (length xs - 1) (build (length xs / 2) xs).

(** ** Swapping *)

Lemma swap_length xs i j : length (swap_at xs i j) = length xs.
Proof. unfold swap_at. by rewrite !length_insert. Qed.

Lemma swap_lookup xs i j k : (i < length xs)%nat -> (j < length xs)%nat ->
  swap_at xs i j !!! k = if decide (k = i) then xs !!! j else if decide (k = j) then xs !!! i else xs !!! k.
Proof.
  intros Hi Hj. unfold swap_at. repeat case_decide; subst.
  - apply list_lookup_total_insert_eq. by rewrite length_insert.
  - rewrite list_lookup_total_insert_ne by done. by apply list_lookup_total_insert_eq.
  - by rewrite !list_lookup_total_insert_ne.
Qed.

Lemma swap_split xs i j : (i < j)%nat -> (j < length xs)%nat ->
  exists P Q R, xs = P ++ (xs !!! i) :: Q ++ (xs !!! j) :: R /\ length P = i /\ (i + 1 + length Q)%nat = j
    /\ swap_at xs i j = P ++ (xs !!! j) :: Q ++ (xs !!! i) :: R.
Proof.
  intros Hij Hj. destruct (lookup_lt_is_Some_2 xs j Hj) as [y Ey].
  destruct (list_elem_of_split_length _ _ _ Ey) as (PQ & R & -> & ->).
  destruct (lookup_lt_is_Some_2 PQ i Hij) as [x Ex].
  destruct (list_elem_of_split_length _ _ _ Ex) as (P & Q & -> & ->).
  assert (((P ++ x :: Q) ++ y :: R) !!! length P = x) as E1.
  { apply list_lookup_total_correct. rewrite <- app_assoc. by apply list_lookup_middle. }
  assert (((P ++ x :: Q) ++ y :: R) !!! length (P ++ x :: Q) = y) as E2.
  { apply list_lookup_total_correct. by apply list_lookup_middle. }
  exists P, Q, R. unfold swap_at. rewrite E1, E2, <- app_assoc. split_and!; try done.
  - rewrite length_app. simpl. lia.
  - simpl app. rewrite app_comm_cons, app_assoc, insert_app_r_alt, Nat.sub_diag by lia. simpl.
    rewrite <- app_assoc, insert_app_r_alt, Nat.sub_diag by lia. done.
Qed.

Lemma swap_perm xs i j : (i < j)%nat -> (j < length xs)%nat -> swap_at xs i j ≡ₚ xs.
Proof.
  intros Hij Hj. destruct (swap_split xs i j Hij Hj) as (P & Q & R & E & _ & _ & ->).
  revert E. generalize (xs !!! i) (xs !!! j). intros x y ->. solve_Permutation.
Qed.

Lemma sift_perm fuel xs n r : (n <= length xs)%nat -> sift fuel xs n r ≡ₚ xs.
Proof.
  revert xs r. induction fuel as [|fuel IH]; intros xs r Hn; [done|]. cbn [sift]. cbn zeta.
  destruct (Nat.ltb_spec (2 * r + 1) n) as [Hr|]; [|done]. destruct (0 <=? _); [done|].
  assert (r < larger_child xs n r < n)%nat as Hrc.
  { unfold larger_child. destruct (Nat.ltb_spec (2 * r + 2) n); cbn [andb]; [destruct (_ <? 0)|]; lia. }
  rewrite IH by (by rewrite swap_length). apply swap_perm; lia.
Qed.

Lemma build_perm m xs : build m xs ≡ₚ xs.
Proof. revert xs. induction m as [|m IH]; intros xs; [done|]. cbn [build]. rewrite IH. by apply sift_perm. Qed.

(** ** Heaps *)

Definition child (i j : nat) : Prop := (j = 2 * i + 1 \/ j = 2 * i + 2)%nat.

(** Among the first [n] entries no child of an entry from [k] on is larger than
    its parent. *)
Definition is_heap (k n : nat) (xs : list A) : Prop :=
  forall i j, (k <= i)%nat -> child i j -> (j < n)%nat -> cmp (xs !!! j) (xs !!! i) <= 0.

(** The same but for the children of [r], which are not larger than its parent. *)
Definition heap_but (k n r : nat) (xs : list A) : Prop :=
  (forall i j, (k <= i)%nat -> i <> r -> child i j -> (j < n)%nat -> cmp (xs !!! j) (xs !!! i) <= 0)
  /\ (forall p j, (k <= p)%nat -> child p r -> child r j -> (j < n)%nat -> cmp (xs !!! j) (xs !!! p) <= 0).

Context `{!Comparison cmp}.

Lemma cmp_le_refl a : cmp a a <= 0.
Proof. destruct (Z_le_gt_dec (cmp a a) 0); [done|]. apply cmp_opp. lia. Qed.

Lemma cmp_le_of_ge a b : 0 <= cmp a b -> cmp b a <= 0.
Proof. apply cmp_opp. Qed.

Lemma larger_child_spec xs n r : (2 * r + 1 < n)%nat ->
  let c := larger_child xs n r in
  child r c /\ (r < c < n)%nat /\ (forall j, child r j -> (j < n)%nat -> cmp (xs !!! j) (xs !!! c) <= 0).
Proof.
  intros Hr c. unfold c, larger_child, child.
  destruct (Nat.ltb_spec (2 * r + 2) n) as [H2|H2]; cbn [andb].
  - destruct (Z.ltb_spec (cmp (xs !!! (2 * r + 1)%nat) (xs !!! (2 * r + 2)%nat)) 0) as [Hc|Hc];
      (split; [lia|]); (split; [lia|]); intros j [->| ->] Hj; try apply cmp_le_refl; [lia|by apply cmp_le_of_ge].
  - split; [lia|]. split; [lia|]. intros j [->| ->] Hj; [apply cmp_le_refl|lia].
Qed.

Lemma heap_but_done k n r xs : heap_but k n r xs ->
  (forall j, child r j -> (j < n)%nat -> cmp (xs !!! j) (xs !!! r) <= 0) -> is_heap k n xs.
Proof. intros [H1 _] Hr i j Hk Hc Hj. destruct (decide (i = r)) as [->|]; auto. Qed.

Lemma heap_but_down k n r c xs : heap_but k n r xs -> (n <= length xs)%nat -> child r c -> (r < c < n)%nat ->
  (forall j, child r j -> (j < n)%nat -> cmp (xs !!! j) (xs !!! c) <= 0) -> cmp (xs !!! r) (xs !!! c) <= 0 ->
  (k <= r)%nat -> heap_but k n c (swap_at xs r c).
Proof.
  intros [H1 H2] Hn Hc Hrc Hmax Hle Hk. unfold child in *. split.
  - intros i j Hi Hne Hch Hj. unfold child in Hch. rewrite !swap_lookup by lia. repeat case_decide; try lia.
    + apply (H2 i c); lia.
    + apply Hmax; lia.
    + apply H1; lia.
  - intros p j Hp Hpc Hcj Hj. unfold child in *. assert (p = r) as -> by lia. rewrite !swap_lookup by lia.
    repeat case_decide; try lia. apply H1; lia.
Qed.

Lemma sift_length fuel xs n r : length (sift fuel xs n r) = length xs.
Proof.
  revert xs r. induction fuel as [|fuel IH]; intros xs r; simpl; [done|].
  repeat case_match; try done. by rewrite IH, swap_length.
Qed.

(** Sifting down restores the heap, rearranges the first [n] entries and leaves
    the others alone. *)
Lemma sift_spec fuel k xs n r : heap_but k n r xs -> (n <= length xs)%nat -> (k <= r)%nat -> (n - r < fuel)%nat ->
  is_heap k n (sift fuel xs n r) /\ sift fuel xs n r ≡ₚ xs
  /\ (forall i, (n <= i)%nat -> sift fuel xs n r !!! i = xs !!! i)
  /\ (forall P : A -> Prop, (forall i, (i < n)%nat -> P (xs !!! i)) -> forall i, (i < n)%nat -> P (sift fuel xs n r !!! i)).
Proof.
  revert xs r. induction fuel as [|fuel IH]; intros xs r Hh Hn Hk Hf; [lia|]. cbn [sift]. cbn zeta.
  destruct (Nat.ltb_spec (2 * r + 1) n) as [Hr|Hr].
  2:{ split_and!; try done. eapply heap_but_done; [done|]. intros j Hj. unfold child in Hj. lia. }
  destruct (larger_child_spec xs n r Hr) as (Hc & Hrc & Hmax). set (c := larger_child xs n r) in *.
  destruct (Z.leb_spec 0 (cmp (xs !!! r) (xs !!! c))) as [Hge|Hlt].
  - split_and!; try done. eapply heap_but_done; [done|]. intros j Hj Hjn.
    eapply cmp_le_trans; [by apply Hmax|by apply cmp_le_of_ge].
  - destruct (IH (swap_at xs r c) c) as (I1 & I2 & I3 & I4).
    + by apply heap_but_down; [..|lia|].
    + by rewrite swap_length.
    + lia.
    + lia.
    + split_and!; [done| | |].
      * rewrite I2. apply swap_perm; lia.
      * intros i Hi. rewrite I3, swap_lookup by lia. repeat case_decide; lia || done.
      * intros P HP. apply I4. intros i Hi. rewrite swap_lookup by lia. repeat case_decide; apply HP; lia.
Qed.

Lemma build_spec m xs : (m <= length xs)%nat -> is_heap m (length xs) xs ->
  is_heap 0 (length xs) (build m xs) /\ build m xs ≡ₚ xs.
Proof.
  revert xs. induction m as [|m IH]; intros xs Hm Hh; [done|]. cbn [build].
  destruct (sift_spec (S (length xs)) m xs (length xs) m) as (I1 & I2 & _ & _); [|lia|lia|lia|].
  - split.
    + intros i j Hi Hne Hc Hj. apply Hh; [lia|done|done].
    + intros p j Hp Hpc. unfold child in Hpc. lia.
  - destruct (IH (sift (S (length xs)) xs (length xs) m)) as [J1 J2];
      rewrite ?sift_length in *; [lia|done|]. split; [done|]. by rewrite J2.
Qed.

(** The root of a heap is a maximum. *)
Lemma heap_root n xs j : is_heap 0 n xs -> (j < n)%nat -> cmp (xs !!! j) (xs !!! 0%nat) <= 0.
Proof.
  intros Hh. induction j as [j IH] using (well_founded_induction lt_wf). intros Hj.
  destruct (decide (j = 0%nat)) as [->|Hne]; [apply cmp_le_refl|].
  eapply cmp_le_trans; [apply (Hh ((j - 1) / 2)%nat j); [lia| |done]|].
  - unfold child. pose proof (Nat.div_mod_eq (j - 1) 2). pose proof (Nat.mod_upper_bound (j - 1) 2). lia.
  - apply IH; [|pose proof (Nat.Div0.div_le_upper_bound (j - 1) 2 j)];
      pose proof (Nat.Div0.div_lt_upper_bound (j - 1) 2 j); lia.
Qed.

(** The entries from [i] on are in their place. *)
Definition placed (i : nat) (xs : list A) : Prop :=
  forall a b, (a < b)%nat -> (i <= b)%nat -> (b < length xs)%nat -> cmp (xs !!! a) (xs !!! b) <= 0.

Lemma drain_spec i xs : (i < length xs)%nat -> is_heap 0 (S i) xs -> placed (S i) xs ->
  placed 1 (drain i xs) /\ drain i xs ≡ₚ xs.
Proof.
  revert xs. induction i as [|i IH]; intros xs Hi Hh Hp; [done|]. cbn [drain].
  set (ys := swap_at xs 0 (S i)). assert (length ys = length xs) as Hl by apply swap_length.
  assert (forall a, ys !!! a = if decide (a = 0%nat) then xs !!! S i else if decide (a = S i) then xs !!! 0%nat else xs !!! a)
    as Hy by (intros a; apply swap_lookup; lia).
  assert (placed (S i) ys) as Hpy.
  { intros a b Hab Hb Hbl. rewrite Hl in Hbl. rewrite !Hy. repeat case_decide; subst; try lia;
      try (apply Hp; lia); apply (heap_root (S (S i))); done || lia. }
  destruct (sift_spec (S (length xs)) 0 ys (S i) 0) as (I1 & I2 & I3 & I4); [|lia|lia|lia|].
  - split; [|intros p j _ Hc; unfold child in Hc; lia]. intros a b _ Ha Hc Hb. unfold child in Hc.
    rewrite !Hy. repeat case_decide; try lia. apply Hh; [lia|done|lia].
  - destruct (IH (sift (S (length xs)) ys (S i) 0)) as [J1 J2].
    + rewrite sift_length. lia.
    + done.
    + intros a b Hab Hb Hbl. rewrite sift_length in Hbl. rewrite (I3 b Hb).
      destruct (decide (S i <= a)%nat) as [Ha|Ha]; [rewrite (I3 a Ha); by apply Hpy|].
      apply (I4 (fun x => cmp x (ys !!! b) <= 0)); [|lia]. intros a' Ha'. apply Hpy; lia.
    + split; [done|]. rewrite J2, I2. apply swap_perm; lia.
Qed.

Lemma placed_sorted xs : placed 1 xs -> StronglySorted (fun a b => cmp a b <= 0) xs.
Proof.
  induction xs as [|x xs IH]; intros Hp; [constructor|]. constructor.
  - apply IH. intros a b Hab Hb Hl. apply (Hp (S a) (S b)); simpl; lia.
  - apply Forall_forall. intros y Hy. apply list_elem_of_lookup in Hy as [j Ej].
    pose proof (lookup_lt_Some _ _ _ Ej). rewrite <- (list_lookup_total_correct _ _ _ Ej).
    apply (Hp 0%nat (S j)); simpl; lia.
Qed.

Lemma heap_sort_spec xs : heap_sort xs ≡ₚ xs /\ StronglySorted (fun a b => cmp a b <= 0) (heap_sort xs).
Proof.
  unfold heap_sort. destruct xs as [|x xs]; [split; [done|constructor]|]. set (l := x :: xs).
  assert (0 < length l)%nat by (simpl; lia).
  pose proof (Nat.div_mod_eq (length l) 2). pose proof (Nat.mod_upper_bound (length l) 2).
  destruct (build_spec (length l / 2) l) as [B1 B2]; [lia| |].
  { intros i j Hi Hc Hj. unfold child in Hc. lia. }
  pose proof (Permutation_length B2) as Hl.
  destruct (drain_spec (length l - 1) (build (length l / 2) l)) as [D1 D2]; [lia| | |].
  - by replace (S (length l - 1)) with (length l) by lia.
  - intros a b Hab Hb Hbl. lia.
  - split; [by rewrite D2|by apply placed_sorted].
Qed.
End HeapSort.
