(* ===== verification/Sort.v ===== *)
(** * Sorting and searching arrays (lib/sort.c, lib/bsearch.c)

    The heap sort of an array of [num] elements of [size] bytes, with byte
    offsets as the code has them, and binary search.  The array is a list of
    bytes; an access outside it is [Ub].  The comparison sees the bytes of the
    two elements.  Offsets are [int] and mix with the unsigned [size]; the
    conversions are written out. *)
From Stdlib Require Import ZArith Lia Bool.
From stdpp Require Import base numbers list.
From S2P Require Import Prelude.

(** [n] bytes at offset [off]. *)
Definition load (mem : list Z) (off : Z) (n : nat) : outcome (list Z) :=
  if (0 <=? off) && (off + Z.of_nat n <=? Z.of_nat (length mem))
  then Ret (take n (drop (Z.to_nat off) mem)) else Ub.

Definition store (mem : list Z) (off : Z) (bs : list Z) : outcome (list Z) :=
  if (0 <=? off) && (off + Z.of_nat (length bs) <=? Z.of_nat (length mem))
  then Ret (take (Z.to_nat off) mem ++ bs ++ drop (Z.to_nat off + length bs) mem) else Ub.

(** A swap of two objects of [n] bytes through a temporary. *)
Definition word_swap (n : nat) (mem : list Z) (a b : Z) : outcome (list Z) :=
  let* t := load mem a n in
  let* vb := load mem b n in
  let* mem := store mem a vb in
  store mem b t.

Definition u32_swap (mem : list Z) (a b size : Z) : outcome (list Z) := word_swap 4 mem a b.
Definition u64_swap (mem : list Z) (a b size : Z) : outcome (list Z) := word_swap 8 mem a b.

(** [do ... while (--size > 0)], [n] more bytes after this one *)
Fixpoint swap_bytes (n : nat) (mem : list Z) (a b : Z) : outcome (list Z) :=
  let* mem := word_swap 1 mem a b in
  match n with
  | O => Ret mem
  | S n' => swap_bytes n' mem (a + 1) (b + 1)
  end.

Definition generic_swap (mem : list Z) (a b size : Z) : outcome (list Z) :=
  swap_bytes (Z.to_nat (size - 1)) mem a b.

Definition swap_fn : Type := list Z -> Z -> Z -> Z -> outcome (list Z).

(** [HAVE_EFFICIENT_UNALIGNED_ACCESS] is selected for this processor. *)
Definition efficient_unaligned : bool := true.

Definition alignment_ok (base align : Z) : bool :=
  efficient_unaligned || (Z.land base (align - 1) =? 0).

Definition choose_swap (swap_func : option swap_fn) (base size : Z) : swap_fn :=
  match swap_func with
  | Some f => f
  | None =>
      if (size =? 4) && alignment_ok base 4 then u32_swap
      else if (size =? 8) && alignment_ok base 8 then u64_swap
      else generic_swap
  end.

Section Sort.
Context (cmp_func : list Z -> list Z -> Z) (swap : swap_fn) (size : Z).

(** [cmp_func (base + a, base + b)] *)
Definition compare_at (mem : list Z) (a b : Z) : outcome Z :=
  let* x := load mem a (Z.to_nat size) in
  let* y := load mem b (Z.to_nat size) in
  Ret (cmp_func x y).

(** [for (r = ...; r * 2 + size < n; r = c)]; in the second phase [n] is [i] *)
Fixpoint sift_down (fuel : nat) (mem : list Z) (n r : Z) : outcome (list Z) :=
  match fuel with
  | O => Fuel
  | S fuel' =>
      if u32 (s32 (r * 2) + size) <? u32 n then
        let c := s32 (s32 (r * 2) + size) in
        let* c :=
          if u32 c <? u32 (n - size) then
            let* d := compare_at mem c (c + size) in
            Ret (if d <? 0 then s32 (c + size) else c)
          else Ret c in
        let* d := compare_at mem r c in
        if 0 <=? d then Ret mem
        else
          let* mem := swap mem r c size in
          sift_down fuel' mem n c
      else Ret mem
  end.

(** [for ( ; i >= 0; i -= size)] *)
Fixpoint heapify (fuel : nat) (mem : list Z) (n i : Z) : outcome (list Z) :=
  match fuel with
  | O => Fuel
  | S fuel' =>
      if 0 <=? i then
        let* mem := sift_down (S (length mem)) mem n i in
        heapify fuel' mem n (s32 (i - size))
      else Ret mem
  end.

(** [for (i = n - size; i > 0; i -= size)] *)
Fixpoint extract_max (fuel : nat) (mem : list Z) (i : Z) : outcome (list Z) :=
  match fuel with
  | O => Fuel
  | S fuel' =>
      if 0 <? i then
        let* mem := swap mem 0 i size in
        let* mem := sift_down (S (length mem)) mem i 0 in
        extract_max fuel' mem (s32 (i - size))
      else Ret mem
  end.
End Sort.

Definition sort (base : Z) (mem : list Z) (num size : Z) (cmp_func : list Z -> list Z -> Z)
    (swap_func : option swap_fn) : outcome (list Z) :=
  let i := s32 (u32 (u32 (num / 2 - 1) * size)) in
  let n := s32 (u32 (num * size)) in
  let swap := choose_swap swap_func base size in
  let* mem := heapify cmp_func swap size (S (length mem)) mem n i in
  extract_max cmp_func swap size (S (length mem)) mem (s32 (n - size)).

(** Binary search: the offset of the element found, or [None] for NULL. *)
Fixpoint bsearch_while (fuel : nat) (cmp : list Z -> Z) (mem : list Z) (size start end_ : Z)
    : outcome (option Z) :=
  match fuel with
  | O => Fuel
  | S fuel' =>
      if start <? end_ then
        let mid := u32 (start + u32 (end_ - start) / 2) in
        let* elt := load mem (u32 (mid * size)) (Z.to_nat size) in
        let result := cmp elt in
        if result <? 0 then bsearch_while fuel' cmp mem size start mid
        else if 0 <? result then bsearch_while fuel' cmp mem size (u32 (mid + 1)) end_
        else Ret (Some (u32 (mid * size)))
      else Ret None
  end.

(** [cmp] is the comparison with the key. *)
Definition bsearch (cmp : list Z -> Z) (mem : list Z) (num size : Z) : outcome (option Z) :=
  bsearch_while (S (length mem)) cmp mem size 0 num.
