(* ===== verification/SortSpec.v ===== *)
(** * lib/sort.c is heap sort, lib/bsearch.c finds what it sorted

    The byte array as a sequence of elements; the loops on byte offsets do what
    the loops of [HeapSort] do on indices; binary search on a sorted array. *)
From Stdlib Require Import ZArith Lia Bool Sorting.Sorted.
From stdpp Require Import base numbers list.
From S2P Require Import Prelude HeapSort Sort.

(** ** Bytes *)

Lemma load_app A x B : load (A ++ x ++ B) (Z.of_nat (length A)) (length x) = Ret x.
Proof.
  unfold load. rewrite (proj2 (Z.leb_le _ _)), (proj2 (Z.leb_le _ _)) by (rewrite ?length_app; lia).
  cbn [andb]. rewrite Nat2Z.id, drop_app_length, take_app_length. done.
Qed.

Lemma store_app A x y B : length y = length x ->
  store (A ++ x ++ B) (Z.of_nat (length A)) y = Ret (A ++ y ++ B).
Proof.
  intros E. unfold store. rewrite (proj2 (Z.leb_le _ _)), (proj2 (Z.leb_le _ _)) by (rewrite ?length_app; lia).
  cbn [andb]. rewrite Nat2Z.id, take_app_length. rewrite E, <- drop_drop, drop_app_length, drop_app_length. done.
Qed.

Lemma word_swap_app A x B y C n : length x = n -> length y = n ->
  word_swap n (A ++ x ++ B ++ y ++ C) (Z.of_nat (length A)) (Z.of_nat (length A + n + length B))
  = Ret (A ++ y ++ B ++ x ++ C).
Proof.
  intros Hx Hy. unfold word_swap. rewrite <- Hx at 1. rewrite load_app. cbn [obind].
  assert (forall z, length z = n -> A ++ z ++ B ++ y ++ C = (A ++ z ++ B) ++ y ++ C) as Ea
    by (intros z _; by rewrite <- !app_assoc).
  assert (forall z, length z = n -> (length A + n + length B)%nat = length (A ++ z ++ B)) as El
    by (intros z Hz; rewrite !length_app; lia).
  rewrite (Ea x Hx), (El x Hx). rewrite <- Hy at 1. rewrite load_app. cbn [obind].
  rewrite <- !app_assoc. rewrite store_app by congruence. cbn [obind].
  rewrite (Ea y Hy), <- (El x Hx), (El y Hy), store_app by congruence. by rewrite <- !app_assoc.
Qed.

Lemma swap_bytes_app n A x B y C : length x = S n -> length y = S n ->
  swap_bytes n (A ++ x ++ B ++ y ++ C) (Z.of_nat (length A)) (Z.of_nat (length A + S n + length B))
  = Ret (A ++ y ++ B ++ x ++ C).
Proof.
  revert A x B y C. induction n as [|n IH]; intros A x B y C Hx Hy; cbn [swap_bytes].
  - rewrite (word_swap_app A x B y C 1 Hx Hy). done.
  - destruct x as [|a x]; [done|]. destruct y as [|b y]; [done|]. simpl in Hx, Hy.
    pose proof (word_swap_app A [a] (x ++ B) [b] (y ++ C) 1 eq_refl eq_refl) as E.
    rewrite <- !app_assoc in E. simpl app in E |- *.
    replace (length A + S (S n) + length B)%nat with (length A + 1 + length (x ++ B))%nat
      by (rewrite length_app; lia).
    rewrite E. cbn [obind].
    specialize (IH (A ++ [b]) x (B ++ [a]) y C ltac:(lia) ltac:(lia)). rewrite <- !app_assoc in IH. simpl app in IH.
    rewrite <- IH. f_equal; rewrite !length_app; simpl; lia.
Qed.

(** What a swap function has to do: exchange two elements. *)
Class Swaps (swap : swap_fn) (sz : nat) : Prop :=
  swaps A x B y C : length x = sz -> length y = sz ->
    swap (A ++ x ++ B ++ y ++ C) (Z.of_nat (length A)) (Z.of_nat (length A + sz + length B)) (Z.of_nat sz)
    = Ret (A ++ y ++ B ++ x ++ C).

(** The built-in ones do. *)
Lemma choose_swap_swaps swap_func base sz : (1 <= sz)%nat ->
  (forall f, swap_func = Some f -> Swaps f sz) -> Swaps (choose_swap swap_func base (Z.of_nat sz)) sz.
Proof.
  intros Hsz Hf. destruct swap_func as [f|]; [by apply Hf|]. unfold choose_swap.
  intros A x B y C Hx Hy. destruct ((Z.of_nat sz =? 4) && alignment_ok base 4) eqn:E4;
    [|destruct ((Z.of_nat sz =? 8) && alignment_ok base 8) eqn:E8].
  - apply andb_true_iff in E4 as [E4 _]. apply Z.eqb_eq in E4. assert (sz = 4%nat) as -> by lia.
    by apply word_swap_app.
  - apply andb_true_iff in E8 as [E8 _]. apply Z.eqb_eq in E8. assert (sz = 8%nat) as -> by lia.
    by apply word_swap_app.
  - unfold generic_swap. destruct sz as [|n]; [lia|]. replace (Z.to_nat (Z.of_nat (S n) - 1)) with n by lia.
    by apply swap_bytes_app.
Qed.

(** ** Elements *)

Section Elements.
Context (sz : nat) (Hsz : (1 <= sz)%nat).

Definition elements (xs : list (list Z)) : Prop := Forall (fun x => length x = sz) xs.

Lemma concat_length xs : elements xs -> length (concat xs) = (length xs * sz)%nat.
Proof. induction 1 as [|x xs Hx _ IH]; simpl; [done|]. rewrite length_app. lia. Qed.

Lemma elements_perm xs ys : xs ≡ₚ ys -> elements xs -> elements ys.
Proof. unfold elements. by intros ->. Qed.

Lemma load_elem xs k : elements xs -> (k < length xs)%nat ->
  load (concat xs) (Z.of_nat (k * sz)) sz = Ret (xs !!! k).
Proof.
  intros He Hk. destruct (lookup_lt_is_Some_2 xs k Hk) as [x Ex]. rewrite (list_lookup_total_correct _ _ _ Ex).
  destruct (list_elem_of_split_length _ _ _ Ex) as (P & Q & -> & ->).
  apply Forall_app in He as [HP HQ]. apply Forall_cons in HQ as [Hx HQ].
  rewrite concat_app. simpl. rewrite <- (concat_length P HP), <- Hx. apply load_app.
Qed.

Lemma swap_elem swap xs i j : Swaps swap sz -> elements xs -> (i < j)%nat -> (j < length xs)%nat ->
  swap (concat xs) (Z.of_nat (i * sz)) (Z.of_nat (j * sz)) (Z.of_nat sz) = Ret (concat (swap_at xs i j)).
Proof.
  intros Hs He Hij Hj. destruct (swap_split xs i j Hij Hj) as (P & Q & R & E & <- & <- & ->).
  revert E. generalize (xs !!! length P) (xs !!! (length P + 1 + length Q)%nat). intros x y ->.
  apply Forall_app in He as [HP He]. apply Forall_cons in He as [Hx He]. apply Forall_app in He as [HQ He].
  apply Forall_cons in He as [Hy HR]. rewrite !concat_app. simpl. rewrite !concat_app. simpl.
  pose proof (Hs (concat P) x (concat Q) y (concat R) Hx Hy) as E.
  rewrite (concat_length P HP), (concat_length Q HQ) in E. rewrite <- E. f_equal; lia.
Qed.

(** ** The loops *)

Context (cmp : list Z -> list Z -> Z) (swap : swap_fn) (Hswap : Swaps swap sz).

Lemma compare_elem xs i j : elements xs -> (i < length xs)%nat -> (j < length xs)%nat ->
  compare_at cmp (Z.of_nat sz) (concat xs) (Z.of_nat (i * sz)) (Z.of_nat (j * sz)) = Ret (cmp (xs !!! i) (xs !!! j)).
Proof. intros He Hi Hj. unfold compare_at. rewrite Nat2Z.id, !load_elem by done. done. Qed.

(** An array of at most a gigabyte: no offset wraps. *)
Definition fits (n : nat) : Prop := Z.of_nat (n * sz) <= 2 ^ 30.

Lemma fits_le n m : fits n -> (m <= n)%nat -> fits m.
Proof. unfold fits. intros. assert (m * sz <= n * sz)%nat by (apply Nat.mul_le_mono_r; done). lia. Qed.

Lemma off_small n : Z.of_nat (n * sz) < 2 ^ 31 ->
  u32 (Z.of_nat (n * sz)) = Z.of_nat (n * sz) /\ s32 (Z.of_nat (n * sz)) = Z.of_nat (n * sz).
Proof.
  intros Hn. pose proof (Nat2Z.is_nonneg (n * sz)).
  split; [apply u32_small; unfold U32_MAX; lia|apply s32_small; lia].
Qed.

Lemma fits_small n : fits n ->
  u32 (Z.of_nat (n * sz)) = Z.of_nat (n * sz) /\ s32 (Z.of_nat (n * sz)) = Z.of_nat (n * sz).
Proof. unfold fits. intros Hn. apply off_small. lia. Qed.

(** The child offsets the code computes. *)
Lemma child_offset n r : fits n -> (r < n)%nat ->
  s32 (Z.of_nat (r * sz) * 2) + Z.of_nat sz = Z.of_nat ((2 * r + 1) * sz)
  /\ Z.of_nat ((2 * r + 1) * sz) < 2 ^ 31.
Proof.
  unfold fits. intros Hn Hr. assert (r * sz + sz <= n * sz)%nat by nia.
  rewrite s32_small by lia. split; lia.
Qed.

Lemma offset_lt a b : (Z.of_nat (a * sz) <? Z.of_nat (b * sz)) = (a <? b)%nat.
Proof.
  destruct (Nat.ltb_spec a b); [apply Z.ltb_lt|apply Z.ltb_ge].
  - assert (a * sz + sz <= b * sz)%nat by nia. lia.
  - assert (b * sz <= a * sz)%nat by (by apply Nat.mul_le_mono_r). lia.
Qed.

Lemma sift_down_eq f1 f2 xs n r : elements xs -> fits n -> (n <= length xs)%nat -> (r < n)%nat ->
  (n - r < f1)%nat -> (n - r < f2)%nat ->
  sift_down cmp swap (Z.of_nat sz) f1 (concat xs) (Z.of_nat (n * sz)) (Z.of_nat (r * sz))
  = Ret (concat (sift cmp f2 xs n r)).
Proof.
  revert f2 xs r. induction f1 as [|f1 IH]; intros f2 xs r He Hn Hl Hr H1 H2; [lia|].
  destruct f2 as [|f2]; [lia|]. cbn [sift_down sift]. cbn zeta.
  destruct (child_offset n r Hn Hr) as [-> Hc]. destruct (off_small _ Hc) as [Eu Es].
  rewrite Eu, Es, (proj1 (fits_small n Hn)), offset_lt, Eu.
  destruct (Nat.ltb_spec (2 * r + 1) n) as [Hch|Hch]; [|done].
  assert (Z.of_nat (n * sz) - Z.of_nat sz = Z.of_nat ((n - 1) * sz)) as -> by nia.
  rewrite (proj1 (fits_small (n - 1) (fits_le n (n - 1) Hn ltac:(lia)))).
  rewrite offset_lt.
  replace (Z.of_nat ((2 * r + 1) * sz) + Z.of_nat sz) with (Z.of_nat ((2 * r + 2) * sz)) by lia.
  assert ((if (2 * r + 1 <? n - 1)%nat then
             let* d := compare_at cmp (Z.of_nat sz) (concat xs) (Z.of_nat ((2 * r + 1) * sz)) (Z.of_nat ((2 * r + 2) * sz)) in
             Ret (if d <? 0 then s32 (Z.of_nat ((2 * r + 2) * sz)) else Z.of_nat ((2 * r + 1) * sz))
           else Ret (Z.of_nat ((2 * r + 1) * sz))) = Ret (Z.of_nat (larger_child cmp xs n r * sz))) as ->.
  { unfold larger_child. replace (2 * r + 1 <? n - 1)%nat with (2 * r + 2 <? n)%nat
      by (destruct (Nat.ltb_spec (2 * r + 2) n), (Nat.ltb_spec (2 * r + 1) (n - 1)); lia || done).
    destruct (Nat.ltb_spec (2 * r + 2) n) as [H3|H3]; [|done]. cbn [andb].
    rewrite compare_elem by (done || lia). cbn [obind]. destruct (_ <? 0); [|done].
    by rewrite (proj2 (fits_small (2 * r + 2) (fits_le n (2 * r + 2) Hn ltac:(lia)))). }
  cbn [obind]. assert (r < larger_child cmp xs n r < n)%nat as Hrc.
  { unfold larger_child. destruct (Nat.ltb_spec (2 * r + 2) n); cbn [andb]; [destruct (_ <? 0)|]; lia. }
  rewrite compare_elem by (done || lia). cbn [obind]. destruct (0 <=? _); [done|].
  rewrite swap_elem by (done || lia). cbn [obind].
  apply IH; try done; rewrite ?swap_length; try lia.
  eapply elements_perm; [|done]. symmetry. apply swap_perm; lia.
Qed.

Lemma heapify_eq fuel xs m : elements xs -> fits (length xs) -> (m <= length xs)%nat -> (m < fuel)%nat ->
  heapify cmp swap (Z.of_nat sz) fuel (concat xs) (Z.of_nat (length xs * sz)) (Z.of_nat (m * sz) - Z.of_nat sz)
  = Ret (concat (build cmp m xs)).
Proof.
  revert xs m. induction fuel as [|fuel IH]; intros xs m He Hn Hm Hf; [lia|]. cbn [heapify].
  destruct m as [|m].
  { destruct (Z.leb_spec 0 (Z.of_nat (0 * sz) - Z.of_nat sz)); [lia|done]. }
  replace (Z.of_nat (S m * sz) - Z.of_nat sz) with (Z.of_nat (m * sz)) by lia.
  destruct (Z.leb_spec 0 (Z.of_nat (m * sz))); [|lia]. cbn [build].
  assert (m * sz <= length xs * sz)%nat by (apply Nat.mul_le_mono_r; lia).
  assert (length xs <= length xs * sz)%nat by nia.
  rewrite (sift_down_eq _ (S (length xs))) by (done || rewrite ?(concat_length xs He); lia). cbn [obind].
  replace (s32 (Z.of_nat (m * sz) - Z.of_nat sz)) with (Z.of_nat (m * sz) - Z.of_nat sz)
    by (unfold fits in Hn; pose proof (Nat2Z.is_nonneg (m * sz));
        assert (sz <= length xs * sz)%nat by nia; symmetry; apply s32_small; lia).
  replace (Z.of_nat (length xs * sz)) with (Z.of_nat (length (sift cmp (S (length xs)) xs (length xs) m) * sz))
    by (by rewrite sift_length). apply IH.
  - eapply elements_perm; [|done]. symmetry. apply sift_perm; lia.
  - unfold fits. by rewrite sift_length.
  - rewrite sift_length. lia.
  - lia.
Qed.

Lemma extract_eq fuel xs i : elements xs -> fits (length xs) -> (i < length xs)%nat -> (i < fuel)%nat ->
  extract_max cmp swap (Z.of_nat sz) fuel (concat xs) (Z.of_nat (i * sz)) = Ret (concat (drain cmp i xs)).
Proof.
  revert xs i. induction fuel as [|fuel IH]; intros xs i He Hn Hi Hf; [lia|]. cbn [extract_max].
  destruct i as [|i]; [done|].
  destruct (Z.ltb_spec 0 (Z.of_nat (S i * sz))); [|lia]. cbn [drain].
  assert (S i * sz <= length xs * sz)%nat by (apply Nat.mul_le_mono_r; lia).
  assert (length xs <= length xs * sz)%nat by nia.
  pose proof (swap_elem swap xs 0 (S i) Hswap He ltac:(lia) Hi) as E. change (Z.of_nat (0 * sz)) with 0 in E.
  rewrite E. cbn [obind]. set (ys := swap_at xs 0 (S i)).
  assert (length ys = length xs) as Hl by apply swap_length.
  assert (elements ys) as Hy by (eapply elements_perm; [|done]; symmetry; apply swap_perm; lia).
  assert (sift_down cmp swap (Z.of_nat sz) (S (length (concat ys))) (concat ys) (Z.of_nat (S i * sz)) 0
          = Ret (concat (sift cmp (S (length xs)) ys (S i) 0))) as ->.
  { apply (sift_down_eq _ _ ys (S i) 0); try done; try lia; [eapply fits_le; [done|lia]|].
    rewrite (concat_length ys Hy). lia. }
  cbn [obind].
  replace (Z.of_nat (S i * sz) - Z.of_nat sz) with (Z.of_nat (i * sz)) by lia.
  rewrite (proj2 (fits_small i (fits_le _ i Hn ltac:(lia)))). apply IH.
  - eapply elements_perm; [|done]. symmetry. apply sift_perm; lia.
  - unfold fits. by rewrite sift_length, Hl.
  - rewrite sift_length. lia.
  - lia.
Qed.
End Elements.
