(* ===== verification/SortProps.v ===== *)
(** * sort and bsearch: what callers rely on

    [sort] is heap sort of the elements, so it sorts; [bsearch] finds an element
    of a sorted array exactly when there is one; and the two together. *)
From Stdlib Require Import ZArith Lia Bool Sorting.Sorted.
From stdpp Require Import base numbers list.
From S2P Require Import Prelude HeapSort Sort SortSpec.

Lemma s32_mul_wrap a b : - 2 ^ 31 <= a * b < 2 ^ 31 -> s32 (u32 (u32 a * b)) = a * b.
Proof.
  intros Hab. rewrite swrap_wrap by lia. rewrite <- (swrap_mod 32) by lia. unfold wrap.
  rewrite Zmult_mod_idemp_l, swrap_mod by lia. by apply s32_small.
Qed.

Section Props.
Context (sz : nat) (cmp : list Z -> list Z -> Z).

Lemma sort_eq base xs swap_func : (1 <= sz)%nat -> fits sz 1 -> elements sz xs -> fits sz (length xs) ->
  (forall f, swap_func = Some f -> Swaps f sz) ->
  sort base (concat xs) (Z.of_nat (length xs)) (Z.of_nat sz) cmp swap_func = Ret (concat (heap_sort cmp xs)).
Proof.
  intros Hsz H1 He Hn Hf. pose proof (choose_swap_swaps swap_func base sz Hsz Hf) as Hs.
  unfold sort. cbn zeta. set (swap := choose_swap swap_func base (Z.of_nat sz)) in *.
  assert (Z.of_nat (length xs) / 2 = Z.of_nat (length xs / 2)) as -> by (by rewrite Nat2Z.inj_div).
  assert (length xs / 2 <= length xs)%nat as Hd by (apply Nat.Div0.div_le_upper_bound; lia).
  pose proof (fits_le sz Hsz _ _ Hn Hd) as Hh. unfold fits in H1.
  pose proof (Nat2Z.is_nonneg (length xs / 2 * sz)) as H0.
  rewrite s32_mul_wrap by (unfold fits in Hh; lia).
  rewrite <- Nat2Z.inj_mul, swrap_wrap, (proj2 (fits_small sz Hsz _ Hn)) by lia.
  replace ((Z.of_nat (length xs / 2) - 1) * Z.of_nat sz) with (Z.of_nat (length xs / 2 * sz) - Z.of_nat sz) by lia.
  assert (length xs <= length xs * sz)%nat by nia.
  rewrite (heapify_eq sz Hsz cmp swap Hs) by (done || rewrite (concat_length sz Hsz xs He); lia). cbn [obind].
  unfold heap_sort. assert (build cmp (length xs / 2) xs ≡ₚ xs) as Hp by apply build_perm.
  destruct xs as [|x xs].
  { change (Z.of_nat (length [] * sz)) with 0. rewrite s32_small by lia. cbn [extract_max].
    rewrite (proj2 (Z.ltb_ge 0 (0 - Z.of_nat sz))) by lia. done. }
  set (l := x :: xs) in *. assert (0 < length l)%nat by (simpl; lia).
  set (ys := build cmp (length l / 2) l) in *. pose proof (Permutation_length Hp) as Hl.
  assert (elements sz ys) as Hy by (eapply elements_perm; [symmetry; exact Hp|done]).
  replace (Z.of_nat (length l * sz) - Z.of_nat sz) with (Z.of_nat ((length l - 1) * sz)) by nia.
  rewrite (proj2 (fits_small sz Hsz _ (fits_le sz Hsz _ (length l - 1) Hn ltac:(lia)))).
  apply (extract_eq sz Hsz cmp swap Hs); try done; try lia; [by rewrite Hl|].
  rewrite (concat_length sz Hsz ys Hy). rewrite Hl. lia.
Qed.

(** ** Searching *)

Lemma bsearch_while_spec fuel (key : list Z -> Z) xs a b : (1 <= sz)%nat -> elements sz xs ->
  Z.of_nat (length xs * sz) <= U32_MAX -> (b <= length xs)%nat -> (b - a < fuel)%nat ->
  (forall i j, (i < j < length xs)%nat -> key (xs !!! i) < 0 -> key (xs !!! j) < 0) ->
  (forall i j, (i < j < length xs)%nat -> 0 < key (xs !!! j) -> 0 < key (xs !!! i)) ->
  (forall i, (i < a)%nat -> (i < length xs)%nat -> 0 < key (xs !!! i)) ->
  (forall i, (b <= i < length xs)%nat -> key (xs !!! i) < 0) ->
  exists r, bsearch_while fuel key (concat xs) (Z.of_nat sz) (Z.of_nat a) (Z.of_nat b) = Ret r
    /\ ((r = None /\ forall i, (i < length xs)%nat -> key (xs !!! i) <> 0)
        \/ exists k, r = Some (Z.of_nat (k * sz)) /\ (k < length xs)%nat /\ key (xs !!! k) = 0).
Proof.
  intros Hsz He Hmax Hb Hf Hneg Hpos. revert a b Hb Hf.
  induction fuel as [|fuel IH]; intros a b Hb Hf Ha Hbb; [lia|]. cbn [bsearch_while].
  assert (length xs <= length xs * sz)%nat by nia.
  destruct (Z.ltb_spec (Z.of_nat a) (Z.of_nat b)) as [Hab|Hab].
  2:{ exists None. split; [done|]. left. split; [done|]. intros i Hi.
      destruct (decide (i < a)%nat) as [Hia|Hia]; [pose proof (Ha i Hia Hi)|pose proof (Hbb i ltac:(lia))]; lia. }
  set (m := (a + (b - a) / 2)%nat).
  assert ((b - a) / 2 < b - a)%nat as Hlt by (apply Nat.Div0.div_lt_upper_bound; lia).
  assert (u32 (Z.of_nat a + u32 (Z.of_nat b - Z.of_nat a) / 2) = Z.of_nat m) as ->.
  { rewrite (u32_small (_ - _)) by lia. rewrite <- Nat2Z.inj_sub by lia.
    change 2 with (Z.of_nat 2). rewrite <- Nat2Z.inj_div, <- Nat2Z.inj_add. apply u32_small. unfold m. lia. }
  assert (m < length xs)%nat as Hm by (unfold m; lia).
  assert (m * sz <= length xs * sz)%nat by (apply Nat.mul_le_mono_r; lia).
  rewrite <- Nat2Z.inj_mul, (u32_small (Z.of_nat (m * sz))) by (pose proof (Nat2Z.is_nonneg (m * sz)); lia).
  rewrite Nat2Z.id, (load_elem sz Hsz) by done. cbn [obind].
  destruct (Z.ltb_spec (key (xs !!! m)) 0) as [Hk|Hk].
  - apply IH; [lia|unfold m; lia|done|]. intros i Hi.
    destruct (decide (i = m)) as [->|]; [done|]. apply (Hneg m i); [lia|done].
  - destruct (Z.ltb_spec 0 (key (xs !!! m))) as [Hk'|Hk'].
    + rewrite u32_small by lia. replace (Z.of_nat m + 1) with (Z.of_nat (m + 1)) by lia.
      apply IH; [done|unfold m; lia| |done]. intros i Hi Hil.
      destruct (decide (i = m)) as [->|]; [done|]. apply (Hpos i m); [lia|done].
    + eexists. split; [reflexivity|]. right. exists m. split_and!; [done|done|lia].
Qed.

Context `{!Comparison cmp}.

Lemma ssorted_at xs i j : StronglySorted (fun a b => cmp a b <= 0) xs -> (i < j < length xs)%nat ->
  cmp (xs !!! i) (xs !!! j) <= 0.
Proof.
  revert i j. induction xs as [|x xs IH]; intros i j Hs Hij; [simpl in Hij; lia|].
  apply StronglySorted_inv in Hs as [Hs Hx]. destruct j as [|j]; [lia|]. simpl in Hij.
  destruct i as [|i]; [|apply (IH i j); [done|lia]]. simpl. rewrite Forall_forall in Hx. apply Hx.
  apply list_elem_of_lookup_total_2. lia.
Qed.

(** In a sorted array the signs of a comparison with a key fall. *)
Lemma sorted_signs key xs i j : StronglySorted (fun a b => cmp a b <= 0) xs -> (i < j < length xs)%nat ->
  (cmp key (xs !!! i) < 0 -> cmp key (xs !!! j) < 0) /\ (0 < cmp key (xs !!! j) -> 0 < cmp key (xs !!! i)).
Proof.
  intros Hs Hij. pose proof (ssorted_at xs i j Hs Hij) as Hle.
  split; intros Hk.
  - destruct (Z_lt_ge_dec (cmp key (xs !!! j)) 0) as [|Hge]; [done|]. exfalso.
    assert (cmp (xs !!! j) key <= 0) as Hj by (apply cmp_opp; lia).
    pose proof (cmp_le_trans _ _ _ Hle Hj) as Hi. apply cmp_opp in Hi. lia.
  - destruct (Z_lt_ge_dec 0 (cmp key (xs !!! i))) as [|Hge]; [done|]. exfalso.
    assert (cmp key (xs !!! i) <= 0) as Hi by lia. pose proof (cmp_le_trans _ _ _ Hi Hle). lia.
Qed.

(** C38: sort, on an array of at most a gigabyte and with the built-in swap
    functions or one of the caller's that exchanges two elements, returns with
    the same elements in ascending order; no offset wraps and no access leaves
    the array. *)
Theorem sort_sorts base xs swap_func : (1 <= sz)%nat -> fits sz 1 -> elements sz xs -> fits sz (length xs) ->
  (forall f, swap_func = Some f -> Swaps f sz) ->
  exists ys, sort base (concat xs) (Z.of_nat (length xs)) (Z.of_nat sz) cmp swap_func = Ret (concat ys)
    /\ elements sz ys /\ ys ≡ₚ xs /\ StronglySorted (fun a b => cmp a b <= 0) ys.
Proof.
  intros Hsz H1 He Hn Hf. exists (heap_sort cmp xs). destruct (heap_sort_spec cmp xs) as [Hp Hs].
  split_and!; try done; [by apply sort_eq|]. eapply elements_perm; [symmetry; exact Hp|done].
Qed.

(** C39: bsearch on an array that sort has sorted with the same comparison
    returns, with an element that compares equal to the key when the array has
    one and with NULL exactly when it has none. *)
Theorem bsearch_after_sort base xs swap_func key : (1 <= sz)%nat -> fits sz 1 -> elements sz xs ->
  fits sz (length xs) -> (forall f, swap_func = Some f -> Swaps f sz) ->
  exists ys r, sort base (concat xs) (Z.of_nat (length xs)) (Z.of_nat sz) cmp swap_func = Ret (concat ys)
    /\ bsearch (cmp key) (concat ys) (Z.of_nat (length xs)) (Z.of_nat sz) = Ret r
    /\ ((r = None /\ forall x, x ∈ xs -> cmp key x <> 0)
        \/ exists k x, r = Some (Z.of_nat (k * sz)) /\ ys !! k = Some x /\ (x ∈ xs) /\ cmp key x = 0).
Proof.
  intros Hsz H1 He Hn Hf. destruct (heap_sort_spec cmp xs) as [Hp Hs]. set (ys := heap_sort cmp xs) in *.
  pose proof (Permutation_length Hp) as Hl.
  assert (elements sz ys) as Hy by (eapply elements_perm; [symmetry; exact Hp|done]).
  assert (length ys <= length ys * sz)%nat by nia.
  destruct (bsearch_while_spec (S (length (concat ys))) (cmp key) ys 0 (length ys)) as (r & E & Hr);
    try done; try lia.
  - unfold fits in Hn. rewrite Hl. unfold U32_MAX. lia.
  - rewrite (concat_length sz Hsz ys Hy). lia.
  - intros i j Hij. by apply sorted_signs.
  - intros i j Hij. by apply sorted_signs.
  - exists ys, r. rewrite Hl in E. split_and!; [by apply sort_eq|exact E|].
    destruct Hr as [[-> Hr]|(k & -> & Hk & Hkey)]; [left|right].
    + split; [done|]. intros x Hx. rewrite <- Hp in Hx. apply list_elem_of_lookup in Hx as [i Hi].
      rewrite <- (list_lookup_total_correct _ _ _ Hi). apply Hr. by eapply lookup_lt_Some.
    + destruct (lookup_lt_is_Some_2 ys k Hk) as [x Ex]. rewrite (list_lookup_total_correct _ _ _ Ex) in Hkey.
      exists k, x. split_and!; try done. rewrite <- Hp. by eapply list_elem_of_lookup_2.
Qed.
End Props.

(** ** Instances at a concrete array *)

(** Elements of three bytes, compared by the first. *)
Definition by_first (x y : list Z) : Z := hd 0 x - hd 0 y.

#[local] Instance by_first_comparison : Comparison by_first.
Proof. split; unfold by_first; lia. Qed.

Definition triples : list (list Z) := [[9; 1; 1]; [4; 2; 2]; [7; 3; 3]; [2; 4; 4]; [5; 5; 5]].

Lemma triples_elements : elements 3 triples.
Proof. unfold elements, triples. repeat constructor. Qed.

Lemma no_swap : forall f, (None : option swap_fn) = Some f -> Swaps f 3.
Proof. intros f E. discriminate E. Qed.

Lemma sort_sorts_witness :
  sort 4096 (concat triples) 5 3 by_first None
    = Ret [2; 4; 4; 4; 2; 2; 5; 5; 5; 7; 3; 3; 9; 1; 1]
  /\ exists ys, sort 4096 (concat triples) 5 3 by_first None = Ret (concat ys)
    /\ elements 3 ys /\ ys ≡ₚ triples /\ StronglySorted (fun a b => by_first a b <= 0) ys.
Proof.
  split; [vm_compute; reflexivity|].
  exact (sort_sorts 3 by_first 4096 triples None ltac:(lia) ltac:(vm_compute; discriminate) triples_elements
           ltac:(vm_compute; discriminate) no_swap).
Defined.

Lemma bsearch_after_sort_witness :
  exists ys r, sort 4096 (concat triples) 5 3 by_first None = Ret (concat ys)
    /\ bsearch (by_first [5; 0; 0]) (concat ys) 5 3 = Ret r /\ r <> None.
Proof.
  destruct (bsearch_after_sort 3 by_first 4096 triples None [5; 0; 0] ltac:(lia) ltac:(vm_compute; discriminate)
              triples_elements ltac:(vm_compute; discriminate) no_swap) as (ys & r & E & Eb & Hr).
  exists ys, r. split; [exact E|]. split; [exact Eb|]. destruct Hr as [[-> Hno]|(k & x & -> & _)]; [|discriminate].
  exfalso. apply (Hno [5; 5; 5]); [|reflexivity]. unfold triples. rewrite !elem_of_cons. tauto.
Defined.
