(* ===== verification/RBTree.v ===== *)
(** * Red-black trees (lib/rbtree.c, include/linux/rbtree.h, rbtree_augmented.h)

    The store maps the address of a [struct rb_node] to its three words; reading
    or writing any other address is [Ub].  The parent pointer and the color
    share a word, as in the code.  The rebalancing loops have two branches that
    are mirror images of each other; they are written once, over the side
    [s] the node is on, with [opp s] for the other one.

    The callbacks of augmented trees read the nodes and update data of the
    caller's that the tree code does not look at: they are functions on that data
    that can fail like any code, and the plain functions use ones that do
    nothing.  [RB_DECLARE_CALLBACKS] makes callbacks from the caller's
    [rbcompute]. *)
From Stdlib Require Import ZArith Lia Bool.
From stdpp Require Import base numbers list gmap.
From S2P Require Import Prelude.

Definition RB_RED : Z := 0.
Definition RB_BLACK : Z := 1.

Record rb_node := mk_node { rb_parent_color : Z; rb_right : Z; rb_left : Z }.

Abbreviation nodes := (gmap Z rb_node).

Inductive side := Left | Right.

Definition opp (s : side) : side := match s with Left => Right | Right => Left end.

(** [rb_left] or [rb_right] of a node. *)
Definition child_of (s : side) (n : rb_node) : Z := match s with Left => rb_left n | Right => rb_right n end.

Definition with_child (s : side) (v : Z) (n : rb_node) : rb_node :=
  match s with
  | Left => mk_node (rb_parent_color n) (rb_right n) v
  | Right => mk_node (rb_parent_color n) v (rb_left n)
  end.

(** [pc & ~3], [pc & 1] *)
Definition __rb_parent (pc : Z) : Z := Z.land pc (u32 (Z.lnot 3)).
Definition __rb_color (pc : Z) : Z := Z.land pc 1.
Definition __rb_is_black (pc : Z) : bool := negb (__rb_color pc =? 0).
Definition __rb_is_red (pc : Z) : bool := __rb_color pc =? 0.

Section RB.
(** The caller's data and the callbacks. *)
Context {D : Type}.

Abbreviation callback := (nodes -> Z -> Z -> D -> outcome D).

Record rb_state := mk_rb { rb_nodes : nodes; rb_root : Z; rb_data : D }.

Record rb_augment_callbacks := mk_callbacks {
  aug_propagate : callback;
  aug_copy : callback;
  aug_rotate : callback
}.

Definition get (t : rb_state) (p : Z) : outcome rb_node :=
  match rb_nodes t !! p with Some n => Ret n | None => Ub end.

Definition put (t : rb_state) (p : Z) (n : rb_node) : outcome rb_state :=
  let* _ := get t p in
  Ret (mk_rb (<[p := n]> (rb_nodes t)) (rb_root t) (rb_data t)).

Definition get_child (s : side) (t : rb_state) (p : Z) : outcome Z :=
  let* n := get t p in Ret (child_of s n).

Definition set_child (s : side) (t : rb_state) (p v : Z) : outcome rb_state :=
  let* n := get t p in put t p (with_child s v n).

Definition get_pc (t : rb_state) (p : Z) : outcome Z :=
  let* n := get t p in Ret (rb_parent_color n).

Definition set_pc (t : rb_state) (p pc : Z) : outcome rb_state :=
  let* n := get t p in put t p (mk_node pc (rb_right n) (rb_left n)).

Definition set_root (t : rb_state) (p : Z) : rb_state := mk_rb (rb_nodes t) p (rb_data t).

Definition set_data (t : rb_state) (d : D) : rb_state := mk_rb (rb_nodes t) (rb_root t) d.

(** A call of a callback. *)
Definition call (f : callback) (t : rb_state) (a b : Z) : outcome rb_state :=
  let* d := f (rb_nodes t) a b (rb_data t) in Ret (set_data t d).

Definition rb_parent (t : rb_state) (p : Z) : outcome Z :=
  let* pc := get_pc t p in Ret (__rb_parent pc).
Definition rb_color (t : rb_state) (p : Z) : outcome Z :=
  let* pc := get_pc t p in Ret (__rb_color pc).
Definition rb_is_red (t : rb_state) (p : Z) : outcome bool :=
  let* pc := get_pc t p in Ret (__rb_is_red pc).
Definition rb_is_black (t : rb_state) (p : Z) : outcome bool :=
  let* pc := get_pc t p in Ret (__rb_is_black pc).

Definition rb_set_parent (t : rb_state) (rb p : Z) : outcome rb_state :=
  let* c := rb_color t rb in set_pc t rb (Z.lor c p).
Definition rb_set_parent_color (t : rb_state) (rb p color : Z) : outcome rb_state :=
  set_pc t rb (Z.lor p color).
Definition rb_set_black (t : rb_state) (rb : Z) : outcome rb_state :=
  let* pc := get_pc t rb in set_pc t rb (Z.lor pc RB_BLACK).
Definition rb_red_parent (t : rb_state) (red : Z) : outcome Z := get_pc t red.

Definition __rb_change_child (t : rb_state) (old new parent : Z) : outcome rb_state :=
  if negb (parent =? 0) then
    let* l := get_child Left t parent in
    if l =? old then set_child Left t parent new else set_child Right t parent new
  else Ret (set_root t new).

(** [rcu_assign_pointer] is a store behind a barrier. *)
Definition __rb_change_child_rcu (t : rb_state) (old new parent : Z) : outcome rb_state :=
  if negb (parent =? 0) then
    let* l := get_child Left t parent in
    if l =? old then set_child Left t parent new else set_child Right t parent new
  else Ret (set_root t new).

Definition __rb_rotate_set_parents (t : rb_state) (old new color : Z) : outcome rb_state :=
  let* parent := rb_parent t old in
  let* pc := get_pc t old in
  let* t := set_pc t new pc in
  let* t := rb_set_parent_color t old new color in
  __rb_change_child t old new parent.

(** [if (p) rb_set_parent_color (p, parent, color);] *)
Definition set_parent_color_opt (t : rb_state) (p parent color : Z) : outcome rb_state :=
  if negb (p =? 0) then rb_set_parent_color t p parent color else Ret t.

Definition set_parent_opt (t : rb_state) (p parent : Z) : outcome rb_state :=
  if negb (p =? 0) then rb_set_parent t p parent else Ret t.

(** [p && rb_is_red (p)], [!p || rb_is_black (p)] *)
Definition is_red_opt (t : rb_state) (p : Z) : outcome bool :=
  if negb (p =? 0) then rb_is_red t p else Ret false.

Definition is_black_opt (t : rb_state) (p : Z) : outcome bool :=
  if p =? 0 then Ret true else rb_is_black t p.

(** ** Insertion *)

(** Case 2: rotation at the parent when the node is its inner child; the new
    [parent] and [tmp]. *)
Definition insert_case2 (rotate : callback) (s : side) (t : rb_state) (node parent : Z)
    : outcome (rb_state * Z * Z) :=
  let* tmp := get_child s t node in
  let* t := set_child (opp s) t parent tmp in
  let* t := set_child s t node parent in
  let* t := set_parent_color_opt t tmp parent RB_BLACK in
  let* t := rb_set_parent_color t parent node RB_RED in
  let* t := call rotate t parent node in
  let* tmp := get_child (opp s) t node in
  Ret (t, node, tmp).

(** Case 3: rotation at the grandparent. *)
Definition insert_case3 (rotate : callback) (s : side) (t : rb_state) (parent gparent tmp : Z)
    : outcome rb_state :=
  let* t := set_child s t gparent tmp in
  let* t := set_child (opp s) t parent gparent in
  let* t := set_parent_color_opt t tmp gparent RB_BLACK in
  let* t := __rb_rotate_set_parents t gparent parent RB_RED in
  call rotate t gparent parent.

(** The [while (true)] loop of [__rb_insert]. *)
Fixpoint rb_insert_loop (fuel : nat) (rotate : callback) (t : rb_state) (node parent : Z)
    : outcome rb_state :=
  match fuel with
  | O => Fuel
  | S fuel' =>
      if parent =? 0 then rb_set_parent_color t node 0 RB_BLACK
      else
        let* black := rb_is_black t parent in
        if black : bool then Ret t
        else
          let* gparent := rb_red_parent t parent in
          let* tmp := get_child Right t gparent in
          let s := if negb (parent =? tmp) then Left else Right in
          let* tmp := get_child (opp s) t gparent in
          let* red := is_red_opt t tmp in
          if red : bool then
            (* case 1 *)
            let* t := rb_set_parent_color t tmp gparent RB_BLACK in
            let* t := rb_set_parent_color t parent gparent RB_BLACK in
            let node := gparent in
            let* parent := rb_parent t node in
            let* t := rb_set_parent_color t node parent RB_RED in
            rb_insert_loop fuel' rotate t node parent
          else
            let* tmp := get_child (opp s) t parent in
            let* (t, parent, tmp) :=
              if node =? tmp then insert_case2 rotate s t node parent else Ret (t, parent, tmp) in
            insert_case3 rotate s t parent gparent tmp
  end.

(** The loop goes up the tree, so the nodes of the store bound it. *)
Definition __rb_insert (rotate : callback) (t : rb_state) (node : Z) : outcome rb_state :=
  let* parent := rb_red_parent t node in
  rb_insert_loop (S (size (rb_nodes t))) rotate t node parent.

(** [rb_link_node (node, parent, rb_link)]: [rb_link] is the field on side [s] of
    the parent, or the root's pointer when there is none. *)
Definition rb_link_node (t : rb_state) (node parent : Z) (s : side) : outcome rb_state :=
  let* t := set_pc t node parent in
  let* t := set_child Right t node 0 in
  let* t := set_child Left t node 0 in
  if parent =? 0 then Ret (set_root t node) else set_child s t parent node.

(** The same with [rcu_assign_pointer] for the last store. *)
Definition rb_link_node_rcu (t : rb_state) (node parent : Z) (s : side) : outcome rb_state :=
  let* t := set_pc t node parent in
  let* t := set_child Right t node 0 in
  let* t := set_child Left t node 0 in
  if parent =? 0 then Ret (set_root t node) else set_child s t parent node.

(** ** Erasing *)

(** Case 1: rotation at the parent when the sibling is red; the new sibling. *)
Definition erase_case1 (rotate : callback) (s : side) (t : rb_state) (parent sibling : Z)
    : outcome (rb_state * Z) :=
  let* tmp1 := get_child s t sibling in
  let* t := set_child (opp s) t parent tmp1 in
  let* t := set_child s t sibling parent in
  let* t := rb_set_parent_color t tmp1 parent RB_BLACK in
  let* t := __rb_rotate_set_parents t parent sibling RB_RED in
  let* t := call rotate t parent sibling in
  Ret (t, tmp1).

(** Case 3: rotation at the sibling; the new [tmp1] and [sibling]. *)
Definition erase_case3 (rotate : callback) (s : side) (t : rb_state) (parent sibling tmp2 : Z)
    : outcome (rb_state * Z * Z) :=
  let* tmp1 := get_child (opp s) t tmp2 in
  let* t := set_child s t sibling tmp1 in
  let* t := set_child (opp s) t tmp2 sibling in
  let* t := set_child (opp s) t parent tmp2 in
  let* t := set_parent_color_opt t tmp1 sibling RB_BLACK in
  let* t := call rotate t sibling tmp2 in
  Ret (t, sibling, tmp2).

(** Case 4: rotation at the parent and color flips. *)
Definition erase_case4 (rotate : callback) (s : side) (t : rb_state) (parent sibling tmp1 : Z)
    : outcome rb_state :=
  let* tmp2 := get_child s t sibling in
  let* t := set_child (opp s) t parent tmp2 in
  let* t := set_child s t sibling parent in
  let* t := rb_set_parent_color t tmp1 sibling RB_BLACK in
  let* t := set_parent_opt t tmp2 parent in
  let* t := __rb_rotate_set_parents t parent sibling RB_BLACK in
  call rotate t parent sibling.

(** The [while (true)] loop of [____rb_erase_color]. *)
Fixpoint erase_loop (fuel : nat) (rotate : callback) (t : rb_state) (node parent : Z)
    : outcome rb_state :=
  match fuel with
  | O => Fuel
  | S fuel' =>
      let* sibling := get_child Right t parent in
      let s := if negb (node =? sibling) then Left else Right in
      let* sibling := get_child (opp s) t parent in
      let* red := rb_is_red t sibling in
      let* (t, sibling) :=
        if red : bool then erase_case1 rotate s t parent sibling else Ret (t, sibling) in
      let* tmp1 := get_child (opp s) t sibling in
      let* black1 := is_black_opt t tmp1 in
      if black1 : bool then
        let* tmp2 := get_child s t sibling in
        let* black2 := is_black_opt t tmp2 in
        if black2 : bool then
          (* case 2 *)
          let* t := rb_set_parent_color t sibling parent RB_RED in
          let* pred := rb_is_red t parent in
          if pred : bool then rb_set_black t parent
          else
            let node := parent in
            let* parent := rb_parent t node in
            if negb (parent =? 0) then erase_loop fuel' rotate t node parent else Ret t
        else
          let* (t, tmp1, sibling) := erase_case3 rotate s t parent sibling tmp2 in
          erase_case4 rotate s t parent sibling tmp1
      else erase_case4 rotate s t parent sibling tmp1
  end.

Definition ____rb_erase_color (rotate : callback) (t : rb_state) (parent : Z) : outcome rb_state :=
  erase_loop (S (size (rb_nodes t))) rotate t 0 parent.

Definition __rb_erase_color (t : rb_state) (parent : Z) (rotate : callback) : outcome rb_state :=
  ____rb_erase_color rotate t parent.

(** [do { parent = successor; ... } while (tmp);] *)
Fixpoint find_successor (fuel : nat) (t : rb_state) (successor tmp : Z) : outcome (Z * Z) :=
  match fuel with
  | O => Fuel
  | S fuel' =>
      let parent := successor in
      let successor := tmp in
      let* tmp := get_child Left t tmp in
      if negb (tmp =? 0) then find_successor fuel' t successor tmp else Ret (parent, successor)
  end.

(** The last case of [__rb_erase_augmented]: two children. *)
Definition erase_two_children (augment : rb_augment_callbacks) (t : rb_state) (node child : Z)
    : outcome (rb_state * Z) :=
  let* tmp := get_child Left t child in
  let* (t, parent, successor, child2) :=
    if tmp =? 0 then
      let successor := child in
      let* child2 := get_child Right t successor in
      let* t := call (aug_copy augment) t node successor in
      Ret (t, successor, successor, child2)
    else
      let* (parent, successor) := find_successor (S (size (rb_nodes t))) t child tmp in
      let* child2 := get_child Right t successor in
      let* t := set_child Left t parent child2 in
      let* t := set_child Right t successor child in
      let* t := rb_set_parent t child successor in
      let* t := call (aug_copy augment) t node successor in
      let* t := call (aug_propagate augment) t parent successor in
      Ret (t, parent, successor, child2) in
  let* tmp := get_child Left t node in
  let* t := set_child Left t successor tmp in
  let* t := rb_set_parent t tmp successor in
  let* pc := get_pc t node in
  let tmp := __rb_parent pc in
  let* t := __rb_change_child t node successor tmp in
  let* (t, rebalance) :=
    if negb (child2 =? 0) then
      let* t := set_pc t successor pc in
      let* t := rb_set_parent_color t child2 parent RB_BLACK in
      Ret (t, 0)
    else
      let* pc2 := get_pc t successor in
      let* t := set_pc t successor pc in
      Ret (t, if __rb_is_black pc2 then parent else 0) in
  let tmp := successor in
  let* t := call (aug_propagate augment) t tmp 0 in
    Ret (t, rebalance).

Definition __rb_erase_augmented (augment : rb_augment_callbacks) (t : rb_state) (node : Z)
    : outcome (rb_state * Z) :=
  let* child := get_child Right t node in
  let* tmp := get_child Left t node in
  if tmp =? 0 then
    let* pc := get_pc t node in
    let parent := __rb_parent pc in
    let* t := __rb_change_child t node child parent in
    let* (t, rebalance) :=
      if negb (child =? 0) then
        let* t := set_pc t child pc in Ret (t, 0)
      else Ret (t, if __rb_is_black pc then parent else 0) in
    let tmp := parent in
    let* t := call (aug_propagate augment) t tmp 0 in
    Ret (t, rebalance)
  else if child =? 0 then
    let* pc := get_pc t node in
    let* t := set_pc t tmp pc in
    let parent := __rb_parent pc in
    let* t := __rb_change_child t node tmp parent in
    let tmp := parent in
    let* t := call (aug_propagate augment) t tmp 0 in
    Ret (t, 0)
  else erase_two_children augment t node child.

(** ** Entry points *)

Definition dummy_propagate (h : nodes) (node stop : Z) (d : D) : outcome D := Ret d.
Definition dummy_copy (h : nodes) (old new : Z) (d : D) : outcome D := Ret d.
Definition dummy_rotate (h : nodes) (old new : Z) (d : D) : outcome D := Ret d.
Definition dummy_callbacks : rb_augment_callbacks := mk_callbacks dummy_propagate dummy_copy dummy_rotate.

Definition rb_insert_color (t : rb_state) (node : Z) : outcome rb_state := __rb_insert dummy_rotate t node.

Definition rb_erase (t : rb_state) (node : Z) : outcome rb_state :=
  let* (t, rebalance) := __rb_erase_augmented dummy_callbacks t node in
  if negb (rebalance =? 0) then ____rb_erase_color dummy_rotate t rebalance else Ret t.

Definition __rb_insert_augmented (t : rb_state) (node : Z) (rotate : callback) : outcome rb_state :=
  __rb_insert rotate t node.

Definition rb_insert_augmented (t : rb_state) (node : Z) (augment : rb_augment_callbacks) : outcome rb_state :=
  __rb_insert_augmented t node (aug_rotate augment).

Definition rb_erase_augmented (t : rb_state) (node : Z) (augment : rb_augment_callbacks) : outcome rb_state :=
  let* (t, rebalance) := __rb_erase_augmented augment t node in
  if negb (rebalance =? 0) then __rb_erase_color t rebalance (aug_rotate augment) else Ret t.

(** ** Walking *)

(** [while (n->rb_left) n = n->rb_left;] *)
Fixpoint descend (fuel : nat) (s : side) (t : rb_state) (n : Z) : outcome Z :=
  match fuel with
  | O => Fuel
  | S fuel' =>
      let* c := get_child s t n in
      if negb (c =? 0) then descend fuel' s t c else Ret n
  end.

Definition rb_first (t : rb_state) : outcome Z :=
  if rb_root t =? 0 then Ret 0 else descend (S (size (rb_nodes t))) Left t (rb_root t).

Definition rb_last (t : rb_state) : outcome Z :=
  if rb_root t =? 0 then Ret 0 else descend (S (size (rb_nodes t))) Right t (rb_root t).

(** [while ((parent = rb_parent(node)) && node == parent->rb_right) node = parent;] *)
Fixpoint ascend (fuel : nat) (s : side) (t : rb_state) (node : Z) : outcome Z :=
  match fuel with
  | O => Fuel
  | S fuel' =>
      let* parent := rb_parent t node in
      if negb (parent =? 0) then
        let* c := get_child s t parent in
        if node =? c then ascend fuel' s t parent else Ret parent
      else Ret parent
  end.

Definition RB_EMPTY_ROOT (t : rb_state) : bool := rb_root t =? 0.

Definition RB_EMPTY_NODE (t : rb_state) (node : Z) : outcome bool :=
  let* pc := get_pc t node in Ret (pc =? node).

Definition RB_CLEAR_NODE (t : rb_state) (node : Z) : outcome rb_state := set_pc t node node.

(** [rb_next] with [s] the right side, [rb_prev] with [s] the left one. *)
Definition rb_step (s : side) (t : rb_state) (node : Z) : outcome Z :=
  let* empty := RB_EMPTY_NODE t node in
  if empty : bool then Ret 0
  else
    let* c := get_child s t node in
    if negb (c =? 0) then descend (S (size (rb_nodes t))) (opp s) t c
    else ascend (S (size (rb_nodes t))) s t node.

Definition rb_next (t : rb_state) (node : Z) : outcome Z := rb_step Right t node.
Definition rb_prev (t : rb_state) (node : Z) : outcome Z := rb_step Left t node.

(** [*new = *victim] and the parents of the children. *)
Definition replace_links (t : rb_state) (victim new : Z) : outcome rb_state :=
  let* v := get t victim in
  let* t := put t new v in
  let* l := get_child Left t victim in
  let* t := set_parent_opt t l new in
  let* r := get_child Right t victim in
  set_parent_opt t r new.

Definition rb_replace_node (t : rb_state) (victim new : Z) : outcome rb_state :=
  let* parent := rb_parent t victim in
  let* t := replace_links t victim new in
  __rb_change_child t victim new parent.

Definition rb_replace_node_rcu (t : rb_state) (victim new : Z) : outcome rb_state :=
  let* parent := rb_parent t victim in
  let* t := replace_links t victim new in
  __rb_change_child_rcu t victim new parent.

Fixpoint left_deepest (fuel : nat) (t : rb_state) (node : Z) : outcome Z :=
  match fuel with
  | O => Fuel
  | S fuel' =>
      let* l := get_child Left t node in
      if negb (l =? 0) then left_deepest fuel' t l
      else
        let* r := get_child Right t node in
        if negb (r =? 0) then left_deepest fuel' t r else Ret node
  end.

Definition rb_left_deepest_node (t : rb_state) (node : Z) : outcome Z :=
  left_deepest (S (size (rb_nodes t))) t node.

Definition rb_next_postorder (t : rb_state) (node : Z) : outcome Z :=
  if node =? 0 then Ret 0
  else
    let* parent := rb_parent t node in
    if parent =? 0 then Ret parent
    else
      let* l := get_child Left t parent in
      let* r := get_child Right t parent in
      if (node =? l) && negb (r =? 0) then rb_left_deepest_node t r else Ret parent.

Definition rb_first_postorder (t : rb_state) : outcome Z :=
  if rb_root t =? 0 then Ret 0 else rb_left_deepest_node t (rb_root t).

(** [rbtree_postorder_for_each_entry_safe (pos, n, root, field) free (pos);]: the
    nodes freed, in order. *)
Fixpoint postorder_free (fuel : nat) (t : rb_state) (pos : Z) : outcome (rb_state * list Z) :=
  match fuel with
  | O => Fuel
  | S fuel' =>
      if negb (pos =? 0) then
        let* n := rb_next_postorder t pos in
        let* _ := get t pos in
        let t := mk_rb (delete pos (rb_nodes t)) (rb_root t) (rb_data t) in
        let* (t, l) := postorder_free fuel' t n in
        Ret (t, pos :: l)
      else Ret (t, [])
  end.

Definition rbtree_postorder_for_each_entry_safe (t : rb_state) : outcome (rb_state * list Z) :=
  let* pos := rb_first_postorder t in postorder_free (S (size (rb_nodes t))) t pos.
End RB.

Arguments rb_state : clear implicits.
Arguments rb_augment_callbacks : clear implicits.

(** ** [RB_DECLARE_CALLBACKS] *)
Section Callbacks.
(** The caller's [rbaugmented] fields, by the address of the node of their entry,
    and [rbcompute]. *)
Context {V : Type} `{!EqDecision V}.

Abbreviation fields := (gmap Z V).

Variable rbcompute : nodes -> fields -> Z -> outcome V.

Definition field (d : fields) (x : Z) : outcome V :=
  match d !! x with Some v => Ret v | None => Ub end.

(** [while (rb != stop)] *)
Fixpoint propagate_loop (fuel : nat) (h : nodes) (rb stop : Z) (d : fields) : outcome fields :=
  match fuel with
  | O => Fuel
  | S fuel' =>
      if negb (rb =? stop) then
        let* augmented := rbcompute h d rb in
        let* v := field d rb in
        if decide (v = augmented) then Ret d
        else
          let d := <[rb := augmented]> d in
          let* rb := rb_parent (mk_rb h 0 d) rb in
          propagate_loop fuel' h rb stop d
      else Ret d
  end.

Definition rb_propagate (h : nodes) (rb stop : Z) (d : fields) : outcome fields :=
  propagate_loop (S (size h)) h rb stop d.

Definition rb_copy (h : nodes) (rb_old rb_new : Z) (d : fields) : outcome fields :=
  let* v := field d rb_old in
  let* _ := field d rb_new in
  Ret (<[rb_new := v]> d).

Definition rb_rotate (h : nodes) (rb_old rb_new : Z) (d : fields) : outcome fields :=
  let* v := field d rb_old in
  let* _ := field d rb_new in
  let d := <[rb_new := v]> d in
  let* v := rbcompute h d rb_old in
  Ret (<[rb_old := v]> d).

Definition RB_DECLARE_CALLBACKS : rb_augment_callbacks fields := mk_callbacks rb_propagate rb_copy rb_rotate.
End Callbacks.
