(* ===== verification/RBTreeShape.v ===== *)
(** * The shape of red-black trees

    Binary trees with colors, the contexts around a subtree, the in-order
    sequence, and the two balance conditions in the comment at the top of
    lib/rbtree.c: no red node has a red child (4), and every path to a leaf has as
    many black nodes (5).  They bound the height by twice the logarithm of the
    number of nodes. *)
From Stdlib Require Import ZArith Lia Bool.
From stdpp Require Import base numbers list gmap.
From S2P Require Import Prelude RBTree.

Inductive color := Red | Black.

#[export] Instance side_eq_dec : EqDecision side.
Proof. solve_decision. Defined.

#[export] Instance color_eq_dec : EqDecision color.
Proof. solve_decision. Defined.

Inductive tree := E | T (c : color) (l : tree) (x : Z) (r : tree).

#[export] Instance tree_eq_dec : EqDecision tree.
Proof. solve_decision. Defined.

(** One step down: the side taken, the node left and its other subtree. *)
Inductive frame := F (s : side) (c : color) (x : Z) (other : tree).

(** The node with [a] on side [s] and [b] on the other. *)
Definition node (s : side) (c : color) (a : tree) (x : Z) (b : tree) : tree :=
  match s with Left => T c a x b | Right => T c b x a end.

(** The tree around a subtree, innermost frame first. *)
Fixpoint plug (k : list frame) (t : tree) : tree :=
  match k with
  | [] => t
  | F s c x o :: k => plug k (node s c t x o)
  end.

Fixpoint elems (t : tree) : list Z :=
  match t with E => [] | T _ l x r => elems l ++ x :: elems r end.

(** What stands to the left and to the right of the hole. *)
Fixpoint before (k : list frame) : list Z :=
  match k with
  | [] => []
  | F Left _ _ _ :: k => before k
  | F Right _ x o :: k => before k ++ elems o ++ [x]
  end.

Fixpoint after (k : list frame) : list Z :=
  match k with
  | [] => []
  | F Left _ x o :: k => x :: elems o ++ after k
  | F Right _ _ _ :: k => after k
  end.

Definition color_of (t : tree) : color := match t with E => Black | T c _ _ _ => c end.

Definition paint (c : color) (t : tree) : tree := match t with E => E | T _ l x r => T c l x r end.

(** Conditions 4 and 5 with [n] black nodes on each path. *)
Fixpoint bal (n : nat) (t : tree) : Prop :=
  match t with
  | E => n = O
  | T Red l _ r => color_of l = Black /\ color_of r = Black /\ bal n l /\ bal n r
  | T Black l _ r => exists m, n = S m /\ bal m l /\ bal m r
  end.

(** A context that can take a red tree. *)
Definition takes_red (k : list frame) : Prop :=
  match k with F _ Black _ _ :: _ => True | _ => False end.

(** The conditions for a context whose hole gets [n] black nodes. *)
Fixpoint kbal (n : nat) (k : list frame) : Prop :=
  match k with
  | [] => True
  | F _ Red _ o :: k => color_of o = Black /\ bal n o /\ takes_red k /\ kbal n k
  | F _ Black _ o :: k => bal n o /\ kbal (S n) k
  end.

(** A red-black tree: conditions 2, 4 and 5. *)
Definition balanced (t : tree) : Prop := color_of t = Black /\ exists n, bal n t.

Fixpoint height (t : tree) : nat :=
  match t with E => O | T _ l _ r => S (Nat.max (height l) (height r)) end.

Lemma node_opp s c a x b : node (opp s) c a x b = node s c b x a.
Proof. by destruct s. Qed.

Lemma node_as s c l x r : exists a b, T c l x r = node s c a x b.
Proof. destruct s; [by exists l, r|by exists r, l]. Qed.

Lemma paint_same c t : color_of t = c -> paint c t = t.
Proof. by destruct t; simpl; [|intros ->]. Qed.

(** ** Sequences *)

(** A rotation does not change the sequence. *)
Lemma elems_rotate s c1 c2 c3 c4 a x b y c :
  elems (node s c1 (node s c2 a x b) y c) = elems (node s c3 a x (node s c4 b y c)).
Proof. destruct s; simpl; by rewrite <- app_assoc. Qed.

Lemma elems_recolor s c1 c2 a x b : elems (node s c1 a x b) = elems (node s c2 a x b).
Proof. by destruct s. Qed.

Lemma elems_plug k t : elems (plug k t) = before k ++ elems t ++ after k.
Proof.
  revert t; induction k as [|[[] c x o] k IH]; intros t; simpl.
  - by rewrite app_nil_r.
  - rewrite IH; simpl. by rewrite <- !app_assoc.
  - rewrite IH; simpl. by rewrite <- !app_assoc.
Qed.

Lemma plug_app k1 k2 t : plug (k1 ++ k2) t = plug k2 (plug k1 t).
Proof. revert t; induction k1 as [|[s c x o] k1 IH]; intros t; simpl; auto. Qed.

Lemma elems_paint c t : elems (paint c t) = elems t.
Proof. by destruct t. Qed.

Lemma before_app k1 k2 : before (k1 ++ k2) = before k2 ++ before k1.
Proof.
  induction k1 as [|[[] c x o] k1 IH]; simpl; [by rewrite app_nil_r|done|].
  rewrite IH. by rewrite <- app_assoc.
Qed.

Lemma after_app k1 k2 : after (k1 ++ k2) = after k1 ++ after k2.
Proof.
  induction k1 as [|[[] c x o] k1 IH]; simpl; [done| |done].
  rewrite IH. by rewrite <- app_assoc.
Qed.

Lemma length_context k t : (length k <= length (elems (plug k t)))%nat.
Proof.
  rewrite elems_plug, !length_app. induction k as [|[[] c x o] k IH]; simpl; [lia|rewrite length_app; lia|].
  rewrite !length_app; simpl. lia.
Qed.

(** A node of a tree is the root of a subtree in a context. *)
Lemma elem_context x t : x ∈ elems t -> exists k c l r, t = plug k (T c l x r).
Proof.
  cut (forall k, x ∈ elems t -> exists k' c l r, plug k t = plug k' (T c l x r)).
  { intros H Hx. exact (H [] Hx). }
  induction t as [|c l IHl y r IHr]; intros k; simpl; [by rewrite elem_of_nil|].
  rewrite elem_of_app, elem_of_cons; intros [Hx|[->|Hx]].
  - exact (IHl (F Left c y r :: k) Hx).
  - eauto.
  - exact (IHr (F Right c y l :: k) Hx).
Qed.

(** ** Balance *)

Lemma bal_det n m t : bal n t -> bal m t -> n = m.
Proof.
  revert n m. induction t as [|[] l IH x r _]; intros n m; simpl.
  - lia.
  - intros (_ & _ & H1 & _) (_ & _ & H2 & _); eauto.
  - intros [p (-> & H1 & _)] [q (-> & H2 & _)]. f_equal; eauto.
Qed.

Lemma bal_node s c n a x b : bal n (node s c a x b) <->
  match c with
  | Red => color_of a = Black /\ color_of b = Black /\ bal n a /\ bal n b
  | Black => exists m, n = S m /\ bal m a /\ bal m b
  end.
Proof. destruct s, c; simpl; [tauto|done|tauto|]. split; intros [m H]; exists m; tauto. Qed.

Lemma color_node s c a x b : color_of (node s c a x b) = c.
Proof. by destruct s. Qed.

Lemma bal_paint n t : color_of t = Red -> bal n t -> bal (S n) (paint Black t).
Proof. destruct t as [|[] l x r]; simpl; try done. intros _ (_ & _ & Hl & Hr). eauto. Qed.

Lemma plug_balanced k n t : bal n t -> kbal n k -> (color_of t = Red -> takes_red k) -> balanced (plug k t).
Proof.
  revert n t; induction k as [|[s [] x o] k IH]; intros n t Ht Hk Hc; simpl in *.
  - split; [|eauto]. destruct (color_of t); [by destruct Hc|done].
  - destruct Hk as (Ho & Hb & Hr & Hk). apply (IH n); [|done|done].
    rewrite bal_node. destruct (color_of t); [by destruct Hc|done].
  - destruct Hk as (Hb & Hk). apply (IH (S n)); [|done|by rewrite color_node].
    rewrite bal_node. eauto.
Qed.

Lemma balanced_plug k t : balanced (plug k t) ->
  exists n, bal n t /\ kbal n k /\ (color_of t = Red -> takes_red k).
Proof.
  revert t; induction k as [|[s c x o] k IH]; intros t; simpl.
  - intros [Hc [n Hn]]. exists n. rewrite Hc. naive_solver.
  - intros H. destruct (IH _ H) as (n & Hn & Hk & Hc). rewrite bal_node in Hn; rewrite color_node in Hc.
    destruct c.
    + destruct Hn as (Ht & Ho & Hnt & Hno). exists n. rewrite Ht. naive_solver.
    + destruct Hn as (m & -> & Hnt & Hno). exists m. auto.
Qed.

(** A tree with a black node on each path, by its color. *)
Lemma black_node s n t : color_of t = Black -> bal (S n) t ->
  exists a y b, t = node s Black a y b /\ bal n a /\ bal n b.
Proof.
  destruct t as [|[] l y rt]; simpl; [lia|done|]. intros _ [m (Hm & Hl & Hr)]. simplify_eq.
  destruct s; [exists l, y, rt|exists rt, y, l]; done.
Qed.

Lemma red_node s n t : color_of t = Red -> bal n t ->
  exists a y b, t = node s Red a y b /\ color_of a = Black /\ color_of b = Black /\ bal n a /\ bal n b.
Proof.
  destruct t as [|[] l y rt]; simpl; [done| |done]. intros _ (Hcl & Hcr & Hl & Hr).
  destruct s; [exists l, y, rt|exists rt, y, l]; done.
Qed.

(** ** Height *)

Lemma bal_size n t : bal n t -> (2 ^ n <= S (length (elems t)))%nat.
Proof.
  revert n; induction t as [|[] l IHl x r IHr]; intros n; simpl.
  - intros ->; simpl; lia.
  - intros (_ & _ & Hl & _). apply IHl in Hl. rewrite length_app; simpl. lia.
  - intros [m (-> & Hl & Hr)]. apply IHl in Hl; apply IHr in Hr. rewrite length_app, Nat.pow_succ_r'; simpl. lia.
Qed.

Lemma bal_height n t : bal n t -> (height t <= 2 * n + (match color_of t with Red => 1 | Black => 0 end))%nat.
Proof.
  revert n; induction t as [|[] l IHl x r IHr]; intros n; simpl.
  - lia.
  - intros (Hcl & Hcr & Hl & Hr). apply IHl in Hl; apply IHr in Hr. rewrite Hcl in Hl; rewrite Hcr in Hr. lia.
  - intros [m (-> & Hl & Hr)]. apply IHl in Hl; apply IHr in Hr. destruct (color_of l), (color_of r); lia.
Qed.

(** The O(log n) guarantee. *)
Lemma balanced_height t : balanced t -> (height t <= 2 * Nat.log2 (S (length (elems t))))%nat.
Proof.
  intros [Hc [n Hn]]. pose proof (bal_height n t Hn) as Hh; rewrite Hc in Hh.
  pose proof (Nat.log2_le_mono _ _ (bal_size n t Hn)) as Hl. rewrite Nat.log2_pow2 in Hl; lia.
Qed.
