(* ===== verification/RBTreeRep.v ===== *)
(** * Trees in the store

    [cells t p] lists the nodes of tree [t] under parent [p] with their contents,
    [kcells k hp] those of a context around the pointer [hp].  [own R L h] says
    that the store [h] has the contents [L] and is [R] elsewhere; a store to a
    node changes its entry of [L] alone.  The lemmas [runs_...] execute the
    operations of the code against such a list. *)
From Stdlib Require Import ZArith Lia Bool.
From stdpp Require Import base numbers list gmap.
From S2P Require Import Prelude RBTree RBTreeShape.

(** ** Words *)

(** Addresses of nodes: 32 bits, aligned, not NULL. *)
Definition valid (p : Z) : Prop := 0 < p < 2 ^ 32 /\ p mod 4 = 0.

Definition link (p : Z) : Prop := p = 0 \/ valid p.

Definition cz (c : color) : Z := match c with Red => RB_RED | Black => RB_BLACK end.

Definition pack (p : Z) (c : color) : Z := Z.lor p (cz c).

Lemma parent_pack p c : link p -> __rb_parent (pack p c) = p.
Proof.
  intros Hp. unfold __rb_parent, pack. rewrite Z.land_lor_distr_l.
  replace (Z.land (cz c) (u32 (Z.lnot 3))) with 0 by by destruct c.
  rewrite Z.lor_0_r. destruct Hp as [->|[Hr Ha]]; [done|].
  rewrite (land_wrap 32) by lia. change (Z.lnot 3) with (Z.lnot (2 ^ 2 - 1)).
  rewrite land_lnot_ones by lia. change (2 ^ 2) with 4. lia.
Qed.

Lemma color_pack p c : link p -> __rb_color (pack p c) = cz c.
Proof.
  intros Hp. unfold __rb_color, pack. rewrite Z.land_lor_distr_l.
  replace (Z.land p 1) with 0; [by destruct c|]. change 1 with (Z.ones 1). rewrite Z.land_ones by lia.
  destruct Hp as [->|[_ Ha]]; [done|]. change (2 ^ 1) with 2. symmetry. apply Z.mod_divide; [lia|].
  apply Z.mod_divide in Ha; [|lia]. destruct Ha as [q ->]. exists (2 * q). lia.
Qed.

Lemma is_red_pack p c : link p -> __rb_is_red (pack p c) = match c with Red => true | Black => false end.
Proof. intros Hp. unfold __rb_is_red. rewrite color_pack by done. by destruct c. Qed.

Lemma is_black_pack p c : link p -> __rb_is_black (pack p c) = match c with Red => false | Black => true end.
Proof. intros Hp. unfold __rb_is_black. rewrite color_pack by done. by destruct c. Qed.

Lemma pack_red p : pack p Red = p.
Proof. apply Z.lor_0_r. Qed.

Lemma pack_comm p c : Z.lor (cz c) p = pack p c.
Proof. apply Z.lor_comm. Qed.

Lemma pack_blacken p c : pack (pack p c) Black = pack p Black.
Proof. unfold pack. rewrite <- Z.lor_assoc. by destruct c. Qed.

(** ** Contents of the store *)

Abbreviation cell := (Z * rb_node)%type.

Definition ptr (t : tree) : Z := match t with E => 0 | T _ _ x _ => x end.

Fixpoint cells (t : tree) (p : Z) : list cell :=
  match t with
  | E => []
  | T c l x r => (x, mk_node (pack p c) (ptr r) (ptr l)) :: cells l x ++ cells r x
  end.

(** The parent of the hole. *)
Definition above (k : list frame) : Z := match k with [] => 0 | F _ _ x _ :: _ => x end.

Definition side_node (s : side) (pc a b : Z) : rb_node :=
  match s with Left => mk_node pc b a | Right => mk_node pc a b end.

Fixpoint kcells (k : list frame) (hp : Z) : list cell :=
  match k with
  | [] => []
  | F s c x o :: k => (x, side_node s (pack (above k) c) hp (ptr o)) :: cells o x ++ kcells k x
  end.

(** The root's pointer. *)
Fixpoint top (k : list frame) (hp : Z) : Z :=
  match k with [] => hp | F _ _ x _ :: k => top k x end.

Record own (R : nodes) (L : list cell) (h : nodes) : Prop := mk_own {
  own_nodup : NoDup L.*1;
  own_addresses : Forall valid L.*1;
  own_store : h = list_to_map L ∪ R
}.

(** The entry of [p] in a list of contents changed by [f]. *)
Inductive upd (p : Z) (f : rb_node -> rb_node) : list cell -> list cell -> Prop :=
| upd_here n L : upd p f ((p, n) :: L) ((p, f n) :: L)
| upd_there c L L' : upd p f L L' -> upd p f (c :: L) (c :: L').

(** A part [a] of a list of contents changed to [b]. *)
Inductive swap (a b : list cell) : list cell -> list cell -> Prop :=
| swap_end : swap a b a b
| swap_here L : swap a b (a ++ L) (b ++ L)
| swap_there c L L' : swap a b L L' -> swap a b (c :: L) (c :: L')
| swap_skip l L L' : swap a b L L' -> swap a b (l ++ L) (l ++ L').

Lemma swap_parts a b L L' : swap a b L L' -> exists M, L ≡ₚ a ++ M /\ L' ≡ₚ b ++ M.
Proof.
  induction 1 as [|L|c L L' _ (M & H1 & H2)|l L L' _ (M & H1 & H2)].
  - exists []. by rewrite !app_nil_r.
  - by exists L.
  - exists (c :: M). rewrite H1, H2. by rewrite <- !Permutation_middle.
  - exists (l ++ M). rewrite H1, H2. split; solve_Permutation.
Qed.

#[export] Instance own_perm R : Proper ((≡ₚ) ==> (=) ==> iff) (own R).
Proof.
  assert (Hw : forall L L' h, L ≡ₚ L' -> own R L h -> own R L' h).
  { intros L L' h HL [Hn Hv ->]. split; [by rewrite <- HL|by rewrite <- HL|].
    by rewrite (list_to_map_proper L L' Hn HL). }
  intros L L' HL h ? <-. split; apply Hw; done.
Qed.

Lemma upd_split p f L L' : upd p f L L' ->
  exists L1 n L2, L = L1 ++ (p, n) :: L2 /\ L' = L1 ++ (p, f n) :: L2.
Proof.
  induction 1 as [n L|c L L' _ (L1 & n & L2 & -> & ->)]; [by exists [], n, L|].
  by exists (c :: L1), n, L2.
Qed.

Lemma own_lookup R L h p n : own R L h -> (p, n) ∈ L -> h !! p = Some n.
Proof.
  intros [Hn _ ->] Hin. apply lookup_union_Some_l. by apply elem_of_list_to_map_1.
Qed.

Lemma own_outside R L h p : own R L h -> p ∉ L.*1 -> h !! p = R !! p.
Proof.
  intros [_ _ ->] Hin. apply lookup_union_r. by apply not_elem_of_list_to_map_1.
Qed.

Lemma own_insert R L L' h p f n : own R L h -> upd p f L L' -> h !! p = Some n -> own R L' (<[p := f n]> h).
Proof.
  intros Ho Hu Hp. destruct (upd_split _ _ _ _ Hu) as (L1 & m & L2 & -> & ->).
  assert (m = n) as ->.
  { rewrite (own_lookup R _ h p m Ho) in Hp; [by simplify_eq|set_solver]. }
  assert (HP : forall v, L1 ++ (p, v) :: L2 ≡ₚ (p, v) :: L1 ++ L2) by (intros v; symmetry; apply Permutation_middle).
  rewrite HP in Ho |- *. destruct Ho as [Hn Hv ->]. split; [done|done|].
  rewrite !list_to_map_cons, <- !insert_union_l. by rewrite insert_insert_eq.
Qed.

(** A node that is no part of the tree any more, and one that is to be. *)
Lemma own_drop R x n L h : own R ((x, n) :: L) h -> own (<[x := n]> R) L h.
Proof.
  intros [Hn Hv ->]. apply NoDup_cons in Hn as [Hx Hn]. apply Forall_cons in Hv as [_ Hv].
  split; [done|done|]. rewrite list_to_map_cons, <- insert_union_l.
  rewrite insert_union_r; [done|]. by apply not_elem_of_list_to_map_1.
Qed.

Lemma own_take R x n L h : own R L h -> x ∉ L.*1 -> valid x -> R !! x = Some n -> own R ((x, n) :: L) h.
Proof.
  intros [Hn Hv ->] Hx Hval HR. split; [by apply NoDup_cons|by apply Forall_cons|].
  rewrite list_to_map_cons, <- insert_union_l. rewrite insert_union_r by by apply not_elem_of_list_to_map_1.
  by rewrite insert_id.
Qed.

(** A store to a node that is no part of the list. *)
Lemma own_insert_outside R L h x n : own R L h -> x ∉ L.*1 -> own (<[x := n]> R) L (<[x := n]> h).
Proof.
  intros [Hn Hv ->] Hx. split; [done|done|]. rewrite insert_union_r; [done|]. by apply not_elem_of_list_to_map_1.
Qed.

Lemma own_valid R L h x : own R L h -> x ∈ L.*1 -> valid x.
Proof. intros [_ Hv _] Hx. rewrite Forall_forall in Hv. auto. Qed.

Lemma own_size R L h : own R L h -> (length L <= size h)%nat.
Proof.
  intros [Hn _ ->]. etrans; [|apply map_subseteq_size, map_union_subseteq_l].
  by rewrite map_size_list_to_map.
Qed.

Lemma valid_neq0 x : valid x -> x <> 0.
Proof. unfold valid; lia. Qed.

Lemma valid_link x : valid x -> link x.
Proof. by right. Qed.

Lemma cells_keys t p : (cells t p).*1 ≡ₚ elems t.
Proof.
  revert p; induction t as [|c l IHl x r IHr]; intros p; simpl; [done|].
  rewrite fmap_app, IHl, IHr. apply Permutation_middle.
Qed.

Lemma cells_node s c a x b p :
  cells (node s c a x b) p ≡ₚ (x, side_node s (pack p c) (ptr a) (ptr b)) :: cells a x ++ cells b x.
Proof. destruct s; simpl; [done|]. by rewrite (Permutation_app_comm (cells b x)). Qed.

Lemma ptr_node s c a x b : ptr (node s c a x b) = x.
Proof. by destruct s. Qed.

Lemma top_plug k t : ptr (plug k t) = top k (ptr t).
Proof. revert t; induction k as [|[s c x o] k IH]; intros t; simpl; [done|]. by rewrite IH, ptr_node. Qed.

(** A context inside a tree, below the node [b]. *)
Definition up_to (b : Z) (k : list frame) : Z := match k with [] => b | F _ _ x _ :: _ => x end.

Fixpoint kcells_to (b : Z) (k : list frame) (hp : Z) : list cell :=
  match k with
  | [] => []
  | F s c x o :: k => (x, side_node s (pack (up_to b k) c) hp (ptr o)) :: cells o x ++ kcells_to b k x
  end.

Lemma kcells_to_0 k hp : kcells k hp = kcells_to 0 k hp.
Proof. revert hp; induction k as [|[s c x o] k IH]; intros hp; simpl; [done|]. by rewrite IH. Qed.

Lemma up_app k1 k2 : above (k1 ++ k2) = up_to (above k2) k1.
Proof. by destruct k1 as [|[s c x o] k1]. Qed.

Lemma up_to_app b k1 k2 : up_to b (k1 ++ k2) = up_to (up_to b k2) k1.
Proof. by destruct k1 as [|[s c x o] k1]. Qed.

Lemma top_app k1 k2 hp : top (k1 ++ k2) hp = top k2 (top k1 hp).
Proof. revert hp; induction k1 as [|[s c x o] k1 IH]; intros hp; simpl; auto. Qed.

Lemma kcells_to_app b k1 k2 hp : kcells_to b (k1 ++ k2) hp = kcells_to (up_to b k2) k1 hp ++ kcells_to b k2 (top k1 hp).
Proof.
  revert hp; induction k1 as [|[s c x o] k1 IH]; intros hp; simpl; [done|].
  by rewrite IH, up_to_app, app_assoc.
Qed.

Lemma cells_plug_to b k t : cells (plug k t) b ≡ₚ cells t (up_to b k) ++ kcells_to b k (ptr t).
Proof.
  revert t; induction k as [|[s c x o] k IH]; intros t; simpl; [by rewrite app_nil_r|].
  rewrite IH, cells_node, ptr_node. simpl. rewrite <- app_assoc. apply Permutation_middle.
Qed.

Lemma cells_plug k t : cells (plug k t) 0 ≡ₚ cells t (above k) ++ kcells k (ptr t).
Proof. by rewrite kcells_to_0, cells_plug_to. Qed.

Lemma ptr_in t p : t <> E -> ptr t ∈ (cells t p).*1.
Proof. destruct t; simpl; [done|]. intros _. apply list_elem_of_here. Qed.

(** A node is not the root of a tree it is no part of. *)
Lemma own_ptr_ne R L h x n t p : own R L h -> (x, n) :: cells t p ⊆+ L -> x <> ptr t.
Proof.
  intros Ho [L' HL]%submseteq_Permutation. rewrite HL in Ho. cbn [app] in Ho. destruct t as [|c l y r].
  - apply valid_neq0. eapply own_valid; [exact Ho|]. apply list_elem_of_here.
  - destruct Ho as [Hn _ _]. simpl in Hn. apply NoDup_cons in Hn as [Hx _]. set_solver.
Qed.

Lemma up_valid R L h k hp : own R L h -> kcells k hp ⊆+ L -> k <> [] -> valid (above k).
Proof.
  intros Ho [L' HL]%submseteq_Permutation Hk. rewrite HL in Ho. destruct k as [|[s c x o] k]; [done|].
  eapply own_valid; [exact Ho|]. apply list_elem_of_here.
Qed.

Lemma up_link R L h k hp : own R L h -> kcells k hp ⊆+ L -> link (above k).
Proof. intros Ho Hs. destruct k; [by left|]. right. by eapply up_valid. Qed.

(** Which side a child is on, by a comparison with the right one. *)
Lemma side_test s pc p q : p <> q ->
  (if negb (p =? child_of Right (side_node s pc p q)) then Left else Right) = s.
Proof. intros Hne. destruct s; simpl; [by rewrite (proj2 (Z.eqb_neq p q))|by rewrite Z.eqb_refl]. Qed.

Lemma child_same s pc a b : child_of s (side_node s pc a b) = a.
Proof. by destruct s. Qed.

Lemma child_opp s pc a b : child_of (opp s) (side_node s pc a b) = b.
Proof. by destruct s. Qed.

Lemma side_node_opp s pc a b : side_node (opp s) pc a b = side_node s pc b a.
Proof. by destruct s. Qed.

Lemma with_child_same s v pc a b : with_child s v (side_node s pc a b) = side_node s pc v b.
Proof. by destruct s. Qed.

Lemma with_child_opp s v pc a b : with_child (opp s) v (side_node s pc a b) = side_node s pc a v.
Proof. by destruct s. Qed.

Lemma pc_side_node s pc a b : rb_parent_color (side_node s pc a b) = pc.
Proof. by destruct s. Qed.

Lemma set_pc_side_node s pc pc' a b :
  mk_node pc' (rb_right (side_node s pc a b)) (rb_left (side_node s pc a b)) = side_node s pc' a b.
Proof. by destruct s. Qed.

(** ** Execution *)
Definition runs {A} (m : outcome A) (Q : A -> Prop) : Prop := exists a, m = Ret a /\ Q a.

Lemma runs_ret {A} (a : A) (Q : A -> Prop) : Q a -> runs (Ret a) Q.
Proof. intros H; by exists a. Qed.

Lemma runs_bind {A B} (m : outcome A) (k : A -> outcome B) Q : runs m (fun a => runs (k a) Q) -> runs (obind m k) Q.
Proof. intros (a & -> & b & Hb & HQ). by exists b. Qed.

Lemma runs_mono {A} (m : outcome A) (Q Q' : A -> Prop) : runs m Q -> (forall a, Q a -> Q' a) -> runs m Q'.
Proof. intros (a & -> & Ha) H. exists a; auto. Qed.

Section Runs.
Context {D : Type}.
Implicit Types (r : Z) (d : D) (Q : rb_state D -> Prop).

Lemma runs_get R L h r d p n (Q : rb_node -> Prop) :
  own R L h -> (p, n) ∈ L -> Q n -> runs (get (mk_rb h r d) p) Q.
Proof. intros Ho Hp HQ. exists n. unfold get; simpl. by rewrite (own_lookup R L h p n). Qed.

Lemma runs_put R L L' h r d p n' Q :
  own R L h -> upd p (fun _ => n') L L' ->
  (forall h', own R L' h' -> Q (mk_rb h' r d)) -> runs (put (mk_rb h r d) p n') Q.
Proof.
  intros Ho Hu HQ. destruct (upd_split _ _ _ _ Hu) as (L1 & n & L2 & HL & _).
  assert (Hp : h !! p = Some n) by (eapply own_lookup; [exact Ho|]; subst; set_solver).
  unfold put, get; simpl. rewrite Hp; simpl. apply runs_ret. apply HQ.
  exact (own_insert _ _ _ _ _ _ _ Ho Hu Hp).
Qed.

(** A child, which may be NULL in [..._opt], gets a parent and a color, or a
    parent. *)
Lemma runs_set_parent_color R L L' h r d t p q c Q :
  own R L h -> swap (cells t p) (cells (paint c t) q) L L' -> t <> E ->
  (forall h', own R L' h' -> Q (mk_rb h' r d)) ->
  runs (rb_set_parent_color (mk_rb h r d) (ptr t) q (cz c)) Q.
Proof.
  intros Ho (M & HL & HL')%swap_parts Ht HQ. rewrite HL in Ho. destruct t as [|ct l x r0]; [done|]. simpl in *.
  unfold rb_set_parent_color, set_pc. apply runs_bind.
  eapply runs_get; [exact Ho|apply list_elem_of_here|]. eapply runs_put; [exact Ho|apply upd_here|].
  intros h' Hh'. apply HQ. by rewrite HL'.
Qed.

Lemma own_ptr_neq0 R L h t p : own R L h -> cells t p ⊆+ L -> t <> E -> ptr t <> 0.
Proof.
  intros Ho [M HL]%submseteq_Permutation Ht. apply valid_neq0. eapply own_valid; [exact Ho|].
  rewrite HL, fmap_app, elem_of_app. left. by apply ptr_in.
Qed.

Lemma runs_set_parent_color_opt R L L' h r d t p q c Q :
  own R L h -> swap (cells t p) (cells (paint c t) q) L L' ->
  (forall h', own R L' h' -> Q (mk_rb h' r d)) ->
  runs (set_parent_color_opt (mk_rb h r d) (ptr t) q (cz c)) Q.
Proof.
  intros Ho Hs HQ. destruct (swap_parts _ _ _ _ Hs) as (M & HL & HL').
  unfold set_parent_color_opt. destruct (decide (t = E)) as [->|Ht].
  - apply runs_ret. apply HQ. by rewrite HL', <- HL.
  - rewrite (proj2 (Z.eqb_neq (ptr t) 0)); [by eapply runs_set_parent_color|].
    eapply own_ptr_neq0; [exact Ho| |done]. rewrite HL. solve_submseteq.
Qed.

Lemma runs_set_parent R L L' h r d t p q Q :
  own R L h -> swap (cells t p) (cells t q) L L' -> link p -> t <> E ->
  (forall h', own R L' h' -> Q (mk_rb h' r d)) ->
  runs (rb_set_parent (mk_rb h r d) (ptr t) q) Q.
Proof.
  intros Ho (M & HL & HL')%swap_parts Hp Ht HQ. rewrite HL in Ho. destruct t as [|ct l x r0]; [done|]. simpl in *.
  unfold rb_set_parent, rb_color, get_pc, set_pc. do 3 apply runs_bind.
  eapply runs_get; [exact Ho|apply list_elem_of_here|]. do 2 apply runs_ret. apply runs_bind.
  eapply runs_get; [exact Ho|apply list_elem_of_here|]. eapply runs_put; [exact Ho|apply upd_here|].
  intros h' Hh'. apply HQ. rewrite HL'. simpl in Hh'. by rewrite color_pack, pack_comm in Hh'.
Qed.

Lemma runs_set_parent_opt R L L' h r d t p q Q :
  own R L h -> swap (cells t p) (cells t q) L L' -> link p ->
  (forall h', own R L' h' -> Q (mk_rb h' r d)) ->
  runs (set_parent_opt (mk_rb h r d) (ptr t) q) Q.
Proof.
  intros Ho Hs Hp HQ. destruct (swap_parts _ _ _ _ Hs) as (M & HL & HL').
  unfold set_parent_opt. destruct (decide (t = E)) as [->|Ht].
  - apply runs_ret. apply HQ. by rewrite HL', <- HL.
  - rewrite (proj2 (Z.eqb_neq (ptr t) 0)); [by eapply runs_set_parent|].
    eapply own_ptr_neq0; [exact Ho| |done]. rewrite HL. solve_submseteq.
Qed.

(** The color of a child that may be NULL. *)
Lemma runs_is_red_opt R L h r d t p (Q : bool -> Prop) :
  own R L h -> cells t p ⊆+ L -> link p ->
  Q (match color_of t with Red => true | Black => false end) -> runs (is_red_opt (mk_rb h r d) (ptr t)) Q.
Proof.
  intros Ho [M HL]%submseteq_Permutation Hp HQ. rewrite HL in Ho. unfold is_red_opt.
  destruct t as [|ct l x r0]; simpl in *; [by apply runs_ret|].
  rewrite (proj2 (Z.eqb_neq x 0)) by (apply valid_neq0; eapply own_valid; [exact Ho|apply list_elem_of_here]).
  cbn [negb]. unfold rb_is_red, get_pc. do 2 apply runs_bind.
  eapply runs_get; [exact Ho|apply list_elem_of_here|]. do 2 apply runs_ret. simpl. by rewrite is_red_pack.
Qed.

Lemma runs_is_red R L h r d t p (Q : bool -> Prop) :
  own R L h -> cells t p ⊆+ L -> link p -> t <> E ->
  Q (match color_of t with Red => true | Black => false end) -> runs (rb_is_red (mk_rb h r d) (ptr t)) Q.
Proof.
  intros Ho Hs Hp Ht HQ. pose proof (runs_is_red_opt R L h r d t p Q Ho Hs Hp HQ) as Hr.
  unfold is_red_opt in Hr. rewrite (proj2 (Z.eqb_neq (ptr t) 0)) in Hr; [done|].
  by eapply own_ptr_neq0.
Qed.

Lemma runs_is_black_opt R L h r d t p (Q : bool -> Prop) :
  own R L h -> cells t p ⊆+ L -> link p ->
  Q (match color_of t with Red => false | Black => true end) -> runs (is_black_opt (mk_rb h r d) (ptr t)) Q.
Proof.
  intros Ho [M HL]%submseteq_Permutation Hp HQ. rewrite HL in Ho. unfold is_black_opt.
  destruct t as [|ct l x r0]; simpl in *; [by apply runs_ret|].
  rewrite (proj2 (Z.eqb_neq x 0)) by (apply valid_neq0; eapply own_valid; [exact Ho|apply list_elem_of_here]).
  unfold rb_is_black, get_pc. do 2 apply runs_bind.
  eapply runs_get; [exact Ho|apply list_elem_of_here|]. do 2 apply runs_ret. simpl. by rewrite is_black_pack.
Qed.

(** The pointer to [old] in its parent, or in the root. *)
Lemma runs_change_child R L L' h r d old n new k Q :
  own R L h -> (old, n) :: kcells k old ⊆+ L -> swap (kcells k old) (kcells k new) L L' -> r = top k old ->
  (forall h', own R L' h' -> Q (mk_rb h' (top k new) d)) ->
  runs (__rb_change_child (mk_rb h r d) old new (above k)) Q.
Proof.
  intros Ho Hsub (M & HL & HL')%swap_parts -> HQ. unfold __rb_change_child. destruct k as [|[s c x o] k]; cbn [above].
  { apply runs_ret. apply HQ. by rewrite HL', <- HL. }
  assert (Hne : old <> ptr o) by (eapply (own_ptr_ne R _ h old n o x); [exact Ho|]; etrans; [|exact Hsub]; simpl; solve_submseteq).
  rewrite HL in Ho. cbn [kcells] in Ho, HL'.
  rewrite (proj2 (Z.eqb_neq x 0)) by (apply valid_neq0; eapply own_valid; [exact Ho|apply list_elem_of_here]).
  cbn [negb]. apply runs_bind. unfold get_child. apply runs_bind.
  eapply runs_get; [exact Ho|apply list_elem_of_here|]. apply runs_ret.
  assert (Hset : forall s', s' = s -> runs (set_child s' (mk_rb h (top (F s c x o :: k) old) d) x new) Q).
  { intros ? ->. unfold set_child. apply runs_bind. eapply runs_get; [exact Ho|apply list_elem_of_here|].
    eapply runs_put; [exact Ho|apply upd_here|]. intros h' Hh'. apply HQ. rewrite HL'. by destruct s. }
  destruct s; cbn [child_of side_node RBTree.rb_left].
  - rewrite Z.eqb_refl. by apply Hset.
  - rewrite (proj2 (Z.eqb_neq (ptr o) old)) by done. by apply Hset.
Qed.

Lemma runs_call (f : nodes -> Z -> Z -> D -> outcome D) h r d a b Q :
  (exists d', f h a b d = Ret d' /\ Q (mk_rb h r d')) -> runs (call f (mk_rb h r d) a b) Q.
Proof. intros (d' & Hd & HQ). unfold call; simpl. rewrite Hd; simpl. by apply runs_ret. Qed.
End Runs.

Ltac find_cell :=
  solve [repeat first [apply list_elem_of_here | apply list_elem_of_further]].

Ltac find_upd := solve [repeat first [apply upd_here | apply upd_there]].

Ltac find_swap :=
  solve [repeat first [apply swap_end | apply swap_here | apply swap_there | apply swap_skip]].

Ltac rb_cbn :=
  cbn [child_of with_child side_node opp rb_parent_color rb_right rb_left ptr above fst snd];
  rewrite ?child_same, ?child_opp, ?with_child_same, ?with_child_opp, ?pc_side_node, ?set_pc_side_node;
  repeat match goal with
  | |- context [Z.lor ?p RB_BLACK] => change (Z.lor p RB_BLACK) with (pack p Black)
  | |- context [Z.lor ?p RB_RED] => change (Z.lor p RB_RED) with (pack p Red)
  end.

(** The operations of the code that are a read or a write or two. *)
Ltac rb_unfold m :=
  eval cbv beta delta [get_child set_child get_pc set_pc RBTree.rb_parent rb_color rb_is_red rb_is_black
    rb_red_parent rb_set_parent rb_set_parent_color rb_set_black] in m.

(** One step of the code, against the only [own] hypothesis.  Accesses through the
    pointer to a whole subtree are left to the lemmas above. *)
Ltac rb_step :=
  lazymatch goal with
  | |- runs (obind _ _) _ => apply runs_bind
  | |- runs (Ret _) _ => apply runs_ret
  | |- runs (get _ _) _ => eapply runs_get; [eassumption|find_cell|]
  | |- runs (put _ _ _) _ =>
      eapply runs_put; [eassumption|find_upd|];
      match goal with H : own _ _ _ |- _ => clear H end; intros ? Hown; cbn beta in Hown
  | |- runs (rb_set_parent_color _ (ptr _) _ _) _ => fail
  | |- runs (rb_set_parent _ (ptr _) _) _ => fail
  | |- runs (rb_is_red _ (ptr _)) _ => fail
  | |- runs (set_pc _ (ptr _) _) _ => fail
  | |- runs (set_child _ _ (up_to _ _) _) _ => fail
  | |- runs (if _ then _ else _) _ => fail
  | |- runs ?m ?Q => let m' := rb_unfold m in progress change (runs m' Q)
  end; rb_cbn.

Ltac rb_steps := repeat rb_step.
