(* ===== verification/RBTreeAugment.v ===== *)
(** * Callbacks of augmented trees

    [Augment cb] states what the tree code needs of callbacks: each node has a
    value that is right for its children's values; a rotation passes the value of
    the old subtree root on and makes the old root's value right, [copy] copies a
    value, and [propagate] makes the values of a path to the root right when only
    its first one may be wrong.  The rebalancing code is verified against this
    interface.  The callbacks that do nothing are an instance, and so are those of
    [RB_DECLARE_CALLBACKS] when [rbcompute] combines the values of the children in
    a way that rotations do not change. *)
From Stdlib Require Import ZArith Lia Bool.
From stdpp Require Import base numbers list gmap.
From S2P Require Import Prelude RBTree RBTreeShape RBTreeRep.

(** A path towards the root: each node's parent is the next one, the last one's
    is [stop], and children of a node are earlier on the path or off it. *)
Fixpoint climbs (h : nodes) (path : list Z) (stop : Z) : Prop :=
  match path with
  | [] => True
  | x :: rest =>
      (exists n, h !! x = Some n /\ __rb_parent (rb_parent_color n) = hd stop rest
        /\ (rb_left n ∉ x :: rest) /\ (rb_right n ∉ x :: rest))
      /\ x <> stop /\ (x ∉ rest)
      /\ (forall z n, z ∈ tail rest -> h !! z = Some n -> rb_left n <> x /\ rb_right n <> x)
      /\ climbs h rest stop
  end.

Class Augment {D : Type} (cb : rb_augment_callbacks D) := {
  (** The value of [x] is right for children [l] and [r]. *)
  fits : D -> Z -> Z -> Z -> Prop;
  stored : D -> Z -> Prop;
  (** The value of [x] in [d] is that of [y] in [d']. *)
  same : D -> Z -> D -> Z -> Prop;
  same_refl d x : same d x d x;
  same_trans d1 d2 d3 x y z : same d1 x d2 y -> same d2 y d3 z -> same d1 x d3 z;
  fits_same d d' x l r l' r' :
    fits d x l r -> same d x d' x -> same d l d' l' -> same d r d' r' -> fits d' x l' r';
  fits_stored d x l r : fits d x l r -> stored d x;
  stored_same d d' x y : stored d x -> same d x d' y -> stored d' y;
  rotate_law s h d old new n a b c :
    h !! old = Some n -> n = side_node s (rb_parent_color n) b c ->
    (forall p, p ∈ [a; b; c] -> p = 0 \/ stored d p) ->
    valid old -> valid new -> old <> new -> a ∉ [old; new] -> b ∉ [old; new] -> c ∉ [old; new] ->
    (match s with Left => fits d old new c /\ fits d new a b | Right => fits d old c new /\ fits d new b a end) ->
    exists d', aug_rotate cb h old new d = Ret d'
      /\ (match s with
          | Left => fits d' new a old /\ fits d' old b c
          | Right => fits d' new old a /\ fits d' old c b
          end)
      /\ same d old d' new /\ (forall z, z ∉ [old; new] -> same d z d' z);
  copy_law h d old new :
    stored d old -> stored d new -> old <> new ->
    exists d', aug_copy cb h old new d = Ret d' /\ same d old d' new /\ (forall z, z <> new -> same d z d' z);
  propagate_law h d path stop :
    climbs h path stop ->
    (forall x, head path = Some x -> stored d x) ->
    (forall z n p, z ∈ path -> h !! z = Some n -> p ∈ [rb_left n; rb_right n] -> p = 0 \/ stored d p) ->
    (forall z n, z ∈ tail path -> h !! z = Some n -> fits d z (rb_left n) (rb_right n)) ->
    exists d', aug_propagate cb h (hd stop path) stop d = Ret d'
      /\ (forall z n, z ∈ path -> h !! z = Some n -> fits d' z (rb_left n) (rb_right n))
      /\ (forall z, z ∉ path -> same d z d' z)
}.

(** The nodes of a context, innermost first, are such a path. *)
Definition spine (k : list frame) : list Z := (fun '(F _ _ x _) => x) <$> k.

Lemma spine_cells b k hp x : x ∈ spine k -> x ∈ (kcells_to b k hp).*1.
Proof.
  revert hp; induction k as [|[s c y o] k IH]; intros hp; simpl; [done|].
  rewrite elem_of_cons, fmap_app, elem_of_cons, elem_of_app. intros [->|Hx]; eauto.
Qed.

Lemma hd_spine b k : hd b (spine k) = up_to b k.
Proof. by destruct k as [|[s c x o] k]. Qed.

Lemma others_cells b k hp s c x o z : F s c x o ∈ k -> z ∈ elems o -> z ∈ (kcells_to b k hp).*1.
Proof.
  revert hp; induction k as [|[s1 c1 x1 o1] k IH]; intros hp Hin Hz; [by apply elem_of_nil in Hin|].
  cbn [kcells_to]. rewrite fmap_cons, fmap_app, elem_of_cons, elem_of_app, cells_keys.
  apply elem_of_cons in Hin as [Heq|Hin]; [simplify_eq|]; auto.
Qed.

(** A node beside a context is not on its path. *)
Lemma spine_off R h b k s c x o z : forall hp L,
  own R (kcells_to b k hp ++ L) h -> F s c x o ∈ k -> z ∈ elems o -> z ∉ spine k.
Proof.
  induction k as [|[s' c' x' o'] k IH]; intros hp L Ho Hin Hz; [by apply elem_of_nil in Hin|].
  cbn [kcells_to] in Ho. rewrite <- app_comm_cons, <- app_assoc in Ho.
  pose proof (own_nodup _ _ _ Ho) as Hnd. rewrite fmap_cons, !fmap_app in Hnd. cbn [fst] in Hnd.
  apply NoDup_cons in Hnd as [Hx' Hnd]. apply NoDup_app in Hnd as (_ & Hnd & _).
  change (spine (F s' c' x' o' :: k)) with (x' :: spine k). rewrite elem_of_cons.
  assert (Hsp := spine_cells b k x'). apply elem_of_cons in Hin as [Heq|Hin].
  - simplify_eq. rewrite <- (cells_keys o' x') in Hz. intros [->|Hk]; [set_solver|].
    apply (Hnd z Hz). rewrite elem_of_app. left. auto.
  - pose proof (others_cells b k x' s c x o z Hin Hz) as Hko.
    intros [->|Hk]; [set_solver|]. revert Hk.
    apply (IH x' ((x', side_node s' (pack (up_to b k) c') hp (ptr o')) :: cells o' x' ++ L)); [|done|done].
    eapply own_perm; [|reflexivity|exact Ho]. solve_Permutation.
Qed.

Lemma side_node_children s pc a b (P : Z -> Prop) : P a -> P b ->
  P (rb_left (side_node s pc a b)) /\ P (rb_right (side_node s pc a b)).
Proof. by destruct s. Qed.

Lemma spine_children R h b k z n : forall hp L,
  own R (kcells_to b k hp ++ L) h -> z ∈ spine k -> h !! z = Some n ->
  let P p := p = 0 \/ p = hp \/ p ∈ (kcells_to b k hp).*1 in P (rb_left n) /\ P (rb_right n).
Proof.
  induction k as [|[s c x o] k IH]; intros hp L Ho Hz Hn P; [by apply elem_of_nil in Hz|].
  cbn [kcells_to] in *. rewrite <- app_comm_cons, <- app_assoc in Ho.
  cbn [spine fmap list_fmap] in Hz. apply elem_of_cons in Hz as [->|Hz].
  - rewrite (own_lookup R _ h x _ Ho (list_elem_of_here _ _)) in Hn. simplify_eq.
    apply (side_node_children _ _ _ _ P); unfold P; [auto|]. destruct o as [|co l y rt]; [auto|]. right; right. simpl. set_solver.
  - destruct (IH x ((x, side_node s (pack (up_to b k) c) hp (ptr o)) :: cells o x ++ L)) as [H1 H2]; [|done|done|].
    { eapply own_perm; [|reflexivity|exact Ho]. solve_Permutation. }
    unfold P. simpl. rewrite fmap_app. set_solver.
Qed.

Lemma climbs_kcells R h b k : forall hp L,
  own R (kcells_to b k hp ++ L) h -> link b -> b ∉ (kcells_to b k hp).*1 -> hp ∉ (kcells_to b k hp).*1 ->
  climbs h (spine k) b.
Proof.
  induction k as [|[s c x o] k IH]; intros hp L Ho Hb Hbo Hhp; [done|].
  cbn [kcells_to] in *. rewrite <- app_comm_cons, <- app_assoc in Ho.
  assert (Hk : own R (kcells_to b k x ++ (x, side_node s (pack (up_to b k) c) hp (ptr o)) :: cells o x ++ L) h)
    by (eapply own_perm; [|reflexivity|exact Ho]; solve_Permutation).
  assert (Hx : valid x) by (eapply own_valid; [exact Ho|find_cell]). assert (Hx0 := valid_neq0 _ Hx).
  assert (Hsp := spine_cells b k x).
  pose proof (own_nodup _ _ _ Ho) as Hnd. rewrite fmap_cons, !fmap_app in Hnd. apply NoDup_cons in Hnd as [Hxn Hnd].
  cbn [fst] in Hxn. rewrite fmap_cons, fmap_app in Hbo, Hhp. cbn [fst] in Hbo, Hhp.
  assert (Hpo : ptr o ∉ x :: spine k).
  { destruct o as [|co l y rt]; simpl; [|apply NoDup_app in Hnd as (_ & Hnd & _); simpl in Hxn, Hnd; set_solver].
    intros Hin. apply (valid_neq0 0); [|done]. eapply own_valid; [exact Hk|]. rewrite fmap_app. set_solver. }
  assert (Hl : link (up_to b k)).
  { destruct k as [|[s' c' x' o'] k]; [done|]. right. eapply own_valid; [exact Hk|]. simpl. set_solver. }
  change (spine (F s c x o :: k)) with (x :: spine k). cbn [climbs]. split_and!.
  - eexists. split; [eapply own_lookup; [exact Ho|find_cell]|]. rewrite pc_side_node, parent_pack, hd_spine by done.
    split; [done|]. apply (side_node_children s _ _ _ (fun p => p ∉ x :: spine k)); [set_solver|done].
  - set_solver.
  - set_solver.
  - intros z n Hz Hn. destruct k as [|[s' c' x' o'] k]; [by apply elem_of_nil in Hz|].
    change (tail (spine (F s' c' x' o' :: k))) with (spine k) in Hz. cbn [kcells_to] in Hk.
    destruct (spine_children R h b k z n x' (((x', side_node s' (pack (up_to b k) c') x (ptr o')) :: cells o' x')
      ++ (x, side_node s (pack (up_to b (F s' c' x' o' :: k)) c) hp (ptr o)) :: cells o x ++ L)) as [H1 H2]; [|done|done|].
    { eapply own_perm; [|reflexivity|exact Hk]. solve_Permutation. }
    assert (Hne : forall p, p = 0 \/ p = x' \/ p ∈ (kcells_to b k x').*1 -> p <> x).
    { simpl in Hxn. rewrite fmap_app, !elem_of_app, elem_of_cons, !elem_of_app in Hxn. clear - Hxn Hx0.
      intros p [->|[->|Hp]] Heq; subst; tauto. }
    auto.
  - eapply (IH x); [exact Hk|done|set_solver|set_solver].
Qed.

(** ** Values of a whole tree *)
Section Values.
Context {D : Type} {cb : rb_augment_callbacks D} `{!Augment cb}.

(** All values of a tree are right. *)
Fixpoint fitting (d : D) (t : tree) : Prop :=
  match t with
  | E => True
  | T _ l x r => fits d x (ptr l) (ptr r) /\ fitting d l /\ fitting d r
  end.

(** All values of a context around the pointer [hp]. *)
Fixpoint kfitting (d : D) (k : list frame) (hp : Z) : Prop :=
  match k with
  | [] => True
  | F s _ x o :: k =>
      match s with Left => fits d x hp (ptr o) | Right => fits d x (ptr o) hp end
      /\ fitting d o /\ kfitting d k x
  end.

Lemma fitting_node d s c a x b : fitting d (node s c a x b) <->
  match s with Left => fits d x (ptr a) (ptr b) | Right => fits d x (ptr b) (ptr a) end /\ fitting d a /\ fitting d b.
Proof. destruct s; simpl; tauto. Qed.

Lemma fitting_plug d k t : fitting d (plug k t) <-> fitting d t /\ kfitting d k (ptr t).
Proof.
  revert t; induction k as [|[s c x o] k IH]; intros t; simpl; [tauto|].
  rewrite IH, ptr_node, fitting_node. tauto.
Qed.

Lemma fitting_paint d c t : fitting d (paint c t) <-> fitting d t.
Proof. by destruct t. Qed.

Lemma fitting_stored d t z : fitting d t -> z ∈ elems t -> stored d z.
Proof.
  induction t as [|c l IHl x r IHr]; simpl; [by rewrite elem_of_nil|]. intros (Hx & Hl & Hr).
  rewrite elem_of_app, elem_of_cons. intros [Hz|[->|Hz]]; auto. by eapply fits_stored.
Qed.

Lemma fitting_ptr d t : fitting d t -> ptr t = 0 \/ stored d (ptr t).
Proof. destruct t as [|c l x r]; [by left|]. intros Hf. right. eapply fitting_stored; [exact Hf|]. simpl. set_solver. Qed.

Lemma same_ptr d d' t : (forall z, z ∈ elems t -> same d z d' z) -> same d 0 d' 0 -> same d (ptr t) d' (ptr t).
Proof. destruct t; simpl; [done|]. intros H _. apply H. set_solver. Qed.

Lemma fitting_same d d' t :
  (forall z, z ∈ elems t -> same d z d' z) -> same d 0 d' 0 -> fitting d t -> fitting d' t.
Proof.
  induction t as [|c l IHl x r IHr]; simpl; intros Hs H0; [done|].
  intros (Hx & Hl & Hr).
  assert (Hls : forall z, z ∈ elems l -> same d z d' z) by set_solver.
  assert (Hrs : forall z, z ∈ elems r -> same d z d' z) by set_solver.
  split_and!; auto. eapply fits_same; [exact Hx|apply Hs; set_solver| |]; by apply same_ptr.
Qed.

(** The nodes of a context. *)
Definition kelems (k : list frame) : list Z := before k ++ after k.

Lemma kfitting_same d d' k hp hp' :
  (forall z, z ∈ kelems k -> same d z d' z) -> same d 0 d' 0 -> same d hp d' hp' ->
  kfitting d k hp -> kfitting d' k hp'.
Proof.
  unfold kelems. revert hp hp'; induction k as [|[s c x o] k IH]; intros hp hp' Hs H0 Hh; simpl; [done|].
  intros (Hx & Ho & Hk).
  assert (Hxs : same d x d' x) by (apply Hs; destruct s; set_solver).
  assert (Hos : forall z, z ∈ elems o -> same d z d' z) by (intros z Hz; apply Hs; destruct s; set_solver).
  split_and!.
  - destruct s; (eapply fits_same; [exact Hx|done| |]; try done; by apply same_ptr).
  - eapply fitting_same; eauto.
  - eapply IH; eauto. intros z Hz. apply Hs. destruct s; set_solver.
Qed.

Lemma kelems_plug k t : elems (plug k t) ≡ₚ elems t ++ kelems k.
Proof. rewrite elems_plug. unfold kelems. apply Permutation_app_swap_app. Qed.

Lemma elems_node s c a x b : elems (node s c a x b) ≡ₚ x :: elems a ++ elems b.
Proof. destruct s; simpl; [by rewrite Permutation_middle|]. by rewrite <- Permutation_middle, Permutation_app_comm. Qed.

Lemma ptr_not_in t (l : list Z) : Forall valid l -> (forall z, z ∈ l -> z ∉ elems t) -> ptr t ∉ l.
Proof.
  destruct t as [|c a x b]; simpl; intros Hv Hl Hin.
  - rewrite Forall_forall in Hv. by apply (valid_neq0 0 (Hv _ Hin)).
  - apply (Hl _ Hin). set_solver.
Qed.

(** A rotation at [y] of a subtree: its child [x] on side [s] becomes the root. *)
Lemma rotate_fitting s h d k A x B y C c1 c2 c3 c4 n :
  NoDup (elems (plug k (node s c1 (node s c2 A x B) y C))) ->
  Forall valid (elems (plug k (node s c1 (node s c2 A x B) y C))) ->
  h !! y = Some n -> n = side_node s (rb_parent_color n) (ptr B) (ptr C) ->
  fitting d (plug k (node s c1 (node s c2 A x B) y C)) ->
  exists d', aug_rotate cb h y x d = Ret d' /\ fitting d' (plug k (node s c3 A x (node s c4 B y C))).
Proof.
  rewrite kelems_plug, elems_node, elems_node. rewrite fitting_plug, !fitting_node, !ptr_node.
  cbn [app]. intros Hnd Hv Hn Heq ((Hy & (Hx & HA & HB) & HC) & Hk).
  apply NoDup_cons in Hnd as [Hny Hnd]. apply NoDup_cons in Hnd as [Hnx _].
  apply Forall_cons in Hv as [Hvy Hv]. apply Forall_cons in Hv as [Hvx _].
  assert (Hvs : Forall valid [y; x]) by (by repeat apply Forall_cons_2).
  destruct (rotate_law s h d y x n (ptr A) (ptr B) (ptr C)) as (d' & Hr & Hf & Hsx & Hs); try done.
  { intros p. rewrite !elem_of_cons, elem_of_nil. intros [->|[->|[->|[]]]]; by apply fitting_ptr. }
  { set_solver. }
  1-3: apply ptr_not_in; [done|set_solver].
  { destruct s; tauto. }
  exists d'. split; [done|]. rewrite fitting_plug, !fitting_node, !ptr_node.
  assert (H0 : same d 0 d' 0) by (apply Hs; pose proof (valid_neq0 _ Hvx); pose proof (valid_neq0 _ Hvy); set_solver).
  assert (Hin : forall l : list Z, y ∉ l -> x ∉ l -> forall z, z ∈ l -> same d z d' z) by (intros l ????; apply Hs; set_solver).
  split_and!; try (eapply fitting_same; [apply Hin; set_solver|done|done]).
  - destruct s; apply Hf.
  - destruct s; apply Hf.
  - eapply kfitting_same; [apply Hin; set_solver|done|exact Hsx|done].
Qed.

(** The subtrees beside a context. *)
Definition others_fit (d : D) (k : list frame) : Prop := Forall (fun '(F _ _ _ o) => fitting d o) k.

Lemma kfitting_spine R h d b k : forall hp L, own R (kcells_to b k hp ++ L) h ->
  kfitting d k hp <->
  (forall z n, z ∈ spine k -> h !! z = Some n -> fits d z (rb_left n) (rb_right n)) /\ others_fit d k.
Proof.
  induction k as [|[s c x o] k IH]; intros hp L Ho.
  { split; [|done]. intros _. split; [|constructor]. intros z n Hz. by apply elem_of_nil in Hz. }
  cbn [kcells_to] in Ho. rewrite <- app_comm_cons, <- app_assoc in Ho.
  change (spine (F s c x o :: k)) with (x :: spine k). cbn [kfitting]. unfold others_fit in *. rewrite Forall_cons.
  rewrite (IH x ((x, side_node s (pack (up_to b k) c) hp (ptr o)) :: cells o x ++ L))
    by (eapply own_perm; [|reflexivity|exact Ho]; solve_Permutation).
  assert (Hx := own_lookup R _ h x _ Ho (list_elem_of_here _ _)).
  assert (Hfx : match s with Left => fits d x hp (ptr o) | Right => fits d x (ptr o) hp end <->
    forall n, h !! x = Some n -> fits d x (rb_left n) (rb_right n)).
  { rewrite Hx. split; [intros Hf n Hn; simplify_eq; by destruct s|]. intros Hf. specialize (Hf _ eq_refl). by destruct s. }
  rewrite Hfx. setoid_rewrite elem_of_cons. split.
  - intros (H1 & H2 & H3 & H4). split; [|done]. intros z n [->|Hz]; auto.
  - intros (H1 & H2 & H3). split_and!; auto.
Qed.

Lemma kfitting_stored d b k hp z :
  (k <> [] -> stored d (up_to b k)) -> others_fit d k -> kfitting d (tail k) (up_to b k) ->
  z ∈ (kcells_to b k hp).*1 -> stored d z.
Proof.
  revert hp; induction k as [|[s c x o] k IH]; intros hp Hst Hot Htl; simpl; [by rewrite elem_of_nil|].
  apply Forall_cons in Hot as [Ho Hot]. cbn [tail up_to] in *.
  rewrite elem_of_cons, fmap_app, elem_of_app, cells_keys. intros [->|[Hz|Hz]]; [by apply Hst|by eapply fitting_stored|].
  apply (IH x); [| |by destruct k as [|[s' c' x' o'] k]; [|apply Htl]|done]; [|done].
  destruct k as [|[[] c' x' o'] k]; [done|..]; intros _; destruct Htl as (Hx & _); by eapply fits_stored.
Qed.

(** [propagate] from the innermost node of a context to its end. *)
Lemma propagate_fitting R h d b k hp L :
  own R (kcells_to b k hp ++ L) h -> link b -> b ∉ (kcells_to b k hp).*1 -> hp ∉ (kcells_to b k hp).*1 ->
  (k <> [] -> stored d (up_to b k)) -> others_fit d k ->
  kfitting d (tail k) (up_to b k) -> (hp = 0 \/ stored d hp) ->
  exists d', aug_propagate cb h (up_to b k) b d = Ret d' /\ kfitting d' k hp
    /\ (forall z, z ∉ spine k -> same d z d' z).
Proof.
  intros Ho Hb Hbo Hhp Hs Hk Ht Hst.
  destruct (propagate_law h d (spine k) b) as (d' & Hd & Hf & Hsame).
  - by eapply climbs_kcells.
  - intros x Hx. destruct k as [|[s c y o] k]; [done|]. simpl in *. simplify_eq. by apply Hs.
  - intros z n p Hz Hn Hp. destruct (spine_children R h b k z n hp L Ho Hz Hn) as [H1 H2].
    assert (Hq : p = 0 \/ p = hp \/ p ∈ (kcells_to b k hp).*1) by set_solver.
    destruct Hq as [->|[->|Hq]]; [by left|done|right]. by eapply kfitting_stored.
  - intros z n Hz Hn. destruct k as [|[s c y o] k]; [by apply elem_of_nil in Hz|].
    change (tail (spine (F s c y o :: k))) with (spine k) in Hz. cbn [kcells_to tail up_to] in *.
    rewrite <- app_comm_cons, <- app_assoc in Ho.
    eapply (kfitting_spine R h d b k y ((y, side_node s (pack (up_to b k) c) hp (ptr o)) :: cells o y ++ L));
      [|exact Ht|exact Hz|exact Hn].
    eapply own_perm; [|reflexivity|exact Ho]. solve_Permutation.
  - rewrite hd_spine in Hd. exists d'. split_and!; [done| |done].
    apply (kfitting_spine R h d' b k hp L Ho). split; [done|].
    unfold others_fit in *. rewrite Forall_forall in Hk |- *. intros [s c x o] Hin.
    eapply fitting_same; [| |exact (Hk _ Hin)].
    + intros z Hz. apply Hsame. by eapply spine_off.
    + apply Hsame. intros Hz. apply (valid_neq0 0); [|done]. eapply own_valid; [exact Ho|].
      rewrite fmap_app, elem_of_app. left. by apply spine_cells.
Qed.

(** The state has the tree [w], with right values, and is [R] elsewhere. *)
Record stands (R : nodes) (w : tree) (t : rb_state D) : Prop := mk_stands {
  stands_nodes : own R (cells w 0) (rb_nodes t);
  stands_root : rb_root t = ptr w;
  stands_values : fitting (rb_data t) w
}.

Lemma own_elems R w h : own R (cells w 0) h -> NoDup (elems w) /\ Forall valid (elems w).
Proof. intros [Hn Hv _]. by rewrite cells_keys in Hn, Hv. Qed.
End Values.
