(* ===== verification/RBTreeInsert.v ===== *)
(** * Insertion keeps the tree balanced (lib/rbtree.c, __rb_insert) *)
From Stdlib Require Import ZArith Lia Bool.
From stdpp Require Import base numbers list gmap.
From S2P Require Import Prelude RBTree RBTreeShape RBTreeRep RBTreeAugment.

Section Insert.
Context {D : Type} {cb : rb_augment_callbacks D} `{!Augment cb}.
Implicit Types (r : Z) (d : D).

(** Case 2: [x], the inner child of [p], takes its place. *)
Lemma insert_case2_spec s R h r d x pcx B C p pcp A L (Q : rb_state D * Z * Z -> Prop) :
  own R ((x, side_node s pcx (ptr B) C) :: (p, side_node s pcp A x) :: cells B x ++ L) h ->
  (forall h',
    own R ((x, side_node s pcx p C) :: (p, side_node s (pack x Red) A (ptr B)) :: cells (paint Black B) p ++ L) h' ->
    exists d', aug_rotate cb h' p x d = Ret d' /\ Q (mk_rb h' r d', x, C)) ->
  runs (insert_case2 (aug_rotate cb) s (mk_rb h r d) x p) Q.
Proof.
  intros Ho HQ. unfold insert_case2. destruct s; cbn [side_node opp] in *; rb_steps.
  all: eapply (runs_set_parent_color_opt R _ _ _ r d B x p Black); [eassumption|find_swap|].
  all: clear Hown; intros h1 Hown; rb_steps.
  all: apply runs_call; destruct (HQ _ Hown) as (d' & Hd & H); exists d'; split; [done|].
  all: rb_steps; exact H.
Qed.

(** Case 3: [p] with [B] on its inner side takes the place of [g]. *)
Lemma insert_case3_spec s R h d p pcp X B g w u L k (Q : rb_state D -> Prop) bp :
  own R ((p, side_node s pcp X (ptr B)) :: (g, side_node s (pack (above k) Black) w u) :: cells B bp ++ L ++ kcells k g) h ->
  link (above k) ->
  (forall h',
    own R ((p, side_node s (pack (above k) Black) X g) :: (g, side_node s (pack p Red) (ptr B) u)
      :: cells (paint Black B) g ++ L ++ kcells k p) h' ->
    exists d', aug_rotate cb h' g p d = Ret d' /\ Q (mk_rb h' (top k p) d')) ->
  runs (insert_case3 (aug_rotate cb) s (mk_rb h (top k g) d) p g (ptr B)) Q.
Proof.
  intros Ho Hk HQ. unfold insert_case3, __rb_rotate_set_parents. destruct s; cbn [side_node opp] in *; rb_steps.
  all: eapply (runs_set_parent_color_opt R _ _ _ _ d B bp g Black); [eassumption|find_swap|].
  all: clear Hown; intros h1 Hown; rb_steps.
  all: rewrite parent_pack by done.
  all: eapply (runs_change_child R); [eassumption| |find_swap|done|].
  all: try (simpl; solve_submseteq).
  all: clear Hown; intros h2 Hown; apply runs_call; exact (HQ _ Hown).
Qed.

(** The outcome of the loop: a balanced tree with the sequence [l]. *)
Definition rebalanced (R : nodes) (l : list Z) (t : rb_state D) : Prop :=
  exists w, stands R w t /\ balanced w /\ elems w = l.

(** Case 3 alone: the node is the outer child of its parent. *)
Lemma insert_outer s R h d t p pcp o g w u k n :
  own R ((p, side_node s pcp (ptr t) (ptr o)) :: (g, side_node s (pack (above k) Black) w (ptr u))
    :: cells o p ++ (cells t p ++ cells u g) ++ kcells k g) h ->
  NoDup (elems (plug k (node s Black (node s Red t p o) g u))) ->
  Forall valid (elems (plug k (node s Black (node s Red t p o) g u))) ->
  fitting d (plug k (node s Black (node s Red t p o) g u)) ->
  bal n t -> color_of o = Black -> bal n o -> bal n u -> color_of u = Black -> kbal (S n) k -> link (above k) ->
  runs (insert_case3 (aug_rotate cb) s (mk_rb h (top k g) d) p g (ptr o))
    (rebalanced R (elems (plug k (node s Black (node s Red t p o) g u)))).
Proof.
  intros Ho Hnd Hv Hf Ht Hoc Hob Hub Huc Hk Hl.
  apply (insert_case3_spec s R h d p pcp (ptr t) o g w (ptr u) (cells t p ++ cells u g) k _ p); [done|done|].
  rewrite (paint_same Black o) by done. intros h' Ho'.
  destruct (rotate_fitting s h' d k t p o g u Black Red Black Red (side_node s (pack p Red) (ptr o) (ptr u)))
    as (d' & Hd & Hf'); [done|done|eapply own_lookup; [exact Ho'|find_cell]|by destruct s|done|].
  exists d'. split; [done|]. exists (plug k (node s Black t p (node s Red o g u))). split_and!; [split|..].
  - cbn [rb_nodes]. rewrite cells_plug, cells_node, cells_node, !ptr_node. eapply own_perm; [|done|exact Ho']. solve_Permutation.
  - cbn [rb_root]. by rewrite top_plug, ptr_node.
  - done.
  - eapply plug_balanced; [|exact Hk|by rewrite color_node]. rewrite bal_node. exists n. by rewrite bal_node.
  - rewrite !elems_plug. f_equal. f_equal. symmetry. apply elems_rotate.
Qed.

(** Cases 2 and 3: the node, with [b] and [c] below it, is the inner child. *)
Lemma insert_inner s R h d x b c p o g u k n :
  let w0 := plug k (node s Black (node (opp s) Red (node s Red b x c) p o) g u) in
  own R (cells w0 0) h -> fitting d w0 ->
  bal n (node s Red b x c) -> color_of o = Black -> bal n o -> bal n u -> color_of u = Black ->
  kbal (S n) k -> link (above k) ->
  runs (insert_case2 (aug_rotate cb) s (mk_rb h (top k g) d) x p)
    (fun a => runs (let '(t, parent, tmp) := a in insert_case3 (aug_rotate cb) s t parent g tmp)
      (rebalanced R (elems w0))).
Proof.
  intros w0 Ho Hf Hbx Hoc Hob Hub Huc Hk Hl. destruct (own_elems _ _ _ Ho) as [Hnd Hv]. unfold w0 in *; clear w0.
  rewrite bal_node in Hbx. destruct Hbx as (Hbc & Hcc & Hb & Hc).
  apply (insert_case2_spec s R h _ d x (pack p Red) b (ptr c) p (pack g Red) (ptr o)
    ((g, side_node s (pack (above k) Black) p (ptr u)) :: cells c x ++ (cells o p ++ cells u g) ++ kcells k g)).
  { rewrite cells_plug, cells_node, node_opp, cells_node, cells_node, !ptr_node in Ho.
    eapply own_perm; [|done|exact Ho]. solve_Permutation. }
  rewrite (paint_same Black b) by done. intros h1 Ho1.
  assert (Hw1 : forall c1 c2, elems (plug k (node s Black (node s c1 (node s c2 o p b) x c) g u))
    = elems (plug k (node s Black (node (opp s) Red (node s Red b x c) p o) g u))).
  { intros c1 c2. rewrite !elems_plug. do 2 f_equal. destruct s; simpl; by repeat (rewrite <- app_assoc; simpl). }
  destruct (rotate_fitting (opp s) h1 d (F s Black g u :: k) c x b p o Red Red Red Red
    (side_node s (pack x Red) (ptr o) (ptr b))) as (d1 & Hd1 & Hf1);
    [by rewrite (node_opp _ _ c)|by rewrite (node_opp _ _ c)|eapply own_lookup; [exact Ho1|find_cell]
    |by destruct s|by rewrite (node_opp _ _ c)|].
  rewrite !node_opp in Hf1. exists d1. split; [done|].
  rewrite <- (Hw1 Red Red). apply (insert_outer s R h1 d1 (node s Red o p b) x (pack p Red) c g p u k n); try done.
  - rewrite cells_node, ptr_node. eapply own_perm; [|done|exact Ho1]. solve_Permutation.
  - by rewrite Hw1.
  - by rewrite Hw1.
  - by rewrite bal_node.
Qed.

(** The root becomes black. *)
Lemma insert_at_root R l x rt h d n :
  own R (cells (T Red l x rt) 0) h -> fitting d (T Red l x rt) -> bal n (T Red l x rt) ->
  runs (rb_set_parent_color (mk_rb h x d) x 0 RB_BLACK) (rebalanced R (elems (T Red l x rt))).
Proof.
  intros Ho Hf (_ & _ & Hl & Hr). cbn [cells] in Ho. rb_steps.
  exists (T Black l x rt). split_and!; [by split|split; [done|]|done]. exists (S n). simpl. eauto.
Qed.


(** What the loop does with [fuel] at the hole of [k]. *)
Definition loop_rebalances (R : nodes) (fuel : nat) (k : list frame) : Prop :=
  forall n l x rt h d,
  own R (cells (plug k (T Red l x rt)) 0) h -> fitting d (plug k (T Red l x rt)) ->
  bal n (T Red l x rt) -> kbal n k ->
  runs (rb_insert_loop fuel (aug_rotate cb) (mk_rb h (top k x) d) x (above k))
    (rebalanced R (elems (plug k (T Red l x rt)))).

(** Case 1: the parent [p] and the uncle turn black and the grandparent [g] red,
    and the loop goes on from there. *)
Lemma insert_flip R fuel s s2 h d t p o g ul y ur k n :
  let w0 := plug k (node s Black (node s2 Red t p o) g (T Red ul y ur)) in
  loop_rebalances R fuel k ->
  own R (cells w0 0) h -> fitting d w0 ->
  bal n t -> bal n o -> bal n (T Red ul y ur) -> kbal (S n) k ->
  runs (let* t := rb_set_parent_color (mk_rb h (top k g) d) y g RB_BLACK in
        let* t := rb_set_parent_color t p g RB_BLACK in
        let node := g in
        let* parent := rb_parent t node in
        let* t := rb_set_parent_color t node parent RB_RED in
        rb_insert_loop fuel (aug_rotate cb) t node parent)
    (rebalanced R (elems w0)).
Proof.
  intros w0 IH Ho Hf Ht Hbo Hu Hk. unfold w0 in *; clear w0.
  assert (Hl : link (above k)) by (eapply (up_link R); [exact Ho|]; rewrite cells_plug, ptr_node; solve_submseteq).
  rewrite cells_plug, cells_node, cells_node, !ptr_node in Ho. cbn [cells ptr] in Ho.
  assert (Ho1 : own R ((p, side_node s2 (pack g Red) (ptr t) (ptr o)) :: (y, mk_node (pack g Red) (ptr ur) (ptr ul))
    :: (g, side_node s (pack (above k) Black) p y)
    :: cells t p ++ cells o p ++ (cells ul y ++ cells ur y) ++ kcells k g) h).
  { eapply own_perm; [|reflexivity|exact Ho]. solve_Permutation. }
  clear Ho. rb_steps. rewrite parent_pack in Hown by done. rewrite parent_pack by done.
  assert (Hw : exists a b, node s Red (node s2 Black t p o) g (T Black ul y ur) = T Red a g b) by (destruct s; eauto).
  destruct Hw as (a & b & Hw).
  assert (He : elems (plug k (T Red a g b)) = elems (plug k (node s Black (node s2 Red t p o) g (T Red ul y ur)))).
  { rewrite <- Hw, !elems_plug. destruct s, s2; done. }
  rewrite <- He. apply (IH (S n)); rewrite <- ?Hw; [| | |done].
  - rewrite cells_plug, cells_node, cells_node, !ptr_node. cbn [cells ptr].
    eapply own_perm; [|reflexivity|exact Hown]. solve_Permutation.
  - rewrite fitting_plug, ptr_node in Hf |- *. by destruct s, s2.
  - rewrite bal_node. split_and!; [by rewrite color_node|done|rewrite bal_node; eauto|].
    destruct Hu as (_ & _ & Hul & Hur). exists n. done.
Qed.

(** A red parent has a black parent [g], the hole's grandparent. *)
Lemma insert_red_parent R fuel s s2 h d t p o g u k n l x rt :
  t = T Red l x rt ->
  let w0 := plug k (node s Black (node s2 Red t p o) g u) in
  loop_rebalances R fuel k ->
  own R (cells w0 0) h -> fitting d w0 ->
  bal n t -> bal n o -> color_of o = Black -> bal n u -> kbal (S n) k ->
  runs (let parent := p in
        let* gparent := rb_red_parent (mk_rb h (top k g) d) parent in
        let* tmp := get_child Right (mk_rb h (top k g) d) gparent in
        let s := if negb (parent =? tmp) then Left else Right in
        let* tmp := get_child (opp s) (mk_rb h (top k g) d) gparent in
        let* red := is_red_opt (mk_rb h (top k g) d) tmp in
        if red : bool then
          let* t := rb_set_parent_color (mk_rb h (top k g) d) tmp gparent RB_BLACK in
          let* t := rb_set_parent_color t parent gparent RB_BLACK in
          let node := gparent in
          let* parent := rb_parent t node in
          let* t := rb_set_parent_color t node parent RB_RED in
          rb_insert_loop fuel (aug_rotate cb) t node parent
        else
          let* tmp := get_child (opp s) (mk_rb h (top k g) d) parent in
          let* (t, parent, tmp) :=
            if x =? tmp then insert_case2 (aug_rotate cb) s (mk_rb h (top k g) d) x parent
            else Ret (mk_rb h (top k g) d, parent, tmp) in
          insert_case3 (aug_rotate cb) s t parent gparent tmp)
    (rebalanced R (elems w0)).
Proof.
  intros Hteq w0 IH Ho Hf Ht Hbo Hco Hu Hk. unfold w0 in *; clear w0. cbn zeta.
  assert (Hl : link (above k)) by (eapply (up_link R); [exact Ho|]; rewrite cells_plug, ptr_node; solve_submseteq).
  assert (Ho1 : own R ((p, side_node s2 (pack g Red) (ptr t) (ptr o)) :: (g, side_node s (pack (above k) Black) p (ptr u))
    :: cells t p ++ cells o p ++ cells u g ++ kcells k g) h).
  { rewrite cells_plug, cells_node, cells_node, !ptr_node in Ho. eapply own_perm; [|reflexivity|exact Ho]. solve_Permutation. }
  rb_steps. rewrite pack_red. rb_steps.
  assert (Hpu : p <> ptr u) by (eapply (own_ptr_ne R); [exact Ho1|solve_submseteq]).
  rewrite (side_test s _ p (ptr u) Hpu). rewrite !child_opp.
  eapply runs_is_red_opt; [exact Ho1|solve_submseteq|right; eapply own_valid; [exact Ho1|find_cell]|].
  destruct (color_of u) eqn:Hcu.
  { destruct u as [|[] ul y ur]; try done. by apply (insert_flip R fuel s s2 h d t p o g ul y ur k n). }
  rb_steps. destruct (decide (s2 = s)) as [->|Hne].
  - rewrite child_opp. assert (x <> ptr o).
    { subst t. cbn [cells] in Ho1. eapply (own_ptr_ne R); [exact Ho1|]. solve_submseteq. }
    rewrite (proj2 (Z.eqb_neq x (ptr o))) by done. rb_steps.
    destruct (own_elems _ _ _ Ho) as [Hnd Hv].
    eapply insert_outer with (n := n); try done. eapply own_perm; [|reflexivity|exact Ho1]. solve_Permutation.
  - assert (s2 = opp s) as -> by by destruct s, s2.
    rewrite child_same. subst t. cbn [ptr]. rewrite Z.eqb_refl.
    destruct (node_as s Red l x rt) as (a & b & Hx). rewrite Hx in *. by apply (insert_inner s R h d x a b p o g u k n).
Qed.

(** The loop, from a red node whose parent may be red. *)
Lemma insert_loop_spec R fuel k : (length k < fuel)%nat -> loop_rebalances R fuel k.
Proof.
  revert k; induction fuel as [|fuel IH]; intros k Hfuel n l x rt h d Ho Hf Hb Hk; [lia|].
  cbn [rb_insert_loop]. destruct k as [|[s2 c p o] k].
  { cbn [above top plug]. rewrite Z.eqb_refl. by eapply insert_at_root. }
  assert (Hl : link (above k)).
  { eapply (up_link R); [exact Ho|]. rewrite cells_plug. simpl. solve_submseteq. }
  assert (Hp : valid p).
  { eapply own_valid; [exact Ho|]. rewrite cells_keys, elems_plug. destruct s2; set_solver. }
  cbn [above top]. rewrite (proj2 (Z.eqb_neq p 0)) by by apply valid_neq0.
  assert (Hred : runs (rb_is_black (mk_rb h (top k p) d) p) (fun b => b = match c with Red => false | Black => true end)).
  { assert (Ho1 := Ho). rewrite cells_plug, Permutation_app_comm in Ho1. cbn [kcells app] in Ho1.
    clear Ho. rb_steps. by rewrite is_black_pack. }
  apply runs_bind. eapply runs_mono; [exact Hred|]. clear Hred. intros b ->. destruct c.
  - destruct Hk as (Hco & Hbo & Hr & Hk). destruct k as [|[s [] g u] k]; try done.
    destruct Hk as (Hbu & Hk). simpl in Hfuel.
    apply (insert_red_parent R fuel s s2 h d (T Red l x rt) p o g u k n l x rt); try done. apply IH. lia.
  - apply runs_ret. exists (plug (F s2 Black p o :: k) (T Red l x rt)). split_and!; [|by eapply plug_balanced|done].
    split; [done| |done]. by rewrite top_plug.
Qed.

(** The side of the link [rb_link_node] writes. *)
Definition on_side (k : list frame) (s : side) : Prop :=
  match k with [] => True | F s' _ _ _ :: _ => s' = s end.

Lemma rb_link_node_spec R h d k x n0 s (Q : rb_state D -> Prop) :
  own R ((x, n0) :: cells (plug k E) 0) h -> on_side k s ->
  (forall h', own R (cells (plug k (T Red E x E)) 0) h' -> Q (mk_rb h' (top k x) d)) ->
  runs (rb_link_node (mk_rb h (top k 0) d) x (above k) s) Q.
Proof.
  intros Ho Hs HQ. unfold rb_link_node. rewrite cells_plug in Ho. cbn [cells ptr app] in Ho. rb_steps.
  destruct k as [|[s' c p o] k]; cbn [above].
  - rewrite Z.eqb_refl. apply runs_ret. apply HQ. cbn [plug cells ptr app]. by rewrite pack_red.
  - cbn [on_side] in Hs. subst s'. cbn [kcells above] in Hown.
    rewrite (proj2 (Z.eqb_neq p 0)) by (apply valid_neq0; eapply own_valid; [exact Hown|find_cell]).
    rb_steps. apply HQ. rewrite cells_plug. cbn [cells ptr app kcells above]. by rewrite pack_red.
Qed.

(** Rebalancing after a node is linked at the hole of [k]. *)
Lemma insert_linked R t k x :
  own R (cells (plug k (T Red E x E)) 0) (rb_nodes t) -> rb_root t = top k x ->
  balanced (plug k E) -> fitting (rb_data t) (plug k (T Red E x E)) ->
  runs (__rb_insert (aug_rotate cb) t x) (rebalanced R (before k ++ x :: after k)).
Proof.
  destruct t as [h r d]. cbn [rb_nodes rb_root rb_data]. intros Ho' -> Hb Hf.
  destruct (balanced_plug k E Hb) as (n & -> & Hk & _).
  unfold __rb_insert, rb_red_parent. cbn [rb_nodes]. apply runs_bind.
  assert (Ho1 := Ho'). rewrite cells_plug in Ho1. cbn [cells app ptr] in Ho1.
  unfold get_pc. apply runs_bind. eapply runs_get; [exact Ho1|find_cell|]. apply runs_ret.
  cbn [rb_parent_color]. rewrite pack_red.
  replace (before k ++ x :: after k) with (elems (plug k (T Red E x E))) by by rewrite elems_plug.
  apply (insert_loop_spec R _ k) with (n := O); [|done|done|done|done].
  pose proof (own_size _ _ _ Ho') as Hsz. rewrite <- (length_fmap fst), cells_keys in Hsz.
  pose proof (length_context k (T Red E x E)). lia.
Qed.

(** Linking a node at the hole of [k] and rebalancing. *)
Lemma insert_at R t k x n0 s :
  own R ((x, n0) :: cells (plug k E) 0) (rb_nodes t) -> rb_root t = ptr (plug k E) ->
  balanced (plug k E) -> on_side k s -> fitting (rb_data t) (plug k (T Red E x E)) ->
  runs (let* t := rb_link_node t x (above k) s in __rb_insert (aug_rotate cb) t x)
    (rebalanced R (before k ++ x :: after k)).
Proof.
  destruct t as [h r d]. cbn [rb_nodes rb_root rb_data]. intros Ho -> Hb Hs Hf. rewrite top_plug. cbn [ptr].
  apply runs_bind. eapply rb_link_node_spec; [exact Ho|done|]. intros h' Ho'. by apply insert_linked.
Qed.
End Insert.
