(* ===== verification/RBTreeErase.v ===== *)
(** * Rebalancing after a node was erased (lib/rbtree.c, ____rb_erase_color)

    The loop starts at a hole whose subtree is one black node short and restores
    both balance conditions without changing the sequence. *)
From Stdlib Require Import ZArith Lia Bool.
From stdpp Require Import base numbers list gmap.
From S2P Require Import Prelude RBTree RBTreeShape RBTreeRep RBTreeAugment RBTreeInsert.

Section Erase.
Context {D : Type} {cb : rb_augment_callbacks D} `{!Augment cb}.
Implicit Types (r : Z) (d : D).

(** Case 1: the sibling [y] takes the place of [p], which gets [y]'s near child. *)
Lemma erase_case1_spec s R h d p y pcy t a b k L (Q : rb_state D * Z -> Prop) :
  own R ((p, side_node s (pack (above k) Black) (ptr t) y) :: (y, side_node s pcy (ptr a) b)
    :: cells a y ++ L ++ kcells k p) h ->
  a <> E -> link (above k) ->
  (forall h',
    own R ((p, side_node s (pack y Red) (ptr t) (ptr a)) :: (y, side_node s (pack (above k) Black) p b)
      :: cells (paint Black a) p ++ L ++ kcells k y) h' ->
    exists d', aug_rotate cb h' p y d = Ret d' /\ Q (mk_rb h' (top k y) d', ptr a)) ->
  runs (erase_case1 (aug_rotate cb) s (mk_rb h (top k p) d) p y) Q.
Proof.
  intros Ho Ha Hk HQ. unfold erase_case1, __rb_rotate_set_parents. rb_steps.
  eapply (runs_set_parent_color R _ _ _ _ d a y p Black); [eassumption|find_swap|done|].
  clear Hown; intros h1 Hown; rb_steps. rewrite parent_pack by done.
  eapply (runs_change_child R); [eassumption|solve_submseteq|find_swap|done|].
  clear Hown; intros h2 Hown. apply runs_bind, runs_call. destruct (HQ _ Hown) as (d' & Hd & H). exists d'; split; [done|].
  by apply runs_ret.
Qed.

(** Case 3: the near child [x] of the sibling [y] takes its place. *)
Lemma erase_case3_spec s R h r d p pcp tp y pcy x pcx a1 a2 b L (Q : rb_state D * Z * Z -> Prop) :
  own R ((p, side_node s pcp tp y) :: (y, side_node s pcy x b) :: (x, side_node s pcx a1 (ptr a2)) :: cells a2 x ++ L) h ->
  (forall h',
    own R ((p, side_node s pcp tp x) :: (y, side_node s pcy (ptr a2) b) :: (x, side_node s pcx a1 y)
      :: cells (paint Black a2) y ++ L) h' ->
    exists d', aug_rotate cb h' y x d = Ret d' /\ Q (mk_rb h' r d', y, x)) ->
  runs (erase_case3 (aug_rotate cb) s (mk_rb h r d) p y x) Q.
Proof.
  intros Ho HQ. unfold erase_case3. rb_steps.
  eapply (runs_set_parent_color_opt R _ _ _ _ d a2 x y Black); [eassumption|find_swap|].
  clear Hown; intros h1 Hown. apply runs_bind, runs_call. destruct (HQ _ Hown) as (d' & Hd & H). exists d'; split; [done|].
  by apply runs_ret.
Qed.

(** Case 4: the sibling [y] takes the place and the color of [p], which turns
    black like [y]'s far child [b]. *)
Lemma erase_case4_spec s R h d p c tp w y pcy a b ap bp k L (Q : rb_state D -> Prop) :
  own R ((p, side_node s (pack (above k) c) tp w) :: (y, side_node s pcy (ptr a) (ptr b))
    :: cells a ap ++ cells b bp ++ L ++ kcells k p) h ->
  b <> E -> link ap -> link (above k) ->
  (forall h',
    own R ((p, side_node s (pack y Black) tp (ptr a)) :: (y, side_node s (pack (above k) c) p (ptr b))
      :: cells a p ++ cells (paint Black b) y ++ L ++ kcells k y) h' ->
    exists d', aug_rotate cb h' p y d = Ret d' /\ Q (mk_rb h' (top k y) d')) ->
  runs (erase_case4 (aug_rotate cb) s (mk_rb h (top k p) d) p y (ptr b)) Q.
Proof.
  intros Ho Hb Hap Hk HQ. unfold erase_case4, __rb_rotate_set_parents. rb_steps.
  eapply (runs_set_parent_color R _ _ _ _ d b bp y Black); [eassumption|find_swap|done|].
  clear Hown; intros h1 Hown. apply runs_bind.
  eapply (runs_set_parent_opt R _ _ _ _ d a ap p); [eassumption|find_swap|done|].
  clear Hown; intros h2 Hown; rb_steps. rewrite parent_pack by done.
  eapply (runs_change_child R); [eassumption|solve_submseteq|find_swap|done|].
  clear Hown; intros h3 Hown; apply runs_call. exact (HQ _ Hown).
Qed.

(** Case 4 at the hole of [k] restores the balance. *)
Lemma erase_far s R h d t p c w y pcy a b ap bp k n :
  let w0 := plug k (node s c t p (node s Black a y b)) in
  own R ((p, side_node s (pack (above k) c) (ptr t) w) :: (y, side_node s pcy (ptr a) (ptr b))
    :: cells a ap ++ cells b bp ++ cells t p ++ kcells k p) h ->
  NoDup (elems w0) -> Forall valid (elems w0) -> fitting d w0 ->
  b <> E -> link ap -> link (above k) ->
  bal n t -> bal n a -> bal (S n) (paint Black b) ->
  kbal (match c with Red => S n | Black => S (S n) end) k -> (c = Red -> takes_red k) ->
  runs (erase_case4 (aug_rotate cb) s (mk_rb h (top k p) d) p y (ptr b)) (rebalanced R (elems w0)).
Proof.
  intros w0 Ho Hnd Hv Hf Hb Hap Hl Ht Ha Hbb Hk Hc. unfold w0 in *; clear w0.
  eapply (erase_case4_spec s R h d p c (ptr t) w y pcy a b ap bp k (cells t p)); [done|done|done|done|].
  intros h' Ho'. rewrite <- (node_opp s _ _ p), <- (node_opp s _ _ y) in Hnd, Hv, Hf.
  destruct (rotate_fitting (opp s) h' d k b y a p t c Black c Black (side_node s (pack y Black) (ptr t) (ptr a)))
    as (d' & Hd & Hf'); [done|done|eapply own_lookup; [exact Ho'|find_cell]|by destruct s|done|].
  exists d'. split; [done|]. rewrite !node_opp in Hf'.
  exists (plug k (node s c (node s Black t p a) y (paint Black b))). split_and!; [split|..].
  - cbn [rb_nodes]. rewrite cells_plug, cells_node, cells_node, !ptr_node.
    replace (ptr (paint Black b)) with (ptr b) by by destruct b.
    eapply own_perm; [|reflexivity|exact Ho']. solve_Permutation.
  - cbn [rb_root]. by rewrite top_plug, ptr_node.
  - cbn [rb_data]. rewrite fitting_plug, fitting_node, !ptr_node in Hf'. rewrite fitting_plug, fitting_node, !ptr_node. by destruct b.
  - eapply plug_balanced; [|exact Hk|by rewrite color_node]. rewrite bal_node.
    assert (bal (S n) (node s Black t p a)) by (rewrite bal_node; eauto).
    destruct c; [rewrite color_node; destruct b; done|]. eauto.
  - rewrite !elems_plug. do 2 f_equal. destruct s; simpl; rewrite elems_paint; by rewrite <- ?app_assoc.
Qed.

(** Cases 3 and 4: the red near child [x] of the sibling [y]. *)
Lemma erase_near s R h d t p c y x a1 a2 b k n :
  let w0 := plug k (node s c t p (node s Black (node s Red a1 x a2) y b)) in
  own R (cells w0 0) h -> fitting d w0 -> link (above k) ->
  bal n t -> bal n (node s Red a1 x a2) -> bal n b ->
  kbal (match c with Red => S n | Black => S (S n) end) k -> (c = Red -> takes_red k) ->
  runs (erase_case3 (aug_rotate cb) s (mk_rb h (top k p) d) p y x)
    (fun a => runs (let '(t, tmp1, sibling) := a in erase_case4 (aug_rotate cb) s t p sibling tmp1)
      (rebalanced R (elems w0))).
Proof.
  intros w0 Ho Hf Hl Ht Ha Hb Hk Hc. destruct (own_elems _ _ _ Ho) as [Hnd Hv]. unfold w0 in *; clear w0.
  rewrite bal_node in Ha. destruct Ha as (Hc1 & Hc2 & Ha1 & Ha2).
  eapply (erase_case3_spec s R h _ d p (pack (above k) c) (ptr t) y (pack p Black) x (pack y Red) (ptr a1) a2 (ptr b)
    (cells a1 x ++ cells b y ++ cells t p ++ kcells k p)).
  { rewrite cells_plug, cells_node, cells_node, cells_node, !ptr_node in Ho.
    eapply own_perm; [|reflexivity|exact Ho]. solve_Permutation. }
  rewrite (paint_same Black a2) by done. intros h1 Ho1.
  assert (Hw1 : elems (plug k (node s c t p (node s Black a1 x (node s Black a2 y b))))
    = elems (plug k (node s c t p (node s Black (node s Red a1 x a2) y b)))).
  { rewrite !elems_plug. do 2 f_equal. destruct s; simpl; by repeat (rewrite <- app_assoc; simpl). }
  destruct (rotate_fitting s h1 d (F (opp s) c p t :: k) a1 x a2 y b Black Red Black Black
    (side_node s (pack p Black) (ptr a2) (ptr b))) as (d1 & Hd1 & Hf1);
    [by cbn [plug]; rewrite node_opp|by cbn [plug]; rewrite node_opp|eapply own_lookup; [exact Ho1|find_cell]
    |by destruct s|by cbn [plug]; rewrite node_opp|].
  cbn [plug] in Hf1. rewrite node_opp in Hf1. exists d1. split; [done|]. rewrite <- Hw1.
  assert (valid x) by (eapply own_valid; [exact Ho1|find_cell]).
  pose proof (erase_far s R h1 d1 t p c x x (pack y Red) a1 (node s Black a2 y b) x p k n) as H4.
  cbn zeta in H4. rewrite cells_node, !ptr_node in H4. apply H4; try done.
  - eapply own_perm; [|reflexivity|exact Ho1]. solve_Permutation.
  - by rewrite Hw1.
  - by rewrite Hw1.
  - by destruct s.
  - by right.
  - rewrite paint_same by apply color_node. rewrite bal_node. eauto.
Qed.

(** What the loop does with [fuel] at the hole of [k], whose subtree is short. *)
Definition loop_lengthens (R : nodes) (fuel : nat) (k : list frame) : Prop :=
  forall n t h d,
  own R (cells (plug k t) 0) h -> fitting d (plug k t) ->
  bal n t -> color_of t = Black -> kbal (S n) k -> k <> [] ->
  runs (erase_loop fuel (aug_rotate cb) (mk_rb h (top k (ptr t)) d) (ptr t) (above k))
    (rebalanced R (elems (plug k t))).

(** Case 2: the sibling turns red; a red parent turns black, else the loop goes on
    from it. *)
Lemma erase_flip R fuel s h d t p c a y b k n :
  let w0 := plug k (node s c t p (node s Black a y b)) in
  (c = Black -> k <> [] -> loop_lengthens R fuel k) ->
  own R (cells w0 0) h -> fitting d w0 -> link (above k) ->
  bal n t -> bal n a -> color_of a = Black -> bal n b -> color_of b = Black ->
  kbal (match c with Red => S n | Black => S (S n) end) k -> (c = Red -> takes_red k) ->
  runs (let parent := p in
        let* t := rb_set_parent_color (mk_rb h (top k p) d) y parent RB_RED in
        let* pred := rb_is_red t parent in
        if pred : bool then rb_set_black t parent
        else
          let node := parent in
          let* parent := rb_parent t node in
          if negb (parent =? 0) then erase_loop fuel (aug_rotate cb) t node parent else Ret t)
    (rebalanced R (elems w0)).
Proof.
  intros w0 IH Ho Hf Hl Ht Ha Hac Hb Hbc Hk Hc. unfold w0 in *; clear w0. cbn zeta.
  assert (Ho1 : own R ((p, side_node s (pack (above k) c) (ptr t) y) :: (y, side_node s (pack p Black) (ptr a) (ptr b))
    :: cells a y ++ cells b y ++ cells t p ++ kcells k p) h).
  { rewrite cells_plug, cells_node, cells_node, !ptr_node in Ho. eapply own_perm; [|reflexivity|exact Ho]. solve_Permutation. }
  clear Ho. rb_steps. rewrite is_red_pack by done.
  assert (Hf' : forall c, fitting d (plug k (node s c t p (node s Red a y b)))).
  { intros c'. rewrite fitting_plug, ptr_node in Hf |- *. by destruct s. }
  assert (He : forall c', elems (plug k (node s c' t p (node s Red a y b))) = elems (plug k (node s c t p (node s Black a y b)))).
  { intros c'. rewrite !elems_plug. by destruct s. }
  assert (Hn : bal (S n) (node s Black t p (node s Red a y b))).
  { rewrite bal_node. exists n. by rewrite bal_node. }
  assert (Hw : forall h2, own R ((p, side_node s (pack (above k) Black) (ptr t) y) :: (y, side_node s (pack p Red) (ptr a) (ptr b))
    :: cells a y ++ cells b y ++ cells t p ++ kcells k p) h2 ->
    own R (cells (plug k (node s Black t p (node s Red a y b))) 0) h2).
  { intros h2 Ho. rewrite cells_plug, cells_node, cells_node, !ptr_node. eapply own_perm; [|reflexivity|exact Ho]. solve_Permutation. }
  assert (Hdone : forall h2, own R (cells (plug k (node s Black t p (node s Red a y b))) 0) h2 ->
    kbal (S n) k -> rebalanced R (elems (plug k (node s Black t p (node s Red a y b)))) (mk_rb h2 (top k p) d)).
  { intros h2 Ho Hkb. eexists. split_and!; [split; [exact Ho| |apply Hf']| |done].
    - by rewrite top_plug, ptr_node.
    - eapply plug_balanced; [exact Hn|exact Hkb|]. by rewrite color_node. }
  rewrite <- (He Black). destruct c; rb_steps.
  - rewrite pack_blacken in Hown. by apply Hdone, Hk; apply Hw.
  - rewrite parent_pack by done. destruct k as [|fr k]; [by apply runs_ret, Hdone; [apply Hw|]|].
    rewrite (proj2 (Z.eqb_neq (above (fr :: k)) 0)) by (apply valid_neq0; eapply up_valid; [exact Hown| |done]; solve_submseteq).
    apply Hw in Hown.
    specialize (IH eq_refl ltac:(done) (S n) (node s Black t p (node s Red a y b)) h'). rewrite ptr_node in IH.
    apply IH; auto. apply color_node.
Qed.

(** The loop's body below a black sibling [o]. *)
Lemma erase_black_sibling R fuel s h d t p c o k n :
  let w0 := plug k (node s c t p o) in
  (c = Black -> k <> [] -> loop_lengthens R fuel k) ->
  own R (cells w0 0) h -> fitting d w0 -> bal n t -> bal (S n) o -> color_of o = Black ->
  kbal (match c with Red => S n | Black => S (S n) end) k -> (c = Red -> takes_red k) ->
  runs (let t := mk_rb h (top k p) d in
        let parent := p in
        let sibling := ptr o in
        let* tmp1 := get_child (opp s) t sibling in
        let* black1 := is_black_opt t tmp1 in
        if black1 : bool then
          let* tmp2 := get_child s t sibling in
          let* black2 := is_black_opt t tmp2 in
          if black2 : bool then
            let* t := rb_set_parent_color t sibling parent RB_RED in
            let* pred := rb_is_red t parent in
            if pred : bool then rb_set_black t parent
            else
              let node := parent in
              let* parent := rb_parent t node in
              if negb (parent =? 0) then erase_loop fuel (aug_rotate cb) t node parent else Ret t
          else
            let* (t, tmp1, sibling) := erase_case3 (aug_rotate cb) s t parent sibling tmp2 in
            erase_case4 (aug_rotate cb) s t parent sibling tmp1
        else erase_case4 (aug_rotate cb) s t parent sibling tmp1)
    (rebalanced R (elems w0)).
Proof.
  intros w0 IH Ho Hf Ht Hbo Hco Hk Hc. unfold w0 in *; clear w0. cbn zeta.
  assert (Hl : link (above k)) by (eapply (up_link R); [exact Ho|]; rewrite cells_plug, ptr_node; solve_submseteq).
  destruct (black_node s n o Hco Hbo) as (a & y & b & -> & Ha & Hb). clear Hco Hbo. rewrite ptr_node.
  assert (Ho1 : own R ((p, side_node s (pack (above k) c) (ptr t) y) :: (y, side_node s (pack p Black) (ptr a) (ptr b))
    :: cells a y ++ cells b y ++ cells t p ++ kcells k p) h).
  { rewrite cells_plug, cells_node, cells_node, !ptr_node in Ho. eapply own_perm; [|reflexivity|exact Ho]. solve_Permutation. }
  assert (Hy : link y) by (right; eapply own_valid; [exact Ho1|find_cell]).
  rb_steps. eapply (runs_is_black_opt R _ _ _ _ b y); [exact Ho1|solve_submseteq|done|].
  destruct (color_of b) eqn:Hcb.
  { destruct (own_elems _ _ _ Ho) as [Hnd Hv].
    eapply (erase_far s R h d t p c y y (pack p Black) a b y y k n); try done; [by destruct b|by apply bal_paint]. }
  rb_steps. eapply (runs_is_black_opt R _ _ _ _ a y); [exact Ho1|solve_submseteq|done|].
  destruct (color_of a) eqn:Hca.
  - destruct (red_node s n a Hca Ha) as (a1 & x & a2 & -> & _). rewrite ptr_node.
    apply runs_bind. by apply (erase_near s R h d t p c y x a1 a2 b k n).
  - by apply (erase_flip R fuel s h d t p c a y b k n).
Qed.

(** A red sibling, which has a black parent, is rotated away first. *)
Lemma erase_red_sibling s R h d t p a y b k n (Q : rb_state D * Z -> Prop) :
  let w0 := plug k (node s Black t p (node s Red a y b)) in
  own R (cells w0 0) h -> fitting d w0 -> link (above k) -> bal (S n) a -> color_of a = Black ->
  (forall h' d', own R (cells (plug k (node s Black (node s Red t p a) y b)) 0) h' ->
    fitting d' (plug k (node s Black (node s Red t p a) y b)) ->
    Q (mk_rb h' (top k y) d', ptr a)) ->
  runs (erase_case1 (aug_rotate cb) s (mk_rb h (top k p) d) p y) Q.
Proof.
  intros w0 Ho Hf Hl Ha Hac HQ. destruct (own_elems _ _ _ Ho) as [Hnd Hv]. unfold w0 in *; clear w0.
  eapply (erase_case1_spec s R h d p y (pack p Red) t a (ptr b) k (cells b y ++ cells t p)); [|by destruct a|done|].
  { rewrite cells_plug, cells_node, cells_node, !ptr_node in Ho. eapply own_perm; [|reflexivity|exact Ho]. solve_Permutation. }
  rewrite (paint_same Black a) by done. intros h' Ho'.
  rewrite <- (node_opp s _ _ p), <- (node_opp s _ _ y) in Hnd, Hv, Hf.
  destruct (rotate_fitting (opp s) h' d k b y a p t Black Red Black Red (side_node s (pack y Red) (ptr t) (ptr a)))
    as (d' & Hd & Hf'); [done|done|eapply own_lookup; [exact Ho'|find_cell]|by destruct s|done|].
  exists d'. split; [done|]. rewrite !node_opp in Hf'. apply HQ; [|done].
  rewrite cells_plug, cells_node, cells_node, !ptr_node. eapply own_perm; [|reflexivity|exact Ho']. solve_Permutation.
Qed.

(** The loop makes up for the black node that is missing below the hole. *)
Lemma erase_loop_spec R fuel k : (length k <= fuel)%nat -> loop_lengthens R fuel k.
Proof.
  revert k; induction fuel as [|fuel IH]; intros k Hfuel n t h d Ho Hf Ht Hct Hk Hne.
  { destruct k; [done|]. simpl in Hfuel; lia. }
  destruct k as [|[s c p o] k]; [done|]. clear Hne. cbn [erase_loop above top]. simpl in Hfuel.
  assert (Ho1 : own R ((p, side_node s (pack (above k) c) (ptr t) (ptr o)) :: cells t p ++ cells o p ++ kcells k p) h).
  { rewrite cells_plug in Ho. cbn [kcells above] in Ho. eapply own_perm; [|reflexivity|exact Ho]. solve_Permutation. }
  assert (Hl : link (above k)) by (eapply (up_link R); [exact Ho1|]; solve_submseteq).
  assert (Hp : link p) by (right; eapply own_valid; [exact Ho1|find_cell]).
  assert (Hbo : bal (S n) o) by (destruct c; apply Hk).
  assert (Hto : ptr t <> ptr o).
  { destruct t as [|ct l x rt]; simpl.
    - intros Heq. symmetry in Heq. revert Heq. eapply (own_ptr_neq0 R); [exact Ho1|solve_submseteq|by intros ->].
    - cbn [cells] in Ho1. eapply (own_ptr_ne R); [exact Ho1|]. solve_submseteq. }
  do 5 rb_step. rewrite (side_test s _ _ _ Hto). rb_steps.
  eapply (runs_is_red R _ _ _ _ o p); [exact Ho1|solve_submseteq|done|by intros ->|].
  destruct (color_of o) eqn:Hco; apply runs_bind.
  - destruct c; [destruct Hk as [Hk _]; congruence|]. destruct Hk as [_ Hk].
    destruct (red_node s _ o Hco Hbo) as (a & y & b & -> & Hca & Hcb & Ha & Hb). rewrite ptr_node.
    eapply (erase_red_sibling s R h d t p a y b k n); [done|done|done|done|done|].
    intros h' d' Ho' Hf'. clear Ho Ho1. cbn beta iota zeta.
    replace (elems (plug (F s Black p (node s Red a y b) :: k) t))
      with (elems (plug (F s Black y b :: k) (node s Red t p a)))
      by (cbn [plug]; rewrite !elems_plug; do 2 f_equal; destruct s; simpl; by rewrite <- app_assoc).
    by apply (erase_black_sibling R fuel s h' d' t p Red a (F s Black y b :: k) n).
  - apply runs_ret. apply (erase_black_sibling R fuel s h d t p c o k n); try done.
    + intros -> Hne. apply IH. lia.
    + destruct c; apply Hk.
    + intros ->. apply Hk.
Qed.
End Erase.
