(* ===== verification/RBTreeRemove.v ===== *)
(** * Erasing a node (include/linux/rbtree_augmented.h, lib/rbtree.c)

    [__rb_erase_augmented] takes the node out: its only child, or its successor in
    the sequence, takes its place, and the subtree that lost a black node, if any,
    is the one [____rb_erase_color] starts from. *)
From Stdlib Require Import ZArith Lia Bool.
From stdpp Require Import base numbers list gmap.
From S2P Require Import Prelude RBTree RBTreeShape RBTreeRep RBTreeAugment RBTreeInsert RBTreeErase.

(** ** Shape *)

(** A node with one child at most: the child is red and the node black, or there is
    none. *)
Lemma one_child s n c x t : bal n (node s c E x t) ->
  (t = E /\ n = match c with Red => O | Black => 1%nat end)
  \/ (t <> E /\ c = Black /\ n = 1%nat /\ bal 1 (paint Black t)).
Proof.
  rewrite bal_node. destruct c.
  - intros (_ & Hc & -> & Ht). left. destruct t as [|[] l y rt]; simpl in *; [done|done|].
    destruct Ht as (m & Hm & _). lia.
  - intros (m & -> & -> & Ht). destruct t as [|[] l y rt]; simpl in *; [by left| |].
    + right. split_and!; try done. exists O. tauto.
    + destruct Ht as (m & Hm & _). lia.
Qed.

(** The balance of a context does not depend on its nodes. *)
Lemma kbal_rename n k s c x y o k' : kbal n (k ++ F s c x o :: k') -> kbal n (k ++ F s c y o :: k').
Proof.
  revert n; induction k as [|[s1 [] x1 o1] k IH]; intros n; simpl; [done| |].
  - intros (H1 & H2 & H3 & H4). split_and!; auto. by destruct k as [|[? [] ? ?] k].
  - intros (H1 & H2). split_and!; auto.
Qed.

Definition on_left (f : frame) : Prop := match f with F s _ _ _ => s = Left end.

Section Remove.
Context {D : Type} {cb : rb_augment_callbacks D} `{!Augment cb}.
Implicit Types (r : Z) (d : D).

(** The way down to the leftmost node. *)
Lemma find_successor_spec R L h r d fuel : forall t y,
  own R L h -> cells t y ⊆+ L -> t <> E -> (length (elems t) <= fuel)%nat ->
  exists k c s rt, t = plug k (T c E s rt) /\ Forall on_left k /\
    find_successor fuel (mk_rb h r d) y (ptr t) = Ret (up_to y k, s).
Proof.
  induction fuel as [|fuel IH]; intros t y Ho Hs Ht Hfuel; destruct t as [|c l s rt]; try done.
  { simpl in Hfuel. rewrite length_app in Hfuel. simpl in Hfuel. lia. }
  cbn [find_successor ptr]. unfold get_child, get. cbn [rb_nodes cells] in *.
  rewrite (own_lookup R L h s (mk_node (pack y c) (ptr rt) (ptr l))); [|done|].
  2:{ apply (elem_of_submseteq _ _ _ (list_elem_of_here _ _) Hs). }
  cbn [obind child_of rb_left]. destruct (decide (l = E)) as [->|Hl].
  - exists [], c, s, rt. split_and!; [done|constructor|done].
  - assert (Hls : cells l s ⊆+ L) by (etrans; [|exact Hs]; solve_submseteq).
    rewrite (proj2 (Z.eqb_neq (ptr l) 0)) by by eapply own_ptr_neq0.
    destruct (IH l s Ho Hls Hl) as (k & c' & s' & rt' & -> & Hk & Hf).
    { simpl in Hfuel. rewrite length_app in Hfuel. simpl in Hfuel. lia. }
    exists (k ++ [F Left c s rt]), c', s', rt'. split_and!.
    + by rewrite plug_app.
    + apply Forall_app; split; [done|]. by constructor.
    + cbn [negb]. by rewrite Hf, up_to_app.
Qed.

(** The values of a context right except for its innermost node's. *)
Definition stale (d : D) (k : list frame) : Prop :=
  (k <> [] -> stored d (above k)) /\ others_fit d k /\ kfitting d (tail k) (above k).

Lemma kfitting_stale d k hp : kfitting d k hp -> stale d k.
Proof.
  intros Hk. unfold stale. split_and!.
  - destruct k as [|[[] c x o] k]; [done|..]; intros _; destruct Hk as (Hx & _); by eapply fits_stored.
  - revert hp Hk. induction k as [|[s c x o] k IH]; intros hp; [constructor|]. intros (_ & Ho & Hk).
    constructor; [done|]. by eapply IH.
  - destruct k as [|[s c x o] k]; [done|]. apply Hk.
Qed.

Lemma own_disjoint R L1 L2 h x : own R (L1 ++ L2) h -> x ∈ L1.*1 -> x ∉ L2.*1.
Proof. intros Ho. pose proof (own_nodup _ _ _ Ho) as Hnd. rewrite fmap_app, NoDup_app in Hnd. naive_solver. Qed.

Lemma own_not_0 R L h : own R L h -> 0 ∉ L.*1.
Proof. intros Ho H0. by apply (valid_neq0 0 (own_valid _ _ _ _ Ho H0)). Qed.

(** [propagate (above k, NULL)] makes the whole tree's values right. *)
Lemma propagate_up R h d k t L :
  own R (L ++ cells t (above k) ++ kcells k (ptr t)) h -> fitting d t -> stale d k ->
  exists d', aug_propagate cb h (above k) 0 d = Ret d' /\ fitting d' (plug k t).
Proof.
  intros Ho Hf (Hs & Hot & Hk). rewrite kcells_to_0 in Ho.
  assert (Ho1 : own R (kcells_to 0 k (ptr t) ++ L ++ cells t (above k)) h)
    by (eapply own_perm; [|reflexivity|exact Ho]; solve_Permutation).
  assert (H0 : 0 ∉ (kcells_to 0 k (ptr t)).*1) by (pose proof (own_not_0 _ _ _ Ho1); rewrite fmap_app in *; set_solver).
  assert (Ht : forall z, z ∈ elems t -> z ∉ (kcells_to 0 k (ptr t)).*1).
  { intros z Hz Hin. eapply (own_disjoint _ _ _ _ _ Ho1); [exact Hin|]. rewrite fmap_app, elem_of_app, cells_keys. by right. }
  destruct (propagate_fitting R h d 0 k (ptr t) _ Ho1) as (d' & Hd & Hf' & Hsame); [by left|done| |done|done|done|by apply fitting_ptr|].
  { destruct t as [|ct l y rt]; [done|]. apply Ht. simpl. set_solver. }
  exists d'. split; [done|]. rewrite fitting_plug. split; [|done]. assert (Hsp := spine_cells 0 k (ptr t)).
  eapply fitting_same; [| |exact Hf].
  - intros z Hz. apply Hsame. intros Hin. by apply (Ht z Hz), Hsp.
  - apply Hsame. intros Hin. by apply H0, Hsp.
Qed.

(** What [__rb_erase_augmented] leaves: the tree without [x], balanced or, below the
    node it returns, with one black node missing. *)
Definition erased (R : nodes) (x : Z) (l : list Z) (a : rb_state D * Z) : Prop :=
  exists n k t, own R ((x, n) :: cells (plug k t) 0) (rb_nodes a.1) /\ rb_root a.1 = ptr (plug k t)
    /\ fitting (rb_data a.1) (plug k t) /\ elems (plug k t) = l
    /\ ((a.2 = 0 /\ balanced (plug k t)) \/ (t = E /\ k <> [] /\ a.2 = above k /\ kbal 1 k)).

(** Putting the child [t] of a node of color [c] in its place. *)
Lemma shrink R x nx k t n s c y h r d l :
  bal n (node s c E y t) -> kbal n k ->
  own R ((x, nx) :: cells (plug k (paint Black t)) 0) h -> r = top k (ptr t) ->
  fitting d (plug k (paint Black t)) -> elems (plug k (paint Black t)) = l ->
  erased R x l (mk_rb h r d, match t, c with E, Black => above k | _, _ => 0 end).
Proof.
  intros Hb Hk Ho -> Hf He. exists nx, k, (paint Black t). cbn [fst snd rb_nodes rb_root rb_data].
  split_and!; [done| |done|done|]. { rewrite top_plug. by destruct t. }
  destruct (one_child s n c y t Hb) as [[-> Hn]|(Ht & -> & -> & Hp)].
  - destruct c; subst n; [left; split; [done|]; by eapply plug_balanced|].
    destruct k as [|fr k]; [left; split; [done|]; split; [done|by exists O]|]. by right.
  - left. split; [by destruct t|]. eapply plug_balanced; [exact Hp|done|]. by destruct t.
Qed.

(** Storing the erased node's word in its only child. *)
Lemma runs_set_pc R L L' h r d t p q c (Q : rb_state D -> Prop) :
  own R L h -> swap (cells t p) (cells (paint c t) q) L L' -> t <> E ->
  (forall h', own R L' h' -> Q (mk_rb h' r d)) -> runs (set_pc (mk_rb h r d) (ptr t) (pack q c)) Q.
Proof. apply runs_set_parent_color. Qed.

(** The end of the cases with one child at most. *)
Lemma erase_finish R x nx k t n s c h d :
  own R ((x, nx) :: cells (paint Black t) (above k) ++ kcells k (ptr t)) h -> fitting d t -> stale d k ->
  bal n (node s c E x t) -> kbal n k ->
  runs (let* t0 := call (aug_propagate cb) (mk_rb h (top k (ptr t)) d) (above k) 0 in
      Ret (t0, match t, c with E, Black => above k | _, _ => 0 end)) (erased R x (before k ++ elems t ++ after k)).
Proof.
  intros Ho Hf Hs Hb Hk. apply runs_bind, runs_call.
  assert (Hp : ptr (paint Black t) = ptr t) by by destruct t. rewrite <- Hp in Ho.
  destruct (propagate_up R h d k (paint Black t) [(x, nx)] Ho) as (d' & Hd & Hf'); [by rewrite fitting_paint|done|].
  exists d'. split; [done|]. apply runs_ret. eapply (shrink R x nx k t n s c x); try done.
  - by rewrite cells_plug.
  - by rewrite elems_plug, elems_paint.
Qed.

(** The values are right but for that of the node to be erased, which has some
    value. *)
Definition fitting_but (d : D) (k : list frame) (l : tree) (x : Z) (rt : tree) : Prop :=
  stored d x /\ fitting d l /\ fitting d rt /\ kfitting d k x.

Lemma fitting_fitting_but d k c l x rt : fitting d (plug k (T c l x rt)) -> fitting_but d k l x rt.
Proof. rewrite fitting_plug. intros [(Hx & Hl & Hr) Hk]. split_and!; try done. by eapply fits_stored. Qed.

Lemma erase_no_left R h d k c x t :
  own R (cells (plug k (T c E x t)) 0) h -> fitting_but d k E x t -> balanced (plug k (T c E x t)) ->
  runs (__rb_erase_augmented cb (mk_rb h (top k x) d) x) (erased R x (before k ++ elems t ++ after k)).
Proof.
  intros Ho Hf Hb. destruct (balanced_plug _ _ Hb) as (n & Hn & Hk & _).
  rewrite cells_plug in Ho. cbn [cells ptr app] in Ho. destruct Hf as (_ & _ & Hft & Hfk).
  assert (Hl : link (above k)) by (eapply (up_link R); [exact Ho|]; solve_submseteq).
  unfold __rb_erase_augmented. rb_steps. cbn [Z.eqb]. rb_steps. rewrite parent_pack, is_black_pack by done.
  eapply (runs_change_child R); [exact Ho|solve_submseteq|find_swap|done|]. clear Ho. intros h1 Ho. apply runs_bind.
  apply kfitting_stale in Hfk. destruct (decide (t = E)) as [->|Ht].
  { apply runs_ret. replace (if _ : bool then _ else _) with (match c with Red => 0 | Black => above k end) by by destruct c.
    exact (erase_finish R x _ k E n Left c h1 d Ho Hft Hfk Hn Hk). }
  rewrite (proj2 (Z.eqb_neq (ptr t) 0)) by (eapply own_ptr_neq0; [exact Ho| |done]; solve_submseteq).
  destruct (one_child Left n c x t Hn) as [[? _]|(_ & -> & _)]; [done|].
  cbn [negb]. apply runs_bind. eapply (runs_set_pc R); [exact Ho|find_swap|done|].
  intros h2 Ho2. apply runs_ret. pose proof (erase_finish R x _ k t n Left Black h2 d Ho2 Hft Hfk Hn Hk) as H. by destruct t.
Qed.

Lemma erase_no_right R h d k c x t :
  t <> E -> own R (cells (plug k (T c t x E)) 0) h -> fitting_but d k t x E -> balanced (plug k (T c t x E)) ->
  runs (__rb_erase_augmented cb (mk_rb h (top k x) d) x) (erased R x (before k ++ elems t ++ after k)).
Proof.
  intros Ht Ho Hf Hb. destruct (balanced_plug _ _ Hb) as (n & Hn & Hk & _).
  rewrite cells_plug in Ho. cbn [cells ptr app] in Ho. destruct Hf as (_ & Hft & _ & Hfk).
  assert (Hl : link (above k)) by (eapply (up_link R); [exact Ho|]; solve_submseteq).
  rewrite app_nil_r in Ho. unfold __rb_erase_augmented. rb_steps.
  rewrite (proj2 (Z.eqb_neq (ptr t) 0)) by (eapply own_ptr_neq0; [exact Ho| |done]; solve_submseteq).
  cbn [Z.eqb]. rb_steps. eapply (runs_set_pc R); [exact Ho|find_swap|done|]. clear Ho. intros h1 Ho. apply runs_bind.
  rewrite parent_pack by done. eapply (runs_change_child R); [exact Ho|solve_submseteq|find_swap|done|].
  clear Ho. intros h2 Ho. destruct (one_child Right n c x t Hn) as [[? _]|(_ & -> & _)]; [done|].
  pose proof (erase_finish R x _ k t n Right Black h2 d Ho Hft (kfitting_stale _ _ _ Hfk) Hn Hk) as H. by destruct t.
Qed.

(** Two children: the successor [s] has been taken out below the context [kr] and
    takes the place of [x], which has [l] on its left. *)
Lemma erase_successor_end R x s c cs l rr kr k n nx h d :
  let K := kr ++ F Right c s l :: k in
  bal n (T cs E s rr) -> kbal n K ->
  own R ((x, nx) :: (s, mk_node (pack (above k) c) (top kr (ptr rr)) (ptr l)) :: cells l s
    ++ cells (paint Black rr) (up_to s kr) ++ kcells_to s kr (ptr rr) ++ kcells k s) h ->
  fitting d l -> fitting d rr -> kfitting d kr (ptr rr) -> kfitting d k s -> stored d s ->
  runs (call (aug_propagate cb) (mk_rb h (top k s) d) s 0)
    (fun t => runs (Ret (t, match rr, cs with E, Black => up_to s kr | _, _ => 0 end)) (erased R x (elems (plug K rr)))).
Proof.
  intros K Hbal Hkbal Ho Hfl Hfr Hfkr Hfk Hs. assert (Hp : ptr (paint Black rr) = ptr rr) by by destruct rr.
  assert (Ho1 : own R ((x, nx) :: cells (plug kr (paint Black rr)) s ++ kcells (F Right c s l :: k) (ptr (plug kr (paint Black rr)))) h).
  { rewrite cells_plug_to, top_plug, Hp. cbn [kcells side_node]. eapply own_perm; [|reflexivity|exact Ho]. solve_Permutation. }
  apply runs_call.
  destruct (propagate_up R h d (F Right c s l :: k) (plug kr (paint Black rr)) [(x, nx)] Ho1) as (d' & Hd & Hf).
  { rewrite fitting_plug, fitting_paint, Hp. done. }
  { split_and!; [done|constructor; [done|apply (kfitting_stale d k s Hfk)]|done]. }
  exists d'. split; [done|]. apply runs_ret. rewrite <- plug_app in Hf.
  replace (up_to s kr) with (above K) by apply (up_app kr). eapply (shrink R x nx K rr n Left cs s); try done.
  - unfold K. rewrite plug_app, (cells_plug (F Right c s l :: k)). exact Ho1.
  - unfold K. by rewrite top_app.
  - by rewrite !elems_plug, elems_paint.
Qed.

Lemma erase_successor_tail R x s c cs l rr kr k n pr q w h d :
  let K := kr ++ F Right c s l :: k in
  bal n (T cs E s rr) -> kbal n K ->
  own R ((x, mk_node (pack (above k) c) pr (ptr l)) :: (s, mk_node (pack q cs) (top kr (ptr rr)) w) :: cells l x
    ++ cells rr s ++ kcells_to s kr (ptr rr) ++ kcells k x) h ->
  l <> E -> link (above k) -> link q ->
  fitting d l -> fitting d rr -> kfitting d kr (ptr rr) -> kfitting d k s -> stored d s ->
  runs (let t := mk_rb h (top k x) d in
        let node := x in
        let successor := s in
        let parent := up_to s kr in
        let child2 := ptr rr in
        let* tmp := get_child Left t node in
        let* t := set_child Left t successor tmp in
        let* t := rb_set_parent t tmp successor in
        let* pc := get_pc t node in
        let tmp := __rb_parent pc in
        let* t := __rb_change_child t node successor tmp in
        let* (t, rebalance) :=
          if negb (child2 =? 0) then
            let* t := set_pc t successor pc in
            let* t := rb_set_parent_color t child2 parent RB_BLACK in
            Ret (t, 0)
          else
            let* pc2 := get_pc t successor in
            let* t := set_pc t successor pc in
            Ret (t, if __rb_is_black pc2 then parent else 0) in
        let tmp := successor in
        let* t := call (aug_propagate cb) t tmp 0 in
        Ret (t, rebalance)) (erased R x (elems (plug K rr))).
Proof.
  intros K Hbal Hkbal Ho Hl Hlk Hlq Hfl Hfr Hfkr Hfk Hs. cbn zeta.
  assert (Hx : link x) by (right; eapply own_valid; [exact Ho|find_cell]).
  rb_steps. eapply (runs_set_parent R); [exact Hown|find_swap|done|done|]. clear Hown. intros h1 Hown. rb_steps.
  rewrite parent_pack by done. eapply (runs_change_child R); [exact Hown|solve_submseteq|find_swap|done|].
  clear Hown. intros h2 Hown. apply runs_bind. destruct (decide (rr = E)) as [Hrr|Hrr].
  - subst rr. cbn [ptr Z.eqb negb]. rb_steps. rewrite is_black_pack by done.
    replace (if _ : bool then _ else _) with (match cs with Red => 0 | Black => up_to s kr end) by by destruct cs.
    exact (erase_successor_end R x s c cs l E kr k n _ _ d Hbal Hkbal Hown Hfl Hfr Hfkr Hfk Hs).
  - rewrite (proj2 (Z.eqb_neq (ptr rr) 0)) by (eapply own_ptr_neq0; [exact Hown| |done]; solve_submseteq).
    cbn [negb]. rb_steps. eapply (runs_set_parent_color R _ _ _ _ d rr s _ Black); [exact Hown|find_swap|done|].
    clear Hown. intros h3 Hown. apply runs_ret, runs_bind.
    pose proof (erase_successor_end R x s c cs l rr kr k n _ h3 d Hbal Hkbal Hown Hfl Hfr Hfkr Hfk Hs) as H. by destruct rr.
Qed.

Lemma kcells_keys b k hp : (kcells_to b k hp).*1 ≡ₚ kelems k.
Proof.
  unfold kelems. revert hp; induction k as [|[s c x o] k IH]; intros hp; simpl; [done|].
  rewrite fmap_app, IH, cells_keys. destruct s; solve_Permutation.
Qed.

Lemma stale_same d d' k :
  (forall z, z ∈ kelems k -> same d z d' z) -> same d 0 d' 0 -> stale d k -> stale d' k.
Proof.
  intros Hs H0 (Hst & Hot & Hk). destruct k as [|[s c x o] k]; [split_and!; [done|constructor|done]|].
  unfold kelems in Hs. cbn [before after] in Hs.
  assert (Hx : same d x d' x) by (apply Hs; destruct s; set_solver).
  split_and!.
  - intros _. eapply stored_same; [by apply Hst|done].
  - unfold others_fit in *. rewrite Forall_forall in Hot |- *. intros [s1 c1 x1 o1] Hin.
    eapply fitting_same; [|done|exact (Hot _ Hin)]. intros z Hz.
    apply (Hs z). apply elem_of_app.
    enough (Hz' : z ∈ before (F s c x o :: k) \/ z ∈ after (F s c x o :: k)) by done.
    clear - Hin Hz. induction (F s c x o :: k) as [|[s2 c2 x2 o2] k' IH]; [by apply elem_of_nil in Hin|].
    apply elem_of_cons in Hin as [Heq|Hin]; [simplify_eq; destruct s2; simpl; set_solver|].
    destruct s2; simpl; set_solver.
  - cbn [tail above] in *. eapply kfitting_same; [|done|exact Hx|exact Hk].
    intros z Hz. apply Hs. unfold kelems in Hz. destruct s; set_solver.
Qed.

(** [copy (x, s)], in terms of the parts of the tree. *)
Lemma copy_values d h x s l rr kr k :
  NoDup (x :: s :: elems l ++ elems rr ++ kelems kr ++ kelems k) -> valid s ->
  fitting d l -> fitting d rr -> stale d kr -> kfitting d k x -> stored d x -> stored d s ->
  exists d', aug_copy cb h x s d = Ret d' /\ fitting d' l /\ fitting d' rr /\ stale d' kr /\ kfitting d' k s /\ stored d' s.
Proof.
  intros Hnd Hv Hl Hr Hkr Hk Hx Hs. apply NoDup_cons in Hnd as [Hxn Hnd]. apply NoDup_cons in Hnd as [Hsn _].
  rewrite !elem_of_app in Hsn. assert (x <> s) by set_solver.
  destruct (copy_law h d x s) as (d' & Hd & Hxs & Hsame); [done|done|done|].
  assert (H0 : same d 0 d' 0) by (apply Hsame; pose proof (valid_neq0 _ Hv); done).
  assert (Hin : forall L : list Z, s ∉ L -> forall z, z ∈ L -> same d z d' z) by (intros L ???; apply Hsame; set_solver).
  exists d'. split_and!; [done|..].
  1, 2: (eapply fitting_same; [apply Hin; tauto|done|done]).
  - eapply stale_same; [apply Hin; tauto|done|done].
  - eapply kfitting_same; [apply Hin; tauto|done|exact Hxs|done].
  - eapply stored_same; [exact Hx|exact Hxs].
Qed.

(** [propagate (above kr, s)], likewise. *)
Lemma propagate_values R d h s l rr kr k L :
  own R (kcells_to s kr (ptr rr) ++ L) h -> kr <> [] ->
  NoDup (s :: elems l ++ elems rr ++ kelems kr ++ kelems k) -> valid s -> Forall valid (kelems kr) ->
  fitting d l -> fitting d rr -> stale d kr -> kfitting d k s -> stored d s ->
  exists d', aug_propagate cb h (up_to s kr) s d = Ret d' /\
    fitting d' l /\ fitting d' rr /\ kfitting d' kr (ptr rr) /\ kfitting d' k s /\ stored d' s.
Proof.
  intros Ho Hkr Hnd Hv Hvk Hl Hr (Hst & Hot & Htl) Hk Hs.
  assert (Hup : above kr = up_to s kr) by (by destruct kr as [|[? ? ? ?] ?]). rewrite Hup in Hst, Htl.
  apply NoDup_cons in Hnd as [Hsn Hnd]. rewrite !elem_of_app in Hsn.
  apply NoDup_app in Hnd as (_ & Hdl & Hnd). apply NoDup_app in Hnd as (_ & Hdr & Hnd).
  apply NoDup_app in Hnd as (_ & Hdk & _).
  assert (H0 : 0 ∉ kelems kr) by (intros Hin; rewrite Forall_forall in Hvk; by apply (valid_neq0 0 (Hvk _ Hin))).
  destruct (propagate_fitting R h d s kr (ptr rr) L Ho) as (d' & Hd & Hf & Hsame);
    [by right|rewrite kcells_keys; tauto| |done|done|done|by apply fitting_ptr|].
  { rewrite kcells_keys. destruct rr as [|cr a y b]; [done|]. cbn [ptr elems] in *. intros Hin. apply (Hdr y); rewrite !elem_of_app, ?elem_of_cons; tauto. }
  assert (Hin : forall z, z ∉ kelems kr -> same d z d' z).
  { intros z Hz. apply Hsame. intros Hz'. apply Hz. rewrite <- (kcells_keys s kr 0). by apply spine_cells. }
  exists d'. split_and!; [done|..]; try done.
  - eapply fitting_same; [|by apply Hin|exact Hl]. intros z Hz. apply Hin. intros Hz'. apply (Hdl z Hz). rewrite !elem_of_app. tauto.
  - eapply fitting_same; [|by apply Hin|exact Hr]. intros z Hz. apply Hin. intros Hz'. apply (Hdr z Hz). rewrite !elem_of_app. tauto.
  - eapply kfitting_same; [|by apply Hin|apply Hin; tauto|exact Hk]. intros z Hz. apply Hin. intros Hz'. by apply (Hdk z Hz').
  - eapply stored_same; [exact Hs|]. apply Hin. tauto.
Qed.

(** The pointer in the innermost node of a context of left sides. *)
Lemma runs_set_hole R L L' h r d b k hp hp' (Q : rb_state D -> Prop) :
  own R L h -> swap (kcells_to b k hp) (kcells_to b k hp') L L' -> k <> [] -> Forall on_left k ->
  (forall h', own R L' h' -> Q (mk_rb h' r d)) -> runs (set_child Left (mk_rb h r d) (up_to b k) hp') Q.
Proof.
  intros Ho (M & HL & HL')%swap_parts Hk Hon HQ. rewrite HL in Ho. destruct k as [|[s c x o] k]; [done|].
  rewrite Forall_cons in Hon. destruct Hon as [Hs _]. cbn [on_left] in Hs. subst s.
  cbn [kcells_to side_node] in Ho, HL'. cbn [up_to]. rb_steps. apply HQ. by rewrite HL'.
Qed.

(** The nodes of a tree with the leftmost node of the right subtree of [x] apart. *)
Lemma split_elems k c l x kr cs s rr :
  elems (plug k (T c l x (plug kr (T cs E s rr)))) ≡ₚ x :: s :: elems l ++ elems rr ++ kelems kr ++ kelems k.
Proof. rewrite kelems_plug. simpl. rewrite (kelems_plug kr). simpl. solve_Permutation. Qed.

(** The sequence without [x]. *)
Lemma successor_elems k c l kr s rr cs : Forall on_left kr ->
  elems (plug (kr ++ F Right c s l :: k) rr) = before k ++ elems l ++ elems (plug kr (T cs E s rr)) ++ after k.
Proof.
  intros Hl. assert (Hb : before kr = []).
  { induction Hl as [|[s1 c1 x1 o1] kr Hs _ IH]; [done|]. cbn [on_left] in Hs. by subst s1. }
  rewrite !elems_plug, before_app, after_app, Hb. simpl. rewrite app_nil_r, <- !app_assoc. done.
Qed.

(** The parts of the tree before the node [x] is erased. *)
Lemma erase_parts R h d k c l x kr cs s rr :
  let w := plug k (T c l x (plug kr (T cs E s rr))) in
  own R (cells w 0) h -> fitting_but d k l x (plug kr (T cs E s rr)) -> balanced w ->
  exists n, bal n (T cs E s rr) /\ kbal n (kr ++ F Right c s l :: k)
  /\ own R ((x, mk_node (pack (above k) c) (top kr s) (ptr l)) :: (s, mk_node (pack (up_to x kr) cs) (ptr rr) 0)
      :: cells l x ++ cells rr s ++ kcells_to x kr s ++ kcells k x) h
  /\ NoDup (x :: s :: elems l ++ elems rr ++ kelems kr ++ kelems k) /\ valid x /\ valid s /\ Forall valid (kelems kr)
  /\ link (above k) /\ fitting d l /\ fitting d rr /\ stale d kr /\ kfitting d k x /\ stored d x /\ stored d s.
Proof.
  intros w Ho Hf Hb. unfold w in *; clear w. destruct (own_elems _ _ _ Ho) as [Hnd Hv].
  rewrite split_elems in Hnd, Hv. rewrite !Forall_cons, !Forall_app in Hv.
  assert (Hl : link (above k)) by (eapply (up_link R); [exact Ho|]; rewrite cells_plug; solve_submseteq).
  rewrite cells_plug in Ho. cbn [cells ptr app] in Ho. rewrite top_plug, cells_plug_to in Ho. cbn [cells ptr app] in Ho.
  destruct Hf as (Hx & Hfl & Hf & Hfk). rewrite fitting_plug in Hf. cbn [fitting ptr] in Hf. destruct Hf as ((Hs & _ & Hfr) & Hfkr).
  change (plug k (T c l x (plug kr (T cs E s rr)))) with (plug (F Right c x l :: k) (plug kr (T cs E s rr))) in Hb.
  rewrite <- plug_app in Hb. apply balanced_plug in Hb as (n & Hn & Hk & _).
  exists n. split_and!; try tauto.
  - by eapply kbal_rename.
  - eapply own_perm; [|reflexivity|exact Ho]. solve_Permutation.
  - by eapply kfitting_stale.
  - by eapply fits_stored.
Qed.

(** The successor is the right child. *)
Lemma erase_near_successor R h d k c l x cs s rr :
  let w := plug k (T c l x (T cs E s rr)) in
  own R (cells w 0) h -> fitting_but d k l x (T cs E s rr) -> balanced w -> l <> E ->
  runs (erase_two_children cb (mk_rb h (top k x) d) x s) (erased R x (before k ++ elems l ++ elems (T cs E s rr) ++ after k)).
Proof.
  intros w Ho Hf Hb Hl. destruct (erase_parts R h d k c l x [] cs s rr Ho Hf Hb)
    as (n & Hn & Hk & Ho1 & Hnd & Hvx & Hvs & _ & Hlk & Hfl & Hfr & Hst & Hfk & Hsx & Hss). clear Ho Hf Hb w.
  unfold erase_two_children. cbn [kcells_to top up_to app] in *. rb_steps. cbn [Z.eqb]. rb_steps.
  destruct (copy_values d h x s l rr [] k) as (d1 & Hd & Hfl1 & Hfr1 & _ & Hfk1 & Hs1); try done.
  apply runs_call. exists d1. split; [done|]. apply runs_ret.
  pose proof (successor_elems k c l [] s rr cs ltac:(constructor)) as He. cbn [plug app] in He. rewrite <- He.
  eapply (erase_successor_tail R x s c cs l rr [] k n s x 0 h d1); try done. by right.
Qed.

(** The successor [s] is taken out of the subtree at [y]. *)
Lemma runs_unlink {B} R h r d x nx s pcs rr k1 cr y ro L1 L2 (K : rb_state D -> outcome B) (Q : B -> Prop) :
  let kr := k1 ++ [F Left cr y ro] in
  own R ((x, nx) :: (s, mk_node pcs (ptr rr) 0) :: L1 ++ kcells_to x kr s ++ L2) h ->
  Forall on_left kr -> link x ->
  (forall h', own R ((x, nx) :: (s, mk_node pcs y 0) :: L1 ++ kcells_to s kr (ptr rr) ++ L2) h' -> runs (K (mk_rb h' r d)) Q) ->
  runs (let* t := set_child Left (mk_rb h r d) (up_to x kr) (ptr rr) in
        let* t := set_child Right t s y in
        let* t := rb_set_parent t y s in
        K t) Q.
Proof.
  intros kr Ho Hon Hx HQ. apply runs_bind. eapply (runs_set_hole R); [exact Ho|find_swap|unfold kr; by destruct k1|done|].
  clear Ho. intros h1 Hown. rb_steps.
  assert (Ho : own R ((y, mk_node (pack x cr) (ptr ro) (top k1 (ptr rr))) :: (x, nx) :: (s, mk_node pcs y 0)
    :: L1 ++ kcells_to y k1 (ptr rr) ++ cells ro y ++ L2) h').
  { unfold kr in Hown. rewrite kcells_to_app in Hown. cbn [kcells_to up_to side_node app] in Hown.
    eapply own_perm; [|reflexivity|exact Hown]. solve_Permutation. }
  clear Hown. rb_steps. apply HQ. rewrite color_pack, pack_comm in Hown by done.
  unfold kr. rewrite kcells_to_app. cbn [kcells_to up_to side_node app].
  eapply own_perm; [|reflexivity|exact Hown]. solve_Permutation.
Qed.

(** The successor is further down. *)
Lemma erase_far_successor R h d k c l x cr rl y ro :
  let w := plug k (T c l x (T cr rl y ro)) in
  own R (cells w 0) h -> fitting_but d k l x (T cr rl y ro) -> balanced w -> l <> E -> rl <> E ->
  runs (erase_two_children cb (mk_rb h (top k x) d) x y) (erased R x (before k ++ elems l ++ elems (T cr rl y ro) ++ after k)).
Proof.
  intros w Ho Hf Hb Hl Hrl. pose proof (own_size _ _ _ Ho) as Hsz. rewrite <- (length_fmap fst), cells_keys in Hsz.
  destruct (find_successor_spec R _ h (top k x) d (S (size h)) rl y Ho) as (k1 & cs & s & rr & Hreq & Hon & Hfind); [|done| |].
  { unfold w. rewrite cells_plug. cbn [cells]. solve_submseteq. }
  { unfold w in Hsz. rewrite elems_plug in Hsz. cbn [elems] in Hsz. rewrite !length_app in Hsz. simpl in Hsz.
    rewrite length_app in Hsz. lia. }
  set (kr := k1 ++ [F Left cr y ro]). assert (Hr : T cr rl y ro = plug kr (T cs E s rr)) by (unfold kr; rewrite plug_app, <- Hreq; done).
  assert (Hp : forall b, up_to y k1 = up_to b kr) by (intros b; unfold kr; by rewrite up_to_app).
  assert (Hy : forall hp, top kr hp = y) by (intros hp; unfold kr; by rewrite top_app).
  assert (Honk : Forall on_left kr) by (apply Forall_app; split; [done|]; by constructor).
  assert (Hkr : kr <> []) by (unfold kr; by destruct k1).
  unfold erase_two_children. unfold w in *; clear w.
  assert (Hyl : h !! y = Some (mk_node (pack x cr) (ptr ro) (ptr rl))).
  { eapply own_lookup; [exact Ho|]. rewrite cells_plug. cbn [cells app]. rewrite !elem_of_cons, !elem_of_app, elem_of_cons. tauto. }
  assert (Hrl0 : ptr rl <> 0) by (eapply own_ptr_neq0; [exact Ho| |done]; rewrite cells_plug; cbn [cells]; solve_submseteq).
  apply runs_bind. unfold get_child at 1, get at 1. cbn [rb_nodes]. rewrite Hyl. cbn [obind child_of rb_left]. apply runs_ret.
  rewrite (proj2 (Z.eqb_neq (ptr rl) 0)) by done. cbn [rb_nodes]. do 2 apply runs_bind. rewrite Hfind. apply runs_ret.
  rewrite Hr in Ho, Hf, Hb |- *. rewrite (Hp x). clear Hreq Hyl Hfind Hrl Hrl0 Hsz Hr.
  destruct (erase_parts R h d k c l x kr cs s rr Ho Hf Hb)
    as (n & Hn & Hk & Ho1 & Hnd & Hvx & Hvs & Hvk & Hlk & Hfl & Hfr & Hst & Hfk & Hsx & Hss). clear Ho Hf Hb.
  rewrite Hy in Ho1. do 5 rb_step. rewrite app_assoc in Ho1.
  eapply (runs_unlink R h _ d x _ s _ rr k1 cr y ro); [exact Ho1|done|by right|].
  fold kr. clear Ho1. intros h1 Ho1. rewrite <- app_assoc in Ho1.
  destruct (copy_values d h1 x s l rr kr k) as (d1 & Hd & Hfl1 & Hfr1 & Hst1 & Hfk1 & Hs1); try done.
  apply runs_bind, runs_call. exists d1. split; [done|]. apply NoDup_cons in Hnd as [_ Hnd].
  destruct (propagate_values R d1 h1 s l rr kr k ((x, mk_node (pack (above k) c) y (ptr l))
    :: (s, mk_node (pack (up_to x kr) cs) y 0) :: cells l x ++ cells rr s ++ kcells k x))
    as (d2 & Hd2 & Hfl2 & Hfr2 & Hfkr2 & Hfk2 & Hs2); try done.
  { eapply own_perm; [|reflexivity|exact Ho1]. solve_Permutation. }
  rewrite <- (Hp x), (Hp s). apply runs_bind, runs_call. exists d2. split; [done|]. apply runs_ret.
  rewrite <- (successor_elems k c l kr s rr cs Honk). rewrite <- (Hy (ptr rr)) in Ho1 at 2.
  eapply (erase_successor_tail R x s c cs l rr kr k n y (up_to x kr) 0 h1 d2); try done.
  destruct kr as [|[s1 c1 x1 o1] kr']; [done|]. right. cbn [up_to kcells_to] in Ho1.
  eapply own_valid; [exact Ho1|]. simpl. rewrite !fmap_app. set_solver.
Qed.

Lemma erase_augmented_spec R h d k c l x rt :
  let w := plug k (T c l x rt) in
  own R (cells w 0) h -> fitting_but d k l x rt -> balanced w ->
  runs (__rb_erase_augmented cb (mk_rb h (top k x) d) x) (erased R x (before k ++ elems l ++ elems rt ++ after k)).
Proof.
  intros w Ho Hf Hb. destruct (decide (l = E)) as [->|Hl]; [by apply (erase_no_left R h d k c x rt)|].
  destruct (decide (rt = E)) as [->|Hr]; [by apply (erase_no_right R h d k c x l)|].
  unfold __rb_erase_augmented. unfold w in *; clear w.
  assert (Hx : h !! x = Some (mk_node (pack (above k) c) (ptr rt) (ptr l))).
  { eapply own_lookup; [exact Ho|]. rewrite cells_plug. apply list_elem_of_here. }
  unfold get_child, get. cbn [rb_nodes]. rewrite Hx. cbn [obind child_of rb_left rb_right].
  rewrite (proj2 (Z.eqb_neq (ptr l) 0)), (proj2 (Z.eqb_neq (ptr rt) 0))
    by (eapply own_ptr_neq0; [exact Ho| |done]; rewrite cells_plug; cbn [cells]; solve_submseteq).
  destruct rt as [|cr rl y ro]; [done|]. destruct (decide (rl = E)) as [->|Hrl].
  - by apply (erase_near_successor R h d k c l x cr y ro).
  - by apply (erase_far_successor R h d k c l x cr rl y ro).
Qed.

(** Erasing the node at the hole of [k] and rebalancing. *)
Lemma erase_at_but R t k c l x rt :
  own R (cells (plug k (T c l x rt)) 0) (rb_nodes t) -> rb_root t = top k x -> fitting_but (rb_data t) k l x rt ->
  balanced (plug k (T c l x rt)) ->
  runs (rb_erase_augmented t x cb)
    (fun t' => exists n, rebalanced (<[x := n]> R) (before k ++ elems l ++ elems rt ++ after k) t').
Proof.
  destruct t as [h r d]. cbn [rb_nodes rb_root rb_data]. intros Ho -> Hf Hb.
  unfold rb_erase_augmented. apply runs_bind.
  eapply runs_mono; [exact (erase_augmented_spec R h d k c l x rt Ho Hf Hb)|].
  intros [[h1 r1 d1] rebalance] (n & k1 & t1 & Ho1 & Hr1 & Hf1 & He & Hcase). cbn [fst snd rb_nodes rb_root rb_data] in *.
  subst r1. apply own_drop in Ho1. destruct Hcase as [[-> Hb1]|(-> & Hk1 & -> & Hkb)].
  - apply runs_ret. exists n, (plug k1 t1). split; [by split|done].
  - assert (Hup : above k1 <> 0) by (apply valid_neq0; eapply up_valid; [exact Ho1| |done]; rewrite cells_plug; solve_submseteq).
    rewrite (proj2 (Z.eqb_neq _ 0) Hup). cbn [negb]. unfold __rb_erase_color, ____rb_erase_color. cbn [rb_nodes].
    eapply runs_mono; [|intros t' Ht'; exists n; exact Ht']. rewrite <- He, top_plug.
    refine (erase_loop_spec _ _ k1 _ O E h1 d1 Ho1 Hf1 eq_refl eq_refl Hkb Hk1).
    pose proof (own_size _ _ _ Ho1) as Hsz. rewrite <- (length_fmap fst), cells_keys in Hsz.
    pose proof (length_context k1 E). lia.
Qed.

Lemma erase_at R t k c l x rt :
  stands R (plug k (T c l x rt)) t -> balanced (plug k (T c l x rt)) ->
  runs (rb_erase_augmented t x cb)
    (fun t' => exists n, rebalanced (<[x := n]> R) (before k ++ elems l ++ elems rt ++ after k) t').
Proof.
  intros [Ho Hr Hf] Hb. rewrite top_plug in Hr. apply (erase_at_but R t k c l x rt); try done. by eapply fitting_fitting_but.
Qed.
End Remove.
