(* ===== verification/RBTreeCallbacks.v ===== *)
(** * The callbacks as instances of the interface

    The dummy callbacks of the plain functions, and those of
    [RB_DECLARE_CALLBACKS] for an [rbcompute] that combines the values of the
    children. *)
From Stdlib Require Import ZArith Lia Bool.
From stdpp Require Import base numbers list gmap.
From S2P Require Import Prelude RBTree RBTreeShape RBTreeRep RBTreeAugment.

#[export] Program Instance dummy_augment {D : Type} : Augment (dummy_callbacks (D := D)) := {|
  fits := fun _ _ _ _ => True;
  stored := fun _ _ => True;
  same := fun _ _ _ _ => True
|}.
Solve Obligations with (intros; simpl; eauto 10; try done).

Section Declared.
Context {V : Type} `{!EqDecision V}.
Variable rbcompute : nodes -> gmap Z V -> Z -> outcome V.

(** The field of a node, none for NULL. *)
Definition value (d : gmap Z V) (p : Z) : option V := if decide (p = 0) then None else d !! p.

(** [rbcompute] of a node [x] it is made for reads the fields of its children only:
    it is [combine x] of them. *)
Variable combine : Z -> option V -> option V -> V.
Variable known : Z -> Prop.
Hypothesis rbcompute_combine : forall h d x n,
  known x -> h !! x = Some n ->
  (rb_left n = 0 \/ is_Some (value d (rb_left n))) -> (rb_right n = 0 \/ is_Some (value d (rb_right n))) ->
  rbcompute h d x = Ret (combine x (value d (rb_left n)) (value d (rb_right n))).

(** The value of a subtree does not change when it is rotated. *)
Hypothesis combine_rotate : forall x y a b c,
  combine y (Some (combine x a b)) c = combine x a (Some (combine y b c)).

Lemma value_insert d p q v : q <> 0 -> p <> q -> value (<[q := v]> d) p = value d p.
Proof. intros Hq Hne. unfold value. destruct (decide (p = 0)); [done|]. by rewrite lookup_insert_ne. Qed.

Lemma value_insert_eq d q v : q <> 0 -> value (<[q := v]> d) q = Some v.
Proof. intros Hq. unfold value. destruct (decide (q = 0)); [done|]. by rewrite lookup_insert_eq. Qed.

Lemma value_field d p v : value d p = Some v -> field d p = Ret v /\ p <> 0.
Proof. unfold value, field. destruct (decide (p = 0)); [done|]. intros ->. done. Qed.

Definition fits_value (d : gmap Z V) (x l r : Z) : Prop := value d x = Some (combine x (value d l) (value d r)).

Lemma declared_rotate s h d old new n a b c :
  known old -> h !! old = Some n -> n = side_node s (rb_parent_color n) b c ->
  (forall p, p ∈ [a; b; c] -> p = 0 \/ is_Some (value d p)) ->
  old <> new -> a ∉ [old; new] -> b ∉ [old; new] -> c ∉ [old; new] ->
  (match s with
   | Left => fits_value d old new c /\ fits_value d new a b
   | Right => fits_value d old c new /\ fits_value d new b a
   end) ->
  exists d', rb_rotate rbcompute h old new d = Ret d'
    /\ (match s with
        | Left => fits_value d' new a old /\ fits_value d' old b c
        | Right => fits_value d' new old a /\ fits_value d' old c b
        end)
    /\ value d old = value d' new /\ (forall z, z ∉ [old; new] -> value d z = value d' z).
Proof.
  intros Hkn Hn Hnode Hk Hne Ha Hb Hc Hf. unfold fits_value in *.
  assert (Hs : exists vo vn, value d old = Some vo /\ value d new = Some vn) by (destruct s, Hf; eauto).
  destruct Hs as (vo & vn & Hvo & Hvn). destruct (value_field _ _ _ Hvo) as [Hfo Ho0]. destruct (value_field _ _ _ Hvn) as [Hfn Hn0].
  assert (Hsame1 : forall z, z ∉ [old; new] -> value (<[new := vo]> d) z = value d z) by (intros z Hz; apply value_insert; set_solver).
  unfold rb_rotate. rewrite Hfo, Hfn. cbn [obind].
  rewrite (rbcompute_combine _ _ _ _ Hkn Hn); [| |].
  2, 3: rewrite Hnode; destruct s; simpl; rewrite Hsame1 by done; apply Hk; set_solver.
  cbn [obind]. eexists. split; [done|].
  assert (Hsame : forall z v, z ∉ [old; new] -> value (<[old := v]> (<[new := vo]> d)) z = value d z).
  { intros z v Hz. rewrite value_insert by set_solver. by apply Hsame1. }
  rewrite Hnode. destruct s; simpl; rewrite !(value_insert_eq _ old), !(value_insert _ new old), !(value_insert_eq _ new), !Hsame, !Hsame1 by done.
  - destruct Hf as [Hf1 Hf2]. split_and!; [|done|done|by intros; rewrite Hsame].
    rewrite <- combine_rotate, <- Hf2. congruence.
  - destruct Hf as [Hf1 Hf2]. split_and!; [|done|done|by intros; rewrite Hsame].
    rewrite combine_rotate, <- Hf2. congruence.
Qed.

Lemma declared_copy h d old new : is_Some (value d old) -> is_Some (value d new) -> old <> new ->
  exists d', rb_copy h old new d = Ret d' /\ value d old = value d' new /\ (forall z, z <> new -> value d z = value d' z).
Proof.
  intros [vo Hvo] [vn Hvn] Hne. destruct (value_field _ _ _ Hvo) as [Hfo Ho0]. destruct (value_field _ _ _ Hvn) as [Hfn Hn0].
  unfold rb_copy. rewrite Hfo, Hfn. cbn [obind]. eexists. split_and!; [done|by rewrite value_insert_eq|].
  intros z Hz. by rewrite value_insert.
Qed.

Lemma declared_propagate_loop h stop path : forall fuel d, (length path < fuel)%nat ->
  climbs h path stop -> (forall z, z ∈ path -> known z) ->
  (forall x, head path = Some x -> is_Some (value d x)) ->
  (forall z n p, z ∈ path -> h !! z = Some n -> p ∈ [rb_left n; rb_right n] -> p = 0 \/ is_Some (value d p)) ->
  (forall z n, z ∈ tail path -> h !! z = Some n -> fits_value d z (rb_left n) (rb_right n)) ->
  exists d', propagate_loop rbcompute fuel h (hd stop path) stop d = Ret d'
    /\ (forall z n, z ∈ path -> h !! z = Some n -> fits_value d' z (rb_left n) (rb_right n))
    /\ (forall z, z ∉ path -> value d z = value d' z).
Proof.
  induction path as [|x rest IH]; intros fuel d Hfuel Hc Hkn Hx Hk Ht; (destruct fuel as [|fuel]; [simpl in Hfuel; lia|]).
  { cbn [propagate_loop hd]. rewrite Z.eqb_refl. exists d. split_and!; [done| |done]. intros z n Hz. by apply elem_of_nil in Hz. }
  destruct Hc as ((n & Hn & Hpar & Hln & Hrn) & Hxs & Hxr & Hch & Hc). cbn [hd tail head] in *.
  destruct (Hx x eq_refl) as [v Hv]. destruct (value_field _ _ _ Hv) as [Hfx Hx0].
  cbn [propagate_loop]. rewrite (proj2 (Z.eqb_neq x stop)) by done. cbn [negb].
  rewrite (rbcompute_combine _ _ _ _ (Hkn x (list_elem_of_here _ _)) Hn) by (eapply (Hk x n); [apply list_elem_of_here|done|set_solver]).
  cbn [obind]. rewrite Hfx. cbn [obind]. set (a := combine x _ _). case_decide as Hva.
  { exists d. split_and!; [done| |done]. intros z m [->|Hz]%elem_of_cons Hm; [|by apply Ht].
    simplify_eq. unfold fits_value. by rewrite Hv. }
  unfold RBTree.rb_parent, get_pc, get. cbn [rb_nodes]. rewrite Hn. cbn [obind]. rewrite Hpar.
  assert (Hs1 : forall z, z <> x -> value (<[x := a]> d) z = value d z) by (intros; by apply value_insert).
  destruct (IH fuel (<[x := a]> d)) as (d' & Hd & Hf & Hsame); [simpl in Hfuel; lia|done|intros z Hz; by apply Hkn, list_elem_of_further| | | |].
  - intros y Hy. destruct rest as [|y' rest]; [done|]. injection Hy as ->. rewrite Hs1 by set_solver.
    destruct Hc as ((m & Hm & _) & _). rewrite (Ht y m); [by eexists|apply list_elem_of_here|done].
  - intros z m p Hz Hm Hp. destruct (decide (p = x)) as [->|Hpx]; [right; rewrite value_insert_eq by done; by eexists|].
    rewrite Hs1 by done. eapply Hk; [by apply list_elem_of_further|exact Hm|done].
  - intros z m Hz Hm. assert (Hzr : z ∈ rest) by (destruct rest; [done|by apply list_elem_of_further]).
    destruct (Hch z m Hz Hm) as [Hl Hr]. unfold fits_value. rewrite !Hs1 by (done || set_solver). by apply Ht.
  - exists d'. split_and!; [done| |].
    + intros z m [->|Hz]%elem_of_cons Hm; [|by apply Hf]. simplify_eq. unfold fits_value.
      rewrite <- !Hsame by set_solver. rewrite value_insert_eq, !Hs1 by (done || set_solver). done.
    + intros z Hz. rewrite <- Hsame by set_solver. symmetry. apply Hs1. set_solver.
Qed.

Lemma climbs_node h path stop z : climbs h path stop -> z ∈ path -> is_Some (h !! z).
Proof.
  induction path as [|x rest IH]; [intros _ Hz; by apply elem_of_nil in Hz|].
  intros ((n & Hn & _) & _ & _ & _ & Hc) [->|Hz]%elem_of_cons; [by exists n|auto].
Qed.

Lemma climbs_length h path stop : climbs h path stop -> (length path <= size h)%nat.
Proof.
  intros Hc. assert (Hin : NoDup path /\ forall z, z ∈ path -> z ∈ dom h).
  { induction path as [|x rest IH]; [split; [constructor|]; intros z Hz; by apply elem_of_nil in Hz|].
    destruct Hc as ((n & Hn & _) & _ & Hx & _ & Hc). destruct (IH Hc) as [Hnd Hin]. split; [by constructor|].
    intros z [->|Hz]%elem_of_cons; [by eapply elem_of_dom_2|auto]. }
  destruct Hin as [Hnd Hin]. rewrite <- size_dom. rewrite <- (size_list_to_set (C := gset Z) path Hnd).
  apply subseteq_size. intros z Hz. apply Hin. by apply elem_of_list_to_set in Hz.
Qed.

#[export] Program Instance declared_augment : Augment (RB_DECLARE_CALLBACKS rbcompute) := {|
  fits := fun d x l r => known x /\ fits_value d x l r;
  stored := fun d x => known x /\ is_Some (value d x);
  same := fun d x d' y => value d x = value d' y /\ (known x -> known y)
|}.
Next Obligation. done. Qed.
Next Obligation. intros d1 d2 d3 x y z [H1 K1] [H2 K2]. split; [exact (eq_trans H1 H2)|auto]. Qed.
Next Obligation. intros d d' x l r l' r' [Hk Hf] [Hx _] [Hl _] [Hr _]. split; [done|]. unfold fits_value in *. congruence. Qed.
Next Obligation. intros d x l r [Hk Hf]. split; [done|by eexists]. Qed.
Next Obligation. intros d d' x y [Hk [v Hv]] [Heq Hxy]. split; [auto|]. exists v. exact (eq_trans (eq_sym Heq) Hv). Qed.
Next Obligation.
  intros s h d old new n a b c Hn Hnode Hk _ _ Hne Ha Hb Hc Hf.
  assert (Hkn : known old /\ known new) by (destruct s; tauto). destruct Hkn as [Hko Hkw].
  destruct (declared_rotate s h d old new n a b c Hko Hn Hnode) as (d' & Hd & Hf' & Hv & Hs); [|done..| |].
  - intros p Hp. destruct (Hk p Hp) as [->|[_ Hv]]; [by left|by right].
  - destruct s; tauto.
  - exists d'. split; [done|]. split; [destruct s; tauto|]. split; [done|]. intros z Hz. split; [by apply Hs|done].
Qed.
Next Obligation.
  intros h d old new [_ Ho] [Hk Hn] Hne. destruct (declared_copy h d old new Ho Hn Hne) as (d' & Hd & Hv & Hs).
  exists d'. split; [done|]. split; [done|]. intros z Hz. split; [by apply Hs|done].
Qed.
Next Obligation.
  intros h d path stop Hc Hx Hk Ht.
  assert (Hkn : forall z, z ∈ path -> known z).
  { destruct path as [|x rest]; [intros z Hz; by apply elem_of_nil in Hz|]. intros z [->|Hz]%elem_of_cons; [by apply (Hx x)|].
    destruct Hc as (_ & _ & _ & _ & Hc). destruct (climbs_node h rest stop z Hc Hz) as [n Hn]. by apply (Ht z n). }
  destruct (declared_propagate_loop h stop path (S (size h)) d) as (d' & Hd & Hf & Hs); try done.
  - apply climbs_length in Hc. lia.
  - intros x Hp. by apply Hx.
  - intros z n p Hz Hn Hp. destruct (Hk z n p Hz Hn Hp) as [->|[_ Hv]]; [by left|by right].
  - intros z n Hz Hn. by apply Ht.
  - exists d'. split; [done|]. split; [intros z n Hz Hn; split; [by apply Hkn|by apply Hf]|]. intros z Hz. split; [by apply Hs|done].
Qed.
End Declared.
