(* ===== verification/RBTreeWalk.v ===== *)
(** * Walking a tree and replacing a node (lib/rbtree.c)

    [rb_first], [rb_next], [rb_last] and [rb_prev] follow the in-order sequence,
    the post-order functions visit children before their parent, also when each
    node is freed as soon as the next one is known. *)
From Stdlib Require Import ZArith Lia Bool.
From stdpp Require Import base numbers list gmap.
From S2P Require Import Prelude RBTree RBTreeShape RBTreeRep.

(** The first, or last, element of a sequence, or NULL. *)
Definition end_of (s : side) (l : list Z) : Z := default 0 (match s with Left => head l | Right => last l end).

(** What stands beyond the hole of a context on side [s]. *)
Definition beyond (s : side) (k : list frame) : list Z := match s with Left => before k | Right => after k end.

Lemma end_left A x B : end_of Left (A ++ x :: B) = match A with [] => x | _ => end_of Left A end.
Proof. by destruct A. Qed.

Lemma end_right A x B : end_of Right (A ++ x :: B) = match B with [] => x | _ => end_of Right B end.
Proof.
  unfold end_of. rewrite last_app, last_cons. destruct B as [|y B]; [done|].
  destruct (last (y :: B)) eqn:Hl; [done|]. by apply last_None in Hl.
Qed.

Section Walk.
Context {D : Type} (R : nodes) (h : nodes) (r : Z) (d : D).
Abbreviation t := (mk_rb h r d).

Lemma elems_ne_nil w : w <> E -> elems w <> [].
Proof. destruct w as [|c a x b]; [done|]. intros _ H. simpl in H. by apply app_eq_nil in H as [_ ?]. Qed.

(** A node of the store with its children. *)
Lemma cell_children L p n s : own R L h -> (p, n) ∈ L -> get_child s t p = Ret (child_of s n).
Proof. intros Ho Hp. unfold get_child, get. cbn [rb_nodes]. by rewrite (own_lookup R L h p n). Qed.

Lemma descend_spec L s fuel : forall w p, own R L h -> cells w p ⊆+ L -> w <> E -> (length (elems w) <= fuel)%nat ->
  descend fuel s t (ptr w) = Ret (end_of s (elems w)).
Proof.
  induction fuel as [|fuel IH]; intros w p Ho Hs Hw Hfuel; destruct w as [|c a x b]; try done.
  { simpl in Hfuel. rewrite length_app in Hfuel. simpl in Hfuel. lia. }
  cbn [descend ptr cells] in *. rewrite (cell_children L x (mk_node (pack p c) (ptr b) (ptr a))); [|done|].
  2:{ apply (elem_of_submseteq _ _ _ (list_elem_of_here _ _) Hs). }
  cbn [obind]. set (w := match s with Left => a | Right => b end).
  replace (child_of s _) with (ptr w) by by destruct s.
  assert (Hws : cells w x ⊆+ L) by (etrans; [|exact Hs]; unfold w; destruct s; solve_submseteq).
  assert (He : end_of s (elems a ++ x :: elems b) = match w with E => x | _ => end_of s (elems w) end).
  { unfold w. destruct s; [rewrite end_left; destruct a as [|ca a1 y a2]|rewrite end_right; destruct b as [|cb a1 y a2]];
      simpl; try done; by destruct (elems a1). }
  simpl. rewrite He. destruct (decide (w = E)) as [->|Hwe]; [done|].
  rewrite (proj2 (Z.eqb_neq (ptr w) 0)) by by eapply own_ptr_neq0. cbn [negb].
  simpl in Hfuel. rewrite length_app in Hfuel. simpl in Hfuel.
  rewrite (IH w x Ho Hws Hwe) by (unfold w; destruct s; lia). by destruct w.
Qed.

(** Going up until the way came from the other side. *)
Lemma ascend_spec L s k : forall w fuel, own R L h -> cells w (above k) ++ kcells k (ptr w) ⊆+ L -> w <> E ->
  (length k < fuel)%nat ->
  ascend fuel s t (ptr w) = Ret (end_of (opp s) (beyond s k)).
Proof.
  induction k as [|[sd c p o] k IH]; intros w fuel Ho Hs Hw Hfuel; (destruct fuel as [|fuel]; [simpl in Hfuel; lia|]).
  - destruct w as [|cw a x b]; [done|]. cbn [ascend ptr]. unfold RBTree.rb_parent, get_pc, get. cbn [rb_nodes].
    rewrite (own_lookup R L h x (mk_node (pack 0 cw) (ptr b) (ptr a)) Ho) by (eapply elem_of_submseteq; [|exact Hs]; apply list_elem_of_here).
    cbn [obind rb_parent_color]. rewrite parent_pack by by left. by destruct s.
  - assert (Hp : valid p) by (eapply (up_valid R L h (F sd c p o :: k) (ptr w)); [done| |done]; etrans; [|exact Hs]; solve_submseteq).
    assert (Hx : exists cw n, h !! ptr w = Some n /\ rb_parent_color n = pack p cw).
    { destruct w as [|cw a x b]; [done|]. exists cw. eexists. split; [eapply own_lookup; [exact Ho|]; eapply elem_of_submseteq; [|exact Hs]; apply list_elem_of_here|done]. }
    destruct Hx as (cw & n & Hn & Hpc). cbn [ascend]. unfold RBTree.rb_parent, get_pc, get. cbn [rb_nodes].
    rewrite Hn. cbn [obind]. rewrite Hpc, parent_pack by by right.
    rewrite (proj2 (Z.eqb_neq p 0)) by by apply valid_neq0. cbn [negb].
    rewrite (cell_children L p (side_node sd (pack (above k) c) (ptr w) (ptr o))); [|done|].
    2:{ eapply elem_of_submseteq; [|exact Hs]. rewrite elem_of_app. right. apply list_elem_of_here. }
    cbn [obind]. destruct (decide (sd = s)) as [->|Hne].
    + rewrite child_same, Z.eqb_refl. rewrite <- (ptr_node s c w p o).
      rewrite (IH (node s c w p o) fuel Ho); [by destruct s| |by destruct s|simpl in Hfuel; lia].
      etrans; [|exact Hs]. rewrite cells_node, ptr_node. cbn [kcells above]. solve_submseteq.
    + assert (sd = opp s) as -> by by destruct sd, s. replace (child_of s _) with (ptr o) by by destruct s.
      assert (ptr w <> ptr o).
      { destruct w as [|cw' a x b]; [done|]. cbn [ptr]. eapply (own_ptr_ne R L h x _ o p Ho). etrans; [|exact Hs]. cbn [cells kcells above]. solve_submseteq. }
      rewrite (proj2 (Z.eqb_neq _ _)) by done. f_equal. destruct s; simpl; [|done].
      by rewrite app_assoc, end_right.
Qed.

(** A linked node is not marked as empty. *)
Lemma linked_not_empty p c x : link p -> valid x -> p <> x -> pack p c <> x.
Proof.
  intros Hp Hx Hne Heq. apply Hne. rewrite <- (parent_pack p c Hp), Heq. rewrite <- (pack_red x) at 1.
  apply parent_pack. by right.
Qed.

Lemma rb_step_spec s k c a x b : own R (cells (plug k (T c a x b)) 0) h ->
  rb_step s t x = Ret (end_of (opp s) (match s with Left => before k ++ elems a | Right => elems b ++ after k end)).
Proof.
  intros Ho. pose proof (own_size _ _ _ Ho) as Hsz. rewrite <- (length_fmap fst), cells_keys in Hsz.
  pose proof (length_context k (T c a x b)) as Hlen. rewrite cells_plug in Ho. cbn [cells ptr above app] in Ho.
  assert (Hl : link (above k)) by (eapply (up_link R); [exact Ho|]; solve_submseteq).
  assert (Hx : valid x) by (eapply own_valid; [exact Ho|find_cell]).
  assert (Hux : above k <> x).
  { destruct k as [|[sd ck p o] k]; [simpl; pose proof (valid_neq0 _ Hx); congruence|]. simpl in Ho |- *.
    apply own_nodup in Ho. simpl in Ho. apply NoDup_cons in Ho as [Ho _]. intros ->. apply Ho. rewrite !fmap_app. simpl. set_solver. }
  unfold rb_step, RB_EMPTY_NODE, get_pc, get at 1. cbn [rb_nodes].
  rewrite (own_lookup R _ h x _ Ho (list_elem_of_here _ _)). cbn [obind rb_parent_color].
  rewrite (proj2 (Z.eqb_neq _ _)) by by apply linked_not_empty.
  rewrite (cell_children _ x _ s Ho (list_elem_of_here _ _)). cbn [obind].
  set (w := match s with Left => a | Right => b end). replace (child_of s _) with (ptr w) by by destruct s.
  rewrite elems_plug in Hsz. simpl in Hsz. rewrite !length_app in Hsz. simpl in Hsz.
  destruct (decide (w = E)) as [Hw|Hw].
  - rewrite Hw. cbn [ptr Z.eqb negb]. rewrite (ascend_spec _ s k (T c a x b) _ Ho); [|cbn [cells ptr]; done|done|].
    + f_equal. unfold w in Hw. destruct s; subst; simpl; [by rewrite app_nil_r|done].
    + rewrite elems_plug in Hlen. simpl in Hlen. rewrite !length_app in Hlen. simpl in Hlen. lia.
  - rewrite (proj2 (Z.eqb_neq (ptr w) 0)) by (eapply own_ptr_neq0; [exact Ho| |done]; unfold w; destruct s; solve_submseteq).
    cbn [negb]. rewrite (descend_spec _ (opp s) _ w x Ho); [| |done|unfold w; destruct s; simpl; lia].
    2:{ unfold w. destruct s; solve_submseteq. }
    f_equal. unfold w in *. destruct s; simpl.
    + destruct a as [|ca a1 y a2]; [done|]. simpl. by rewrite app_assoc, !end_right.
    + destruct b as [|cb a1 y a2]; [done|]. simpl. rewrite <- app_assoc. simpl. rewrite !end_left. done.
Qed.
End Walk.

(** ** Post-order *)

Fixpoint post (w : tree) : list Z :=
  match w with E => [] | T _ l x r => post l ++ post r ++ [x] end.

(** What is visited after the hole of a context. *)
Fixpoint posts (k : list frame) : list Z :=
  match k with
  | [] => []
  | F Left _ p o :: k => post o ++ p :: posts k
  | F Right _ p _ :: k => p :: posts k
  end.

(** A frame below which nothing has been visited. *)
Definition deep (f : frame) : Prop := match f with F s _ _ o => s = Left \/ o = E end.

Lemma post_elems w : post w ≡ₚ elems w.
Proof. induction w as [|c l IHl x r IHr]; simpl; [done|]. rewrite IHl, IHr. solve_Permutation. Qed.

Lemma post_deep k w : Forall deep k -> post (plug k w) = post w ++ posts k.
Proof.
  intros Hk. revert w; induction Hk as [|[s c p o] k Hd _ IH]; intros w; simpl; [by rewrite app_nil_r|].
  rewrite IH. destruct s; simpl; [by rewrite <- !app_assoc|]. destruct Hd as [|Hd]; [done|]. rewrite Hd. simpl.
  by rewrite <- app_assoc.
Qed.

Lemma posts_app k1 k2 : posts (k1 ++ k2) = posts k1 ++ posts k2.
Proof. induction k1 as [|[[] c p o] k1 IH]; simpl; [done| |]; rewrite IH; [by rewrite <- app_assoc|done]. Qed.

(** The nodes not yet freed around a hole. *)
Fixpoint rcells (k : list frame) (hp : Z) : list cell :=
  match k with
  | [] => []
  | F s c p o :: k =>
      (p, side_node s (pack (above k) c) hp (ptr o)) :: match s with Left => cells o p | Right => [] end ++ rcells k p
  end.

(** The hole is not the freed left child of its parent. *)
Fixpoint apart (k : list frame) (hp : Z) : Prop :=
  match k with
  | [] => True
  | F s _ p o :: k => (s = Right -> hp <> ptr o) /\ apart k p
  end.

Lemma rcells_deep k1 k2 hp : Forall deep k1 -> rcells (k1 ++ k2) hp = kcells_to (above k2) k1 hp ++ rcells k2 (top k1 hp).
Proof.
  intros Hk. revert hp; induction Hk as [|[s c p o] k Hd _ IH]; intros hp; simpl; [done|].
  rewrite IH, up_app, <- app_assoc. destruct s; [done|]. destruct Hd as [|Hd]; [done|]. by rewrite Hd.
Qed.

Lemma own_delete R x n L h : own R ((x, n) :: L) h -> own (delete x R) L (delete x h).
Proof.
  intros [Hn Hv ->]. apply NoDup_cons in Hn as [Hx Hn]. apply Forall_cons in Hv as [_ Hv]. split; [done|done|].
  rewrite list_to_map_cons, delete_union, delete_insert_eq, delete_id; [done|]. by apply not_elem_of_list_to_map_1.
Qed.

Section Post.
Context {D : Type}.
Implicit Types (r : Z) (d : D).

(** The node visited first below a node. *)
Lemma left_deepest_spec R L h r d fuel : forall w p, own R L h -> cells w p ⊆+ L -> w <> E -> (length (elems w) <= fuel)%nat ->
  exists k c y, w = plug k (T c E y E) /\ Forall deep k /\ left_deepest fuel (mk_rb h r d) (ptr w) = Ret y.
Proof.
  induction fuel as [|fuel IH]; intros w p Ho Hs Hw Hfuel; destruct w as [|c a x b]; try done.
  { simpl in Hfuel. rewrite length_app in Hfuel. simpl in Hfuel. lia. }
  cbn [left_deepest ptr cells] in *. simpl in Hfuel. rewrite length_app in Hfuel. simpl in Hfuel.
  assert (Hx : (x, mk_node (pack p c) (ptr b) (ptr a)) ∈ L) by apply (elem_of_submseteq _ _ _ (list_elem_of_here _ _) Hs).
  rewrite !(cell_children R h r d L x _ _ Ho Hx). cbn [obind child_of rb_left rb_right].
  assert (Hsa : cells a x ⊆+ L) by (etrans; [|exact Hs]; solve_submseteq).
  assert (Hsb : cells b x ⊆+ L) by (etrans; [|exact Hs]; solve_submseteq).
  destruct (decide (a = E)) as [->|Ha].
  - cbn [ptr Z.eqb negb]. destruct (decide (b = E)) as [->|Hb].
    + exists [], c, x. split_and!; [done|constructor|done].
    + rewrite (proj2 (Z.eqb_neq (ptr b) 0)) by by eapply own_ptr_neq0.
      destruct (IH b x Ho Hsb Hb) as (k & c' & y & -> & Hk & Hd); [simpl in *; lia|].
      exists (k ++ [F Right c x E]), c', y. split_and!; [by rewrite plug_app| |done].
      apply Forall_app; split; [done|]. constructor; [by right|constructor].
  - rewrite (proj2 (Z.eqb_neq (ptr a) 0)) by by eapply own_ptr_neq0.
    destruct (IH a x Ho Hsa Ha) as (k & c' & y & -> & Hk & Hd); [lia|].
    exists (k ++ [F Left c x b]), c', y. split_and!; [by rewrite plug_app| |done].
    apply Forall_app; split; [done|]. constructor; [by left|constructor].
Qed.

Lemma apart_deep R h k1 k2 b : forall hp L, own R (kcells_to b k1 hp ++ L) h -> valid hp -> Forall deep k1 ->
  apart k2 (top k1 hp) -> apart (k1 ++ k2) hp.
Proof.
  induction k1 as [|[s c p o] k1 IH]; intros hp L Ho Hv Hd Ha; [done|]. cbn [app apart top kcells_to] in *.
  apply Forall_cons in Hd as [Hd1 Hd]. split.
  - intros ->. destruct Hd1 as [Hd1|Hd1]; [done|]. rewrite Hd1. by apply valid_neq0.
  - apply (IH p ((p, side_node s (pack (up_to b k1) c) hp (ptr o)) :: cells o p ++ L)); [|by eapply own_valid; [exact Ho|find_cell]|done|done].
    eapply own_perm; [|reflexivity|exact Ho]. solve_Permutation.
Qed.

(** The next node, and the state around it once the current one is freed. *)
Lemma next_post_spec R h r d k x n c :
  own R ((x, n) :: rcells k x) h -> rb_parent_color n = pack (above k) c -> apart k x ->
  rb_next_postorder (mk_rb h r d) x = Ret (hd 0 (posts k)) /\
  (k = [] \/ exists k' n' c' y, posts k = y :: posts k' /\ rcells k x ≡ₚ (y, n') :: rcells k' y
    /\ rb_parent_color n' = pack (above k') c' /\ apart k' y).
Proof.
  intros Ho Hpc Ha. assert (Hx : valid x) by (eapply own_valid; [exact Ho|find_cell]).
  unfold rb_next_postorder. rewrite (proj2 (Z.eqb_neq x 0)) by by apply valid_neq0.
  assert (Hn : h !! x = Some n) by (eapply own_lookup; [exact Ho|find_cell]).
  unfold RBTree.rb_parent, get_pc, get at 1. cbn [rb_nodes]. rewrite Hn. cbn [obind]. rewrite Hpc.
  destruct k as [|[s ck p o] k]; [cbn [above]; rewrite parent_pack by (by left); split; [done|by left]|].
  cbn [rcells] in Ho. cbn [above apart] in *. destruct Ha as [Hap Ha].
  assert (Hp : valid p) by (eapply own_valid; [exact Ho|find_cell]).
  rewrite parent_pack by by right. rewrite (proj2 (Z.eqb_neq p 0)) by by apply valid_neq0.
  rewrite !(cell_children R h r d _ p _ _ Ho ltac:(find_cell)). cbn [obind].
  destruct s; cbn [side_node child_of rb_left rb_right posts].
  - rewrite Z.eqb_refl. destruct (decide (o = E)) as [->|Hoe].
    { split; [done|]. right. exists k, (side_node Left (pack (above k) ck) x 0), ck, p. done. }
    rewrite (proj2 (Z.eqb_neq (ptr o) 0)) by (eapply own_ptr_neq0; [exact Ho| |done]; solve_submseteq).
    cbn [negb andb]. pose proof (own_size _ _ _ Ho) as Hsz. rewrite <- (length_fmap fst) in Hsz. simpl in Hsz.
    rewrite fmap_app, length_app, cells_keys in Hsz.
    destruct (left_deepest_spec R _ h r d (S (size h)) o p Ho) as (k1 & cy & y & Hoq & Hk1 & Hy); [solve_submseteq|done|lia|].
    unfold rb_left_deepest_node. cbn [rb_nodes]. rewrite Hy. rewrite Hoq, post_deep by done. split; [done|].
    right. exists (k1 ++ F Right ck p (T Red E x E) :: k), (mk_node (pack (up_to p k1) cy) 0 0), cy, y.
    rewrite posts_app. split_and!.
    + simpl. done.
    + rewrite rcells_deep by done. cbn [rcells]. rewrite cells_plug_to, top_plug. simpl. solve_Permutation.
    + by rewrite up_app.
    + assert (Hxo : x <> ptr o) by (eapply (own_ptr_ne R); [exact Ho|solve_submseteq]).
      rewrite Hoq, cells_plug_to in Ho. cbn [cells ptr app] in Ho.
      apply (apart_deep R h k1 _ p y ((x, n) :: (y, mk_node (pack (up_to p k1) cy) 0 0)
        :: (p, side_node Left (pack (above k) ck) x (ptr (plug k1 (T cy E y E)))) :: rcells k p)); [| |done|].
      * eapply own_perm; [|reflexivity|exact Ho]. solve_Permutation.
      * eapply own_valid; [exact Ho|]. simpl. set_solver.
      * cbn [apart ptr]. split; [|done]. intros _. rewrite Hoq, top_plug in Hxo. cbn [ptr] in Hxo. done.
  - rewrite (proj2 (Z.eqb_neq x (ptr o))) by by apply Hap. split; [done|]. right.
    exists k, (side_node Right (pack (above k) ck) x (ptr o)), ck, p. done.
Qed.

(** The nodes [l] freed. *)
Definition freed (l : list Z) (h h' : nodes) : Prop := forall p, h' !! p = if decide (p ∈ l) then None else h !! p.

Lemma free_loop_spec r d fuel : forall R h k x n c, (length (posts k) + 1 < fuel)%nat ->
  own R ((x, n) :: rcells k x) h -> rb_parent_color n = pack (above k) c -> apart k x ->
  exists h', postorder_free fuel (mk_rb h r d) x = Ret (mk_rb h' r d, x :: posts k) /\ freed (x :: posts k) h h'.
Proof.
  induction fuel as [|fuel IH]; intros R h k x n c Hfuel Ho Hpc Ha; [lia|].
  assert (Hx : valid x) by (eapply own_valid; [exact Ho|find_cell]).
  assert (Hn : h !! x = Some n) by (eapply own_lookup; [exact Ho|find_cell]).
  destruct (next_post_spec R h r d k x n c Ho Hpc Ha) as [Hnext Hcase].
  cbn [postorder_free]. rewrite (proj2 (Z.eqb_neq x 0)) by by apply valid_neq0. cbn [negb].
  rewrite Hnext. cbn [obind]. unfold get. cbn [rb_nodes rb_root rb_data]. rewrite Hn. cbn [obind].
  apply own_delete in Ho. destruct Hcase as [->|(k' & n' & c' & y & Hposts & Hcells & Hpc' & Ha')].
  - simpl in Hfuel. destruct fuel as [|fuel]; [lia|]. cbn [postorder_free posts hd]. rewrite Z.eqb_refl. cbn [negb obind].
    exists (delete x h). split; [done|]. intros p. case_decide as Hp.
    + apply list_elem_of_singleton in Hp as ->. apply lookup_delete_eq.
    + apply lookup_delete_ne. set_solver.
  - rewrite Hcells in Ho. rewrite Hposts in Hfuel |- *. cbn [hd]. simpl in Hfuel.
    destruct (IH _ _ k' y n' c' ltac:(lia) Ho Hpc' Ha') as (h' & Hr & Hf). rewrite Hr. cbn [obind].
    exists h'. split; [done|]. intros p. rewrite Hf. destruct (decide (p = x)) as [->|Hne].
    + rewrite lookup_delete_eq. rewrite (decide_True (P := x ∈ x :: y :: posts k')) by set_solver. by case_decide.
    + rewrite lookup_delete_ne by done. apply decide_ext. set_solver.
Qed.

Lemma postorder_spec R h d w : own R (cells w 0) h ->
  exists h', rbtree_postorder_for_each_entry_safe (mk_rb h (ptr w) d) = Ret (mk_rb h' (ptr w) d, post w)
    /\ freed (post w) h h'.
Proof.
  intros Ho. unfold rbtree_postorder_for_each_entry_safe, rb_first_postorder. cbn [rb_root rb_nodes].
  destruct (decide (w = E)) as [->|Hw].
  { exists h. split; [done|]. intros p. by rewrite decide_False by set_solver. }
  rewrite (proj2 (Z.eqb_neq (ptr w) 0)) by by eapply own_ptr_neq0.
  pose proof (own_size _ _ _ Ho) as Hsz. rewrite <- (length_fmap fst), cells_keys in Hsz.
  destruct (left_deepest_spec R _ h (ptr w) d (S (size h)) w 0 Ho) as (k & c & y & -> & Hk & Hy); [reflexivity|done|lia|].
  unfold rb_left_deepest_node. cbn [rb_nodes]. rewrite Hy. cbn [obind].
  rewrite post_deep by done. cbn [post app].
  rewrite cells_plug in Ho. cbn [cells ptr app] in Ho.
  eapply (free_loop_spec _ d _ R h k y (mk_node (pack (above k) c) 0 0) c); [|rewrite kcells_to_0 in Ho|done|].
  - pose proof (post_elems (plug k (T c E y E))) as Hlen%Permutation_length.
    rewrite post_deep in Hlen by done. simpl in Hlen. lia.
  - rewrite <- (app_nil_r k), rcells_deep by done. simpl. rewrite !app_nil_r. exact Ho.
  - rewrite <- (app_nil_r k). rewrite kcells_to_0 in Ho.
    apply (apart_deep R h k [] 0 y [(y, mk_node (pack (above k) c) 0 0)]); [|by eapply own_valid; [exact Ho|find_cell]|done|done].
    eapply own_perm; [|reflexivity|exact Ho]. solve_Permutation.
Qed.
End Post.

(** ** Post-order in a tree that stays, and replacing a node *)

(** What is visited before the hole of a context. *)
Fixpoint pres (k : list frame) : list Z :=
  match k with
  | [] => []
  | F Left _ _ _ :: k => pres k
  | F Right _ _ o :: k => pres k ++ post o
  end.

Lemma post_plug k w : post (plug k w) = pres k ++ post w ++ posts k.
Proof.
  revert w; induction k as [|[[] c p o] k IH]; intros w; simpl; [by rewrite app_nil_r| |];
    rewrite IH; simpl; by rewrite <- !app_assoc.
Qed.

Lemma own_forget R M L h : own R (M ++ L) h -> exists R', own R' L h.
Proof.
  revert R; induction M as [|[x n] M IH]; intros R Ho; [by exists R|]. by apply own_drop, IH in Ho.
Qed.

Lemma rcells_kcells k hp : exists M, kcells k hp ≡ₚ M ++ rcells k hp.
Proof.
  revert hp; induction k as [|[s c p o] k IH]; intros hp; [by exists []|]. destruct (IH p) as (M & HM). simpl.
  exists (match s with Left => [] | Right => cells o p end ++ M). rewrite HM. destruct s; simpl; solve_Permutation.
Qed.

Lemma apart_kcells R h k : forall hp n L, own R ((hp, n) :: kcells k hp ++ L) h -> apart k hp.
Proof.
  induction k as [|[s c p o] k IH]; intros hp n L Ho; [done|]. cbn [kcells apart] in *. split.
  - intros _. eapply (own_ptr_ne R); [exact Ho|solve_submseteq].
  - apply (IH p (side_node s (pack (above k) c) hp (ptr o)) ((hp, n) :: cells o p ++ L)).
    eapply own_perm; [|reflexivity|exact Ho]. solve_Permutation.
Qed.

Section Live.
Context {D : Type}.
Implicit Types (r : Z) (d : D).

Lemma next_postorder_spec R h r d k c a x b : own R (cells (plug k (T c a x b)) 0) h ->
  rb_next_postorder (mk_rb h r d) x = Ret (hd 0 (posts k)).
Proof.
  intros Ho. rewrite cells_plug in Ho. cbn [cells ptr app] in Ho. destruct (rcells_kcells k x) as [M HM].
  assert (Ha : apart k x).
  { eapply (apart_kcells R h k x _ (cells a x ++ cells b x)). eapply own_perm; [|reflexivity|exact Ho]. solve_Permutation. }
  destruct (own_forget R (cells a x ++ cells b x ++ M) ((x, mk_node (pack (above k) c) (ptr b) (ptr a)) :: rcells k x) h) as [R' Ho'].
  { eapply own_perm; [|reflexivity|exact Ho]. rewrite HM. solve_Permutation. }
  by apply (next_post_spec R' h r d k x _ c Ho').
Qed.

(** The node [new] takes the place of [x]. *)
Lemma replace_at R h d k c a x b new n0 :
  own R ((new, n0) :: cells (plug k (T c a x b)) 0) h ->
  runs (rb_replace_node (mk_rb h (top k x) d) x new)
    (fun t => exists n, own R ((x, n) :: cells (plug k (T c a new b)) 0) (rb_nodes t)
      /\ rb_root t = ptr (plug k (T c a new b)) /\ rb_data t = d).
Proof.
  intros Ho. rewrite cells_plug in Ho. cbn [cells ptr app] in Ho. rewrite <- app_assoc in Ho.
  assert (Hl : link (above k)) by (eapply (up_link R); [exact Ho|]; solve_submseteq).
  assert (Hx : link x) by (right; eapply own_valid; [exact Ho|find_cell]).
  unfold rb_replace_node, replace_links. rb_steps.
  eapply (runs_set_parent_opt R _ _ _ _ d a x new); [exact Hown|find_swap|done|]. clear Hown. intros h1 Hown. rb_steps.
  eapply (runs_set_parent_opt R _ _ _ _ d b x new); [exact Hown|find_swap|done|]. clear Hown. intros h2 Hown.
  rewrite parent_pack by done. eapply (runs_change_child R); [exact Hown|solve_submseteq|find_swap|done|].
  clear Hown. intros h3 Hown. eexists. rewrite top_plug, cells_plug. cbn [rb_nodes rb_root rb_data cells ptr app].
  split_and!; [|done|done]. eapply own_perm; [|reflexivity|exact Hown]. solve_Permutation.
Qed.
End Live.
