(* ===== verification/RBTreeProps.v ===== *)
(** * What red-black trees promise

    The operations as operations on a sequence of nodes: linking a node beside
    another and rebalancing, erasing and replacing keep a red-black tree whose
    in-order sequence changes accordingly, the walks follow that sequence, and
    augmented trees keep the value of every node. *)
From Stdlib Require Import ZArith Lia Bool.
From stdpp Require Import base numbers list gmap.
From S2P Require Import Prelude RBTree RBTreeShape RBTreeRep RBTreeAugment RBTreeInsert RBTreeErase RBTreeRemove RBTreeCallbacks RBTreeWalk.

(** ** Sequences *)

(** [x] right before or right after [p]. *)
Fixpoint insert_beside (s : side) (x p : Z) (l : list Z) : list Z :=
  match l with
  | [] => []
  | y :: l' =>
      if y =? p then match s with Left => x :: y :: l' | Right => y :: x :: l' end
      else y :: insert_beside s x p l'
  end.

Fixpoint remove_elem (x : Z) (l : list Z) : list Z :=
  match l with [] => [] | y :: l' => if y =? x then l' else y :: remove_elem x l' end.

Definition rename_elem (x y : Z) (l : list Z) : list Z := (fun z => if z =? x then y else z) <$> l.

Lemma insert_beside_app s x p A B : p ∉ A ->
  insert_beside s x p (A ++ p :: B) = match s with Left => A ++ x :: p :: B | Right => A ++ p :: x :: B end.
Proof.
  induction A as [|y A IH]; simpl; intros Hp; [rewrite Z.eqb_refl; by destruct s|].
  rewrite (proj2 (Z.eqb_neq y p)) by set_solver. rewrite IH by set_solver. by destruct s.
Qed.

Lemma remove_elem_app x A B : x ∉ A -> remove_elem x (A ++ x :: B) = A ++ B.
Proof.
  induction A as [|y A IH]; simpl; intros Hx; [by rewrite Z.eqb_refl|].
  rewrite (proj2 (Z.eqb_neq y x)) by set_solver. by rewrite IH by set_solver.
Qed.

Lemma rename_elem_id x y l : x ∉ l -> rename_elem x y l = l.
Proof.
  unfold rename_elem. induction l as [|z l IH]; intros Hx; [done|]. cbn [fmap list_fmap].
  rewrite (proj2 (Z.eqb_neq z x)) by set_solver. f_equal. apply IH. set_solver.
Qed.

Lemma rename_elem_app x y A B : x ∉ A -> x ∉ B -> rename_elem x y (A ++ x :: B) = A ++ y :: B.
Proof.
  intros HA HB. unfold rename_elem. rewrite fmap_app, fmap_cons, Z.eqb_refl.
  f_equal; [|f_equal]; by apply (rename_elem_id x y).
Qed.

Section Ops.
Context {D : Type}.
Implicit Types t : rb_state D.

(** The nodes [l], in order, in a red-black tree; the store is [R] elsewhere. *)
Definition rb_tree (R : nodes) (l : list Z) t : Prop :=
  exists w, own R (cells w 0) (rb_nodes t) /\ rb_root t = ptr w /\ balanced w /\ elems w = l.

(** The calls a user of the tree makes. *)
Inductive rb_op :=
| Insert (x p : Z) (s : side)
| Erase (x : Z)
| Replace (x y : Z).

Definition run_op t (o : rb_op) : outcome (rb_state D) :=
  match o with
  | Insert x p s => let* t := rb_link_node t x p s in rb_insert_color t x
  | Erase x => rb_erase t x
  | Replace x y => rb_replace_node t x y
  end.

Fixpoint run_ops t (os : list rb_op) : outcome (rb_state D) :=
  match os with
  | [] => Ret t
  | o :: os => let* t := run_op t o in run_ops t os
  end.

(** Their effect on the sequence. *)
Definition spec_op (l : list Z) (o : rb_op) : list Z :=
  match o with
  | Insert x p s => if p =? 0 then [x] else insert_beside s x p l
  | Erase x => remove_elem x l
  | Replace x y => rename_elem x y l
  end.

(** A node that can be added: an allocated node that is not in the tree. *)
Definition fresh t (l : list Z) (x : Z) : Prop := valid x /\ (x ∉ l) /\ is_Some (rb_nodes t !! x).

(** What the caller has to see to: a node is linked where the tree has no child. *)
Definition allowed t (l : list Z) (o : rb_op) : Prop :=
  match o with
  | Insert x p s => fresh t l x /\ ((l = [] /\ p = 0) \/ ((p ∈ l) /\ get_child s t p = Ret 0))
  | Erase x => x ∈ l
  | Replace x y => x ∈ l /\ fresh t l y
  end.

Fixpoint all_allowed t (l : list Z) (os : list rb_op) : Prop :=
  match os with
  | [] => True
  | o :: os => allowed t l o /\ match run_op t o with Ret t' => all_allowed t' (spec_op l o) os | _ => True end
  end.

(** The nodes a call is about. *)
Definition op_nodes (o : rb_op) : list Z :=
  match o with Insert x _ _ => [x] | Erase x => [x] | Replace x y => [x; y] end.

(** A node of the tree, as the root of a subtree. *)
Lemma rb_tree_at R l t x : rb_tree R l t -> x ∈ l ->
  exists k c a b, own R (cells (plug k (T c a x b)) 0) (rb_nodes t) /\ rb_root t = top k x
    /\ balanced (plug k (T c a x b)) /\ l = (before k ++ elems a) ++ x :: elems b ++ after k
    /\ (x ∉ before k ++ elems a) /\ (x ∉ elems b ++ after k).
Proof.
  intros (w & Ho & Hr & Hb & <-) Hx. destruct (elem_context x w Hx) as (k & c & a & b & ->).
  exists k, c, a, b. rewrite Hr, top_plug. destruct (own_elems _ _ _ Ho) as [Hnd _].
  rewrite elems_plug in Hnd |- *. simpl in Hnd |- *.
  assert (He : before k ++ (elems a ++ x :: elems b) ++ after k = (before k ++ elems a) ++ x :: elems b ++ after k)
    by (rewrite <- !app_assoc; done).
  rewrite He in Hnd |- *. apply NoDup_app in Hnd as (_ & HA & HB). apply NoDup_cons in HB as [HB _].
  split_and!; try done. intros Hin. apply (HA x Hin). set_solver.
Qed.

Lemma dummy_fitting (d : D) w : fitting (cb := dummy_callbacks) d w.
Proof. induction w; simpl; auto. Qed.

Lemma rebalanced_rb_tree R l t : rebalanced (cb := dummy_callbacks) R l t -> rb_tree R l t.
Proof. intros (w & [Ho Hr _] & Hb & He). by exists w. Qed.

(** A node that is to be linked, with the tree. *)
Lemma own_fresh R t l x w : own R (cells w 0) (rb_nodes t) -> elems w = l -> fresh t l x ->
  exists n, own R ((x, n) :: cells w 0) (rb_nodes t).
Proof.
  intros Ho He (Hv & Hx & [n Hn]). assert (Hk : x ∉ (cells w 0).*1) by (by rewrite cells_keys, He).
  exists n. eapply own_take; [done|done|done|]. by rewrite <- (own_outside _ _ _ _ Ho Hk).
Qed.

(** Where [Insert] links a node, as the hole of a context. *)
Lemma insert_hole R l t x p s : rb_tree R l t -> allowed t l (Insert x p s) ->
  exists k n, own R ((x, n) :: cells (plug k E) 0) (rb_nodes t) /\ rb_root t = ptr (plug k E) /\ balanced (plug k E)
    /\ on_side k s /\ above k = p /\ before k ++ x :: after k = spec_op l (Insert x p s).
Proof.
  intros Ht [Hf [[-> ->]|[Hp Hc]]].
  - destruct Ht as (w & Ho & Hr & Hb & He). destruct w as [|c a y b]; [|by apply app_eq_nil in He as [_ ?]].
    destruct (own_fresh _ _ _ _ _ Ho He Hf) as [n Hn]. by exists [], n.
  - destruct (rb_tree_at R l t p Ht Hp) as (k & c & a & b & Ho & Hr & Hb & Hl & HpA & HpB).
    set (w := match s with Left => a | Right => b end). set (o := match s with Left => b | Right => a end).
    assert (Hw : w = E).
    { destruct (decide (w = E)) as [|Hw]; [done|]. exfalso.
      assert (H0 : ptr w <> 0).
      { eapply own_ptr_neq0; [exact Ho| |exact Hw]. rewrite cells_plug. unfold w. destruct s; cbn [cells]; solve_submseteq. }
      destruct t as [h r d]. cbn [rb_nodes] in *.
      rewrite (cell_children R h r d _ p (mk_node (pack (above k) c) (ptr b) (ptr a)) s Ho) in Hc
        by (rewrite cells_plug; apply list_elem_of_here).
      injection Hc as Hc. apply H0. rewrite <- Hc. unfold w. by destruct s. }
    assert (Hpl : plug k (T c a p b) = plug (F s c p o :: k) E).
    { cbn [plug]. rewrite <- Hw. unfold w, o. by destruct s. }
    rewrite Hpl in Ho, Hb. assert (He : elems (plug (F s c p o :: k) E) = l) by (rewrite <- Hpl, elems_plug, Hl; simpl; by rewrite <- !app_assoc).
    destruct (own_fresh _ _ _ _ _ Ho He Hf) as [n Hn]. exists (F s c p o :: k), n.
    assert (Hp0 : p <> 0) by (apply valid_neq0; eapply own_valid; [exact Ho|]; rewrite cells_keys, He; done).
    split_and!; try done; [by rewrite top_plug|]. cbn [spec_op]. rewrite (proj2 (Z.eqb_neq p 0)) by done.
    rewrite Hl, insert_beside_app by done. unfold w, o in *. destruct s; subst; simpl; [by rewrite app_nil_r|].
    by rewrite <- !app_assoc.
Qed.

(** One call. *)
Lemma run_op_spec R l t o : rb_tree R l t -> allowed t l o ->
  runs (run_op t o) (fun t' => exists R', rb_tree R' (spec_op l o) t' /\ forall p, p ∉ op_nodes o -> R' !! p = R !! p).
Proof.
  intros Ht Ha. destruct o as [x p s|x|x y].
  - destruct (insert_hole R l t x p s Ht Ha) as (k & n & Ho & Hr & Hb & Hs & <- & <-).
    eapply runs_mono; [exact (insert_at (cb := dummy_callbacks) R t k x n s Ho Hr Hb Hs (dummy_fitting _ _))|].
    intros t' Ht'. exists R. split; [by apply rebalanced_rb_tree|done].
  - destruct (rb_tree_at R l t x Ht Ha) as (k & c & a & b & Ho & Hr & Hb & -> & HxA & HxB).
    eapply runs_mono; [eapply (erase_at (cb := dummy_callbacks) R t k c a x b); [split; [done|by rewrite top_plug|apply dummy_fitting]|done]|].
    intros t' (n & Ht'). exists (<[x := n]> R). cbn [spec_op]. rewrite remove_elem_app by done.
    rewrite <- app_assoc. split; [by apply rebalanced_rb_tree|]. intros p Hp. apply lookup_insert_ne. set_solver.
  - destruct Ha as [Hx Hf]. destruct (rb_tree_at R l t x Ht Hx) as (k & c & a & b & Ho & Hr & Hb & Hl & HxA & HxB).
    assert (He : elems (plug k (T c a x b)) = l) by (rewrite elems_plug, Hl; simpl; by rewrite <- !app_assoc).
    destruct (own_fresh _ _ _ _ _ Ho He Hf) as [n Hn]. destruct t as [h r d]. cbn [rb_nodes rb_root] in *. subst r.
    eapply runs_mono; [exact (replace_at R h d k c a x b y n Hn)|].
    intros t' (m & Ho' & Hr' & _). exists (<[x := m]> R). split.
    + exists (plug k (T c a y b)). split_and!; [by apply own_drop|done| |].
      * apply balanced_plug in Hb as (q & Hq & Hk & Hc). by apply (plug_balanced k q).
      * cbn [spec_op]. rewrite Hl, rename_elem_app by done. rewrite elems_plug. simpl. by rewrite <- !app_assoc.
    + intros p Hp. apply lookup_insert_ne. set_solver.
Qed.

Lemma insert_beside_in s x p l z : z ∈ insert_beside s x p l -> z ∈ l \/ z = x.
Proof.
  induction l as [|y l IH]; simpl; [by left|]. case_match; [destruct s; set_solver|].
  rewrite !elem_of_cons. intros [->|Hz]; [by left; left|]. destruct (IH Hz); auto.
Qed.

Lemma remove_elem_in x l z : z ∈ remove_elem x l -> z ∈ l.
Proof.
  induction l as [|y l IH]; simpl; [done|]. case_match; rewrite ?elem_of_cons; [by right|].
  intros [->|Hz]; auto.
Qed.

Lemma spec_op_in l o z : z ∈ spec_op l o -> z ∈ l \/ z ∈ op_nodes o.
Proof.
  destruct o as [x p s|x|x y]; simpl; intros Hz.
  - case_match; [by right|]. destruct (insert_beside_in _ _ _ _ _ Hz) as [Hl|Hl]; [by left|right; set_solver].
  - left. by eapply remove_elem_in.
  - unfold rename_elem in Hz. apply list_elem_of_fmap in Hz as (q & -> & Hq). case_match; [right; set_solver|by left].
Qed.

(** A sequence of calls. *)
Lemma run_ops_spec R l t os : rb_tree R l t -> all_allowed t l os ->
  runs (run_ops t os) (fun t' => exists R', rb_tree R' (foldl spec_op l os) t'
    /\ forall p, p ∉ l ++ concat (op_nodes <$> os) -> rb_nodes t' !! p = rb_nodes t !! p).
Proof.
  revert R l t; induction os as [|o os IH]; intros R l t Ht Ha.
  { apply runs_ret. by exists R. }
  destruct Ha as [Ho Hos]. destruct (run_op_spec R l t o Ht Ho) as (t1 & Ht1 & R1 & Htree1 & HR1).
  cbn [run_ops]. rewrite Ht1 in Hos |- *. cbn [obind foldl].
  eapply runs_mono; [exact (IH R1 _ t1 Htree1 Hos)|].
  intros t' (R' & Htree' & Hfr). exists R'. split; [done|]. intros p Hp.
  rewrite fmap_cons in Hp. simpl in Hp. rewrite !elem_of_app in Hp.
  assert (Hp1 : p ∉ spec_op l o) by (intros Hin; destruct (spec_op_in l o p Hin); tauto).
  rewrite Hfr by (rewrite elem_of_app; tauto).
  destruct Ht as (w & How & _ & _ & Hel). destruct Htree1 as (w1 & How1 & _ & _ & Hel1).
  rewrite (own_outside _ _ _ _ How1) by (rewrite cells_keys, Hel1; done).
  rewrite (own_outside _ _ _ _ How) by (rewrite cells_keys, Hel; tauto). apply HR1. tauto.
Qed.

(** C32: from a red-black tree, every sequence of insertions ([rb_link_node] at a
    free place, then [rb_insert_color]), erasures ([rb_erase]) and replacements
    ([rb_replace_node]) runs without touching anything but allocated nodes and
    ends in a red-black tree: the root is black, no red node has a red child, all
    paths have as many black nodes, every parent pointer and color bit is right,
    the in-order sequence is the one the calls spell out, the height is at most
    twice the logarithm of the number of nodes plus one, and the store is
    unchanged outside the nodes involved. *)
Theorem rb_calls_keep_tree R l t os : rb_tree R l t -> all_allowed t l os ->
  exists t' R' w, run_ops t os = Ret t'
    /\ own R' (cells w 0) (rb_nodes t') /\ rb_root t' = ptr w /\ balanced w
    /\ elems w = foldl spec_op l os
    /\ (height w <= 2 * Nat.log2 (S (length (foldl spec_op l os))))%nat
    /\ forall p, p ∉ l ++ concat (op_nodes <$> os) -> rb_nodes t' !! p = rb_nodes t !! p.
Proof.
  intros Ht Ha. destruct (run_ops_spec R l t os Ht Ha) as (t' & Hrun & R' & (w & Ho & Hr & Hb & He) & Hfr).
  exists t', R', w. split_and!; try done. rewrite <- He. by apply balanced_height.
Qed.

(** ** Walks *)
Lemma split_unique (x : Z) A B A' B' : A ++ x :: B = A' ++ x :: B' -> x ∉ A -> x ∉ A' -> A = A' /\ B = B'.
Proof.
  revert A'; induction A as [|y A IH]; intros [|y' A'] Heq HA HA'; simpl in Heq; simplify_eq.
  - done.
  - set_solver.
  - set_solver.
  - destruct (IH A') as [-> ->]; [done|set_solver|set_solver|done].
Qed.

Lemma rb_tree_nodup R l t : rb_tree R l t -> forall A x B, l = A ++ x :: B -> x ∉ A.
Proof.
  intros (w & Ho & _ & _ & <-) A x B He. destruct (own_elems _ _ _ Ho) as [Hnd _]. rewrite He in Hnd.
  apply NoDup_app in Hnd as (_ & Hnd & _). intros Hin. apply (Hnd x Hin). set_solver.
Qed.

Lemma rb_walk_spec R l t : rb_tree R l t ->
  rb_first t = Ret (end_of Left l) /\ rb_last t = Ret (end_of Right l)
  /\ forall A x B, l = A ++ x :: B -> rb_next t x = Ret (end_of Left B) /\ rb_prev t x = Ret (end_of Right A).
Proof.
  intros Ht. assert (Hend : forall s, (if rb_root t =? 0 then Ret 0 else descend (S (size (rb_nodes t))) s t (rb_root t)) = Ret (end_of s l)).
  { intros s. destruct Ht as (w & Ho & Hr & _ & <-). destruct t as [h r d]. cbn [rb_nodes rb_root] in *. subst r.
    pose proof (own_size _ _ _ Ho) as Hsz. rewrite <- (length_fmap fst), cells_keys in Hsz.
    destruct (decide (w = E)) as [->|Hw]; [by destruct s|].
    rewrite (proj2 (Z.eqb_neq (ptr w) 0)) by by eapply own_ptr_neq0.
    apply (descend_spec R h (ptr w) d _ s _ w 0 Ho); [reflexivity|done|lia]. }
  split_and!; [apply (Hend Left)|apply (Hend Right)|].
  intros A x B Hl. destruct (rb_tree_at R l t x Ht) as (k & c & a & b & Ho & _ & _ & Hl' & HxA & HxB); [rewrite Hl; set_solver|].
  assert (Heq : A = before k ++ elems a /\ B = elems b ++ after k).
  { apply (split_unique x); [by rewrite <- Hl|by apply (rb_tree_nodup R l t Ht A x B)|done]. }
  destruct Heq as [-> ->]. destruct t as [h r d]. split; [apply (rb_step_spec R h r d Right k c a x b Ho)|].
  apply (rb_step_spec R h r d Left k c a x b Ho).
Qed.

Lemma hd_end l : hd 0 l = end_of Left l.
Proof. by destruct l. Qed.

Lemma post_root w : w <> E -> exists A, post w = A ++ [ptr w].
Proof. destruct w as [|c a x b]; [done|]. intros _. exists (post a ++ post b). simpl. by rewrite app_assoc. Qed.

(** The post-order, of the tree [w] in the state. *)
Lemma rb_post_spec R t w : own R (cells w 0) (rb_nodes t) -> rb_root t = ptr w ->
  (forall s x y, x ∈ elems w -> get_child s t x = Ret y -> y <> 0 -> exists A B C, post w = A ++ y :: B ++ x :: C)
  /\ rb_first_postorder t = Ret (end_of Left (post w))
  /\ (forall A x B, post w = A ++ x :: B -> rb_next_postorder t x = Ret (end_of Left B)).
Proof.
  destruct t as [h r d]. cbn [rb_nodes rb_root]. intros Ho ->.
  assert (Hcut : forall x, x ∈ elems w -> exists k c a b, w = plug k (T c a x b)) by (intros; by apply elem_context).
  split_and!.
  - intros s x y Hx Hc Hy. destruct (Hcut x Hx) as (k & c & a & b & ->).
    rewrite (cell_children R h _ d _ x (mk_node (pack (above k) c) (ptr b) (ptr a)) s Ho) in Hc
      by (rewrite cells_plug; apply list_elem_of_here).
    injection Hc as <-. rewrite post_plug. cbn [post]. destruct s; cbn [child_of rb_left rb_right] in *.
    + destruct (post_root a) as [A HA]; [by intros ->|]. exists (pres k ++ A), (post b), (posts k).
      rewrite HA. by repeat (rewrite <- app_assoc; simpl).
    + destruct (post_root b) as [A HA]; [by intros ->|]. exists (pres k ++ post a ++ A), [], (posts k).
      rewrite HA. by repeat (rewrite <- app_assoc; simpl).
  - unfold rb_first_postorder. cbn [rb_root]. destruct (decide (w = E)) as [->|Hw]; [done|].
    rewrite (proj2 (Z.eqb_neq (ptr w) 0)) by by eapply own_ptr_neq0.
    pose proof (own_size _ _ _ Ho) as Hsz. rewrite <- (length_fmap fst), cells_keys in Hsz.
    destruct (left_deepest_spec R _ h (ptr w) d (S (size h)) w 0 Ho) as (k & c & y & -> & Hk & Hy); [reflexivity|done|lia|].
    unfold rb_left_deepest_node. cbn [rb_nodes]. by rewrite Hy, post_deep.
  - intros A x B HAB. destruct (Hcut x) as (k & c & a & b & ->); [rewrite <- post_elems, HAB; set_solver|].
    rewrite (next_postorder_spec R h _ d k c a x b Ho), hd_end.
    destruct (own_elems _ _ _ Ho) as [Hnd _]. rewrite <- post_elems, HAB in Hnd.
    rewrite post_plug in HAB. cbn [post] in HAB. rewrite <- !app_assoc in HAB. cbn [app] in HAB. rewrite !app_assoc in HAB.
    destruct (split_unique x _ _ _ _ HAB) as [_ ->]; [| |done].
    + pose proof Hnd as Hnd'. rewrite <- HAB in Hnd'. apply NoDup_app in Hnd' as (_ & Hn & _). intros Hin. apply (Hn x Hin). set_solver.
    + apply NoDup_app in Hnd as (_ & Hn & _). intros Hin. apply (Hn x Hin). set_solver.
Qed.

(** C34: in a red-black tree with in-order sequence [l], [rb_first] and [rb_last]
    return its ends and [rb_next] and [rb_prev] the neighbours of each node, or
    NULL; [rb_first_postorder] and [rb_next_postorder] walk a permutation of [l]
    in which every node comes after its children, and
    [rbtree_postorder_for_each_entry_safe] visits the same nodes in that order when
    its body frees each one, without reading a freed node. *)
Theorem rb_iteration R l t : rb_tree R l t ->
  rb_first t = Ret (end_of Left l) /\ rb_last t = Ret (end_of Right l)
  /\ (forall A x B, l = A ++ x :: B -> rb_next t x = Ret (end_of Left B) /\ rb_prev t x = Ret (end_of Right A))
  /\ exists q h', Permutation q l
    /\ (forall s x y, x ∈ l -> get_child s t x = Ret y -> y <> 0 -> exists A B C, q = A ++ y :: B ++ x :: C)
    /\ rb_first_postorder t = Ret (end_of Left q)
    /\ (forall A x B, q = A ++ x :: B -> rb_next_postorder t x = Ret (end_of Left B))
    /\ rbtree_postorder_for_each_entry_safe t = Ret (mk_rb h' (rb_root t) (rb_data t), q)
    /\ forall p, h' !! p = if decide (p ∈ q) then None else rb_nodes t !! p.
Proof.
  intros Ht. destruct (rb_walk_spec R l t Ht) as (Hf & Hl & Hn). split_and!; [done|done|done|].
  destruct Ht as (w & Ho & Hr & _ & <-). destruct (rb_post_spec R t w Ho Hr) as (Hc & Hfp & Hnp).
  destruct (postorder_spec R (rb_nodes t) (rb_data t) w Ho) as (h' & Hpost & Hfree).
  exists (post w), h'. split_and!; try done; [apply post_elems|]. destruct t as [h r d]. cbn [rb_root rb_nodes rb_data] in *. by subst r.
Qed.
End Ops.

(** ** Augmented trees *)
Section Values.
Context {D : Type} {cb : rb_augment_callbacks D} `{!Augment cb}.

(** The values of a tree are right when they are for the children each node has in
    the store. *)
Lemma fitting_store R L h (d : D) w : forall p, own R L h -> cells w p ⊆+ L ->
  fitting d w <-> forall z n, z ∈ elems w -> h !! z = Some n -> fits d z (rb_left n) (rb_right n).
Proof.
  induction w as [|c a IHa x b IHb]; intros p Ho Hs.
  { split; [|done]. intros _ z n Hz. by apply elem_of_nil in Hz. }
  cbn [cells fitting elems] in *.
  assert (Hx : h !! x = Some (mk_node (pack p c) (ptr b) (ptr a)))
    by (eapply own_lookup; [exact Ho|]; exact (elem_of_submseteq _ _ _ (list_elem_of_here _ _) Hs)).
  rewrite (IHa x), (IHb x) by (done || (etrans; [|exact Hs]; solve_submseteq)).
  setoid_rewrite elem_of_app. setoid_rewrite elem_of_cons. split.
  - intros (Hfx & Hfa & Hfb) z n [Hz|[->|Hz]] Hn; [by apply Hfa| |by apply Hfb]. by simplify_eq.
  - intros Hf. split_and!; [apply (Hf x _ (or_intror (or_introl eq_refl)) Hx)| |]; intros z n Hz; apply Hf; auto.
Qed.
End Values.

Lemma value_ptr {V : Type} (d d' : gmap Z V) w :
  (forall z, z ∈ elems w -> value d z = value d' z) -> value d (ptr w) = value d' (ptr w).
Proof. destruct w as [|c l x r]; [done|]. intros H. apply H. simpl. set_solver. Qed.

Section Augmented.
Context {V : Type} `{!EqDecision V}.
Variable rbcompute : nodes -> gmap Z V -> Z -> outcome V.
Variable combine : Z -> option V -> option V -> V.
Implicit Types t : rb_state (gmap Z V).

(** What is asked of [rbcompute]: for the nodes it is made for it reads the values of
    the children, and the value it makes for a subtree does not change in rotations. *)
Variable known : Z -> Prop.

Definition computes : Prop := forall h d x n,
  known x -> h !! x = Some n ->
  (rb_left n = 0 \/ is_Some (value d (rb_left n))) -> (rb_right n = 0 \/ is_Some (value d (rb_right n))) ->
  rbcompute h d x = Ret (combine x (value d (rb_left n)) (value d (rb_right n))).

Definition rotates : Prop := forall x y a b c,
  combine y (Some (combine x a b)) c = combine x a (Some (combine y b c)).

(** The nodes [l] have the values [rbcompute] gives them. *)
Definition values_right t (l : list Z) : Prop :=
  forall z n, z ∈ l -> rb_nodes t !! z = Some n -> fits_value combine (rb_data t) z (rb_left n) (rb_right n).

(** The value of a whole sequence of nodes, from the right. *)
Definition total (l : list Z) : option V := foldr (fun x acc => Some (combine x None acc)) None l.

Hypothesis Hcomp : computes.
Hypothesis Hrot : rotates.

Abbreviation aug := (declared_augment rbcompute combine known Hcomp Hrot).

Lemma fitting_values R L h d w p : own R L h -> cells w p ⊆+ L ->
  fitting (Augment0 := aug) d w <->
  (forall z, z ∈ elems w -> known z) /\ forall z n, z ∈ elems w -> h !! z = Some n -> fits_value combine d z (rb_left n) (rb_right n).
Proof.
  intros Ho Hs. rewrite (fitting_store (Augment0 := aug) R L h d w p Ho Hs). split; [|intros [Hk Hf] z n Hz Hn; split; auto].
  intros Hf. split; [|intros z n Hz Hn; by apply Hf]. intros z Hz.
  assert (Hin : z ∈ L.*1).
  { rewrite <- (cells_keys w p) in Hz. apply list_elem_of_fmap in Hz as (y & -> & Hy). apply list_elem_of_fmap_2.
    by eapply elem_of_submseteq. }
  apply list_elem_of_fmap in Hin as ([z' n] & -> & Hin). by eapply Hf; [|eapply own_lookup].
Qed.

(** Data that agree on the nodes of a tree. *)
Lemma fitting_value d d' w : (forall z, z ∈ elems w -> value d z = value d' z) ->
  fitting (Augment0 := aug) d w -> fitting (Augment0 := aug) d' w.
Proof. intros H. apply (fitting_same (Augment0 := aug)); [|done]. intros z Hz. split; [by apply H|done]. Qed.

Fixpoint tree_value (w : tree) : option V :=
  match w with E => None | T _ l x r => Some (combine x (tree_value l) (tree_value r)) end.

Lemma combine_total w : forall x b,
  Some (combine x (tree_value w) b) = foldr (fun x acc => Some (combine x None acc)) (Some (combine x None b)) (elems w).
Proof.
  induction w as [|c l IHl y r IHr]; intros x b; simpl; [done|].
  rewrite Hrot, IHl, IHr, foldr_app. done.
Qed.

Lemma tree_value_total w : tree_value w = total (elems w).
Proof.
  induction w as [|c l IHl x r IHr]; simpl; [done|]. rewrite combine_total, IHr. unfold total. by rewrite foldr_app.
Qed.

Lemma fitting_tree_value d w : fitting (Augment0 := aug) d w -> value d (ptr w) = tree_value w.
Proof.
  induction w as [|c l IHl x r IHr]; simpl; [done|]. intros ([_ Hx] & Hl & Hr). unfold fits_value in Hx.
  by rewrite Hx, IHl, IHr.
Qed.

(** A tree with right values, and what its root's value is. *)
Lemma augmented_root R l t :
  rebalanced (Augment0 := aug) R l t -> rb_tree R l t /\ values_right t l /\ value (rb_data t) (rb_root t) = total l.
Proof.
  intros (w & [Ho Hr Hf] & Hb & He). split_and!.
  - by exists w.
  - intros z n Hz Hn. rewrite <- He in Hz. by apply (fitting_values R _ _ (rb_data t) w 0 Ho ltac:(reflexivity)).
  - rewrite Hr, <- He, <- tree_value_total. by apply fitting_tree_value.
Qed.

Lemma augmented_insert R l t x p s t1 : rb_tree R l t -> allowed t l (Insert x p s) ->
  rb_link_node t x p s = Ret t1 -> values_right t1 (spec_op l (Insert x p s)) ->
  (forall z, z ∈ spec_op l (Insert x p s) -> known z) ->
  runs (rb_insert_augmented t1 x (RB_DECLARE_CALLBACKS rbcompute)) (rebalanced (Augment0 := aug) R (spec_op l (Insert x p s))).
Proof.
  intros Ht Ha Hlink Hv Hkn. destruct (insert_hole R l t x p s Ht Ha) as (k & n & Ho & Hr & Hb & Hs & Hup & Hspec).
  rewrite <- Hspec in Hv, Hkn |- *. subst p. destruct t as [h r d]. cbn [rb_nodes rb_root] in *.
  assert (Hf : fitting (Augment0 := aug) d (plug k (T Red E x E))).
  { assert (Hl : runs (rb_link_node (mk_rb h r d) x (above k) s) (fun t' => own R (cells (plug k (T Red E x E)) 0) (rb_nodes t') /\ rb_data t' = d)).
    { rewrite Hr, top_plug. eapply rb_link_node_spec; [exact Ho|done|]. intros h' Ho'. done. }
    destruct Hl as (t' & Ht' & Ho' & Hd'). rewrite Hlink in Ht'. injection Ht' as <-. rewrite <- Hd'.
    apply (fitting_values R _ (rb_nodes t1) (rb_data t1) _ 0 Ho' ltac:(reflexivity)). rewrite elems_plug. done. }
  pose proof (insert_at (Augment0 := aug) R (mk_rb h r d) k x n s Ho Hr Hb Hs Hf) as Hi.
  rewrite Hlink in Hi. exact Hi.
Qed.

Lemma augmented_erase R l t x : rb_tree R l t -> values_right t l -> (forall z, z ∈ l -> known z) -> x ∈ l ->
  runs (rb_erase_augmented t x (RB_DECLARE_CALLBACKS rbcompute))
    (fun t' => exists n, rebalanced (Augment0 := aug) (<[x := n]> R) (remove_elem x l) t').
Proof.
  intros Ht Hv Hkn Hx. destruct (rb_tree_at R l t x Ht Hx) as (k & c & a & b & Ho & Hr & Hb & Hl & HxA & HxB).
  rewrite Hl. rewrite remove_elem_app by done. rewrite <- app_assoc.
  apply (erase_at (Augment0 := aug) R t k c a x b); [|done]. split; [done|by rewrite top_plug|].
  assert (He : elems (plug k (T c a x b)) = l) by (rewrite elems_plug, Hl; simpl; by rewrite <- !app_assoc).
  apply (fitting_values R _ _ (rb_data t) _ 0 Ho ltac:(reflexivity)). by rewrite He.
Qed.
End Augmented.

(** C33: in a tree augmented with [RB_DECLARE_CALLBACKS], when [rbcompute] computes a
    node's value from its children's and rotations do not change the value of a
    subtree, [rb_insert_augmented] of a linked node whose path has right values and
    [rb_erase_augmented] return, keep the red-black tree and its sequence, leave every
    node with the value [rbcompute] gives it, and the root with the combination of the
    whole sequence. *)
Theorem rb_augmented_values {V : Type} `{!EqDecision V} (rbcompute : nodes -> gmap Z V -> Z -> outcome V)
    (combine : Z -> option V -> option V -> V) (known : Z -> Prop) (R : nodes) (l : list Z) (t : rb_state (gmap Z V)) :
  computes rbcompute combine known -> rotates combine -> rb_tree R l t -> (forall z, z ∈ l -> known z) ->
  (forall x p s t1, allowed t l (Insert x p s) -> known x -> rb_link_node t x p s = Ret t1 ->
     values_right combine t1 (spec_op l (Insert x p s)) ->
     exists t' R', rb_insert_augmented t1 x (RB_DECLARE_CALLBACKS rbcompute) = Ret t'
       /\ rb_tree R' (spec_op l (Insert x p s)) t' /\ values_right combine t' (spec_op l (Insert x p s))
       /\ value (rb_data t') (rb_root t') = total combine (spec_op l (Insert x p s)))
  /\ (forall x, x ∈ l -> values_right combine t l ->
     exists t' R', rb_erase_augmented t x (RB_DECLARE_CALLBACKS rbcompute) = Ret t'
       /\ rb_tree R' (spec_op l (Erase x)) t' /\ values_right combine t' (spec_op l (Erase x))
       /\ value (rb_data t') (rb_root t') = total combine (spec_op l (Erase x))).
Proof.
  intros Hcomp Hrot Ht Hkn. split.
  - intros x p s t1 Ha Hx Hlink Hv.
    assert (Hkn' : forall z, z ∈ spec_op l (Insert x p s) -> known z).
    { intros z Hz. cbn [spec_op] in Hz. destruct (p =? 0); [by apply list_elem_of_singleton in Hz as ->|].
      apply insert_beside_in in Hz as [Hz| ->]; auto. }
    destruct (augmented_insert rbcompute combine known Hcomp Hrot R l t x p s t1 Ht Ha Hlink Hv Hkn') as (t' & Hrun & Hre).
    exists t', R. split; [done|]. by eapply augmented_root.
  - intros x Hx Hv. destruct (augmented_erase rbcompute combine known Hcomp Hrot R l t x Ht Hv Hkn Hx) as (t' & Hrun & n & Hre).
    exists t', (<[x := n]> R). split; [done|]. by eapply augmented_root.
Qed.
