(* ===== verification/RBTreeExamples.v ===== *)
(** * Red-black trees on concrete input *)
From Stdlib Require Import ZArith Lia Bool.
From stdpp Require Import base numbers list gmap.
From S2P Require Import Prelude RBTree RBTreeShape RBTreeRep RBTreeCallbacks RBTreeProps.

(** The caller's obligations, decided. *)
Section Decide.
Context {D : Type}.
Implicit Types t : rb_state D.

Definition freshb t (l : list Z) (x : Z) : bool :=
  (0 <? x) && (x <? 2 ^ 32) && (x mod 4 =? 0) && bool_decide (x ∉ l) && bool_decide (is_Some (rb_nodes t !! x)).

Definition allowedb t (l : list Z) (o : rb_op) : bool :=
  match o with
  | Insert x p s =>
      freshb t l x &&
      ((bool_decide (l = []) && (p =? 0))
       || (bool_decide (p ∈ l) && match get_child s t p with Ret c => c =? 0 | _ => false end))
  | Erase x => bool_decide (x ∈ l)
  | Replace x y => bool_decide (x ∈ l) && freshb t l y
  end.

Fixpoint all_allowedb t (l : list Z) (os : list rb_op) : bool :=
  match os with
  | [] => true
  | o :: os => allowedb t l o && match run_op t o with Ret t' => all_allowedb t' (spec_op l o) os | _ => true end
  end.

Lemma freshb_fresh t l x : freshb t l x = true -> fresh t l x.
Proof.
  unfold freshb, fresh, valid. rewrite !andb_true_iff, Z.ltb_lt, Z.ltb_lt, Z.eqb_eq, !bool_decide_eq_true. tauto.
Qed.

Lemma allowedb_allowed t l o : allowedb t l o = true -> allowed t l o.
Proof.
  destruct o as [x p s|x|x y]; simpl; rewrite ?andb_true_iff, ?orb_true_iff, ?andb_true_iff, ?bool_decide_eq_true.
  - intros [Hf Hc]. split; [by apply freshb_fresh|]. rewrite Z.eqb_eq in Hc. destruct Hc as [Hc|[Hp Hc]]; [by left|].
    right. split; [done|]. destruct (get_child s t p) as [c| | |]; try done. apply Z.eqb_eq in Hc. by subst.
  - done.
  - intros [Hx Hf]. split; [done|]. by apply freshb_fresh.
Qed.

Lemma all_allowedb_all t l os : all_allowedb t l os = true -> all_allowed t l os.
Proof.
  revert t l; induction os as [|o os IH]; intros t l; simpl; [done|]. rewrite andb_true_iff. intros [Ho Hos].
  split; [by apply allowedb_allowed|]. destruct (run_op t o); auto.
Qed.

(** A tree without nodes. *)
Lemma rb_tree_empty (h : nodes) (d : D) : rb_tree h [] (mk_rb h 0 d).
Proof.
  exists E. split_and!; [|done|split; [done|by exists O]|done].
  split; [constructor|constructor|]. symmetry. exact (left_id_L ∅ (∪) h).
Qed.
End Decide.

(** Seven nodes, none of them linked. *)
Definition blank (l : list Z) : nodes := list_to_map ((fun x => (x, mk_node 0 0 0)) <$> l).
Definition start : rb_state unit := mk_rb (blank [16; 32; 48; 64; 80; 96; 112]) 0 tt.

(** Insertions with all the cases of rebalancing, the erasure of a node with two
    children and of others, and a replacement. *)
Definition calls : list rb_op :=
  [Insert 16 0 Left; Insert 48 16 Right; Insert 32 48 Left; Insert 64 48 Right; Insert 80 64 Right;
   Insert 96 80 Right; Erase 32; Erase 16; Replace 64 112].

Lemma rb_calls_keep_tree_witness :
  rb_tree (rb_nodes start) [] start /\ all_allowed start [] calls
  /\ exists t' w, run_ops start calls = Ret t' /\ rb_root t' = ptr w /\ balanced w /\ elems w = [48; 112; 80; 96].
Proof.
  assert (Ht : rb_tree (rb_nodes start) [] start) by exact (rb_tree_empty _ _).
  assert (Ha : all_allowed start [] calls) by (apply all_allowedb_all; vm_compute; reflexivity).
  split; [exact Ht|split; [exact Ha|]].
  destruct (rb_calls_keep_tree _ _ _ _ Ht Ha) as (t' & R' & w & Hrun & _ & Hroot & Hb & He & _).
  exists t', w. split; [exact Hrun|split; [exact Hroot|split; [exact Hb|]]].
  rewrite He. vm_compute. reflexivity.
Defined.

(** The node 16 with its right child 32. *)
Definition pair_tree : tree := T Black E 16 (T Red E 32 E).
Definition pair_nodes : nodes := list_to_map (cells pair_tree 0).
Definition pair_state {D} (d : D) : rb_state D := mk_rb (pair_nodes ∪ blank [48]) 16 d.

Lemma pair_rb_tree {D} (d : D) : rb_tree (blank [48]) [16; 32] (pair_state d).
Proof.
  exists pair_tree. split_and!; [|done|split; [done|]; exists 1%nat, O|done].
  - split; [|repeat constructor; by vm_compute|done]. vm_compute.
    repeat (constructor; [rewrite ?elem_of_cons, elem_of_nil; by intros []|]). constructor.
  - by repeat split.
Qed.

Lemma rb_iteration_witness :
  rb_tree (blank [48]) [16; 32] (pair_state tt)
  /\ rb_first (pair_state tt) = Ret 16 /\ rb_next (pair_state tt) 16 = Ret 32 /\ rb_prev (pair_state tt) 16 = Ret 0
  /\ exists t', rbtree_postorder_for_each_entry_safe (pair_state tt) = Ret (t', [32; 16]).
Proof.
  assert (Ht : rb_tree (blank [48]) [16; 32] (pair_state tt)) by exact (pair_rb_tree tt).
  destruct (rb_iteration _ _ _ Ht) as (Hf & _ & Hn & q & h' & _ & _ & Hfp & Hnp & Hpost & _).
  destruct (Hn [] 16 [32] eq_refl) as [Hnext Hprev].
  split; [exact Ht|]. split; [exact Hf|]. split; [exact Hnext|]. split; [exact Hprev|].
  eexists. rewrite Hpost. f_equal. f_equal. vm_compute in Hpost. congruence.
Defined.

(** The number of nodes of a subtree. *)
Definition size_of (a : option Z) : Z := default 0 a.

Definition count_compute (h : nodes) (d : gmap Z Z) (x : Z) : outcome Z :=
  match h !! x with
  | Some n => Ret (1 + size_of (value d (rb_left n)) + size_of (value d (rb_right n)))
  | None => Ub
  end.

Definition count_combine (x : Z) (a b : option Z) : Z := 1 + size_of a + size_of b.

Definition counts (l : list (Z * Z)) : gmap Z Z := list_to_map l.

Lemma rb_augmented_values_witness :
  computes count_compute count_combine (fun _ => True) /\ rotates count_combine
  /\ (exists t', rb_erase_augmented (pair_state (counts [(16, 2); (32, 1)])) 16 (RB_DECLARE_CALLBACKS count_compute) = Ret t'
      /\ value (rb_data t') (rb_root t') = Some 1)
  /\ exists t1 t', rb_link_node (pair_state (counts [(16, 3); (32, 2); (48, 1)])) 48 32 Right = Ret t1
      /\ rb_insert_augmented t1 48 (RB_DECLARE_CALLBACKS count_compute) = Ret t'
      /\ value (rb_data t') (rb_root t') = Some 3.
Proof.
  assert (Hc : computes count_compute count_combine (fun _ => True)) by (intros h d x n _ Hn _ _; unfold count_compute; rewrite Hn; reflexivity).
  assert (Hr : rotates count_combine) by (intros x y a b c; unfold count_combine, size_of; simpl; lia).
  split; [exact Hc|split; [exact Hr|split]].
  - destruct (rb_augmented_values count_compute count_combine _ _ _ _ Hc Hr (pair_rb_tree (counts [(16, 2); (32, 1)])) (fun _ _ => I)) as [_ He].
    destruct (He 16) as (t' & R' & Hrun & _ & _ & Hroot).
    + apply list_elem_of_here.
    + intros z n [->|[->|Hz]%elem_of_cons]%elem_of_cons Hn; [..|by apply elem_of_nil in Hz];
        vm_compute in Hn; injection Hn as <-; vm_compute; reflexivity.
    + exists t'. split; [exact Hrun|]. rewrite Hroot. vm_compute. reflexivity.
  - destruct (rb_augmented_values count_compute count_combine _ _ _ _ Hc Hr (pair_rb_tree (counts [(16, 3); (32, 2); (48, 1)])) (fun _ _ => I)) as [Hi _].
    destruct (rb_link_node (pair_state (counts [(16, 3); (32, 2); (48, 1)])) 48 32 Right) as [t1| | |] eqn:Hlink;
      [|vm_compute in Hlink; discriminate Hlink..].
    destruct (Hi 48 32 Right t1) as (t' & R' & Hrun & _ & _ & Hroot).
    + apply allowedb_allowed. vm_compute. reflexivity.
    + exact I.
    + exact Hlink.
    + vm_compute in Hlink. injection Hlink as <-.
      intros z n [->|[->|[->|Hz]%elem_of_cons]%elem_of_cons]%elem_of_cons Hn; [..|by apply elem_of_nil in Hz];
        vm_compute in Hn; injection Hn as <-; vm_compute; reflexivity.
    + exists t1, t'. split; [reflexivity|]. split; [exact Hrun|]. rewrite Hroot. vm_compute. reflexivity.
Defined.
