(* ===== verification/RBTreeSearch.v ===== *)
(** * Finding the place of a new node in an ordered tree

    Users of the trees go down from the root, left when the new node's key is less
    than that of the node they are at and right otherwise.  The free place they
    reach is the hole of a context; in a tree ordered by the key it stands behind
    all nodes whose key is not greater. *)
From Stdlib Require Import ZArith Lia Bool Sorted.
From stdpp Require Import base numbers list sorting gmap.
From S2P Require Import Prelude RBTree RBTreeShape RBTreeRep RBTreeInsert.

(** The context of the place reached from the subtree [w] in [k]. *)
Fixpoint way_down (left : Z -> bool) (w : tree) (k : list frame) : list frame :=
  match w with
  | E => k
  | T c l y r => if left y then way_down left l (F Left c y r :: k) else way_down left r (F Right c y l :: k)
  end.

Lemma plug_way_down left w k : plug (way_down left w k) E = plug k w.
Proof. revert k; induction w as [|c l IHl y r IHr]; intros k; simpl; [done|]. destruct (left y); [by rewrite IHl|by rewrite IHr]. Qed.

(** The place reached when the nodes to go left at are the last ones. *)
Lemma way_down_sides left w k :
  StronglySorted (fun a b => left a = true -> left b = true) (elems w) ->
  Forall (fun y => left y = false) (before k) -> Forall (fun y => left y = true) (after k) ->
  let k' := way_down left w k in
  Forall (fun y => left y = false) (before k') /\ Forall (fun y => left y = true) (after k').
Proof.
  revert k; induction w as [|c l IHl y r IHr]; intros k Ho Hb Ha; simpl; [done|].
  simpl in Ho. apply StronglySorted_app in Ho as (Hlr & Hol & Hyr). inversion_clear Hyr as [|? ? Hor HF].
  destruct (left y) eqn:Hy.
  - apply IHl; [done|done|]. simpl. constructor; [done|]. apply Forall_app; split; [|done].
    eapply Forall_impl; [exact HF|]. simpl. auto.
  - apply IHr; [done| |done]. simpl. rewrite !Forall_app. split_and!; [done| |by constructor].
    apply Forall_forall. intros a Hla. destruct (left a) eqn:Hfa; [|done]. rewrite <- Hy. symmetry.
    eapply (Hlr a y); [done|apply list_elem_of_here|done].
Qed.

Section Order.
Variable key : Z -> Z.

Definition ordered_by (l : list Z) : Prop := StronglySorted (fun a b => key a <= key b) l.

(** [x] behind all elements with a key not greater than its own. *)
Fixpoint insert_by (x : Z) (l : list Z) : list Z :=
  match l with
  | [] => [x]
  | y :: l' => if key x <? key y then x :: l else y :: insert_by x l'
  end.

Lemma insert_by_app x A B :
  Forall (fun y => key y <= key x) A -> Forall (fun y => key x < key y) B -> insert_by x (A ++ B) = A ++ x :: B.
Proof.
  intros HA HB. induction HA as [|y A Hy _ IH]; simpl.
  - destruct HB as [|y B Hy _]; simpl; [done|]. by rewrite (proj2 (Z.ltb_lt _ _)).
  - rewrite (proj2 (Z.ltb_ge _ _)) by done. by rewrite IH.
Qed.

Lemma ordered_by_app A B : ordered_by (A ++ B) <-> ordered_by A /\ ordered_by B /\ forall a b, a ∈ A -> b ∈ B -> key a <= key b.
Proof. unfold ordered_by. rewrite StronglySorted_app. tauto. Qed.

Lemma insert_by_split x l : ordered_by l -> exists A B, l = A ++ B /\ insert_by x l = A ++ x :: B
  /\ Forall (fun y => key y <= key x) A /\ Forall (fun y => key x < key y) B.
Proof.
  induction l as [|y l IH]; intros Ho; simpl; [by exists [], []|].
  destruct (Z.ltb_spec (key x) (key y)) as [Hlt|Hge].
  - exists [], (y :: l). split_and!; [done|done|constructor|]. inversion_clear Ho as [|? ? _ HF]. constructor; [done|].
    eapply Forall_impl; [exact HF|]. simpl. lia.
  - inversion_clear Ho as [|? ? HS _]. destruct (IH HS) as (A & B & -> & -> & HA & HB). exists (y :: A), B.
    split_and!; try done. by constructor.
Qed.

Lemma insert_by_ordered x l : ordered_by l -> ordered_by (insert_by x l).
Proof.
  intros Ho. destruct (insert_by_split x l Ho) as (A & B & -> & -> & HA & HB). apply ordered_by_app in Ho as (HoA & HoB & HAB).
  rewrite Forall_forall in HA, HB. apply ordered_by_app. split_and!; [done| |].
  - constructor; [done|]. apply Forall_forall. intros b Hb. specialize (HB b Hb). simpl in HB. lia.
  - intros a b Ha [->|Hb]%elem_of_cons; [by apply HA|by apply HAB].
Qed.

(** The place reached in an ordered tree. *)
Lemma way_down_split x w : ordered_by (elems w) ->
  let k := way_down (fun y => key x <? key y) w [] in
  Forall (fun y => key y <= key x) (before k) /\ Forall (fun y => key x < key y) (after k).
Proof.
  intros Ho k. destruct (way_down_sides (fun y => key x <? key y) w []) as [Hb Ha]; [|constructor..|].
  - unfold ordered_by in Ho. induction Ho as [|y l Hl IH HF]; constructor; [done|].
    eapply Forall_impl; [exact HF|]. simpl. intros z Hz. rewrite !Z.ltb_lt. lia.
  - split; (eapply Forall_impl; [eassumption|]); simpl; intros z; [rewrite Z.ltb_ge|rewrite Z.ltb_lt]; done.
Qed.

Lemma way_down_insert x w : ordered_by (elems w) ->
  let k := way_down (fun y => key x <? key y) w [] in before k ++ x :: after k = insert_by x (elems w).
Proof.
  intros Ho k. destruct (way_down_split x w Ho) as [Hb Ha]. fold k in Hb, Ha.
  rewrite <- (insert_by_app x _ _ Hb Ha). f_equal. pose proof (plug_way_down (fun y => key x <? key y) w []) as Hp.
  fold k in Hp. cbn [plug] in Hp. rewrite <- Hp, elems_plug. done.
Qed.
End Order.

(** The side of the innermost frame, the left one in none. *)
Definition last_side (k : list frame) : side := match k with [] => Left | F s _ _ _ :: _ => s end.

Lemma last_side_on k : on_side k (last_side k).
Proof. by destruct k as [|[s c x o] k]. Qed.
