(* ===== verification/TimerQueue.v ===== *)
(** * Timer queues (lib/timerqueue.c, include/linux/timerqueue.h)

    A red-black tree of timers ordered by expiry, with a pointer to the first.  A
    [struct timerqueue_node] starts with its [rb_node], so the two have the same
    address; [expires] is the [tv64] of the timer at an address.  The queue is a
    priority queue in which timers that expire at the same time leave in the order
    they came. *)
From Stdlib Require Import ZArith Lia Bool Sorted.
From stdpp Require Import base numbers list gmap.
From S2P Require Import Prelude RBTree RBTreeShape RBTreeRep RBTreeAugment RBTreeInsert RBTreeErase RBTreeRemove RBTreeCallbacks RBTreeWalk RBTreeProps RBTreeExamples RBTreeSearch.

Section TimerQueue.
(** [expires.tv64] of the timers. *)
Variable expires : Z -> Z.

(** The nodes and [head->head], and [head->next]. *)
Record timerqueue_head := mk_queue { tq_tree : rb_state unit; tq_next : Z }.

Definition timerqueue_init_head (q : timerqueue_head) : timerqueue_head :=
  mk_queue (set_root (tq_tree q) 0) 0.

Definition timerqueue_init (q : timerqueue_head) (node : Z) : outcome timerqueue_head :=
  let* t := RB_CLEAR_NODE (tq_tree q) node in Ret (mk_queue t (tq_next q)).

Definition timerqueue_getnext (q : timerqueue_head) : Z := tq_next q.

(** [while ( *p )]: [p] points to [cur], the child of [parent] on side [s] or the
    root. *)
Fixpoint timerqueue_place (fuel : nat) (t : rb_state unit) (node cur parent : Z) (s : side) : outcome (Z * side) :=
  match fuel with
  | O => Fuel
  | S fuel' =>
      if negb (cur =? 0) then
        let parent := cur in
        let s := if expires node <? expires parent then Left else Right in
        let* cur := get_child s t parent in
        timerqueue_place fuel' t node cur parent s
      else Ret (parent, s)
  end.

(** [WARN_ON_ONCE] only reports, after reading the node. *)
Definition timerqueue_add (q : timerqueue_head) (node : Z) : outcome (timerqueue_head * bool) :=
  let t := tq_tree q in
  let* _ := RB_EMPTY_NODE t node in
  let* (parent, s) := timerqueue_place (S (size (rb_nodes t))) t node (rb_root t) 0 Left in
  let* t := rb_link_node t node parent s in
  let* t := rb_insert_color t node in
  if (tq_next q =? 0) || (expires node <? expires (tq_next q)) then Ret (mk_queue t node, true)
  else Ret (mk_queue t (tq_next q), false).

Definition timerqueue_del (q : timerqueue_head) (node : Z) : outcome (timerqueue_head * bool) :=
  let t := tq_tree q in
  let* _ := RB_EMPTY_NODE t node in
  let* next := if tq_next q =? node then rb_next t node else Ret (tq_next q) in
  let* t := rb_erase t node in
  let* t := RB_CLEAR_NODE t node in
  Ret (mk_queue t next, negb (next =? 0)).

Definition timerqueue_iterate_next (q : timerqueue_head) (node : Z) : outcome Z :=
  if node =? 0 then Ret 0
  else
    let* next := rb_next (tq_tree q) node in
    if next =? 0 then Ret 0 else Ret next.

(** ** The queue as a sequence *)

(** The timers [l], ordered by expiry, and the pointer to the first. *)
Definition queue (l : list Z) (q : timerqueue_head) : Prop :=
  (exists R, rb_tree R l (tq_tree q)) /\ ordered_by expires l /\ tq_next q = end_of Left l.

Lemma timerqueue_place_spec R L h r d node fuel : forall w k,
  own R L h -> cells w (above k) ⊆+ L -> (length (elems w) < fuel)%nat ->
  let k' := way_down (fun y => expires node <? expires y) w k in
  timerqueue_place fuel (mk_rb h r d) node (ptr w) (above k) (last_side k) = Ret (above k', last_side k').
Proof.
  induction fuel as [|fuel IH]; intros w k Ho Hs Hf; [lia|]. destruct w as [|c a y b]; [done|].
  cbn [timerqueue_place ptr way_down cells elems] in *. rewrite length_app in Hf. simpl in Hf.
  assert (Hy : (y, mk_node (pack (above k) c) (ptr b) (ptr a)) ∈ L) by exact (elem_of_submseteq _ _ _ (list_elem_of_here _ _) Hs).
  assert (Hv : valid y) by (eapply own_valid; [exact Ho|]; by apply (list_elem_of_fmap_2 fst) in Hy).
  rewrite (proj2 (Z.eqb_neq y 0)) by by apply valid_neq0. cbn [negb].
  rewrite (cell_children R h r d L y _ _ Ho Hy).
  destruct (expires node <? expires y); cbn [obind child_of rb_left rb_right].
  - apply (IH a (F Left c y b :: k)); [done|etrans; [|exact Hs]; cbn [above]; solve_submseteq|lia].
  - apply (IH b (F Right c y a :: k)); [done|etrans; [|exact Hs]; cbn [above]; solve_submseteq|lia].
Qed.

Lemma timerqueue_add_spec l q x : queue l q -> fresh (tq_tree q) l x ->
  runs (timerqueue_add q x) (fun '(q', b) => queue (insert_by expires x l) q'
    /\ b = bool_decide (head (insert_by expires x l) = Some x)).
Proof.
  destruct q as [[h r d] next]. intros [(R & w & Ho & Hr & Hb & He) [Hord Hnext]] Hf. cbn [tq_tree tq_next rb_nodes rb_root] in *.
  pose proof (own_size _ _ _ Ho) as Hsz. rewrite <- (length_fmap fst), cells_keys in Hsz.
  destruct (own_fresh R (mk_rb h r d) l x w Ho He Hf) as [n Hn]. destruct Hf as (_ & Hx & [n' Hn']).
  unfold timerqueue_add. cbn [tq_tree tq_next rb_nodes rb_root]. apply runs_bind. unfold RB_EMPTY_NODE, get_pc, get at 1.
  cbn [rb_nodes] in *. rewrite Hn'. cbn [obind]. apply runs_ret. subst r.
  set (k := way_down (fun y => expires x <? expires y) w []).
  assert (Hk : plug k E = w) by (apply (plug_way_down _ w [])).
  assert (Hseq : before k ++ x :: after k = insert_by expires x l) by (unfold k; rewrite way_down_insert, He by (by rewrite He); done).
  apply runs_bind. rewrite (timerqueue_place_spec R _ h (ptr w) d x (S (size h)) w [] Ho); [|reflexivity|lia].
  fold k. apply runs_ret. rewrite <- Hk in Hn, Hb.
  pose proof (insert_at (cb := dummy_callbacks) R (mk_rb h (ptr w) d) k x n (last_side k)) as Hi.
  cbn [rb_nodes rb_root] in Hi. specialize (Hi Hn ltac:(by rewrite Hk) Hb (last_side_on k) (dummy_fitting _ _)). rewrite Hseq in Hi.
  destruct Hi as (t2 & Hrun & Ht2%rebalanced_rb_tree). apply obind_Ret in Hrun as (t1 & Hlink & Hins).
  apply runs_bind. rewrite Hlink. apply runs_ret. apply runs_bind. 
  change (rb_insert_color t1 x = Ret t2) in Hins. rewrite Hins. apply runs_ret.
  assert (Hq : forall z, z = end_of Left (insert_by expires x l) -> queue (insert_by expires x l) (mk_queue t2 z)).
  { intros z ->. split_and!; [by exists R|by apply insert_by_ordered|done]. }
  destruct l as [|y l'].
  { change (end_of Left []) with 0 in Hnext. subst next. cbn [Z.eqb orb]. apply runs_ret. split; [by apply Hq|by rewrite bool_decide_true]. }
  assert (Hy : y <> 0).
  { apply valid_neq0. eapply own_valid; [exact Ho|]. rewrite cells_keys, He. apply list_elem_of_here. }
  change (end_of Left (y :: l')) with y in Hnext. subst next. rewrite (proj2 (Z.eqb_neq y 0)) by done.
  cbn [orb insert_by] in *. destruct (expires x <? expires y); apply runs_ret; (split; [by apply Hq|]).
  - by rewrite bool_decide_true.
  - rewrite bool_decide_false; [done|]. cbn [head]. intros [= ->]. apply Hx, list_elem_of_here.
Qed.

Lemma timerqueue_del_spec l q x : queue l q -> x ∈ l ->
  runs (timerqueue_del q x) (fun '(q', b) => queue (remove_elem x l) q'
    /\ b = negb (bool_decide (remove_elem x l = [])) /\ RB_EMPTY_NODE (tq_tree q') x = Ret true).
Proof.
  intros [(R & Ht) [Hord Hnext]] Hx. destruct (rb_walk_spec R l _ Ht) as (_ & _ & Hwalk).
  destruct (rb_tree_at R l _ x Ht Hx) as (k & c & a & b & Ho & Hr & Hb & Hl & HxA & HxB).
  set (A := before k ++ elems a) in *. set (B := elems b ++ after k) in *.
  assert (Hrem : remove_elem x l = A ++ B) by (rewrite Hl; by apply remove_elem_app).
  destruct q as [t next]. cbn [tq_tree tq_next] in *. unfold timerqueue_del. cbn [tq_tree tq_next].
  assert (Hempty : runs (RB_EMPTY_NODE t x) (fun _ => True)).
  { unfold RB_EMPTY_NODE, get_pc, get. rewrite (own_lookup _ _ _ x (mk_node (pack (above k) c) (ptr b) (ptr a)) Ho)
      by (rewrite cells_plug; apply list_elem_of_here). by eexists. }
  apply runs_bind. eapply runs_mono; [exact Hempty|]. intros _ _. clear Hempty. apply runs_bind.
  apply runs_mono with (fun v => v = end_of Left (A ++ B)).
  { destruct (Hwalk A x B Hl) as [Hn _]. subst next l. destruct A as [|y A'].
    - change (end_of Left ([] ++ x :: B)) with x. rewrite Z.eqb_refl, Hn. by apply runs_ret.
    - change (end_of Left ((y :: A') ++ x :: B)) with y. rewrite (proj2 (Z.eqb_neq y x)) by set_solver. by apply runs_ret. }
  intros v ->. rewrite Hrem. apply runs_bind.
  eapply runs_mono; [eapply (erase_at (cb := dummy_callbacks) R t k c a x b); [split; [done|by rewrite top_plug|apply dummy_fitting]|done]|].
  intros t1 (n & w & [How Hrw _] & Hbw & Hew). rewrite app_assoc in Hew. fold A in Hew.
  change (elems w = A ++ B) in Hew.
  assert (Hxw : x ∉ (cells w 0).*1) by (rewrite cells_keys, Hew, elem_of_app; tauto).
  assert (Hx1 : rb_nodes t1 !! x = Some n) by (rewrite (own_outside _ _ _ _ How Hxw); apply lookup_insert_eq).
  unfold RB_CLEAR_NODE, set_pc, put, get at 1. rewrite Hx1. cbn [obind]. unfold get. rewrite Hx1. cbn [obind].
  apply runs_ret. split_and!.
  - split_and!; [|rewrite Hl in Hord; apply ordered_by_app in Hord as (HA & HB & HAB)|done].
    + eexists. exists w. cbn [tq_tree rb_nodes rb_root]. split_and!; [by apply own_insert_outside|done|done|done].
    + apply ordered_by_app. inversion_clear HB as [|? ? HB' HF]. split_and!; [done|done|]. intros y z Hy Hz. apply HAB; [done|]. by apply list_elem_of_further.
  - destruct (A ++ B) as [|y l']; [done|]. change (end_of Left (y :: l')) with y. rewrite (proj2 (Z.eqb_neq y 0)); [done|].
    apply valid_neq0. eapply own_valid; [exact How|]. rewrite cells_keys, Hew. apply list_elem_of_here.
  - unfold RB_EMPTY_NODE, get_pc, get. cbn [tq_tree rb_nodes]. rewrite lookup_insert_eq. cbn [obind rb_parent_color]. by rewrite Z.eqb_refl.
Qed.

(** ** Sequences of calls *)
Inductive tq_op := Add (x : Z) | Del (x : Z).

Definition run_tq (q : timerqueue_head) (o : tq_op) : outcome (timerqueue_head * bool) :=
  match o with Add x => timerqueue_add q x | Del x => timerqueue_del q x end.

Fixpoint run_tqs (q : timerqueue_head) (os : list tq_op) : outcome (timerqueue_head * list bool) :=
  match os with
  | [] => Ret (q, [])
  | o :: os =>
      let* (q, b) := run_tq q o in
      let* (q, bs) := run_tqs q os in
      Ret (q, b :: bs)
  end.

(** The priority queue: the timers in the order they leave, and what a call returns. *)
Definition pq_step (l : list Z) (o : tq_op) : list Z :=
  match o with Add x => insert_by expires x l | Del x => remove_elem x l end.

Definition pq_result (l : list Z) (o : tq_op) : bool :=
  match o with
  | Add x => bool_decide (head (pq_step l o) = Some x)
  | Del x => negb (bool_decide (pq_step l o = []))
  end.

Fixpoint pq_results (l : list Z) (os : list tq_op) : list bool :=
  match os with [] => [] | o :: os => pq_result l o :: pq_results (pq_step l o) os end.

(** A timer is added when it is not queued, and deleted when it is. *)
Fixpoint tq_allowed (q : timerqueue_head) (l : list Z) (os : list tq_op) : Prop :=
  match os with
  | [] => True
  | o :: os =>
      match o with Add x => fresh (tq_tree q) l x | Del x => x ∈ l end
      /\ match run_tq q o with Ret (q', _) => tq_allowed q' (pq_step l o) os | _ => True end
  end.

Lemma run_tqs_spec l q os : queue l q -> tq_allowed q l os ->
  runs (run_tqs q os) (fun '(q', bs) => queue (foldl pq_step l os) q' /\ bs = pq_results l os).
Proof.
  revert l q; induction os as [|o os IH]; intros l q Hq Ha; [by apply runs_ret|].
  destruct Ha as [Ho Hos]. cbn [run_tqs foldl pq_results].
  assert (Hop : runs (run_tq q o) (fun '(q', b) => queue (pq_step l o) q' /\ b = pq_result l o)).
  { destruct o as [x|x]; [by apply timerqueue_add_spec|].
    eapply runs_mono; [by apply timerqueue_del_spec|]. intros [q' b] (H1 & H2 & _). done. }
  destruct Hop as ([q1 b] & Hrun & Hq1 & ->). rewrite Hrun in Hos |- *. apply runs_bind, runs_ret, runs_bind.
  eapply runs_mono; [exact (IH _ q1 Hq1 Hos)|]. intros [q' bs] [Hq' ->]. by apply runs_ret.
Qed.

(** C40: from an ordered queue, every sequence of timerqueue_add of timers that are not
    queued and timerqueue_del of timers that are returns, with the results and the
    contents of a priority queue in which timers with the same expiry keep the order
    they came in; timerqueue_getnext is its first timer, so none expires earlier, and
    timerqueue_iterate_next walks the timers in that order. *)
Theorem timerqueue_is_priority_queue l q os : queue l q -> tq_allowed q l os ->
  let l' := foldl pq_step l os in
  exists q', run_tqs q os = Ret (q', pq_results l os)
    /\ ordered_by expires l' /\ timerqueue_getnext q' = end_of Left l'
    /\ (forall x, x ∈ l' -> expires (timerqueue_getnext q') <= expires x)
    /\ forall A x B, l' = A ++ x :: B -> timerqueue_iterate_next q' x = Ret (end_of Left B).
Proof.
  intros Hq Ha l'. destruct (run_tqs_spec l q os Hq Ha) as ([q' bs] & Hrun & [(R & Ht) [Hord Hnext]] & ->). fold l' in Ht, Hord, Hnext.
  exists q'. split_and!; [done|done|done| |].
  - intros x Hx. unfold timerqueue_getnext. rewrite Hnext. destruct l' as [|y l'']; [by apply elem_of_nil in Hx|].
    apply elem_of_cons in Hx as [->|Hx]; [done|]. inversion_clear Hord as [|? ? _ HF]. rewrite Forall_forall in HF. by apply HF.
  - intros A x B Hl. destruct (rb_walk_spec R l' _ Ht) as (_ & _ & Hw). destruct (Hw A x B Hl) as [Hn _].
    assert (Hx : x <> 0).
    { destruct Ht as (w & Ho & _ & _ & He). apply valid_neq0. eapply own_valid; [exact Ho|]. rewrite cells_keys, He, Hl. set_solver. }
    unfold timerqueue_iterate_next. rewrite (proj2 (Z.eqb_neq x 0)), Hn by done. cbn [obind]. by destruct (Z.eqb_spec (end_of Left B) 0) as [->|].
Qed.
End TimerQueue.

(** The caller's obligations, decided. *)
Fixpoint tq_allowedb (expires : Z -> Z) (q : timerqueue_head) (l : list Z) (os : list tq_op) : bool :=
  match os with
  | [] => true
  | o :: os =>
      match o with Add x => freshb (tq_tree q) l x | Del x => bool_decide (x ∈ l) end
      && match run_tq expires q o with Ret (q', _) => tq_allowedb expires q' (pq_step expires l o) os | _ => true end
  end.

Lemma tq_allowedb_allowed expires q l os : tq_allowedb expires q l os = true -> tq_allowed expires q l os.
Proof.
  revert q l; induction os as [|o os IH]; intros q l; simpl; [done|]. rewrite andb_true_iff. intros [Ho Hos]. split.
  - destruct o; [by apply freshb_fresh|by apply bool_decide_eq_true in Ho].
  - destruct (run_tq expires q o) as [[q' b]| | |]; auto.
Qed.

(** Three timers, two of them due at the same time, and a deletion. *)
Definition example_expires (x : Z) : Z := if x =? 16 then 50 else 30.
Definition example_queue : timerqueue_head :=
  mk_queue (mk_rb (list_to_map ((fun x => (x, mk_node x 0 0)) <$> [16; 32; 48])) 0 tt) 0.

Lemma timerqueue_is_priority_queue_witness :
  tq_allowed example_expires example_queue [] [Add 16; Add 32; Add 48; Del 32]
  /\ exists q', run_tqs example_expires example_queue [Add 16; Add 32; Add 48; Del 32] = Ret (q', [true; true; false; true])
    /\ timerqueue_getnext q' = 48 /\ timerqueue_iterate_next q' 48 = Ret 16.
Proof.
  assert (Hq : queue example_expires [] example_queue).
  { split; [|split; [constructor|reflexivity]]. exists (rb_nodes (tq_tree example_queue)), E.
    split; [|split; [reflexivity|split; [split; [reflexivity|exists O; reflexivity]|reflexivity]]].
    split; [constructor|constructor|symmetry; exact (left_id_L ∅ (∪) _)]. }
  assert (Ha : tq_allowed example_expires example_queue [] [Add 16; Add 32; Add 48; Del 32])
    by (apply tq_allowedb_allowed; vm_compute; reflexivity).
  split; [exact Ha|].
  destruct (timerqueue_is_priority_queue example_expires _ _ _ Hq Ha) as (q' & Hrun & _ & Hnext & _ & Hit).
  exists q'. split; [exact Hrun|]. split; [exact Hnext|]. exact (Hit [] 48 [16] eq_refl).
Defined.
