(* ===== verification/VmArea.v ===== *)
(** * Mapped areas (include/linux/mm_types.h, include/linux/mm.h)

    A [vm_area_struct] is known by the address of its tree node; the node itself and
    the field the tree is augmented with are in the state of the tree. *)
From Stdlib Require Import ZArith Lia Bool.
From stdpp Require Import base numbers.
From S2P Require Import Prelude.

(** [chain_singular] is [list_is_singular(&vma->anon_vma_chain)] and [vm_close] whether
    [vma->vm_ops && vma->vm_ops->close]; pointers are addresses. *)
Record vm_area_struct := mk_vma {
  vm_start : Z; vm_end : Z; vm_next : Z; vm_prev : Z; vm_mm : Z; vm_flags : Z; anon_name : Z; chain_singular : bool;
  anon_vma : Z; vm_close : bool; vm_pgoff : Z; vm_file : Z
}.

Definition set_vm_start (v : vm_area_struct) (x : Z) : vm_area_struct :=
  mk_vma x (vm_end v) (vm_next v) (vm_prev v) (vm_mm v) (vm_flags v) (anon_name v) (chain_singular v) (anon_vma v) (vm_close v) (vm_pgoff v) (vm_file v).
Definition set_vm_end (v : vm_area_struct) (x : Z) : vm_area_struct :=
  mk_vma (vm_start v) x (vm_next v) (vm_prev v) (vm_mm v) (vm_flags v) (anon_name v) (chain_singular v) (anon_vma v) (vm_close v) (vm_pgoff v) (vm_file v).
Definition set_vm_next (v : vm_area_struct) (x : Z) : vm_area_struct :=
  mk_vma (vm_start v) (vm_end v) x (vm_prev v) (vm_mm v) (vm_flags v) (anon_name v) (chain_singular v) (anon_vma v) (vm_close v) (vm_pgoff v) (vm_file v).
Definition set_vm_prev (v : vm_area_struct) (x : Z) : vm_area_struct :=
  mk_vma (vm_start v) (vm_end v) (vm_next v) x (vm_mm v) (vm_flags v) (anon_name v) (chain_singular v) (anon_vma v) (vm_close v) (vm_pgoff v) (vm_file v).
Definition set_vm_pgoff (v : vm_area_struct) (x : Z) : vm_area_struct :=
  mk_vma (vm_start v) (vm_end v) (vm_next v) (vm_prev v) (vm_mm v) (vm_flags v) (anon_name v) (chain_singular v) (anon_vma v) (vm_close v) x (vm_file v).
Definition set_anon_vma (v : vm_area_struct) (x : Z) : vm_area_struct :=
  mk_vma (vm_start v) (vm_end v) (vm_next v) (vm_prev v) (vm_mm v) (vm_flags v) (anon_name v) (chain_singular v) x (vm_close v) (vm_pgoff v) (vm_file v).
Definition set_chain_singular (v : vm_area_struct) (x : bool) : vm_area_struct :=
  mk_vma (vm_start v) (vm_end v) (vm_next v) (vm_prev v) (vm_mm v) (vm_flags v) (anon_name v) x (anon_vma v) (vm_close v) (vm_pgoff v) (vm_file v).

Definition VM_GROWSDOWN : Z := 256.

(** [VM_NONE]: no area grows upwards on this architecture. *)
Definition VM_GROWSUP : Z := 0.

(** The value [stack_guard_gap] has unless the command line sets it. *)
Definition default_stack_guard_gap : Z := Z.shiftl 256 PAGE_SHIFT.

Section Gaps.
Variable stack_guard_gap : Z.

Definition vm_start_gap (vma : vm_area_struct) : Z :=
  let start := vm_start vma in
  if negb (Z.land (vm_flags vma) VM_GROWSDOWN =? 0) then
    let start := u32 (start - stack_guard_gap) in
    if vm_start vma <? start then 0 else start
  else start.

Definition vm_end_gap (vma : vm_area_struct) : Z :=
  let end_ := vm_end vma in
  if negb (Z.land (vm_flags vma) VM_GROWSUP =? 0) then
    let end_ := u32 (end_ + stack_guard_gap) in
    if end_ <? vm_end vma then u32 (- PAGE_SIZE) else end_
  else end_.

(** An area that grows downwards keeps the guard gap, or what there is of it. *)
Lemma vm_start_gap_spec v : 0 <= vm_start v < 2 ^ 32 -> 0 <= stack_guard_gap < 2 ^ 32 ->
  vm_start_gap v = if Z.land (vm_flags v) VM_GROWSDOWN =? 0 then vm_start v else Z.max 0 (vm_start v - stack_guard_gap).
Proof.
  intros Hs Hg. unfold vm_start_gap. destruct (_ =? 0); cbn [negb]; [done|]. unfold wrap.
  destruct (Z.le_gt_cases stack_guard_gap (vm_start v)).
  - rewrite Z.mod_small by lia. destruct (Z.ltb_spec (vm_start v) (vm_start v - stack_guard_gap)); lia.
  - rewrite <- (Z.mod_add _ 1), Z.mod_small by lia. destruct (Z.ltb_spec (vm_start v) (vm_start v - stack_guard_gap + 1 * 2 ^ 32)); lia.
Qed.

Lemma vm_end_gap_spec v : vm_end_gap v = vm_end v.
Proof. unfold vm_end_gap, VM_GROWSUP. by rewrite Z.land_0_r. Qed.

Lemma vm_start_gap_bounds v : 0 <= vm_start v < 2 ^ 32 -> 0 <= stack_guard_gap < 2 ^ 32 -> 0 <= vm_start_gap v <= vm_start v.
Proof. intros Hs Hg. rewrite vm_start_gap_spec by done. destruct (_ =? 0); lia. Qed.
End Gaps.
