(* ===== verification/IntervalTree.v ===== *)
(** * Interval trees (include/linux/interval_tree_generic.h, mm/interval_tree.c)

    [INTERVAL_TREE_DEFINE] makes an augmented red-black tree of intervals ordered by
    their start, in which each node has the last point of its subtree.  The
    arguments [ITSTART] and [ITLAST] are functions of an entry, which is known by the
    address of its [rb_node]; the [ITSUBTREE] fields are the data the tree's callbacks
    work on.  mm/interval_tree.c uses the template for the mappings of a file and for
    anonymous memory.  [VM_BUG_ON_VMA] and the checks of CONFIG_DEBUG_VM_RB are not
    compiled in the configuration. *)
From Stdlib Require Import ZArith Lia Bool.
From stdpp Require Import base numbers list gmap.
From S2P Require Import Prelude RBTree VmArea.

(** ** The template *)
Section IntervalTree.
Variables ITSTART ITLAST : Z -> Z.

Abbreviation it_root := (rb_state (gmap Z Z)).

(** [max] raised to the value of a child, if there is one. *)
Definition subtree_max (d : gmap Z Z) (child max : Z) : outcome Z :=
  if negb (child =? 0) then
    let* subtree_last := field d child in
    Ret (if max <? subtree_last then subtree_last else max)
  else Ret max.

Definition compute_subtree_last (h : nodes) (d : gmap Z Z) (node : Z) : outcome Z :=
  let t := mk_rb h 0 d in
  let max := ITLAST node in
  let* l := get_child Left t node in
  let* max := subtree_max d l max in
  let* r := get_child Right t node in
  subtree_max d r max.

Definition augment : rb_augment_callbacks (gmap Z Z) := RB_DECLARE_CALLBACKS compute_subtree_last.

(** [if (parent->ITSUBTREE < last) parent->ITSUBTREE = last;] *)
Definition raise_subtree (t : it_root) (parent last : Z) : outcome it_root :=
  let* v := field (rb_data t) parent in
  Ret (if v <? last then set_data t (<[parent := last]> (rb_data t)) else t).

(** [while ( *link )]: [link] points to [cur], the child of [rb_parent] on side [s]
    or the root. *)
Fixpoint insert_place (fuel : nat) (t : it_root) (start last cur rb_parent : Z) (s : side) : outcome (it_root * Z * side) :=
  match fuel with
  | O => Fuel
  | S fuel' =>
      if negb (cur =? 0) then
        let rb_parent := cur in
        let* t := raise_subtree t rb_parent last in
        let s := if start <? ITSTART rb_parent then Left else Right in
        let* cur := get_child s t rb_parent in
        insert_place fuel' t start last cur rb_parent s
      else Ret (t, rb_parent, s)
  end.

Definition interval_tree_insert (t : it_root) (node : Z) : outcome it_root :=
  let start := ITSTART node in
  let last := ITLAST node in
  let* (t, rb_parent, s) := insert_place (S (size (rb_nodes t))) t start last (rb_root t) 0 Left in
  let t := set_data t (<[node := last]> (rb_data t)) in
  let* t := rb_link_node t node rb_parent s in
  rb_insert_augmented t node augment.

Definition interval_tree_remove (t : it_root) (node : Z) : outcome it_root := rb_erase_augmented t node augment.

(** [start <= child->ITSUBTREE] for a child that may be NULL. *)
Definition reaches (t : it_root) (child start : Z) : outcome bool :=
  if negb (child =? 0) then let* v := field (rb_data t) child in Ret (start <=? v) else Ret false.

Fixpoint subtree_search (fuel : nat) (t : it_root) (node start last : Z) : outcome Z :=
  match fuel with
  | O => Fuel
  | S fuel' =>
      let* l := get_child Left t node in
      let* go := reaches t l start in
      if go : bool then subtree_search fuel' t l start last
      else if ITSTART node <=? last then
        if start <=? ITLAST node then Ret node
        else
          let* r := get_child Right t node in
          let* go := reaches t r start in
          if go : bool then subtree_search fuel' t r start last else Ret 0
      else Ret 0
  end.

Definition interval_tree_iter_first (t : it_root) (start last : Z) : outcome Z :=
  if rb_root t =? 0 then Ret 0
  else
    let node := rb_root t in
    let* v := field (rb_data t) node in
    if v <? start then Ret 0 else subtree_search (S (size (rb_nodes t))) t node start last.

(** [do ... while (prev == rb)]: the node reached and its right child, or none. *)
Fixpoint climb (fuel : nat) (t : it_root) (node : Z) : outcome (option (Z * Z)) :=
  match fuel with
  | O => Fuel
  | S fuel' =>
      let* rb := rb_parent t node in
      if rb =? 0 then Ret None
      else
        let prev := node in
        let node := rb in
        let* rb := get_child Right t node in
        if prev =? rb then climb fuel' t node else Ret (Some (node, rb))
  end.

(** [while (true)] *)
Fixpoint iter_next_loop (fuel : nat) (t : it_root) (node rb start last : Z) : outcome Z :=
  match fuel with
  | O => Fuel
  | S fuel' =>
      let* go := reaches t rb start in
      if go : bool then subtree_search (S (size (rb_nodes t))) t rb start last
      else
        let* up := climb (S (size (rb_nodes t))) t node in
        match up with
        | None => Ret 0
        | Some (node, rb) =>
            if last <? ITSTART node then Ret 0
            else if start <=? ITLAST node then Ret node
            else iter_next_loop fuel' t node rb start last
        end
  end.

Definition interval_tree_iter_next (t : it_root) (node start last : Z) : outcome Z :=
  let* rb := get_child Right t node in
  iter_next_loop (S (size (rb_nodes t))) t node rb start last.

(** [for (node = iter_first (...); node; node = iter_next (node, ...))]: the nodes
    visited. *)
Fixpoint foreach_loop (fuel : nat) (t : it_root) (node start last : Z) : outcome (list Z) :=
  match fuel with
  | O => Fuel
  | S fuel' =>
      if negb (node =? 0) then
        let* next := interval_tree_iter_next t node start last in
        let* l := foreach_loop fuel' t next start last in
        Ret (node :: l)
      else Ret []
  end.

Definition interval_tree_foreach (t : it_root) (start last : Z) : outcome (list Z) :=
  let* node := interval_tree_iter_first t start last in
  foreach_loop (S (size (rb_nodes t))) t node start last.

(** [while (parent->rb_left)]: down the left sides, raising the values. *)
Fixpoint leftmost_raise (fuel : nat) (t : it_root) (parent last : Z) : outcome (it_root * Z) :=
  match fuel with
  | O => Fuel
  | S fuel' =>
      let* l := get_child Left t parent in
      if negb (l =? 0) then
        let parent := l in
        let* t := raise_subtree t parent last in
        leftmost_raise fuel' t parent last
      else Ret (t, parent)
  end.

(** The place behind [prev]. *)
Definition after_place (t : it_root) (prev last : Z) : outcome (it_root * Z * side) :=
  let* r := get_child Right t prev in
  if r =? 0 then Ret (t, prev, Right)
  else
    let parent := r in
    let* t := raise_subtree t parent last in
    let* (t, parent) := leftmost_raise (S (size (rb_nodes t))) t parent last in
    Ret (t, parent, Left).

(** [vma_interval_tree_insert_after], for any kind of entries. *)
Definition interval_tree_insert_after (t : it_root) (node prev : Z) : outcome it_root :=
  let last := ITLAST node in
  let* (t, parent, s) := after_place t prev last in
  let t := set_data t (<[node := last]> (rb_data t)) in
  let* t := rb_link_node t node parent s in
  rb_insert_augmented t node augment.
End IntervalTree.

(** ** The mappings of a file *)

Definition vma_start_pgoff (v : vm_area_struct) : Z := vm_pgoff v.

Definition vma_last_pgoff (v : vm_area_struct) : Z :=
  u32 (vm_pgoff v + Z.shiftr (u32 (vm_end v - vm_start v)) PAGE_SHIFT - 1).

Section VmaTree.
(** The mapping with the [shared.rb] at an address. *)
Variable vma : Z -> vm_area_struct.

Definition vma_interval_tree_insert := interval_tree_insert (fun x => vma_start_pgoff (vma x)) (fun x => vma_last_pgoff (vma x)).
Definition vma_interval_tree_remove := interval_tree_remove (fun x => vma_last_pgoff (vma x)).
Definition vma_interval_tree_iter_first := interval_tree_iter_first (fun x => vma_start_pgoff (vma x)) (fun x => vma_last_pgoff (vma x)).
Definition vma_interval_tree_iter_next := interval_tree_iter_next (fun x => vma_start_pgoff (vma x)) (fun x => vma_last_pgoff (vma x)).
Definition vma_interval_tree_foreach := interval_tree_foreach (fun x => vma_start_pgoff (vma x)) (fun x => vma_last_pgoff (vma x)).
Definition vma_interval_tree_insert_after := interval_tree_insert_after (fun x => vma_last_pgoff (vma x)).
End VmaTree.

(** ** Anonymous memory *)
Section AvcTree.
(** The [avc->vma] of the chain entry with the [rb] at an address. *)
Variable avc_vma : Z -> vm_area_struct.

Definition avc_start_pgoff (avc : Z) : Z := vma_start_pgoff (avc_vma avc).
Definition avc_last_pgoff (avc : Z) : Z := vma_last_pgoff (avc_vma avc).

Definition anon_vma_interval_tree_insert := interval_tree_insert avc_start_pgoff avc_last_pgoff.
Definition anon_vma_interval_tree_remove := interval_tree_remove avc_last_pgoff.
Definition anon_vma_interval_tree_iter_first := interval_tree_iter_first avc_start_pgoff avc_last_pgoff.
Definition anon_vma_interval_tree_iter_next := interval_tree_iter_next avc_start_pgoff avc_last_pgoff.
Definition anon_vma_interval_tree_foreach := interval_tree_foreach avc_start_pgoff avc_last_pgoff.
End AvcTree.
