(* ===== verification/IntervalTreeSpec.v ===== *)
(** * Interval trees keep their order and their subtree maxima *)
From Stdlib Require Import ZArith Lia Bool Sorted.
From stdpp Require Import base numbers list gmap.
From S2P Require Import Prelude RBTree RBTreeShape RBTreeRep RBTreeAugment RBTreeInsert RBTreeErase RBTreeRemove RBTreeCallbacks RBTreeWalk RBTreeProps RBTreeSearch IntervalTree.

Section Spec.
Variables ITSTART ITLAST : Z -> Z.

(** The last point of a node and its subtrees. *)
Definition last_of (x : Z) (a b : option Z) : Z :=
  from_option (Z.max (from_option (Z.max (ITLAST x)) (ITLAST x) a)) (from_option (Z.max (ITLAST x)) (ITLAST x) a) b.

Lemma subtree_max_spec d child max : (child = 0 \/ is_Some (value d child)) ->
  subtree_max d child max = Ret (from_option (Z.max max) max (value d child)).
Proof.
  unfold subtree_max. intros [->|[v Hv]]; [done|]. destruct (value_field _ _ _ Hv) as [Hf Hc].
  rewrite (proj2 (Z.eqb_neq child 0)) by done. cbn [negb]. rewrite Hf, Hv. cbn [obind from_option]. f_equal.
  destruct (Z.ltb_spec max v); lia.
Qed.

Lemma last_computes : computes (compute_subtree_last ITLAST) last_of (fun _ => True).
Proof.
  intros h d x n _ Hn Hl Hr. unfold compute_subtree_last, get_child, get. cbn [rb_nodes]. rewrite Hn.
  cbn [obind child_of]. rewrite subtree_max_spec by done. cbn [obind]. by rewrite subtree_max_spec.
Qed.

Lemma last_rotates : rotates last_of.
Proof. intros x y a b c. unfold last_of. destruct a, b, c; simpl; lia. Qed.

Abbreviation aug := (declared_augment (compute_subtree_last ITLAST) last_of (fun _ => True) last_computes last_rotates).

(** The intervals [l], ordered by start, with right maxima. *)
Definition it_tree (R : nodes) (l : list Z) (t : rb_state (gmap Z Z)) : Prop :=
  rb_tree R l t /\ values_right last_of t l /\ ordered_by ITSTART l.

(** The same by the tree in the state. *)
Lemma it_tree_at R l t : it_tree R l t ->
  exists w, own R (cells w 0) (rb_nodes t) /\ rb_root t = ptr w /\ balanced w /\ elems w = l
    /\ fitting (Augment0 := aug) (rb_data t) w.
Proof.
  intros ((w & Ho & Hr & Hb & He) & Hv & _). exists w. split_and!; try done.
  apply (fitting_values _ _ _ last_computes last_rotates R _ _ (rb_data t) _ 0 Ho ltac:(reflexivity)). split; [done|]. by rewrite He.
Qed.

(** ** Maxima *)

(** The greatest last point of some nodes. *)
Definition is_last (l : list Z) (m : Z) : Prop := (forall z, z ∈ l -> ITLAST z <= m) /\ exists z, z ∈ l /\ ITLAST z = m.

Lemma is_last_app l1 l2 m1 m2 : is_last l1 m1 -> is_last l2 m2 -> is_last (l1 ++ l2) (Z.max m1 m2).
Proof.
  intros [H1 (z1 & Hz1 & E1)] [H2 (z2 & Hz2 & E2)]. split.
  - intros z [Hz|Hz]%elem_of_app; [specialize (H1 z Hz)|specialize (H2 z Hz)]; lia.
  - destruct (Z.max_spec m1 m2) as [[_ ->]|[_ ->]]; [exists z2|exists z1]; rewrite elem_of_app; auto.
Qed.

Lemma is_last_perm l l' m : l ≡ₚ l' -> is_last l m -> is_last l' m.
Proof. intros Hp [H1 (z & Hz & Hm)]. split; [intros y; rewrite <- Hp; apply H1|]. exists z. by rewrite <- Hp. Qed.

Lemma tree_last rbcompute known Hc Hr d w :
  fitting (Augment0 := declared_augment rbcompute last_of known Hc Hr) d w -> w <> E -> exists m, value d (ptr w) = Some m /\ is_last (elems w) m.
Proof.
  induction w as [|c l IHl x r IHr]; intros Hf Hw; [done|]. destruct Hf as ([_ Hx] & Hl & Hrt). clear Hw.
  cbn [ptr elems]. exists (last_of x (value d (ptr l)) (value d (ptr r))). split; [exact Hx|].
  assert (H1 : is_last [x] (ITLAST x)).
  { split; [intros z Hz; apply list_elem_of_singleton in Hz as ->; lia|]. exists x. split; [apply list_elem_of_here|done]. }
  assert (H2 : is_last (x :: elems l) (from_option (Z.max (ITLAST x)) (ITLAST x) (value d (ptr l)))).
  { destruct (decide (l = E)) as [->|Hle]; [exact H1|]. destruct (IHl Hl Hle) as (m & -> & Hm). by apply (is_last_app [x]). }
  unfold last_of. destruct (decide (r = E)) as [->|Hre].
  - eapply is_last_perm; [|exact H2]. simpl. apply Permutation_cons_append.
  - destruct (IHr Hrt Hre) as (m & -> & Hm). eapply is_last_perm; [|exact (is_last_app _ _ _ _ H2 Hm)].
    simpl. apply Permutation_middle.
Qed.

(** ** Searching *)
Definition overlaps (start last z : Z) : Prop := ITSTART z <= last /\ start <= ITLAST z.

#[local] Instance overlaps_dec start last z : Decision (overlaps start last z).
Proof. unfold overlaps. apply _. Defined.

(** The intervals that intersect [start; last], in order. *)
Definition hits (start last : Z) (l : list Z) : list Z := filter (overlaps start last) l.

Lemma hits_app start last A B : hits start last (A ++ B) = hits start last A ++ hits start last B.
Proof. apply filter_app. Qed.

Lemma hits_none start last l : (forall z, z ∈ l -> ~ overlaps start last z) -> hits start last l = [].
Proof. apply filter_none. Qed.

(** When some interval of [A] ends late enough, the first hit of [A ++ B] is that of
    [A]. *)
Lemma hits_early start last A B :
  ordered_by ITSTART (A ++ B) -> (exists z, z ∈ A /\ start <= ITLAST z) ->
  end_of Left (hits start last (A ++ B)) = end_of Left (hits start last A).
Proof.
  intros Ho (z & Hz & Hlate). rewrite hits_app. apply ordered_by_app in Ho as (_ & _ & HAB).
  destruct (hits start last A) as [|y l] eqn:Hh; [|done].
  assert (Hnz : ~ overlaps start last z).
  { intros Hov. assert (Hin : z ∈ hits start last A) by (apply list_elem_of_filter; done). rewrite Hh in Hin. by apply elem_of_nil in Hin. }
  rewrite hits_none; [done|]. intros b Hb [Hb1 _]. specialize (HAB z b Hz Hb). unfold overlaps in Hnz. lia.
Qed.

Section Query.
Context (R : nodes) (h : nodes) (r : Z) (d : gmap Z Z) (start last : Z).
Abbreviation t := (mk_rb h r d).

Lemma reaches_spec w : fitting (Augment0 := aug) d w -> (w <> E -> ptr w <> 0) ->
  exists b : bool, reaches t (ptr w) start = Ret b /\ (b = true <-> exists z, z ∈ elems w /\ start <= ITLAST z).
Proof.
  intros Hf Hp. unfold reaches. destruct (decide (w = E)) as [->|Hw].
  { exists false. split; [done|]. split; [done|]. intros (z & Hz & _). by apply elem_of_nil in Hz. }
  destruct (tree_last _ _ _ _ d w Hf Hw) as (m & Hm & Hall & z & Hz & Hzm). destruct (value_field _ _ _ Hm) as [Hfm _].
  rewrite (proj2 (Z.eqb_neq (ptr w) 0)) by auto. cbn [negb rb_data]. rewrite Hfm. cbn [obind].
  eexists. split; [done|]. rewrite Z.leb_le. split; [intros Hs; exists z; split; [done|lia]|].
  intros (y & Hy & Hs). specialize (Hall y Hy). lia.
Qed.

Lemma subtree_search_spec L fuel : forall w p, own R L h -> cells w p ⊆+ L -> fitting (Augment0 := aug) d w ->
  ordered_by ITSTART (elems w) -> (exists z, z ∈ elems w /\ start <= ITLAST z) -> (length (elems w) <= fuel)%nat ->
  subtree_search ITSTART ITLAST fuel t (ptr w) start last = Ret (end_of Left (hits start last (elems w))).
Proof.
  induction fuel as [|fuel IH]; intros w p Ho Hs Hf Hord Hex Hfuel; (destruct w as [|c a x b]; [by destruct Hex as (z & Hz%elem_of_nil & _)|]).
  { simpl in Hfuel. rewrite length_app in Hfuel. simpl in Hfuel. lia. }
  cbn [subtree_search ptr cells elems] in *. simpl in Hfuel. rewrite length_app in Hfuel. simpl in Hfuel.
  assert (Hx : (x, mk_node (pack p c) (ptr b) (ptr a)) ∈ L) by exact (elem_of_submseteq _ _ _ (list_elem_of_here _ _) Hs).
  assert (Hsa : cells a x ⊆+ L) by (etrans; [|exact Hs]; solve_submseteq).
  assert (Hsb : cells b x ⊆+ L) by (etrans; [|exact Hs]; solve_submseteq).
  destruct Hf as (_ & Hfa & Hfb). rewrite !(cell_children R h r d L x _ _ Ho Hx). cbn [obind child_of rb_left rb_right].
  destruct (reaches_spec a Hfa (own_ptr_neq0 R L h a x Ho Hsa)) as (ba & -> & Hba). cbn [obind].
  destruct (reaches_spec b Hfb (own_ptr_neq0 R L h b x Ho Hsb)) as (bb & -> & Hbb). cbn [obind].
  destruct ba.
  { pose proof (proj1 Hba eq_refl) as Hexa. rewrite hits_early by done. apply ordered_by_app in Hord as (Hoa & _).
    apply (IH a x); try done. lia. }
  rewrite hits_app, (hits_none _ _ (elems a)); [|intros z Hz [_ Hz2]; assert (false = true) by (apply Hba; eauto); done].
  apply ordered_by_app in Hord as (_ & Hox & _). cbn [app]. unfold hits. rewrite filter_cons. fold (hits start last (elems b)).
  inversion_clear Hox as [|? ? Hob HF]. rewrite Forall_forall in HF.
  destruct (Z.leb_spec (ITSTART x) last) as [H1|H1].
  - destruct (Z.leb_spec start (ITLAST x)) as [H2|H2]; [by rewrite decide_True|].
    rewrite decide_False by (intros [_ ?]; lia). destruct bb.
    + apply (IH b x); try done; [by apply Hbb|lia].
    + rewrite hits_none; [done|]. intros z Hz [_ Hz2]. assert (false = true) by (apply Hbb; eauto). done.
  - rewrite decide_False by (intros [? _]; lia). rewrite hits_none; [done|].
    intros z Hz [Hz1 _]. specialize (HF z Hz). lia.
Qed.

(** Going up to the first node that is reached from its left child. *)
Lemma climb_spec L k : forall w fuel, own R L h -> cells w (above k) ++ kcells k (ptr w) ⊆+ L -> w <> E -> (length k < fuel)%nat ->
  (after k = [] /\ climb fuel t (ptr w) = Ret None)
  \/ exists k1 c p w' o, plug k w = plug k1 (T c w' p o) /\ after k = p :: elems o ++ after k1 /\ (length k1 < length k)%nat
     /\ climb fuel t (ptr w) = Ret (Some (p, ptr o)).
Proof.
  induction k as [|[s c p o] k IH]; intros w fuel Ho Hs Hw Hfuel; (destruct fuel as [|fuel]; [simpl in Hfuel; lia|]).
  - left. split; [done|]. destruct w as [|cw a x b]; [done|]. cbn [climb ptr]. unfold RBTree.rb_parent, get_pc, get. cbn [rb_nodes].
    rewrite (own_lookup R L h x (mk_node (pack 0 cw) (ptr b) (ptr a)) Ho) by (eapply elem_of_submseteq; [|exact Hs]; apply list_elem_of_here).
    cbn [obind rb_parent_color]. by rewrite parent_pack by by left.
  - assert (Hp : valid p) by (eapply (up_valid R L h (F s c p o :: k) (ptr w)); [done| |done]; etrans; [|exact Hs]; solve_submseteq).
    assert (Hx : exists cw n, h !! ptr w = Some n /\ rb_parent_color n = pack p cw).
    { destruct w as [|cw a x b]; [done|]. exists cw. eexists. split; [eapply own_lookup; [exact Ho|]; eapply elem_of_submseteq; [|exact Hs]; apply list_elem_of_here|done]. }
    destruct Hx as (cw & n & Hn & Hpc). cbn [climb]. unfold RBTree.rb_parent, get_pc, get. cbn [rb_nodes].
    rewrite Hn. cbn [obind]. rewrite Hpc, parent_pack by by right. rewrite (proj2 (Z.eqb_neq p 0)) by by apply valid_neq0.
    rewrite (cell_children R h r d L p (side_node s (pack (above k) c) (ptr w) (ptr o))); [|done|].
    2:{ eapply elem_of_submseteq; [|exact Hs]. rewrite elem_of_app. right. apply list_elem_of_here. }
    cbn [obind]. destruct s; cbn [side_node child_of rb_right].
    + assert (ptr w <> ptr o).
      { destruct w as [|cw' a x b]; [done|]. cbn [ptr]. eapply (own_ptr_ne R L h x _ o p Ho). etrans; [|exact Hs]. cbn [cells kcells above]. solve_submseteq. }
      rewrite (proj2 (Z.eqb_neq _ _)) by done. right. exists k, c, p, w, o. split_and!; try done. simpl. lia.
    + rewrite Z.eqb_refl. destruct (IH (node Right c w p o) fuel Ho) as [[Ha Hc]|(k1 & c1 & p1 & w1 & o1 & H1 & H2 & H3 & H4)].
      * etrans; [|exact Hs]. rewrite cells_node, ptr_node. cbn [kcells above]. solve_submseteq.
      * done.
      * simpl in Hfuel. lia.
      * left. done.
      * right. exists k1, c1, p1, w1, o1. split_and!; try done. simpl. lia.
Qed.

Lemma iter_next_loop_spec fuel : forall k c a x b w, plug k (T c a x b) = w ->
  own R (cells w 0) h -> fitting (Augment0 := aug) d w -> ordered_by ITSTART (elems w) -> (length k < fuel)%nat ->
  iter_next_loop ITSTART ITLAST fuel t x (ptr b) start last = Ret (end_of Left (hits start last (elems b ++ after k))).
Proof.
  induction fuel as [|fuel IH]; intros k c a x b w Hw Ho Hf Hord Hfuel; [lia|].
  pose proof (own_size _ _ _ Ho) as Hsz. rewrite <- (length_fmap fst), cells_keys in Hsz.
  assert (Hob : ordered_by ITSTART (elems b ++ after k)).
  { rewrite <- Hw, elems_plug in Hord. simpl in Hord. rewrite <- app_assoc in Hord. apply ordered_by_app in Hord as (_ & Hord & _).
    apply ordered_by_app in Hord as (_ & Hord & _). simpl in Hord. by inversion_clear Hord. }
  assert (Hsub : cells b x ⊆+ cells w 0) by (rewrite <- Hw, cells_plug; cbn [cells]; solve_submseteq).
  assert (Hfb : fitting (Augment0 := aug) d b) by (rewrite <- Hw in Hf; apply fitting_plug in Hf as [(_ & _ & Hf) _]; done).
  cbn [iter_next_loop]. destruct (reaches_spec b Hfb (own_ptr_neq0 R _ h b x Ho Hsub)) as (bb & -> & Hbb). cbn [obind].
  destruct bb.
  { pose proof (proj1 Hbb eq_refl) as Hex. rewrite hits_early by done. apply ordered_by_app in Hob as (Hob & _).
    apply (subtree_search_spec _ _ b x Ho Hsub); try done. cbn [rb_nodes].
    rewrite <- Hw, elems_plug in Hsz. simpl in Hsz. rewrite !length_app in Hsz. simpl in Hsz. lia. }
  rewrite hits_app, (hits_none _ _ (elems b)) by (intros z Hz [_ Hz2]; assert (false = true) by (apply Hbb; eauto); done).
  cbn [app rb_nodes]. apply ordered_by_app in Hob as (_ & Hoa & _).
  pose proof (length_context k (T c a x b)) as Hlen. rewrite Hw in Hlen.
  destruct (climb_spec _ k (T c a x b) (S (size h)) Ho) as [[Ha Hc]|(k1 & c1 & p & w1 & o & H1 & H2 & H3 & H4)];
    [rewrite <- Hw, cells_plug; done|done|lia| |].
  - cbn [ptr] in Hc. rewrite Hc. cbn [obind]. by rewrite Ha.
  - cbn [ptr] in H4. rewrite H4, H2. cbn [obind]. rewrite H2 in Hoa. inversion_clear Hoa as [|? ? Ho1 HF]. rewrite Forall_forall in HF.
    unfold hits. rewrite filter_cons. fold (hits start last (elems o ++ after k1)).
    destruct (Z.ltb_spec last (ITSTART p)) as [Hlt|Hge].
    { rewrite decide_False by (intros [? _]; lia). rewrite hits_none; [done|]. intros z Hz [Hz1 _]. specialize (HF z Hz). lia. }
    destruct (Z.leb_spec start (ITLAST p)) as [Hle|Hgt]; [by rewrite decide_True|].
    rewrite decide_False by (intros [_ ?]; lia). apply (IH k1 c1 w1 p o w); try done; [by rewrite <- H1|lia].
Qed.

Lemma iter_next_spec w A x B : own R (cells w 0) h -> fitting (Augment0 := aug) d w -> ordered_by ITSTART (elems w) ->
  elems w = A ++ x :: B ->
  interval_tree_iter_next ITSTART ITLAST t x start last = Ret (end_of Left (hits start last B)).
Proof.
  intros Ho Hf Hord Hl. destruct (elem_context x w) as (k & c & a & b & Hw); [rewrite Hl; set_solver|].
  assert (HB : B = elems b ++ after k).
  { destruct (own_elems _ _ _ Ho) as [Hnd _]. pose proof Hnd as Hnd'. rewrite Hl in Hnd. rewrite Hw, elems_plug in Hl, Hnd'. simpl in Hl, Hnd'.
    rewrite <- !app_assoc in Hl, Hnd'. simpl in Hl, Hnd'. rewrite app_assoc in Hl, Hnd'.
    apply NoDup_app in Hnd as (_ & Hnd & _). apply NoDup_app in Hnd' as (_ & Hnd' & _).
    destruct (split_unique x _ _ _ _ Hl) as [_ ->]; [intros Hin; apply (Hnd' x Hin)|intros Hin; apply (Hnd x Hin)|done]; set_solver. }
  pose proof (own_size _ _ _ Ho) as Hsz. rewrite <- (length_fmap fst), cells_keys in Hsz.
  pose proof (length_context k (T c a x b)) as Hlen. rewrite <- Hw in Hlen.
  unfold interval_tree_iter_next.
  rewrite (cell_children R h r d _ x (mk_node (pack (above k) c) (ptr b) (ptr a)) Right Ho) by (rewrite Hw, cells_plug; apply list_elem_of_here).
  cbn [obind child_of rb_right rb_nodes]. rewrite HB. apply (iter_next_loop_spec _ k c a x b w); try done. lia.
Qed.

Lemma iter_first_spec w : own R (cells w 0) h -> r = ptr w -> fitting (Augment0 := aug) d w -> ordered_by ITSTART (elems w) ->
  interval_tree_iter_first ITSTART ITLAST t start last = Ret (end_of Left (hits start last (elems w))).
Proof.
  intros Ho Hr Hf Hord. unfold interval_tree_iter_first. cbn [rb_root rb_data rb_nodes].
  destruct (decide (w = E)) as [->|Hw]; [by rewrite Hr|].
  pose proof (own_ptr_neq0 R _ h w 0 Ho ltac:(reflexivity) Hw) as Hp. rewrite (proj2 (Z.eqb_neq r 0)) by by rewrite Hr.
  destruct (tree_last _ _ _ _ d w Hf Hw) as (m & Hm & Hall & z & Hz & Hzm). destruct (value_field _ _ _ Hm) as [Hfm _].
  cbv zeta. replace (field d r) with (field d (ptr w)) by by rewrite Hr.
  rewrite Hfm. cbn [obind]. destruct (Z.ltb_spec m start) as [Hlt|Hge].
  - rewrite hits_none; [done|]. intros y Hy [_ Hy2]. specialize (Hall y Hy). lia.
  - pose proof (own_size _ _ _ Ho) as Hsz. rewrite <- (length_fmap fst), cells_keys in Hsz.
    pose proof (subtree_search_spec _ (S (size h)) w 0 Ho ltac:(reflexivity)) as Hs. rewrite <- Hr in Hs.
    apply Hs; try done; [exists z; split; [done|lia]|lia].
Qed.

(** Visiting the hits of the rest [B] of the sequence. *)
Lemma foreach_loop_spec w fuel : forall A B, own R (cells w 0) h -> fitting (Augment0 := aug) d w -> ordered_by ITSTART (elems w) ->
  elems w = A ++ B -> (length (hits start last B) < fuel)%nat ->
  foreach_loop ITSTART ITLAST fuel t (end_of Left (hits start last B)) start last = Ret (hits start last B).
Proof.
  induction fuel as [|fuel IH]; intros A B Ho Hf Hord Hl Hfuel; [lia|]. cbn [foreach_loop].
  destruct (hits start last B) as [|x l'] eqn:Hh; [done|].
  change (end_of Left (x :: l')) with x.
  assert (Hsplit : exists B1 B2, B = B1 ++ x :: B2 /\ hits start last B2 = l').
  { clear -Hh. induction B as [|y B IHB]; [done|]. unfold hits in Hh. rewrite filter_cons in Hh. case_decide as Hd.
    - injection Hh as <- <-. by exists [], B.
    - destruct (IHB Hh) as (B1 & B2 & -> & HB2). by exists (y :: B1), B2. }
  destruct Hsplit as (B1 & B2 & HB & Hl2).
  assert (Hx : valid x).
  { destruct (own_elems _ _ _ Ho) as [_ Hv]. rewrite Forall_forall in Hv. apply Hv. rewrite Hl, HB. set_solver. }
  rewrite (proj2 (Z.eqb_neq x 0)) by by apply valid_neq0. cbn [negb].
  rewrite HB, app_assoc in Hl. rewrite (iter_next_spec w _ x B2) by done. cbn [obind].
  rewrite (IH ((A ++ B1) ++ [x]) B2); try done; [by rewrite Hl2|by rewrite <- app_assoc|].
  rewrite Hl2. simpl in Hfuel. lia.
Qed.

Lemma foreach_spec w : own R (cells w 0) h -> r = ptr w -> fitting (Augment0 := aug) d w -> ordered_by ITSTART (elems w) ->
  interval_tree_foreach ITSTART ITLAST t start last = Ret (hits start last (elems w)).
Proof.
  intros Ho Hr Hf Hord. unfold interval_tree_foreach. rewrite (iter_first_spec w) by done. cbn [obind rb_nodes].
  apply (foreach_loop_spec w _ [] (elems w)); try done.
  pose proof (own_size _ _ _ Ho) as Hsz. rewrite <- (length_fmap fst), cells_keys in Hsz.
  pose proof (length_filter (overlaps start last) (elems w)). unfold hits. lia.
Qed.
End Query.
End Spec.
