(* ===== verification/IntervalTreeProps.v ===== *)
(** * Insertion into interval trees, and the trees as sequences of intervals *)
From Stdlib Require Import ZArith Lia Bool Sorted.
From stdpp Require Import base numbers list gmap.
From S2P Require Import Prelude RBTree RBTreeShape RBTreeRep RBTreeAugment RBTreeInsert RBTreeErase RBTreeRemove RBTreeCallbacks RBTreeWalk RBTreeProps RBTreeExamples RBTreeSearch VmArea IntervalTree IntervalTreeSpec.

Section Insert.
Variables ITSTART ITLAST : Z -> Z.
Abbreviation last_of := (last_of ITLAST).
Abbreviation aug := (declared_augment (compute_subtree_last ITLAST) last_of (fun _ => True) (last_computes ITLAST) (last_rotates ITLAST)).

(** ** Raising the values of a path *)

(** [d'] is [d] with the values of the nodes [p] raised to [m]. *)
Definition raised (m : Z) (p : list Z) (d d' : gmap Z Z) : Prop :=
  forall z, value d' z = if decide (z ∈ p) then Z.max m <$> value d z else value d z.

Lemma raised_nil m d : raised m [] d d.
Proof. intros z. by rewrite decide_False by apply not_elem_of_nil. Qed.

Lemma raised_app m p q d d1 d2 : raised m p d d1 -> raised m q d1 d2 -> raised m (q ++ p) d d2.
Proof.
  intros H1 H2 z. rewrite H2, H1. repeat case_decide; rewrite ?elem_of_app in *; try tauto.
  destruct (value d z); simpl; [|done]. f_equal. lia.
Qed.

Lemma raise_subtree_spec h r d p m : is_Some (value d p) ->
  exists d', raise_subtree (mk_rb h r d) p m = Ret (mk_rb h r d') /\ raised m [p] d d'.
Proof.
  intros [v Hv]. destruct (value_field _ _ _ Hv) as [Hf Hp]. unfold raise_subtree. cbn [rb_data]. rewrite Hf. cbn [obind].
  destruct (Z.ltb_spec v m) as [Hlt|Hge].
  - exists (<[p := m]> d). split; [done|]. intros z. case_decide as Hz.
    + apply list_elem_of_singleton in Hz as ->. rewrite value_insert_eq, Hv by done. simpl. f_equal. lia.
    + rewrite value_insert; [done|done|]. intros ->. apply Hz, list_elem_of_here.
  - exists d. split; [done|]. intros z. case_decide as Hz; [|done].
    apply list_elem_of_singleton in Hz as ->. rewrite Hv. simpl. f_equal. lia.
Qed.

(** Values stay present. *)
Lemma raised_stored m p d d' z : raised m p d d' -> is_Some (value d z) -> is_Some (value d' z).
Proof. intros Hr [v Hv]. rewrite Hr, Hv. case_decide; by eexists. Qed.

(** The value of a subtree that gets an interval with last point [m]. *)
Definition join (m : Z) (v : option Z) : Z := from_option (Z.max m) m v.

Lemma last_of_join s y m v o :
  match s with Left => last_of y (Some (join m v)) o | Right => last_of y o (Some (join m v)) end
  = Z.max m (match s with Left => last_of y v o | Right => last_of y o v end).
Proof. unfold last_of, join. destruct s, v, o; simpl; lia. Qed.

(** A context with right values around [hp] has right values around a subtree with
    the new interval, when the values on its path are raised. *)
Lemma kfitting_raise m d d' k : forall hp hp',
  kfitting (Augment0 := aug) d k hp ->
  value d' hp' = Some (join m (value d hp)) ->
  (forall y, y ∈ spine k -> value d' y = Z.max m <$> value d y) ->
  (forall s c y o z, F s c y o ∈ k -> z ∈ elems o -> value d z = value d' z) ->
  kfitting (Augment0 := aug) d' k hp'.
Proof.
  induction k as [|[s c y o] k IH]; intros hp hp' Hk Hhp Hsp Hoff; [done|].
  destruct Hk as (Hy & Ho & Hk).
  assert (Hos : forall z, z ∈ elems o -> value d z = value d' z) by (intros z; apply (Hoff s c y o); apply list_elem_of_here).
  assert (Hpo : value d (ptr o) = value d' (ptr o)) by by apply value_ptr.
  assert (Hy' : value d' y = Z.max m <$> value d y) by (apply Hsp; apply list_elem_of_here).
  pose proof (last_of_join s y m (value d hp) (value d (ptr o))) as Hj.
  cbn [kfitting]. split_and!.
  - destruct s; destruct Hy as [_ Hy]; (split; [done|]); unfold fits_value in *; rewrite Hy', Hy, Hhp, <- Hpo, Hj; done.
  - by apply (fitting_value _ _ _ (last_computes ITLAST) (last_rotates ITLAST) d).
  - apply (IH y); [done| | |].
    + rewrite Hy'. destruct s; destruct Hy as [_ Hy]; unfold fits_value in Hy; by rewrite Hy.
    + intros z Hz. apply Hsp. by apply list_elem_of_further.
    + intros s' c' y' o' z Hin. apply (Hoff s' c' y' o'). by apply list_elem_of_further.
Qed.

(** ** Going down *)
Lemma insert_place_spec R L h r x m fuel : forall w k d,
  own R L h -> cells w (above k) ⊆+ L -> (forall z, z ∈ elems w -> is_Some (value d z)) -> (length (elems w) < fuel)%nat ->
  let k' := way_down (fun y => ITSTART x <? ITSTART y) w k in
  exists d' p, insert_place ITSTART fuel (mk_rb h r d) (ITSTART x) m (ptr w) (above k) (last_side k)
      = Ret (mk_rb h r d', above k', last_side k')
    /\ raised m p d d' /\ spine k' = p ++ spine k.
Proof.
  induction fuel as [|fuel IH]; intros w k d Ho Hs Hf Hfuel; [lia|]. destruct w as [|c a y b].
  { exists d, []. split_and!; [done|apply raised_nil|done]. }
  cbn [insert_place ptr way_down cells elems] in *. rewrite length_app in Hfuel. simpl in Hfuel.
  assert (Hy : (y, mk_node (pack (above k) c) (ptr b) (ptr a)) ∈ L) by exact (elem_of_submseteq _ _ _ (list_elem_of_here _ _) Hs).
  assert (Hv : valid y) by (eapply own_valid; [exact Ho|]; by apply (list_elem_of_fmap_2 fst) in Hy).
  rewrite (proj2 (Z.eqb_neq y 0)) by by apply valid_neq0. cbn [negb].
  destruct (raise_subtree_spec h r d y m) as (d1 & -> & Hr1); [apply Hf; set_solver|]. cbn [obind].
  rewrite (cell_children R h r d1 L y _ _ Ho Hy).
  assert (Hf1 : forall z, z ∈ elems a ++ y :: elems b -> is_Some (value d1 z)) by (intros z Hz; eapply raised_stored; eauto).
  destruct (ITSTART x <? ITSTART y); cbn [obind child_of rb_left rb_right].
  - destruct (IH a (F Left c y b :: k) d1) as (d' & p & Hrun & Hr & Hp); [done|etrans; [|exact Hs]; cbn [above]; solve_submseteq|set_solver|lia|].
    exists d', (p ++ [y]). split_and!; [exact Hrun|by eapply raised_app|]. rewrite Hp, <- app_assoc. done.
  - destruct (IH b (F Right c y a :: k) d1) as (d' & p & Hrun & Hr & Hp); [done|etrans; [|exact Hs]; cbn [above]; solve_submseteq|set_solver|lia|].
    exists d', (p ++ [y]). split_and!; [exact Hrun|by eapply raised_app|]. rewrite Hp, <- app_assoc. done.
Qed.

Lemma leftmost_raise_spec R L h r m fuel : forall c a y b k d,
  own R L h -> cells (T c a y b) (above k) ⊆+ L -> (forall z, z ∈ elems a -> is_Some (value d z)) -> (length (elems a) < fuel)%nat ->
  let k' := way_down (fun _ => true) (T c a y b) k in
  exists d' p, leftmost_raise fuel (mk_rb h r d) y m = Ret (mk_rb h r d', above k')
    /\ raised m p d d' /\ spine k' = p ++ y :: spine k /\ last_side k' = Left.
Proof.
  induction fuel as [|fuel IH]; intros c a y b k d Ho Hs Hf Hfuel; [lia|]. cbn [leftmost_raise way_down].
  assert (Hy : (y, mk_node (pack (above k) c) (ptr b) (ptr a)) ∈ L) by exact (elem_of_submseteq _ _ _ (list_elem_of_here _ _) Hs).
  rewrite (cell_children R h r d L y _ _ Ho Hy). cbn [obind child_of rb_left].
  destruct a as [|c1 a1 y1 b1]; [exists d, []; split_and!; [done|apply raised_nil|done|done]|].
  assert (Hsa : cells (T c1 a1 y1 b1) y ⊆+ L) by (etrans; [|exact Hs]; cbn [cells]; solve_submseteq).
  rewrite (proj2 (Z.eqb_neq _ 0)) by (by eapply (own_ptr_neq0 R L h (T c1 a1 y1 b1))). cbn [negb ptr].
  cbn [elems] in Hf, Hfuel. rewrite length_app in Hfuel. simpl in Hfuel.
  destruct (raise_subtree_spec h r d y1 m) as (d1 & -> & Hr1); [apply Hf; set_solver|]. cbn [obind].
  destruct (IH c1 a1 y1 b1 (F Left c y b :: k) d1) as (d' & p & Hrun & Hr & Hp & Hl); [done|done| |lia|].
  { intros z Hz. eapply raised_stored; [exact Hr1|]. apply Hf. set_solver. }
  exists d', (p ++ [y1]). split_and!; [exact Hrun|by eapply raised_app| |exact Hl]. rewrite Hp, <- app_assoc. done.
Qed.

(** ** Linking at the place *)

(** The values are right for the new interval [x] in the hole of [k], when those of
    the path are raised or not less than its last point. *)
Lemma hole_fitting R h d d' k x n : own R ((x, n) :: cells (plug k E) 0) h -> fitting (Augment0 := aug) d (plug k E) ->
  (forall z, z ∉ spine k -> value d' z = value d z) ->
  (forall z, z ∈ spine k -> value d' z = Z.max (ITLAST x) <$> value d z) ->
  fitting (Augment0 := aug) (<[x := ITLAST x]> d') (plug k (T Red E x E)).
Proof.
  intros Ho Hf Hoff Hon. apply fitting_plug in Hf as [_ Hf]. cbn [ptr] in Hf.
  assert (Hx : valid x) by (eapply own_valid; [exact Ho|apply list_elem_of_here]). apply valid_neq0 in Hx.
  rewrite cells_plug, kcells_to_0 in Ho. cbn [cells app ptr] in Ho.
  pose proof (own_nodup _ _ _ Ho) as Hnd. cbn [fmap list_fmap fst] in Hnd. apply NoDup_cons in Hnd as [Hxk _].
  assert (Hval : forall z, z ∈ (kcells_to 0 k 0).*1 -> value (<[x := ITLAST x]> d') z = value d' z).
  { intros z Hz. apply value_insert; [done|]. intros ->. by apply Hxk. }
  apply fitting_plug. split.
  { split; [|done]. split; [done|]. unfold fits_value. by rewrite value_insert_eq. }
  apply (kfitting_raise (ITLAST x) d _ k 0); [done| | |].
  - cbn [ptr]. by rewrite value_insert_eq.
  - intros y Hy. rewrite Hval by by apply spine_cells. by apply Hon.
  - intros s c y o z Hin Hz.
    assert (Hk : own R (kcells_to 0 k 0 ++ [(x, n)]) h) by (eapply own_perm; [|reflexivity|exact Ho]; solve_Permutation).
    rewrite Hval by by eapply others_cells. symmetry. apply Hoff. by eapply (spine_off R h 0 k s c y o z).
Qed.

Lemma link_spec R h d d' k x n s : own R ((x, n) :: cells (plug k E) 0) h -> balanced (plug k E) -> on_side k s ->
  fitting (Augment0 := aug) d (plug k E) ->
  (forall z, z ∉ spine k -> value d' z = value d z) ->
  (forall z, z ∈ spine k -> value d' z = Z.max (ITLAST x) <$> value d z) ->
  let l := before k ++ x :: after k in
  runs (let* t := rb_link_node (mk_rb h (ptr (plug k E)) (<[x := ITLAST x]> d')) x (above k) s in
        rb_insert_augmented t x (augment ITLAST)) (fun t' => rb_tree R l t' /\ values_right last_of t' l).
Proof.
  intros Ho Hb Hs Hf Hoff Hon l.
  eapply runs_mono; [eapply (insert_at (Augment0 := aug) R (mk_rb h (ptr (plug k E)) (<[x := ITLAST x]> d')) k x n s); try done|].
  - by eapply hole_fitting.
  - intros t' Ht'. apply (augmented_root _ _ _ (last_computes ITLAST) (last_rotates ITLAST)) in Ht' as (H1 & H2 & _). done.
Qed.

(** ** The calls *)
Abbreviation it_tree := (it_tree ITSTART ITLAST).

Lemma interval_tree_insert_spec R l t x : it_tree R l t -> fresh t l x ->
  runs (interval_tree_insert ITSTART ITLAST t x) (it_tree R (insert_by ITSTART x l)).
Proof.
  intros Ht Hx. destruct (it_tree_at _ _ R l t Ht) as (w & Ho & Hr & Hb & He & Hf). destruct Ht as (_ & _ & Hord).
  destruct (own_fresh R t l x w Ho He Hx) as [n Hn]. destruct t as [h r d]. cbn [rb_nodes rb_root rb_data] in *. subst r.
  set (k := way_down (fun y => ITSTART x <? ITSTART y) w []).
  assert (Hk : plug k E = w) by (apply (plug_way_down _ w [])).
  assert (Hseq : before k ++ x :: after k = insert_by ITSTART x l) by (unfold k; rewrite way_down_insert, He by (by rewrite He); done).
  pose proof (own_size _ _ _ Ho) as Hsz. rewrite <- (length_fmap fst), cells_keys in Hsz.
  unfold interval_tree_insert. cbn [rb_nodes rb_root].
  destruct (insert_place_spec R _ h (ptr w) x (ITLAST x) (S (size h)) w [] d Ho) as (d' & p & Hrun & Hd & Hp);
    [reflexivity|intros z Hz; by apply (fitting_stored (Augment0 := aug) d w z)|lia|].
  cbn [above last_side] in Hrun. rewrite Hrun. cbn [obind]. fold k in Hp |- *. change (spine []) with (@nil Z) in Hp. rewrite app_nil_r in Hp. subst p.
  unfold set_data. cbn [rb_nodes rb_root rb_data]. rewrite <- Hk in Hn, Hb, Hf |- * at 1.
  eapply runs_mono; [eapply (link_spec R h d d' k x n (last_side k)); try done; [apply last_side_on| |]|].
  - intros z Hz. by rewrite (Hd z), decide_False.
  - intros z Hz. by rewrite (Hd z), decide_True.
  - rewrite Hseq. intros t' [Ht' Hv']. split_and!; [done|done|]. by apply insert_by_ordered.
Qed.

Lemma ordered_remove A x B : ordered_by ITSTART (A ++ x :: B) -> ordered_by ITSTART (A ++ B).
Proof.
  intros (HA & HB & HAB)%ordered_by_app. inversion_clear HB as [|? ? HB' _]. apply ordered_by_app. split_and!; [done|done|].
  intros y z Hy Hz. apply HAB; [done|]. by apply list_elem_of_further.
Qed.

Lemma interval_tree_remove_spec R l t x : it_tree R l t -> x ∈ l ->
  runs (interval_tree_remove ITLAST t x) (fun t' => exists R', it_tree R' (remove_elem x l) t').
Proof.
  intros (Ht & Hv & Hord) Hx.
  eapply runs_mono; [exact (augmented_erase _ _ _ (last_computes ITLAST) (last_rotates ITLAST) R l t x Ht Hv (fun _ _ => I) Hx)|].
  intros t' [n Hre]. apply augmented_root in Hre as (H1 & H2 & _). exists (<[x := n]> R). split_and!; [done|done|].
  destruct (rb_tree_at R l t x Ht Hx) as (k & c & a & b & _ & _ & _ & -> & HxA & _). rewrite remove_elem_app by done.
  by apply ordered_remove in Hord.
Qed.

(** The way down the left sides goes to the place before the subtree. *)
Lemma way_left w k : before (way_down (fun _ => true) w k) = before k /\ after (way_down (fun _ => true) w k) = elems w ++ after k.
Proof.
  revert k; induction w as [|c a IHa y b _]; intros k; [done|]. cbn [way_down elems].
  destruct (IHa (F Left c y b :: k)) as [-> ->]. cbn [before after]. split; [done|]. by rewrite <- app_assoc.
Qed.

(** The values above a node are not less than its own. *)
Lemma kfitting_above d m k : forall hp, kfitting (Augment0 := aug) d k hp -> (exists v, value d hp = Some v /\ m <= v) ->
  forall y, y ∈ hp :: spine k -> exists v, value d y = Some v /\ m <= v.
Proof.
  induction k as [|[s c x o] k IH]; intros hp Hk Hhp y [->|Hy]%elem_of_cons; try done; [by apply elem_of_nil in Hy|].
  destruct Hk as (Hx & _ & Hk). apply (IH x Hk); [|exact Hy]. destruct Hhp as (v & Hv & Hm).
  destruct s; destruct Hx as [_ Hx]; unfold fits_value, IntervalTreeSpec.last_of in Hx; rewrite Hx, Hv; eexists; (split; [done|]);
    destruct (value d (ptr o)); simpl; lia.
Qed.

Lemma ordered_beside A p x B : ITSTART x = ITSTART p -> ordered_by ITSTART (A ++ p :: B) -> ordered_by ITSTART (A ++ p :: x :: B).
Proof.
  intros Hx (HA & HB & HAB)%ordered_by_app. inversion_clear HB as [|? ? HB' HF]. apply ordered_by_app. split_and!; [done| |].
  - constructor; [constructor; [done|]|constructor; [lia|done]]. eapply Forall_impl; [exact HF|]. simpl. lia.
  - intros y z Hy Hz. apply elem_of_cons in Hz as [->|[->|Hz]%elem_of_cons]; [| |by apply HAB, list_elem_of_further];
      [|rewrite Hx]; apply HAB, list_elem_of_here; done.
Qed.

Lemma after_place_spec R L h r d k c a p b m : own R L h -> cells (T c a p b) (above k) ⊆+ L ->
  (forall z, z ∈ elems b -> is_Some (value d z)) ->
  let k' := way_down (fun _ => true) b (F Right c p a :: k) in
  exists d' q, after_place (mk_rb h r d) p m = Ret (mk_rb h r d', above k', last_side k')
    /\ raised m q d d' /\ spine k' = q ++ p :: spine k.
Proof.
  intros Ho Hs Hst k'. unfold after_place. cbn [cells] in Hs.
  assert (Hsb : cells b p ⊆+ L) by (etrans; [|exact Hs]; solve_submseteq).
  rewrite (cell_children R h r d L p (mk_node (pack (above k) c) (ptr b) (ptr a)) Right Ho) by exact (elem_of_submseteq _ _ _ (list_elem_of_here _ _) Hs).
  cbn [obind child_of rb_right].
  destruct b as [|c1 a1 y1 b1]; [exists d, []; split_and!; [done|apply raised_nil|done]|].
  rewrite (proj2 (Z.eqb_neq _ 0)) by (by eapply (own_ptr_neq0 R _ h (T c1 a1 y1 b1))). cbn [ptr].
  destruct (raise_subtree_spec h r d y1 m) as (d1 & -> & Hr1); [apply Hst; simpl; set_solver|]. cbn [obind rb_nodes].
  pose proof (own_size _ _ _ Ho) as Hsz. pose proof (submseteq_length _ _ Hsb) as Hlen.
  rewrite <- (length_fmap fst), cells_keys in Hlen. cbn [elems] in Hlen. rewrite length_app in Hlen. simpl in Hlen.
  destruct (leftmost_raise_spec R _ h r m (S (size h)) c1 a1 y1 b1 (F Right c p a :: k) d1 Ho Hsb) as (d' & q & Hrun & Hr & Hq & Hside).
  - intros z Hz. eapply raised_stored; [exact Hr1|]. apply Hst. simpl. set_solver.
  - lia.
  - exists d', (q ++ [y1]). fold k' in Hrun, Hq, Hside. rewrite Hrun, Hside. cbn [obind].
    split_and!; [done|by eapply raised_app|]. rewrite Hq, <- app_assoc. done.
Qed.

Lemma interval_tree_insert_after_spec R l t x p : it_tree R l t -> fresh t l x -> p ∈ l ->
  ITSTART x = ITSTART p -> ITLAST x <= ITLAST p ->
  runs (interval_tree_insert_after ITLAST t x p) (it_tree R (insert_beside Right x p l)).
Proof.
  intros (Ht & Hv & Hord) Hx Hp Hst Hla.
  destruct (rb_tree_at R l t p Ht Hp) as (k & c & a & b & Ho & Hr & Hb & Hl & HpA & _).
  destruct t as [h r d]. cbn [rb_nodes rb_root] in *. change (top k p) with (top k (ptr (T c a p b))) in Hr. rewrite <- top_plug in Hr. subst r.
  set (w := plug k (T c a p b)) in *.
  assert (Hw : elems w = l) by (unfold w; rewrite elems_plug, Hl; cbn [elems]; by rewrite <- !app_assoc).
  assert (Hf : fitting (Augment0 := aug) d w).
  { apply (fitting_values _ _ _ (last_computes ITLAST) (last_rotates ITLAST) R _ h d w 0 Ho ltac:(reflexivity)). rewrite Hw. done. }
  set (k' := way_down (fun _ => true) b (F Right c p a :: k)).
  assert (Hk : plug k' E = w) by (apply (plug_way_down _ b (F Right c p a :: k))).
  destruct (own_fresh R (mk_rb h (ptr w) d) l x w Ho Hw Hx) as [n Hn]. cbn [rb_nodes] in Hn.
  destruct (after_place_spec R _ h (ptr w) d k c a p b (ITLAST x) Ho) as (d' & q & Hrun & Hd & Hq).
  { unfold w. rewrite cells_plug. solve_submseteq. }
  { intros z Hz. apply (fitting_stored (Augment0 := aug) d w z Hf). unfold w. rewrite elems_plug. cbn [elems]. set_solver. }
  fold k' in Hrun, Hq. unfold interval_tree_insert_after. rewrite Hrun. cbn [obind]. unfold set_data. cbn [rb_nodes rb_root rb_data].
  assert (Hup : forall z, z ∈ p :: spine k -> exists v, value d z = Some v /\ ITLAST x <= v).
  { apply fitting_plug in Hf as [([_ Hfp] & _) Hfk]. apply (kfitting_above d _ k p Hfk).
    unfold fits_value, IntervalTreeSpec.last_of in Hfp. rewrite Hfp. eexists. split; [done|].
    destruct (value d (ptr a)), (value d (ptr b)); simpl; lia. }
  rewrite <- Hk in Hn, Hb, Hf |- * at 1.
  eapply runs_mono; [eapply (link_spec R h d d' k' x n (last_side k')); try done; [apply last_side_on| |]|].
  - intros z Hz. rewrite (Hd z), decide_False; [done|]. rewrite Hq in Hz. set_solver.
  - intros z Hz. rewrite (Hd z). case_decide as Hzq; [done|]. rewrite Hq, elem_of_app in Hz. destruct Hz as [Hz|Hz]; [done|].
    destruct (Hup z Hz) as (v & -> & Hle). simpl. f_equal. lia.
  - destruct (way_left b (F Right c p a :: k)) as [Hbf Haf]. fold k' in Hbf, Haf. rewrite Hbf, Haf. cbn [before after].
    intros t' [Ht' Hv']. rewrite Hl in Hord |- *. rewrite insert_beside_app by done. 
    replace (((before k ++ elems a) ++ p :: x :: elems b ++ after k)) with ((before k ++ elems a ++ [p]) ++ x :: elems b ++ after k)
      by by rewrite <- !app_assoc.
    split_and!; [done|done|]. rewrite <- !app_assoc. cbn [app]. rewrite app_assoc. by apply ordered_beside.
Qed.

(** ** Sequences of calls *)
Inductive it_op := ItInsert (x : Z) | ItInsertAfter (x p : Z) | ItRemove (x : Z).

Definition run_it (t : rb_state (gmap Z Z)) (o : it_op) : outcome (rb_state (gmap Z Z)) :=
  match o with
  | ItInsert x => interval_tree_insert ITSTART ITLAST t x
  | ItInsertAfter x p => interval_tree_insert_after ITLAST t x p
  | ItRemove x => interval_tree_remove ITLAST t x
  end.

Fixpoint run_its (t : rb_state (gmap Z Z)) (os : list it_op) : outcome (rb_state (gmap Z Z)) :=
  match os with [] => Ret t | o :: os => let* t := run_it t o in run_its t os end.

(** What a call does to the sequence of intervals. *)
Definition it_spec (l : list Z) (o : it_op) : list Z :=
  match o with
  | ItInsert x => insert_by ITSTART x l
  | ItInsertAfter x p => insert_beside Right x p l
  | ItRemove x => remove_elem x l
  end.

(** What the callers see to: new entries are not in the tree, removed ones are, and an
    entry put behind another has its start and ends no later. *)
Definition it_allowed (t : rb_state (gmap Z Z)) (l : list Z) (o : it_op) : Prop :=
  match o with
  | ItInsert x => fresh t l x
  | ItInsertAfter x p => fresh t l x /\ p ∈ l /\ ITSTART x = ITSTART p /\ ITLAST x <= ITLAST p
  | ItRemove x => x ∈ l
  end.

Fixpoint its_allowed (t : rb_state (gmap Z Z)) (l : list Z) (os : list it_op) : Prop :=
  match os with
  | [] => True
  | o :: os => it_allowed t l o /\ match run_it t o with Ret t' => its_allowed t' (it_spec l o) os | _ => True end
  end.

Lemma run_it_spec R l t o : it_tree R l t -> it_allowed t l o -> runs (run_it t o) (fun t' => exists R', it_tree R' (it_spec l o) t').
Proof.
  intros Ht Ha. destruct o as [x|x p|x]; cbn [run_it it_spec].
  - eapply runs_mono; [by eapply interval_tree_insert_spec|]. by eexists.
  - destruct Ha as (Hx & Hp & Hst & Hla). eapply runs_mono; [by eapply interval_tree_insert_after_spec|]. by eexists.
  - by eapply interval_tree_remove_spec.
Qed.

Lemma run_its_spec os : forall R l t, it_tree R l t -> its_allowed t l os ->
  runs (run_its t os) (fun t' => exists R', it_tree R' (foldl it_spec l os) t').
Proof.
  induction os as [|o os IH]; intros R l t Ht Ha; [apply runs_ret; by exists R|]. destruct Ha as [Ho Hos].
  destruct (run_it_spec R l t o Ht Ho) as (t1 & Hrun & R1 & Ht1). cbn [run_its foldl]. rewrite Hrun in Hos |- *. cbn [obind]. by apply (IH R1).
Qed.

(** C24: from an interval tree of the sequence [l], ordered by start, every sequence of
    insertions, insertions behind an entry and removals that respects the callers'
    obligations returns a tree of the specified sequence, again ordered by start, and
    there every query for a range, iter_first followed by iter_next until NULL, visits
    exactly the entries that intersect the range, each once and in the order of
    the sequence. *)
Theorem interval_tree_queries R l t os : it_tree R l t -> its_allowed t l os ->
  let l' := foldl it_spec l os in
  exists t', run_its t os = Ret t' /\ ordered_by ITSTART l'
    /\ (forall start last, interval_tree_foreach ITSTART ITLAST t' start last = Ret (hits ITSTART ITLAST start last l'))
    /\ (forall start last z, z ∈ hits ITSTART ITLAST start last l' <-> (ITSTART z <= last /\ start <= ITLAST z) /\ z ∈ l')
    /\ NoDup l'.
Proof.
  intros Ht Ha l'. destruct (run_its_spec os R l t Ht Ha) as (t' & Hrun & R' & Ht'). fold l' in Ht'.
  exists t'. split; [done|]. destruct (it_tree_at _ _ _ _ _ Ht') as (w & Ho & Hr & _ & He & Hf). destruct Ht' as (_ & _ & Hord).
  split_and!; [done| | |].
  - intros start last. rewrite <- He in Hord |- *. destruct t' as [h r d]. by apply (foreach_spec ITSTART ITLAST R').
  - intros start last z. unfold hits. by rewrite list_elem_of_filter.
  - rewrite <- He. by eapply own_elems.
Qed.
End Insert.

(** The callers' obligations, decided. *)
Fixpoint its_allowedb (ITSTART ITLAST : Z -> Z) (t : rb_state (gmap Z Z)) (l : list Z) (os : list it_op) : bool :=
  match os with
  | [] => true
  | o :: os =>
      match o with
      | ItInsert x => freshb t l x
      | ItInsertAfter x p => freshb t l x && bool_decide (p ∈ l) && (ITSTART x =? ITSTART p) && (ITLAST x <=? ITLAST p)
      | ItRemove x => bool_decide (x ∈ l)
      end
      && match run_it ITSTART ITLAST t o with Ret t' => its_allowedb ITSTART ITLAST t' (it_spec ITSTART l o) os | _ => true end
  end.

Lemma its_allowedb_allowed ITSTART ITLAST os : forall t l,
  its_allowedb ITSTART ITLAST t l os = true -> its_allowed ITSTART ITLAST t l os.
Proof.
  induction os as [|o os IH]; intros t l; simpl; [done|]. rewrite andb_true_iff. intros [Ho Hos]. split.
  - destruct o; [by apply freshb_fresh| |by apply bool_decide_eq_true in Ho].
    rewrite !andb_true_iff, bool_decide_eq_true, Z.eqb_eq, Z.leb_le in Ho. destruct Ho as [[[H1 H2] H3] H4].
    split_and!; [by apply freshb_fresh|done|done|done].
  - destruct (run_it ITSTART ITLAST t o); auto.
Qed.

(** Mappings of a file: pages 0-9 twice, 4-5 and 20-29. *)
Definition example_vma (x : Z) : vm_area_struct :=
  if x =? 48 then mk_vma 1048576 1056768 0 0 0 0 0 false 0 false 4 0
  else if x =? 64 then mk_vma 2097152 2138112 0 0 0 0 0 false 0 false 20 0
  else mk_vma 4194304 4235264 0 0 0 0 0 false 0 false 0 0.

Definition example_tree : rb_state (gmap Z Z) := mk_rb (list_to_map ((fun x => (x, mk_node x 0 0)) <$> [16; 32; 48; 64; 80])) 0 ∅.

Definition example_calls : list it_op :=
  [ItInsert 48; ItInsert 64; ItInsert 16; ItInsertAfter 32 16; ItInsert 80; ItRemove 80].

Lemma interval_tree_queries_witness :
  let start x := vma_start_pgoff (example_vma x) in
  let last x := vma_last_pgoff (example_vma x) in
  its_allowed start last example_tree [] example_calls
  /\ exists t', run_its start last example_tree example_calls = Ret t'
    /\ vma_interval_tree_foreach example_vma t' 5 7 = Ret [16; 32; 48]
    /\ vma_interval_tree_foreach example_vma t' 6 20 = Ret [16; 32; 64]
    /\ vma_interval_tree_foreach example_vma t' 10 19 = Ret [].
Proof.
  intros start last.
  assert (Ht : it_tree start last (rb_nodes example_tree) [] example_tree).
  { split; [|split; [intros z n Hz; inversion Hz|constructor]]. exists E.
    split; [|split; [reflexivity|split; [split; [reflexivity|exists O; reflexivity]|reflexivity]]].
    split; [constructor|constructor|symmetry; exact (left_id_L ∅ (∪) _)]. }
  assert (Ha : its_allowed start last example_tree [] example_calls)
    by (apply its_allowedb_allowed; vm_compute; reflexivity).
  split; [exact Ha|].
  destruct (interval_tree_queries start last _ _ _ _ Ht Ha) as (t' & Hrun & _ & Hq & _).
  exists t'. split; [exact Hrun|]. split; [exact (Hq 5 7)|]. split; [exact (Hq 6 20)|exact (Hq 10 19)].
Defined.
