(* ===== verification/AddressSpace.v ===== *)
(** * The mapped areas of an address space (mm/mmap.c, mm/util.c, mm/vmacache.c)

    The areas of an [mm_struct] are on a list and in an augmented red-black tree, both
    ordered by address; [rb_subtree_gap] is the largest free gap before an area of a
    subtree.  An area is known by the address of its tree node; [vmas] are the areas
    in memory, so that reading one that is not there is undefined.  Each task has a
    small cache of areas it looked up.

    CONFIG_DEBUG_VM is not set, so [validate_mm] and the [VM_BUG_ON]s are not built.
    The locks, the accounting of pages and the trees of files and of anonymous memory
    are not part of this state. *)
From Stdlib Require Import ZArith Lia Bool.
From stdpp Require Import base numbers list gmap.
From S2P Require Import Prelude RBTree VmArea IntervalTree.

Record mm_struct := mk_mm {
  mm_addr : Z;
  vmas : gmap Z vm_area_struct;
  mm_rb : rb_state (gmap Z Z);
  mmap : Z;
  highest_vm_end : Z;
  map_count : Z;
  vmacache_seqnum : Z
}.

Definition set_vmas (mm : mm_struct) (vs : gmap Z vm_area_struct) : mm_struct :=
  mk_mm (mm_addr mm) vs (mm_rb mm) (mmap mm) (highest_vm_end mm) (map_count mm) (vmacache_seqnum mm).
Definition set_mm_rb (mm : mm_struct) (t : rb_state (gmap Z Z)) : mm_struct :=
  mk_mm (mm_addr mm) (vmas mm) t (mmap mm) (highest_vm_end mm) (map_count mm) (vmacache_seqnum mm).
Definition set_mmap (mm : mm_struct) (vma : Z) : mm_struct :=
  mk_mm (mm_addr mm) (vmas mm) (mm_rb mm) vma (highest_vm_end mm) (map_count mm) (vmacache_seqnum mm).
Definition set_highest_vm_end (mm : mm_struct) (e : Z) : mm_struct :=
  mk_mm (mm_addr mm) (vmas mm) (mm_rb mm) (mmap mm) e (map_count mm) (vmacache_seqnum mm).
Definition set_map_count (mm : mm_struct) (n : Z) : mm_struct :=
  mk_mm (mm_addr mm) (vmas mm) (mm_rb mm) (mmap mm) (highest_vm_end mm) n (vmacache_seqnum mm).

(** [mm->vmacache_seqnum] is a [u64]. *)
Definition vmacache_invalidate (mm : mm_struct) : mm_struct :=
  mk_mm (mm_addr mm) (vmas mm) (mm_rb mm) (mmap mm) (highest_vm_end mm) (map_count mm) (u64 (vmacache_seqnum mm + 1)).

Definition vma_at (vs : gmap Z vm_area_struct) (p : Z) : outcome vm_area_struct :=
  match vs !! p with Some v => Ret v | None => Ub end.

(** [p->vm_next = q] and [p->vm_prev = q] *)
Definition put_vm_next (mm : mm_struct) (p q : Z) : outcome mm_struct :=
  let* v := vma_at (vmas mm) p in Ret (set_vmas mm (<[p := set_vm_next v q]> (vmas mm))).
Definition put_vm_prev (mm : mm_struct) (p q : Z) : outcome mm_struct :=
  let* v := vma_at (vmas mm) p in Ret (set_vmas mm (<[p := set_vm_prev v q]> (vmas mm))).

Section Space.
Variable stack_guard_gap : Z.
Abbreviation vm_start_gap := (vm_start_gap stack_guard_gap).
Abbreviation vm_end_gap := (vm_end_gap stack_guard_gap).

(** ** The gaps *)

(** The result is a [long] that the callers convert back to [unsigned long]. *)
Definition vma_compute_subtree_gap (vs : gmap Z vm_area_struct) (h : nodes) (d : gmap Z Z) (vma : Z) : outcome Z :=
  let t := mk_rb h 0 d in
  let* v := vma_at vs vma in
  let max := vm_start_gap v in
  let* max :=
    if negb (vm_prev v =? 0) then
      let* p := vma_at vs (vm_prev v) in
      let prev_end := vm_end_gap p in
      Ret (if prev_end <? max then max - prev_end else 0)
    else Ret max in
  let* l := get_child Left t vma in
  let* max := subtree_max d l max in
  let* r := get_child Right t vma in
  subtree_max d r max.

Definition vma_gap_callbacks (vs : gmap Z vm_area_struct) : rb_augment_callbacks (gmap Z Z) :=
  RB_DECLARE_CALLBACKS (vma_compute_subtree_gap vs).

Definition vma_gap_update (mm : mm_struct) (vma : Z) : outcome mm_struct :=
  let* t := call (aug_propagate (vma_gap_callbacks (vmas mm))) (mm_rb mm) vma 0 in
  Ret (set_mm_rb mm t).

Definition vma_rb_insert (mm : mm_struct) (vma : Z) : outcome mm_struct :=
  let* t := rb_insert_augmented (mm_rb mm) vma (vma_gap_callbacks (vmas mm)) in Ret (set_mm_rb mm t).

Definition __vma_rb_erase (mm : mm_struct) (vma : Z) : outcome mm_struct :=
  let* t := rb_erase_augmented (mm_rb mm) vma (vma_gap_callbacks (vmas mm)) in Ret (set_mm_rb mm t).

Definition vma_rb_erase (mm : mm_struct) (vma : Z) : outcome mm_struct := __vma_rb_erase mm vma.

(** ** Linking *)

(** [while ( *__rb_link )]: the link points to [cur], the child of [parent] on side
    [s] or the root.  The result is -ENOMEM, or the previous area, the parent and the
    side. *)
Fixpoint links_loop (fuel : nat) (mm : mm_struct) (addr end_ cur parent : Z) (s : side) (prev : Z) : outcome (Z + Z * Z * side) :=
  match fuel with
  | O => Fuel
  | S fuel' =>
      if negb (cur =? 0) then
        let parent := cur in
        let* v := vma_at (vmas mm) parent in
        if addr <? vm_end v then
          if vm_start v <? end_ then Ret (inl (- ENOMEM))
          else
            let* cur := get_child Left (mm_rb mm) parent in
            links_loop fuel' mm addr end_ cur parent Left prev
        else
          let* cur := get_child Right (mm_rb mm) parent in
          links_loop fuel' mm addr end_ cur parent Right parent
      else Ret (inr (prev, parent, s))
  end.

Definition find_vma_links (mm : mm_struct) (addr end_ : Z) : outcome (Z + Z * Z * side) :=
  links_loop (S (size (rb_nodes (mm_rb mm)))) mm addr end_ (rb_root (mm_rb mm)) 0 Left 0.

Definition __vma_link_list (mm : mm_struct) (vma prev rb_parent : Z) : outcome mm_struct :=
  let* mm := put_vm_prev mm vma prev in
  let* (mm, next) :=
    if negb (prev =? 0) then
      let* p := vma_at (vmas mm) prev in
      let* mm := put_vm_next mm prev vma in
      Ret (mm, vm_next p)
    else Ret (set_mmap mm vma, rb_parent) in
  let* mm := put_vm_next mm vma next in
  if negb (next =? 0) then put_vm_prev mm next vma else Ret mm.

Definition __vma_link_rb (mm : mm_struct) (vma rb_parent : Z) (s : side) : outcome mm_struct :=
  let* v := vma_at (vmas mm) vma in
  let* mm :=
    if negb (vm_next v =? 0) then vma_gap_update mm (vm_next v)
    else Ret (set_highest_vm_end mm (vm_end_gap v)) in
  let* t := rb_link_node (mm_rb mm) vma rb_parent s in
  let mm := set_mm_rb mm (set_data t (<[vma := 0]> (rb_data t))) in
  let* mm := vma_gap_update mm vma in
  vma_rb_insert mm vma.

Definition __vma_link (mm : mm_struct) (vma prev rb_parent : Z) (s : side) : outcome mm_struct :=
  let* mm := __vma_link_list mm vma prev rb_parent in
  __vma_link_rb mm vma rb_parent s.

Definition __insert_vm_struct (mm : mm_struct) (vma : Z) : outcome mm_struct :=
  let* v := vma_at (vmas mm) vma in
  let* r := find_vma_links mm (vm_start v) (vm_end v) in
  match r with
  | inl _ => Bug
  | inr (prev, rb_parent, s) =>
      let* mm := __vma_link mm vma prev rb_parent s in
      Ret (set_map_count mm (s32 (map_count mm + 1)))
  end.

(** ** Unmapping *)

(** [do ... while (vma && vma->vm_start < end)]: the last area taken out and the first
    one left. *)
Fixpoint detach_loop (fuel : nat) (mm : mm_struct) (vma end_ : Z) : outcome (mm_struct * Z * Z) :=
  match fuel with
  | O => Fuel
  | S fuel' =>
      let* mm := vma_rb_erase mm vma in
      let mm := set_map_count mm (s32 (map_count mm - 1)) in
      let tail_vma := vma in
      let* v := vma_at (vmas mm) vma in
      let vma := vm_next v in
      if negb (vma =? 0) then
        let* v := vma_at (vmas mm) vma in
        if vm_start v <? end_ then detach_loop fuel' mm vma end_ else Ret (mm, tail_vma, vma)
      else Ret (mm, tail_vma, vma)
  end.

(** [*insertion_point = vma], which is [prev->vm_next] or [mm->mmap] *)
Definition store_insertion (mm : mm_struct) (prev vma : Z) : outcome mm_struct :=
  if negb (prev =? 0) then put_vm_next mm prev vma else Ret (set_mmap mm vma).

Definition detach_vmas_to_be_unmapped (mm : mm_struct) (vma prev end_ : Z) : outcome mm_struct :=
  let* mm := put_vm_prev mm vma 0 in
  let* (mm, tail_vma, vma) := detach_loop (S (size (rb_nodes (mm_rb mm)))) mm vma end_ in
  let* mm := store_insertion mm prev vma in
  let* mm :=
    if negb (vma =? 0) then
      let* mm := put_vm_prev mm vma prev in
      vma_gap_update mm vma
    else if negb (prev =? 0) then
      let* p := vma_at (vmas mm) prev in Ret (set_highest_vm_end mm (vm_end_gap p))
    else Ret (set_highest_vm_end mm 0) in
  let* mm := put_vm_next mm tail_vma 0 in
  Ret (vmacache_invalidate mm).

(** Freeing an area; closing its file is not part of this state. *)
Definition remove_vma (mm : mm_struct) (vma : Z) : outcome (mm_struct * Z) :=
  let* v := vma_at (vmas mm) vma in
  let t := mm_rb mm in
  Ret (set_mm_rb (set_vmas mm (delete vma (vmas mm))) (mk_rb (delete vma (rb_nodes t)) (rb_root t) (rb_data t)), vm_next v).

(** [do ... while (vma)] *)
Fixpoint remove_vma_list (fuel : nat) (mm : mm_struct) (vma : Z) : outcome mm_struct :=
  match fuel with
  | O => Fuel
  | S fuel' =>
      let* (mm, vma) := remove_vma mm vma in
      if negb (vma =? 0) then remove_vma_list fuel' mm vma else Ret mm
  end.
End Space.
