(* ===== verification/AddressSearch.v ===== *)
(** * Looking up areas and free ranges (mm/mmap.c, mm/vmacache.c, arch/arm/mm/mmap.c) *)
From Stdlib Require Import ZArith Lia Bool.
From stdpp Require Import base numbers list gmap.
From S2P Require Import Prelude RBTree VmArea AddressSpace.

(** ** The cache of a task *)
Definition VMACACHE_BITS : Z := 2.
Definition VMACACHE_SIZE : Z := Z.shiftl 1 VMACACHE_BITS.
Definition VMACACHE_MASK : Z := VMACACHE_SIZE - 1.
Definition PF_KTHREAD : Z := 2097152.

Definition VMACACHE_HASH (addr : Z) : Z := Z.land (Z.shiftr addr PAGE_SHIFT) VMACACHE_MASK.

(** [vmacache_seqnum] of a task is a [u32]. *)
Record task_struct := mk_task { task_mm : Z; task_flags : Z; task_seqnum : Z; vmacache : list Z }.

Definition vmacache_flush (tsk : task_struct) : task_struct :=
  mk_task (task_mm tsk) (task_flags tsk) (task_seqnum tsk) (replicate (Z.to_nat VMACACHE_SIZE) 0).

Definition vmacache_valid_mm (current : task_struct) (mm : Z) : bool :=
  (task_mm current =? mm) && (Z.land (task_flags current) PF_KTHREAD =? 0).

Definition vmacache_update (mm : mm_struct) (current : task_struct) (addr newvma : Z) : outcome task_struct :=
  let* v := vma_at (vmas mm) newvma in
  if vmacache_valid_mm current (vm_mm v) then
    Ret (mk_task (task_mm current) (task_flags current) (task_seqnum current)
           (<[Z.to_nat (VMACACHE_HASH addr) := newvma]> (vmacache current)))
  else Ret current.

Definition vmacache_valid (mm : mm_struct) (current : task_struct) : task_struct * bool :=
  if negb (vmacache_valid_mm current (mm_addr mm)) then (current, false)
  else if negb (vmacache_seqnum mm =? task_seqnum current) then
    let current := mk_task (task_mm current) (task_flags current) (u32 (vmacache_seqnum mm)) (vmacache current) in
    (vmacache_flush current, false)
  else (current, true).

(** [for (i = 0; i < VMACACHE_SIZE; i++)] over the entries that are left *)
Fixpoint vmacache_scan (mm : mm_struct) (addr : Z) (entries : list Z) : outcome Z :=
  match entries with
  | [] => Ret 0
  | vma :: entries =>
      if vma =? 0 then vmacache_scan mm addr entries
      else
        let* v := vma_at (vmas mm) vma in
        if negb (vm_mm v =? mm_addr mm) then Ret 0
        else if (vm_start v <=? addr) && (addr <? vm_end v) then Ret vma
        else vmacache_scan mm addr entries
  end.

Definition vmacache_find (mm : mm_struct) (current : task_struct) (addr : Z) : outcome (task_struct * Z) :=
  let (current, valid) := vmacache_valid mm current in
  if negb valid then Ret (current, 0)
  else let* vma := vmacache_scan mm addr (vmacache current) in Ret (current, vma).

(** ** Looking up an address *)

(** [while (rb_node)] *)
Fixpoint find_vma_loop (fuel : nat) (mm : mm_struct) (addr rb_node vma : Z) : outcome Z :=
  match fuel with
  | O => Fuel
  | S fuel' =>
      if negb (rb_node =? 0) then
        let* tmp := vma_at (vmas mm) rb_node in
        if addr <? vm_end tmp then
          let vma := rb_node in
          if vm_start tmp <=? addr then Ret vma
          else let* l := get_child Left (mm_rb mm) rb_node in find_vma_loop fuel' mm addr l vma
        else let* r := get_child Right (mm_rb mm) rb_node in find_vma_loop fuel' mm addr r vma
      else Ret vma
  end.

Definition find_vma (mm : mm_struct) (current : task_struct) (addr : Z) : outcome (task_struct * Z) :=
  let* (current, vma) := vmacache_find mm current addr in
  if negb (vma =? 0) then Ret (current, vma)
  else
    let* vma := find_vma_loop (S (size (rb_nodes (mm_rb mm)))) mm addr (rb_root (mm_rb mm)) 0 in
    if negb (vma =? 0) then
      let* current := vmacache_update mm current addr vma in Ret (current, vma)
    else Ret (current, vma).

(** [while (rb_node)]: down the right sides. *)
Fixpoint rightmost_vma (fuel : nat) (mm : mm_struct) (rb_node prev : Z) : outcome Z :=
  match fuel with
  | O => Fuel
  | S fuel' =>
      if negb (rb_node =? 0) then
        let* r := get_child Right (mm_rb mm) rb_node in rightmost_vma fuel' mm r rb_node
      else Ret prev
  end.

Definition find_vma_prev (mm : mm_struct) (current : task_struct) (addr : Z) : outcome (task_struct * Z * Z) :=
  let* (current, vma) := find_vma mm current addr in
  if negb (vma =? 0) then
    let* v := vma_at (vmas mm) vma in Ret (current, vma, vm_prev v)
  else
    let* prev := rightmost_vma (S (size (rb_nodes (mm_rb mm)))) mm (rb_root (mm_rb mm)) 0 in
    Ret (current, vma, prev).

Definition find_vma_intersection (mm : mm_struct) (current : task_struct) (start_addr end_addr : Z) : outcome (task_struct * Z) :=
  let* (current, vma) := find_vma mm current start_addr in
  if negb (vma =? 0) then
    let* v := vma_at (vmas mm) vma in
    Ret (current, if end_addr <=? vm_start v then 0 else vma)
  else Ret (current, vma).

Definition find_exact_vma (mm : mm_struct) (current : task_struct) (start end_ : Z) : outcome (task_struct * Z) :=
  let* (current, vma) := find_vma mm current start in
  if negb (vma =? 0) then
    let* v := vma_at (vmas mm) vma in
    Ret (current, if negb (vm_start v =? start) || negb (vm_end v =? end_) then 0 else vma)
  else Ret (current, vma).

(** ** Looking for a free range *)
Record vm_unmapped_area_info := mk_info {
  info_flags : Z; info_length : Z; low_limit : Z; high_limit : Z; align_mask : Z; align_offset : Z
}.

(** Where the search is: at the top of its outer loop, at [check_current], or in the
    loop that goes back up; and how it ends. *)
Inductive search_pos := Visit (vma : Z) | Current (vma gap_start gap_end : Z) | Back (vma : Z).
Inductive search_end := Found (gap_start gap_end : Z) | Highest | Nomem.

Section Search.
Variable stack_guard_gap : Z.
Abbreviation vm_start_gap := (vm_start_gap stack_guard_gap).
Abbreviation vm_end_gap := (vm_end_gap stack_guard_gap).
Variable mm : mm_struct.

(** [vma->vm_prev ? vm_end_gap(vma->vm_prev) : 0] *)
Definition prev_end_gap (v : vm_area_struct) : outcome Z :=
  if negb (vm_prev v =? 0) then let* p := vma_at (vmas mm) (vm_prev v) in Ret (vm_end_gap p) else Ret 0.

(** A child, if there is one, with [rb_subtree_gap >= length] *)
Definition promising (child length : Z) : outcome bool :=
  if negb (child =? 0) then let* g := field (rb_data (mm_rb mm)) child in Ret (length <=? g) else Ret false.

Fixpoint unmapped_area_loop (fuel : nat) (length low high : Z) (pos : search_pos) : outcome search_end :=
  match fuel with
  | O => Fuel
  | S fuel' =>
      match pos with
      | Visit vma =>
          let* v := vma_at (vmas mm) vma in
          let gap_end := vm_start_gap v in
          let* l := get_child Left (mm_rb mm) vma in
          let* go := if low <=? gap_end then promising l length else Ret false in
          if go : bool then unmapped_area_loop fuel' length low high (Visit l)
          else
            let* gap_start := prev_end_gap v in
            unmapped_area_loop fuel' length low high (Current vma gap_start gap_end)
      | Current vma gap_start gap_end =>
          if high <? gap_start then Ret Nomem
          else if (low <=? gap_end) && (gap_start <? gap_end) && (length <=? gap_end - gap_start) then Ret (Found gap_start gap_end)
          else
            let* r := get_child Right (mm_rb mm) vma in
            let* go := promising r length in
            unmapped_area_loop fuel' length low high (if go : bool then Visit r else Back vma)
      | Back prev =>
          let* vma := rb_parent (mm_rb mm) prev in
          if vma =? 0 then Ret Highest
          else
            let* l := get_child Left (mm_rb mm) vma in
            if prev =? l then
              let* v := vma_at (vmas mm) vma in
              let* p := vma_at (vmas mm) (vm_prev v) in
              unmapped_area_loop fuel' length low high (Current vma (vm_end_gap p) (vm_start_gap v))
            else unmapped_area_loop fuel' length low high (Back vma)
      end
  end.

Abbreviation search_fuel := (S (4 * size (rb_nodes (mm_rb mm)))).

(** -ENOMEM as an [unsigned long] *)
Definition nomem : Z := u32 (- ENOMEM).

(** From [check_highest] and [found] on *)
Definition unmapped_area_found (info : vm_unmapped_area_info) (gap_start : Z) : Z :=
  let gap_start := if gap_start <? low_limit info then low_limit info else gap_start in
  u32 (gap_start + Z.land (u32 (align_offset info - gap_start)) (align_mask info)).

Definition unmapped_area_highest (info : vm_unmapped_area_info) (high : Z) : Z :=
  let gap_start := highest_vm_end mm in
  if high <? gap_start then nomem else unmapped_area_found info gap_start.

Definition unmapped_area (info : vm_unmapped_area_info) : outcome Z :=
  let length := u32 (info_length info + align_mask info) in
  if length <? info_length info then Ret nomem
  else if high_limit info <? length then Ret nomem
  else
    let high := high_limit info - length in
    if high <? low_limit info then Ret nomem
    else
      let low := u32 (low_limit info + length) in
      let root := rb_root (mm_rb mm) in
      if root =? 0 then Ret (unmapped_area_highest info high)
      else
        let* g := field (rb_data (mm_rb mm)) root in
        if g <? length then Ret (unmapped_area_highest info high)
        else
          let* r := unmapped_area_loop search_fuel length low high (Visit root) in
          match r with
          | Nomem => Ret nomem
          | Highest => Ret (unmapped_area_highest info high)
          | Found gap_start _ => Ret (unmapped_area_found info gap_start)
          end.

(** [gap_end] is read at [check_current], on both ways to it. *)
Fixpoint unmapped_area_topdown_loop (fuel : nat) (length low high : Z) (pos : search_pos) : outcome search_end :=
  match fuel with
  | O => Fuel
  | S fuel' =>
      match pos with
      | Visit vma =>
          let* v := vma_at (vmas mm) vma in
          let* gap_start := prev_end_gap v in
          let* r := get_child Right (mm_rb mm) vma in
          let* go := if gap_start <=? high then promising r length else Ret false in
          if go : bool then unmapped_area_topdown_loop fuel' length low high (Visit r)
          else unmapped_area_topdown_loop fuel' length low high (Current vma gap_start (vm_start_gap v))
      | Current vma gap_start gap_end =>
          if gap_end <? low then Ret Nomem
          else if (gap_start <=? high) && (gap_start <? gap_end) && (length <=? gap_end - gap_start) then Ret (Found gap_start gap_end)
          else
            let* l := get_child Left (mm_rb mm) vma in
            let* go := promising l length in
            unmapped_area_topdown_loop fuel' length low high (if go : bool then Visit l else Back vma)
      | Back prev =>
          let* vma := rb_parent (mm_rb mm) prev in
          if vma =? 0 then Ret Nomem
          else
            let* r := get_child Right (mm_rb mm) vma in
            if prev =? r then
              let* v := vma_at (vmas mm) vma in
              let* gap_start := prev_end_gap v in
              unmapped_area_topdown_loop fuel' length low high (Current vma gap_start (vm_start_gap v))
            else unmapped_area_topdown_loop fuel' length low high (Back vma)
      end
  end.

(** From [found_highest] on *)
Definition topdown_found_highest (info : vm_unmapped_area_info) (gap_end : Z) : Z :=
  let gap_end := u32 (gap_end - info_length info) in
  u32 (gap_end - Z.land (u32 (gap_end - align_offset info)) (align_mask info)).

Definition unmapped_area_topdown (info : vm_unmapped_area_info) : outcome Z :=
  let length := u32 (info_length info + align_mask info) in
  if length <? info_length info then Ret nomem
  else
    let gap_end := high_limit info in
    if gap_end <? length then Ret nomem
    else
      let high := gap_end - length in
      if high <? low_limit info then Ret nomem
      else
        let low := u32 (low_limit info + length) in
        let gap_start := highest_vm_end mm in
        if gap_start <=? high then Ret (topdown_found_highest info gap_end)
        else
          let root := rb_root (mm_rb mm) in
          if root =? 0 then Ret nomem
          else
            let* g := field (rb_data (mm_rb mm)) root in
            if g <? length then Ret nomem
            else
              let* r := unmapped_area_topdown_loop search_fuel length low high (Visit root) in
              match r with
              | Found _ gap_end =>
                  Ret (topdown_found_highest info (if high_limit info <? gap_end then high_limit info else gap_end))
              | _ => Ret nomem
              end.

Definition VM_UNMAPPED_AREA_TOPDOWN : Z := 1.

Definition vm_unmapped_area (info : vm_unmapped_area_info) : outcome Z :=
  if negb (Z.land (info_flags info) VM_UNMAPPED_AREA_TOPDOWN =? 0) then unmapped_area_topdown info else unmapped_area info.

(** ** Choosing the address of a mapping on ARM *)
Definition TASK_SIZE : Z := 3221225472 - 16777216.
Definition SHMLBA : Z := 4 * PAGE_SIZE.
Definition FIRST_USER_ADDRESS : Z := PAGE_SIZE * 2.
Definition PAGE_MASK : Z := u32 (Z.lnot (PAGE_SIZE - 1)).
Definition MAP_SHARED : Z := 1.
Definition MAP_FIXED : Z := 16.

Definition COLOUR_ALIGN (addr pgoff : Z) : Z :=
  u32 (Z.land (u32 (addr + SHMLBA - 1)) (u32 (Z.lnot (SHMLBA - 1))) + Z.land (u32 (Z.shiftl pgoff PAGE_SHIFT)) (SHMLBA - 1)).

(** [aliasing] is [cache_is_vipt_aliasing()], [filp] whether there is a file, and
    [base] is [mm->mmap_base].  What the two functions share: *)
Definition do_align (aliasing filp : bool) (flags : Z) : bool :=
  aliasing && (filp || negb (Z.land flags MAP_SHARED =? 0)).

Definition map_fixed (aliasing : bool) (addr pgoff flags : Z) : Z :=
  if aliasing && negb (Z.land flags MAP_SHARED =? 0)
     && negb (Z.land (u32 (addr - u32 (Z.shiftl pgoff PAGE_SHIFT))) (SHMLBA - 1) =? 0)
  then u32 (- EINVAL) else addr.

(** The address asked for, aligned, when its range is free. *)
Definition map_hint (current : task_struct) (align : bool) (addr len pgoff : Z) : outcome (task_struct * option Z) :=
  if negb (addr =? 0) then
    let addr := if align then COLOUR_ALIGN addr pgoff else PAGE_ALIGN addr in
    let* (current, vma) := find_vma mm current addr in
    if addr <=? u32 (TASK_SIZE - len) then
      if vma =? 0 then Ret (current, Some addr)
      else
        let* v := vma_at (vmas mm) vma in
        Ret (current, if u32 (addr + len) <=? vm_start_gap v then Some addr else None)
    else Ret (current, None)
  else Ret (current, None).

Definition align_of (align : bool) : Z := if align then Z.land PAGE_MASK (SHMLBA - 1) else 0.

Definition arch_get_unmapped_area (aliasing filp : bool) (base : Z) (current : task_struct) (addr len pgoff flags : Z) : outcome (task_struct * Z) :=
  let align := do_align aliasing filp flags in
  if negb (Z.land flags MAP_FIXED =? 0) then Ret (current, map_fixed aliasing addr pgoff flags)
  else if TASK_SIZE <? len then Ret (current, nomem)
  else
    let* (current, hint) := map_hint current align addr len pgoff in
    match hint with
    | Some addr => Ret (current, addr)
    | None =>
        let* addr := vm_unmapped_area (mk_info 0 len base TASK_SIZE (align_of align) (u32 (Z.shiftl pgoff PAGE_SHIFT))) in
        Ret (current, addr)
    end.

Definition arch_get_unmapped_area_topdown (aliasing filp : bool) (base : Z) (current : task_struct) (addr len pgoff flags : Z) : outcome (task_struct * Z) :=
  let align := do_align aliasing filp flags in
  if TASK_SIZE <? len then Ret (current, nomem)
  else if negb (Z.land flags MAP_FIXED =? 0) then Ret (current, map_fixed aliasing addr pgoff flags)
  else
    let* (current, hint) := map_hint current align addr len pgoff in
    match hint with
    | Some addr => Ret (current, addr)
    | None =>
        let offset := u32 (Z.shiftl pgoff PAGE_SHIFT) in
        let* addr := vm_unmapped_area (mk_info VM_UNMAPPED_AREA_TOPDOWN len FIRST_USER_ADDRESS base (align_of align) offset) in
        if negb (Z.land addr (u32 (Z.lnot PAGE_MASK)) =? 0) then
          let* addr := vm_unmapped_area (mk_info 0 len base TASK_SIZE (align_of align) offset) in
          Ret (current, addr)
        else Ret (current, addr)
    end.
End Search.
