(* ===== verification/AddressGaps.v ===== *)
(** * Well-formed address spaces, and keeping the gaps right *)
From Stdlib Require Import ZArith Lia Bool Sorted.
From stdpp Require Import base numbers list sorting gmap.
From S2P Require Import Prelude RBTree RBTreeShape RBTreeRep RBTreeAugment RBTreeInsert RBTreeErase RBTreeRemove RBTreeCallbacks RBTreeWalk RBTreeProps RBTreeSearch VmArea IntervalTree IntervalTreeSpec AddressSpace.

(** The area at an address. *)
Definition area (vs : gmap Z vm_area_struct) (x : Z) : vm_area_struct := default (mk_vma 0 0 0 0 0 0 0 false 0 false 0 0) (vs !! x).

Lemma vma_at_area vs x : is_Some (vs !! x) -> vma_at vs x = Ret (area vs x).
Proof. intros [v Hv]. unfold vma_at, area. by rewrite Hv. Qed.

(** The areas [l] linked in order. *)
Definition listed (vs : gmap Z vm_area_struct) (l : list Z) : Prop :=
  forall A x B, l = A ++ x :: B ->
    is_Some (vs !! x) /\ vm_prev (area vs x) = end_of Right A /\ vm_next (area vs x) = end_of Left B.

(** Areas are not empty, do not overlap, and belong to the address space. *)
Definition apart (vs : gmap Z vm_area_struct) (l : list Z) : Prop :=
  StronglySorted (fun a b => vm_end (area vs a) <= vm_start (area vs b)) l.

Definition area_ok (mm : Z) (v : vm_area_struct) : Prop :=
  0 <= vm_start v < vm_end v /\ vm_end v < 2 ^ 32 /\ vm_mm v = mm.

Section Gaps.
Variable stack_guard_gap : Z.
Abbreviation vm_start_gap := (vm_start_gap stack_guard_gap).
Abbreviation vma_compute_subtree_gap := (vma_compute_subtree_gap stack_guard_gap).

(** The gap before an area. *)
Definition own_gap (vs : gmap Z vm_area_struct) (x : Z) : Z :=
  let v := area vs x in
  if vm_prev v =? 0 then vm_start_gap v else Z.max 0 (vm_start_gap v - vm_end (area vs (vm_prev v))).

(** An area that can be read, and the one before it. *)
Definition readable (vs : gmap Z vm_area_struct) (x : Z) : Prop :=
  is_Some (vs !! x) /\ (vm_prev (area vs x) = 0 \/ is_Some (vs !! vm_prev (area vs x))).

Abbreviation gap_of vs := (last_of (own_gap vs)).

Lemma gap_computes vs : computes (vma_compute_subtree_gap vs) (gap_of vs) (readable vs).
Proof.
  intros h d x n [Hx Hp] Hn Hl Hr. unfold AddressSpace.vma_compute_subtree_gap. rewrite vma_at_area by done. cbn [obind].
  assert (Hgap : (if negb (vm_prev (area vs x) =? 0)
    then let* p := vma_at vs (vm_prev (area vs x)) in
         Ret (if vm_end_gap stack_guard_gap p <? vm_start_gap (area vs x) then vm_start_gap (area vs x) - vm_end_gap stack_guard_gap p else 0)
    else Ret (vm_start_gap (area vs x))) = Ret (own_gap vs x)).
  { unfold own_gap. destruct (Z.eqb_spec (vm_prev (area vs x)) 0) as [He|He]; cbn [negb]; [done|].
    destruct Hp as [Hp|Hp]; [done|]. rewrite vma_at_area by done. cbn [obind]. rewrite vm_end_gap_spec. f_equal.
    destruct (Z.ltb_spec (vm_end (area vs (vm_prev (area vs x)))) (vm_start_gap (area vs x))); lia. }
  rewrite Hgap. cbn [obind]. unfold get_child, get. cbn [rb_nodes]. rewrite Hn. cbn [obind child_of].
  rewrite subtree_max_spec by done. cbn [obind]. by rewrite subtree_max_spec.
Qed.

Abbreviation gaug vs := (declared_augment (vma_compute_subtree_gap vs) (gap_of vs) (readable vs) (gap_computes vs) (last_rotates (own_gap vs))).

(** The address space has the areas [l], in order of address. *)
Record mm_wf (R : nodes) (l : list Z) (mm : mm_struct) : Prop := {
  wf_tree : rb_tree R l (mm_rb mm);
  wf_gaps : values_right (gap_of (vmas mm)) (mm_rb mm) l;
  wf_list : listed (vmas mm) l;
  wf_areas : forall x, x ∈ l -> area_ok (mm_addr mm) (area (vmas mm) x);
  wf_apart : apart (vmas mm) l;
  wf_mmap : mmap mm = end_of Left l;
  wf_highest : highest_vm_end mm = from_option (fun x => vm_end (area (vmas mm) x)) 0 (last l);
  wf_count : map_count mm = Z.of_nat (length l)
}.

Lemma listed_readable vs l x : listed vs l -> x ∈ l -> readable vs x.
Proof.
  intros Hl Hx. apply list_elem_of_split in Hx as (A & B & ->). destruct (Hl A x B eq_refl) as (Hs & Hp & _). split; [done|].
  rewrite Hp. destruct A as [|y A _] using rev_ind; [by left|right]. unfold end_of. rewrite last_snoc. cbn [default].
  rewrite <- app_assoc in Hl. by apply (Hl A y (x :: B)).
Qed.

Lemma own_gap_nonneg vs x : 0 <= stack_guard_gap < 2 ^ 32 -> 0 <= vm_start (area vs x) < 2 ^ 32 -> 0 <= own_gap vs x.
Proof.
  intros guard_range Hx. unfold own_gap. pose proof (vm_start_gap_bounds stack_guard_gap (area vs x) Hx guard_range).
  destruct (_ =? 0); lia.
Qed.

(** Areas of which only the links may differ. *)
Definition unlinked (v : vm_area_struct) : vm_area_struct := set_vm_prev (set_vm_next v 0) 0.
Definition same_but_links (v v' : vm_area_struct) : Prop :=
  vm_start v = vm_start v' /\ vm_end v = vm_end v' /\ vm_mm v = vm_mm v' /\ vm_flags v = vm_flags v' /\ unlinked v = unlinked v'.

Definition relinked (vs vs' : gmap Z vm_area_struct) : Prop :=
  forall x, same_but_links (area vs x) (area vs' x) /\ (is_Some (vs !! x) -> is_Some (vs' !! x)).

#[global] Instance same_but_links_refl : Reflexive same_but_links.
Proof. intros v. by split_and!. Qed.

#[global] Instance same_but_links_trans : Transitive same_but_links.
Proof. intros v1 v2 v3 (?&?&?&?&?) (?&?&?&?&?). split_and!; by etrans. Qed.

#[global] Instance relinked_refl : Reflexive relinked.
Proof. intros vs x. by split. Qed.

#[global] Instance relinked_trans : Transitive relinked.
Proof. intros v1 v2 v3 H1 H2 x. destruct (H1 x), (H2 x). split; [by etrans|auto]. Qed.

Lemma relinked_own_gap vs vs' x : relinked vs vs' -> vm_prev (area vs x) = vm_prev (area vs' x) -> own_gap vs' x = own_gap vs x.
Proof.
  intros Hr Hp. unfold own_gap. rewrite <- Hp. destruct (Hr x) as [(Hs & _ & _ & Hf & _) _].
  destruct (Hr (vm_prev (area vs x))) as [(_ & He & _) _]. rewrite <- He. unfold VmArea.vm_start_gap. by rewrite Hs, Hf.
Qed.

Lemma area_insert vs p v z : area (<[p := v]> vs) z = if decide (z = p) then v else area vs z.
Proof. unfold area. case_decide as Hz; [subst; by rewrite lookup_insert_eq|by rewrite lookup_insert_ne]. Qed.

Lemma relink vs p v : same_but_links (area vs p) v -> relinked vs (<[p := v]> vs).
Proof.
  intros Hv z. rewrite area_insert. case_decide as Hz; [subst; split; [done|]; rewrite lookup_insert_eq; by eexists|].
  by rewrite lookup_insert_ne.
Qed.

Lemma put_vm_next_eq mm p q : is_Some (vmas mm !! p) ->
  put_vm_next mm p q = Ret (set_vmas mm (<[p := set_vm_next (area (vmas mm) p) q]> (vmas mm))).
Proof. intros Hp. unfold put_vm_next. by rewrite vma_at_area. Qed.

Lemma put_vm_prev_eq mm p q : is_Some (vmas mm !! p) ->
  put_vm_prev mm p q = Ret (set_vmas mm (<[p := set_vm_prev (area (vmas mm) p) q]> (vmas mm))).
Proof. intros Hp. unfold put_vm_prev. by rewrite vma_at_area. Qed.

(** ** Linking into the list *)

(** The links after [x] is put between [p] and [q]. *)
Definition links_between (vs vs' : gmap Z vm_area_struct) (x p q : Z) : Prop :=
  forall z,
    vm_prev (area vs' z) = (if decide (z = x) then p else if decide (z = q /\ q <> 0) then x else vm_prev (area vs z))
    /\ vm_next (area vs' z) = (if decide (z = x) then q else if decide (z = p /\ p <> 0) then x else vm_next (area vs z)).

Lemma vma_link_list_links mm x p q rb_parent :
  is_Some (vmas mm !! x) -> x <> p -> x <> q ->
  (p <> 0 -> is_Some (vmas mm !! p) /\ vm_next (area (vmas mm) p) = q) -> (p = 0 -> rb_parent = q) ->
  (q <> 0 -> is_Some (vmas mm !! q)) ->
  exists vs', __vma_link_list mm x p rb_parent = Ret (set_vmas (if p =? 0 then set_mmap mm x else mm) vs')
    /\ relinked (vmas mm) vs' /\ links_between (vmas mm) vs' x p q.
Proof.
  intros Hx Hxp Hxq Hp Hp0 Hq. unfold __vma_link_list. rewrite put_vm_prev_eq by done. cbn [obind]. set (vs1 := <[x := _]> _).
  assert (H1 : relinked (vmas mm) vs1) by (apply relink; by destruct (area (vmas mm) x)).
  assert (Hsome1 : forall z, is_Some (vmas mm !! z) -> is_Some (vs1 !! z)) by (intros z; apply H1).
  set (vs2 := if p =? 0 then vs1 else <[p := set_vm_next (area vs1 p) x]> vs1).
  assert (Hstep : (if negb (p =? 0) then
      let* pv := vma_at (vmas (set_vmas mm vs1)) p in
      let* mm := put_vm_next (set_vmas mm vs1) p x in Ret (mm, vm_next pv)
    else Ret (set_mmap (set_vmas mm vs1) x, rb_parent)) = Ret (set_vmas (if p =? 0 then set_mmap mm x else mm) vs2, q)).
  { unfold vs2. destruct (Z.eqb_spec p 0) as [Hpz|Hpz]; cbn [negb]; [by rewrite Hp0|]. destruct (Hp Hpz) as [Hps Hpn].
    cbn [vmas set_vmas]. rewrite vma_at_area by auto. cbn [obind]. rewrite put_vm_next_eq by (cbn [vmas set_vmas]; auto).
    cbn [obind vmas set_vmas]. assert (Hv : area vs1 p = area (vmas mm) p) by (unfold vs1; rewrite area_insert; by apply decide_False).
    by rewrite Hv, Hpn. }
  rewrite Hstep. cbn [obind]. clear Hstep.
  assert (H2 : relinked (vmas mm) vs2).
  { unfold vs2. destruct (p =? 0); [done|]. etrans; [exact H1|]. apply relink. by destruct (area vs1 p). }
  assert (Hsome2 : forall z, is_Some (vmas mm !! z) -> is_Some (vs2 !! z)) by (intros z; apply H2).
  rewrite put_vm_next_eq by (cbn [vmas set_vmas]; auto). cbn [obind vmas set_vmas]. set (vs3 := <[x := _]> vs2).
  assert (H3 : relinked (vmas mm) vs3) by (etrans; [exact H2|]; apply relink; by destruct (area vs2 x)).
  assert (Hl3 : forall z, vm_prev (area vs3 z) = (if decide (z = x) then p else vm_prev (area (vmas mm) z))
    /\ vm_next (area vs3 z) = (if decide (z = x) then q else if decide (z = p /\ p <> 0) then x else vm_next (area (vmas mm) z))).
  { assert (Hv1 : forall z, area vs1 z = if decide (z = x) then set_vm_prev (area (vmas mm) x) p else area (vmas mm) z)
      by (intros z; apply area_insert).
    assert (Hv2 : forall z, area vs2 z = if decide (z = p /\ p <> 0) then set_vm_next (area vs1 p) x else area vs1 z).
    { intros z. unfold vs2. destruct (Z.eqb_spec p 0) as [Hpz|Hpz]; [by rewrite decide_False by tauto|]. rewrite area_insert.
      destruct (decide (z = p)) as [->|Hz]; [by rewrite decide_True|by rewrite decide_False by tauto]. }
    intros z. unfold vs3. rewrite area_insert. destruct (decide (z = x)) as [->|Hzx].
    - rewrite Hv2, decide_False, Hv1, decide_True by tauto. done.
    - rewrite Hv2. destruct (decide (z = p /\ p <> 0)) as [[-> _]|Hzp]; rewrite Hv1, decide_False by done; done. }
  destruct (Z.eqb_spec q 0) as [Hqz|Hqz]; cbn [negb].
  - exists vs3. split_and!; [done|done|]. intros z. destruct (Hl3 z) as [-> ->]. split; [|done].
    destruct (decide (z = x)); [done|]. by rewrite (decide_False (P := z = q /\ q <> 0)) by tauto.
  - rewrite put_vm_prev_eq by (cbn [vmas set_vmas]; apply H3; auto). cbn [vmas set_vmas]. eexists. split_and!; [done| |].
    + etrans; [exact H3|]. apply relink. by destruct (area vs3 q).
    + intros z. destruct (Hl3 z) as [Hpz Hnz]. rewrite area_insert. destruct (decide (z = q)) as [->|Hz].
      * cbn [vm_prev vm_next set_vm_prev]. rewrite decide_False in Hpz |- * by done. rewrite decide_True by done. split; [done|exact Hnz].
      * rewrite Hpz, Hnz. split; [|done]. destruct (decide (z = x)); [done|]. by rewrite (decide_False (P := z = q /\ q <> 0)) by tauto.
Qed.

Lemma end_right_snoc A x : end_of Right (A ++ [x]) = x.
Proof. unfold end_of. by rewrite last_snoc. Qed.

Lemma end_right_app A x B : end_of Right (A ++ x :: B) = end_of Right (x :: B).
Proof. unfold end_of. rewrite last_app. destruct (last (x :: B)) eqn:Hl; [done|]. by apply last_None in Hl. Qed.

Lemma end_right_last A x B : NoDup (A ++ x :: B) -> x = end_of Right (A ++ x :: B) -> B = [].
Proof.
  rewrite end_right_app. destruct B as [|y B]; [done|]. intros (_ & _ & [Hx _]%NoDup_cons)%NoDup_app Heq.
  change (x :: y :: B) with ([x] ++ y :: B) in Heq. rewrite end_right_app in Heq. exfalso. apply Hx. rewrite Heq.
  unfold end_of. destruct (last (y :: B)) eqn:Hl; [by apply last_Some_elem_of|by apply last_None in Hl].
Qed.

Lemma end_in s (l : list Z) : l <> [] -> end_of s l ∈ l.
Proof.
  intros Hl. destruct s; unfold end_of.
  - destruct l; [done|apply list_elem_of_here].
  - destruct (last l) as [y|] eqn:Hy; [by apply last_Some_elem_of|by apply last_None in Hy].
Qed.

Lemma links_between_listed vs vs' A x B : listed vs (A ++ B) -> NoDup (A ++ x :: B) -> (0 ∉ A ++ x :: B) ->
  is_Some (vs !! x) -> relinked vs vs' -> links_between vs vs' x (end_of Right A) (end_of Left B) -> listed vs' (A ++ x :: B).
Proof.
  intros Hl Hnd H0 Hx Hr Hb A' y B' Heq.
  assert (Hyl : y ∈ A ++ x :: B) by (rewrite Heq; set_solver).
  assert (Hy0 : y <> 0) by (intros ->; done).
  assert (Hys : is_Some (vs !! y)).
  { apply elem_of_app in Hyl as [Hy|[->|Hy]%elem_of_cons]; [| done |].
    - apply list_elem_of_split in Hy as (A1 & A2 & ->). rewrite <- app_assoc in Hl. by apply (Hl A1 y (A2 ++ B)).
    - apply list_elem_of_split in Hy as (B1 & B2 & ->). rewrite app_assoc in Hl. by apply (Hl (A ++ B1) y B2). }
  split; [by apply Hr|]. destruct (Hb y) as [-> ->].
  apply NoDup_app in Hnd as (HndA & HAB & [HxB HndB]%NoDup_cons).
  apply app_eq_inv in Heq as [(K & HA & HB)|(K & HA & HB)].
  - destruct K as [|z K]; [|injection HB as <- ->].
    { rewrite app_nil_r in HA. subst A'. injection HB as -> ->. by rewrite !decide_True. }
    subst A. rewrite <- app_assoc in Hl. destruct (Hl A' y (K ++ B) eq_refl) as (_ & Hp & Hn).
    assert (Hyx : y <> x) by (intros ->; apply (HAB x); set_solver).
    rewrite !(decide_False (P := y = x)) by done. split.
    + rewrite decide_False; [done|]. intros [Hq Hq0]. apply (HAB y); [set_solver|]. rewrite Hq. apply elem_of_cons. right.
      apply end_in. by intros ->.
    + destruct K as [|z K _] using rev_ind.
      * rewrite end_right_snoc, decide_True by done. done.
      * rewrite decide_False; [rewrite Hn; by destruct K|]. intros [Hyz _]. 
        change (A' ++ y :: K ++ [z]) with (A' ++ (y :: K) ++ [z]) in Hyz. rewrite app_assoc, end_right_snoc in Hyz. subst z.
        apply NoDup_app in HndA as (_ & _ & [Hin _]%NoDup_cons). set_solver.
  - destruct K as [|z K]; [injection HB as -> ->; rewrite app_nil_r in HA; subst A'; by rewrite !decide_True|].
    injection HB as <- ->. subst A'. rewrite app_assoc in Hl. destruct (Hl (A ++ K) y B' eq_refl) as (_ & Hp & Hn).
    assert (HyB : y ∈ K ++ y :: B') by (apply elem_of_app; right; apply list_elem_of_here).
    assert (Hyx : y <> x) by (intros ->; done).
    rewrite !(decide_False (P := y = x)) by done. split.
    + destruct K as [|z K].
      * rewrite decide_True by done. by rewrite end_right_snoc.
      * apply NoDup_cons in HndB as [Hin _]. change (z ∉ K ++ y :: B') in Hin.
        rewrite decide_False by (intros [Heq _]; change (y = z) in Heq; subst z; apply Hin, elem_of_app; right; apply list_elem_of_here).
        rewrite Hp. change (A ++ x :: z :: K) with (A ++ [x] ++ z :: K). by rewrite app_assoc, !end_right_app.
    + rewrite decide_False; [done|]. intros [Hq Hq0]. apply (HAB y); [|by apply list_elem_of_further]. rewrite Hq. apply end_in. by intros ->.
Qed.

Lemma relinked_apart vs vs' l : relinked vs vs' -> apart vs l -> apart vs' l.
Proof.
  intros Hr Ha. unfold apart in *. induction Ha as [|x l Hl IH HF]; constructor; [done|]. eapply Forall_impl; [exact HF|].
  simpl. intros y. destruct (Hr x) as [(_ & Hx & _) _], (Hr y) as [(Hy & _) _]. by rewrite Hx, Hy.
Qed.

Lemma relinked_area_ok vs vs' m x : relinked vs vs' -> area_ok m (area vs x) -> area_ok m (area vs' x).
Proof. intros Hr. destruct (Hr x) as [(Hs & He & Hm & _) _]. unfold area_ok. by rewrite Hs, He, Hm. Qed.

(** ** Updating the gaps on a path *)

(** Nodes whose own gap does not change keep right values. *)
Lemma fitting_relinked vs vs' d w : (forall z, z ∈ elems w -> readable vs' z /\ own_gap vs' z = own_gap vs z) ->
  fitting (Augment0 := gaug vs) d w -> fitting (Augment0 := gaug vs') d w.
Proof.
  induction w as [|c a IHa x b IHb]; [done|]. cbn [elems fitting]. intros Hz ([_ Hx] & Ha & Hb). split_and!.
  - destruct (Hz x) as [Hr Hg]; [set_solver|]. split; [done|]. unfold fits_value, last_of in *. by rewrite Hg.
  - apply IHa; [|done]. intros z Hza. apply Hz. set_solver.
  - apply IHb; [|done]. intros z Hza. apply Hz. set_solver.
Qed.

Lemma kfitting_relinked vs vs' d k : forall hp, (forall z, z ∈ kelems k -> readable vs' z /\ own_gap vs' z = own_gap vs z) ->
  kfitting (Augment0 := gaug vs) d k hp -> kfitting (Augment0 := gaug vs') d k hp.
Proof.
  unfold kelems. induction k as [|[s c x o] k IH]; intros hp Hz; [done|]. cbn [kfitting]. intros (Hx & Ho & Hk).
  assert (Hin : forall z, z = x \/ z ∈ elems o \/ z ∈ before k ++ after k -> readable vs' z /\ own_gap vs' z = own_gap vs z).
  { intros z Hzz. apply Hz. destruct s; cbn [before after]; set_solver. }
  split_and!.
  - destruct (Hin x) as [Hr Hg]; [by left|]. destruct s; destruct Hx as [_ Hx]; (split; [done|]); unfold fits_value, last_of in *; by rewrite Hg.
  - eapply fitting_relinked; [|exact Ho]. intros z Hzo. apply Hin. auto.
  - apply IH; [|done]. intros z Hzk. apply Hin. auto.
Qed.

Lemma gap_update_spec R mm L k c a x b :
  own R (L ++ cells (plug k (T c a x b)) 0) (rb_nodes (mm_rb mm)) ->
  fitting_but (Augment0 := gaug (vmas mm)) (rb_data (mm_rb mm)) k a x b ->
  exists d', vma_gap_update stack_guard_gap mm x = Ret (set_mm_rb mm (set_data (mm_rb mm) d'))
    /\ fitting (Augment0 := gaug (vmas mm)) d' (plug k (T c a x b)).
Proof.
  intros Ho (Hx & Ha & Hb & Hk). rewrite cells_plug in Ho.
  destruct (propagate_up (Augment0 := gaug (vmas mm)) R (rb_nodes (mm_rb mm)) (rb_data (mm_rb mm)) (F Left c x b :: k) a L) as (d' & Hd & Hf).
  - eapply own_perm; [|reflexivity|exact Ho]. cbn [cells kcells above ptr]. solve_Permutation.
  - done.
  - split_and!; [done| |done]. constructor; [done|]. by eapply (kfitting_stale (Augment0 := gaug (vmas mm))).
  - exists d'. split; [|exact Hf]. unfold vma_gap_update, call. cbn [above] in Hd. unfold vma_gap_callbacks. rewrite Hd. done.
Qed.
End Gaps.
