(* ===== verification/AddressLink.v ===== *)
(** * Linking areas into an address space *)
From Stdlib Require Import ZArith Lia Bool Sorted.
From stdpp Require Import base numbers list sorting gmap.
From S2P Require Import Prelude RBTree RBTreeShape RBTreeRep RBTreeAugment RBTreeInsert RBTreeErase RBTreeRemove RBTreeCallbacks RBTreeWalk RBTreeProps RBTreeSearch VmArea IntervalTree IntervalTreeSpec AddressSpace AddressGaps.

(** The area [z] meets the range from [addr] to [end_]. *)
Definition meets (vs : gmap Z vm_area_struct) (addr end_ z : Z) : Prop := addr < vm_end (area vs z) /\ vm_start (area vs z) < end_.

#[global] Instance meets_dec vs addr end_ z : Decision (meets vs addr end_ z).
Proof. unfold meets. apply _. Defined.

Section Link.
Variable stack_guard_gap : Z.
Abbreviation gaug vs := (declared_augment (vma_compute_subtree_gap stack_guard_gap vs) (last_of (own_gap stack_guard_gap vs)) (readable vs)
  (gap_computes stack_guard_gap vs) (last_rotates (own_gap stack_guard_gap vs))).
Abbreviation mm_wf := (mm_wf stack_guard_gap).

(** ** Finding the place *)

(** The way [find_vma_links] goes. *)
Abbreviation vma_way vs addr := (way_down (fun y => addr <? vm_end (area vs y))).

Lemma links_loop_spec R L mm addr end_ fuel : forall w k,
  own R L (rb_nodes (mm_rb mm)) -> cells w (above k) ⊆+ L ->
  (forall z, z ∈ elems w -> is_Some (vmas mm !! z) /\ vm_start (area (vmas mm) z) < vm_end (area (vmas mm) z)) ->
  apart (vmas mm) (elems w) -> (length (elems w) < fuel)%nat ->
  let k' := vma_way (vmas mm) addr w k in
  links_loop fuel mm addr end_ (ptr w) (above k) (last_side k) (end_of Right (before k))
  = Ret (if decide (Exists (meets (vmas mm) addr end_) (elems w)) then inl (- ENOMEM)
         else inr (end_of Right (before k'), above k', last_side k')).
Proof.
  destruct mm as [m vs [h r d] mp hi ct sq]. cbn [mm_rb vmas rb_nodes].
  induction fuel as [|fuel IH]; intros w k Ho Hs Hw Hap Hf; [lia|]. destruct w as [|c a y b].
  { rewrite decide_False; [done|]. by intros H%Exists_nil. }
  cbn [links_loop ptr way_down cells elems] in *. rewrite length_app in Hf. simpl in Hf.
  assert (Hy : (y, mk_node (pack (above k) c) (ptr b) (ptr a)) ∈ L) by exact (elem_of_submseteq _ _ _ (list_elem_of_here _ _) Hs).
  assert (Hv : valid y) by (eapply own_valid; [exact Ho|]; by apply (list_elem_of_fmap_2 fst) in Hy).
  rewrite (proj2 (Z.eqb_neq y 0)) by by apply valid_neq0. cbn [negb vmas mm_rb].
  destruct (Hw y) as [Hys Hyo]; [set_solver|]. rewrite vma_at_area by done. cbn [obind].
  rewrite !(cell_children R h r d L y _ _ Ho Hy).
  unfold apart in Hap. apply StronglySorted_app in Hap as (Hlr & Hal & Hyr). inversion_clear Hyr as [|? ? Har HF]. rewrite Forall_forall in HF.
  destruct (Z.ltb_spec addr (vm_end (area vs y))) as [H1|H1].
  - destruct (Z.ltb_spec (vm_start (area vs y)) end_) as [H2|H2].
    { rewrite decide_True; [done|]. apply Exists_app. right. by apply Exists_cons_hd. }
    cbn [obind child_of rb_left]. pose proof (IH a (F Left c y b :: k) Ho) as IHa. cbn [above last_side before] in IHa.
    rewrite IHa; [|etrans; [|exact Hs]; solve_submseteq|intros z Hz; apply Hw; set_solver|exact Hal|lia]. f_equal.
    apply decide_ext. rewrite Exists_app, Exists_cons. split; [by left|]. intros [He|[[_ He]|He]]; [done|lia|].
    apply Exists_exists in He as (z & Hz & _ & Hz2). specialize (HF z Hz). lia.
  - cbn [obind child_of rb_right]. pose proof (IH b (F Right c y a :: k) Ho) as IHb. cbn [above last_side before] in IHb.
    rewrite app_assoc, end_right_snoc in IHb.
    rewrite IHb; [|etrans; [|exact Hs]; solve_submseteq|intros z Hz; apply Hw; set_solver|exact Har|lia]. f_equal.
    apply decide_ext. rewrite Exists_app, Exists_cons. split; [by right; right|]. intros [He|[[He _]|He]]; [|lia|done].
    apply Exists_exists in He as (z & Hz & Hz1 & _). specialize (Hlr z y Hz (list_elem_of_here _ _)). simpl in Hlr. lia.
Qed.

(** The place keeps the order of addresses. *)
Lemma vma_way_sides vs addr end_ w : apart vs (elems w) ->
  (forall z, z ∈ elems w -> vm_start (area vs z) < vm_end (area vs z)) ->
  ~ Exists (meets vs addr end_) (elems w) ->
  let k := vma_way vs addr w [] in
  (forall y, y ∈ before k -> vm_end (area vs y) <= addr) /\ (forall y, y ∈ after k -> end_ <= vm_start (area vs y)).
Proof.
  intros Hap Hne Hno k. destruct (way_down_sides (fun y => addr <? vm_end (area vs y)) w []) as [Hb Ha]; [|constructor..|].
  - unfold apart in Hap. induction Hap as [|y l Hl IH HF]; constructor; [apply IH|].
    + intros z Hz. apply Hne. set_solver.
    + intros He. apply Hno. by apply Exists_cons_tl.
    + rewrite Forall_forall in HF |- *. intros z Hz. rewrite !Z.ltb_lt. specialize (HF z Hz). specialize (Hne z). 
      assert (vm_start (area vs z) < vm_end (area vs z)) by (apply Hne; set_solver). lia.
  - fold k in Hb, Ha. rewrite Forall_forall in Hb, Ha. split.
    + intros y Hy. specialize (Hb y Hy). simpl in Hb. by apply Z.ltb_ge in Hb.
    + intros y Hy. specialize (Ha y Hy). simpl in Ha. apply Z.ltb_lt in Ha.
      destruct (Z.le_gt_cases end_ (vm_start (area vs y))); [done|]. exfalso. apply Hno, Exists_exists. exists y. split; [|split; lia].
      pose proof (plug_way_down (fun y => addr <? vm_end (area vs y)) w []) as Hp. fold k in Hp. cbn [plug] in Hp.
      rewrite <- Hp, elems_plug. set_solver.
Qed.

(** ** Gaps while an area is linked *)

(** A new leaf with no gap does not change the values above it. *)
Lemma zero_leaf vs d k x : x <> 0 -> (x ∉ kelems k) -> (forall y, y ∈ kelems k -> 0 <= own_gap stack_guard_gap vs y) ->
  kfitting (Augment0 := gaug vs) d k 0 -> kfitting (Augment0 := gaug vs) (<[x := 0]> d) k x.
Proof.
  intros Hx0 Hx Hg Hk. destruct k as [|[s c y o] k]; [done|]. cbn [kfitting] in *. destruct Hk as (Hy & Ho & Hk).
  unfold kelems in *.
  assert (Hin : forall z, z = y \/ z ∈ elems o \/ z ∈ before k ++ after k -> z ∈ before (F s c y o :: k) ++ after (F s c y o :: k)).
  { intros z. destruct s; cbn [before after]; set_solver. }
  assert (Hv : forall z, z = y \/ z ∈ elems o \/ z ∈ before k ++ after k -> value d z = value (<[x := 0]> d) z).
  { intros z Hz. symmetry. apply value_insert; [done|]. intros ->. apply Hx, Hin, Hz. }
  assert (Hpo : value d (ptr o) = value (<[x := 0]> d) (ptr o)) by (apply value_ptr; intros z Hz; apply Hv; auto).
  assert (Hvx : value (<[x := 0]> d) x = Some 0) by by apply value_insert_eq.
  assert (Hgy : 0 <= own_gap stack_guard_gap vs y) by (apply Hg, Hin; by left).
  split_and!.
  - destruct s; destruct Hy as [Hr Hy]; (split; [done|]); unfold fits_value in *;
      rewrite <- (Hv y (or_introl eq_refl)), Hy, Hvx, Hpo; unfold last_of; destruct (value (<[x := 0]> d) (ptr o)); simpl; apply (f_equal Some); lia.
  - eapply fitting_value; [|exact Ho]. intros z Hz. apply Hv. auto.
  - apply (kfitting_same (Augment0 := gaug vs) d) with (hp := y); [|done| |exact Hk].
    + intros z Hz. split; [|done]. apply Hv. auto.
    + split; [|done]. apply Hv. by left.
Qed.

(** The area after the new one has another gap now. *)
Lemma next_gap_update R mm w y vs L : own R (L ++ cells w 0) (rb_nodes (mm_rb mm)) -> y ∈ elems w ->
  fitting (Augment0 := gaug vs) (rb_data (mm_rb mm)) w ->
  (forall z, z ∈ elems w -> readable (vmas mm) z) ->
  (forall z, z ∈ elems w -> z <> y -> own_gap stack_guard_gap (vmas mm) z = own_gap stack_guard_gap vs z) ->
  exists d', vma_gap_update stack_guard_gap mm y = Ret (set_mm_rb mm (set_data (mm_rb mm) d'))
    /\ fitting (Augment0 := gaug (vmas mm)) d' w.
Proof.
  intros Ho Hy Hf Hr Hg. destruct (elem_context y w Hy) as (k & c & a & b & ->).
  assert (Hnd : NoDup (elems (plug k (T c a y b)))).
  { pose proof (own_nodup _ _ _ Ho) as Hnd. rewrite fmap_app, cells_keys in Hnd. by apply NoDup_app in Hnd as (_ & _ & Hnd). }
  rewrite kelems_plug in Hnd. cbn [elems] in Hnd. rewrite <- app_assoc in Hnd.
  assert (Hne : forall z, z ∈ elems a \/ z ∈ elems b \/ z ∈ kelems k -> z <> y).
  { intros z Hz ->. apply (NoDup_Permutation_proper _ _ (Permutation_sym (Permutation_middle _ _ _))) in Hnd.
    apply NoDup_cons in Hnd as [Hnd _]. apply Hnd. rewrite !elem_of_app. tauto. }
  assert (Hin : forall z, z ∈ elems a \/ z ∈ elems b \/ z ∈ kelems k -> z ∈ elems (plug k (T c a y b))).
  { intros z Hz. rewrite kelems_plug. cbn [elems]. rewrite !elem_of_app, elem_of_cons. tauto. }
  apply fitting_plug in Hf as [([_ Hfy] & Hfa & Hfb) Hfk].
  apply (gap_update_spec stack_guard_gap R mm L k c a y b Ho). split_and!.
  - split; [by apply Hr|by eexists].
  - eapply fitting_relinked; [|exact Hfa]. intros z Hz. split; [apply Hr, Hin|apply Hg; [apply Hin|apply Hne]]; auto.
  - eapply fitting_relinked; [|exact Hfb]. intros z Hz. split; [apply Hr, Hin|apply Hg; [apply Hin|apply Hne]]; auto.
  - eapply kfitting_relinked; [|exact Hfk]. intros z Hz. split; [apply Hr, Hin|apply Hg; [apply Hin|apply Hne]]; auto.
Qed.

Lemma vma_link_rb_spec R mm vs0 k x n :
  own R ((x, n) :: cells (plug k E) 0) (rb_nodes (mm_rb mm)) -> rb_root (mm_rb mm) = ptr (plug k E) -> balanced (plug k E) ->
  fitting (Augment0 := gaug vs0) (rb_data (mm_rb mm)) (plug k E) ->
  vm_next (area (vmas mm) x) = end_of Left (after k) ->
  (forall z, z ∈ x :: elems (plug k E) -> readable (vmas mm) z) ->
  (forall z, z ∈ elems (plug k E) -> z <> end_of Left (after k) ->
     own_gap stack_guard_gap (vmas mm) z = own_gap stack_guard_gap vs0 z) ->
  (forall z, z ∈ elems (plug k E) -> 0 <= own_gap stack_guard_gap (vmas mm) z) ->
  let l := before k ++ x :: after k in
  runs (__vma_link_rb stack_guard_gap mm x (above k) (last_side k)) (fun mm' => exists t',
    mm' = set_mm_rb (match after k with [] => set_highest_vm_end mm (vm_end (area (vmas mm) x)) | _ => mm end) t'
    /\ rb_tree R l t' /\ values_right (last_of (own_gap stack_guard_gap (vmas mm))) t' l).
Proof.
  intros Ho Hroot Hb Hf Hnext Hr Hg Hpos l.
  assert (Hv : valid x) by (eapply own_valid; [exact Ho|apply list_elem_of_here]).
  assert (Hel : elems (plug k E) = before k ++ after k) by by rewrite elems_plug.
  destruct mm as [m vs [h r d] mp hi ct sq]. cbn [mm_rb vmas rb_nodes rb_root rb_data] in *. subst r.
  unfold __vma_link_rb. cbn [vmas]. rewrite vma_at_area by (apply Hr; apply list_elem_of_here). cbn [obind].
  assert (Hstep : exists d1, (if negb (vm_next (area vs x) =? 0)
      then vma_gap_update stack_guard_gap (mk_mm m vs (mk_rb h (ptr (plug k E)) d) mp hi ct sq) (vm_next (area vs x))
      else Ret (set_highest_vm_end (mk_mm m vs (mk_rb h (ptr (plug k E)) d) mp hi ct sq) (vm_end_gap stack_guard_gap (area vs x))))
    = Ret (mk_mm m vs (mk_rb h (ptr (plug k E)) d1) mp (match after k with [] => vm_end (area vs x) | _ => hi end) ct sq)
    /\ fitting (Augment0 := gaug vs) d1 (plug k E)).
  { rewrite Hnext. destruct (after k) as [|y B] eqn:HB.
    - change (end_of Left []) with 0. exists d. rewrite vm_end_gap_spec. split; [done|]. eapply fitting_relinked; [|exact Hf]. intros z Hz.
      split; [by apply Hr, list_elem_of_further|]. apply Hg; [done|]. change (end_of Left []) with 0. intros ->.
      rewrite <- (cells_keys (plug k E) 0) in Hz. apply (valid_neq0 0); [|done]. eapply own_valid; [exact Ho|]. by apply list_elem_of_further.
    - change (end_of Left (y :: B)) with y. assert (Hy : y ∈ elems (plug k E)) by (rewrite Hel; set_solver).
      assert (Hvy : valid y) by (eapply own_valid; [exact Ho|]; rewrite fmap_cons, cells_keys; by apply list_elem_of_further).
      rewrite (proj2 (Z.eqb_neq y 0)) by by apply valid_neq0. cbn [negb].
      destruct (next_gap_update R (mk_mm m vs (mk_rb h (ptr (plug k E)) d) mp hi ct sq) (plug k E) y vs0 [(x, n)]) as (d1 & Hd & Hf1); try done.
      + intros z Hz. by apply Hr, list_elem_of_further.
      + exists d1. rewrite Hd. done. }
  destruct Hstep as (d1 & -> & Hf1). cbn [obind mm_rb]. apply runs_bind. rewrite top_plug. cbn [ptr].
  eapply rb_link_node_spec; [exact Ho|apply last_side_on|]. intros h' Ho'. cbn [rb_nodes rb_data set_data].
  apply fitting_plug in Hf1 as [_ Hk1]. cbn [ptr] in Hk1.
  assert (Hxk : x ∉ kelems k).
  { pose proof (own_nodup _ _ _ Ho) as Hnd. rewrite fmap_cons, cells_keys, Hel in Hnd. by apply NoDup_cons in Hnd as [Hnd _]. }
  assert (Hk2 : kfitting (Augment0 := gaug vs) (<[x := 0]> d1) k x).
  { apply zero_leaf; [by apply valid_neq0|done| |done]. intros y Hy. apply Hpos. by rewrite Hel. }
  set (mm2 := set_mm_rb _ _).
  destruct (gap_update_spec stack_guard_gap R mm2 [] k Red E x E) as (d3 & Hd3 & Hf3); [exact Ho'| |].
  { split_and!; [|done|done|exact Hk2]. split; [apply Hr, list_elem_of_here|]. unfold mm2. cbn [mm_rb set_mm_rb set_data rb_data].
    rewrite value_insert_eq by by apply valid_neq0. by eexists. }
  rewrite Hd3. cbn [obind]. unfold vma_rb_insert. apply runs_bind.
  eapply runs_mono; [apply (insert_linked (Augment0 := gaug vs) R (set_data (mm_rb mm2) d3) k x); [exact Ho'|done|done|exact Hf3]|].
  intros t' Ht'. apply runs_ret. apply (augmented_root _ _ _ (gap_computes _ vs) (last_rotates _)) in Ht' as (H1 & H2 & _).
  exists t'. split_and!; [|done|done]. by destruct (after k).
Qed.

(** Addresses of nodes are multiples of four, so there are less than 2^30 areas. *)
Lemma valid_count (l : list Z) : NoDup l -> Forall valid l -> Z.of_nat (length l) < 2 ^ 30.
Proof.
  intros Hnd Hv. rewrite Forall_forall in Hv. set (N := Z.to_nat (2 ^ 30 - 1)).
  assert (Hs : (fun x => Z.to_nat (x / 4)) <$> l ⊆+ seq 1 N).
  { apply NoDup_submseteq.
    - apply NoDup_fmap_2_strong; [|done]. intros x y Hx Hy Heq. destruct (Hv x Hx) as [Hx1 Hx2], (Hv y Hy) as [Hy1 Hy2].
      pose proof (Z.div_mod x 4). pose proof (Z.div_mod y 4). pose proof (Z.div_pos x 4). pose proof (Z.div_pos y 4). lia.
    - intros n Hn. apply list_elem_of_fmap in Hn as (x & -> & Hx). destruct (Hv x Hx) as [Hx1 Hx2]. apply elem_of_seq. unfold N.
      pose proof (Z.div_mod x 4). assert (x / 4 < 2 ^ 30) by (apply Z.div_lt_upper_bound; lia). lia. }
  apply submseteq_length in Hs. rewrite length_fmap, length_seq in Hs. unfold N in Hs. lia.
Qed.

Abbreviation start_of vs := (fun y => vm_start (area vs y)).

(** The place of [x], in the order of addresses. *)
Lemma place_sorted vs A x B : apart vs (A ++ B) -> (forall y, y ∈ A ++ x :: B -> vm_start (area vs y) < vm_end (area vs y)) ->
  (forall y, y ∈ A -> vm_end (area vs y) <= vm_start (area vs x)) -> (forall y, y ∈ B -> vm_end (area vs x) <= vm_start (area vs y)) ->
  apart vs (A ++ x :: B) /\ insert_by (start_of vs) x (A ++ B) = A ++ x :: B.
Proof.
  intros Hap Hne HA HB. split.
  - unfold apart in *. apply StronglySorted_app in Hap as (HAB & HsA & HsB). apply StronglySorted_app. split_and!; [|done|].
    + intros a b Ha [->|Hb]%elem_of_cons; auto.
    + constructor; [done|]. by apply Forall_forall.
  - apply insert_by_app; apply Forall_forall; intros y Hy.
    + specialize (HA y Hy). pose proof (Hne y). assert (vm_start (area vs y) < vm_end (area vs y)) by (apply Hne; set_solver). lia.
    + specialize (HB y Hy). assert (vm_start (area vs x) < vm_end (area vs x)) by (apply Hne; set_solver). lia.
Qed.

(** An address space with the areas [A ++ B], in which the gap of the first area of [B],
    or the end of all areas when there is none, may not be right yet: the other gaps are
    as for the areas [vs0]. *)
Record mm_wf_but (vs0 : gmap Z vm_area_struct) (R : nodes) (A B : list Z) (mm : mm_struct) : Prop := {
  but_tree : rb_tree R (A ++ B) (mm_rb mm);
  but_gaps : values_right (last_of (own_gap stack_guard_gap vs0)) (mm_rb mm) (A ++ B);
  but_known : forall z, z ∈ A ++ B -> readable vs0 z;
  but_same : forall z, z ∈ A ++ B -> z <> end_of Left B -> own_gap stack_guard_gap (vmas mm) z = own_gap stack_guard_gap vs0 z;
  but_list : listed (vmas mm) (A ++ B);
  but_areas : forall x, x ∈ A ++ B -> area_ok (mm_addr mm) (area (vmas mm) x);
  but_apart : apart (vmas mm) (A ++ B);
  but_mmap : mmap mm = end_of Left (A ++ B);
  but_highest : B <> [] -> highest_vm_end mm = from_option (fun x => vm_end (area (vmas mm) x)) 0 (last (A ++ B));
  but_count : map_count mm = Z.of_nat (length (A ++ B))
}.

Lemma mm_wf_wf_but R A B mm : mm_wf R (A ++ B) mm -> mm_wf_but (vmas mm) R A B mm.
Proof. intros [? ? Hl ? ? ? ? ?]. split; try done. intros z Hz. by eapply listed_readable. Qed.

(** Linking at the free place of the context [k]. *)
Lemma vma_link_spec vs0 R mm k x : 0 <= stack_guard_gap < 2 ^ 32 -> mm_wf_but vs0 R (before k) (after k) mm ->
  fresh (mm_rb mm) (before k ++ after k) x -> is_Some (vmas mm !! x) -> area_ok (mm_addr mm) (area (vmas mm) x) ->
  own R (cells (plug k E) 0) (rb_nodes (mm_rb mm)) -> rb_root (mm_rb mm) = ptr (plug k E) -> balanced (plug k E) ->
  apart (vmas mm) (before k ++ x :: after k) ->
  runs (__vma_link stack_guard_gap mm x (end_of Right (before k)) (above k) (last_side k)) (fun mm' =>
    mm_wf R (before k ++ x :: after k) (set_map_count mm' (map_count mm + 1)) /\ relinked (vmas mm) (vmas mm')
    /\ map_count mm' = map_count mm /\ mm_addr mm' = mm_addr mm /\ vmacache_seqnum mm' = vmacache_seqnum mm).
Proof.
  intros HG Hwf Hfx Hxs Hxok Ho Hr Hb Hap. pose proof Hwf as [_ Hgap Hknown Hsame Hlist Hok _ Hmm Hhi Hct].
  remember (before k ++ after k) as l eqn:Hl.
  assert (He : elems (plug k E) = l) by by rewrite Hl, elems_plug.
  destruct (own_fresh R (mm_rb mm) l x (plug k E) Ho He Hfx) as [n Hn].
  assert (Hnd : NoDup (x :: l) /\ Forall valid (x :: l)).
  { destruct Hn as [Hn1 Hn2 _]. rewrite fmap_cons, cells_keys, He in Hn1, Hn2. done. }
  destruct Hnd as [Hnd Hval]. set (A := before k) in *. set (B := after k) in *.
  assert (HndAB : NoDup (A ++ x :: B)) by (rewrite <- Permutation_middle, <- Hl; done).
  assert (H0 : 0 ∉ A ++ x :: B).
  { intros H0. rewrite Forall_forall in Hval. apply (valid_neq0 0); [|done]. apply Hval. rewrite Hl. set_solver. }
  assert (Hsome : forall y, y ∈ l -> is_Some (vmas mm !! y)) by (intros y Hy; by apply (listed_readable (vmas mm) l)).
  assert (HAin : A <> [] -> end_of Right A ∈ l) by (intros HA; rewrite Hl, elem_of_app; left; by apply end_in).
  assert (HBin : B <> [] -> end_of Left B ∈ l) by (intros HB; rewrite Hl, elem_of_app; right; by apply end_in).
  assert (Hend0 : forall s (K : list Z), end_of s K <> 0 -> K <> []) by (intros s K HK ->; by destruct s).
  assert (Hxne : forall y, y ∈ l -> x <> y) by (intros y Hy ->; by apply NoDup_cons in Hnd as [Hnd _]).
  assert (Hx0 : x <> 0) by (intros ->; apply H0; set_solver).
  unfold __vma_link.
  destruct (vma_link_list_links mm x (end_of Right A) (end_of Left B) (above k)) as (vs' & -> & Hrel & Hlk); [done|..].
  { destruct (decide (A = [])) as [->|HA]; [done|auto]. }
  { destruct (decide (B = [])) as [->|HB]; [done|auto]. }
  { intros Hp%Hend0. split; [auto|]. destruct A as [|a A' _] using rev_ind; [done|]. rewrite end_right_snoc.
    rewrite Hl, <- app_assoc in Hlist. by apply (Hlist A' a B). }
  { intros Hp. destruct (decide (A = [])) as [HA|HA].
    - unfold A, B in *. destruct k as [|[[] c y o] k]; [done|done|]. cbn [before] in HA. by destruct (before k), (elems o).
    - exfalso. apply H0. rewrite <- Hp, elem_of_app. left. by apply end_in. }
  { intros Hq%Hend0. auto. }
  cbn [obind].
  assert (Hlist' : listed vs' (A ++ x :: B)) by (rewrite Hl in Hlist; by eapply links_between_listed).
  set (mm1 := set_vmas _ vs'). assert (Hmm1 : mm_rb mm1 = mm_rb mm) by (unfold mm1; by destruct (_ =? 0)).
  destruct (vma_link_rb_spec R mm1 vs0 k x n) as (mm2 & Hrun & t' & -> & Ht' & Hv').
  all: change (vmas mm1) with vs'; rewrite ?Hmm1; try done.
  - apply (fitting_values _ _ _ (gap_computes _ _) (last_rotates _) R _ _ _ _ 0 Ho ltac:(reflexivity)). rewrite He.
    by split.
  - destruct (Hlk x) as [_ ->]. by rewrite decide_True.
  - intros z Hz. eapply listed_readable; [exact Hlist'|]. rewrite He, Hl in Hz. set_solver.
  - intros z Hz Hzn. rewrite He in Hz. rewrite <- Hsame by done. apply relinked_own_gap; [done|]. destruct (Hlk z) as [-> _].
    rewrite decide_False by (intros ->; by apply (Hxne x)). by rewrite decide_False by (intros [? _]; done).
  - intros z Hz. rewrite He in Hz. apply own_gap_nonneg; [done|]. destruct (relinked_area_ok _ vs' _ z Hrel (Hok z Hz)) as (? & ? & _). lia.
  - exists (set_mm_rb (match B with [] => set_highest_vm_end mm1 (vm_end (area vs' x)) | _ => mm1 end) t').
    split; [exact Hrun|].
    assert (Hfld : forall mm3 : mm_struct, mm3 = set_mm_rb (match B with [] => set_highest_vm_end mm1 (vm_end (area vs' x)) | _ => mm1 end) t' ->
      vmas mm3 = vs' /\ map_count mm3 = map_count mm /\ mm_addr mm3 = mm_addr mm /\ vmacache_seqnum mm3 = vmacache_seqnum mm).
    { intros mm3 ->. unfold mm1. by destruct B, (_ =? 0). }
    destruct (Hfld _ eq_refl) as (Hvs & Hc & Ha & Hs). split_and!; [|by rewrite Hvs|done|done|done].
    split; cbn [set_map_count mm_rb vmas mm_addr mmap highest_vm_end map_count]; rewrite ?Hvs; try done.
    + intros y Hy. rewrite Ha. apply (relinked_area_ok _ vs' _ y Hrel). apply elem_of_app in Hy as [Hy|[->|Hy]%elem_of_cons]; [|done|];
        apply Hok; rewrite Hl; set_solver.
    + by eapply relinked_apart.
    + unfold mm1. destruct (decide (A = [])) as [->|HA].
      * cbn [end_of last default Z.eqb app]. by destruct B.
      * rewrite (proj2 (Z.eqb_neq (end_of Right A) 0)) by (intros Hz; apply H0; rewrite <- Hz, elem_of_app; left; by apply end_in).
        rewrite end_left. destruct A as [|a A']; [done|]. rewrite Hl in Hmm. by destruct B.
    + destruct B as [|b B'] eqn:HB.
      * by rewrite last_snoc.
      * assert (Hlast : last (A ++ x :: b :: B') = last l) by (rewrite Hl, !last_app; cbn [last]; by destruct B').
        rewrite Hlast. unfold mm1. destruct (last l) as [y|]; cbn [from_option] in *; destruct (_ =? 0); cbn; rewrite Hhi; try done; by apply Hrel.
    + rewrite Hct, Hl, !length_app. simpl. lia.
Qed.

(** [find_vma_links] on a whole address space. *)
Lemma find_vma_links_spec R l mm addr end_ : rb_tree R l (mm_rb mm) -> listed (vmas mm) l ->
  (forall x, x ∈ l -> area_ok (mm_addr mm) (area (vmas mm) x)) -> apart (vmas mm) l ->
  exists k, own R (cells (plug k E) 0) (rb_nodes (mm_rb mm)) /\ rb_root (mm_rb mm) = ptr (plug k E) /\ balanced (plug k E)
    /\ l = before k ++ after k
    /\ find_vma_links mm addr end_ = Ret (if decide (Exists (meets (vmas mm) addr end_) l) then inl (- ENOMEM)
         else inr (end_of Right (before k), above k, last_side k))
    /\ (~ Exists (meets (vmas mm) addr end_) l ->
        (forall y, y ∈ before k -> vm_end (area (vmas mm) y) <= addr) /\ (forall y, y ∈ after k -> end_ <= vm_start (area (vmas mm) y))).
Proof.
  intros (w & Ho & Hr & Hb & He) Hlist Hok Hap. set (k := vma_way (vmas mm) addr w []). exists k.
  assert (Hk : plug k E = w) by apply (plug_way_down _ w []). rewrite Hk.
  assert (Hl : l = before k ++ after k) by (rewrite <- He, <- Hk, elems_plug; done).
  pose proof (own_size _ _ _ Ho) as Hsz. rewrite <- (length_fmap fst), cells_keys in Hsz.
  split_and!; try done.
  - unfold find_vma_links. pose proof (links_loop_spec R _ mm addr end_ (S (size (rb_nodes (mm_rb mm)))) w [] Ho ltac:(reflexivity)) as Hs.
    cbn [above last_side before] in Hs. rewrite Hr. change 0 with (end_of Right []) at 2. rewrite Hs, He; [done| |by rewrite He|lia].
    rewrite He. intros z Hz. split; [by apply (listed_readable _ l)|]. apply (Hok z Hz).
  - intros Hno. apply vma_way_sides; rewrite ?He; try done. intros z Hz. apply (Hok z Hz).
Qed.

Lemma split_by (P : Z -> Prop) `{!forall x, Decision (P x)} A B A' B' : A ++ B = A' ++ B' ->
  (forall y, y ∈ A -> P y) -> (forall y, y ∈ B -> ~ P y) -> (forall y, y ∈ A' -> P y) -> (forall y, y ∈ B' -> ~ P y) -> A = A' /\ B = B'.
Proof.
  intros Heq HA HB HA' HB'. assert (HAA : A = A').
  { apply (f_equal (filter P)) in Heq. rewrite !filter_app, (filter_all _ A), (filter_all _ A'), (filter_none _ B), (filter_none _ B'), !app_nil_r in Heq by (done || by apply Forall_forall). done. }
  subst A'. by apply app_inv_head in Heq.
Qed.

(** Inserting between [A] and [B]. *)
Lemma insert_vm_struct_but vs0 R A B mm x : 0 <= stack_guard_gap < 2 ^ 32 -> mm_wf_but vs0 R A B mm ->
  fresh (mm_rb mm) (A ++ B) x -> is_Some (vmas mm !! x) -> area_ok (mm_addr mm) (area (vmas mm) x) ->
  (forall y, y ∈ A -> vm_end (area (vmas mm) y) <= vm_start (area (vmas mm) x)) ->
  (forall y, y ∈ B -> vm_end (area (vmas mm) x) <= vm_start (area (vmas mm) y)) ->
  runs (__insert_vm_struct stack_guard_gap mm x) (fun mm' =>
    mm_wf R (A ++ x :: B) mm' /\ relinked (vmas mm) (vmas mm')
    /\ mm_addr mm' = mm_addr mm /\ vmacache_seqnum mm' = vmacache_seqnum mm).
Proof.
  intros HG Hwf Hfx Hxs Hxok HxA HxB. unfold __insert_vm_struct. rewrite vma_at_area by done. cbn [obind].
  assert (Hne : forall y, y ∈ A ++ B -> vm_start (area (vmas mm) y) < vm_end (area (vmas mm) y)) by (intros y Hy; by apply (but_areas _ _ _ _ _ Hwf)).
  assert (Hno : ~ Exists (meets (vmas mm) (vm_start (area (vmas mm) x)) (vm_end (area (vmas mm) x))) (A ++ B)).
  { rewrite Exists_exists. intros (y & [Hy|Hy]%elem_of_app & H1 & H2); [specialize (HxA y Hy)|specialize (HxB y Hy)]; lia. }
  destruct (find_vma_links_spec R (A ++ B) mm (vm_start (area (vmas mm) x)) (vm_end (area (vmas mm) x))) as (k & Ho & Hr & Hb & Hl & -> & Hsides); [apply Hwf..|].
  destruct (Hsides Hno) as [HA HB]. rewrite decide_False by done. cbn [obind]. apply runs_bind.
  assert (0 <= vm_start (area (vmas mm) x) < vm_end (area (vmas mm) x)) by apply Hxok.
  destruct (split_by (fun y => vm_end (area (vmas mm) y) <= vm_start (area (vmas mm) x)) A B (before k) (after k)) as [-> ->]; [done|done| |done| |].
  { intros y Hy Hle. specialize (HxB y Hy). specialize (Hne y). assert (y ∈ A ++ B) by set_solver. intuition lia. }
  { intros y Hy Hle. specialize (HB y Hy). specialize (Hne y). assert (y ∈ A ++ B) by (rewrite Hl; set_solver). intuition lia. }
  destruct (place_sorted (vmas mm) (before k) x (after k)) as [Hap _]; try done.
  { apply Hwf. }
  { intros y Hy. apply elem_of_app in Hy as [Hy|[->|Hy]%elem_of_cons]; [|apply Hxok|]; apply Hne; set_solver. }
  eapply runs_mono; [by apply (vma_link_spec vs0 R mm k x)|]. intros mm' (Hwf' & Hrel & Hct & Hma & Hsq). apply runs_ret.
  split_and!; try done. rewrite Hct, s32_small; [exact Hwf'|].
  rewrite (but_count _ _ _ _ _ Hwf). destruct (but_tree _ _ _ _ _ Hwf) as (w & Ho' & _ & _ & He). destruct (own_elems _ _ _ Ho') as [Hnd Hv].
  rewrite He in Hnd, Hv. pose proof (valid_count _ Hnd Hv). lia.
Qed.

Lemma insert_vm_struct_spec R l mm x : 0 <= stack_guard_gap < 2 ^ 32 -> mm_wf R l mm ->
  fresh (mm_rb mm) l x -> is_Some (vmas mm !! x) -> area_ok (mm_addr mm) (area (vmas mm) x) ->
  ~ Exists (meets (vmas mm) (vm_start (area (vmas mm) x)) (vm_end (area (vmas mm) x))) l ->
  runs (__insert_vm_struct stack_guard_gap mm x) (fun mm' =>
    mm_wf R (insert_by (start_of (vmas mm)) x l) mm' /\ relinked (vmas mm) (vmas mm')
    /\ mm_addr mm' = mm_addr mm /\ vmacache_seqnum mm' = vmacache_seqnum mm).
Proof.
  intros HG Hwf Hfx Hxs Hxok Hno.
  destruct (find_vma_links_spec R l mm (vm_start (area (vmas mm) x)) (vm_end (area (vmas mm) x))) as (k & _ & _ & _ & -> & _ & Hsides); [apply Hwf..|].
  destruct (Hsides Hno) as [HA HB]. destruct (place_sorted (vmas mm) (before k) x (after k)) as [_ Hins]; try done.
  { apply Hwf. }
  { intros y Hy. apply elem_of_app in Hy as [Hy|[->|Hy]%elem_of_cons]; [|apply Hxok|]; apply (wf_areas _ _ _ _ Hwf); set_solver. }
  rewrite Hins. apply (insert_vm_struct_but (vmas mm)); try done. by apply mm_wf_wf_but.
Qed.
End Link.
