(* ===== verification/AddressUnmap.v ===== *)
(** * Taking areas out of an address space *)
From Stdlib Require Import ZArith Lia Bool Sorted.
From stdpp Require Import base numbers list sorting gmap.
From S2P Require Import Prelude RBTree RBTreeShape RBTreeRep RBTreeAugment RBTreeInsert RBTreeErase RBTreeRemove RBTreeCallbacks RBTreeWalk RBTreeProps RBTreeSearch VmArea IntervalTree IntervalTreeSpec AddressSpace AddressGaps AddressLink.

Section Unmap.
Variable stack_guard_gap : Z.
Abbreviation gap_of vs := (last_of (own_gap stack_guard_gap vs)).
Abbreviation gaug vs := (declared_augment (vma_compute_subtree_gap stack_guard_gap vs) (gap_of vs) (readable vs)
  (gap_computes stack_guard_gap vs) (last_rotates (own_gap stack_guard_gap vs))).
Abbreviation mm_wf := (mm_wf stack_guard_gap).

(** ** The loop *)

(** A tree that is right but for the gap of [x]. *)
Definition right_but (vs : gmap Z vm_area_struct) (R : nodes) (A : list Z) (x : Z) (B : list Z) (t : rb_state (gmap Z Z)) : Prop :=
  exists k c a b, own R (cells (plug k (T c a x b)) 0) (rb_nodes t) /\ rb_root t = top k x /\ balanced (plug k (T c a x b))
    /\ A = before k ++ elems a /\ B = elems b ++ after k
    /\ fitting_but (Augment0 := gaug vs) (rb_data t) k a x b.

Lemma right_right_but vs R A x B t : rb_tree R (A ++ x :: B) t -> values_right (gap_of vs) t (A ++ x :: B) ->
  (forall z, z ∈ A ++ x :: B -> readable vs z) -> right_but vs R A x B t.
Proof.
  intros Ht Hv Hr. destruct (rb_tree_at R _ t x Ht) as (k & c & a & b & Ho & Hroot & Hb & Hl & HxA & HxB); [set_solver|].
  assert (He : elems (plug k (T c a x b)) = A ++ x :: B) by (rewrite elems_plug, Hl; simpl; by rewrite <- !app_assoc).
  destruct (own_elems _ _ _ Ho) as [Hnd _]. rewrite He in Hnd. apply NoDup_app in Hnd as (_ & Hnd & _).
  destruct (split_unique x _ _ _ _ Hl) as [HA HB]; [intros Hin; apply (Hnd x Hin); set_solver|done|].
  exists k, c, a, b. split_and!; try done. apply (fitting_fitting_but (Augment0 := gaug vs) _ k c).
  apply (fitting_values _ _ _ (gap_computes _ _) (last_rotates _) R _ _ _ _ 0 Ho ltac:(reflexivity)). by rewrite He.
Qed.

(** The gaps but that of [x] are as for the areas [vs0]. *)
Lemma right_but_stale vs0 vs R A x B t : rb_tree R (A ++ x :: B) t -> values_right (gap_of vs0) t (A ++ x :: B) ->
  (forall z, z ∈ A ++ x :: B -> readable vs0 z) -> (forall z, z ∈ A ++ x :: B -> readable vs z) ->
  (forall z, z ∈ A ++ B -> own_gap stack_guard_gap vs z = own_gap stack_guard_gap vs0 z) -> right_but vs R A x B t.
Proof.
  intros Ht Hv Hr0 Hr Hg. destruct (right_right_but vs0 R A x B t Ht Hv Hr0) as (k & c & a & b & Ho & Hroot & Hb & -> & -> & Hf & Hfa & Hfb & Hfk).
  assert (Hne : forall z, z ∈ (before k ++ elems a) ++ elems b ++ after k -> readable vs z /\ own_gap stack_guard_gap vs z = own_gap stack_guard_gap vs0 z).
  { intros z Hz. split; [apply Hr; set_solver|by apply Hg]. }
  exists k, c, a, b. split_and!; try done. split_and!.
  - split; [apply Hr; set_solver|apply Hf].
  - eapply fitting_relinked; [|exact Hfa]. intros z Hz. apply Hne. set_solver.
  - eapply fitting_relinked; [|exact Hfb]. intros z Hz. apply Hne. set_solver.
  - eapply kfitting_relinked; [|exact Hfk]. intros z Hz. apply Hne. unfold kelems in Hz. set_solver.
Qed.

Lemma vma_rb_erase_spec R A x B mm : right_but (vmas mm) R A x B (mm_rb mm) ->
  runs (vma_rb_erase stack_guard_gap mm x) (fun mm' => exists t' n, mm' = set_mm_rb mm t'
    /\ rb_tree (<[x := n]> R) (A ++ B) t' /\ values_right (gap_of (vmas mm)) t' (A ++ B)).
Proof.
  intros (k & c & a & b & Ho & Hroot & Hb & -> & -> & Hf). unfold vma_rb_erase, __vma_rb_erase. apply runs_bind.
  eapply runs_mono; [by apply (erase_at_but (Augment0 := gaug (vmas mm)) R (mm_rb mm) k c a x b)|].
  intros t' [n Ht']. apply runs_ret. exists t', n. split; [done|].
  apply (augmented_root _ _ _ (gap_computes _ _) (last_rotates _)) in Ht' as (H1 & H2 & _). by rewrite <- app_assoc.
Qed.

(** The areas [x :: C] are taken out, [B] stays. *)
Lemma detach_loop_spec end_ A B C : forall fuel R mm x,
  right_but (vmas mm) R A x (C ++ B) (mm_rb mm) ->
  (forall z, z ∈ A ++ x :: C ++ B -> readable (vmas mm) z) -> (0 ∉ C ++ B) ->
  (forall C1 y C2, x :: C = C1 ++ y :: C2 -> vm_next (area (vmas mm) y) = end_of Left (C2 ++ B)) ->
  (forall y, y ∈ C -> vm_start (area (vmas mm) y) < end_) ->
  (forall y B', B = y :: B' -> end_ <= vm_start (area (vmas mm) y)) ->
  0 <= map_count mm - Z.of_nat (length (x :: C)) -> map_count mm < 2 ^ 31 -> (length C < fuel)%nat ->
  exists R' t', detach_loop stack_guard_gap fuel mm x end_
      = Ret (set_map_count (set_mm_rb mm t') (map_count mm - Z.of_nat (length (x :: C))), end_of Right (x :: C), end_of Left B)
    /\ rb_tree R' (A ++ B) t' /\ values_right (gap_of (vmas mm)) t' (A ++ B).
Proof.
  induction C as [|y C IH]; intros fuel R mm x Hx Hr H0 Hn Hin Hout Hc1 Hc2 Hfuel; (destruct fuel as [|fuel]; [simpl in Hfuel; lia|]).
  - destruct (vma_rb_erase_spec R A x ([] ++ B) mm Hx) as (mm' & Hrun & t' & n & -> & Ht & Hv).
    cbn [detach_loop]. rewrite Hrun. cbn [obind set_map_count set_mm_rb vmas map_count].
    rewrite vma_at_area by (apply Hr; set_solver). cbn [obind]. rewrite (Hn [] x [] eq_refl). cbn [app].
    rewrite s32_small by (simpl in Hc1; lia). exists (<[x := n]> R), t'. split_and!; [|done|done].
    destruct B as [|z B]; [done|]. change (end_of Left (z :: B)) with z. rewrite (proj2 (Z.eqb_neq z 0)) by set_solver. cbn [negb].
      rewrite vma_at_area by (apply Hr; set_solver). cbn [obind]. rewrite (proj2 (Z.ltb_ge _ _)) by by eapply Hout. done.
  - destruct (vma_rb_erase_spec R A x ((y :: C) ++ B) mm Hx) as (mm' & Hrun & t' & n & -> & Ht & Hv).
    cbn [detach_loop]. rewrite Hrun. cbn [obind set_map_count set_mm_rb vmas map_count].
    rewrite vma_at_area by (apply Hr; set_solver). cbn [obind]. rewrite (Hn [] x (y :: C) eq_refl).
    change (end_of Left ((y :: C) ++ B)) with y. rewrite (proj2 (Z.eqb_neq y 0)) by set_solver. cbn [negb].
    rewrite vma_at_area by (apply Hr; set_solver). cbn [obind]. rewrite (proj2 (Z.ltb_lt _ _)) by (apply Hin; set_solver).
    rewrite s32_small by (simpl in Hc1; lia).
    destruct (IH fuel (<[x := n]> R) (set_map_count (set_mm_rb mm t') (map_count mm - 1)) y) as (R' & t2 & Hrun2 & Ht2 & Hv2);
      cbn [set_map_count set_mm_rb vmas map_count mm_rb].
    + apply right_right_but; [done|done|]. intros z Hz. apply Hr. set_solver.
    + intros z Hz. apply Hr. set_solver.
    + set_solver.
    + intros C1 z C2 Heq. apply (Hn (x :: C1) z C2). by rewrite Heq.
    + intros z Hz. apply Hin. set_solver.
    + done.
    + simpl in Hc1 |- *. lia.
    + lia.
    + simpl in Hfuel. lia.
    + exists R', t2. split_and!; [|done|done].
      cbn [set_map_count set_mm_rb vmas map_count] in Hrun2 |- *. etrans; [exact Hrun2|]. cbn [set_map_count set_mm_rb map_count length].
      do 3 f_equal. unfold set_map_count. cbn. f_equal. lia.
Qed.

(** ** The list without the areas [C] *)
Definition links_around (vs vs' : gmap Z vm_area_struct) (p q : Z) (l : list Z) : Prop :=
  forall z, z ∈ l ->
    vm_prev (area vs' z) = (if decide (z = q) then p else vm_prev (area vs z))
    /\ vm_next (area vs' z) = (if decide (z = p) then q else vm_next (area vs z)).

Lemma links_around_listed vs vs' A C B : listed vs (A ++ C ++ B) -> NoDup (A ++ B) -> (0 ∉ A ++ B) ->
  relinked vs vs' -> links_around vs vs' (end_of Right A) (end_of Left B) (A ++ B) -> listed vs' (A ++ B).
Proof.
  intros Hl Hnd H0 Hr Hlk A' y B' Heq.
  assert (Hy : y ∈ A ++ B) by (rewrite Heq; set_solver). assert (Hy0 : y <> 0) by (intros ->; done).
  destruct (Hlk y Hy) as [-> ->]. apply NoDup_app in Hnd as (HndA & HAB & HndB).
  assert (Hend : forall s (K : list Z), y = end_of s K -> y ∈ K).
  { intros s K Hs. rewrite Hs. apply end_in. intros ->. apply Hy0. rewrite Hs. by destruct s. }
  apply app_eq_inv in Heq as [(K & HA & HB)|(K & HA & HB)].
  - destruct K as [|z K]; [|injection HB as <- ->].
    { rewrite app_nil_r in HA. subst A'. cbn [app] in HB. subst B. rewrite app_assoc in Hl. destruct (Hl (A ++ C) y B' eq_refl) as (Hs & _ & Hn).
      split; [by apply Hr|]. rewrite decide_True by done. split; [done|].
      rewrite decide_False; [done|]. intros HyA%Hend. apply (HAB y HyA). set_solver. }
    subst A. rewrite <- app_assoc in Hl. cbn [app] in Hl. destruct (Hl A' y (K ++ C ++ B) eq_refl) as (Hs & Hp & Hn).
    split; [by apply Hr|]. split.
    + rewrite decide_False; [done|]. intros HyB%Hend. apply (HAB y); [set_solver|done].
    + destruct K as [|z K _] using rev_ind; [by rewrite end_right_snoc, decide_True|].
      rewrite decide_False; [rewrite Hn; by destruct K|]. 
      change (A' ++ y :: K ++ [z]) with (A' ++ (y :: K) ++ [z]). rewrite app_assoc, end_right_snoc. intros ->.
      apply NoDup_app in HndA as (_ & _ & [Hin _]%NoDup_cons). set_solver.
  - subst A' B. rewrite !app_assoc in Hl. destruct (Hl ((A ++ C) ++ K) y B' eq_refl) as (Hs & Hp & Hn).
    split; [by apply Hr|]. split.
    + destruct K as [|z K].
      * rewrite decide_True by done. by rewrite app_nil_r.
      * change (end_of Left ((z :: K) ++ y :: B')) with z. apply NoDup_cons in HndB as [Hin _]. change (z ∉ K ++ y :: B') in Hin.
        rewrite decide_False by (intros ->; apply Hin, elem_of_app; right; apply list_elem_of_here).
        by rewrite Hp, !end_right_app.
    + rewrite decide_False; [done|]. intros HyA%Hend. apply (HAB y HyA). apply elem_of_app. right. apply list_elem_of_here.
Qed.

Lemma apart_part vs A C B : apart vs (A ++ C ++ B) -> apart vs (A ++ B).
Proof.
  unfold apart. rewrite !StronglySorted_app. intros (HAB & HA & _ & _ & HB). split_and!; [|done|done].
  intros a b Ha Hb. apply HAB; [done|]. rewrite elem_of_app. by right.
Qed.

Lemma values_right_ext vs vs' t l : (forall z, z ∈ l -> own_gap stack_guard_gap vs' z = own_gap stack_guard_gap vs z) ->
  values_right (gap_of vs) t l -> values_right (gap_of vs') t l.
Proof. intros Hg Hv z n Hz Hn. specialize (Hv z n Hz Hn). unfold fits_value, last_of in *. by rewrite Hg. Qed.

(** ** Freeing *)

(** What is read of an address space with the areas [l]. *)
Lemma mm_wf_ext R R' l mm mm' : mm_wf R l mm -> (forall z, z ∈ l -> vmas mm' !! z = vmas mm !! z) ->
  (forall L, L.*1 ≡ₚ l -> own R L (rb_nodes (mm_rb mm)) -> own R' L (rb_nodes (mm_rb mm'))) ->
  rb_root (mm_rb mm') = rb_root (mm_rb mm) -> (forall z, z ∈ l -> value (rb_data (mm_rb mm')) z = value (rb_data (mm_rb mm)) z) -> mm_addr mm' = mm_addr mm ->
  mmap mm' = mmap mm -> highest_vm_end mm' = highest_vm_end mm -> map_count mm' = map_count mm -> mm_wf R' l mm'.
Proof.
  intros Hwf Hvs Hown Hroot Hdata Hma Hmm Hhi Hct. pose proof Hwf as [(w & Ho & Hr & Hb & He) Hv Hl Hok Hap Hm Hh Hc].
  assert (Har : forall z, z ∈ l -> area (vmas mm') z = area (vmas mm) z) by (intros z Hz; unfold area; by rewrite Hvs).
  assert (Ho' : own R' (cells w 0) (rb_nodes (mm_rb mm'))) by (apply Hown; [by rewrite cells_keys, He|done]).
  assert (Hl' : listed (vmas mm') l).
  { intros A x B Heq. assert (Hx : x ∈ l) by (rewrite Heq; set_solver). rewrite Hvs, Har by done. by apply (Hl A x B). }
  assert (Hgap : forall z, z ∈ l -> own_gap stack_guard_gap (vmas mm') z = own_gap stack_guard_gap (vmas mm) z).
  { intros z Hz. unfold own_gap. rewrite Har by done. destruct (Z.eqb_spec (vm_prev (area (vmas mm) z)) 0) as [Hp|Hp]; [done|].
    rewrite Har; [done|]. apply list_elem_of_split in Hz as (A & B & Heq). destruct (Hl A z B Heq) as (_ & Hpz & _). rewrite Hpz in Hp |- *.
    rewrite Heq, elem_of_app. left. apply end_in. intros ->. done. }
  split; try done.
  - exists w. rewrite Hroot. done.
  - apply (values_right_ext (vmas mm)); [done|].
    assert (Hf : fitting (Augment0 := gaug (vmas mm)) (rb_data (mm_rb mm)) w).
    { apply (fitting_values _ _ _ (gap_computes _ _) (last_rotates _) R _ _ _ _ 0 Ho ltac:(reflexivity)). rewrite He.
      split; [|done]. intros z Hz. by eapply listed_readable. }
    apply (fitting_value _ _ _ (gap_computes _ _) (last_rotates _) _ (rb_data (mm_rb mm'))) in Hf.
    2:{ intros z Hz. symmetry. apply Hdata. by rewrite <- He. }
    apply (fitting_values _ _ _ (gap_computes _ _) (last_rotates _) R' _ _ _ _ 0 Ho' ltac:(reflexivity)) in Hf as [_ Hf]. by rewrite He in Hf.
  - intros x Hx. rewrite Hma, Har by done. by apply Hok.
  - unfold apart in *. clear -Hap Har. induction Hap as [|x l Hs IH HF]; constructor; [apply IH; intros z Hz; apply Har; set_solver|].
    rewrite Forall_forall in HF |- *. intros y Hy. rewrite !Har by set_solver. by apply HF.
  - by rewrite Hmm.
  - rewrite Hhi, Hh. destruct (last l) as [y|] eqn:Hy; [|done]. cbn [from_option]. by rewrite Har by by apply last_Some_elem_of.
  - by rewrite Hct.
Qed.

(** ** Detaching *)

(** The loop of [detach_vmas_to_be_unmapped], after [vma->vm_prev = NULL]. *)
Lemma detach_tree R A x C B mm end_ : mm_wf R (A ++ x :: C ++ B) mm ->
  (forall y, y ∈ C -> vm_start (area (vmas mm) y) < end_) -> (forall y B', B = y :: B' -> end_ <= vm_start (area (vmas mm) y)) ->
  let vs1 := <[x := set_vm_prev (area (vmas mm) x) 0]> (vmas mm) in
  exists R' t', detach_loop stack_guard_gap (S (size (rb_nodes (mm_rb mm)))) (set_vmas mm vs1) x end_
      = Ret (set_map_count (set_mm_rb (set_vmas mm vs1) t') (Z.of_nat (length (A ++ B))), end_of Right (x :: C), end_of Left B)
    /\ rb_tree R' (A ++ B) t' /\ values_right (gap_of vs1) t' (A ++ B).
Proof.
  intros Hwf Hin Hout vs1. pose proof Hwf as [Ht Hv Hl Hok Hap _ _ Hct].
  assert (Hv1 : forall z, area vs1 z = if decide (z = x) then set_vm_prev (area (vmas mm) x) 0 else area (vmas mm) z)
    by (intros z; apply area_insert).
  assert (Hrel : relinked (vmas mm) vs1) by (apply relink; by destruct (area (vmas mm) x)).
  clearbody vs1. assert (Hst : forall z, vm_start (area vs1 z) = vm_start (area (vmas mm) z)) by (intros z; symmetry; apply Hrel).
  destruct Ht as (w & Ho & Hroot & Hb & He). destruct (own_elems _ _ _ Ho) as [Hnd Hval]. rewrite He in Hnd, Hval.
  pose proof (valid_count _ Hnd Hval) as Hcount.
  assert (H0 : 0 ∉ A ++ x :: C ++ B) by (intros H0; rewrite Forall_forall in Hval; by apply (valid_neq0 0 (Hval 0 H0))).
  assert (Hr1 : forall z, z ∈ A ++ x :: C ++ B -> readable vs1 z).
  { intros z Hz. destruct (listed_readable _ _ z Hl Hz) as [Hz1 Hz2]. split; [by apply Hrel|]. rewrite Hv1.
    case_decide; [by left|]. destruct Hz2 as [Hz2|Hz2]; [by left|right; by apply Hrel]. }
  assert (HxA : x ∉ A) by (intros HxA; apply NoDup_app in Hnd as (_ & Hnd & _); apply (Hnd x HxA), list_elem_of_here).
  destruct (detach_loop_spec end_ A B C (S (size (rb_nodes (mm_rb mm)))) R (set_vmas mm vs1) x) as (R' & t' & Hrun & Ht' & Hv').
  all: cbn [set_vmas vmas mm_rb map_count]; rewrite ?Hct.
  - apply (right_but_stale (vmas mm)); [by exists w|done|intros z Hz; by eapply listed_readable|done|].
    intros z Hz. assert (Hzx : z <> x) by (intros ->; rewrite <- Permutation_middle in Hnd; by apply NoDup_cons in Hnd as [Hnd _]).
    apply relinked_own_gap; [done|]. by rewrite Hv1, decide_False.
  - done.
  - set_solver.
  - intros C1 y C2 Heq.
    assert (Hsp : A ++ x :: C ++ B = (A ++ C1) ++ y :: C2 ++ B).
    { change (x :: C ++ B) with ((x :: C) ++ B). by rewrite Heq, <- !app_assoc. }
    destruct (Hl _ _ _ Hsp) as (_ & _ & <-). rewrite Hv1. case_decide; by subst.
  - intros y Hy. rewrite Hst. by apply Hin.
  - intros y B' Heq. rewrite Hst. by eapply Hout.
  - rewrite !length_app. simpl. rewrite length_app. lia.
  - lia.
  - pose proof (own_size _ _ _ Ho) as Hsz. rewrite <- (length_fmap fst), cells_keys, He, !length_app in Hsz. simpl in Hsz.
    rewrite length_app in Hsz. lia.
  - exists R', t'. split_and!; [|done|done]. rewrite Hrun. cbn [set_vmas map_count]. rewrite Hct.
    do 3 f_equal. unfold set_map_count. f_equal. rewrite !length_app. simpl. rewrite length_app. lia.
Qed.

(** The tree after the links around the areas that stay are set. *)
Lemma rejoin_gaps R l mm vs1 y : rb_tree R l (mm_rb mm) -> values_right (gap_of vs1) (mm_rb mm) l ->
  (forall z, z ∈ l -> readable vs1 z /\ readable (vmas mm) z) ->
  (forall z, z ∈ l -> z <> y -> own_gap stack_guard_gap (vmas mm) z = own_gap stack_guard_gap vs1 z) ->
  (y = 0 \/ y ∈ l) -> (0 ∉ l) ->
  exists d', (if negb (y =? 0) then vma_gap_update stack_guard_gap mm y else Ret mm) = Ret (set_mm_rb mm (set_data (mm_rb mm) d'))
    /\ rb_tree R l (set_data (mm_rb mm) d') /\ values_right (gap_of (vmas mm)) (set_data (mm_rb mm) d') l.
Proof.
  intros Ht Hv Hr Hg Hy H0. destruct Ht as (w & Ho & Hroot & Hb & He).
  assert (Hf : fitting (Augment0 := gaug vs1) (rb_data (mm_rb mm)) w).
  { apply (fitting_values _ _ _ (gap_computes _ _) (last_rotates _) R _ _ _ _ 0 Ho ltac:(reflexivity)). rewrite He.
    split; [intros z Hz; by apply Hr|done]. }
  assert (Hd : exists d', (if negb (y =? 0) then vma_gap_update stack_guard_gap mm y else Ret mm) = Ret (set_mm_rb mm (set_data (mm_rb mm) d'))
    /\ fitting (Augment0 := gaug (vmas mm)) d' w).
  { destruct (Z.eqb_spec y 0) as [->|Hy0]; cbn [negb].
    - exists (rb_data (mm_rb mm)). split; [by destruct mm as [m vs [h r d] mp hi ct sq]|]. eapply fitting_relinked; [|exact Hf].
      rewrite He. intros z Hz. split; [by apply Hr|]. apply Hg; [done|]. by intros ->.
    - destruct Hy as [?|Hy]; [done|]. apply (next_gap_update stack_guard_gap R mm w y vs1 [] Ho); rewrite ?He; try done.
      intros z Hz. by apply Hr. }
  destruct Hd as (d' & Hd & Hf'). exists d'. split_and!; [done|by exists w|].
  apply (fitting_values _ _ _ (gap_computes _ _) (last_rotates _) R _ _ _ _ 0 Ho ltac:(reflexivity)) in Hf' as [_ Hf']. by rewrite He in Hf'.
Qed.

(** The links [detach_vmas_to_be_unmapped] sets after its loop. *)
Definition rejoined (vs : gmap Z vm_area_struct) (p b : Z) : gmap Z vm_area_struct :=
  let vs := if p =? 0 then vs else <[p := set_vm_next (area vs p) b]> vs in
  if b =? 0 then vs else <[b := set_vm_prev (area vs b) p]> vs.

Lemma rejoined_relinked vs p b : relinked vs (rejoined vs p b).
Proof.
  assert (H1 : relinked vs (if p =? 0 then vs else <[p := set_vm_next (area vs p) b]> vs)).
  { destruct (p =? 0); [done|]. apply relink. by destruct (area vs p). }
  unfold rejoined. destruct (b =? 0); [done|]. etrans; [exact H1|]. apply relink. by destruct (area _ b).
Qed.

Lemma rejoined_links vs p b z : z <> 0 ->
  vm_prev (area (rejoined vs p b) z) = (if decide (z = b) then p else vm_prev (area vs z))
  /\ vm_next (area (rejoined vs p b) z) = (if decide (z = p) then b else vm_next (area vs z)).
Proof.
  intros Hz. set (vs1 := if p =? 0 then vs else <[p := set_vm_next (area vs p) b]> vs).
  assert (H1 : vm_prev (area vs1 z) = vm_prev (area vs z) /\ vm_next (area vs1 z) = if decide (z = p) then b else vm_next (area vs z)).
  { unfold vs1. destruct (Z.eqb_spec p 0) as [->|Hp]; [by rewrite decide_False|]. rewrite area_insert.
    destruct (decide (z = p)) as [->|]; done. }
  destruct H1 as [Hp1 Hn1]. unfold rejoined. fold vs1. destruct (Z.eqb_spec b 0) as [->|Hb]; [by rewrite decide_False by done|].
  rewrite area_insert. destruct (decide (z = b)) as [->|Hzb]; [|done]. split; [done|exact Hn1].
Qed.

(** The end of [detach_vmas_to_be_unmapped], from the loop on. *)
Lemma rejoin_run R l mm p b : rb_tree R l (mm_rb mm) -> values_right (gap_of (vmas mm)) (mm_rb mm) l ->
  (forall z, z ∈ l -> readable (vmas mm) z) -> (p = 0 \/ p ∈ l) -> (b = 0 \/ b ∈ l) -> (0 ∉ l) ->
  exists d', (let* mm := store_insertion mm p b in
    if negb (b =? 0) then let* mm := put_vm_prev mm b p in vma_gap_update stack_guard_gap mm b
    else if negb (p =? 0) then let* v := vma_at (vmas mm) p in Ret (set_highest_vm_end mm (vm_end_gap stack_guard_gap v))
    else Ret (set_highest_vm_end mm 0))
  = Ret (mk_mm (mm_addr mm) (rejoined (vmas mm) p b) (set_data (mm_rb mm) d') (if p =? 0 then b else mmap mm)
      (if b =? 0 then if p =? 0 then 0 else vm_end (area (vmas mm) p) else highest_vm_end mm) (map_count mm) (vmacache_seqnum mm))
  /\ rb_tree R l (set_data (mm_rb mm) d') /\ values_right (gap_of (rejoined (vmas mm) p b)) (set_data (mm_rb mm) d') l.
Proof.
  intros Ht Hv Hr Hp Hb H0.
  set (mm3 := mk_mm (mm_addr mm) (rejoined (vmas mm) p b) (mm_rb mm) (if p =? 0 then b else mmap mm) (highest_vm_end mm) (map_count mm) (vmacache_seqnum mm)).
  pose proof (rejoined_relinked (vmas mm) p b) as Hrel.
  assert (Hsome : forall z, z ∈ l -> is_Some (vmas mm !! z)) by (intros z Hz; apply (Hr z Hz)).
  assert (Hr3 : forall z, z ∈ l -> readable (vmas mm3) z).
  { intros z Hz. destruct (Hr z Hz) as [Hz1 Hz2]. split; [by apply Hrel|]. cbn [vmas mm3].
    destruct (rejoined_links (vmas mm) p b z) as [-> _]; [by intros ->|]. case_decide.
    - destruct Hp as [->|Hp]; [by left|right; by apply Hrel, Hsome].
    - destruct Hz2 as [Hz2|Hz2]; [by left|right; by apply Hrel]. }
  destruct (rejoin_gaps R l mm3 (vmas mm) b Ht Hv) as (d' & Hd & Ht' & Hv'); try done.
  { intros z Hz. split; [by apply Hr|by apply Hr3]. }
  { intros z Hz Hzb. apply relinked_own_gap; [done|]. cbn [vmas mm3]. destruct (rejoined_links (vmas mm) p b z) as [-> _]; [by intros ->|].
    by rewrite decide_False. }
  exists d'. split_and!; [|done|done]. unfold store_insertion, mm3, rejoined in *. clear mm3. destruct mm as [m vs t mp hi ct sq].
  cbn [vmas mm_rb mm_addr mmap highest_vm_end map_count vmacache_seqnum] in *.
  assert (Hins : (if negb (p =? 0) then put_vm_next (mk_mm m vs t mp hi ct sq) p b else Ret (set_mmap (mk_mm m vs t mp hi ct sq) b))
    = Ret (mk_mm m (if p =? 0 then vs else <[p := set_vm_next (area vs p) b]> vs) t (if p =? 0 then b else mp) hi ct sq)).
  { destruct (Z.eqb_spec p 0) as [Hp0|Hp0]; cbn [negb]; [done|]. destruct Hp as [?|Hp]; [done|]. by rewrite put_vm_next_eq by auto. }
  rewrite Hins. cbn [obind]. set (vs2 := if p =? 0 then vs else <[p := _]> vs) in *.
  assert (H2 : relinked vs vs2) by (unfold vs2; destruct (p =? 0); [done|]; apply relink; by destruct (area vs p)).
  destruct (Z.eqb_spec b 0) as [Hb0|Hb0]; cbn [negb] in *.
  - injection Hd as Hd. unfold set_mm_rb, set_data in *. cbn in Hd. destruct t as [h r d]. cbn in Hd |- *. injection Hd as <-.
    destruct (Z.eqb_spec p 0) as [Hp0|Hp0]; cbn [negb]; [done|]. destruct Hp as [?|Hp]; [done|]. rewrite vma_at_area by (apply H2; auto). cbn [obind].
    rewrite vm_end_gap_spec. unfold set_highest_vm_end. cbn. do 2 f_equal. symmetry. apply H2.
  - destruct Hb as [?|Hb]; [done|]. rewrite put_vm_prev_eq by (apply H2; auto). exact Hd.
Qed.

(** The facts about the sequence that the proofs use. *)
Lemma mm_wf_nodup R l mm : mm_wf R l mm -> NoDup l /\ (0 ∉ l).
Proof.
  intros [(w & Ho & _ & _ & He) _ _ _ _ _ _ _]. destruct (own_elems _ _ _ Ho) as [Hnd Hval]. rewrite He in Hnd, Hval.
  split; [done|]. intros H0. rewrite Forall_forall in Hval. by apply (valid_neq0 0 (Hval 0 H0)).
Qed.

Lemma end_or_in s (A : list Z) : end_of s A = 0 \/ end_of s A ∈ A.
Proof. destruct (decide (A = [])) as [->|HA]; [left; by destruct s|right; by apply end_in]. Qed.

Lemma detach_vmas_spec R A x C B mm end_ : mm_wf R (A ++ x :: C ++ B) mm ->
  (forall y, y ∈ C -> vm_start (area (vmas mm) y) < end_) -> (forall y B', B = y :: B' -> end_ <= vm_start (area (vmas mm) y)) ->
  exists R' mm', detach_vmas_to_be_unmapped stack_guard_gap mm x (end_of Right A) end_ = Ret mm'
    /\ mm_wf R' (A ++ B) mm' /\ relinked (vmas mm) (vmas mm') /\ mm_addr mm' = mm_addr mm
    /\ vmacache_seqnum mm' = u64 (vmacache_seqnum mm + 1)
    /\ (forall C1 y C2, x :: C = C1 ++ y :: C2 -> is_Some (vmas mm' !! y) /\ vm_next (area (vmas mm') y) = end_of Left C2).
Proof.
  intros Hwf Hin Hout. destruct (detach_tree R A x C B mm end_ Hwf Hin Hout) as (R' & t' & Hrun & Ht' & Hv').
  destruct (mm_wf_nodup _ _ _ Hwf) as [Hnd H0]. pose proof Hwf as [_ _ Hl Hok Hap Hmm Hhi _].
  change (A ++ x :: C ++ B) with (A ++ (x :: C) ++ B) in *.
  set (p := end_of Right A) in *. set (b := end_of Left B) in *. set (tl := end_of Right (x :: C)) in *.
  assert (Htl : tl ∈ x :: C) by by apply end_in.
  assert (HC : forall z, z ∈ x :: C -> z ∉ A ++ B).
  { intros z Hz Hz'. apply NoDup_app in Hnd as (_ & HA & Hnd). apply NoDup_app in Hnd as (_ & HCB & _).
    apply elem_of_app in Hz' as [Hz'|Hz']; [apply (HA z Hz'); set_solver|by apply (HCB z Hz)]. }
  assert (Hsub : forall z, z ∈ A ++ B -> z ∈ A ++ (x :: C) ++ B) by set_solver.
  assert (Hpin : p = 0 \/ p ∈ A ++ B) by (destruct (end_or_in Right A) as [?|?]; [by left|right; set_solver]).
  assert (Hbin : b = 0 \/ b ∈ A ++ B) by (destruct (end_or_in Left B) as [?|?]; [by left|right; set_solver]).
  unfold detach_vmas_to_be_unmapped. rewrite put_vm_prev_eq by (eapply (listed_readable _ _ x Hl); set_solver). cbn [obind].
  change (mm_rb (set_vmas mm _)) with (mm_rb mm). rewrite Hrun. cbn [obind]. clear Hrun.
  set (vs1 := <[x := _]> (vmas mm)) in *. set (mm2 := set_map_count _ _).
  assert (Hv1 : forall z, area vs1 z = if decide (z = x) then set_vm_prev (area (vmas mm) x) 0 else area (vmas mm) z) by (intros z; apply area_insert).
  assert (Hrel1 : relinked (vmas mm) vs1) by (apply relink; by destruct (area (vmas mm) x)).
  assert (Hz0 : forall z, z ∈ A ++ (x :: C) ++ B -> z <> 0) by (intros z Hz ->; done).
  destruct (rejoin_run R' (A ++ B) mm2 p b) as (d' & Hrun & Ht2 & Hv2); try done.
  { intros z Hz. destruct (listed_readable _ _ z Hl (Hsub z Hz)) as [H1 H2]. cbn [vmas mm2 set_map_count set_mm_rb set_vmas].
    split; [by apply Hrel1|]. rewrite Hv1. case_decide; [by left|]. destruct H2 as [H2|H2]; [by left|right; by apply Hrel1]. }
  { set_solver. }
  pose proof (rejoined_relinked vs1 p b) as Hrel2. assert (Hrel : relinked (vmas mm) (rejoined vs1 p b)) by by etrans.
  rewrite <- obind_assoc, Hrun. cbn [obind]. clear Hrun.
  rewrite put_vm_next_eq by (cbn [vmas]; apply Hrel; eapply (listed_readable _ _ tl Hl); set_solver). cbn [obind vmas].
  change (vmas mm2) with vs1. set (vs3 := rejoined vs1 p b) in *. set (vs4 := <[tl := _]> vs3).
  assert (Hv4 : forall z, area vs4 z = if decide (z = tl) then set_vm_next (area vs3 tl) 0 else area vs3 z) by (intros z; apply area_insert).
  assert (Hrel4 : relinked (vmas mm) vs4) by (etrans; [exact Hrel|]; apply relink; by destruct (area vs3 tl)).
  assert (Hlk : forall z, z <> 0 -> z <> x -> z <> tl -> vm_prev (area vs4 z) = (if decide (z = b) then p else vm_prev (area (vmas mm) z))
    /\ vm_next (area vs4 z) = (if decide (z = p) then b else vm_next (area (vmas mm) z))).
  { intros z Hz Hzx Hzt. rewrite Hv4, decide_False by done. destruct (rejoined_links vs1 p b z Hz) as [H1 H2]. fold vs3 in H1, H2.
    by rewrite H1, H2, Hv1, (decide_False (P := z = x)). }
  assert (Hout' : forall z, z ∈ A ++ B -> z <> x /\ z <> tl) by (intros z Hz; split; intros ->; [apply (HC x); [apply list_elem_of_here|done]|by apply (HC tl)]).
  exists R'. eexists. split; [done|]. cbn [mm_addr vmas vmacache_seqnum vmacache_invalidate set_vmas].
  split_and!; [|exact Hrel4|done|done|].
  - split; cbn [mm_addr vmas mm_rb mmap highest_vm_end map_count vmacache_invalidate set_vmas mm2 set_map_count set_mm_rb]; try done.
    + eapply values_right_ext; [|exact Hv2]. intros z Hz. destruct (Hout' z Hz) as [Hzx Hzt].
      apply relinked_own_gap; [apply relink; by destruct (area vs3 tl)|]. by rewrite Hv4, decide_False.
    + eapply (links_around_listed (vmas mm) vs4 A (x :: C) B); try done; [|set_solver|].
      * apply NoDup_app in Hnd as (HA & HAC & Hnd). apply NoDup_app in Hnd as (_ & _ & HB). apply NoDup_app. split_and!; [done| |done]. set_solver.
      * intros z Hz. destruct (Hout' z Hz). apply Hlk; auto.
    + intros z Hz. eapply relinked_area_ok; [exact Hrel4|]. apply Hok. auto.
    + eapply relinked_apart; [exact Hrel4|]. by eapply apart_part.
    + rewrite Hmm. unfold p, b. destruct A as [|a A']; [done|].
      rewrite (proj2 (Z.eqb_neq _ 0)); [done|]. apply Hz0. apply elem_of_app. left. by apply end_in.
    + unfold b. destruct B as [|b' B'].
      * rewrite (app_nil_r A). change (end_of Left []) with 0. cbn [Z.eqb]. unfold p, end_of.
        destruct (last A) as [y|] eqn:Hy; cbn [default from_option id]; [|done].
        assert (Hy0 : y <> 0) by (apply Hz0, elem_of_app; left; by apply last_Some_elem_of).
        rewrite (proj2 (Z.eqb_neq y 0)) by done. etrans; [|apply Hrel4]. symmetry. apply Hrel1.
      * change (end_of Left (b' :: B')) with b'. rewrite (proj2 (Z.eqb_neq b' 0)) by (apply Hz0; set_solver). rewrite Hhi.
        rewrite !last_app. destruct (last (b' :: B')) as [y|] eqn:Hy; [|by apply last_None in Hy]. cbn [from_option]. apply Hrel4.
  - intros C1 y C2 Heq. assert (Hy : y ∈ x :: C) by (rewrite Heq; set_solver).
    assert (Hsp : A ++ (x :: C) ++ B = (A ++ C1) ++ y :: C2 ++ B) by by rewrite Heq, <- !app_assoc.
    destruct (Hl _ _ _ Hsp) as (Hys & _ & Hyn). split; [by apply Hrel4|].
    assert (Hyl : y ∈ A ++ (x :: C) ++ B) by set_solver.
    rewrite Hv4. case_decide as Hyt.
    + cbn [vm_next set_vm_next]. rewrite (end_right_last C1 y C2); [done| |by rewrite <- Heq].
      rewrite <- Heq. apply NoDup_app in Hnd as (_ & _ & Hnd). by apply NoDup_app in Hnd as (Hnd & _).
    + destruct (rejoined_links vs1 p b y (Hz0 y Hyl)) as [_ H2]. fold vs3 in H2. rewrite H2, decide_False.
      * replace (vm_next (area vs1 y)) with (vm_next (area (vmas mm) y)) by (rewrite Hv1; destruct (decide (y = x)) as [->|]; done).
        rewrite Hyn. destruct C2 as [|c2 C2]; [|done]. exfalso. apply Hyt. unfold tl. by rewrite Heq, end_right_snoc.
      * intros ->. destruct Hpin as [Hp|Hp]; [by apply (Hz0 p)|by apply (HC p)].
Qed.

Lemma own_delete_outside R L h x : own R L h -> x ∉ L.*1 -> own (delete x R) L (delete x h).
Proof.
  intros [Hn Hv ->] Hx. split; [done|done|]. rewrite delete_union. f_equal. apply delete_id. by apply not_elem_of_list_to_map_1.
Qed.

(** Freeing the detached areas. *)
Lemma remove_vma_list_spec l C : forall fuel R mm x, mm_wf R l mm -> NoDup (x :: C) -> (0 ∉ x :: C) ->
  (forall z, z ∈ x :: C -> z ∉ l) ->
  (forall C1 y C2, x :: C = C1 ++ y :: C2 -> is_Some (vmas mm !! y) /\ vm_next (area (vmas mm) y) = end_of Left C2) ->
  (length C < fuel)%nat ->
  exists R' mm', remove_vma_list fuel mm x = Ret mm' /\ mm_wf R' l mm' /\ mm_addr mm' = mm_addr mm /\ vmacache_seqnum mm' = vmacache_seqnum mm
    /\ (forall z, vmas mm' !! z = if decide (z ∈ x :: C) then None else vmas mm !! z).
Proof.
  induction C as [|y C IH]; intros fuel R mm x Hwf Hnd H0 Hout Hn Hfuel; (destruct fuel as [|fuel]; [simpl in Hfuel; lia|]).
  all: destruct (Hn [] x _ eq_refl) as [Hx Hxn]; cbn [remove_vma_list]; unfold remove_vma; rewrite vma_at_area by done; cbn [obind]; rewrite Hxn.
  all: set (mm1 := set_mm_rb _ _).
  all: assert (Hwf1 : mm_wf (delete x R) l mm1) by
    (eapply mm_wf_ext; [exact Hwf| | |done..]; [intros z Hz; apply lookup_delete_ne; intros ->; by apply (Hout z); [apply list_elem_of_here|]|];
     intros L HL HoL; apply own_delete_outside; [done|]; rewrite HL; apply Hout, list_elem_of_here).
  - cbn [end_of head default negb]. exists (delete x R), mm1. split_and!; try done. intros z. cbn [vmas mm1 set_mm_rb set_vmas].
    case_decide as Hz; [apply list_elem_of_singleton in Hz as ->; apply lookup_delete_eq|]. apply lookup_delete_ne. intros ->. apply Hz, list_elem_of_here.
  - change (end_of Left (y :: C)) with y. rewrite (proj2 (Z.eqb_neq y 0)) by set_solver. cbn [negb].
    apply NoDup_cons in Hnd as [Hxy Hnd].
    destruct (IH fuel (delete x R) mm1 y Hwf1 Hnd) as (R' & mm' & Hrun & Hwf' & Hma & Hsq & Hv); [set_solver|set_solver| |simpl in Hfuel; lia|].
    + intros C1 z C2 Heq. assert (Hz : z ∈ y :: C) by (rewrite Heq; set_solver).
      destruct (Hn (x :: C1) z C2) as [H1 H2]; [by rewrite Heq|]. assert (Hzx : z <> x) by (intros ->; done).
      cbn [vmas mm1 set_mm_rb set_vmas]. unfold area. by rewrite lookup_delete_ne by done.
    + exists R', mm'. split_and!; try done. intros z. rewrite Hv. cbn [vmas mm1 set_mm_rb set_vmas].
      destruct (decide (z ∈ y :: C)) as [Hz|Hz]; [by rewrite decide_True by set_solver|].
      destruct (decide (z = x)) as [->|Hzx]; [rewrite decide_True by set_solver; apply lookup_delete_eq|].
      rewrite decide_False by set_solver. by apply lookup_delete_ne.
Qed.

(** Detaching and freeing, as [do_munmap] does it when no area has to be split. *)
Definition unmap_areas (mm : mm_struct) (vma prev end_ : Z) : outcome mm_struct :=
  let* mm := detach_vmas_to_be_unmapped stack_guard_gap mm vma prev end_ in
  remove_vma_list (S (size (vmas mm))) mm vma.

Lemma chain_size (vs : gmap Z vm_area_struct) (C : list Z) : NoDup C -> (forall z, z ∈ C -> is_Some (vs !! z)) -> (length C <= size vs)%nat.
Proof.
  intros Hnd Hs. rewrite <- size_dom, <- (size_list_to_set (C := gset Z) C Hnd). apply subseteq_size.
  intros z Hz. apply elem_of_list_to_set in Hz. apply elem_of_dom. auto.
Qed.

Lemma unmap_areas_spec R A x C B mm end_ : mm_wf R (A ++ x :: C ++ B) mm ->
  (forall y, y ∈ C -> vm_start (area (vmas mm) y) < end_) -> (forall y B', B = y :: B' -> end_ <= vm_start (area (vmas mm) y)) ->
  exists R' mm', unmap_areas mm x (end_of Right A) end_ = Ret mm' /\ mm_wf R' (A ++ B) mm' /\ mm_addr mm' = mm_addr mm
    /\ vmacache_seqnum mm' = u64 (vmacache_seqnum mm + 1)
    /\ (forall z, z ∈ x :: C -> vmas mm' !! z = None)
    /\ (forall z, z ∈ A ++ B -> same_but_links (area (vmas mm) z) (area (vmas mm') z)).
Proof.
  intros Hwf Hin Hout. destruct (mm_wf_nodup _ _ _ Hwf) as [Hnd H0].
  destruct (detach_vmas_spec R A x C B mm end_ Hwf Hin Hout) as (R1 & mm1 & Hrun1 & Hwf1 & Hrel & Hma & Hsq & Hch).
  change (A ++ x :: C ++ B) with (A ++ (x :: C) ++ B) in *.
  apply NoDup_app in Hnd as (_ & HAC & Hnd). apply NoDup_app in Hnd as (HndC & HCB & _).
  assert (Hsome : forall z, z ∈ x :: C -> is_Some (vmas mm1 !! z)).
  { intros z (C1 & C2 & Heq)%list_elem_of_split. by apply (Hch C1 z C2). }
  destruct (remove_vma_list_spec (A ++ B) C (S (size (vmas mm1))) R1 mm1 x Hwf1 HndC) as (R2 & mm2 & Hrun2 & Hwf2 & Hma2 & Hsq2 & Hv2); try done.
  - set_solver.
  - intros z Hz Hz'. apply elem_of_app in Hz' as [Hz'|Hz']; [apply (HAC z Hz'); set_solver|by apply (HCB z Hz)].
  - pose proof (chain_size (vmas mm1) (x :: C) HndC Hsome). simpl in *. lia.
  - exists R2, mm2. unfold unmap_areas. rewrite Hrun1. cbn [obind]. split_and!; try done; [by rewrite Hma2|by rewrite Hsq2| |].
    + intros z Hz. by rewrite Hv2, decide_True.
    + intros z Hz. etrans; [apply Hrel|]. unfold area. rewrite Hv2, decide_False; [done|]. intros HzC.
      apply elem_of_app in Hz as [Hz|Hz]; [apply (HAC z Hz); set_solver|by apply (HCB z HzC)].
Qed.
End Unmap.
