(* ===== verification/AddressFind.v ===== *)
(** * Looking up areas through the caches of the tasks *)
From Stdlib Require Import ZArith Lia Bool Sorted.
From stdpp Require Import base numbers list sorting gmap.
From S2P Require Import Prelude RBTree RBTreeShape RBTreeRep RBTreeAugment RBTreeInsert RBTreeErase RBTreeRemove RBTreeCallbacks RBTreeWalk RBTreeProps RBTreeSearch VmArea IntervalTree IntervalTreeSpec AddressSpace AddressSearch AddressGaps AddressLink AddressUnmap.

(** The areas that end above an address; the first is the one [find_vma] looks for. *)
Definition above_addr (vs : gmap Z vm_area_struct) (addr : Z) (l : list Z) : list Z :=
  filter (fun z => addr < vm_end (area vs z)) l.

Section Find.
Variable stack_guard_gap : Z.
Abbreviation mm_wf := (mm_wf stack_guard_gap).

Lemma find_vma_loop_spec R L mm addr fuel : forall w p vma,
  own R L (rb_nodes (mm_rb mm)) -> cells w p ⊆+ L ->
  (forall z, z ∈ elems w -> is_Some (vmas mm !! z) /\ vm_start (area (vmas mm) z) < vm_end (area (vmas mm) z)) ->
  apart (vmas mm) (elems w) -> (length (elems w) < fuel)%nat ->
  find_vma_loop fuel mm addr (ptr w) vma = Ret (default vma (head (above_addr (vmas mm) addr (elems w)))).
Proof.
  destruct mm as [m vs [h r d] mp hi ct sq]. cbn [mm_rb vmas rb_nodes].
  induction fuel as [|fuel IH]; intros w p vma Ho Hs Hw Hap Hf; [lia|]. destruct w as [|c a y b]; [done|].
  cbn [find_vma_loop ptr cells elems] in *. rewrite length_app in Hf. simpl in Hf.
  assert (Hy : (y, mk_node (pack p c) (ptr b) (ptr a)) ∈ L) by exact (elem_of_submseteq _ _ _ (list_elem_of_here _ _) Hs).
  assert (Hv : valid y) by (eapply own_valid; [exact Ho|]; by apply (list_elem_of_fmap_2 fst) in Hy).
  rewrite (proj2 (Z.eqb_neq y 0)) by by apply valid_neq0. cbn [negb vmas mm_rb].
  destruct (Hw y) as [Hys Hyo]; [set_solver|]. rewrite vma_at_area by done. cbn [obind].
  rewrite !(cell_children R h r d L y _ _ Ho Hy). unfold above_addr. rewrite filter_app, filter_cons.
  unfold apart in Hap. apply StronglySorted_app in Hap as (Hlr & Hal & Hyr). inversion_clear Hyr as [|? ? Har HF].
  assert (Ha : vm_start (area vs y) <= addr -> filter (fun z => addr < vm_end (area vs z)) (elems a) = []).
  { intros Hya. apply filter_none. intros z Hz. specialize (Hlr z y Hz (list_elem_of_here _ _)). simpl in Hlr. lia. }
  destruct (Z.ltb_spec addr (vm_end (area vs y))) as [H1|H1].
  - rewrite decide_True by done. destruct (Z.leb_spec (vm_start (area vs y)) addr) as [H2|H2]; [by rewrite Ha|].
    cbn [obind child_of rb_left]. rewrite (IH a y y Ho); [|etrans; [|exact Hs]; solve_submseteq|intros z Hz; apply Hw; set_solver|exact Hal|lia].
    unfold above_addr. by destruct (filter _ (elems a)).
  - rewrite decide_False by lia. rewrite Ha by lia. cbn [obind child_of rb_right app].
    by rewrite (IH b y vma Ho); [|etrans; [|exact Hs]; solve_submseteq|intros z Hz; apply Hw; set_solver|exact Har|lia].
Qed.

Lemma rightmost_vma_spec R L mm fuel : forall w p prev,
  own R L (rb_nodes (mm_rb mm)) -> cells w p ⊆+ L -> (length (elems w) < fuel)%nat ->
  rightmost_vma fuel mm (ptr w) prev = Ret (default prev (last (elems w))).
Proof.
  destruct mm as [m vs [h r d] mp hi ct sq]. cbn [mm_rb rb_nodes].
  induction fuel as [|fuel IH]; intros w p prev Ho Hs Hf; [lia|]. destruct w as [|c a y b]; [done|].
  cbn [rightmost_vma ptr cells elems] in *. rewrite length_app in Hf. simpl in Hf.
  assert (Hy : (y, mk_node (pack p c) (ptr b) (ptr a)) ∈ L) by exact (elem_of_submseteq _ _ _ (list_elem_of_here _ _) Hs).
  assert (Hv : valid y) by (eapply own_valid; [exact Ho|]; by apply (list_elem_of_fmap_2 fst) in Hy).
  rewrite (proj2 (Z.eqb_neq y 0)) by by apply valid_neq0. cbn [negb mm_rb].
  rewrite (cell_children R h r d L y _ _ Ho Hy). cbn [obind child_of rb_right].
  rewrite (IH b y y Ho); [|etrans; [|exact Hs]; solve_submseteq|lia]. f_equal. rewrite last_app.
  change (y :: elems b) with ([y] ++ elems b). rewrite last_app. by destruct (last (elems b)).
Qed.

(** ** The cache *)

(** What a task's cache has: nothing, or entries from the time of its sequence
    number, which are areas if that is the current one. *)
Record cache_ok (mm : mm_struct) (l : list Z) (tsk : task_struct) : Prop := {
  cache_length : length (vmacache tsk) = Z.to_nat VMACACHE_SIZE;
  cache_entries : vmacache_valid_mm tsk (mm_addr mm) = true ->
    (forall p, p ∈ vmacache tsk -> p = 0)
    \/ (task_seqnum tsk <= vmacache_seqnum mm
        /\ (task_seqnum tsk = vmacache_seqnum mm -> forall p, p ∈ vmacache tsk -> p = 0 \/ p ∈ l))
}.

Lemma vmacache_scan_spec R l mm addr : mm_wf R l mm -> forall entries, (forall p, p ∈ entries -> p = 0 \/ p ∈ l) ->
  exists r, vmacache_scan mm addr entries = Ret r
    /\ (r = 0 \/ (r ∈ l /\ vm_start (area (vmas mm) r) <= addr < vm_end (area (vmas mm) r))).
Proof.
  intros Hwf. destruct (mm_wf_nodup _ _ _ _ Hwf) as [_ H0].
  induction entries as [|e entries IH]; intros He; [exists 0; auto|]. cbn [vmacache_scan].
  assert (Hes : forall p, p ∈ entries -> p = 0 \/ p ∈ l) by (intros p Hp; apply He; by apply list_elem_of_further).
  destruct (He e (list_elem_of_here _ _)) as [->|Hel]; [by apply IH|].
  rewrite (proj2 (Z.eqb_neq e 0)) by (by intros ->). pose proof Hwf as [_ _ Hl Hok _ _ _ _].
  rewrite vma_at_area by by eapply (listed_readable _ l). cbn [obind]. destruct (Hok e Hel) as (_ & _ & ->). rewrite Z.eqb_refl. cbn [negb].
  destruct (Z.leb_spec (vm_start (area (vmas mm) e)) addr), (Z.ltb_spec addr (vm_end (area (vmas mm) e))); cbn [andb]; try by apply IH.
  exists e. split; [done|]. right. split; [done|lia].
Qed.

(** An area that has the address is the first to end above it. *)
Lemma hit_is_first vs l r addr : apart vs l -> r ∈ l -> (forall z, z ∈ l -> vm_start (area vs z) < vm_end (area vs z)) ->
  vm_start (area vs r) <= addr < vm_end (area vs r) -> head (above_addr vs addr l) = Some r.
Proof.
  intros Hap (A & B & ->)%list_elem_of_split Hne Hr. unfold above_addr. rewrite filter_app, filter_cons, decide_True by lia.
  rewrite filter_none; [done|]. intros z Hz. unfold apart in Hap. apply StronglySorted_app in Hap as (HAB & _ & _).
  specialize (HAB z r Hz (list_elem_of_here _ _)). simpl in HAB. lia.
Qed.

Lemma flush_ok mm l tsk : cache_ok mm l (vmacache_flush tsk).
Proof. split; [done|]. intros _. left. intros p Hp. cbn [vmacache vmacache_flush] in Hp. by apply elem_of_replicate in Hp as [-> _]. Qed.

Lemma find_vma_spec R l mm tsk addr : mm_wf R l mm -> cache_ok mm l tsk -> 0 <= vmacache_seqnum mm ->
  exists tsk', find_vma mm tsk addr = Ret (tsk', end_of Left (above_addr (vmas mm) addr l)) /\ cache_ok mm l tsk'
    /\ task_mm tsk' = task_mm tsk /\ task_flags tsk' = task_flags tsk.
Proof.
  intros Hwf Hok0 Hsq. pose proof Hok0 as [Hlen Hc]. pose proof Hwf as [(w & Ho & Hr & _ & He) _ Hl Hok Hap _ _ _]. destruct (mm_wf_nodup _ _ _ _ Hwf) as [_ H0].
  assert (Hne : forall z, z ∈ l -> is_Some (vmas mm !! z) /\ vm_start (area (vmas mm) z) < vm_end (area (vmas mm) z)).
  { intros z Hz. split; [by eapply (listed_readable _ l)|apply (Hok z Hz)]. }
  set (res := end_of Left (above_addr (vmas mm) addr l)).
  (* what the cache says, and its state then *)
  assert (Hfind : exists tsk1 r, vmacache_find mm tsk addr = Ret (tsk1, r) /\ (r = 0 \/ r = res) /\ cache_ok mm l tsk1
    /\ task_mm tsk1 = task_mm tsk /\ task_flags tsk1 = task_flags tsk
    /\ (vmacache_valid_mm tsk (mm_addr mm) = true -> task_seqnum tsk1 <= vmacache_seqnum mm
         /\ (task_seqnum tsk1 = vmacache_seqnum mm -> forall p, p ∈ vmacache tsk1 -> p = 0 \/ p ∈ l))).
  { unfold vmacache_find, vmacache_valid. destruct (vmacache_valid_mm tsk (mm_addr mm)) eqn:Hval; cbn [negb].
    2:{ exists tsk, 0. split_and!; auto. done. }
    destruct (Z.eqb_spec (vmacache_seqnum mm) (task_seqnum tsk)) as [Hseq|Hseq]; cbn [negb].
    - assert (Hent : forall p, p ∈ vmacache tsk -> p = 0 \/ p ∈ l).
      { destruct (Hc eq_refl) as [Hz|[_ Hz]]; [intros p Hp; left; by apply Hz|by apply Hz]. }
      destruct (vmacache_scan_spec R l mm addr Hwf (vmacache tsk) Hent) as (r & -> & Hr'). cbn [obind].
      exists tsk, r. split_and!; try done; [|intros _; split; [lia|done]]. destruct Hr' as [->|[Hrl Hrr]]; [by left|right].
      unfold res, end_of. rewrite (hit_is_first _ _ r); try done. intros z Hz. by apply Hne.
    - eexists _, 0. split; [done|]. split_and!; [by left|apply flush_ok|done|done|]. intros _. cbn [task_seqnum vmacache_flush vmacache].
      split; [unfold wrap; by apply Z.mod_le|]. intros _ p Hp. left. by apply elem_of_replicate in Hp as [-> _]. }
  destruct Hfind as (tsk1 & r & Hf & Hr1 & Hc1 & Hm1 & Hfl1 & Hinv). unfold find_vma. rewrite Hf. cbn [obind].
  destruct (Z.eqb_spec r 0) as [->|Hr0]; cbn [negb].
  2:{ destruct Hr1 as [?| ->]; [done|]. by exists tsk1. }
  pose proof (own_size _ _ _ Ho) as Hsz. rewrite <- (length_fmap fst), cells_keys in Hsz.
  rewrite Hr, (find_vma_loop_spec R _ mm addr _ w 0 0 Ho); rewrite ?He; try done; [|rewrite He in Hsz; lia]. cbn [obind].
  fold (end_of Left (above_addr (vmas mm) addr l)). fold res.
  destruct (Z.eqb_spec res 0) as [Hz|Hz]; cbn [negb]; [by exists tsk1|].
  assert (Hres : res ∈ l).
  { assert (Hin : res ∈ above_addr (vmas mm) addr l) by (apply end_in; intros Hnil; apply Hz; unfold res; by rewrite Hnil).
    unfold above_addr in Hin. apply list_elem_of_filter in Hin. tauto. }
  unfold vmacache_update. rewrite vma_at_area by by apply Hne. cbn [obind]. destruct (Hok res Hres) as (_ & _ & ->).
  assert (Hval1 : vmacache_valid_mm tsk1 (mm_addr mm) = vmacache_valid_mm tsk (mm_addr mm)) by (unfold vmacache_valid_mm; by rewrite Hm1, Hfl1).
  rewrite Hval1. destruct (vmacache_valid_mm tsk (mm_addr mm)) eqn:Hval; [|by exists tsk1].
  eexists. split; [done|]. destruct (Hinv eq_refl) as [Hle Hent]. split_and!; try done.
  split; cbn [vmacache]; [rewrite length_insert; apply Hc1|]. intros _. right. cbn [task_seqnum]. split; [done|].
  intros Heq p Hp. apply list_elem_of_lookup in Hp as [i Hi]. apply list_lookup_insert_Some in Hi as [(_ & <- & _)|[_ Hi]]; [by right|].
  apply Hent; [done|]. by eapply list_elem_of_lookup_2.
Qed.

(** The areas below an address, and the others. *)
Lemma split_at_addr vs l addr : apart vs l -> (forall z, z ∈ l -> vm_start (area vs z) < vm_end (area vs z)) ->
  exists A B, l = A ++ B /\ Forall (fun z => vm_end (area vs z) <= addr) A /\ Forall (fun z => addr < vm_end (area vs z)) B
    /\ above_addr vs addr l = B.
Proof.
  unfold apart, above_addr. induction 1 as [|x l Hs IH HF]; intros Hne; [by exists [], []|]. rewrite filter_cons.
  destruct (Z.le_gt_cases (vm_end (area vs x)) addr) as [Hx|Hx].
  - destruct IH as (A & B & -> & HA & HB & Hab); [intros z Hz; apply Hne; by apply list_elem_of_further|]. exists (x :: A), B.
    rewrite decide_False by lia. split_and!; try done. by constructor.
  - exists [], (x :: l). rewrite decide_True by done. assert (Hall : Forall (fun z => addr < vm_end (area vs z)) l).
    { rewrite Forall_forall in HF |- *. intros z Hz. specialize (HF z Hz). simpl in HF. specialize (Hne z (list_elem_of_further _ _ _ Hz)). lia. }
    split_and!; try done; [by constructor|]. by rewrite filter_all.
Qed.

Lemma find_vma_split R l mm tsk addr : mm_wf R l mm -> cache_ok mm l tsk -> 0 <= vmacache_seqnum mm ->
  exists tsk' A B, l = A ++ B /\ Forall (fun z => vm_end (area (vmas mm) z) <= addr) A /\ Forall (fun z => addr < vm_end (area (vmas mm) z)) B
    /\ find_vma mm tsk addr = Ret (tsk', end_of Left B) /\ cache_ok mm l tsk' /\ task_mm tsk' = task_mm tsk /\ task_flags tsk' = task_flags tsk.
Proof.
  intros Hwf Hc Hsq. destruct (find_vma_spec R l mm tsk addr Hwf Hc Hsq) as (tsk' & Hf & Hc' & Ht).
  destruct (split_at_addr (vmas mm) l addr) as (A & B & Heq & HA & HB & Hab); [apply Hwf|intros z Hz; apply (wf_areas _ _ _ _ Hwf z Hz)|].
  exists tsk', A, B. by rewrite Hf, Hab.
Qed.

Lemma find_vma_prev_spec R l mm tsk addr : mm_wf R l mm -> cache_ok mm l tsk -> 0 <= vmacache_seqnum mm ->
  exists tsk' A B, l = A ++ B /\ Forall (fun z => vm_end (area (vmas mm) z) <= addr) A /\ Forall (fun z => addr < vm_end (area (vmas mm) z)) B
    /\ find_vma_prev mm tsk addr = Ret (tsk', end_of Left B, end_of Right A) /\ cache_ok mm l tsk'.
Proof.
  intros Hwf Hc Hsq. destruct (find_vma_split R l mm tsk addr Hwf Hc Hsq) as (tsk' & A & B & Heq & HA & HB & Hf & Hc' & _).
  pose proof Hwf as [(w & Ho & Hr & _ & He) _ Hl Hok Hap _ _ _]. destruct (mm_wf_nodup _ _ _ _ Hwf) as [_ H0].
  exists tsk', A, B. split_and!; try done.
  unfold find_vma_prev. rewrite Hf. cbn [obind]. destruct B as [|b B].
  - cbn [end_of head default]. cbn [Z.eqb negb]. pose proof (own_size _ _ _ Ho) as Hsz. rewrite <- (length_fmap fst), cells_keys in Hsz.
    rewrite Hr, (rightmost_vma_spec R _ mm _ w 0 0 Ho ltac:(reflexivity)) by lia. cbn [obind]. by rewrite He, Heq, app_nil_r.
  - change (end_of Left (b :: B)) with b. rewrite (proj2 (Z.eqb_neq b 0)) by (intros ->; apply H0; rewrite Heq; set_solver). cbn [negb].
    destruct (Hl A b B Heq) as (Hb & Hp & _). rewrite vma_at_area by done. cbn [obind]. by rewrite Hp.
Qed.

(** A cache stays right while areas are only added, and when it is out of date. *)
Definition cache_kept (mm : mm_struct) (l : list Z) (mm' : mm_struct) (l' : list Z) : Prop :=
  mm_addr mm' = mm_addr mm
  /\ ((vmacache_seqnum mm' = vmacache_seqnum mm /\ forall z, z ∈ l -> z ∈ l') \/ vmacache_seqnum mm < vmacache_seqnum mm').

Lemma cache_kept_ok mm l mm' l' tsk : cache_kept mm l mm' l' -> cache_ok mm l tsk -> cache_ok mm' l' tsk.
Proof.
  intros [Hma Hs] [Hlen Hc]. split; [done|]. rewrite Hma. intros Hv. destruct (Hc Hv) as [H0|[Hle Hin]]; [by left|right].
  destruct Hs as [[-> Hl]|Hlt].
  - split; [done|]. intros He p Hp. destruct (Hin He p Hp); auto.
  - split; [lia|]. intros He. lia.
Qed.

Lemma cache_kept_refl mm l : cache_kept mm l mm l.
Proof. split; [done|]. left. done. Qed.

Lemma cache_kept_trans mm1 l1 mm2 l2 mm3 l3 : cache_kept mm1 l1 mm2 l2 -> cache_kept mm2 l2 mm3 l3 -> cache_kept mm1 l1 mm3 l3.
Proof.
  intros [Ha1 H1] [Ha2 H2]. split; [by rewrite Ha2|].
  destruct H1 as [[H1 Hl1]|H1], H2 as [[H2 Hl2]|H2]; [left; split; [lia|auto]|right; lia..].
Qed.
End Find.
