(* ===== verification/AddressUnmapped.v ===== *)
(** * The searches for a free range *)
From Stdlib Require Import ZArith Lia Bool Sorted.
From stdpp Require Import base numbers list sorting gmap.
From S2P Require Import Prelude RBTree RBTreeShape RBTreeRep RBTreeAugment RBTreeInsert RBTreeErase RBTreeRemove RBTreeCallbacks RBTreeWalk RBTreeProps RBTreeSearch VmArea IntervalTree IntervalTreeSpec AddressSpace AddressSearch AddressGaps AddressLink AddressUnmap.

(** The gap before an area: from the end of the area before it to its start, less the
    guard gap of a stack. *)
Definition gap_start (vs : gmap Z vm_area_struct) (x : Z) : Z :=
  let p := vm_prev (area vs x) in if p =? 0 then 0 else vm_end (area vs p).

Section Unmapped.
Variable stack_guard_gap : Z.
Abbreviation gap_of vs := (last_of (own_gap stack_guard_gap vs)).
Abbreviation gaug vs := (declared_augment (vma_compute_subtree_gap stack_guard_gap vs) (gap_of vs) (readable vs)
  (gap_computes stack_guard_gap vs) (last_rotates (own_gap stack_guard_gap vs))).
Abbreviation mm_wf := (mm_wf stack_guard_gap).

Definition gap_end (vs : gmap Z vm_area_struct) (x : Z) : Z := vm_start_gap stack_guard_gap (area vs x).

(** The ends of the gaps do not decrease, as when no area is in the guard gap of a
    stack. *)
Definition guarded (vs : gmap Z vm_area_struct) (l : list Z) : Prop := StronglySorted (fun a b => gap_end vs a <= gap_end vs b) l.

(** A gap in which [length] bytes fit between the limits, [low] being the lower one
    plus [length] and [high] the upper one less [length]. *)
Definition suitable (vs : gmap Z vm_area_struct) (length low high x : Z) : Prop :=
  low <= gap_end vs x /\ gap_start vs x <= high /\ gap_start vs x < gap_end vs x /\ length <= gap_end vs x - gap_start vs x.

#[global] Instance suitable_dec vs length low high x : Decision (suitable vs length low high x).
Proof. unfold suitable. apply _. Defined.

Lemma get_child_at R L (t : rb_state (gmap Z Z)) p n s : own R L (rb_nodes t) -> (p, n) ∈ L -> get_child s t p = Ret (child_of s n).
Proof. destruct t as [h r d]. apply cell_children. Qed.

Lemma rb_parent_at R L (t : rb_state (gmap Z Z)) p q c r a : own R L (rb_nodes t) -> (p, mk_node (pack q c) r a) ∈ L -> link q ->
  RBTree.rb_parent t p = Ret q.
Proof. intros Ho Hp Hq. unfold RBTree.rb_parent, get_pc, get. rewrite (own_lookup _ _ _ _ _ Ho Hp). cbn [obind rb_parent_color]. by rewrite parent_pack. Qed.

Section Search.
Context (R : nodes) (l : list Z) (mm : mm_struct).
Hypothesis guard_range : 0 <= stack_guard_gap < 2 ^ 32.
Hypothesis wf : mm_wf R l mm.
Abbreviation vs := (vmas mm).

Lemma own_gap_eq x : x ∈ l -> own_gap stack_guard_gap vs x = Z.max 0 (gap_end vs x - gap_start vs x).
Proof.
  intros Hx. unfold own_gap, gap_start, gap_end. destruct (_ =? 0); [|done].
  destruct (wf_areas _ _ _ _ wf x Hx) as [? [? _]].
  pose proof (vm_start_gap_bounds stack_guard_gap (area vs x) ltac:(lia) guard_range). lia.
Qed.

Lemma gap_start_at A x B : l = A ++ x :: B -> gap_start vs x = from_option (fun y => vm_end (area vs y)) 0 (last A).
Proof.
  intros Hl. destruct (wf_list _ _ _ _ wf A x B Hl) as (_ & Hp & _). unfold gap_start. rewrite Hp. unfold end_of.
  destruct (last A) as [y|] eqn:Hy; cbn [default from_option id]; [|done]. rewrite (proj2 (Z.eqb_neq y 0)); [done|].
  destruct (mm_wf_nodup _ _ _ _ wf) as [_ H0]. intros ->. apply H0. rewrite Hl, elem_of_app. left. by apply last_Some_elem_of.
Qed.

(** Gap starts increase, up to the end of the last area. *)
Lemma gap_start_mono A x B : l = A ++ x :: B ->
  (forall y, y ∈ B -> gap_start vs x <= gap_start vs y) /\ gap_start vs x <= highest_vm_end mm.
Proof.
  intros Hl. pose proof (wf_apart _ _ _ _ wf) as Hap. unfold apart in Hap.
  assert (Hne : forall z, z ∈ l -> vm_start (area vs z) < vm_end (area vs z)) by (intros z Hz; apply (wf_areas _ _ _ _ wf z Hz)).
  assert (Hx : gap_start vs x <= vm_start (area vs x)).
  { rewrite (gap_start_at A x B Hl). destruct (last A) as [y|] eqn:Hy; cbn [from_option].
    - rewrite Hl in Hap. apply StronglySorted_app in Hap as (HAB & _). apply (HAB y x); [by apply last_Some_elem_of|apply list_elem_of_here].
    - destruct (wf_areas _ _ _ _ wf x) as [? _]; [rewrite Hl; set_solver|]. lia. }
  assert (Hge : forall y, y ∈ x :: B -> gap_start vs x <= vm_end (area vs y)).
  { intros y [->|Hy]%elem_of_cons; [specialize (Hne x); rewrite Hl in Hne; assert (vm_start (area vs x) < vm_end (area vs x)) by (apply Hne; set_solver); lia|].
    assert (vm_start (area vs y) < vm_end (area vs y)) by (apply Hne; rewrite Hl; set_solver).
    assert (vm_start (area vs x) < vm_end (area vs x)) by (apply Hne; rewrite Hl; set_solver).
    rewrite Hl in Hap. apply StronglySorted_app in Hap as (_ & _ & Hap). inversion_clear Hap as [|? ? _ HF]. rewrite Forall_forall in HF.
    specialize (HF y Hy). simpl in HF. lia. }
  split.
  - intros y (B1 & B2 & ->)%list_elem_of_split.
    rewrite (gap_start_at (A ++ x :: B1) y B2) by by rewrite Hl, <- app_assoc.
    rewrite last_app. change (x :: B1) with ([x] ++ B1). rewrite last_app. destruct (last B1) as [z|] eqn:Hz; cbn [from_option last].
    + apply Hge. apply last_Some_elem_of in Hz. set_solver.
    + apply Hge. set_solver.
  - rewrite (wf_highest _ _ _ _ wf), Hl, last_app. destruct (last (x :: B)) as [y|] eqn:Hy; [|by apply last_None in Hy].
    cbn [from_option]. apply Hge. by apply last_Some_elem_of.
Qed.

(** A tree with right gaps, and the sequence it is a part of. *)
Lemma promising_spec w p L length : own R L (rb_nodes (mm_rb mm)) -> cells w p ⊆+ L -> fitting (Augment0 := gaug vs) (rb_data (mm_rb mm)) w ->
  (forall z, z ∈ elems w -> z ∈ l) ->
  exists b : bool, promising mm (ptr w) length = Ret b /\ (b = false -> forall low high z, z ∈ elems w -> ~ suitable vs length low high z).
Proof.
  intros Ho Hs Hf Hin. unfold promising. destruct (decide (w = E)) as [->|Hw].
  { exists false. split; [done|]. intros _ low high z Hz. by apply elem_of_nil in Hz. }
  rewrite (proj2 (Z.eqb_neq (ptr w) 0)) by by eapply own_ptr_neq0. cbn [negb].
  destruct (tree_last _ _ _ _ _ _ w Hf Hw) as (m & Hm & Hall & _). destruct (value_field _ _ _ Hm) as [-> _]. cbn [obind].
  eexists. split; [done|]. intros Hlt%Z.leb_gt low high z Hz (_ & _ & H1 & H2). specialize (Hall z Hz). rewrite own_gap_eq in Hall by auto. lia.
Qed.

Context (w0 : tree) (length low high : Z).
Hypothesis w0_own : own R (cells w0 0) (rb_nodes (mm_rb mm)).
Hypothesis w0_elems : elems w0 = l.
Hypothesis w0_gaps : fitting (Augment0 := gaug vs) (rb_data (mm_rb mm)) w0.

(** What a node of the tree gives. *)
Lemma node_facts k c a x b : plug k (T c a x b) = w0 ->
  (x, mk_node (pack (above k) c) (ptr b) (ptr a)) ∈ cells w0 0 /\ cells a x ⊆+ cells w0 0 /\ cells b x ⊆+ cells w0 0
  /\ fitting (Augment0 := gaug vs) (rb_data (mm_rb mm)) a /\ fitting (Augment0 := gaug vs) (rb_data (mm_rb mm)) b
  /\ l = (before k ++ elems a) ++ x :: elems b ++ after k /\ vma_at vs x = Ret (area vs x) /\ x <> 0.
Proof.
  intros Hk. rewrite <- w0_elems. split_and!.
  - rewrite <- Hk, cells_plug. apply list_elem_of_here.
  - rewrite <- Hk, cells_plug. cbn [cells]. solve_submseteq.
  - rewrite <- Hk, cells_plug. cbn [cells]. solve_submseteq.
  - pose proof w0_gaps as Hg. rewrite <- Hk in Hg. apply fitting_plug in Hg as [(_ & Ha & _) _]. exact Ha.
  - pose proof w0_gaps as Hg. rewrite <- Hk in Hg. apply fitting_plug in Hg as [(_ & _ & Hb) _]. exact Hb.
  - rewrite <- Hk, elems_plug. cbn [elems]. by rewrite <- !app_assoc.
  - apply vma_at_area. eapply (listed_readable _ l); [apply wf|]. rewrite <- w0_elems, <- Hk, elems_plug. cbn [elems]. set_solver.
  - destruct (mm_wf_nodup _ _ _ _ wf) as [_ H0]. intros ->. apply H0. rewrite <- w0_elems, <- Hk, elems_plug. cbn [elems]. set_solver.
Qed.

Lemma prev_end_gap_spec x : x ∈ l -> prev_end_gap stack_guard_gap mm (area vs x) = Ret (gap_start vs x).
Proof.
  intros Hx. unfold prev_end_gap, gap_start. destruct (listed_readable _ l x (wf_list _ _ _ _ wf) Hx) as [_ [Hp|Hp]].
  - by rewrite Hp.
  - destruct (_ =? 0); cbn [negb]; [done|]. rewrite vma_at_area by done. cbn [obind]. by rewrite vm_end_gap_spec.
Qed.

(** How the search of the sequence [B] ends: a gap it finds is suitable, and is the
    first one when the gap ends do not decrease. *)
Definition search_ends (B : list Z) (r : search_end) : Prop :=
  (forall gs ge, r = Found gs ge -> exists x, x ∈ l /\ suitable vs length low high x /\ gs = gap_start vs x /\ ge = gap_end vs x)
  /\ (r = Nomem -> high < highest_vm_end mm)
  /\ (guarded vs l -> match head (filter (suitable vs length low high) B) with
                      | Some x => r = Found (gap_start vs x) (gap_end vs x)
                      | None => r = Highest \/ r = Nomem
                      end).

Lemma search_ends_skip A B r : (guarded vs l -> forall z, z ∈ A -> ~ suitable vs length low high z) -> search_ends B r -> search_ends (A ++ B) r.
Proof.
  intros HA (H1 & H2 & H3). split_and!; [done|done|]. intros Hg. rewrite filter_app, (filter_none _ A) by by apply HA. by apply H3.
Qed.

(** The nodes that can still be visited from a context on. *)
Fixpoint lefts (k : list frame) : nat :=
  match k with [] => 0 | F Left _ _ o :: k => Datatypes.length (elems o) + lefts k | F Right _ _ _ :: k => lefts k end.

Lemma unmapped_area_loop_spec fuel : forall k c a x b, plug k (T c a x b) = w0 ->
  ((4 * (Datatypes.length (elems (T c a x b)) + lefts k) + 2 * Datatypes.length k < fuel)%nat ->
     runs (unmapped_area_loop stack_guard_gap mm fuel length low high (Visit x)) (search_ends (elems (T c a x b) ++ after k)))
  /\ ((4 * (Datatypes.length (elems b) + lefts k) + 2 * Datatypes.length k + 3 < fuel)%nat ->
     runs (unmapped_area_loop stack_guard_gap mm fuel length low high (Current x (gap_start vs x) (gap_end vs x))) (search_ends (x :: elems b ++ after k)))
  /\ ((4 * lefts k + 2 * Datatypes.length k + 2 < fuel)%nat ->
     runs (unmapped_area_loop stack_guard_gap mm fuel length low high (Back x)) (search_ends (after k))).
Proof.
  induction fuel as [|fuel IH]; intros k c a x b Hk; [split_and!; lia|].
  destruct (node_facts k c a x b Hk) as (Hc & Hsa & Hsb & Hfa & Hfb & Hl & Hvx & Hx0).
  assert (Hxl : x ∈ l) by (rewrite Hl; set_solver).
  pose proof (IH k c a x b Hk) as (_ & IHc & IHb).
  assert (Hge : vm_start_gap stack_guard_gap (area vs x) = gap_end vs x) by done.
  destruct (promising_spec a x _ length w0_own Hsa Hfa) as (ba & Hba & Hna); [intros z Hz; rewrite Hl; set_solver|].
  destruct (promising_spec b x _ length w0_own Hsb Hfb) as (bb & Hbb & Hnb); [intros z Hz; rewrite Hl; set_solver|].
  split_and!; intros Hfuel; cbn [unmapped_area_loop].
  - rewrite Hvx. cbn [obind]. rewrite (get_child_at R _ _ x _ Left w0_own Hc), Hge. cbn [obind child_of rb_left].
    assert (Hgo : exists go : bool, (if low <=? gap_end vs x then promising mm (ptr a) length else Ret false) = Ret go
      /\ (go = true -> a <> E) /\ (go = false -> guarded vs l -> forall z, z ∈ elems a -> ~ suitable vs length low high z)).
    { destruct (Z.leb_spec low (gap_end vs x)) as [Hlow|Hlow].
      - exists ba. split_and!; [done| |intros Hf _ z Hz; by apply (Hna Hf)]. intros -> ->. unfold promising in Hba. cbn in Hba. done.
      - exists false. split_and!; [done|done|]. intros _ Hm z Hz (Hlz & _). unfold guarded in Hm. rewrite Hl in Hm.
        apply StronglySorted_app in Hm as (HAB & _). specialize (HAB z x). simpl in HAB. assert (gap_end vs z <= gap_end vs x) by (apply HAB; set_solver). lia. }
    destruct Hgo as (go & -> & Hgt & Hgf). cbn [obind]. cbn [elems] in Hfuel |- *. rewrite length_app in Hfuel. simpl in Hfuel. destruct go.
    + destruct a as [|ca a1 y a2]; [by specialize (Hgt eq_refl)|]. cbn [ptr].
      destruct (IH (F Left c x b :: k) ca a1 y a2 Hk) as (IHv & _ & _). cbn [after lefts Datatypes.length] in IHv.
      eapply runs_mono; [apply IHv; lia|]. intros r Hr. by rewrite <- app_assoc.
    + rewrite prev_end_gap_spec by done. cbn [obind]. rewrite <- app_assoc.
      eapply runs_mono; [apply IHc; lia|]. intros r Hr. by apply search_ends_skip; [apply Hgf|].
  - destruct (gap_start_mono _ x _ Hl) as [Hmono Hhi]. destruct (Z.ltb_spec high (gap_start vs x)) as [Hh|Hh].
    { apply runs_ret. split_and!; [done|lia|]. intros _. rewrite filter_none; [by right|].
      intros z [->|Hz]%elem_of_cons (_ & H1 & _); [lia|]. specialize (Hmono z Hz). lia. }
    destruct (decide (suitable vs length low high x)) as [Hsuit|Hsuit].
    { assert (Hb : (low <=? gap_end vs x) && (gap_start vs x <? gap_end vs x) && (length <=? gap_end vs x - gap_start vs x) = true).
      { destruct Hsuit as (? & ? & ? & ?). rewrite !andb_true_iff, !Z.leb_le, Z.ltb_lt. lia. }
      rewrite Hb. apply runs_ret. split_and!; [|done|intros _; by rewrite filter_cons, decide_True].
      intros gs ge [= <- <-]. by exists x. }
    assert (Hb : (low <=? gap_end vs x) && (gap_start vs x <? gap_end vs x) && (length <=? gap_end vs x - gap_start vs x) = false).
    { apply not_true_iff_false. rewrite !andb_true_iff, !Z.leb_le, Z.ltb_lt. intros [[? ?] ?]. apply Hsuit. unfold suitable. lia. }
    rewrite Hb, (get_child_at R _ _ x _ Right w0_own Hc). cbn [obind child_of rb_right]. rewrite Hbb. cbn [obind].
    apply (runs_mono _ (search_ends (elems b ++ after k))).
    2:{ intros r Hr. apply (search_ends_skip [x]); [|done]. intros _ z Hz. by apply list_elem_of_singleton in Hz as ->. }
    destruct bb.
    + destruct b as [|cb b1 y b2]; [unfold promising in Hbb; cbn in Hbb; done|]. cbn [ptr].
      destruct (IH (F Right c x a :: k) cb b1 y b2 Hk) as (IHv & _ & _). cbn [after lefts Datatypes.length] in IHv. apply IHv. lia.
    + eapply runs_mono; [apply IHb; lia|]. intros r Hr. apply search_ends_skip; [|done]. intros _ z Hz. by apply Hnb.
  - assert (Hlk : link (above k)) by (eapply (up_link R); [exact w0_own|]; rewrite <- Hk, cells_plug; solve_submseteq).
    rewrite (rb_parent_at R _ _ x _ _ _ _ w0_own Hc Hlk). cbn [obind].
    destruct k as [|[s cf y o] k]; cbn [above] in *; [apply runs_ret; split_and!; [done|done|by left]|].
    change (plug (F s cf y o :: k) (T c a x b)) with (plug k (node s cf (T c a x b) y o)) in Hk.
    destruct s; cbn [node] in Hk; destruct (node_facts k cf _ y _ Hk) as (Hcy & _ & _ & _ & _ & Hly & Hvy & Hy0);
      rewrite (proj2 (Z.eqb_neq y 0)) by done; rewrite (get_child_at R _ _ y _ Left w0_own Hcy); cbn [obind child_of rb_left ptr].
    + rewrite Z.eqb_refl, Hvy. cbn [obind].
      assert (Hyl : y ∈ l) by (rewrite Hly; set_solver).
      assert (Hpe := prev_end_gap_spec y Hyl). unfold prev_end_gap in Hpe.
      assert (Hpy : vm_prev (area vs y) <> 0).
      { destruct (wf_list _ _ _ _ wf _ y _ Hly) as (_ & -> & _). cbn [elems]. rewrite app_assoc, end_right_app.
        destruct (mm_wf_nodup _ _ _ _ wf) as [_ H0]. intros Hz. apply H0. rewrite Hly, <- Hz. apply elem_of_app. left. cbn [elems].
        apply elem_of_app. right. apply elem_of_app. right. by apply end_in. }
      rewrite (proj2 (Z.eqb_neq _ 0) Hpy) in Hpe. cbn [negb] in Hpe.
      destruct (vma_at vs (vm_prev (area vs y))) as [pv| | |] eqn:Hpv; try done. cbn [obind] in Hpe |- *. injection Hpe as ->.
      destruct (IH k cf _ y _ Hk) as (_ & IHcy & _). cbn [after]. apply IHcy. cbn [lefts Datatypes.length] in Hfuel. lia.
    + rewrite (proj2 (Z.eqb_neq x (ptr o))).
      2:{ eapply (own_ptr_ne R _ _ x (mk_node (pack y c) (ptr b) (ptr a)) o y w0_own). rewrite <- Hk, cells_plug. cbn [cells ptr]. solve_submseteq. }
      destruct (IH k cf _ y _ Hk) as (_ & _ & IHby). cbn [after]. apply IHby. cbn [lefts Datatypes.length] in Hfuel. lia.
Qed.

(** ** Top down *)
Definition topdown_ends (A : list Z) (r : search_end) : Prop :=
  (forall gs ge, r = Found gs ge -> exists x, x ∈ l /\ suitable vs length low high x /\ gs = gap_start vs x /\ ge = gap_end vs x)
  /\ (guarded vs l -> match last (filter (suitable vs length low high) A) with
                      | Some x => r = Found (gap_start vs x) (gap_end vs x)
                      | None => r = Nomem
                      end).

Lemma topdown_ends_skip A B r : (guarded vs l -> forall z, z ∈ B -> ~ suitable vs length low high z) -> topdown_ends A r -> topdown_ends (A ++ B) r.
Proof.
  intros HB (H1 & H2). split; [done|]. intros Hg. rewrite filter_app, (filter_none _ B), app_nil_r by by apply HB. by apply H2.
Qed.

Fixpoint rights (k : list frame) : nat :=
  match k with [] => 0 | F Right _ _ o :: k => Datatypes.length (elems o) + rights k | F Left _ _ _ :: k => rights k end.

Lemma topdown_loop_spec fuel : forall k c a x b, plug k (T c a x b) = w0 ->
  ((4 * (Datatypes.length (elems (T c a x b)) + rights k) + 2 * Datatypes.length k < fuel)%nat ->
     runs (unmapped_area_topdown_loop stack_guard_gap mm fuel length low high (Visit x)) (topdown_ends (before k ++ elems (T c a x b))))
  /\ ((4 * (Datatypes.length (elems a) + rights k) + 2 * Datatypes.length k + 3 < fuel)%nat ->
     runs (unmapped_area_topdown_loop stack_guard_gap mm fuel length low high (Current x (gap_start vs x) (gap_end vs x)))
       (topdown_ends ((before k ++ elems a) ++ [x])))
  /\ ((4 * rights k + 2 * Datatypes.length k + 2 < fuel)%nat ->
     runs (unmapped_area_topdown_loop stack_guard_gap mm fuel length low high (Back x)) (topdown_ends (before k))).
Proof.
  induction fuel as [|fuel IH]; intros k c a x b Hk; [split_and!; lia|].
  destruct (node_facts k c a x b Hk) as (Hc & Hsa & Hsb & Hfa & Hfb & Hl & Hvx & Hx0).
  assert (Hxl : x ∈ l) by (rewrite Hl; set_solver).
  pose proof (IH k c a x b Hk) as (_ & IHc & IHb).
  destruct (promising_spec a x _ length w0_own Hsa Hfa) as (ba & Hba & Hna); [intros z Hz; rewrite Hl; set_solver|].
  destruct (promising_spec b x _ length w0_own Hsb Hfb) as (bb & Hbb & Hnb); [intros z Hz; rewrite Hl; set_solver|].
  split_and!; intros Hfuel; cbn [unmapped_area_topdown_loop].
  - rewrite Hvx. cbn [obind]. rewrite prev_end_gap_spec by done. cbn [obind].
    rewrite (get_child_at R _ _ x _ Right w0_own Hc). cbn [obind child_of rb_right]. fold (gap_end vs x).
    assert (Hgo : exists go : bool, (if gap_start vs x <=? high then promising mm (ptr b) length else Ret false) = Ret go
      /\ (go = true -> b <> E) /\ (go = false -> forall z, z ∈ elems b -> ~ suitable vs length low high z)).
    { destruct (Z.leb_spec (gap_start vs x) high) as [Hh|Hh].
      - exists bb. split_and!; [done| |intros Hf z Hz; by apply (Hnb Hf)]. intros -> ->. unfold promising in Hbb. cbn in Hbb. done.
      - exists false. split_and!; [done|done|]. intros _ z Hz (_ & Hhz & _). destruct (gap_start_mono _ x _ Hl) as [Hmono _].
        assert (gap_start vs x <= gap_start vs z) by (apply Hmono; set_solver). lia. }
    destruct Hgo as (go & -> & Hgt & Hgf). cbn [obind]. cbn [elems] in Hfuel |- *. rewrite length_app in Hfuel. simpl in Hfuel.
    replace (before k ++ elems a ++ x :: elems b) with (((before k ++ elems a) ++ [x]) ++ elems b) by by rewrite <- !app_assoc.
    destruct go.
    + destruct b as [|cb b1 y b2]; [by specialize (Hgt eq_refl)|]. cbn [ptr].
      destruct (IH (F Right c x a :: k) cb b1 y b2 Hk) as (IHv & _ & _). cbn [before rights Datatypes.length] in IHv.
      eapply runs_mono; [apply IHv; lia|]. intros r Hr. by rewrite <- (app_assoc (before k)).
    + eapply runs_mono; [apply IHc; lia|]. intros r Hr. by apply topdown_ends_skip; [intros _; apply Hgf|].
  - destruct (Z.ltb_spec (gap_end vs x) low) as [Hlow|Hlow].
    { apply runs_ret. split; [done|]. intros Hm. rewrite filter_none; [done|]. intros z Hz (Hlz & _).
      apply elem_of_app in Hz as [Hz|Hz]; [|apply list_elem_of_singleton in Hz as ->; lia].
      unfold guarded in Hm. rewrite Hl in Hm. apply StronglySorted_app in Hm as (HAB & _). specialize (HAB z x Hz (list_elem_of_here _ _)). simpl in HAB. lia. }
    destruct (decide (suitable vs length low high x)) as [Hsuit|Hsuit].
    { assert (Hb : (gap_start vs x <=? high) && (gap_start vs x <? gap_end vs x) && (length <=? gap_end vs x - gap_start vs x) = true).
      { destruct Hsuit as (? & ? & ? & ?). rewrite !andb_true_iff, !Z.leb_le, Z.ltb_lt. lia. }
      rewrite Hb. apply runs_ret. split; [|intros _; rewrite filter_app, (filter_cons _ x []), decide_True, filter_nil, last_snoc by done; done].
      intros gs ge [= <- <-]. by exists x. }
    assert (Hb : (gap_start vs x <=? high) && (gap_start vs x <? gap_end vs x) && (length <=? gap_end vs x - gap_start vs x) = false).
    { apply not_true_iff_false. rewrite !andb_true_iff, !Z.leb_le, Z.ltb_lt. intros [[? ?] ?]. apply Hsuit. unfold suitable. lia. }
    rewrite Hb, (get_child_at R _ _ x _ Left w0_own Hc). cbn [obind child_of rb_left]. rewrite Hba. cbn [obind].
    apply (runs_mono _ (topdown_ends (before k ++ elems a))).
    2:{ intros r Hr. apply topdown_ends_skip; [|done]. intros _ z Hz. by apply list_elem_of_singleton in Hz as ->. }
    destruct ba.
    + destruct a as [|ca a1 y a2]; [unfold promising in Hba; cbn in Hba; done|]. cbn [ptr].
      destruct (IH (F Left c x b :: k) ca a1 y a2 Hk) as (IHv & _ & _). cbn [before rights Datatypes.length] in IHv. apply IHv. lia.
    + eapply runs_mono; [apply IHb; lia|]. intros r Hr. apply topdown_ends_skip; [|done]. intros _ z Hz. by apply Hna.
  - assert (Hlk : link (above k)) by (eapply (up_link R); [exact w0_own|]; rewrite <- Hk, cells_plug; solve_submseteq).
    rewrite (rb_parent_at R _ _ x _ _ _ _ w0_own Hc Hlk). cbn [obind].
    destruct k as [|[s cf y o] k]; cbn [above] in *; [apply runs_ret; by split|].
    change (plug (F s cf y o :: k) (T c a x b)) with (plug k (node s cf (T c a x b) y o)) in Hk.
    destruct s; cbn [node] in Hk; destruct (node_facts k cf _ y _ Hk) as (Hcy & _ & _ & _ & _ & Hly & Hvy & Hy0);
      rewrite (proj2 (Z.eqb_neq y 0)) by done; rewrite (get_child_at R _ _ y _ Right w0_own Hcy); cbn [obind child_of rb_right ptr].
    + rewrite (proj2 (Z.eqb_neq x (ptr o))).
      2:{ eapply (own_ptr_ne R _ _ x (mk_node (pack y c) (ptr b) (ptr a)) o y w0_own). rewrite <- Hk, cells_plug. cbn [cells ptr]. solve_submseteq. }
      destruct (IH k cf _ y _ Hk) as (_ & _ & IHby). cbn [before]. apply IHby. cbn [rights Datatypes.length] in Hfuel. lia.
    + rewrite Z.eqb_refl, Hvy. cbn [obind]. rewrite prev_end_gap_spec by (rewrite Hly; set_solver). cbn [obind]. fold (gap_end vs y).
      destruct (IH k cf _ y _ Hk) as (_ & IHcy & _). cbn [before]. rewrite app_assoc. apply IHcy. cbn [rights Datatypes.length] in Hfuel. lia.
Qed.
End Search.
End Unmapped.
