(* ===== verification/AddressPlace.v ===== *)
(** * The address found for a range *)
From Stdlib Require Import ZArith Lia Bool Sorted.
From stdpp Require Import base numbers list sorting gmap.
From S2P Require Import Prelude RBTree RBTreeShape RBTreeRep RBTreeAugment RBTreeInsert RBTreeErase RBTreeRemove RBTreeCallbacks RBTreeWalk RBTreeProps RBTreeSearch VmArea IntervalTree IntervalTreeSpec AddressSpace AddressSearch AddressGaps AddressLink AddressUnmap AddressUnmapped.

(** ** Alignment *)
Lemma land_mask y n m : 0 <= m <= n -> y mod 2 ^ m = 0 -> Z.land y (2 ^ n - 2 ^ m) = y mod 2 ^ n.
Proof.
  intros Hm Hy. assert (0 < 2 ^ m) by (apply Z.pow_pos_nonneg; lia).
  assert (Hy' : y = Z.shiftl (y / 2 ^ m) m) by (rewrite Z.shiftl_mul_pow2 by lia; pose proof (Z.div_mod y (2 ^ m)); lia).
  assert (Hn : 2 ^ n = 2 ^ (n - m) * 2 ^ m) by (rewrite <- Z.pow_add_r by lia; f_equal; lia).
  assert (Hmask : 2 ^ n - 2 ^ m = Z.shiftl (Z.ones (n - m)) m).
  { rewrite Z.shiftl_mul_pow2, Z.ones_equiv by lia. lia. }
  rewrite Hmask. rewrite Hy' at 1. rewrite <- Z.shiftl_land, Z.land_ones, Z.shiftl_mul_pow2 by lia.
  rewrite Hn, Z.mul_comm, <- Z.mul_mod_distr_l by lia. f_equal; [|lia]. rewrite Hy' at 2. rewrite Z.shiftl_mul_pow2 by lia. lia.
Qed.

Lemma mod_mod_pow y i j : 0 <= i <= j -> (y mod 2 ^ j) mod 2 ^ i = y mod 2 ^ i.
Proof.
  intros Hij. assert (0 < 2 ^ i) by (apply Z.pow_pos_nonneg; lia).
  replace (2 ^ j) with (2 ^ i * 2 ^ (j - i)) by (rewrite <- Z.pow_add_r by lia; f_equal; lia).
  assert (0 < 2 ^ (j - i)) by (apply Z.pow_pos_nonneg; lia).
  rewrite Z.rem_mul_r by lia. rewrite Z.mul_comm, Z.mod_add, Z.mod_mod by lia. done.
Qed.

(** What is masked out of a difference brings it to a multiple of [2 ^ n]. *)
Lemma align_rest y n m : 0 <= m <= n -> n <= 32 -> y mod 2 ^ m = 0 ->
  0 <= Z.land (u32 y) (2 ^ n - 2 ^ m) <= 2 ^ n - 2 ^ m /\ (Z.land (u32 y) (2 ^ n - 2 ^ m) - y) mod 2 ^ n = 0.
Proof.
  intros Hm Hn Hy. assert (0 < 2 ^ m) by (apply Z.pow_pos_nonneg; lia). assert (0 < 2 ^ n) by (apply Z.pow_pos_nonneg; lia).
  unfold wrap. rewrite land_mask by (rewrite ?mod_mod_pow; lia). rewrite mod_mod_pow by lia.
  pose proof (Z.mod_pos_bound y (2 ^ n)). split.
  - split; [lia|]. assert (Hr : (y mod 2 ^ n) mod 2 ^ m = 0) by (rewrite mod_mod_pow by lia; done).
    apply Z.mod_divide in Hr as [q Hq]; [|lia]. assert (Hd : 2 ^ n = 2 ^ (n - m) * 2 ^ m) by (rewrite <- Z.pow_add_r by lia; f_equal; lia).
    assert (q < 2 ^ (n - m)) by (apply (Z.mul_lt_mono_pos_r (2 ^ m)); lia). nia.
  - rewrite Zminus_mod, Z.mod_mod, Z.sub_diag by lia. apply Z.mod_0_l. lia.
Qed.

(** The first and the last of the members with a property *)
Lemma head_filter {A} (P : A -> Prop) `{!forall x, Decision (P x)} l :
  match head (filter P l) with
  | Some y => exists B C, l = B ++ y :: C /\ P y /\ forall z, z ∈ B -> ~ P z
  | None => forall z, z ∈ l -> ~ P z
  end.
Proof.
  induction l as [|x l IH]; [intros z Hz; by apply elem_of_nil in Hz|]. rewrite filter_cons. destruct (decide (P x)) as [Hx|Hx].
  - exists [], l. split_and!; [done|done|]. intros z Hz. by apply elem_of_nil in Hz.
  - destruct (head (filter P l)) as [y|].
    + destruct IH as (B & C & -> & Hy & HB). exists (x :: B), C. split_and!; [done|done|]. intros z [->|Hz]%elem_of_cons; auto.
    + intros z [->|Hz]%elem_of_cons; auto.
Qed.

Lemma last_filter {A} (P : A -> Prop) `{!forall x, Decision (P x)} l :
  match last (filter P l) with
  | Some y => exists B C, l = B ++ y :: C /\ P y /\ forall z, z ∈ C -> ~ P z
  | None => forall z, z ∈ l -> ~ P z
  end.
Proof.
  induction l as [|x l IH] using rev_ind; [intros z Hz; by apply elem_of_nil in Hz|].
  rewrite filter_app, filter_cons, filter_nil. destruct (decide (P x)) as [Hx|Hx].
  - rewrite last_snoc. exists l, []. split_and!; [done|done|]. intros z Hz. by apply elem_of_nil in Hz.
  - rewrite app_nil_r. destruct (last (filter P l)) as [y|].
    + destruct IH as (B & C & -> & Hy & HC). exists B, (C ++ [x]). rewrite <- app_assoc. split_and!; [done|done|].
      intros z [Hz|Hz%list_elem_of_singleton]%elem_of_app; [auto|by subst].
    + intros z [Hz|Hz%list_elem_of_singleton]%elem_of_app; [auto|by subst].
Qed.

Section Place.
Variable stack_guard_gap : Z.
Abbreviation mm_wf := (mm_wf stack_guard_gap).
Abbreviation gap_end := (gap_end stack_guard_gap).
Abbreviation guarded := (guarded stack_guard_gap).
Abbreviation suitable := (suitable stack_guard_gap).

(** ** What is asked for, and what is free *)

(** A search for [length] bytes between the limits, at [align_offset] modulo [2 ^ n], all
    in units of [2 ^ m] bytes. *)
Record request (n m : Z) (info : vm_unmapped_area_info) : Prop := {
  rq_units : 0 <= m <= n /\ n <= 32;
  rq_mask : align_mask info = 2 ^ n - 2 ^ m;
  rq_length : 0 < info_length info < 2 ^ 32 /\ info_length info mod 2 ^ m = 0;
  rq_low : 0 <= low_limit info < 2 ^ 32 /\ low_limit info mod 2 ^ m = 0;
  rq_high : 0 <= high_limit info < 2 ^ 32 /\ high_limit info mod 2 ^ m = 0;
  rq_offset : 0 <= align_offset info < 2 ^ 32 /\ align_offset info mod 2 ^ m = 0
}.

(** Areas begin and end at multiples of the unit, and so do the guard gaps. *)
Definition in_units (m : Z) (vs : gmap Z vm_area_struct) (l : list Z) : Prop :=
  forall x, x ∈ l -> vm_end (area vs x) mod 2 ^ m = 0 /\ gap_end vs x mod 2 ^ m = 0.

(** No area meets the range; no area or guard gap does. *)
Definition unused (vs : gmap Z vm_area_struct) (l : list Z) (a len : Z) : Prop :=
  forall x, x ∈ l -> vm_end (area vs x) <= a \/ a + len <= vm_start (area vs x).
Definition clear (vs : gmap Z vm_area_struct) (l : list Z) (a len : Z) : Prop :=
  forall x, x ∈ l -> vm_end (area vs x) <= a \/ a + len <= gap_end vs x.

(** A place where the bytes fit however they are aligned. *)
Definition roomy (vs : gmap Z vm_area_struct) (l : list Z) (info : vm_unmapped_area_info) (b : Z) : Prop :=
  let len := info_length info + align_mask info in
  low_limit info <= b /\ b + len <= high_limit info /\ clear vs l b len.

Definition placed (vs : gmap Z vm_area_struct) (l : list Z) (n : Z) (info : vm_unmapped_area_info) (a : Z) : Prop :=
  low_limit info <= a /\ a + info_length info <= high_limit info /\ (a - align_offset info) mod 2 ^ n = 0
  /\ unused vs l a (info_length info) /\ (guarded vs l -> clear vs l a (info_length info)).

(** A free range of the right size and alignment, next to the best place there is; an
    error, when there is no place. *)
Definition lowest (vs : gmap Z vm_area_struct) (l : list Z) (n : Z) (info : vm_unmapped_area_info) (a : Z) : Prop :=
  (placed vs l n info a /\ (guarded vs l -> forall b, roomy vs l info b -> a <= b + align_mask info))
  \/ (a = nomem /\ (guarded vs l -> forall b, ~ roomy vs l info b)).
Definition highest (vs : gmap Z vm_area_struct) (l : list Z) (n : Z) (info : vm_unmapped_area_info) (a : Z) : Prop :=
  (placed vs l n info a /\ (guarded vs l -> forall b, roomy vs l info b -> b <= a))
  \/ (a = nomem /\ (guarded vs l -> forall b, ~ roomy vs l info b)).

Section Found.
Context (R : nodes) (l : list Z) (mm : mm_struct).
Hypothesis guard_range : 0 <= stack_guard_gap < 2 ^ 32.
Hypothesis wf : mm_wf R l mm.
Abbreviation vs := (vmas mm).

Lemma end_above A B z : l = A ++ B -> z ∈ A -> vm_end (area vs z) <= from_option (fun y => vm_end (area vs y)) 0 (last A).
Proof.
  intros Hl Hz. destruct A as [|y A _] using rev_ind; [by apply elem_of_nil in Hz|]. rewrite last_snoc. cbn [from_option].
  apply elem_of_app in Hz as [Hz|Hz]; [|by apply list_elem_of_singleton in Hz as ->].
  destruct (wf_areas _ _ _ _ wf y) as [? _]; [rewrite Hl; set_solver|].
  pose proof (wf_apart _ _ _ _ wf) as Hap. unfold apart in Hap. rewrite Hl, <- app_assoc in Hap.
  apply StronglySorted_app in Hap as (HAB & _). specialize (HAB z y Hz (list_elem_of_here _ _)). simpl in HAB. lia.
Qed.

Lemma gap_end_le x : x ∈ l -> 0 <= gap_end vs x <= vm_start (area vs x).
Proof. intros Hx. destruct (wf_areas _ _ _ _ wf x Hx) as [? [? _]]. apply vm_start_gap_bounds; [lia|done]. Qed.

(** A range between the start and the end of a gap is not used. *)
Lemma in_gap_unused x a len : x ∈ l -> gap_start vs x <= a -> a + len <= gap_end vs x ->
  unused vs l a len /\ (guarded vs l -> clear vs l a len).
Proof.
  intros Hx Ha Hlen. pose proof (gap_end_le x Hx) as Hst. apply list_elem_of_split in Hx as (A & B & Hl).
  pose proof (wf_apart _ _ _ _ wf) as Hap. unfold apart in Hap. rewrite Hl in Hap. apply StronglySorted_app in Hap as (_ & _ & HxB).
  inversion_clear HxB as [|? ? _ HB]. rewrite Forall_forall in HB.
  assert (HA : forall z, z ∈ A -> vm_end (area vs z) <= a).
  { intros z Hz. etrans; [by apply (end_above A (x :: B))|]. by rewrite <- (gap_start_at _ _ _ _ wf A x B Hl). }
  assert (Hxe : vm_start (area vs x) < vm_end (area vs x)) by (apply (wf_areas _ _ _ _ wf x); rewrite Hl; set_solver).
  split.
  - intros z Hz. rewrite Hl in Hz. apply elem_of_app in Hz as [Hz|[->|Hz]%elem_of_cons]; [by left; apply HA|right; lia|].
    right. specialize (HB z Hz). simpl in HB. lia.
  - intros Hg z Hz. rewrite Hl in Hz. apply elem_of_app in Hz as [Hz|[->|Hz]%elem_of_cons]; [by left; apply HA|by right|].
    right. unfold AddressUnmapped.guarded in Hg. rewrite Hl in Hg. apply StronglySorted_app in Hg as (_ & _ & Hg). inversion_clear Hg as [|? ? _ HF].
    rewrite Forall_forall in HF. specialize (HF z Hz). simpl in HF. lia.
Qed.

Lemma beyond_unused a len : highest_vm_end mm <= a -> unused vs l a len /\ clear vs l a len.
Proof.
  intros Ha. rewrite (wf_highest _ _ _ _ wf) in Ha.
  split; intros x Hx; left; (etrans; [apply (end_above l []); [by rewrite app_nil_r|exact Hx]|exact Ha]).
Qed.

(** A range that is free is in a gap, or beyond the last area. *)
Lemma clear_gap b len : 0 <= b -> clear vs l b len ->
  (exists x, x ∈ l /\ gap_start vs x <= b /\ b + len <= gap_end vs x) \/ highest_vm_end mm <= b.
Proof.
  intros Hb Hc.
  assert (Hend : forall A, (forall z, z ∈ A -> vm_end (area vs z) <= b) -> from_option (fun y => vm_end (area vs y)) 0 (last A) <= b).
  { intros A HA. destruct (last A) as [y|] eqn:Hy; [|done]. apply HA. by apply last_Some_elem_of. }
  destruct (list_find (fun x => ~ vm_end (area vs x) <= b) l) as [[i x]|] eqn:Hf.
  - left. apply list_find_Some in Hf as (Hi & Hx & HA). exists x. apply list_elem_of_lookup_2 in Hi as Hxl.
    split_and!; [done| |destruct (Hc x Hxl); [contradiction|done]].
    rewrite (gap_start_at _ _ _ _ wf _ x _ (eq_sym (take_drop_middle _ _ _ Hi))). apply Hend.
    intros z (j & Hj)%list_elem_of_lookup. apply lookup_take_Some in Hj as [Hj Hlt]. apply dec_stable, (HA j z Hj Hlt).
  - right. rewrite (wf_highest _ _ _ _ wf). apply Hend. apply list_find_None in Hf. rewrite Forall_forall in Hf. intros z Hz. apply dec_stable, (Hf z Hz).
Qed.

Context (n m : Z) (info : vm_unmapped_area_info).
Hypothesis rq : request n m info.
Hypothesis units : in_units m vs l.
Abbreviation len := (info_length info + align_mask info).
Abbreviation low := (low_limit info + len).
Abbreviation high := (high_limit info - len).

Lemma roomy_suitable b : roomy vs l info b ->
  (exists x, x ∈ l /\ suitable vs len low high x /\ gap_start vs x <= b /\ b + len <= gap_end vs x) \/ highest_vm_end mm <= b <= high.
Proof.
  intros (Hlo & Hhi & Hc). destruct (rq_length _ _ _ rq) as [? _]. destruct (rq_low _ _ _ rq) as [? _].
  assert (0 <= align_mask info). { rewrite (rq_mask _ _ _ rq). pose proof (Z.pow_le_mono_r 2 m n ltac:(lia)). destruct (rq_units _ _ _ rq). lia. }
  destruct (clear_gap b len) as [(x & Hx & Hgs & Hge)|Hh]; [lia|done| |right; lia].
  left. exists x. split_and!; [done| |done|done]. unfold AddressUnmapped.suitable. lia.
Qed.

Lemma rq_bounds : 0 < info_length info <= len /\ 0 <= align_mask info < 2 ^ 32 /\ 0 <= low_limit info /\ high_limit info < 2 ^ 32.
Proof.
  destruct (rq_length _ _ _ rq) as [? _]. destruct (rq_low _ _ _ rq) as [? _]. destruct (rq_high _ _ _ rq) as [? _].
  rewrite (rq_mask _ _ _ rq). destruct (rq_units _ _ _ rq). pose proof (Z.pow_le_mono_r 2 m n ltac:(lia)).
  pose proof (Z.pow_le_mono_r 2 n 32 ltac:(lia)). assert (0 < 2 ^ m) by (apply Z.pow_pos_nonneg; lia). lia.
Qed.

Lemma last_end_units A B : l = A ++ B -> from_option (fun y => vm_end (area vs y)) 0 (last A) mod 2 ^ m = 0.
Proof.
  intros Hl. destruct (rq_units _ _ _ rq). destruct (last A) as [y|] eqn:Hy; cbn [from_option]; [|apply Z.mod_0_l, Z.pow_nonzero; lia].
  apply units. rewrite Hl. apply elem_of_app. left. by apply last_Some_elem_of.
Qed.

Lemma sub_units a b : a mod 2 ^ m = 0 -> b mod 2 ^ m = 0 -> (a - b) mod 2 ^ m = 0.
Proof. intros Ha Hb. destruct (rq_units _ _ _ rq). rewrite Zminus_mod, Ha, Hb. apply Z.mod_0_l, Z.pow_nonzero; lia. Qed.

(** The address in a gap, from below and from above. *)
Lemma found_up gs : gs mod 2 ^ m = 0 -> 0 <= gs <= high -> low_limit info <= high ->
  exists a, unmapped_area_found info gs = a /\ Z.max gs (low_limit info) <= a <= Z.max gs (low_limit info) + align_mask info
    /\ (a - align_offset info) mod 2 ^ n = 0.
Proof.
  intros Hgs Hh Hl. destruct rq_bounds as (? & ? & ? & ?). destruct (rq_units _ _ _ rq) as [Hm Hn]. unfold unmapped_area_found.
  set (g := if gs <? low_limit info then low_limit info else gs).
  assert (Hg : g = Z.max gs (low_limit info)) by (unfold g; destruct (Z.ltb_spec gs (low_limit info)); lia).
  assert (Hgm : g mod 2 ^ m = 0) by (unfold g; destruct (_ <? _); [apply (rq_low _ _ _ rq)|done]). cbv zeta.
  destruct (align_rest (align_offset info - g) n m Hm Hn) as [Hr Ha]; [apply sub_units; [apply (rq_offset _ _ _ rq)|done]|].
  rewrite (rq_mask _ _ _ rq) in *. set (r := Z.land _ _) in *. exists (g + r). split_and!; [|lia|lia|].
  - unfold wrap. apply Z.mod_small. lia.
  - rewrite <- Ha. f_equal. lia.
Qed.

Lemma found_down ge : ge mod 2 ^ m = 0 -> low <= ge <= high_limit info ->
  exists a, topdown_found_highest info ge = a /\ ge - len <= a <= ge - info_length info /\ (a - align_offset info) mod 2 ^ n = 0.
Proof.
  intros Hge Hh. destruct rq_bounds as (? & ? & ? & ?). destruct (rq_units _ _ _ rq) as [Hm Hn]. unfold topdown_found_highest.
  assert (Hu : u32 (ge - info_length info) = ge - info_length info) by (unfold wrap; apply Z.mod_small; lia). rewrite Hu.
  set (g := ge - info_length info) in *. cbv zeta.
  assert (Hgm : g mod 2 ^ m = 0) by (apply sub_units; [done|apply (rq_length _ _ _ rq)]).
  destruct (align_rest (g - align_offset info) n m Hm Hn) as [Hr Ha]; [apply sub_units; [done|apply (rq_offset _ _ _ rq)]|].
  rewrite (rq_mask _ _ _ rq) in *. set (r := Z.land _ _) in *. exists (g - r). split_and!; [|lia|lia|].
  - unfold wrap. apply Z.mod_small. lia.
  - apply Z.mod_divide in Ha as [q Hq]; [|apply Z.pow_nonzero; lia]. apply Z.mod_divide; [apply Z.pow_nonzero; lia|].
    exists (- q). lia.
Qed.

(** The limits as the code computes them; without room for the longer length there is
    no place. *)
Lemma limits_spec {B} (no : B) (k : Z -> Z -> Z -> B) (P : B -> Prop) :
  ((forall b, ~ roomy vs l info b) -> P no) -> (low_limit info <= high -> u32 len = len -> u32 low = low -> P (k len high low)) ->
  P (let length := u32 len in
     if length <? info_length info then no
     else if high_limit info <? length then no
     else let high := high_limit info - length in
          if high <? low_limit info then no else k length high (u32 (low_limit info + length))).
Proof.
  intros Hno Hk. destruct rq_bounds as (? & ? & ? & ?). cbv zeta. destruct (rq_length _ _ _ rq) as [? _].
  destruct (Z.lt_ge_cases len (2 ^ 32)) as [Hs|Hs].
  - assert (Hu : u32 len = len) by (unfold wrap; apply Z.mod_small; lia). rewrite Hu.
    destruct (Z.ltb_spec len (info_length info)); [lia|].
    destruct (Z.ltb_spec (high_limit info) len); [apply Hno; intros b (? & ? & _); lia|].
    destruct (Z.ltb_spec high (low_limit info)); [apply Hno; intros b (? & ? & _); lia|].
    assert (Hw : u32 low = low) by (unfold wrap; apply Z.mod_small; lia). rewrite Hw. apply Hk; done || lia.
  - assert (Hu : u32 len = len - 2 ^ 32) by (unfold wrap; rewrite <- (Z.mod_add _ (-1)), Z.mod_small by lia; lia).
    rewrite Hu. destruct (Z.ltb_spec (len - 2 ^ 32) (info_length info)); [|lia]. apply Hno. intros b (? & ? & _). lia.
Qed.

(** ** The searches *)

(** The root is looked at first: an empty tree, or one without a gap of the length, has
    no suitable gap. *)
Lemma root_spec {B} (no k : outcome B) (P : outcome B -> Prop) :
  ((forall x, x ∈ l -> ~ suitable vs len low high x) -> P no) ->
  (forall c a x b, let w := T c a x b in rb_root (mm_rb mm) = x -> own R (cells w 0) (rb_nodes (mm_rb mm)) -> elems w = l ->
     (4 * length (elems w) < S (4 * size (rb_nodes (mm_rb mm))))%nat ->
     fitting (Augment0 := declared_augment _ _ (readable vs) (gap_computes stack_guard_gap vs) (last_rotates (own_gap stack_guard_gap vs))) (rb_data (mm_rb mm)) w -> P k) ->
  P (if rb_root (mm_rb mm) =? 0 then no
     else let* g := field (rb_data (mm_rb mm)) (rb_root (mm_rb mm)) in if g <? len then no else k).
Proof.
  intros Hno Hk. destruct (wf_tree _ _ _ _ wf) as (w & Ho & Hroot & _ & He).
  assert (Hf : fitting (Augment0 := declared_augment _ _ (readable vs) (gap_computes stack_guard_gap vs) (last_rotates (own_gap stack_guard_gap vs))) (rb_data (mm_rb mm)) w).
  { apply (fitting_values _ _ _ (gap_computes _ _) (last_rotates _) R _ _ _ _ 0 Ho ltac:(reflexivity)). rewrite He.
    split; [|apply (wf_gaps _ _ _ _ wf)]. intros z Hz. apply (listed_readable _ l); [apply wf|done]. }
  pose proof (own_size _ _ _ Ho) as Hsz. rewrite <- (length_fmap fst), cells_keys in Hsz.
  rewrite Hroot. destruct w as [|c a x b]; [apply Hno; rewrite <- He; intros x Hx; by apply elem_of_nil in Hx|].
  rewrite (proj2 (Z.eqb_neq (ptr (T c a x b)) 0)) by by eapply own_ptr_neq0.
  destruct (tree_last _ _ _ _ _ _ (T c a x b) Hf ltac:(done)) as (g & Hg & Hall & _).
  destruct (value_field _ _ _ Hg) as [-> _]. cbn [obind]. destruct (Z.ltb_spec g len) as [Hlt|Hlt].
  - apply Hno. intros z Hz (_ & _ & ? & ?). rewrite He in Hall. specialize (Hall z Hz).
    rewrite (own_gap_eq _ _ _ _ guard_range wf z Hz) in Hall. lia.
  - apply (Hk c a x b); [done|done|done|lia|done].
Qed.

Lemma gap_units x : x ∈ l -> gap_start vs x mod 2 ^ m = 0 /\ 0 <= gap_start vs x.
Proof.
  intros (A & B & Hl)%list_elem_of_split. rewrite (gap_start_at _ _ _ _ wf A x B Hl). split; [by eapply last_end_units|].
  destruct (last A) as [y|] eqn:Hy; cbn [from_option]; [|lia].
  destruct (wf_areas _ _ _ _ wf y) as [? _]; [rewrite Hl; apply elem_of_app; left; by apply last_Some_elem_of|lia].
Qed.

Lemma highest_units : highest_vm_end mm mod 2 ^ m = 0 /\ 0 <= highest_vm_end mm.
Proof.
  rewrite (wf_highest _ _ _ _ wf). split; [apply (last_end_units l []); by rewrite app_nil_r|].
  destruct (last l) as [y|] eqn:Hy; cbn [from_option]; [|lia].
  destruct (wf_areas _ _ _ _ wf y) as [? _]; [by apply last_Some_elem_of|lia].
Qed.

(** Beyond the last area, when no gap is suitable. *)
Lemma highest_up : low_limit info <= high -> (guarded vs l -> forall x, x ∈ l -> ~ suitable vs len low high x) ->
  lowest vs l n info (unmapped_area_highest mm info high).
Proof.
  intros Hlim Hns. unfold unmapped_area_highest. destruct highest_units as [Hu H0]. destruct rq_bounds as (? & ? & ? & ?).
  assert (Hbest : guarded vs l -> forall b, roomy vs l info b -> highest_vm_end mm <= b <= high).
  { intros Hg b Hb. destruct (roomy_suitable b Hb) as [(x & Hx & Hs & _)|?]; [|done]. by destruct (Hns Hg x Hx). }
  destruct (Z.ltb_spec high (highest_vm_end mm)) as [Hh|Hh].
  - right. split; [done|]. intros Hg b Hb. specialize (Hbest Hg b Hb). lia.
  - left. destruct (found_up (highest_vm_end mm) Hu) as (a & -> & Ha & Hal); [lia|done|].
    destruct (beyond_unused a (info_length info)) as [Hun Hcl]; [lia|].
    split; [split_and!; [lia|lia|done|done|done]|]. intros Hg b Hb. specialize (Hbest Hg b Hb). destruct Hb as (? & _). lia.
Qed.

Lemma found_lowest x : low_limit info <= high -> x ∈ l -> suitable vs len low high x ->
  (guarded vs l -> forall b, roomy vs l info b -> gap_start vs x <= b) ->
  lowest vs l n info (unmapped_area_found info (gap_start vs x)).
Proof.
  intros Hlim Hx (Hlo & Hhi & _ & Hlen) Hbest. destruct (gap_units x Hx) as [Hu H0]. destruct rq_bounds as (? & ? & ? & ?). left.
  destruct (found_up (gap_start vs x) Hu) as (a & -> & Ha & Hal); [lia|done|].
  destruct (in_gap_unused x a (info_length info) Hx) as [Hun Hcl]; [lia|lia|].
  split; [split_and!; [lia|lia|done|done|done]|]. intros Hg b Hb. specialize (Hbest Hg b Hb). destruct Hb as (? & _). lia.
Qed.

Lemma unmapped_area_spec : runs (unmapped_area stack_guard_gap mm info) (lowest vs l n info).
Proof.
  unfold unmapped_area.
  apply (limits_spec (Ret nomem) (fun length high low => _)); [intros Hno; apply runs_ret; right; split; [done|by intros _]|].
  intros Hlim Hlen Hlow. cbv zeta. rewrite Hlen, Hlow. apply root_spec; [intros Hns; apply runs_ret, highest_up; [done|by intros _]|].
  intros c a x b w Hroot Ho He Hsz Hf. eapply runs_bind, runs_mono.
  { rewrite Hroot. apply (unmapped_area_loop_spec _ R l mm guard_range wf w len low high Ho He Hf _ [] c a x b eq_refl).
    cbn [Datatypes.length lefts]. fold w. lia. }
  intros r (Hfound & Hnomem & Hfirst). cbn [after] in Hfirst. fold w in Hfirst. rewrite app_nil_r, He in Hfirst.
  pose proof (head_filter (suitable vs len low high) l) as Hhd.
  destruct r as [gs ge| |]; apply runs_ret.
  - destruct (Hfound gs ge eq_refl) as (y & Hy & Hs & -> & ->). apply found_lowest; [done|done|done|].
    intros Hg b' Hb'. specialize (Hfirst Hg). destruct (head _) as [z|]; [|by destruct Hfirst]. injection Hfirst as Hgs _. rewrite Hgs.
    destruct Hhd as (B & C & Hl & _ & HB). destruct (gap_start_mono _ _ _ _ guard_range wf B z C Hl) as [Hmono Htop].
    destruct (roomy_suitable b' Hb') as [(v & Hv & Hsv & Hgv & _)|Hhi]; [|lia].
    rewrite Hl in Hv. apply elem_of_app in Hv as [Hv|[->|Hv]%elem_of_cons]; [by destruct (HB v Hv)|done|]. specialize (Hmono v Hv). lia.
  - apply highest_up; [done|]. intros Hg. specialize (Hfirst Hg). by destruct (head _).
  - right. split; [done|]. intros Hg b' Hb'. specialize (Hfirst Hg). destruct (head _); [done|].
    destruct (roomy_suitable b' Hb') as [(v & Hv & Hsv & _)|Hhi]; [by destruct (Hhd v Hv)|]. specialize (Hnomem eq_refl). lia.
Qed.

(** The end of a gap as it is clipped by the upper limit. *)
Lemma found_highest x : x ∈ l -> suitable vs len low high x -> low_limit info <= high ->
  (guarded vs l -> forall b, roomy vs l info b -> b + len <= gap_end vs x) ->
  highest vs l n info (topdown_found_highest info (if high_limit info <? gap_end vs x then high_limit info else gap_end vs x)).
Proof.
  intros Hx (Hlo & Hhi & _ & Hlen) Hlim Hbest. destruct rq_bounds as (? & ? & ? & ?). left.
  set (ge := if _ <? _ then _ else _). assert (Hge : ge = Z.min (high_limit info) (gap_end vs x)) by (unfold ge; destruct (Z.ltb_spec (high_limit info) (gap_end vs x)); lia).
  destruct (found_down ge) as (a & -> & Ha & Hal).
  { unfold ge. destruct (_ <? _); [apply (rq_high _ _ _ rq)|by apply units]. }
  { lia. }
  destruct (in_gap_unused x a (info_length info) Hx) as [Hun Hcl]; [lia|lia|].
  split; [split_and!; [lia|lia|done|done|done]|]. intros Hg b Hb. specialize (Hbest Hg b Hb). destruct Hb as (? & ? & _). lia.
Qed.

Lemma unmapped_area_topdown_spec : runs (unmapped_area_topdown stack_guard_gap mm info) (highest vs l n info).
Proof.
  destruct rq_bounds as (? & ? & ? & ?). unfold unmapped_area_topdown.
  apply (limits_spec (Ret nomem) (fun length high low => _)); [intros Hno; apply runs_ret; right; split; [done|by intros _]|].
  intros Hlim Hlen Hlow. cbv zeta. rewrite Hlen, Hlow. destruct (Z.leb_spec (highest_vm_end mm) high) as [Hh|Hh].
  { apply runs_ret. left. destruct (found_down (high_limit info)) as (a & -> & Ha & Hal); [apply (rq_high _ _ _ rq)|lia|].
    destruct (beyond_unused a (info_length info)) as [Hun Hcl]; [lia|].
    split; [split_and!; [lia|lia|done|done|done]|]. intros _ b (? & ? & _). lia. }
  apply root_spec.
  { intros Hns. apply runs_ret. right. split; [done|]. intros _ b Hb.
    destruct (roomy_suitable b Hb) as [(v & Hv & Hsv & _)|Hhi]; [by destruct (Hns v Hv)|lia]. }
  intros c a x b w Hroot Ho He Hsz Hf. eapply runs_bind, runs_mono.
  { rewrite Hroot. apply (topdown_loop_spec _ R l mm guard_range wf w len low high Ho He Hf _ [] c a x b eq_refl).
    cbn [Datatypes.length rights]. fold w. lia. }
  intros r (Hfound & Hlast). cbn [before app] in Hlast. fold w in Hlast. rewrite He in Hlast.
  pose proof (last_filter (suitable vs len low high) l) as Hlt.
  assert (Hnone : (forall gs ge, r <> Found gs ge) -> guarded vs l -> forall b', ~ roomy vs l info b').
  { intros Hr Hg b' Hb'. specialize (Hlast Hg). destruct (last _) as [z|]; [by destruct (Hr _ _ Hlast)|].
    destruct (roomy_suitable b' Hb') as [(v & Hv & Hsv & _)|Hhi]; [by destruct (Hlt v Hv)|lia]. }
  destruct r as [gs ge| |]; apply runs_ret; [|right; by split; [|apply Hnone]..].
  destruct (Hfound gs ge eq_refl) as (y & Hy & Hs & -> & ->). apply found_highest; [done|done|done|].
  intros Hg b' Hb'. specialize (Hlast Hg). destruct (last _) as [z|]; [|done]. injection Hlast as _ Hge. rewrite Hge.
  destruct Hlt as (B & C & Hl & _ & HC). destruct (roomy_suitable b' Hb') as [(v & Hv & Hsv & _ & Hgv)|Hhi]; [|lia].
  unfold AddressUnmapped.guarded in Hg. rewrite Hl in Hg, Hv. apply StronglySorted_app in Hg as (HBC & _).
  apply elem_of_app in Hv as [Hv|[->|Hv]%elem_of_cons]; [|done|by destruct (HC v Hv)].
  specialize (HBC v z Hv (list_elem_of_here _ _)). simpl in HBC. lia.
Qed.
End Found.
End Place.
