(* ===== verification/AddressAdjust.v ===== *)
(** * Changing, splitting and merging areas (mm/mmap.c)

    CONFIG_USERFAULTFD, CONFIG_NUMA and CONFIG_MEM_SOFT_DIRTY are not set: contexts and
    policies are equal, and [VM_SOFTDIRTY] is 0. *)
From Stdlib Require Import ZArith Lia Bool.
From stdpp Require Import base numbers list gmap.
From S2P Require Import Prelude RBTree VmArea AddressSpace AddressSearch.

(** An area with a field changed *)
Definition put_vma (mm : mm_struct) (p : Z) (f : vm_area_struct -> vm_area_struct) : outcome mm_struct :=
  let* v := vma_at (vmas mm) p in Ret (set_vmas mm (<[p := f v]> (vmas mm))).

(** [kmem_cache_free(vm_area_cachep, vma)] *)
Definition free_vma (mm : mm_struct) (vma : Z) : mm_struct :=
  let t := mm_rb mm in
  set_mm_rb (set_vmas mm (delete vma (vmas mm))) (mk_rb (delete vma (rb_nodes t)) (rb_root t) (rb_data t)).

Section Adjust.
Variable stack_guard_gap : Z.

Definition __vma_unlink_common (mm : mm_struct) (vma prev : Z) (has_prev : bool) : outcome mm_struct :=
  let* mm := __vma_rb_erase stack_guard_gap mm vma in
  let* v := vma_at (vmas mm) vma in
  let next := vm_next v in
  let* (mm, prev) :=
    if has_prev then let* mm := put_vm_next mm prev next in Ret (mm, prev)
    else
      let prev := vm_prev v in
      if negb (prev =? 0) then let* mm := put_vm_next mm prev next in Ret (mm, prev)
      else Ret (set_mmap mm next, prev) in
  let* mm := if negb (next =? 0) then put_vm_prev mm next prev else Ret mm in
  Ret (vmacache_invalidate mm).

Definition __vma_unlink_prev (mm : mm_struct) (vma prev : Z) : outcome mm_struct := __vma_unlink_common mm vma prev true.

(** ** [__vma_adjust] *)

(** What the first part of it finds: [vma] and [next], which may be swapped, the new
    end, [remove_next], [adjust_next] in pages, [exporter] and [importer] *)
Record adjust_plan := mk_plan {
  pl_vma : Z; pl_next : Z; pl_end : Z; remove_next : Z; adjust_next : Z; exporter : Z; importer : Z
}.

Definition plan_adjust (mm : mm_struct) (vma end_ insert expand : Z) : outcome adjust_plan :=
  let* v := vma_at (vmas mm) vma in
  let next := vm_next v in
  if negb (next =? 0) && (insert =? 0) then
    let* n := vma_at (vmas mm) next in
    if vm_end n <=? end_ then
      if next =? expand then Ret (mk_plan next vma end_ 3 0 vma next)
      else
        let remove_next := 1 + (if vm_end n <? end_ then 1 else 0) in
        let exporter := if (remove_next =? 2) && (anon_vma n =? 0) then vm_next n else next in
        Ret (mk_plan vma next (vm_end n) remove_next 0 exporter vma)
    else if vm_start n <? end_ then Ret (mk_plan vma next end_ 0 (Z.shiftr (end_ - vm_start n) PAGE_SHIFT) next vma)
    else if end_ <? vm_end v then Ret (mk_plan vma next end_ 0 (- Z.shiftr (vm_end v - end_) PAGE_SHIFT) vma next)
    else Ret (mk_plan vma next end_ 0 0 0 0)
  else Ret (mk_plan vma next end_ 0 0 0 0).

(** The expanding area gets the [anon_vma] of the shrinking one.  [clone_err] is what
    [anon_vma_clone] returns; when it succeeds, the empty chain of the importer has
    become a copy of the chain of the exporter, and when it fails the importer has no
    [anon_vma] and no chain. *)
Definition import_anon_vma (clone_err : Z) (mm : mm_struct) (exporter importer : Z) : outcome (mm_struct * Z) :=
  if negb (exporter =? 0) then
    let* e := vma_at (vmas mm) exporter in
    let* i := vma_at (vmas mm) importer in
    if negb (anon_vma e =? 0) && (anon_vma i =? 0) then
      let* mm := put_vma mm importer (fun i => set_anon_vma i (anon_vma e)) in
      if negb (clone_err =? 0) then
        let* mm := put_vma mm importer (fun i => set_chain_singular (set_anon_vma i 0) false) in Ret (mm, clone_err)
      else let* mm := put_vma mm importer (fun i => set_chain_singular i (chain_singular e)) in Ret (mm, 0)
    else Ret (mm, 0)
  else Ret (mm, 0).

(** From [again] on, up to the jump back to it: the address space, and [next] *)
Definition adjust_pass (mm : mm_struct) (vma next start end_ pgoff insert remove_next adjust_next : Z) : outcome (mm_struct * Z) :=
  let* v := vma_at (vmas mm) vma in
  let start_changed := negb (start =? vm_start v) in
  let end_changed := negb (end_ =? vm_end v) in
  let* mm := put_vma mm vma (fun v => set_vm_pgoff (set_vm_end (set_vm_start v start) end_) pgoff) in
  let* mm :=
    if negb (adjust_next =? 0) then
      put_vma mm next (fun n => set_vm_pgoff (set_vm_start n (u32 (vm_start n + Z.shiftl adjust_next PAGE_SHIFT)))
                                  (u32 (vm_pgoff n + adjust_next)))
    else Ret mm in
  if negb (remove_next =? 0) then
    let* mm := if negb (remove_next =? 3) then __vma_unlink_prev mm next vma else __vma_unlink_common mm next 0 false in
    let mm := free_vma (set_map_count mm (s32 (map_count mm - 1))) next in
    if negb (remove_next =? 3) then let* v := vma_at (vmas mm) vma in Ret (mm, vm_next v) else Ret (mm, vma)
  else if negb (insert =? 0) then
    let* mm := __insert_vm_struct stack_guard_gap mm insert in Ret (mm, next)
  else
    let* mm := if start_changed then vma_gap_update stack_guard_gap mm vma else Ret mm in
    let* mm :=
      if end_changed then
        if next =? 0 then
          let* v := vma_at (vmas mm) vma in Ret (set_highest_vm_end mm (vm_end_gap stack_guard_gap v))
        else if adjust_next =? 0 then vma_gap_update stack_guard_gap mm next
        else Ret mm
      else Ret mm in
    Ret (mm, next).

(** After the last pass *)
Definition adjust_next_gap (mm : mm_struct) (remove_next next : Z) : outcome mm_struct :=
  if negb (remove_next =? 0) && negb (next =? 0) then vma_gap_update stack_guard_gap mm next else Ret mm.

Definition __vma_adjust (clone_err : Z) (mm : mm_struct) (vma start end_ pgoff insert expand : Z) : outcome (mm_struct * Z) :=
  let* pl := plan_adjust mm vma end_ insert expand in
  let* (mm, error) := import_anon_vma clone_err mm (exporter pl) (importer pl) in
  if negb (error =? 0) then Ret (mm, error)
  else
    let vma := pl_vma pl in
    let* (mm, next) := adjust_pass mm vma (pl_next pl) start (pl_end pl) pgoff insert (remove_next pl) (adjust_next pl) in
    if remove_next pl =? 2 then
      let* n := vma_at (vmas mm) next in
      let* (mm, next) := adjust_pass mm vma next start (vm_end n) pgoff insert 1 (adjust_next pl) in
      let* mm := adjust_next_gap mm 1 next in Ret (mm, 0)
    else let* mm := adjust_next_gap mm (remove_next pl) next in Ret (mm, 0).

Definition vma_adjust (clone_err : Z) (mm : mm_struct) (vma start end_ pgoff insert : Z) : outcome (mm_struct * Z) :=
  __vma_adjust clone_err mm vma start end_ pgoff insert 0.

(** ** Merging *)
Definition VM_IO : Z := 16384.
Definition VM_DONTEXPAND : Z := 262144.
Definition VM_PFNMAP : Z := 1024.
Definition VM_MIXEDMAP : Z := 268435456.
Definition VM_SPECIAL : Z := Z.lor (Z.lor (Z.lor VM_IO VM_DONTEXPAND) VM_PFNMAP) VM_MIXEDMAP.
Definition VM_SOFTDIRTY : Z := 0.

Definition vma_get_anon_name (v : vm_area_struct) : Z := if negb (vm_file v =? 0) then 0 else anon_name v.
Definition vma_pages (v : vm_area_struct) : Z := Z.shiftr (u32 (vm_end v - vm_start v)) PAGE_SHIFT.

Definition is_mergeable_vma (v : vm_area_struct) (file flags name : Z) : bool :=
  if negb (Z.land (Z.lxor (vm_flags v) flags) (u32 (Z.lnot VM_SOFTDIRTY)) =? 0) then false
  else if negb (vm_file v =? file) then false
  else if vm_close v then false
  else if negb (vma_get_anon_name v =? name) then false
  else true.

(** [singular] is the test of the chain of the last argument, true when it is NULL. *)
Definition is_mergeable_anon_vma (anon_vma1 anon_vma2 : Z) (singular : bool) : bool :=
  if ((anon_vma1 =? 0) || (anon_vma2 =? 0)) && singular then true else anon_vma1 =? anon_vma2.

Definition can_vma_merge_before (v : vm_area_struct) (flags anon file pgoff name : Z) : bool :=
  if is_mergeable_vma v file flags name && is_mergeable_anon_vma anon (anon_vma v) (chain_singular v)
  then vm_pgoff v =? pgoff else false.

Definition can_vma_merge_after (v : vm_area_struct) (flags anon file pgoff name : Z) : bool :=
  if is_mergeable_vma v file flags name && is_mergeable_anon_vma anon (anon_vma v) (chain_singular v)
  then u32 (vm_pgoff v + vma_pages v) =? pgoff else false.

(** A property of an area there may be *)
Definition vma_and (mm : mm_struct) (p : Z) (f : vm_area_struct -> bool) : outcome bool :=
  if negb (p =? 0) then let* v := vma_at (vmas mm) p in Ret (f v) else Ret false.

Definition vma_merge (clone_err : Z) (mm : mm_struct) (prev addr end_ flags anon file pgoff name : Z) : outcome (mm_struct * Z) :=
  let pglen := Z.shiftr (u32 (end_ - addr)) PAGE_SHIFT in
  if negb (Z.land flags VM_SPECIAL =? 0) then Ret (mm, 0)
  else
    let* next := if negb (prev =? 0) then let* p := vma_at (vmas mm) prev in Ret (vm_next p) else Ret (mmap mm) in
    let area := next in
    let* whole := vma_and mm area (fun a => vm_end a =? end_) in
    let* next := if whole : bool then let* a := vma_at (vmas mm) area in Ret (vm_next a) else Ret next in
    let* after := vma_and mm prev (fun p => (vm_end p =? addr) && can_vma_merge_after p flags anon file pgoff name) in
    let* before := vma_and mm next (fun n => (end_ =? vm_start n) && can_vma_merge_before n flags anon file (u32 (pgoff + pglen)) name) in
    if after : bool then
      let* p := vma_at (vmas mm) prev in
      let* both := if before : bool then
          let* n := vma_at (vmas mm) next in Ret (is_mergeable_anon_vma (anon_vma p) (anon_vma n) true)
        else Ret false in
      let* (mm, err) :=
        if both : bool then
          let* n := vma_at (vmas mm) next in
          __vma_adjust clone_err mm prev (vm_start p) (vm_end n) (vm_pgoff p) 0 prev
        else __vma_adjust clone_err mm prev (vm_start p) end_ (vm_pgoff p) 0 prev in
      Ret (mm, if negb (err =? 0) then 0 else prev)
    else if before then
      let* inside := vma_and mm prev (fun p => addr <? vm_end p) in
      let* (mm, err, area) :=
        if inside : bool then
          let* p := vma_at (vmas mm) prev in
          let* (mm, err) := __vma_adjust clone_err mm prev (vm_start p) addr (vm_pgoff p) 0 next in Ret (mm, err, area)
        else
          let* n := vma_at (vmas mm) next in
          let* (mm, err) := __vma_adjust clone_err mm area addr (vm_end n) (u32 (vm_pgoff n - pglen)) 0 next in Ret (mm, err, next) in
      Ret (mm, if negb (err =? 0) then 0 else area)
    else Ret (mm, 0).

(** ** Splitting *)

(** What the calls of [__split_vma] return: [vm_ops->split], 0 when there is none,
    [kmem_cache_alloc] and [anon_vma_clone] *)
Record split_calls := mk_calls { split_err : Z; new_vma : Z; clone_new_err : Z }.

Definition __split_vma (calls : split_calls) (mm : mm_struct) (vma addr : Z) (new_below : bool) : outcome (mm_struct * Z) :=
  if negb (split_err calls =? 0) then Ret (mm, split_err calls)
  else
    let new := new_vma calls in
    if new =? 0 then Ret (mm, - ENOMEM)
    else
      let* v := vma_at (vmas mm) vma in
      let* n := get (mm_rb mm) vma in
      let* g := field (rb_data (mm_rb mm)) vma in
      let t := mm_rb mm in
      let fixed := if new_below then set_vm_end v addr
                   else set_vm_pgoff (set_vm_start v addr) (u32 (vm_pgoff v + Z.shiftr (u32 (addr - vm_start v)) PAGE_SHIFT)) in
      let mm := set_mm_rb (set_vmas mm (<[new := fixed]> (vmas mm)))
                  (mk_rb (<[new := n]> (rb_nodes t)) (rb_root t) (<[new := g]> (rb_data t))) in
      if negb (clone_new_err calls =? 0) then Ret (free_vma mm new, clone_new_err calls)
      else
        let* (mm, err) :=
          if new_below then
            vma_adjust 0 mm vma addr (vm_end v) (u32 (vm_pgoff v + Z.shiftr (u32 (addr - vm_start fixed)) PAGE_SHIFT)) new
          else vma_adjust 0 mm vma (vm_start v) addr (vm_pgoff v) new in
        if err =? 0 then Ret (mm, 0) else Ret (free_vma mm new, err).

Definition split_vma (max_map_count : Z) (calls : split_calls) (mm : mm_struct) (vma addr : Z) (new_below : bool) : outcome (mm_struct * Z) :=
  if max_map_count <=? map_count mm then Ret (mm, - ENOMEM) else __split_vma calls mm vma addr new_below.

(** ** Unmapping a range *)

(** [if (start > vma->vm_start)]: the error and [prev] *)
Definition split_first (max_map_count : Z) (calls : split_calls) (mm : mm_struct) (vma start end_ : Z) : outcome (mm_struct * Z * Z) :=
  let* v := vma_at (vmas mm) vma in
  if vm_start v <? start then
    if (end_ <? vm_end v) && (max_map_count <=? map_count mm) then Ret (mm, - ENOMEM, vma)
    else let* (mm, error) := __split_vma calls mm vma start false in Ret (mm, error, vma)
  else Ret (mm, 0, vm_prev v).

(** [last = find_vma(mm, end)] and what follows *)
Definition split_last (calls : split_calls) (mm : mm_struct) (current : task_struct) (end_ : Z) : outcome (mm_struct * task_struct * Z) :=
  let* (current, last) := find_vma mm current end_ in
  let* cut := vma_and mm last (fun l => vm_start l <? end_) in
  if cut : bool then let* (mm, error) := __split_vma calls mm last end_ true in Ret (mm, current, error)
  else Ret (mm, current, 0).

Definition do_munmap (max_map_count : Z) (calls1 calls2 : split_calls) (mm : mm_struct) (current : task_struct) (start len : Z)
    : outcome (mm_struct * task_struct * Z) :=
  if negb (Z.land start (PAGE_SIZE - 1) =? 0) || (TASK_SIZE <? start) || (u32 (TASK_SIZE - start) <? len)
  then Ret (mm, current, - EINVAL)
  else
    let len := PAGE_ALIGN len in
    if len =? 0 then Ret (mm, current, - EINVAL)
    else
      let* (current, vma) := find_vma mm current start in
      if vma =? 0 then Ret (mm, current, 0)
      else
        let* v := vma_at (vmas mm) vma in
        let end_ := u32 (start + len) in
        if end_ <=? vm_start v then Ret (mm, current, 0)
        else
          let* (mm, error, prev) := split_first max_map_count calls1 mm vma start end_ in
          if negb (error =? 0) then Ret (mm, current, error)
          else
            let* (mm, current, error) := split_last calls2 mm current end_ in
            if negb (error =? 0) then Ret (mm, current, error)
            else
              let* vma := if negb (prev =? 0) then let* p := vma_at (vmas mm) prev in Ret (vm_next p) else Ret (mmap mm) in
              let* mm := detach_vmas_to_be_unmapped stack_guard_gap mm vma prev end_ in
              let* mm := remove_vma_list (S (size (vmas mm))) mm vma in
              Ret (mm, current, 0).

(** [killed] is the result of [down_write_killable]. *)
Definition vm_munmap (max_map_count : Z) (calls1 calls2 : split_calls) (killed : bool) (mm : mm_struct) (current : task_struct) (start len : Z)
    : outcome (mm_struct * task_struct * Z) :=
  if killed then Ret (mm, current, - EINTR) else do_munmap max_map_count calls1 calls2 mm current start len.

Definition sys_munmap (max_map_count : Z) (calls1 calls2 : split_calls) (killed : bool) (mm : mm_struct) (current : task_struct) (addr len : Z)
    : outcome (mm_struct * task_struct * Z) :=
  if killed then Ret (mm, current, - EINTR) else do_munmap max_map_count calls1 calls2 mm current addr len.
End Adjust.
