(* ===== verification/AddressMap.v ===== *)
(** * What an address space maps

    The abstract state of an address space: what each address is mapped to.  Splitting
    and merging areas do not change it; the calls that map and unmap are specified by
    it. *)
From Stdlib Require Import ZArith Lia Bool Sorted.
From stdpp Require Import base numbers list sorting gmap.
From S2P Require Import Prelude RBTree VmArea AddressSpace AddressSearch AddressGaps AddressAdjust.

(** The mapping of an address: the flags, the file or the name of anonymous memory,
    whether the area has to be closed, and the page. *)
Record page := mk_page { pg_flags : Z; pg_file : Z; pg_name : Z; pg_close : bool; pg_off : Z }.

Definition page_of (v : vm_area_struct) (a : Z) : page :=
  mk_page (vm_flags v) (vm_file v) (vma_get_anon_name v) (vm_close v) (u32 (vm_pgoff v + (a - vm_start v) / PAGE_SIZE)).

Definition covers (v : vm_area_struct) (a : Z) : bool := (vm_start v <=? a) && (a <? vm_end v).

Fixpoint contents (rs : list vm_area_struct) (a : Z) : option page :=
  match rs with
  | [] => None
  | v :: rs => if covers v a then Some (page_of v a) else contents rs a
  end.

(** The areas of an address space *)
Definition regions (vs : gmap Z vm_area_struct) (l : list Z) : list vm_area_struct := area vs <$> l.
Definition maps (mm : mm_struct) (l : list Z) : Z -> option page := contents (regions (vmas mm) l).

(** Areas of whole pages; the flags are an [unsigned long]. *)
Definition paged (v : vm_area_struct) : Prop := vm_start v mod PAGE_SIZE = 0 /\ vm_end v mod PAGE_SIZE = 0 /\ 0 <= vm_flags v < 2 ^ 32.

(** ** Lists of areas *)
Lemma contents_app rs rs' a : contents (rs ++ rs') a = match contents rs a with Some p => Some p | None => contents rs' a end.
Proof. induction rs as [|v rs IH]; [done|]. cbn [contents app]. by destruct (covers v a). Qed.

Lemma contents_mid rs X X' rs' a : contents X a = contents X' a -> contents (rs ++ X ++ rs') a = contents (rs ++ X' ++ rs') a.
Proof. intros H. by rewrite !contents_app, H. Qed.

Lemma contents_none rs a : (forall v, v ∈ rs -> covers v a = false) -> contents rs a = None.
Proof.
  induction rs as [|v rs IH]; intros H; [done|]. cbn [contents]. rewrite (H v (list_elem_of_here _ _)).
  apply IH. intros v' Hv'. apply H. by apply list_elem_of_further.
Qed.

Lemma covers_false v a : a < vm_start v \/ vm_end v <= a -> covers v a = false.
Proof. intros H. unfold covers. apply andb_false_iff. rewrite Z.leb_gt, Z.ltb_ge. lia. Qed.

Lemma covers_true v a : vm_start v <= a < vm_end v -> covers v a = true.
Proof. intros H. unfold covers. rewrite andb_true_iff, Z.leb_le, Z.ltb_lt. lia. Qed.

(** What an area maps does not depend on its links, nor on its anonymous memory. *)
Definition bare (v : vm_area_struct) : vm_area_struct := set_chain_singular (set_anon_vma (unlinked v) 0) false.

Lemma bare_page v v' : bare v = bare v' -> covers v = covers v' /\ page_of v = page_of v'.
Proof. destruct v, v'. unfold bare, unlinked, covers, page_of, vma_get_anon_name. cbn. by intros [= -> -> -> -> -> -> -> ->]. Qed.

Lemma unlinked_bare v v' : unlinked v = unlinked v' -> bare v = bare v'.
Proof. unfold bare. by intros ->. Qed.

Lemma bare_bounds v v' : bare v = bare v' ->
  vm_start v = vm_start v' /\ vm_end v = vm_end v' /\ vm_mm v = vm_mm v' /\ vm_flags v = vm_flags v' /\ vm_pgoff v = vm_pgoff v'.
Proof. destruct v, v'. unfold bare, unlinked. cbn. by intros [= -> -> -> -> -> -> -> ->]. Qed.

Lemma contents_same (vs vs' : gmap Z vm_area_struct) l :
  (forall z, z ∈ l -> bare (area vs z) = bare (area vs' z)) -> contents (regions vs l) = contents (regions vs' l).
Proof.
  intros H. unfold regions. induction l as [|z l IH]; [done|]. rewrite !fmap_cons. cbn [contents].
  destruct (bare_page (area vs z) (area vs' z)) as [Hc Hp]; [apply H, list_elem_of_here|].
  assert (IH' : contents (area vs <$> l) = contents (area vs' <$> l)) by (apply IH; intros y Hy; apply H; by apply list_elem_of_further).
  by rewrite Hc, Hp, IH'.
Qed.

Lemma contents_relinked (vs vs' : gmap Z vm_area_struct) l :
  (forall z, z ∈ l -> unlinked (area vs z) = unlinked (area vs' z)) -> contents (regions vs l) = contents (regions vs' l).
Proof. intros H. apply contents_same. intros z Hz. by apply unlinked_bare, H. Qed.

(** ** Pages *)
Lemma page_size_pos : 0 < PAGE_SIZE.
Proof. done. Qed.

Lemma div_pages a b : a mod PAGE_SIZE = 0 -> (a + b) / PAGE_SIZE = a / PAGE_SIZE + b / PAGE_SIZE.
Proof.
  intros Ha. pose proof page_size_pos. rewrite (Z.div_mod a PAGE_SIZE) at 1 by lia. rewrite Ha, Z.add_0_r.
  rewrite (Z.mul_comm PAGE_SIZE), Z.div_add_l by lia. done.
Qed.

Lemma sub_pages a b : a mod PAGE_SIZE = 0 -> b mod PAGE_SIZE = 0 -> (a - b) mod PAGE_SIZE = 0.
Proof. intros Ha Hb. rewrite Zminus_mod, Ha, Hb. done. Qed.

Lemma pages_between a b : 0 <= b <= a -> a < 2 ^ 32 -> Z.shiftr (u32 (a - b)) PAGE_SHIFT = (a - b) / PAGE_SIZE.
Proof. intros Hb Ha. unfold wrap. rewrite Z.mod_small by lia. apply Z.shiftr_div_pow2. done. Qed.

(** The offset of a page counted from another start of the area. *)
Lemma offset_shift pgoff s s' a : s mod PAGE_SIZE = 0 -> s' mod PAGE_SIZE = 0 ->
  u32 (u32 (pgoff + (s' - s) / PAGE_SIZE) + (a - s') / PAGE_SIZE) = u32 (pgoff + (a - s) / PAGE_SIZE).
Proof.
  intros Hs Hs'. rewrite u32_add_l. replace (a - s) with ((s' - s) + (a - s')) by lia. rewrite div_pages by by apply sub_pages.
  f_equal. lia.
Qed.

(** An area cut in two at [addr]. *)
Lemma contents_split v addr a : paged v -> addr mod PAGE_SIZE = 0 -> vm_start v <= addr <= vm_end v ->
  contents [set_vm_end v addr; set_vm_pgoff (set_vm_start v addr) (u32 (vm_pgoff v + (addr - vm_start v) / PAGE_SIZE))] a = contents [v] a.
Proof.
  intros (Hs & He & _) Hp Hr. cbn [contents]. destruct (decide (vm_start v <= a < vm_end v)) as [Ha|Ha].
  - rewrite (covers_true v) by done. destruct (decide (a < addr)).
    + by rewrite covers_true by (cbn; lia).
    + rewrite covers_false by (cbn; lia). rewrite covers_true by (cbn; lia). unfold page_of. cbn. by rewrite offset_shift.
  - rewrite !covers_false by (cbn; lia). done.
Qed.

Lemma land_page_offset x : Z.land x (PAGE_SIZE - 1) = x mod PAGE_SIZE.
Proof. change (PAGE_SIZE - 1) with (Z.ones 12). by rewrite Z.land_ones. Qed.

(** Rounding up stays below a multiple of the page size. *)
Lemma page_align_le x b : 0 <= x <= b -> b mod PAGE_SIZE = 0 -> b + PAGE_SIZE <= U32_MAX -> PAGE_ALIGN x <= b.
Proof.
  intros Hx Hb Hmax. destruct (page_align_up x) as [Hu Hm]; [lia|lia|]. pose proof page_size_pos.
  apply Z.mod_divide in Hb as [q ->], Hm as [r Hr]; [|lia..]. rewrite Hr in Hu |- *.
  assert (r < q + 1) by (apply (Z.mul_lt_mono_pos_r PAGE_SIZE); lia). nia.
Qed.
