(* ===== verification/AddressSplit.v ===== *)
(** * Splitting an area *)
From Stdlib Require Import ZArith Lia Bool Sorted.
From stdpp Require Import base numbers list sorting gmap.
From S2P Require Import Prelude RBTree RBTreeShape RBTreeRep RBTreeAugment RBTreeInsert RBTreeErase RBTreeRemove RBTreeCallbacks RBTreeWalk RBTreeProps RBTreeSearch VmArea IntervalTree IntervalTreeSpec AddressSpace AddressSearch AddressGaps AddressLink AddressUnmap AddressAdjust AddressMap.

Section Split.
Variable stack_guard_gap : Z.
Abbreviation mm_wf := (mm_wf stack_guard_gap).
Abbreviation mm_wf_but := (mm_wf_but stack_guard_gap).

(** ** Changing the bounds of areas *)
Lemma own_gap_ext vs vs' z : vm_start (area vs' z) = vm_start (area vs z) -> vm_flags (area vs' z) = vm_flags (area vs z) ->
  vm_prev (area vs' z) = vm_prev (area vs z) ->
  (vm_prev (area vs z) <> 0 -> vm_end (area vs' (vm_prev (area vs z))) = vm_end (area vs (vm_prev (area vs z)))) ->
  own_gap stack_guard_gap vs' z = own_gap stack_guard_gap vs z.
Proof.
  intros Hs Hf Hp He. unfold own_gap. rewrite Hp. unfold vm_start_gap. rewrite Hs, Hf.
  destruct (Z.eqb_spec (vm_prev (area vs z)) 0); [done|]. by rewrite He.
Qed.

(** Areas with other bounds, in the same order: the gap before [B] may not be right. *)
Lemma rebound_but R A B mm vs' : mm_wf R (A ++ B) mm ->
  (forall z, z ∈ A ++ B -> is_Some (vs' !! z) /\ vm_prev (area vs' z) = vm_prev (area (vmas mm) z) /\ vm_next (area vs' z) = vm_next (area (vmas mm) z)) ->
  (forall z, z ∈ A ++ B -> area_ok (mm_addr mm) (area vs' z)) -> apart vs' (A ++ B) ->
  (forall z, z ∈ A ++ B -> z <> end_of Left B -> own_gap stack_guard_gap vs' z = own_gap stack_guard_gap (vmas mm) z) ->
  (B <> [] -> forall z, last B = Some z -> vm_end (area vs' z) = vm_end (area (vmas mm) z)) ->
  mm_wf_but (vmas mm) R A B (set_vmas mm vs').
Proof.
  intros [Ht Hg Hl Hok Hap Hm Hh Hc] Hlk Hok' Hap' Hgap Hend. split; cbn [mm_rb vmas mm_addr mmap highest_vm_end map_count set_vmas]; try done.
  - intros z Hz. by eapply listed_readable.
  - intros A' z B' Heq. destruct (Hlk z) as (Hs & -> & ->); [rewrite Heq; set_solver|]. split; [done|]. by apply (Hl A' z B').
  - intros HB. rewrite Hh. destruct B as [|b B] using rev_ind; [done|]. rewrite app_assoc, !last_snoc in *. cbn [from_option].
    symmetry. by apply Hend.
Qed.

(** A new area in memory. *)
Definition allocated (mm : mm_struct) (y : Z) (v : vm_area_struct) (n : rb_node) (g : Z) : mm_struct :=
  let t := mm_rb mm in
  set_mm_rb (set_vmas mm (<[y := v]> (vmas mm))) (mk_rb (<[y := n]> (rb_nodes t)) (rb_root t) (<[y := g]> (rb_data t))).

Lemma allocated_wf R l mm y v n g : mm_wf R l mm -> (y ∉ l) -> y <> 0 -> mm_wf (<[y := n]> R) l (allocated mm y v n g).
Proof.
  intros Hwf Hy Hy0. assert (Hne : forall z, z ∈ l -> y <> z) by (by intros z Hz ->).
  apply (mm_wf_ext _ R _ _ mm); try done.
  - intros z Hz. cbn [allocated vmas set_vmas set_mm_rb]. by rewrite lookup_insert_ne by by apply Hne.
  - intros L HL [Hn Hv Hh]. split; [done|done|]. cbn [allocated mm_rb set_mm_rb rb_nodes]. rewrite Hh. apply insert_union_r.
    apply not_elem_of_list_to_map_1. by rewrite HL.
  - intros z Hz. cbn [allocated mm_rb set_mm_rb rb_data]. apply value_insert; [done|]. intros ->. by apply (Hne y).
Qed.

Lemma freed_wf R l mm y : mm_wf R l mm -> (y ∉ l) -> mm_wf (delete y R) l (free_vma mm y).
Proof.
  intros Hwf Hy. assert (Hne : forall z, z ∈ l -> y <> z) by (by intros z Hz ->). apply (mm_wf_ext _ R _ _ mm); try done.
  - intros z Hz. cbn [free_vma vmas set_vmas set_mm_rb]. by rewrite lookup_delete_ne by by apply Hne.
  - intros L HL Ho. apply own_delete_outside; [done|]. by rewrite HL.
Qed.

(** The node and the gap of a linked area can be read. *)
Lemma linked_node R l mm x : mm_wf R l mm -> x ∈ l -> exists n g, get (mm_rb mm) x = Ret n /\ field (rb_data (mm_rb mm)) x = Ret g.
Proof.
  intros Hwf Hx. destruct (rb_tree_at _ _ _ _ (wf_tree _ _ _ _ Hwf) Hx) as (k & c & a & b & Ho & _).
  assert (Hc : (x, mk_node (pack (above k) c) (ptr b) (ptr a)) ∈ cells (plug k (T c a x b)) 0) by (rewrite cells_plug; apply list_elem_of_here).
  eexists _, _. unfold get. rewrite (own_lookup _ _ _ _ _ Ho Hc). split; [done|].
  eapply value_field, (wf_gaps _ _ _ _ Hwf x); [done|]. by eapply own_lookup.
Qed.

(** [__vma_adjust] with an area to insert changes the bounds and inserts it. *)
Lemma adjust_insert clone_err mm x start end_ pgoff y : is_Some (vmas mm !! x) -> y <> 0 ->
  vma_adjust stack_guard_gap clone_err mm x start end_ pgoff y
  = let* mm' := __insert_vm_struct stack_guard_gap
        (set_vmas mm (<[x := set_vm_pgoff (set_vm_end (set_vm_start (area (vmas mm) x) start) end_) pgoff]> (vmas mm))) y in Ret (mm', 0).
Proof.
  intros Hx Hy. unfold vma_adjust, __vma_adjust, plan_adjust. rewrite vma_at_area by done. cbn [obind].
  rewrite (proj2 (Z.eqb_neq y 0)), andb_false_r by done. cbn [obind exporter importer import_anon_vma Z.eqb negb pl_vma pl_next pl_end remove_next adjust_next].
  unfold adjust_pass, put_vma. rewrite vma_at_area by done. cbn [obind Z.eqb negb].
  rewrite (proj2 (Z.eqb_neq y 0)) by done. cbn [negb]. rewrite !obind_assoc. by destruct (__insert_vm_struct _ _ _).
Qed.

Lemma apart_shrink vs vs' l : apart vs l ->
  (forall z, z ∈ l -> vm_start (area vs z) <= vm_start (area vs' z) /\ vm_end (area vs' z) <= vm_end (area vs z)) -> apart vs' l.
Proof.
  unfold apart. induction 1 as [|x l Hs IH HF]; intros Hin; constructor; [apply IH; intros z Hz; apply Hin; by apply list_elem_of_further|].
  rewrite Forall_forall in HF |- *. intros y Hy. specialize (HF y Hy). simpl in HF.
  destruct (Hin x (list_elem_of_here _ _)), (Hin y (list_elem_of_further _ _ _ Hy)). lia.
Qed.

(** The area whose previous one is [x]. *)
Lemma listed_prev vs A x B z : listed vs (A ++ x :: B) -> NoDup (A ++ x :: B) -> x <> 0 -> z ∈ A ++ x :: B -> vm_prev (area vs z) = x ->
  z = end_of Left B.
Proof.
  intros Hl Hnd Hx0 (A' & B' & Heq)%list_elem_of_split Hp. destruct (Hl A' z B' Heq) as (_ & Hp' & _). rewrite Hp in Hp'.
  destruct A' as [|x' A' _] using rev_ind; [done|]. rewrite end_right_snoc in Hp'. subst x'. rewrite <- app_assoc in Heq.
  destruct (split_unique x A B A' (z :: B') Heq) as [_ ->]; [|by rewrite Heq in Hnd; apply NoDup_app in Hnd as (_ & Hnd & _); intros Hx; apply (Hnd x Hx); set_solver|done].
  apply NoDup_app in Hnd as (_ & Hnd & _). intros Hx. apply (Hnd x Hx). set_solver.
Qed.

Lemma wf_sides R A x B mm : mm_wf R (A ++ x :: B) mm ->
  (forall z, z ∈ A -> z <> x /\ z ∈ A ++ x :: B /\ vm_end (area (vmas mm) z) <= vm_start (area (vmas mm) x))
  /\ (forall z, z ∈ B -> z <> x /\ z ∈ A ++ x :: B /\ vm_end (area (vmas mm) x) <= vm_start (area (vmas mm) z)).
Proof.
  intros wf. destruct (mm_wf_nodup _ _ _ _ wf) as [Hnd _]. pose proof (wf_apart _ _ _ _ wf) as Hap. unfold apart in Hap.
  apply StronglySorted_app in Hap as (HAB & _ & HxB). inversion_clear HxB as [|? ? _ HF]. rewrite Forall_forall in HF.
  apply NoDup_app in Hnd as (_ & HndA & HndB%NoDup_cons). split; intros z Hz; (split; [intros ->|split; [set_solver|]]).
  - apply (HndA x Hz), list_elem_of_here.
  - apply (HAB z x Hz), list_elem_of_here.
  - by destruct HndB.
  - by apply (HF z Hz).
Qed.

(** One area [x] with other bounds, between the same neighbours.  The gaps that change are
    that of [x], when its start does, and that of the area after it, when its end does. *)
Section Rebound.
Context (R : nodes) (A : list Z) (x : Z) (B : list Z) (mm : mm_struct) (A' B' : list Z) (v' : vm_area_struct).
Abbreviation l := (A ++ x :: B).
Abbreviation v := (area (vmas mm) x).
Abbreviation vs' := (<[x := v']> (vmas mm)).
Hypothesis wf : mm_wf R l mm.
Hypothesis l_parts : l = A' ++ B'.
Hypothesis v_fields : vm_prev v' = vm_prev v /\ vm_next v' = vm_next v /\ vm_mm v' = vm_mm v /\ vm_flags v' = vm_flags v.
Hypothesis v_bounds : 0 <= vm_start v' < vm_end v' /\ vm_end v' < 2 ^ 32.
Hypothesis v_after : forall z, z ∈ A -> vm_end (area (vmas mm) z) <= vm_start v'.
Hypothesis v_before : forall z, z ∈ B -> vm_end v' <= vm_start (area (vmas mm) z).
Hypothesis start_moves : vm_start v' = vm_start v \/ B' = x :: B.
Hypothesis end_moves : vm_end v' = vm_end v \/ B' = B.

Lemma rebound_x : x ∈ l /\ x <> 0 /\ (x ∉ A) /\ (x ∉ B) /\ area vs' x = v' /\ forall z, z <> x -> area vs' z = area (vmas mm) z.
Proof.
  destruct (mm_wf_nodup _ _ _ _ wf) as [Hnd H0]. assert (Hx : x ∈ l) by (apply elem_of_app; right; apply list_elem_of_here).
  apply NoDup_app in Hnd as (_ & HA & [HB _]%NoDup_cons). split_and!; [done|by intros ->| |done| |].
  - intros HxA. apply (HA x HxA), list_elem_of_here.
  - by rewrite area_insert, decide_True.
  - intros z Hz. by rewrite area_insert, decide_False.
Qed.

Lemma rebound_gap z : z ∈ l -> z <> end_of Left B' -> own_gap stack_guard_gap vs' z = own_gap stack_guard_gap (vmas mm) z.
Proof.
  intros Hz Hzb. destruct rebound_x as (Hx & Hx0 & _ & _ & Hvx & Har). destruct v_fields as (Hvp & _ & _ & Hvf).
  apply own_gap_ext.
  - destruct (decide (z = x)) as [->|Hzx]; [rewrite Hvx|by rewrite Har]. destruct start_moves as [?| ->]; [done|]. by destruct Hzb.
  - destruct (decide (z = x)) as [->|Hzx]; [by rewrite Hvx|by rewrite Har].
  - destruct (decide (z = x)) as [->|Hzx]; [by rewrite Hvx|by rewrite Har].
  - intros Hp. destruct (decide (vm_prev (area (vmas mm) z) = x)) as [Hpx|Hpx]; [|by rewrite Har].
    rewrite Hpx, Hvx. destruct end_moves as [?| ->]; [done|]. destruct Hzb.
    apply (listed_prev (vmas mm) A x B z); [apply wf|by destruct (mm_wf_nodup _ _ _ _ wf)|done|done|done].
Qed.

Lemma rebound_apart : apart vs' l.
Proof.
  destruct rebound_x as (Hx & _ & HxA & HxB & Hvx & Har). pose proof (wf_apart _ _ _ _ wf) as Hap.
  assert (Hext : forall K, x ∉ K -> apart (vmas mm) K -> apart vs' K).
  { intros K HK H. apply (apart_shrink (vmas mm)); [done|]. intros z Hz. rewrite Har by (by intros ->). done. }
  unfold apart in Hap |- *. apply StronglySorted_app in Hap as (HAB & HsA & HsB). inversion_clear HsB as [|? ? Hs HF].
  apply StronglySorted_app. split_and!; [|by apply Hext|constructor; [by apply Hext|]].
  - intros a b Ha Hb. assert (a <> x) by (by intros ->). rewrite (Har a) by done. apply elem_of_cons in Hb as [->|Hb]; [rewrite Hvx; by apply v_after|].
    rewrite Har by (by intros ->). apply HAB; [done|by apply list_elem_of_further].
  - apply Forall_forall. intros b Hb. rewrite Hvx, Har by (by intros ->). by apply v_before.
Qed.

Lemma rebound_one : mm_wf_but (vmas mm) R A' B' (set_vmas mm vs').
Proof.
  destruct rebound_x as (Hx & Hx0 & HxA & HxB & Hvx & Har). destruct v_fields as (Hvp & Hvn & Hvm & _).
  assert (Hwf : mm_wf R (A' ++ B') mm) by by rewrite <- l_parts.
  apply rebound_but; [done|..]; rewrite <- ?l_parts.
  - intros z Hz. split.
    { destruct (decide (z = x)) as [->|Hzx]; [rewrite lookup_insert_eq; by eexists|]. rewrite lookup_insert_ne by done.
      by apply (listed_readable _ _ z (wf_list _ _ _ _ wf)). }
    destruct (decide (z = x)) as [->|Hzx]; [by rewrite Hvx|by rewrite Har].
  - intros z Hz. destruct (decide (z = x)) as [->|Hzx]; [rewrite Hvx|rewrite Har by done; by apply (wf_areas _ _ _ _ wf)].
    split; [lia|]. split; [lia|]. rewrite Hvm. by apply (wf_areas _ _ _ _ wf).
  - apply rebound_apart.
  - apply rebound_gap.
  - intros HB z Hz. destruct (decide (z = x)) as [->|Hzx]; [rewrite Hvx|by rewrite Har].
    destruct end_moves as [?| ->]; [done|]. destruct HxB. by apply last_Some_elem_of.
Qed.
End Rebound.

Definition lower_part (v : vm_area_struct) (addr : Z) : vm_area_struct := set_vm_end v addr.
Definition upper_part (v : vm_area_struct) (addr : Z) : vm_area_struct :=
  set_vm_pgoff (set_vm_start v addr) (u32 (vm_pgoff v + (addr - vm_start v) / PAGE_SIZE)).

(** The area [x] becomes [vx] and the new area [y], with [vy], comes between [A'] and [B']. *)
Section Insert.
Context (R : nodes) (A : list Z) (x : Z) (B : list Z) (mm : mm_struct) (y addr : Z) (n : rb_node) (g : Z).
Context (A' B' : list Z) (vx vy : vm_area_struct).
Abbreviation l := (A ++ x :: B).
Abbreviation v := (area (vmas mm) x).
Abbreviation mm1 := (allocated mm y vy n g).
Abbreviation vs2 := (<[x := vx]> (vmas mm1)).
Hypothesis wf : mm_wf R l mm.
Hypothesis y_new : valid y /\ y ∉ l.
Hypothesis inside : vm_start v < addr < vm_end v.
Hypothesis l_parts : l = A' ++ B'.
Hypothesis parts : vx = upper_part v addr /\ vy = lower_part v addr /\ A' = A \/ vx = lower_part v addr /\ vy = upper_part v addr /\ B' = B.

Lemma split_x : x ∈ l /\ x <> 0 /\ x <> y /\ y <> 0.
Proof.
  destruct (mm_wf_nodup _ _ _ _ wf) as [_ H0]. destruct y_new as [Hyv Hyl].
  assert (Hx : x ∈ l) by (apply elem_of_app; right; apply list_elem_of_here).
  split_and!; [done|by intros ->|by intros ->|by apply valid_neq0].
Qed.

Lemma split_old z : z ∈ l -> area (vmas mm1) z = area (vmas mm) z.
Proof. intros Hz. cbn [allocated vmas set_mm_rb set_vmas]. rewrite area_insert, decide_False; [done|]. intros ->. by apply y_new. Qed.

Lemma split_areas : area vs2 x = vx /\ area vs2 y = vy /\ forall z, z ∈ l -> z <> x -> area vs2 z = area (vmas mm) z.
Proof.
  destruct split_x as (_ & _ & Hxy & _). split_and!.
  - by rewrite area_insert, decide_True.
  - rewrite area_insert, decide_False by done. cbn [allocated vmas set_mm_rb set_vmas]. by rewrite area_insert, decide_True.
  - intros z Hz Hzx. rewrite area_insert, decide_False by done. by apply split_old.
Qed.

Lemma split_bounds : vm_prev vx = vm_prev v /\ vm_next vx = vm_next v /\ vm_mm vx = vm_mm v /\ vm_flags vx = vm_flags v
  /\ vm_start v <= vm_start vx /\ vm_start vx < vm_end vx /\ vm_end vx <= vm_end v.
Proof. destruct parts as [(-> & _)|(-> & _)]; cbn; lia. Qed.

Lemma split_but : mm_wf_but (vmas mm1) (<[y := n]> R) A' B' (set_vmas mm1 vs2).
Proof.
  destruct split_x as (Hxin & _ & _ & Hy0). destruct split_bounds as (Hvp & Hvn & Hvm & Hvf & Hvs & Hvse & Hve). destruct (wf_sides _ _ _ _ _ wf) as [HsA HsB].
  destruct (wf_areas _ _ _ _ wf x Hxin) as (Hx1 & Hx2 & Hx3).
  assert (Hwf1 : mm_wf (<[y := n]> R) l mm1) by (apply allocated_wf; [done|apply y_new|done]).
  apply (rebound_one _ A x B); rewrite ?split_old by done; try done.
  - lia.
  - intros z Hz. destruct (HsA z Hz) as (_ & Hzl & ?). rewrite split_old by done. lia.
  - intros z Hz. destruct (HsB z Hz) as (_ & Hzl & ?). rewrite split_old by done. lia.
  - destruct parts as [(_ & _ & ->)|(-> & _)]; [right; by apply app_inv_head in l_parts|by left].
  - destruct parts as [(-> & _)|(_ & _ & ->)]; [by left|by right].
Qed.

Lemma split_insert : 0 <= stack_guard_gap < 2 ^ 32 ->
  runs (__insert_vm_struct stack_guard_gap (set_vmas mm1 vs2) y) (fun mm' =>
    mm_wf (<[y := n]> R) (A' ++ y :: B') mm' /\ mm_addr mm' = mm_addr mm /\ vmacache_seqnum mm' = vmacache_seqnum mm
    /\ unlinked (area (vmas mm') x) = unlinked vx /\ unlinked (area (vmas mm') y) = unlinked vy
    /\ (forall z, z ∈ A ++ B -> unlinked (area (vmas mm') z) = unlinked (area (vmas mm) z))).
Proof.
  intros HG. destruct split_x as (Hxin & Hx0 & Hxy & _). destruct split_areas as (Hvx & Hvy & Har). destruct y_new as [Hyv Hyl].
  destruct (mm_wf_nodup _ _ _ _ wf) as [Hnd _]. destruct (wf_areas _ _ _ _ wf x Hxin) as (Hx1 & Hx2 & Hx3).
  destruct (wf_sides _ _ _ _ _ wf) as [HsA HsB].
  eapply runs_mono; [apply (insert_vm_struct_but stack_guard_gap (vmas mm1) (<[y := n]> R) A' B'); [done|apply split_but|..]|].
  - rewrite <- l_parts. split_and!; [done|done|]. cbn. rewrite lookup_insert_eq. by eexists.
  - cbn [allocated vmas set_vmas set_mm_rb]. rewrite lookup_insert_ne, lookup_insert_eq by done. by eexists.
  - cbn [vmas set_vmas set_mm_rb allocated mm_addr]. change (area_ok (mm_addr mm) (area vs2 y)). rewrite Hvy.
    destruct parts as [(_ & -> & _)|(_ & -> & _)]; (split; [cbn; lia|]; split; [cbn; lia|done]).
  - cbn [vmas set_vmas set_mm_rb]. intros z Hz. rewrite Hvy. destruct parts as [(-> & -> & ->)|(-> & -> & ->)].
    + destruct (HsA z Hz) as (Hzx & Hzl & Hle). rewrite Har by done. done.
    + assert (HA' : A' = A ++ [x]) by (apply (app_inv_tail B); rewrite <- app_assoc; done). rewrite HA' in Hz.
      apply elem_of_app in Hz as [Hz|Hz%list_elem_of_singleton]; [|subst z; rewrite Hvx; cbn; lia].
      destruct (HsA z Hz) as (Hzx & Hzl & Hle). rewrite Har by done. cbn. lia.
  - cbn [vmas set_vmas set_mm_rb]. intros z Hz. rewrite Hvy. destruct parts as [(-> & -> & ->)|(-> & -> & ->)].
    + apply app_inv_head in l_parts as HB. rewrite <- HB in Hz. apply elem_of_cons in Hz as [->|Hz]; [rewrite Hvx; cbn; lia|].
      destruct (HsB z Hz) as (Hzx & Hzl & Hle). rewrite Har by done. cbn. lia.
    + destruct (HsB z Hz) as (Hzx & Hzl & Hle). rewrite Har by done. cbn. lia.
  - cbn [vmas set_vmas set_mm_rb]. intros mm' (Hwf' & Hrel & Hma & Hsq).
    assert (Hun : forall z, unlinked (area (vmas mm') z) = unlinked (area vs2 z)) by (intros z; symmetry; apply Hrel).
    split_and!; [done|done|done|by rewrite Hun, Hvx|by rewrite Hun, Hvy|]. intros z Hz. rewrite Hun.
    apply elem_of_app in Hz as [Hz|Hz]; [destruct (HsA z Hz) as (? & ? & _)|destruct (HsB z Hz) as (? & ? & _)]; by rewrite Har.
Qed.
End Insert.

(** ** [__split_vma] *)
Definition calls_fresh (l : list Z) (c : split_calls) : Prop := new_vma c = 0 \/ (valid (new_vma c) /\ new_vma c ∉ l).
Definition calls_succeed (c : split_calls) : Prop := split_err c = 0 /\ new_vma c <> 0 /\ clone_new_err c = 0.

#[global] Instance calls_succeed_dec c : Decision (calls_succeed c).
Proof. unfold calls_succeed. apply _. Defined.

(** The list of areas when [x] is split. *)
Definition split_list (A : list Z) (x y : Z) (B : list Z) (below : bool) : list Z := if below then A ++ y :: x :: B else A ++ x :: y :: B.

Definition was_split (mm mm' : mm_struct) (A : list Z) (x y : Z) (B : list Z) (addr : Z) (below : bool) : Prop :=
  let v := area (vmas mm) x in
  unlinked (area (vmas mm') x) = unlinked (if below then upper_part v addr else lower_part v addr)
  /\ unlinked (area (vmas mm') y) = unlinked (if below then lower_part v addr else upper_part v addr)
  /\ forall z, z ∈ A ++ B -> unlinked (area (vmas mm') z) = unlinked (area (vmas mm) z).

Lemma split_vma_spec R A x B mm calls addr below : 0 <= stack_guard_gap < 2 ^ 32 -> mm_wf R (A ++ x :: B) mm ->
  vm_start (area (vmas mm) x) < addr < vm_end (area (vmas mm) x) -> calls_fresh (A ++ x :: B) calls ->
  exists R' mm' r, __split_vma stack_guard_gap calls mm x addr below = Ret (mm', r)
    /\ mm_addr mm' = mm_addr mm /\ vmacache_seqnum mm' = vmacache_seqnum mm
    /\ if decide (calls_succeed calls)
       then r = 0 /\ mm_wf R' (split_list A x (new_vma calls) B below) mm' /\ was_split mm mm' A x (new_vma calls) B addr below
       else r <> 0 /\ mm_wf R' (A ++ x :: B) mm' /\ forall z, z ∈ A ++ x :: B -> area (vmas mm') z = area (vmas mm) z.
Proof.
  intros HG Hwf Hin Hfr. assert (Hx : x ∈ A ++ x :: B) by (apply elem_of_app; right; apply list_elem_of_here).
  unfold __split_vma. destruct (Z.eqb_spec (split_err calls) 0) as [Hse|Hse]; cbn [negb].
  2:{ exists R, mm, (split_err calls). split_and!; [done|done|done|]. rewrite decide_False; [done|]. by intros (? & _). }
  destruct (Z.eqb_spec (new_vma calls) 0) as [Hn0|Hn0].
  { exists R, mm, (- ENOMEM). split_and!; [done|done|done|]. rewrite decide_False; [done|]. by intros (_ & ? & _). }
  destruct Hfr as [Hfr|Hfr]; [done|]. set (y := new_vma calls) in *.
  destruct (listed_readable _ _ x (wf_list _ _ _ _ Hwf) Hx) as [Hxs _]. rewrite vma_at_area by done. cbn [obind].
  destruct (linked_node _ _ _ _ Hwf Hx) as (n & g & -> & ->). cbn [obind]. destruct (wf_areas _ _ _ _ Hwf x Hx) as (Hx1 & Hx2 & Hx3).
  set (fixed := if below then _ else _).
  assert (Hfix : fixed = if below then lower_part (area (vmas mm) x) addr else upper_part (area (vmas mm) x) addr).
  { unfold fixed, upper_part. by rewrite pages_between by lia. }
  change (set_mm_rb _ _) with (allocated mm y fixed n g).
  destruct (Z.eqb_spec (clone_new_err calls) 0) as [Hce|Hce]; cbn [negb].
  2:{ exists (delete y (<[y := n]> R)), (free_vma (allocated mm y fixed n g) y), (clone_new_err calls). split_and!; [done|done|done|].
      rewrite decide_False by (by intros (_ & _ & ?)). split_and!; [done| |].
      - apply freed_wf; [|apply Hfr]. apply allocated_wf; [done|apply Hfr|done].
      - intros z Hz. cbn [free_vma allocated vmas set_vmas set_mm_rb]. unfold area. destruct Hfr as [_ Hfr].
        rewrite lookup_delete_ne, lookup_insert_ne by (by intros ->). done. }
  destruct (decide (calls_succeed calls)) as [_|Hno]; [|by destruct Hno].
  assert (Hstart : vm_start fixed = if below then vm_start (area (vmas mm) x) else addr) by (rewrite Hfix; by destruct below).
  assert (Hpg : Z.shiftr (u32 (addr - vm_start (area (vmas mm) x))) PAGE_SHIFT = (addr - vm_start (area (vmas mm) x)) / PAGE_SIZE) by (apply pages_between; lia).
  assert (Har : area (vmas (allocated mm y fixed n g)) x = area (vmas mm) x) by (eapply split_old; [exact Hfr|done]).
  assert (Hxs1 : is_Some (vmas (allocated mm y fixed n g) !! x)).
  { cbn [allocated vmas set_vmas set_mm_rb]. rewrite lookup_insert_ne by (intros ->; by apply Hfr). done. }
  destruct below.
  - rewrite Hstart, Hpg, adjust_insert, Har by done.
    change (set_vm_pgoff (set_vm_end _ (vm_end (area (vmas mm) x))) _) with (upper_part (area (vmas mm) x) addr).
    destruct (split_insert R A x B mm y addr n g A (x :: B) (upper_part (area (vmas mm) x) addr) fixed) as (mm' & -> & Hwf' & Hma & Hsq & Hux & Huy & Hz); try done.
    { left. by split_and!. }
    exists (<[y := n]> R), mm', 0. by split_and!.
  - rewrite adjust_insert, Har by done.
    assert (Hlow : set_vm_pgoff (set_vm_end (set_vm_start (area (vmas mm) x) (vm_start (area (vmas mm) x))) addr) (vm_pgoff (area (vmas mm) x)) = lower_part (area (vmas mm) x) addr)
      by by destruct (area (vmas mm) x).
    rewrite Hlow.
    destruct (split_insert R A x B mm y addr n g (A ++ [x]) B (lower_part (area (vmas mm) x) addr) fixed) as (mm' & -> & Hwf' & Hma & Hsq & Hux & Huy & Hz); try done.
    { by rewrite <- app_assoc. }
    { right. by split_and!. }
    exists (<[y := n]> R), mm', 0. rewrite <- app_assoc in Hwf'. split_and!; try done. rewrite Hfix in Huy. by split_and!.
Qed.

(** What is mapped does not change. *)
Lemma was_split_maps mm mm' A x y B addr below a : was_split mm mm' A x y B addr below -> paged (area (vmas mm) x) -> addr mod PAGE_SIZE = 0 ->
  vm_start (area (vmas mm) x) < addr < vm_end (area (vmas mm) x) ->
  maps mm' (split_list A x y B below) a = maps mm (A ++ x :: B) a.
Proof.
  intros (Hx & Hy & Hz) Hp Ha Hin. unfold maps, regions.
  assert (HA : contents (area (vmas mm') <$> A) = contents (area (vmas mm) <$> A)) by (apply contents_relinked; intros z Hzin; apply Hz; set_solver).
  assert (HB : contents (area (vmas mm') <$> B) = contents (area (vmas mm) <$> B)) by (apply contents_relinked; intros z Hzin; apply Hz; set_solver).
  assert (Hmid : contents (area (vmas mm') <$> (if below then [y; x] else [x; y])) a = contents [area (vmas mm) x] a).
  { rewrite <- (contents_split (area (vmas mm) x) addr a) by (done || lia). apply unlinked_bare, bare_page in Hx as [Hx1 Hx2], Hy as [Hy1 Hy2].
    destruct below; cbn [fmap list_fmap contents]; rewrite Hx1, Hx2, Hy1, Hy2; done. }
  assert (Hl : split_list A x y B below = A ++ (if below then [y; x] else [x; y]) ++ B) by by destruct below.
  rewrite Hl, !fmap_app, fmap_cons. change (area (vmas mm) x :: (area (vmas mm) <$> B)) with ([area (vmas mm) x] ++ (area (vmas mm) <$> B)).
  by rewrite !contents_app, HA, HB, Hmid.
Qed.
End Split.
