(* ===== verification/AddressMunmap.v ===== *)
(** * Unmapping a range *)
From Stdlib Require Import ZArith Lia Bool Sorted.
From stdpp Require Import base numbers list sorting gmap.
From S2P Require Import Prelude RBTree RBTreeShape RBTreeRep RBTreeAugment RBTreeInsert RBTreeErase RBTreeRemove RBTreeCallbacks RBTreeWalk RBTreeProps RBTreeSearch VmArea IntervalTree IntervalTreeSpec AddressSpace AddressSearch AddressGaps AddressLink AddressUnmap AddressFind AddressAdjust AddressMap AddressSplit.

Lemma unlinked_bounds v v' : unlinked v = unlinked v' -> vm_start v = vm_start v' /\ vm_end v = vm_end v'.
Proof. intros H. by apply unlinked_bare, bare_bounds in H as (-> & -> & _). Qed.

Lemma paged_bare v v' : bare v = bare v' -> paged v' -> paged v.
Proof. intros (Hs & He & _ & Hf & _)%bare_bounds. unfold paged. by rewrite Hs, He, Hf. Qed.

Section Munmap.
Variable stack_guard_gap : Z.
Abbreviation mm_wf := (mm_wf stack_guard_gap).

(** An address space of whole pages, with the areas [l]. *)
Record space (l : list Z) (mm : mm_struct) : Prop := {
  sp_wf : exists R, mm_wf R l mm;
  sp_paged : forall z, z ∈ l -> paged (area (vmas mm) z);
  sp_seq : 0 <= vmacache_seqnum mm
}.

(** Splitting areas keeps what is mapped. *)
Record resplit (mm : mm_struct) (l : list Z) (mm' : mm_struct) (l' : list Z) : Prop := {
  rs_space : space l' mm';
  rs_maps : forall a, maps mm' l' a = maps mm l a;
  rs_addr : mm_addr mm' = mm_addr mm;
  rs_seq : vmacache_seqnum mm' = vmacache_seqnum mm;
  rs_more : forall z, z ∈ l -> z ∈ l'
}.

Lemma resplit_refl l mm : space l mm -> resplit mm l mm l.
Proof. intros H. by split. Qed.

Lemma resplit_trans mm1 l1 mm2 l2 mm3 l3 : resplit mm1 l1 mm2 l2 -> resplit mm2 l2 mm3 l3 -> resplit mm1 l1 mm3 l3.
Proof.
  intros [_ Hm1 Ha1 Hs1 Hl1] [Hsp Hm2 Ha2 Hs2 Hl2]. split; [done| | | |auto].
  - intros a. by rewrite Hm2.
  - by rewrite Ha2.
  - by rewrite Hs2.
Qed.

Lemma resplit_cache mm l mm' l' : resplit mm l mm' l' -> cache_kept mm l mm' l'.
Proof. intros [_ _ Ha Hs Hl]. split; [done|]. by left. Qed.

Lemma space_nodup l mm : space l mm -> NoDup l /\ 0 ∉ l.
Proof. intros [[R Hwf] _ _]. by eapply mm_wf_nodup. Qed.

(** The bounds of areas in a row. *)
Lemma space_order A x B mm : space (A ++ x :: B) mm ->
  vm_start (area (vmas mm) x) < vm_end (area (vmas mm) x)
  /\ (forall z, z ∈ A -> vm_end (area (vmas mm) z) <= vm_start (area (vmas mm) x) /\ vm_start (area (vmas mm) z) < vm_end (area (vmas mm) z))
  /\ (forall z, z ∈ B -> vm_end (area (vmas mm) x) <= vm_start (area (vmas mm) z) /\ vm_start (area (vmas mm) z) < vm_end (area (vmas mm) z)).
Proof.
  intros [[R Hwf] _ _]. pose proof (wf_apart _ _ _ _ Hwf) as Hap. unfold apart in Hap. apply StronglySorted_app in Hap as (HAB & _ & HxB).
  inversion_clear HxB as [|? ? _ HF]. rewrite Forall_forall in HF.
  assert (Hne : forall z, z ∈ A ++ x :: B -> vm_start (area (vmas mm) z) < vm_end (area (vmas mm) z)) by (intros z Hz; apply (wf_areas _ _ _ _ Hwf z Hz)).
  split_and!.
  - apply Hne. set_solver.
  - intros z Hz. split; [apply (HAB z x Hz), list_elem_of_here|apply Hne; set_solver].
  - intros z Hz. split; [apply (HF z Hz)|apply Hne; set_solver].
Qed.

(** [__split_vma] in these terms. *)
Lemma resplit_vma A x B mm calls addr below : 0 <= stack_guard_gap < 2 ^ 32 -> space (A ++ x :: B) mm ->
  vm_start (area (vmas mm) x) < addr < vm_end (area (vmas mm) x) -> addr mod PAGE_SIZE = 0 -> calls_fresh (A ++ x :: B) calls ->
  exists mm' r, __split_vma stack_guard_gap calls mm x addr below = Ret (mm', r)
    /\ if decide (calls_succeed calls)
       then r = 0 /\ resplit mm (A ++ x :: B) mm' (split_list A x (new_vma calls) B below) /\ was_split mm mm' A x (new_vma calls) B addr below
       else r <> 0 /\ resplit mm (A ++ x :: B) mm' (A ++ x :: B).
Proof.
  intros HG Hsp Hin Ha Hfr. destruct Hsp as [[R Hwf] Hpg Hsq0].
  assert (Hx : x ∈ A ++ x :: B) by (apply elem_of_app; right; apply list_elem_of_here).
  destruct (split_vma_spec stack_guard_gap R A x B mm calls addr below HG Hwf Hin Hfr) as (R' & mm' & r & Hrun & Hma & Hsq & Hres).
  exists mm', r. split; [done|]. destruct (decide (calls_succeed calls)).
  - destruct Hres as (-> & Hwf' & Hsplit). split_and!; [done| |done]. split; [|intros a; apply (was_split_maps _ _ _ _ _ _ addr); auto|done|done|].
    + split; [by exists R'| |by rewrite Hsq]. intros z Hz. destruct Hsplit as (Hux & Huy & Huz).
      destruct (decide (z = x)) as [->|Hzx]; [|destruct (decide (z = new_vma calls)) as [->|Hzy]].
      * eapply paged_bare; [by apply unlinked_bare|]. destruct (Hpg x Hx) as (? & ? & ?). destruct below; (split; [done|by split]).
      * eapply paged_bare; [by apply unlinked_bare|]. destruct (Hpg x Hx) as (? & ? & ?). destruct below; (split; [done|by split]).
      * assert (HzAB : z ∈ A ++ B) by (unfold split_list in Hz; destruct below; set_solver).
        eapply paged_bare; [by apply unlinked_bare, Huz|]. apply Hpg. unfold split_list in Hz. destruct below; set_solver.
    + intros z Hz. unfold split_list. destruct below; set_solver.
  - destruct Hres as (Hr & Hwf' & Hz). split; [done|]. split; [|intros a|done|done|done].
    + split; [by exists R'| |by rewrite Hsq]. intros z Hzl. rewrite Hz by done. auto.
    + unfold maps. rewrite (contents_relinked _ (vmas mm)); [done|]. intros z Hzl. by rewrite Hz.
Qed.

(** ** The two splits *)

Lemma split_first_spec max A x B mm calls start end_ : 0 <= stack_guard_gap < 2 ^ 32 -> space (A ++ x :: B) mm ->
  (forall z, z ∈ A -> vm_end (area (vmas mm) z) <= start) -> start < vm_end (area (vmas mm) x) -> vm_start (area (vmas mm) x) < end_ ->
  start < end_ -> start mod PAGE_SIZE = 0 -> calls_fresh (A ++ x :: B) calls ->
  exists mm' err prev, split_first stack_guard_gap max calls mm x start end_ = Ret (mm', err, prev)
    /\ ((err <> 0 /\ resplit mm (A ++ x :: B) mm' (A ++ x :: B) /\ (calls_succeed calls -> max <= map_count mm))
        \/ (err = 0 /\ exists A1 x1 C1, resplit mm (A ++ x :: B) mm' (A1 ++ x1 :: C1) /\ prev = end_of Right A1
              /\ (forall z, z ∈ A1 -> vm_end (area (vmas mm') z) <= start) /\ start <= vm_start (area (vmas mm') x1) < end_
              /\ (forall z, z ∈ A1 ++ x1 :: C1 -> z ∈ A ++ x :: B \/ z = new_vma calls))).
Proof.
  intros HG Hsp HA Hx1 Hx2 Hse Hst Hfr. pose proof Hsp as [[R Hwf] _ _].
  destruct (wf_list _ _ _ _ Hwf A x B eq_refl) as (Hxs & Hxp & _).
  unfold split_first. rewrite vma_at_area by done. cbn [obind]. destruct (Z.ltb_spec (vm_start (area (vmas mm) x)) start) as [Hlt|Hge].
  2:{ exists mm, 0, (vm_prev (area (vmas mm) x)). split; [done|]. right. split; [done|]. exists A, x, B.
      split_and!; [by apply resplit_refl|done|done|done|done|auto]. }
  destruct ((end_ <? vm_end (area (vmas mm) x)) && (max <=? map_count mm)) eqn:Hlim.
  { exists mm, (- ENOMEM), x. split; [done|]. left. split_and!; [done|by apply resplit_refl|]. intros _.
    apply andb_true_iff in Hlim as [_ Hlim]. by apply Z.leb_le in Hlim. }
  destruct (resplit_vma A x B mm calls start false HG Hsp) as (mm' & r & -> & Hres); [lia|done|done|]. cbn [obind].
  exists mm', r, x. split; [done|]. destruct (decide (calls_succeed calls)) as [Hs|Hs].
  2:{ left. destruct Hres as [Hr Hres]. split_and!; [done|done|]. by intros ?. }
  destruct Hres as (-> & Hres & (Hux & Huy & Huz)). right. split; [done|]. unfold split_list in Hres.
  exists (A ++ [x]), (new_vma calls), B. rewrite <- app_assoc. cbn [app]. split_and!; [done|by rewrite end_right_snoc| | | |].
  - intros z [Hz|Hz%list_elem_of_singleton]%elem_of_app.
    + destruct (unlinked_bounds _ _ (Huz z ltac:(set_solver))) as [_ ->]. auto.
    + subst z. destruct (unlinked_bounds _ _ Hux) as [_ ->]. cbn. lia.
  - destruct (unlinked_bounds _ _ Huy) as [-> _]. cbn. lia.
  - destruct (unlinked_bounds _ _ Huy) as [-> _]. cbn. lia.
  - intros z Hz. set_solver.
Qed.

(** A prefix of the areas below an address. *)
Lemma prefix_below (P Q A1 rest : list Z) (f : Z -> Z) b : A1 ++ rest = P ++ Q -> (forall z, z ∈ A1 -> f z <= b) -> (forall z, z ∈ Q -> b < f z) ->
  exists P', P = A1 ++ P' /\ rest = P' ++ Q.
Proof.
  intros Heq HA HQ. apply app_eq_inv in Heq as [(k & -> & ->)|(k & -> & ->)]; [|by exists k].
  destruct k as [|z k]; [exists []; by rewrite !app_nil_r|]. exfalso. specialize (HA z). specialize (HQ z).
  assert (z ∈ P ++ z :: k) by set_solver. assert (z ∈ (z :: k) ++ rest) by set_solver. intuition lia.
Qed.

Lemma split_last_spec A1 x1 C1 mm calls tsk start end_ : 0 <= stack_guard_gap < 2 ^ 32 -> space (A1 ++ x1 :: C1) mm ->
  cache_ok mm (A1 ++ x1 :: C1) tsk -> (forall z, z ∈ A1 -> vm_end (area (vmas mm) z) <= start) ->
  start <= vm_start (area (vmas mm) x1) < end_ -> start < end_ -> end_ mod PAGE_SIZE = 0 -> calls_fresh (A1 ++ x1 :: C1) calls ->
  exists mm' tsk' err, split_last stack_guard_gap calls mm tsk end_ = Ret (mm', tsk', err)
    /\ task_mm tsk' = task_mm tsk /\ task_flags tsk' = task_flags tsk
    /\ ((err <> 0 /\ ~ calls_succeed calls /\ cache_ok mm' (A1 ++ x1 :: C1) tsk' /\ resplit mm (A1 ++ x1 :: C1) mm' (A1 ++ x1 :: C1))
        \/ (err = 0 /\ exists C N, resplit mm (A1 ++ x1 :: C1) mm' (A1 ++ C ++ N) /\ C <> [] /\ cache_ok mm' (A1 ++ C ++ N) tsk'
              /\ (forall z, z ∈ A1 -> vm_end (area (vmas mm') z) <= start)
              /\ (forall z, z ∈ C -> start <= vm_start (area (vmas mm') z) /\ vm_end (area (vmas mm') z) <= end_)
              /\ (forall z, z ∈ N -> end_ <= vm_start (area (vmas mm') z)))).
Proof.
  intros HG Hsp Hc HA Hx1 Hse Hend Hfr. pose proof Hsp as [[R Hwf] _ Hsq]. destruct (space_nodup _ _ Hsp) as [_ H0].
  destruct (space_order _ _ _ _ Hsp) as (Hx1e & HoA & HoC).
  assert (Hrest : forall z, z ∈ x1 :: C1 -> start <= vm_start (area (vmas mm) z)).
  { intros z [->|Hz]%elem_of_cons; [lia|]. specialize (HoC z Hz). lia. }
  destruct (find_vma_split stack_guard_gap R _ mm tsk end_ Hwf Hc Hsq) as (tsk' & P & Q & Heq & HP & HQ & Hf & Hc' & Htm & Htf).
  rewrite Forall_forall in HP, HQ. unfold split_last. rewrite Hf. cbn [obind].
  destruct (prefix_below P Q A1 (x1 :: C1) (fun z => vm_end (area (vmas mm) z)) end_ Heq) as (P' & -> & Hrest').
  { intros z Hz. specialize (HA z Hz). simpl. lia. }
  { done. }
  destruct Q as [|q Q].
  { cbn [end_of head default]. unfold vma_and. cbn [Z.eqb negb obind]. exists mm, tsk', 0. split_and!; [done|done|done|]. right. split; [done|].
    exists P', []. rewrite app_nil_r in *. rewrite <- Hrest'. split_and!; [by apply resplit_refl|done|done|done| |].
    - intros z Hz. split; [by apply Hrest|]. apply HP. rewrite Hrest' in Hz. set_solver.
    - intros z Hz. by apply elem_of_nil in Hz. }
  assert (Hq : q ∈ A1 ++ x1 :: C1) by (rewrite Heq; set_solver). change (end_of Left (q :: Q)) with q.
  unfold vma_and. rewrite (proj2 (Z.eqb_neq q 0)) by (by intros ->). cbn [negb].
  rewrite vma_at_area by (eapply (listed_readable _ _ q); [apply Hwf|done]). cbn [obind].
  rewrite <- app_assoc in Heq. destruct (space_order (A1 ++ P') q Q mm) as (_ & _ & HoQ); [by rewrite <- app_assoc, <- Heq|].
  destruct (Z.ltb_spec (vm_start (area (vmas mm) q)) end_) as [Hlt|Hge].
  - rewrite Heq in Hsp, Hfr, Hc'. rewrite app_assoc in Hsp, Hfr.
    destruct (resplit_vma (A1 ++ P') q Q mm calls end_ true HG Hsp) as (mm' & r & -> & Hres); [specialize (HQ q (list_elem_of_here _ _)); simpl in HQ; lia|done|done|].
    cbn [obind]. rewrite <- app_assoc in Hres. exists mm', tsk', r. split_and!; [done|done|done|]. destruct (decide (calls_succeed calls)) as [Hs|Hs].
    2:{ left. destruct Hres as [Hr Hres]. rewrite Heq. split_and!; [done|done| |done]. by eapply cache_kept_ok; [apply resplit_cache|]. }
    destruct Hres as (-> & Hres & (Hux & Huy & Huz)). right. split; [done|]. unfold split_list in Hres.
    exists (P' ++ [new_vma calls]), (q :: Q). rewrite Heq, <- !app_assoc in *. cbn [app] in *. split_and!; [done|by destruct P'| | | |].
    + by eapply cache_kept_ok; [apply resplit_cache|].
    + intros z Hz. destruct (unlinked_bounds _ _ (Huz z ltac:(set_solver))) as [_ ->]. auto.
    + intros z [Hz|Hz%list_elem_of_singleton]%elem_of_app.
      * destruct (unlinked_bounds _ _ (Huz z ltac:(set_solver))) as [-> ->]. split; [apply Hrest; rewrite Hrest'; set_solver|apply HP; set_solver].
      * subst z. destruct (unlinked_bounds _ _ Huy) as [-> ->]. cbn. split; [apply Hrest; rewrite Hrest'; set_solver|lia].
    + intros z [->|Hz]%elem_of_cons; [destruct (unlinked_bounds _ _ Hux) as [-> _]; cbn; lia|].
      destruct (unlinked_bounds _ _ (Huz z ltac:(set_solver))) as [-> _]. specialize (HoQ z Hz). specialize (HQ q (list_elem_of_here _ _)). simpl in HQ. lia.
  - exists mm, tsk', 0. split_and!; [done|done|done|]. right. split; [done|]. exists P', (q :: Q). rewrite <- Heq.
    split_and!; [by apply resplit_refl| |done|done| |].
    + intros ->. injection Hrest' as -> ->. lia.
    + intros z Hz. split; [apply Hrest; rewrite Hrest'; set_solver|apply HP; set_solver].
    + intros z [->|Hz]%elem_of_cons; [done|]. specialize (HoQ z Hz). specialize (HQ q (list_elem_of_here _ _)). simpl in HQ. lia.
Qed.

(** ** [do_munmap] *)

(** Removing the areas of a range. *)
Lemma unmap_range A C N mm start end_ : space (A ++ C ++ N) mm -> C <> [] -> vmacache_seqnum mm + 1 < 2 ^ 64 ->
  (forall z, z ∈ A -> vm_end (area (vmas mm) z) <= start) ->
  (forall z, z ∈ C -> start <= vm_start (area (vmas mm) z) /\ vm_end (area (vmas mm) z) <= end_) ->
  (forall z, z ∈ N -> end_ <= vm_start (area (vmas mm) z)) ->
  exists mm', unmap_areas stack_guard_gap mm (end_of Left C) (end_of Right A) end_ = Ret mm' /\ space (A ++ N) mm'
    /\ mm_addr mm' = mm_addr mm /\ vmacache_seqnum mm' = vmacache_seqnum mm + 1
    /\ forall a, maps mm' (A ++ N) a = if decide (start <= a < end_) then None else maps mm (A ++ C ++ N) a.
Proof.
  intros Hsp HC Hmax HA HCb HN. pose proof Hsp as [[R Hwf] Hpg Hsq]. destruct C as [|x C]; [done|]. change (end_of Left (x :: C)) with x.
  assert (Hne : forall z, z ∈ A ++ (x :: C) ++ N -> vm_start (area (vmas mm) z) < vm_end (area (vmas mm) z)) by (intros z Hz; apply (wf_areas _ _ _ _ Hwf z Hz)).
  destruct (unmap_areas_spec stack_guard_gap R A x C N mm end_ Hwf) as (R' & mm' & Hrun & Hwf' & Hma & Hs & _ & Hsame).
  { intros y Hy. specialize (HCb y (list_elem_of_further _ _ _ Hy)). specialize (Hne y). assert (y ∈ A ++ (x :: C) ++ N) by set_solver. intuition lia. }
  { intros y N' ->. apply HN, list_elem_of_here. }
  assert (Hs' : vmacache_seqnum mm' = vmacache_seqnum mm + 1) by (rewrite Hs; unfold wrap; apply Z.mod_small; lia).
  exists mm'. split_and!; [done| |done|done|].
  - split; [by exists R'| |lia]. intros z Hz. unfold paged. destruct (Hsame z Hz) as (<- & <- & _ & <- & _). apply Hpg. set_solver.
  - intros a. unfold maps. rewrite (contents_relinked (vmas mm') (vmas mm)) by (intros z Hz; symmetry; by apply Hsame).
    unfold regions. rewrite !fmap_app, !contents_app.
    assert (Hcov : forall l', (forall z, z ∈ l' -> covers (area (vmas mm) z) a = false) -> contents (area (vmas mm) <$> l') a = None).
    { intros l' H. apply contents_none. intros v (z & -> & Hz)%list_elem_of_fmap. auto. }
    destruct (decide (start <= a < end_)) as [Ha|Ha].
    + rewrite !Hcov; [done| |]; intros z Hz; apply covers_false; [specialize (HN z Hz)|specialize (HA z Hz)]; lia.
    + rewrite (Hcov (x :: C)); [done|]. intros z Hz. apply covers_false. specialize (HCb z Hz). lia.
Qed.

(** The first area of what is left. *)
Lemma head_after R A C mm : mm_wf R (A ++ C) mm ->
  (if negb (end_of Right A =? 0) then let* p := vma_at (vmas mm) (end_of Right A) in Ret (vm_next p) else Ret (mmap mm)) = Ret (end_of Left C).
Proof.
  intros Hwf. destruct (mm_wf_nodup _ _ _ _ Hwf) as [_ H0]. destruct A as [|x A _] using rev_ind.
  - cbn [end_of last default Z.eqb negb]. rewrite (wf_mmap _ _ _ _ Hwf). done.
  - rewrite end_right_snoc. rewrite <- app_assoc in Hwf. destruct (wf_list _ _ _ _ Hwf A x C eq_refl) as (Hx & _ & Hn).
    rewrite (proj2 (Z.eqb_neq x 0)) by (intros ->; apply H0; set_solver). cbn [negb]. rewrite vma_at_area by done. cbn [obind]. by rewrite Hn.
Qed.

Definition munmap_args (start len : Z) : Prop := start mod PAGE_SIZE = 0 /\ 0 <= start /\ 0 < len /\ start + len <= TASK_SIZE.

Lemma munmap_end start len : munmap_args start len ->
  start + PAGE_ALIGN len <= TASK_SIZE /\ 0 < PAGE_ALIGN len /\ (start + PAGE_ALIGN len) mod PAGE_SIZE = 0 /\ u32 (start + PAGE_ALIGN len) = start + PAGE_ALIGN len.
Proof.
  intros (Hs & Hs0 & Hl & Hle). unfold TASK_SIZE in *. destruct (page_align_up len) as [Hu Hm]; [lia|unfold PAGE_SIZE, U32_MAX; lia|].
  assert (Hb : PAGE_ALIGN len <= 3221225472 - 16777216 - start).
  { apply page_align_le; [lia|by apply sub_pages|unfold PAGE_SIZE, U32_MAX; lia]. }
  split_and!; [lia|lia| |unfold wrap; apply Z.mod_small; lia]. rewrite Zplus_mod, Hs, Hm. done.
Qed.

(** What [do_munmap] does: on success the range is not mapped any more; an error changes
    nothing. *)
Definition unmapped_by (r start len : Z) (old new : Z -> option page) : Prop :=
  (r = 0 /\ forall a, new a = if decide (start <= a < start + PAGE_ALIGN len) then None else old a) \/ (r <> 0 /\ forall a, new a = old a).

Record munmap_result (l : list Z) (mm : mm_struct) (tsk : task_struct) (start len : Z) (l' : list Z) (mm' : mm_struct) (tsk' : task_struct) (r : Z) : Prop := {
  mr_space : space l' mm';
  mr_kept : cache_kept mm l mm' l';
  mr_cache : cache_ok mm' l' tsk';
  mr_task : task_mm tsk' = task_mm tsk /\ task_flags tsk' = task_flags tsk;
  mr_seq : vmacache_seqnum mm <= vmacache_seqnum mm' <= vmacache_seqnum mm + 1;
  mr_maps : unmapped_by r start len (maps mm l) (maps mm' l')
}.

(** A call that only split areas. *)
Lemma munmap_only_split l mm tsk start len l' mm' tsk' r : resplit mm l mm' l' -> cache_ok mm' l' tsk' ->
  task_mm tsk' = task_mm tsk -> task_flags tsk' = task_flags tsk -> r <> 0 -> munmap_result l mm tsk start len l' mm' tsk' r.
Proof.
  intros Hre Hc Hm Hf Hr. pose proof Hre as [Hsp Hmap _ Hsq _]. split; [done|by apply resplit_cache|done|done|lia|by right].
Qed.

(** A call that finds nothing to do. *)
Lemma munmap_nothing l mm tsk start len tsk' : space l mm -> cache_ok mm l tsk' -> task_mm tsk' = task_mm tsk -> task_flags tsk' = task_flags tsk ->
  (forall z, z ∈ l -> vm_end (area (vmas mm) z) <= start \/ start + PAGE_ALIGN len <= vm_start (area (vmas mm) z)) ->
  munmap_result l mm tsk start len l mm tsk' 0.
Proof.
  intros Hsp Hc Hm Hf Hout. split; [done|apply cache_kept_refl|done|done|lia|]. left. split; [done|]. intros a. case_decide as Ha; [|done].
  apply contents_none. intros v (z & -> & Hz)%list_elem_of_fmap. apply covers_false. specialize (Hout z Hz). lia.
Qed.

Lemma munmap_check start len : 0 <= start < 2 ^ 32 -> 0 <= len < 2 ^ 32 ->
  negb (Z.land start (PAGE_SIZE - 1) =? 0) || (TASK_SIZE <? start) || (u32 (TASK_SIZE - start) <? len) = false ->
  PAGE_ALIGN len <> 0 -> munmap_args start len.
Proof.
  intros Hs Hl Hchk Hal. rewrite !orb_false_iff, negb_false_iff, Z.eqb_eq, !Z.ltb_ge, land_page_offset in Hchk. destruct Hchk as [[Hm Ht] Hle].
  assert (Hu : u32 (TASK_SIZE - start) = TASK_SIZE - start) by (unfold TASK_SIZE in *; unfold wrap; apply Z.mod_small; lia).
  rewrite Hu in Hle. split_and!; [done|lia| |lia]. destruct (decide (len = 0)) as [->|?]; [done|lia].
Qed.

Lemma munmap_args_check start len : munmap_args start len ->
  negb (Z.land start (PAGE_SIZE - 1) =? 0) || (TASK_SIZE <? start) || (u32 (TASK_SIZE - start) <? len) = false /\ PAGE_ALIGN len <> 0.
Proof.
  intros Hargs. destruct (munmap_end _ _ Hargs) as (_ & Hpos & _). destruct Hargs as (Hm & H0 & Hl & Hle). split; [|lia].
  rewrite !orb_false_iff, negb_false_iff, Z.eqb_eq, !Z.ltb_ge, land_page_offset.
  assert (Hu : u32 (TASK_SIZE - start) = TASK_SIZE - start) by (unfold TASK_SIZE in *; unfold wrap; apply Z.mod_small; lia).
  rewrite Hu. lia.
Qed.

Lemma munmap_refused max calls1 calls2 mm tsk start len : 0 <= start < 2 ^ 32 -> 0 <= len < 2 ^ 32 -> ~ munmap_args start len ->
  do_munmap stack_guard_gap max calls1 calls2 mm tsk start len = Ret (mm, tsk, - EINVAL).
Proof.
  intros Hs Hl Hno. unfold do_munmap. destruct (_ || _ || _) eqn:Hchk; [done|]. destruct (Z.eqb_spec (PAGE_ALIGN len) 0) as [|Hal]; [done|].
  by destruct Hno; apply munmap_check.
Qed.

Lemma do_munmap_spec max calls1 calls2 l mm tsk start len : 0 <= stack_guard_gap < 2 ^ 32 -> space l mm -> cache_ok mm l tsk ->
  vmacache_seqnum mm + 1 < 2 ^ 64 -> 0 <= start < 2 ^ 32 -> 0 <= len < 2 ^ 32 ->
  calls_fresh l calls1 -> calls_fresh l calls2 -> (new_vma calls1 = new_vma calls2 -> new_vma calls1 = 0) ->
  exists mm' tsk' r l', do_munmap stack_guard_gap max calls1 calls2 mm tsk start len = Ret (mm', tsk', r)
    /\ munmap_result l mm tsk start len l' mm' tsk' r
    /\ (munmap_args start len -> calls_succeed calls1 -> calls_succeed calls2 -> map_count mm < max -> r = 0).
Proof.
  intros HG Hsp Hc Hmax Hst Hln Hfr1 Hfr2 Hne. unfold do_munmap.
  destruct (_ || _ || _) eqn:Hchk.
  { exists mm, tsk, (- EINVAL), l. split_and!; [done|by apply munmap_only_split; [apply resplit_refl|..]|].
    intros Hargs. destruct (munmap_args_check _ _ Hargs) as [Hok _]. congruence. }
  destruct (Z.eqb_spec (PAGE_ALIGN len) 0) as [Hal|Hal].
  { exists mm, tsk, (- EINVAL), l. split_and!; [done|by apply munmap_only_split; [apply resplit_refl|..]|].
    intros Hargs. by destruct (munmap_args_check _ _ Hargs) as [_ Hok]. }
  pose proof (munmap_check _ _ Hst Hln Hchk Hal) as Hargs. destruct (munmap_end _ _ Hargs) as (Hte & Hpos & Hem & Heq). destruct Hargs as (Hsm & _).
  pose proof Hsp as [[R Hwf] _ Hsq]. destruct (space_nodup _ _ Hsp) as [_ H0].
  destruct (find_vma_split stack_guard_gap R l mm tsk start Hwf Hc Hsq) as (tsk1 & A & B & -> & HA & HB & -> & Hc1 & Htm & Htf).
  rewrite Forall_forall in HA, HB. cbn [obind]. destruct B as [|x B].
  { exists mm, tsk1, 0, (A ++ []). split_and!; [done| |done]. apply munmap_nothing; try done. intros z Hz. rewrite app_nil_r in Hz. left. by apply HA. }
  change (end_of Left (x :: B)) with x. rewrite (proj2 (Z.eqb_neq x 0)) by (intros ->; apply H0; set_solver).
  rewrite vma_at_area by (eapply (listed_readable _ _ x); [apply Hwf|set_solver]). cbn [obind]. rewrite Heq.
  set (end_ := start + PAGE_ALIGN len) in *. destruct (space_order _ _ _ _ Hsp) as (_ & _ & HoB).
  destruct (Z.leb_spec end_ (vm_start (area (vmas mm) x))) as [Hout|Hin].
  { exists mm, tsk1, 0, (A ++ x :: B). split_and!; [done| |done]. apply munmap_nothing; try done. fold end_.
    intros z [Hz|[->|Hz]%elem_of_cons]%elem_of_app; [left; by apply HA|by right|]. right. specialize (HoB z Hz).
    destruct (wf_areas _ _ _ _ Hwf x) as [? _]; [set_solver|]. lia. }
  destruct (split_first_spec max A x B mm calls1 start end_) as (mm1 & err1 & prev & -> & Hfirst); try done; [apply HB, list_elem_of_here|lia|].
  cbn [obind]. destruct Hfirst as [(Herr & Hre & Hsuc)|(-> & A1 & x1 & C1 & Hre1 & -> & HA1 & Hx1 & Hfrom)].
  { rewrite (proj2 (Z.eqb_neq err1 0)) by done. cbn [negb]. exists mm1, tsk1, err1, (A ++ x :: B). split_and!; [done| |].
    - apply munmap_only_split; try done. by eapply cache_kept_ok; [apply resplit_cache|].
    - intros _ Hs1 _ Hlt. specialize (Hsuc Hs1). lia. }
  cbn [Z.eqb negb]. assert (Hc2 : cache_ok mm1 (A1 ++ x1 :: C1) tsk1) by (by eapply cache_kept_ok; [apply resplit_cache|]).
  destruct (split_last_spec A1 x1 C1 mm1 calls2 tsk1 start end_) as (mm2 & tsk2 & err2 & -> & Htm2 & Htf2 & Hlast); try done; [apply Hre1|lia| |].
  { destruct Hfr2 as [?|[Hv Hn]]; [by left|]. right. split; [done|]. intros [Hz|Hz]%Hfrom; [done|]. apply valid_neq0 in Hv. by rewrite Hne in Hz. }
  cbn [obind]. destruct Hlast as [(Herr & Hno & Hc3 & Hre2)|(-> & C & N & Hre2 & HC & Hc3 & HA2 & HC2 & HN2)].
  { rewrite (proj2 (Z.eqb_neq err2 0)) by done. cbn [negb]. exists mm2, tsk2, err2, (A1 ++ x1 :: C1). split_and!; [done| |by intros _ _ ?].
    apply munmap_only_split; [by eapply resplit_trans|done|by rewrite Htm2|by rewrite Htf2|done]. }
  cbn [Z.eqb negb]. assert (Hre : resplit mm (A ++ x :: B) mm2 (A1 ++ C ++ N)) by by eapply resplit_trans.
  pose proof Hre as [Hsp2 Hmaps Hma2 Hsq2 _]. pose proof Hsp2 as [[R2 Hwf2] _ _]. rewrite (head_after R2 A1 (C ++ N)) by done. cbn [obind].
  assert (HCN : end_of Left (C ++ N) = end_of Left C) by by destruct C. rewrite HCN.
  destruct (unmap_range A1 C N mm2 start end_) as (mm3 & Hrun & Hsp3 & Hma3 & Hsq3 & Hmaps3); try done; [lia|].
  unfold unmap_areas in Hrun. destruct (detach_vmas_to_be_unmapped _ _ _ _ _) as [mmd| | |]; cbn [obind] in Hrun |- *; [|done..].
  rewrite Hrun. cbn [obind]. exists mm3, tsk2, 0, (A1 ++ N). split_and!; [done| |done].
  split; [done| | |by rewrite Htm2, Htf2|lia|].
  - split; [by rewrite Hma3|]. right. lia.
  - eapply cache_kept_ok; [|exact Hc3]. split; [done|]. right. lia.
  - left. split; [done|]. intros a. rewrite Hmaps3. fold end_. case_decide; [done|]. apply Hmaps.
Qed.
End Munmap.
