(* ===== verification/AddressChange.v ===== *)
(** * What [__vma_adjust] does without an area to insert *)
From Stdlib Require Import ZArith Lia Bool Sorted.
From stdpp Require Import base numbers list sorting gmap.
From S2P Require Import Prelude RBTree RBTreeShape RBTreeRep RBTreeAugment RBTreeInsert RBTreeErase RBTreeRemove RBTreeCallbacks RBTreeWalk RBTreeProps RBTreeSearch VmArea IntervalTree IntervalTreeSpec AddressSpace AddressSearch AddressGaps AddressLink AddressUnmap AddressFind AddressAdjust AddressMap AddressSplit AddressMunmap.

Section Change.
Variable stack_guard_gap : Z.
Abbreviation mm_wf := (mm_wf stack_guard_gap).
Abbreviation mm_wf_but := (mm_wf_but stack_guard_gap).

(** ** Making the gap right *)
Definition highest_right (mm : mm_struct) (l : list Z) : Prop :=
  highest_vm_end mm = from_option (fun x => vm_end (area (vmas mm) x)) 0 (last l).

Lemma but_wf vs0 R A B mm : mm_wf_but vs0 R A B mm -> highest_right mm (A ++ B) ->
  (B <> [] -> own_gap stack_guard_gap (vmas mm) (end_of Left B) = own_gap stack_guard_gap vs0 (end_of Left B)) -> mm_wf R (A ++ B) mm.
Proof.
  intros [Ht Hv Hk Hs Hl Hok Hap Hm _ Hc] Hh Hgap. split; try done. apply (values_right_ext _ vs0); [|done].
  intros z Hz. destruct (decide (z = end_of Left B)) as [->|Hzb]; [|by apply Hs]. apply Hgap. intros ->.
  change (end_of Left []) with 0 in Hz. destruct Ht as (w & Ho & _ & _ & He). destruct (own_elems _ _ _ Ho) as [_ Hval].
  rewrite He in Hval. rewrite Forall_forall in Hval. by apply (valid_neq0 0 (Hval 0 Hz)).
Qed.

Lemma gap_update_but vs0 R A y B mm : mm_wf_but vs0 R A (y :: B) mm ->
  exists d', vma_gap_update stack_guard_gap mm y = Ret (set_mm_rb mm (set_data (mm_rb mm) d'))
    /\ mm_wf R (A ++ y :: B) (set_mm_rb mm (set_data (mm_rb mm) d')).
Proof.
  intros Hwf. pose proof Hwf as [Ht Hv Hk Hs Hl Hok Hap Hm Hh Hc].
  assert (Hy : y ∈ A ++ y :: B) by (apply elem_of_app; right; apply list_elem_of_here).
  assert (H0 : 0 ∉ A ++ y :: B).
  { destruct Ht as (w & Ho & _ & _ & He). destruct (own_elems _ _ _ Ho) as [_ Hval]. rewrite He in Hval.
    rewrite Forall_forall in Hval. intros H0. by apply (valid_neq0 0 (Hval 0 H0)). }
  destruct (rejoin_gaps stack_guard_gap R (A ++ y :: B) mm vs0 y Ht Hv) as (d' & Hd & Ht' & Hv'); try done.
  - intros z Hz. split; [by apply Hk|by eapply listed_readable].
  - by right.
  - rewrite (proj2 (Z.eqb_neq y 0)) in Hd by (by intros ->). exists d'. split; [done|]. split; try done. by apply Hh.
Qed.

(** ** One area grows *)

(** No area is removed or moves with the end of [x]. *)
Lemma plan_none mm x end_ expand : is_Some (vmas mm !! x) -> vm_end (area (vmas mm) x) <= end_ ->
  (let next := vm_next (area (vmas mm) x) in
   next <> 0 -> is_Some (vmas mm !! next) /\ end_ <= vm_start (area (vmas mm) next) < vm_end (area (vmas mm) next)) ->
  plan_adjust mm x end_ 0 expand = Ret (mk_plan x (vm_next (area (vmas mm) x)) end_ 0 0 0 0).
Proof.
  intros Hx He Hn. unfold plan_adjust. rewrite vma_at_area by done. cbn [obind].
  destruct (Z.eqb_spec (vm_next (area (vmas mm) x)) 0) as [Hz|Hz]; cbn [negb andb Z.eqb]; [done|].
  destruct (Hn Hz) as [Hns Hnb]. rewrite vma_at_area by done. cbn [obind].
  rewrite (proj2 (Z.leb_gt _ _)) by lia. rewrite !(proj2 (Z.ltb_ge _ _)) by lia. done.
Qed.

(** How the areas [l'] of [mm'] come from those of [mm]: one changed, the others as they were. *)
Record changed (mm mm' : mm_struct) (l' : list Z) (x : Z) (v' : vm_area_struct) : Prop := {
  ch_wf : exists R', mm_wf R' l' mm';
  ch_area : bare (area (vmas mm') x) = bare v';
  ch_others : forall z, z ∈ l' -> z <> x -> bare (area (vmas mm') z) = bare (area (vmas mm) z);
  ch_addr : mm_addr mm' = mm_addr mm
}.

Section Grow.
Context (R : nodes) (A : list Z) (x : Z) (B : list Z) (mm : mm_struct).
Hypothesis wf : mm_wf R (A ++ x :: B) mm.
Abbreviation v := (area (vmas mm) x).

Lemma grow_order : is_Some (vmas mm !! x) /\ x <> 0 /\ (0 <= vm_start v < vm_end v /\ vm_end v < 2 ^ 32) /\ vm_next v = end_of Left B
  /\ (forall z, z ∈ A -> vm_end (area (vmas mm) z) <= vm_start v) /\ (forall z, z ∈ B -> vm_end v <= vm_start (area (vmas mm) z)).
Proof.
  destruct (wf_list _ _ _ _ wf A x B eq_refl) as (Hx & _ & Hn). destruct (mm_wf_nodup _ _ _ _ wf) as [_ H0].
  assert (Hxin : x ∈ A ++ x :: B) by (apply elem_of_app; right; apply list_elem_of_here).
  destruct (wf_areas _ _ _ _ wf x Hxin) as (Hb & Hb2 & _). destruct (wf_sides _ _ _ _ _ _ wf) as [HA HB].
  split_and!; try done; [by intros ->|lia|lia|..].
  - intros z Hz. by apply HA.
  - intros z Hz. by apply HB.
Qed.

Lemma grow_plan e expand : vm_end v <= e -> (forall z, z ∈ B -> e <= vm_start (area (vmas mm) z)) ->
  plan_adjust mm x e 0 expand = Ret (mk_plan x (vm_next v) e 0 0 0 0).
Proof.
  intros He HB. destruct grow_order as (Hxs & _ & _ & Hn & _). apply plan_none; [done|done|].
  cbv zeta. intros Hne. rewrite Hn in Hne |- *. assert (Hin : end_of Left B ∈ B) by (apply end_in; by intros ->).
  assert (Hin' : end_of Left B ∈ A ++ x :: B) by set_solver. destruct (wf_areas _ _ _ _ wf _ Hin') as [? _]. specialize (HB _ Hin).
  split; [by apply (listed_readable _ _ _ (wf_list _ _ _ _ wf) Hin')|lia].
Qed.

(** Upwards, into the gap after it (case 2 of [vma_merge]). *)
Lemma grow_up clone_err e : vm_end v < e < 2 ^ 32 -> (forall z, z ∈ B -> e <= vm_start (area (vmas mm) z)) ->
  exists mm', __vma_adjust stack_guard_gap clone_err mm x (vm_start v) e (vm_pgoff v) 0 x = Ret (mm', 0)
    /\ changed mm mm' (A ++ x :: B) x (set_vm_end v e) /\ vmacache_seqnum mm' = vmacache_seqnum mm.
Proof.
  intros He HB. destruct grow_order as (Hxs & Hx0 & Hb & Hn & HA & _). unfold __vma_adjust. rewrite grow_plan by (done || lia).
  cbn [obind exporter importer import_anon_vma Z.eqb negb pl_vma pl_next pl_end remove_next adjust_next].
  unfold adjust_pass, put_vma. rewrite vma_at_area by done. cbn [obind Z.eqb negb].
  assert (Hv : set_vm_pgoff (set_vm_end (set_vm_start v (vm_start v)) e) (vm_pgoff v) = set_vm_end v e) by by destruct v. rewrite Hv.
  rewrite Z.eqb_refl. cbn [negb obind]. rewrite (proj2 (Z.eqb_neq e (vm_end v))) by lia. cbn [negb]. rewrite Hn.
  pose proof (rebound_one stack_guard_gap R A x B mm (A ++ [x]) B (set_vm_end v e) wf) as Hbut. cbn in Hbut.
  assert (Hbut' : mm_wf_but (vmas mm) R (A ++ [x]) B (set_vmas mm (<[x := set_vm_end v e]> (vmas mm)))).
  { apply Hbut; try done; [by rewrite <- app_assoc|lia|by left|by right]. }
  clear Hbut. set (mm1 := set_vmas mm _) in *.
  assert (Har : forall z, area (vmas mm1) z = if decide (z = x) then set_vm_end v e else area (vmas mm) z) by (intros z; apply area_insert).
  destruct B as [|b B'] eqn:HBeq.
  - change (end_of Left []) with 0. cbn [Z.eqb]. cbn [vmas mm1 set_vmas]. rewrite vma_at_area by (rewrite lookup_insert_eq; by eexists). cbn [obind].
    rewrite area_insert, decide_True, vm_end_gap_spec by done. unfold adjust_next_gap. cbn [Z.eqb negb andb obind].
    eexists. split; [done|]. split; [|done]. split; [|..].
    + exists R. replace (A ++ [x]) with ((A ++ [x]) ++ []) by apply app_nil_r. apply (but_wf (vmas mm)); [|..].
      * destruct Hbut' as [? ? ? ? ? ? ? ? ? ?]. split; try done.
      * unfold highest_right. rewrite app_nil_r, last_snoc. cbn [from_option highest_vm_end set_highest_vm_end vmas]. fold mm1. by rewrite Har, decide_True.
      * done.
    + cbn [vmas set_highest_vm_end]. fold mm1. by rewrite Har, decide_True.
    + intros z Hz Hzx. cbn [vmas set_highest_vm_end]. by rewrite Har, decide_False.
    + done.
  - change (end_of Left (b :: B')) with b. rewrite (proj2 (Z.eqb_neq b 0)).
    2:{ intros ->. destruct (mm_wf_nodup _ _ _ _ wf) as [_ H0]. apply H0. set_solver. }
    destruct (gap_update_but _ _ _ _ _ _ Hbut') as (d' & Hd & Hwf'). cbn [Z.eqb] in Hd |- *. fold mm1. rewrite Hd. cbn [obind].
    unfold adjust_next_gap. cbn [Z.eqb negb andb obind]. eexists. split; [done|]. split; [|done]. rewrite <- app_assoc in Hwf'. split.
    + by exists R.
    + cbn [vmas set_mm_rb]. by rewrite Har, decide_True.
    + intros z Hz Hzx. cbn [vmas set_mm_rb]. by rewrite Har, decide_False.
    + done.
Qed.

(** Downwards, into the gap before it (case 3). *)
Lemma grow_down clone_err s pgoff : 0 <= s < vm_start v -> (forall z, z ∈ A -> vm_end (area (vmas mm) z) <= s) ->
  exists mm', __vma_adjust stack_guard_gap clone_err mm x s (vm_end v) pgoff 0 x = Ret (mm', 0)
    /\ changed mm mm' (A ++ x :: B) x (set_vm_pgoff (set_vm_start v s) pgoff) /\ vmacache_seqnum mm' = vmacache_seqnum mm.
Proof.
  intros Hs HA. destruct grow_order as (Hxs & Hx0 & Hb & Hn & _ & HB). unfold __vma_adjust. rewrite grow_plan by (done || lia).
  cbn [obind exporter importer import_anon_vma Z.eqb negb pl_vma pl_next pl_end remove_next adjust_next].
  unfold adjust_pass, put_vma. rewrite vma_at_area by done. cbn [obind Z.eqb negb].
  rewrite Z.eqb_refl. cbn [negb obind]. rewrite (proj2 (Z.eqb_neq s (vm_start v))) by lia. cbn [negb].
  set (v' := set_vm_pgoff (set_vm_end (set_vm_start v s) (vm_end v)) pgoff).
  assert (Hbut : mm_wf_but (vmas mm) R A (x :: B) (set_vmas mm (<[x := v']> (vmas mm)))).
  { apply (rebound_one stack_guard_gap R A x B mm A (x :: B) v' wf); try done; cbn; (lia || (by left) || (by right)). }
  set (mm1 := set_vmas mm _) in *.
  assert (Har : forall z, area (vmas mm1) z = if decide (z = x) then v' else area (vmas mm) z) by (intros z; apply area_insert).
  destruct (gap_update_but _ _ _ _ _ _ Hbut) as (d' & -> & Hwf'). cbn [obind]. unfold adjust_next_gap. cbn [Z.eqb negb andb obind].
  eexists. split; [done|]. split; [|done]. split.
  - by exists R.
  - cbn [vmas set_mm_rb]. rewrite Har, decide_True by done. unfold v'. by destruct v.
  - intros z Hz Hzx. cbn [vmas set_mm_rb]. by rewrite Har, decide_False.
  - done.
Qed.
End Grow.

(** ** The anonymous memory an area takes over *)
Definition reanon (v v' : vm_area_struct) : Prop := exists a c, v' = set_chain_singular (set_anon_vma v a) c.

Lemma reanon_refl v : reanon v v.
Proof. exists (anon_vma v), (chain_singular v). by destruct v. Qed.

Lemma reanon_fields v v' : reanon v v' -> bare v' = bare v /\ vm_prev v' = vm_prev v /\ vm_next v' = vm_next v.
Proof. intros (a & c & ->). done. Qed.

(** Fields that are not bounds, links or guard gaps may change. *)
Lemma refield_wf R l mm vs' : mm_wf R l mm ->
  (forall z, vm_start (area vs' z) = vm_start (area (vmas mm) z) /\ vm_end (area vs' z) = vm_end (area (vmas mm) z)
    /\ vm_mm (area vs' z) = vm_mm (area (vmas mm) z) /\ vm_start_gap stack_guard_gap (area vs' z) = vm_start_gap stack_guard_gap (area (vmas mm) z)
    /\ vm_prev (area vs' z) = vm_prev (area (vmas mm) z) /\ vm_next (area vs' z) = vm_next (area (vmas mm) z)) ->
  (forall z, is_Some (vmas mm !! z) -> is_Some (vs' !! z)) -> mm_wf R l (set_vmas mm vs').
Proof.
  intros Hwf Hf Hsome. rewrite <- (app_nil_r l) in Hwf |- *. apply (but_wf (vmas mm)); [apply rebound_but; try done|..].
  - intros z Hz. destruct (Hf z) as (_ & _ & _ & _ & -> & ->). split; [|done]. apply Hsome.
    by apply (listed_readable _ _ _ (wf_list _ _ _ _ Hwf) Hz).
  - intros z Hz. unfold area_ok. destruct (Hf z) as (-> & -> & -> & _). by apply (wf_areas _ _ _ _ Hwf).
  - apply (apart_shrink (vmas mm)); [apply Hwf|]. intros z _. destruct (Hf z) as (-> & -> & _). done.
  - intros z Hz _. unfold own_gap. cbn [vmas set_vmas]. destruct (Hf z) as (_ & _ & _ & -> & -> & _).
    by destruct (Hf (vm_prev (area (vmas mm) z))) as (_ & -> & _).
  - unfold highest_right. cbn [highest_vm_end vmas set_vmas]. rewrite (wf_highest _ _ _ _ Hwf). destruct (last _) as [z|]; [|done]. cbn. symmetry. apply Hf.
  - done.
Qed.

Lemma reanon_wf R l mm vs' : mm_wf R l mm -> (forall z, reanon (area (vmas mm) z) (area vs' z) /\ (is_Some (vmas mm !! z) -> is_Some (vs' !! z))) ->
  mm_wf R l (set_vmas mm vs').
Proof. intros Hwf Hre. apply refield_wf; [done| |apply Hre]. intros z. by destruct (Hre z) as [(a & c & ->) _]. Qed.

Lemma import_spec R l mm c e i : mm_wf R l mm -> (e = 0 \/ (e ∈ l /\ i ∈ l)) ->
  exists vs' err, import_anon_vma c mm e i = Ret (set_vmas mm vs', err) /\ (err = 0 \/ err = c)
    /\ mm_wf R l (set_vmas mm vs') /\ (forall z, reanon (area (vmas mm) z) (area vs' z)) /\ (forall z, is_Some (vmas mm !! z) -> is_Some (vs' !! z)).
Proof.
  intros Hwf Hei.
  assert (Hsame : exists vs' err, Ret (mm, 0) = Ret (A := mm_struct * Z) (set_vmas mm vs', err) /\ (err = 0 \/ err = c) /\ mm_wf R l (set_vmas mm vs')
    /\ (forall z, reanon (area (vmas mm) z) (area vs' z)) /\ (forall z, is_Some (vmas mm !! z) -> is_Some (vs' !! z))).
  { exists (vmas mm), 0. destruct mm. split_and!; [done|by left|done|intros z; apply reanon_refl|done]. }
  unfold import_anon_vma. destruct (Z.eqb_spec e 0) as [He|He]; cbn [negb]; [done|]. destruct Hei as [?|[Hel Hil]]; [done|].
  assert (Hes : is_Some (vmas mm !! e)) by by apply (listed_readable _ _ _ (wf_list _ _ _ _ Hwf) Hel).
  assert (His : is_Some (vmas mm !! i)) by by apply (listed_readable _ _ _ (wf_list _ _ _ _ Hwf) Hil).
  rewrite !vma_at_area by done. cbn [obind]. destruct (_ && _); [|done].
  unfold put_vma. rewrite vma_at_area by done. cbn [obind vmas set_vmas].
  assert (Hgen : forall v', reanon (area (vmas mm) i) v' -> forall z, reanon (area (vmas mm) z) (area (<[i := v']> (vmas mm)) z)
    /\ (is_Some (vmas mm !! z) -> is_Some (<[i := v']> (vmas mm) !! z))).
  { intros v' Hv' z. rewrite area_insert. destruct (decide (z = i)) as [->|Hz].
    - split; [done|]. rewrite lookup_insert_eq. by eexists.
    - split; [apply reanon_refl|]. by rewrite lookup_insert_ne. }
  destruct (c =? 0); cbn [negb].
  all: rewrite vma_at_area by (rewrite lookup_insert_eq; by eexists); cbn [obind vmas set_vmas]; rewrite area_insert, decide_True, insert_insert_eq by done.
  - set (v' := set_chain_singular _ _). assert (Hv' : reanon (area (vmas mm) i) v') by (eexists _, _; done).
    exists (<[i := v']> (vmas mm)), 0. split_and!; [done|by left|by apply reanon_wf; [|apply Hgen]|intros z; by apply Hgen..].
  - set (v' := set_chain_singular _ _). assert (Hv' : reanon (area (vmas mm) i) v') by (eexists _, _; unfold v'; by destruct (area (vmas mm) i)).
    exists (<[i := v']> (vmas mm)), c. split_and!; [done|by right|by apply reanon_wf; [|apply Hgen]|intros z; by apply Hgen..].
Qed.

(** ** Moving a boundary (cases 4 and 5) *)
Definition moved_pages (e s : Z) : Z := (e - s) / PAGE_SIZE.

Lemma moved_pages_shift e s : e mod PAGE_SIZE = 0 -> s mod PAGE_SIZE = 0 -> Z.shiftl (moved_pages e s) PAGE_SHIFT = e - s.
Proof.
  intros He Hs. unfold moved_pages. rewrite Z.shiftl_mul_pow2 by done. change (2 ^ PAGE_SHIFT) with PAGE_SIZE.
  pose proof (sub_pages e s He Hs) as Hm. pose proof (Z.div_mod (e - s) PAGE_SIZE). pose proof page_size_pos. lia.
Qed.

Lemma moved_pages_plan e s : e mod PAGE_SIZE = 0 -> s mod PAGE_SIZE = 0 ->
  Z.shiftr (e - s) PAGE_SHIFT = moved_pages e s /\ - Z.shiftr (s - e) PAGE_SHIFT = moved_pages e s.
Proof.
  intros He Hs. unfold moved_pages. rewrite !Z.shiftr_div_pow2 by done. change (2 ^ PAGE_SHIFT) with PAGE_SIZE. split; [done|].
  pose proof (sub_pages s e Hs He) as Hm. pose proof page_size_pos. apply Z.mod_divide in Hm as [q Hq]; [|lia].
  replace (e - s) with (- q * PAGE_SIZE) by lia. rewrite Hq, !Z.div_mul by lia. lia.
Qed.

(** The areas after the first part of the boundary moved: the second part. *)
Definition moved_next (v : vm_area_struct) (e : Z) : vm_area_struct := set_vm_pgoff (set_vm_start v e) (u32 (vm_pgoff v + moved_pages e (vm_start v))).

Lemma move_wf R A x n B mm e vs' : 0 <= stack_guard_gap < 2 ^ 32 -> mm_wf R (A ++ x :: n :: B) mm ->
  let v := area (vmas mm) x in let w := area (vmas mm) n in
  vm_end v = vm_start w -> vm_start v < e < vm_end w ->
  area vs' x = set_vm_end v e -> area vs' n = moved_next w e -> (forall z, z <> x -> z <> n -> area vs' z = area (vmas mm) z) ->
  (forall z, is_Some (vmas mm !! z) -> is_Some (vs' !! z)) -> mm_wf R (A ++ x :: n :: B) (set_vmas mm vs').
Proof.
  intros HG wf v w Hvw He Hax Han Har Hsome. assert (wf2 : mm_wf R ((A ++ [x]) ++ n :: B) mm) by by rewrite <- app_assoc.
  destruct (wf_sides _ _ _ _ _ _ wf) as [HxA HxB]. destruct (wf_sides _ _ _ _ _ _ wf2) as [HnA HnB]. fold v in HxA, HxB. fold w in HnA, HnB.
  destruct (wf_list _ _ _ _ wf2 (A ++ [x]) n B eq_refl) as (_ & Hnp & _). rewrite end_right_snoc in Hnp. fold w in Hnp.
  assert (Hxin : x ∈ (A ++ [x]) ++ n :: B) by set_solver. assert (Hnin : n ∈ (A ++ [x]) ++ n :: B) by set_solver.
  destruct (wf_areas _ _ _ _ wf2 x Hxin) as (Hx1 & Hx2 & Hx3), (wf_areas _ _ _ _ wf2 n Hnin) as (Hn1 & Hn2 & Hn3). fold v in Hx1, Hx2, Hx3. fold w in Hn1, Hn2, Hn3.
  destruct (mm_wf_nodup _ _ _ _ wf2) as [_ H0]. assert (Hx0 : x <> 0) by (by intros ->). assert (Hxn : x <> n) by (apply HnA; set_solver).
  assert (Hcase : forall z, z = x \/ z = n \/ (z <> x /\ z <> n)) by (intros z; destruct (decide (z = x)), (decide (z = n)); auto).
  change (A ++ x :: n :: B) with (A ++ [x] ++ n :: B). rewrite app_assoc. apply (but_wf (vmas mm)); [apply rebound_but; [done|..]|..].
  - intros z Hz. split; [by apply Hsome, (listed_readable _ _ _ (wf_list _ _ _ _ wf2) Hz)|].
    destruct (Hcase z) as [->|[->|[? ?]]]; [by rewrite Hax|by rewrite Han|by rewrite Har].
  - intros z Hz. destruct (Hcase z) as [->|[->|[? ?]]]; [rewrite Hax|rewrite Han|rewrite Har by done; by apply (wf_areas _ _ _ _ wf2)];
      (split; [cbn; lia|split; [cbn; lia|done]]).
  - pose proof (wf_apart _ _ _ _ wf) as Hap. unfold apart in Hap |- *. rewrite <- app_assoc. cbn [app].
    apply StronglySorted_app in Hap as (HAB & HsA & HsB). inversion_clear HsB as [|? ? HsB' HFx]. inversion_clear HsB' as [|? ? HsB HFn].
    rewrite Forall_forall in HFn. apply StronglySorted_app.
    assert (Hext : forall K, (forall z, z ∈ K -> z <> x /\ z <> n) -> apart (vmas mm) K -> apart vs' K).
    { intros K HK H. apply (apart_shrink (vmas mm)); [done|]. intros z Hz. destruct (HK z Hz). by rewrite Har. }
    assert (HAne : forall z, z ∈ A -> z <> x /\ z <> n) by (intros z Hz; split; [by apply HxA|apply HnA; set_solver]).
    assert (HBne : forall z, z ∈ B -> z <> x /\ z <> n) by (intros z Hz; split; [apply HxB; set_solver|by apply HnB]).
    split_and!; [|by apply Hext|constructor; [constructor; [by apply Hext|]|]].
    + intros a b Ha Hbin. destruct (HAne a Ha). rewrite (Har a) by done. destruct (HxA a Ha) as (_ & _ & Hle).
      apply elem_of_cons in Hbin as [->|[->|Hbin]%elem_of_cons]; [by rewrite Hax|rewrite Han; cbn; lia|].
      destruct (HBne b Hbin). rewrite Har by done. apply HAB; [done|set_solver].
    + apply Forall_forall. intros b Hbin. destruct (HBne b Hbin). rewrite Han, Har by done. cbn. by apply (HFn b Hbin).
    + constructor; [rewrite Hax, Han; cbn; lia|]. apply Forall_forall. intros b Hbin. destruct (HBne b Hbin). rewrite Hax, Har by done. cbn.
      specialize (HFn b Hbin). simpl in HFn. fold w in HFn. lia.
  - intros z Hz Hzn. change (end_of Left (n :: B)) with n in Hzn. apply own_gap_ext.
    1-3: destruct (Hcase z) as [->|[->|[? ?]]]; [by rewrite Hax|done|by rewrite Har].
    intros Hp. destruct (Hcase (vm_prev (area (vmas mm) z))) as [Hpx|[Hpn|[? ?]]]; [|by rewrite Hpn, Han|by rewrite Har].
    destruct Hzn. rewrite <- app_assoc in Hz. apply (listed_prev (vmas mm) A x (n :: B) z); [apply wf|by destruct (mm_wf_nodup _ _ _ _ wf)|done|done|done].
  - intros _ z Hz. destruct (Hcase z) as [->|[->|[? ?]]]; [|by rewrite Han|by rewrite Har]. exfalso.
    destruct (HxB x) as [? _]; [by apply last_Some_elem_of|done].
  - unfold highest_right. cbn [highest_vm_end vmas set_vmas]. rewrite (wf_highest _ _ _ _ wf2), last_app.
    destruct (last (n :: B)) as [z|] eqn:Hlast; [|by apply last_None in Hlast]. cbn [from_option].
    destruct (Hcase z) as [->|[->|[? ?]]]; [|by rewrite Han|by rewrite Har]. exfalso. destruct (HxB x) as [? _]; [by apply last_Some_elem_of|done].
  - intros _. change (end_of Left (n :: B)) with n. cbn [vmas set_vmas]. unfold own_gap. rewrite Han. change (vm_prev (moved_next w e)) with (vm_prev w). fold w. rewrite Hnp.
    rewrite (proj2 (Z.eqb_neq x 0)) by done. rewrite Hax. fold v. cbn [vm_end set_vm_end].
    pose proof (vm_start_gap_bounds stack_guard_gap w ltac:(lia) HG). pose proof (vm_start_gap_bounds stack_guard_gap (moved_next w e) ltac:(cbn; lia) HG) as Hm.
    change (vm_start (moved_next w e)) with e in Hm. lia.
Qed.

Lemma pass_move R A x n B mm e : 0 <= stack_guard_gap < 2 ^ 32 -> mm_wf R (A ++ x :: n :: B) mm ->
  let v := area (vmas mm) x in let w := area (vmas mm) n in
  vm_end v = vm_start w -> vm_start v < e < vm_end w -> e <> vm_end v -> e mod PAGE_SIZE = 0 -> vm_start w mod PAGE_SIZE = 0 ->
  exists mm', adjust_pass stack_guard_gap mm x n (vm_start v) e (vm_pgoff v) 0 0 (moved_pages e (vm_start w)) = Ret (mm', n)
    /\ mm_wf R (A ++ x :: n :: B) mm' /\ area (vmas mm') x = set_vm_end v e /\ area (vmas mm') n = moved_next w e
    /\ (forall z, z <> x -> z <> n -> area (vmas mm') z = area (vmas mm) z) /\ mm_addr mm' = mm_addr mm /\ vmacache_seqnum mm' = vmacache_seqnum mm.
Proof.
  intros HG wf v w Hvw He Hne Hem Hwm. destruct (grow_order R A x (n :: B) mm wf) as (Hxs & Hx0 & Hb & Hn & HA & HxB). fold v in Hb, Hn, HA, HxB.
  assert (wf2 : mm_wf R ((A ++ [x]) ++ n :: B) mm) by by rewrite <- app_assoc.
  destruct (grow_order R (A ++ [x]) n B mm wf2) as (Hns & Hn0 & Hwb & _ & HnA & HnB). fold w in Hwb, HnA, HnB.
  destruct (mm_wf_nodup _ _ _ _ wf) as [Hnd H0]. apply NoDup_app in Hnd as (_ & HndA & [HndB HndB']%NoDup_cons). apply NoDup_cons in HndB' as [HnB' _].
  assert (Hxn : x <> n) by (intros ->; apply HndB, list_elem_of_here).
  assert (Hadj : moved_pages e (vm_start w) <> 0) by (intros Hz; pose proof (moved_pages_shift e (vm_start w) Hem Hwm) as Hs; rewrite Hz, Z.shiftl_0_l in Hs; lia).
  unfold adjust_pass, put_vma. rewrite vma_at_area by done. fold v. cbn [obind].
  rewrite (proj2 (Z.eqb_neq _ _) Hadj). cbn [negb vmas set_vmas]. rewrite vma_at_area by (rewrite lookup_insert_ne by done; done). cbn [obind].
  rewrite area_insert, decide_False by done. fold w. rewrite (moved_pages_shift e (vm_start w) Hem Hwm).
  replace (u32 (vm_start w + (e - vm_start w))) with e by (unfold wrap; rewrite Z.mod_small; lia). fold (moved_next w e).
  assert (Hv : set_vm_pgoff (set_vm_end (set_vm_start v (vm_start v)) e) (vm_pgoff v) = set_vm_end v e) by by destruct v. rewrite Hv.
  rewrite (Z.eqb_refl (vm_start v)). cbn [negb Z.eqb obind]. rewrite (proj2 (Z.eqb_neq e (vm_end v))), (proj2 (Z.eqb_neq n 0)) by done. cbn [negb obind].
  set (vs' := <[n := moved_next w e]> (<[x := set_vm_end v e]> (vmas mm))).
  assert (Hax : area vs' x = set_vm_end v e) by (unfold vs'; by rewrite area_insert, decide_False, area_insert, decide_True).
  assert (Han : area vs' n = moved_next w e) by (unfold vs'; by rewrite area_insert, decide_True).
  assert (Har : forall z, z <> x -> z <> n -> area vs' z = area (vmas mm) z) by (intros z ? ?; unfold vs'; by rewrite !area_insert, !decide_False).
  exists (set_vmas mm vs'). split_and!; [done|apply (move_wf R A x n B mm e); try done; intros z Hz; unfold vs'; rewrite !lookup_insert_is_Some'; auto|done|done|done|done|done].
Qed.

(** Nothing but the anonymous memory changed. *)
Definition untouched (mm mm' : mm_struct) (l : list Z) : Prop :=
  (exists R', mm_wf R' l mm') /\ (forall z, z ∈ l -> bare (area (vmas mm') z) = bare (area (vmas mm) z))
  /\ mm_addr mm' = mm_addr mm /\ vmacache_seqnum mm' = vmacache_seqnum mm /\ mm_rb mm' = mm_rb mm.

(** The boundary between [x] and the area [n] right after it moves to [e]. *)
Lemma move_boundary R A x n B mm clone_err e expand : 0 <= stack_guard_gap < 2 ^ 32 -> mm_wf R (A ++ x :: n :: B) mm ->
  let v := area (vmas mm) x in let w := area (vmas mm) n in
  vm_end v = vm_start w -> vm_start v < e < vm_end w -> e <> vm_end v -> e mod PAGE_SIZE = 0 -> vm_start w mod PAGE_SIZE = 0 ->
  exists mm' err, __vma_adjust stack_guard_gap clone_err mm x (vm_start v) e (vm_pgoff v) 0 expand = Ret (mm', err)
    /\ ((err <> 0 /\ clone_err = err /\ untouched mm mm' (A ++ x :: n :: B))
        \/ (err = 0 /\ (exists R', mm_wf R' (A ++ x :: n :: B) mm') /\ bare (area (vmas mm') x) = bare (set_vm_end v e)
            /\ bare (area (vmas mm') n) = bare (moved_next w e)
            /\ (forall z, z <> x -> z <> n -> bare (area (vmas mm') z) = bare (area (vmas mm) z))
            /\ mm_addr mm' = mm_addr mm /\ vmacache_seqnum mm' = vmacache_seqnum mm)).
Proof.
  intros HG wf v w Hvw He Hne Hem Hwm. destruct (grow_order R A x (n :: B) mm wf) as (Hxs & Hx0 & Hb & Hn & _ & _). fold v in Hb, Hn.
  change (end_of Left (n :: B)) with n in Hn.
  assert (Hns : is_Some (vmas mm !! n)) by (eapply (listed_readable _ _ n); [apply wf|set_solver]).
  assert (Hn0 : n <> 0) by (intros ->; destruct (mm_wf_nodup _ _ _ _ wf) as [_ H0]; apply H0; set_solver).
  destruct (moved_pages_plan e (vm_start w) Hem Hwm) as [Hup Hdown].
  assert (Hplan : exists ex im, plan_adjust mm x e 0 expand = Ret (mk_plan x n e 0 (moved_pages e (vm_start w)) ex im) /\ (ex = x \/ ex = n) /\ (im = x \/ im = n)).
  { unfold plan_adjust. rewrite vma_at_area by done. cbn [obind]. fold v. rewrite Hn, (proj2 (Z.eqb_neq n 0)) by done. cbn [negb andb Z.eqb].
    rewrite vma_at_area by done. cbn [obind]. fold w. rewrite (proj2 (Z.leb_gt _ _)) by lia.
    destruct (Z.ltb_spec (vm_start w) e) as [Hlt|Hge]; [rewrite Hup; eauto 8|].
    rewrite (proj2 (Z.ltb_lt _ _)) by lia. rewrite Hvw, Hdown. eauto 8. }
  destruct Hplan as (ex & im & Hplan & Hex & Him). unfold __vma_adjust. rewrite Hplan. cbn [obind exporter importer].
  destruct (import_spec R _ mm clone_err ex im wf) as (vs1 & err & -> & Hce & Hwf1 & Hre & Hsome).
  { right. split; [destruct Hex as [-> | ->]|destruct Him as [-> | ->]]; set_solver. }
  cbn [obind]. destruct (Z.eqb_spec err 0) as [->|Herr]; cbn [negb].
  2:{ exists (set_vmas mm vs1), err. split; [done|]. left. split; [done|]. split; [by destruct Hce|]. split_and!; [by exists R| |done|done|done].
      intros z _. by apply reanon_fields, Hre. }
  destruct (Hre x) as (a1 & c1 & Hx1), (Hre n) as (a2 & c2 & Hn1). fold v in Hx1. fold w in Hn1.
  destruct (pass_move R A x n B (set_vmas mm vs1) e) as (mm' & Hrun & Hwf' & Hx' & Hn' & Hz' & Hma & Hsq); try done.
  all: cbn [vmas set_vmas] in *; rewrite ?Hx1, ?Hn1 in *; try done.
  cbn in Hrun. cbn [pl_vma pl_next pl_end remove_next adjust_next]. cbn. rewrite Hrun. cbn [obind Z.eqb]. unfold adjust_next_gap. cbn [Z.eqb negb andb obind].
  exists mm', 0. split; [done|]. right. split_and!; [done|by exists R|by rewrite Hx'|by rewrite Hn'| |done|done].
  intros z Hzx Hzn. rewrite Hz' by done. by apply reanon_fields, Hre.
Qed.
End Change.
