(* ===== verification/AddressAbsorb.v ===== *)
(** * Areas that grow over their neighbours *)
From Stdlib Require Import ZArith Lia Bool Sorted.
From stdpp Require Import base numbers list sorting gmap.
From S2P Require Import Prelude RBTree RBTreeShape RBTreeRep RBTreeAugment RBTreeInsert RBTreeErase RBTreeRemove RBTreeCallbacks RBTreeWalk RBTreeProps RBTreeSearch VmArea IntervalTree IntervalTreeSpec AddressSpace AddressSearch AddressGaps AddressLink AddressUnmap AddressFind AddressAdjust AddressMap AddressSplit AddressMunmap AddressChange.

Section Absorb.
Variable stack_guard_gap : Z.
Abbreviation mm_wf := (mm_wf stack_guard_gap).
Abbreviation mm_wf_but := (mm_wf_but stack_guard_gap).

(** ** Taking an area out *)

(** The areas [A ++ n :: B] when [n] is going to be taken out: its gap may not be right, and
    an area may already extend over it. *)
Record taking (vs0 : gmap Z vm_area_struct) (R : nodes) (A : list Z) (n : Z) (B : list Z) (mm : mm_struct) : Prop := {
  tk_tree : rb_tree R (A ++ n :: B) (mm_rb mm);
  tk_gaps : values_right (last_of (own_gap stack_guard_gap vs0)) (mm_rb mm) (A ++ n :: B);
  tk_known : forall z, z ∈ A ++ n :: B -> readable vs0 z;
  tk_same : forall z, z ∈ A ++ B -> own_gap stack_guard_gap (vmas mm) z = own_gap stack_guard_gap vs0 z;
  tk_list : listed (vmas mm) (A ++ n :: B);
  tk_areas : forall z, z ∈ A ++ B -> area_ok (mm_addr mm) (area (vmas mm) z);
  tk_apart : apart (vmas mm) (A ++ B);
  tk_mmap : mmap mm = end_of Left (A ++ n :: B);
  tk_highest : highest_right mm (A ++ B);
  tk_count : map_count mm = Z.of_nat (length (A ++ n :: B))
}.

Lemma tree_nodup R l (t : rb_state (gmap Z Z)) : rb_tree R l t -> NoDup l /\ (0 ∉ l) /\ Z.of_nat (length l) < 2 ^ 30.
Proof.
  intros (w & Ho & _ & _ & He). destruct (own_elems _ _ _ Ho) as [Hnd Hval]. rewrite He in Hnd, Hval.
  split_and!; [done| |by apply valid_count]. intros H0. rewrite Forall_forall in Hval. by apply (valid_neq0 0 (Hval 0 H0)).
Qed.

(** [__vma_unlink_common] of [n], whose gap may not be right. *)
Lemma vma_unlink_spec vs0 R A n B mm prev (has_prev : bool) : taking vs0 R A n B mm ->
  (has_prev = true -> A <> [] /\ prev = end_of Right A) ->
  exists R' t', __vma_unlink_common stack_guard_gap mm n prev has_prev
      = Ret (mk_mm (mm_addr mm) (rejoined (vmas mm) (end_of Right A) (end_of Left B)) t'
               (if end_of Right A =? 0 then end_of Left B else mmap mm) (highest_vm_end mm) (map_count mm) (u64 (vmacache_seqnum mm + 1)))
    /\ rb_tree R' (A ++ B) t' /\ values_right (last_of (own_gap stack_guard_gap (vmas mm))) t' (A ++ B).
Proof.
  intros [Ht Hv Hk Hs Hl Hok Hap Hm Hh Hc] Hprev. destruct (tree_nodup _ _ _ Ht) as (Hnd & H0 & _). destruct (Hl A n B eq_refl) as (Hns & Hnp & Hnn).
  assert (Hsome : forall z, z ∈ A ++ n :: B -> is_Some (vmas mm !! z)) by (intros z Hz; by apply (listed_readable _ _ z Hl)).
  assert (HpA : end_of Right A <> 0 -> end_of Right A ∈ A) by (intros Hp; apply end_in; by intros ->).
  assert (HbB : end_of Left B <> 0 -> end_of Left B ∈ B) by (intros Hp; apply end_in; by intros ->).
  assert (Hends : end_of Right A = 0 -> A = []).
  { intros Hp. destruct (decide (A = [])) as [?|HA]; [done|]. exfalso. apply H0. rewrite <- Hp, elem_of_app. left. by apply end_in. }
  destruct (vma_rb_erase_spec stack_guard_gap R A n B mm) as (mm1 & Hrun & t' & m & -> & Ht' & Hv').
  { apply (right_but_stale _ vs0); try done. intros z Hz. by eapply listed_readable. }
  exists (<[n := m]> R), t'. split_and!; [|done|done]. unfold vma_rb_erase in Hrun. unfold __vma_unlink_common. rewrite Hrun. cbn [obind].
  cbn [vmas set_mm_rb]. rewrite vma_at_area by done. cbn [obind]. rewrite Hnp, Hnn. set (p := end_of Right A) in *. set (b := end_of Left B) in *.
  assert (Hstep : (if has_prev then let* mm2 := put_vm_next (set_mm_rb mm t') prev b in Ret (mm2, prev)
      else if negb (p =? 0) then let* mm2 := put_vm_next (set_mm_rb mm t') p b in Ret (mm2, p)
      else Ret (set_mmap (set_mm_rb mm t') b, p))
    = Ret (set_vmas (if p =? 0 then set_mmap (set_mm_rb mm t') b else set_mm_rb mm t')
             (if p =? 0 then vmas mm else <[p := set_vm_next (area (vmas mm) p) b]> (vmas mm)), p)).
  { destruct (Z.eqb_spec p 0) as [Hp|Hp]; cbn [negb].
    - destruct has_prev; [destruct (Hprev eq_refl) as [HA _]; by destruct HA; apply Hends|]. rewrite Hp. by destruct mm.
    - assert (Hput : put_vm_next (set_mm_rb mm t') p b = Ret (set_vmas (set_mm_rb mm t') (<[p := set_vm_next (area (vmas mm) p) b]> (vmas mm)))).
      { apply (put_vm_next_eq (set_mm_rb mm t')). apply Hsome. set_solver. }
      destruct has_prev; [destruct (Hprev eq_refl) as [_ ->]; fold p|]; by rewrite Hput. }
  rewrite Hstep. cbn [obind]. unfold rejoined. destruct (Z.eqb_spec b 0) as [Hb|Hb]; cbn [negb].
  - cbn [obind]. by destruct (p =? 0), mm.
  - rewrite put_vm_prev_eq; [|]; [by destruct (p =? 0), mm|]. cbn [vmas set_vmas].
    assert (Hbs : is_Some (vmas mm !! b)) by (apply Hsome; set_solver). destruct (p =? 0); [done|]. rewrite lookup_insert_is_Some'. by right.
Qed.

(** ... counting it off and freeing it. *)
Definition taken_out (mm : mm_struct) (n : Z) : mm_struct := free_vma (set_map_count mm (s32 (map_count mm - 1))) n.

Lemma unlink_but vs0 R A n B mm prev (has_prev : bool) : taking vs0 R A n B mm ->
  (has_prev = true -> A <> [] /\ prev = end_of Right A) ->
  exists R' mm', __vma_unlink_common stack_guard_gap mm n prev has_prev = Ret mm'
    /\ mm_wf_but (vmas mm) R' A B (taken_out mm' n) /\ highest_right (taken_out mm' n) (A ++ B)
    /\ (forall z, z <> n -> unlinked (area (vmas (taken_out mm' n)) z) = unlinked (area (vmas mm) z))
    /\ mm_addr mm' = mm_addr mm /\ vmacache_seqnum mm' = u64 (vmacache_seqnum mm + 1).
Proof.
  intros Hwf Hprev. destruct (vma_unlink_spec vs0 R A n B mm prev has_prev Hwf Hprev) as (R' & t' & Hrun & Ht' & Hv').
  pose proof Hwf as [Ht Hv Hk Hs Hl Hok Hap Hm Hh Hc]. destruct (tree_nodup _ _ _ Ht) as (Hnd & H0 & Hcount).
  set (p := end_of Right A) in *. set (b := end_of Left B) in *. set (mm' := mk_mm _ _ _ _ _ _ _) in Hrun.
  assert (HnAB : n ∉ A ++ B) by (rewrite <- Permutation_middle in Hnd; by apply NoDup_cons in Hnd as [Hnd _]).
  assert (HndAB : NoDup (A ++ B)) by (rewrite <- Permutation_middle in Hnd; by apply NoDup_cons in Hnd as [_ Hnd]).
  assert (HAB : forall z, z ∈ A ++ B -> z ∈ A ++ n :: B /\ z <> n /\ z <> 0) by (intros z Hz; split_and!; [set_solver|by intros ->|intros ->; apply H0; set_solver]).
  pose proof (rejoined_relinked (vmas mm) p b) as Hrel.
  set (vs2 := vmas (taken_out mm' n)). assert (Har : forall z, z <> n -> area vs2 z = area (rejoined (vmas mm) p b) z).
  { intros z Hz. unfold vs2, area. cbn [taken_out free_vma vmas set_mm_rb set_vmas set_map_count]. by rewrite lookup_delete_ne by done. }
  assert (Hun : forall z, z <> n -> unlinked (area vs2 z) = unlinked (area (vmas mm) z)) by (intros z Hz; rewrite Har by done; symmetry; apply Hrel).
  assert (Hf : forall z, z <> n -> vm_start (area vs2 z) = vm_start (area (vmas mm) z) /\ vm_end (area vs2 z) = vm_end (area (vmas mm) z)
    /\ vm_mm (area vs2 z) = vm_mm (area (vmas mm) z) /\ vm_flags (area vs2 z) = vm_flags (area (vmas mm) z)).
  { intros z Hz. apply Hun, unlinked_bare, bare_bounds in Hz as (-> & -> & -> & -> & _). done. }
  assert (Hhigh : highest_right (taken_out mm' n) (A ++ B)).
  { unfold highest_right. change (highest_vm_end mm = from_option (fun x => vm_end (area vs2 x)) 0 (last (A ++ B))).
    rewrite Hh. destruct (last (A ++ B)) as [z|] eqn:Hz; [|done]. cbn [from_option]. symmetry. apply Hf. intros ->. apply HnAB. by apply last_Some_elem_of. }
  exists (delete n R'), mm'. split_and!; [exact Hrun| |done|done|done|done]. split; try done.
  - destruct Ht' as (w & Ho & Hr & Hb & He). exists w. split_and!; [|done|done|done]. apply own_delete_outside; [done|]. by rewrite cells_keys, He.
  - intros z m Hz Hm'. apply (Hv' z m Hz). cbn in Hm'. rewrite lookup_delete_ne in Hm'; [done|]. intros ->. done.
  - intros z Hz. by eapply listed_readable; [|apply HAB].
  - intros z Hz Hzb. destruct (HAB z Hz) as (Hzl & Hzn & Hz0). destruct (Hf z Hzn) as (Hzs & _ & _ & Hzf).
    destruct (rejoined_links (vmas mm) p b z Hz0) as [Hpz _]. rewrite decide_False in Hpz by done.
    apply own_gap_ext; [done|done|by rewrite Har|]. intros _. apply Hf. intros Hpn. destruct Hzb.
    apply (listed_prev (vmas mm) A n B z); [done|done|intros ->; apply H0; set_solver|done|done].
  - assert (Hl1 : listed (rejoined (vmas mm) p b) (A ++ B)).
    { apply (links_around_listed (vmas mm) _ A [n] B); [done|done|intros Hz; by apply HAB in Hz as (_ & _ & ?)|done|].
      intros z Hz. by apply rejoined_links, HAB. }
    intros A' z B' Heq. destruct (HAB z) as (_ & Hzn & _); [rewrite Heq; set_solver|].
    destruct (Hl1 A' z B' Heq) as (Hz1 & Hz2 & Hz3). fold vs2. rewrite Har by done. split_and!; [|done|done].
    unfold vs2. cbn [taken_out free_vma vmas set_mm_rb set_vmas set_map_count]. by rewrite lookup_delete_ne by done.
  - intros z Hz. destruct (HAB z Hz) as (Hzl & Hzn & _). fold vs2. unfold area_ok. destruct (Hf z Hzn) as (-> & -> & -> & _). by apply Hok.
  - apply (apart_shrink (vmas mm)); [done|]. intros z Hz. destruct (HAB z Hz) as (_ & Hzn & _). fold vs2.
    destruct (Hf z Hzn) as (-> & -> & _). done.
  - change ((if p =? 0 then b else mmap mm) = end_of Left (A ++ B)). destruct (Z.eqb_spec p 0) as [Hp|Hp].
    + destruct A as [|a A]; [done|]. exfalso. apply H0. rewrite <- Hp. apply elem_of_app. left. by apply end_in.
    + rewrite Hm. destruct A as [|a A]; [done|]. by destruct B.
  - cbn. rewrite s32_small; [rewrite Hc, !length_app; simpl; lia|]. rewrite Hc. lia.
Qed.

(** ** Over the next area (cases 1, 6 and 7) *)
Section Next.
Context (vs0 : gmap Z vm_area_struct) (R : nodes) (A : list Z) (x n : Z) (B : list Z) (mm : mm_struct).
Abbreviation v := (area (vmas mm) x).
Abbreviation w := (area (vmas mm) n).
Abbreviation vs1 := (<[x := set_vm_end v (vm_end w)]> (vmas mm)).
Hypothesis wf : mm_wf_but vs0 R (A ++ [x]) (n :: B) mm.

Lemma next_facts : is_Some (vmas mm !! x) /\ is_Some (vmas mm !! n) /\ x <> 0 /\ n <> 0 /\ x <> n /\ (x ∉ A) /\ (x ∉ B) /\ (n ∉ A) /\ (n ∉ B)
  /\ vm_next v = n /\ vm_next w = end_of Left B /\ 0 <= vm_start v < vm_end v /\ vm_end v <= vm_start w /\ vm_start w < vm_end w < 2 ^ 32
  /\ (forall z, z ∈ A -> vm_end (area (vmas mm) z) <= vm_start v) /\ (forall z, z ∈ B -> vm_end w <= vm_start (area (vmas mm) z)).
Proof.
  destruct wf as [Ht _ _ _ Hl Hok Hap _ _ _]. rewrite <- app_assoc in Ht, Hl, Hok, Hap. cbn [app] in *. destruct (tree_nodup _ _ _ Ht) as (Hnd & H0 & _).
  assert (Hx : x ∈ A ++ x :: n :: B) by set_solver. assert (Hn : n ∈ A ++ x :: n :: B) by set_solver.
  destruct (Hok x Hx) as (? & ? & _), (Hok n Hn) as (? & ? & _). destruct (Hl A x (n :: B) eq_refl) as (Hxs & _ & Hxn).
  destruct (Hl (A ++ [x]) n B) as (Hns & _ & Hnn); [by rewrite <- app_assoc|].
  unfold apart in Hap. apply StronglySorted_app in Hap as (HAx & _ & HxB). inversion_clear HxB as [|? ? HnB HFx]. inversion_clear HnB as [|? ? _ HFn].
  rewrite Forall_forall in HFx, HFn. apply NoDup_app in Hnd as (_ & HA & [HxB HnB]%NoDup_cons). apply NoDup_cons in HnB as [HnB _].
  pose proof (HFx n (list_elem_of_here _ _)) as Hxn'. simpl in Hxn'.
  assert (HxA : x ∉ A) by (intros HxA; apply (HA x HxA); set_solver). assert (HnA : n ∉ A) by (intros HnA; apply (HA n HnA); set_solver).
  split_and!; try done; try lia; try set_solver.
Qed.

Lemma next_taking : taking vs0 R (A ++ [x]) n B (set_vmas mm vs1).
Proof.
  destruct next_facts as (Hxs & Hns & Hx0 & Hn0 & Hxn & HxA & HxB & HnA & HnB & Hxnext & Hnnext & Hvb & Hvw & Hwb & HoA & HoB).
  destruct wf as [Ht Hg Hk Hs Hl Hok Hap Hm Hh Hc]. destruct (tree_nodup _ _ _ Ht) as (Hnd & H0 & _).
  assert (Hax : area vs1 x = set_vm_end v (vm_end w)) by by rewrite area_insert, decide_True.
  assert (Har : forall z, z <> x -> area vs1 z = area (vmas mm) z) by (intros z Hz; by rewrite area_insert, decide_False).
  assert (Hin : forall z, z ∈ (A ++ [x]) ++ B -> z ∈ (A ++ [x]) ++ n :: B /\ z <> n) by (intros z Hz; split; [set_solver|intros ->; set_solver]).
  split; cbn [mm_rb vmas mm_addr mmap map_count set_vmas]; try done.
  - intros z Hz. destruct (Hin z Hz) as [Hz1 Hz2]. rewrite <- Hs by done. apply own_gap_ext.
    1-3: destruct (decide (z = x)) as [->|]; [by rewrite Hax|by rewrite Har].
    intros Hp. destruct (decide (vm_prev (area (vmas mm) z) = x)) as [Hpx|Hpx]; [|by rewrite Har]. destruct Hz2.
    rewrite <- app_assoc in Hl, Hnd, Hz1. by apply (listed_prev (vmas mm) A x (n :: B) z).
  - intros A' z B' Heq. destruct (Hl A' z B' Heq) as (Hz1 & Hz2 & Hz3). split.
    + apply lookup_insert_is_Some'. by right.
    + destruct (decide (z = x)) as [->|]; [by rewrite Hax|by rewrite Har].
  - intros z Hz. destruct (Hin z Hz) as [Hz1 _]. destruct (decide (z = x)) as [->|]; [|rewrite Har by done; by apply Hok].
    rewrite Hax. destruct (Hok x Hz1) as (_ & _ & ?). split; [cbn; lia|split; [cbn; lia|done]].
  - rewrite <- app_assoc in Hap |- *. cbn [app] in *. unfold apart in *. apply StronglySorted_app in Hap as (HAx & HsA & HsB).
    inversion_clear HsB as [|? ? HsB' _]. inversion_clear HsB' as [|? ? HsB HFn].
    assert (Hext : forall K, x ∉ K -> apart (vmas mm) K -> apart vs1 K).
    { intros K HK H. apply (apart_shrink (vmas mm)); [done|]. intros z Hz. rewrite Har by (by intros ->). done. }
    apply StronglySorted_app. split_and!; [|by apply Hext|constructor; [by apply Hext|]].
    + intros a b Ha Hb. rewrite (Har a) by (by intros ->). apply elem_of_cons in Hb as [->|Hb]; [rewrite Hax; by apply HoA|].
      rewrite Har by (by intros ->). apply HAx; [done|set_solver].
    + apply Forall_forall. intros b Hb. rewrite Hax, Har by (by intros ->). by apply HoB.
  - unfold highest_right. cbn [highest_vm_end vmas set_vmas]. rewrite Hh by done. destruct B as [|b B'].
    + rewrite app_nil_r, !last_snoc. cbn [from_option]. by rewrite Hax.
    + rewrite !(last_app (A ++ [x])). change (n :: b :: B') with ([n] ++ b :: B'). rewrite last_app. destruct (last (b :: B')) as [z|] eqn:Hz; [|by apply last_None in Hz].
      cbn [from_option]. rewrite Har; [done|]. intros ->. apply HxB. by apply last_Some_elem_of.
Qed.

(** One pass: [x] extends to the end of [n], which goes. *)
Lemma pass_absorb rm : rm = 1 \/ rm = 2 ->
  exists R' mm', adjust_pass stack_guard_gap mm x n (vm_start v) (vm_end w) (vm_pgoff v) 0 rm 0 = Ret (mm', end_of Left B)
    /\ mm_wf_but vs1 R' (A ++ [x]) B mm' /\ highest_right mm' ((A ++ [x]) ++ B)
    /\ unlinked (area (vmas mm') x) = unlinked (set_vm_end v (vm_end w))
    /\ (forall z, z <> x -> z <> n -> unlinked (area (vmas mm') z) = unlinked (area (vmas mm) z))
    /\ mm_addr mm' = mm_addr mm /\ vmacache_seqnum mm' = u64 (vmacache_seqnum mm + 1).
Proof.
  intros Hrm. destruct next_facts as (Hxs & Hns & Hx0 & Hn0 & Hxn & HxA & HxB & _). unfold adjust_pass, put_vma. rewrite vma_at_area by done. cbn [obind].
  assert (Hv : set_vm_pgoff (set_vm_end (set_vm_start v (vm_start v)) (vm_end w)) (vm_pgoff v) = set_vm_end v (vm_end w)) by by destruct v.
  rewrite Hv. cbn [Z.eqb negb obind]. replace (rm =? 0) with false by (destruct Hrm as [-> | ->]; done).
  replace (rm =? 3) with false by (destruct Hrm as [-> | ->]; done). cbn [negb]. unfold __vma_unlink_prev.
  destruct (unlink_but vs0 R (A ++ [x]) n B (set_vmas mm vs1) x true next_taking) as (R' & mm' & -> & Hwf' & Hh' & Hun & Hma & Hsq).
  { intros _. split; [by destruct A|by rewrite end_right_snoc]. }
  cbn [obind]. fold (taken_out mm' n). cbn [vmas set_vmas] in Hwf', Hun.
  pose proof (but_list _ _ _ _ _ _ Hwf') as Hl'. rewrite <- app_assoc in Hl'. destruct (Hl' A x B eq_refl) as (Hxs' & _ & Hxn').
  rewrite vma_at_area by done. cbn [obind]. rewrite Hxn'. exists R', (taken_out mm' n).
  split_and!; [done|done|done| | |done|done].
  - rewrite Hun by done. by rewrite area_insert, decide_True.
  - intros z Hzx Hzn. rewrite Hun by done. by rewrite area_insert, decide_False.
Qed.
End Next.

(** After the last pass the gap is made right. *)
Lemma finish_gap vs1 R A B mm rm : rm <> 0 -> mm_wf_but vs1 R A B mm -> highest_right mm (A ++ B) ->
  exists mm', adjust_next_gap stack_guard_gap mm rm (end_of Left B) = Ret mm' /\ mm_wf R (A ++ B) mm' /\ vmas mm' = vmas mm
    /\ mm_addr mm' = mm_addr mm /\ vmacache_seqnum mm' = vmacache_seqnum mm.
Proof.
  intros Hrm Hwf Hh. unfold adjust_next_gap. rewrite (proj2 (Z.eqb_neq rm 0)) by done. destruct B as [|b B].
  - exists mm. split_and!; [done| |done..]. by apply (but_wf _ vs1).
  - change (end_of Left (b :: B)) with b. destruct (tree_nodup _ _ _ (but_tree _ _ _ _ _ _ Hwf)) as (_ & H0 & _).
    rewrite (proj2 (Z.eqb_neq b 0)) by (intros ->; apply H0; set_solver). cbn [negb andb].
    destruct (gap_update_but _ _ _ _ _ _ _ Hwf) as (d' & -> & Hwf'). eexists. by split_and!.
Qed.

(** The areas [l'] after a removal, and the seqnum that tells the caches. *)
Definition absorbed (mm mm' : mm_struct) (l' : list Z) (x : Z) (v' : vm_area_struct) (k : Z) : Prop :=
  changed stack_guard_gap mm mm' l' x v' /\ vmacache_seqnum mm' = u64 (vmacache_seqnum mm + k).

(** [x] grows over [n]: case 1, which also fills the gap between them, and case 7. *)
Lemma absorb_next R A x n B mm clone_err : mm_wf R (A ++ x :: n :: B) mm -> 
  let v := area (vmas mm) x in let w := area (vmas mm) n in
  exists mm' err, __vma_adjust stack_guard_gap clone_err mm x (vm_start v) (vm_end w) (vm_pgoff v) 0 x = Ret (mm', err)
    /\ ((err <> 0 /\ clone_err = err /\ untouched stack_guard_gap mm mm' (A ++ x :: n :: B)) \/ (err = 0 /\ absorbed mm mm' (A ++ x :: B) x (set_vm_end v (vm_end w)) 1)).
Proof.
  intros wf v w. assert (wf' : mm_wf_but (vmas mm) R (A ++ [x]) (n :: B) mm) by (apply mm_wf_wf_but; by rewrite <- app_assoc).
  destruct (next_facts _ _ _ _ _ _ _ wf') as (Hxs & Hns & Hx0 & Hn0 & Hxn & HxA & HxB & HnA & HnB & Hxnext & _). fold v in Hxnext.
  unfold __vma_adjust, plan_adjust. rewrite vma_at_area by done. cbn [obind]. fold v. rewrite Hxnext, (proj2 (Z.eqb_neq n 0)) by done. cbn [negb andb Z.eqb].
  rewrite vma_at_area by done. cbn [obind]. fold w. rewrite Z.leb_refl, (proj2 (Z.eqb_neq n x)), Z.ltb_irrefl by done.
  change (1 + 0) with 1. change (1 =? 2) with false. cbn [andb obind exporter importer].
  destruct (import_spec stack_guard_gap R _ mm clone_err n x wf) as (vs1 & err & -> & Hce & Hwf1 & Hre & _); [right; set_solver|].
  cbn [obind]. destruct (Z.eqb_spec err 0) as [->|Herr]; cbn [negb].
  2:{ exists (set_vmas mm vs1), err. split; [done|]. left. split; [done|]. split; [by destruct Hce|]. split_and!; [by exists R| |done|done|done].
      intros z _. by apply reanon_fields, Hre. }
  destruct (Hre x) as (a1 & c1 & Hx1), (Hre n) as (a2 & c2 & Hn1). fold v in Hx1. fold w in Hn1.
  destruct (pass_absorb (vmas (set_vmas mm vs1)) R A x n B (set_vmas mm vs1)) with (rm := 1) as (R' & mm' & Hrun & Hwf' & Hh' & Hux & Huz & Hma & Hsq).
  { apply mm_wf_wf_but. by rewrite <- app_assoc. }
  { by left. }
  cbn [vmas set_vmas] in *. assert (E1 : vm_start (area vs1 x) = vm_start v) by by rewrite Hx1. assert (E2 : vm_pgoff (area vs1 x) = vm_pgoff v) by by rewrite Hx1.
  assert (E3 : vm_end (area vs1 n) = vm_end w) by by rewrite Hn1. rewrite E1, E2, E3 in Hrun. cbn [pl_vma pl_next pl_end remove_next adjust_next]. rewrite Hrun. cbn [obind Z.eqb Pos.eqb].
  destruct (finish_gap _ R' (A ++ [x]) B mm' 1 ltac:(done) Hwf' Hh') as (mm2 & -> & Hwf2 & Hvs2 & Hma2 & Hsq2). cbn [obind].
  exists mm2, 0. split; [done|]. right. split; [done|]. rewrite <- app_assoc in Hwf2. split; [split|].
  - by exists R'.
  - rewrite Hvs2. apply unlinked_bare in Hux. by rewrite Hux, Hx1, E3.
  - intros z Hz Hzx. rewrite Hvs2. assert (Hzn : z <> n) by (intros ->; set_solver).
    rewrite (unlinked_bare _ _ (Huz z Hzx Hzn)). by apply reanon_fields, Hre.
  - by rewrite Hma2.
  - by rewrite Hsq2.
Qed.

(** ... over two areas: case 6. *)
Lemma absorb_two R A x n m B mm clone_err : mm_wf R (A ++ x :: n :: m :: B) mm ->
  let v := area (vmas mm) x in let w := area (vmas mm) m in
  exists mm' err, __vma_adjust stack_guard_gap clone_err mm x (vm_start v) (vm_end w) (vm_pgoff v) 0 x = Ret (mm', err)
    /\ ((err <> 0 /\ clone_err = err /\ untouched stack_guard_gap mm mm' (A ++ x :: n :: m :: B)) \/ (err = 0 /\ absorbed mm mm' (A ++ x :: B) x (set_vm_end v (vm_end w)) 2)).
Proof.
  intros wf v w. assert (wf' : mm_wf_but (vmas mm) R (A ++ [x]) (n :: m :: B) mm) by (apply mm_wf_wf_but; by rewrite <- app_assoc).
  destruct (next_facts _ _ _ _ _ _ _ wf') as (Hxs & Hns & Hx0 & Hn0 & Hxn & HxA & HxB & HnA & HnB & Hxnext & Hnnext & _ & _ & _ & _ & HoB). fold v in Hxnext.
  change (end_of Left (m :: B)) with m in Hnnext.
  assert (Hmin : m ∈ A ++ x :: n :: m :: B) by set_solver. destruct (wf_areas _ _ _ _ wf m Hmin) as [Hmb _]. fold w in Hmb.
  specialize (HoB m (list_elem_of_here _ _)) as Hnm. fold w in Hnm.
  unfold __vma_adjust, plan_adjust. rewrite vma_at_area by done. cbn [obind]. fold v. rewrite Hxnext, (proj2 (Z.eqb_neq n 0)) by done. cbn [negb andb Z.eqb].
  rewrite vma_at_area by done. cbn [obind]. rewrite (proj2 (Z.leb_le _ _)), (proj2 (Z.eqb_neq n x)), (proj2 (Z.ltb_lt _ _)) by (done || lia).
  change (1 + 1) with 2. change (2 =? 2) with true. cbn [andb obind exporter importer]. rewrite Hnnext.
  destruct (import_spec stack_guard_gap R _ mm clone_err (if anon_vma (area (vmas mm) n) =? 0 then m else n) x wf) as (vs1 & err & -> & Hce & Hwf1 & Hre & _).
  { right. split; [destruct (_ =? 0)|]; set_solver. }
  cbn [obind]. destruct (Z.eqb_spec err 0) as [->|Herr]; cbn [negb].
  2:{ exists (set_vmas mm vs1), err. split; [done|]. left. split; [done|]. split; [by destruct Hce|]. split_and!; [by exists R| |done|done|done].
      intros z _. by apply reanon_fields, Hre. }
  destruct (Hre x) as (a1 & c1 & Hx1), (Hre n) as (a2 & c2 & Hn1). fold v in Hx1.
  destruct (pass_absorb (vmas (set_vmas mm vs1)) R A x n (m :: B) (set_vmas mm vs1)) with (rm := 2) as (R1 & mm1 & Hrun & Hwf2 & Hh2 & Hux & Huz & Hma & Hsq).
  { apply mm_wf_wf_but. by rewrite <- app_assoc. }
  { by right. }
  cbn [vmas set_vmas] in *. assert (E1 : vm_start (area vs1 x) = vm_start v) by by rewrite Hx1. assert (E2 : vm_pgoff (area vs1 x) = vm_pgoff v) by by rewrite Hx1.
  assert (E3 : vm_end (area vs1 n) = vm_end (area (vmas mm) n)) by by rewrite Hn1. rewrite E1, E2, E3 in Hrun. change (end_of Left (m :: B)) with m in Hrun.
  cbn [pl_vma pl_next pl_end remove_next adjust_next]. rewrite Hrun. cbn [obind]. change (2 =? 2) with true. cbn [obind].
  destruct (next_facts _ _ _ _ _ _ _ Hwf2) as (_ & Hms & _ & _ & Hxm & _). rewrite vma_at_area by done. cbn [obind].
  assert (Hmn : m <> n) by (intros ->; set_solver).
  assert (Hbm : bare (area (vmas mm1) m) = bare w).
  { rewrite (unlinked_bare _ _ (Huz m ltac:(done) Hmn)). by apply reanon_fields, Hre. }
  apply unlinked_bare in Hux. destruct (bare_bounds _ _ Hux) as (F1 & _ & _ & _ & F2). destruct (bare_bounds _ _ Hbm) as (_ & F3 & _).
  destruct (pass_absorb _ R1 A x m B mm1 Hwf2) with (rm := 1) as (R2 & mm2 & Hrun2 & Hwf3 & Hh3 & Hux3 & Huz3 & Hma3 & Hsq3); [by left|].
  cbn [vm_start vm_pgoff set_vm_end] in F1, F2. rewrite F1, F2, E1, E2 in Hrun2. rewrite Hrun2. cbn [obind].
  destruct (finish_gap _ R2 (A ++ [x]) B mm2 1 ltac:(done) Hwf3 Hh3) as (mm3 & -> & Hwf4 & Hvs4 & Hma4 & Hsq4). cbn [obind].
  exists mm3, 0. split; [done|]. right. split; [done|]. rewrite <- app_assoc in Hwf4. split; [split|].
  - by exists R2.
  - rewrite Hvs4. apply unlinked_bare in Hux3. rewrite Hux3, F3.
    change (set_vm_end (bare (area (vmas mm1) x)) (vm_end w) = set_vm_end (bare v) (vm_end w)). by rewrite Hux, Hx1.
  - intros z Hz Hzx. rewrite Hvs4. assert (Hzn : z <> n) by (intros ->; set_solver). assert (Hzm : z <> m).
    { intros ->. destruct (next_facts _ _ _ _ _ _ _ Hwf2) as (_ & _ & _ & _ & _ & _ & _ & ? & ? & _). set_solver. }
    rewrite (unlinked_bare _ _ (Huz3 z Hzx Hzm)), (unlinked_bare _ _ (Huz z Hzx Hzn)). by apply reanon_fields, Hre.
  - by rewrite Hma4, Hma3.
  - rewrite Hsq4, Hsq3, Hsq. unfold wrap. rewrite Zplus_mod_idemp_l. f_equal. cbn. lia.
Qed.

(** ** Under the next area (case 8): [a] goes, and [n] right after it starts where [a] did. *)
Lemma prev_taking R A a n B mm pgoff : 0 <= stack_guard_gap < 2 ^ 32 -> mm_wf R (A ++ a :: n :: B) mm ->
  let v := area (vmas mm) a in let w := area (vmas mm) n in vm_end v = vm_start w ->
  taking (vmas mm) R A a (n :: B) (set_vmas mm (<[n := set_vm_pgoff (set_vm_start w (vm_start v)) pgoff]> (vmas mm))).
Proof.
  intros HG wf v w Hadj. assert (wf' : mm_wf_but (vmas mm) R (A ++ [a]) (n :: B) mm) by (apply mm_wf_wf_but; by rewrite <- app_assoc).
  destruct (next_facts _ _ _ _ _ _ _ wf') as (Has & Hns & Ha0 & Hn0 & Han & HaA & HaB & HnA & HnB & _ & _ & Hvb & Hvw & Hwb & HoA & HoB).
  fold v in Hvb, Hvw, HoA. fold w in Hvw, Hwb, HoB. set (w' := set_vm_pgoff (set_vm_start w (vm_start v)) pgoff). set (vs1 := <[n := w']> (vmas mm)).
  destruct (mm_wf_nodup _ _ _ _ wf) as [Hnd H0].
  destruct wf as [Ht Hg Hl Hok Hap Hm Hh Hc].
  assert (Han' : area vs1 n = w') by (unfold vs1; by rewrite area_insert, decide_True).
  assert (Har : forall z, z <> n -> area vs1 z = area (vmas mm) z) by (intros z Hz; unfold vs1; by rewrite area_insert, decide_False).
  assert (Hend : forall z, vm_end (area vs1 z) = vm_end (area (vmas mm) z)) by (intros z; destruct (decide (z = n)) as [->|]; [by rewrite Han'|by rewrite Har]).
  split; cbn [mm_rb vmas mm_addr mmap map_count set_vmas]; try done.
  - intros z Hz. by apply (listed_readable _ _ z Hl).
  - intros z Hz. destruct (decide (z = n)) as [->|Hzn]; [|apply own_gap_ext; rewrite ?Har by done; try done; intros _; apply Hend].
    destruct (Hl (A ++ [a]) n B) as (_ & Hnp & _); [by rewrite <- app_assoc|]. rewrite end_right_snoc in Hnp. fold w in Hnp.
    unfold own_gap. rewrite Han', Hend. cbn [vm_prev set_vm_start set_vm_pgoff w']. fold w. rewrite Hnp, (proj2 (Z.eqb_neq a 0)) by done. fold v.
    pose proof (vm_start_gap_bounds stack_guard_gap w ltac:(lia) HG). pose proof (vm_start_gap_bounds stack_guard_gap w' ltac:(cbn; lia) HG) as Hm'. cbn in Hm'. lia.
  - intros A' z B' Heq. destruct (Hl A' z B' Heq) as (Hz1 & Hz2 & Hz3). split.
    + apply lookup_insert_is_Some'. by right.
    + destruct (decide (z = n)) as [->|]; [by rewrite Han'|by rewrite Har].
  - intros z Hz. destruct (decide (z = n)) as [->|Hzn]; [|rewrite Har by done; apply Hok; set_solver].
    rewrite Han'. destruct (Hok n) as (_ & _ & ?); [set_solver|]. split; [cbn; lia|split; [cbn; lia|done]].
  - unfold apart in *. apply StronglySorted_app in Hap as (HAx & HsA & HsB). inversion_clear HsB as [|? ? HsB' _]. inversion_clear HsB' as [|? ? HsB HFn].
    assert (Hext : forall K, n ∉ K -> apart (vmas mm) K -> apart vs1 K).
    { intros K HK H. apply (apart_shrink (vmas mm)); [done|]. intros z Hz. rewrite Har by (by intros ->). done. }
    apply StronglySorted_app. split_and!; [|by apply Hext|constructor; [by apply Hext|]].
    + intros z b Hz Hb. rewrite Hend. apply elem_of_cons in Hb as [->|Hb]; [rewrite Han'; by apply HoA|].
      rewrite Har by (by intros ->). apply HAx; [done|set_solver].
    + apply Forall_forall. intros b Hb. rewrite Hend, Har by (by intros ->). by apply HoB.
  - unfold highest_right. cbn [highest_vm_end vmas set_vmas]. rewrite Hh.
    rewrite !(last_app A). change (a :: n :: B) with ([a] ++ n :: B). rewrite (last_app [a]). destruct (last (n :: B)) as [z|] eqn:Hz; [|by apply last_None in Hz].
    cbn [from_option]. by rewrite Hend.
Qed.

Lemma absorb_prev R A a n B mm clone_err pgoff : 0 <= stack_guard_gap < 2 ^ 32 -> mm_wf R (A ++ a :: n :: B) mm ->
  let v := area (vmas mm) a in let w := area (vmas mm) n in vm_end v = vm_start w ->
  exists mm' err, __vma_adjust stack_guard_gap clone_err mm a (vm_start v) (vm_end w) pgoff 0 n = Ret (mm', err)
    /\ ((err <> 0 /\ clone_err = err /\ untouched stack_guard_gap mm mm' (A ++ a :: n :: B))
        \/ (err = 0 /\ absorbed mm mm' (A ++ n :: B) n (set_vm_pgoff (set_vm_start w (vm_start v)) pgoff) 1)).
Proof.
  intros HG wf v w Hadj. assert (wf' : mm_wf_but (vmas mm) R (A ++ [a]) (n :: B) mm) by (apply mm_wf_wf_but; by rewrite <- app_assoc).
  destruct (next_facts _ _ _ _ _ _ _ wf') as (Has & Hns & Ha0 & Hn0 & Han & HaA & HaB & HnA & HnB & Hanext & _). fold v in Hanext.
  unfold __vma_adjust, plan_adjust. rewrite vma_at_area by done. cbn [obind]. fold v. rewrite Hanext, (proj2 (Z.eqb_neq n 0)) by done. cbn [negb andb Z.eqb].
  rewrite vma_at_area by done. cbn [obind]. fold w. rewrite Z.leb_refl, (Z.eqb_refl n). cbn [obind exporter importer].
  destruct (import_spec stack_guard_gap R _ mm clone_err a n wf) as (vs1 & err & -> & Hce & Hwf1 & Hre & Hsome); [right; set_solver|].
  cbn [obind]. destruct (Z.eqb_spec err 0) as [->|Herr]; cbn [negb].
  2:{ exists (set_vmas mm vs1), err. split; [done|]. left. split; [done|]. split; [by destruct Hce|]. split_and!; [by exists R| |done|done|done].
      intros z _. by apply reanon_fields, Hre. }
  destruct (Hre a) as (a1 & c1 & Ha1), (Hre n) as (a2 & c2 & Hn1). fold v in Ha1. fold w in Hn1.
  assert (E1 : vm_start (area vs1 a) = vm_start v) by by rewrite Ha1. assert (E2 : vm_end (area vs1 a) = vm_end v) by by rewrite Ha1.
  assert (E3 : vm_start (area vs1 n) = vm_start w) by by rewrite Hn1. assert (E4 : vm_end (area vs1 n) = vm_end w) by by rewrite Hn1.
  pose proof (prev_taking R A a n B _ pgoff HG Hwf1) as Htake. cbn [vmas set_vmas] in Htake. rewrite E1, E2, E3 in Htake. specialize (Htake Hadj).
  cbn [pl_vma pl_next pl_end remove_next adjust_next]. unfold adjust_pass, put_vma. cbn [vmas set_vmas]. rewrite vma_at_area by by apply Hsome. cbn [obind].
  assert (Hv : set_vm_pgoff (set_vm_end (set_vm_start (area vs1 n) (vm_start v)) (vm_end w)) pgoff = set_vm_pgoff (set_vm_start (area vs1 n) (vm_start v)) pgoff).
  { rewrite <- E4. by destruct (area vs1 n). }
  rewrite Hv. cbn [Z.eqb negb obind]. change (set_vmas (set_vmas mm vs1) ?m) with (set_vmas mm m) in Htake |- *.
  destruct (unlink_but vs1 R A a (n :: B) _ 0 false Htake) as (R' & mm' & -> & Hwf' & Hh' & Hun & Hma & Hsq); [done|].
  change (3 =? 3)%positive with true. cbn [negb obind]. fold (taken_out mm' a). change (3 =? 2) with false. cbn [vmas set_vmas] in Hwf', Hun.
  destruct (finish_gap _ R' A (n :: B) _ 3 ltac:(done) Hwf' Hh') as (mm2 & Hgap & Hwf2 & Hvs2 & Hma2 & Hsq2). change (end_of Left (n :: B)) with n in Hgap.
  rewrite Hgap. cbn [obind]. exists mm2, 0. split; [done|]. right. split; [done|]. split; [split|].
  - by exists R'.
  - rewrite Hvs2, (unlinked_bare _ _ (Hun n ltac:(done))), area_insert, decide_True, Hn1 by done. by destruct w.
  - intros z Hz Hzn. assert (Hza : z <> a) by (intros ->; set_solver). rewrite Hvs2, (unlinked_bare _ _ (Hun z Hza)), area_insert, decide_False by done.
    by apply reanon_fields, Hre.
  - rewrite Hma2. exact Hma.
  - rewrite Hsq2. exact Hsq.
Qed.
End Absorb.
