(* ===== verification/AddressMerge.v ===== *)
(** * Merging

    What [vma_merge] does to an address space: the range it is asked for gets the
    mapping it is asked for by growing the areas around it, and nothing else changes. *)
From Stdlib Require Import ZArith Lia Bool Sorted.
From stdpp Require Import base numbers list sorting gmap.
From S2P Require Import Prelude RBTree RBTreeShape RBTreeRep RBTreeAugment RBTreeInsert RBTreeErase RBTreeRemove RBTreeCallbacks RBTreeWalk RBTreeProps RBTreeSearch VmArea IntervalTree IntervalTreeSpec AddressSpace AddressSearch AddressGaps AddressLink AddressUnmap AddressFind AddressAdjust AddressMap AddressSplit AddressMunmap AddressChange AddressAbsorb.

(** ** What can be merged maps what is asked for *)

(** The page at [a] of a mapping asked for at [addr]. *)
Definition asked_page (flags file name pgoff addr a : Z) : page := mk_page flags file name false (u32 (pgoff + (a - addr) / PAGE_SIZE)).

Lemma same_flags f g : 0 <= f < 2 ^ 32 -> 0 <= g < 2 ^ 32 -> Z.land (Z.lxor f g) (u32 (Z.lnot VM_SOFTDIRTY)) = 0 -> f = g.
Proof.
  intros Hf Hg. change (u32 (Z.lnot VM_SOFTDIRTY)) with (Z.ones 32). rewrite Z.land_ones by done. intros H. apply Z.bits_inj. intros i.
  destruct (decide (i < 0)); [by rewrite !Z.testbit_neg_r|]. destruct (decide (i < 32)) as [Hi|Hi].
  - assert (Hb : Z.testbit (Z.lxor f g mod 2 ^ 32) i = false) by (rewrite H; apply Z.bits_0).
    rewrite Z.mod_pow2_bits_low, Z.lxor_spec in Hb by lia. by apply xorb_eq.
  - rewrite <- (Z.mod_small f (2 ^ 32)), <- (Z.mod_small g (2 ^ 32)) by done. by rewrite !Z.mod_pow2_bits_high by lia.
Qed.

Section Asked.
Context (flags anon file pgoff name addr end_ : Z).
Hypothesis flags_range : 0 <= flags < 2 ^ 32.
Hypothesis range : 0 <= addr < end_ /\ end_ < 2 ^ 32.
Hypothesis pages : addr mod PAGE_SIZE = 0 /\ end_ mod PAGE_SIZE = 0.
Abbreviation asked := (asked_page flags file name pgoff addr).
Abbreviation pglen := (Z.shiftr (u32 (end_ - addr)) PAGE_SHIFT).

Lemma mergeable_page v off a : paged v -> is_mergeable_vma v file flags name = true ->
  u32 (vm_pgoff v + (a - vm_start v) / PAGE_SIZE) = u32 (pgoff + off) -> page_of v a = mk_page flags file name false (u32 (pgoff + off)).
Proof.
  intros (_ & _ & Hf) Hm Ho. unfold is_mergeable_vma in Hm. unfold page_of. rewrite Ho.
  destruct (Z.eqb_spec (Z.land (Z.lxor (vm_flags v) flags) (u32 (Z.lnot VM_SOFTDIRTY))) 0) as [He|]; [|done].
  destruct (Z.eqb_spec (vm_file v) file) as [Hfile|]; [|done]. destruct (vm_close v); [done|]. destruct (Z.eqb_spec (vma_get_anon_name v) name) as [Hn|]; [|done].
  f_equal; try done. by apply same_flags.
Qed.

Lemma merge_after_page v a : paged v -> 0 <= vm_start v < vm_end v -> vm_end v = addr -> can_vma_merge_after v flags anon file pgoff name = true ->
  page_of v a = asked a.
Proof.
  intros Hv Hb He Hm. unfold can_vma_merge_after in Hm. destruct (is_mergeable_vma v file flags name && _) eqn:H; [|done]. apply andb_true_iff in H as [H _].
  apply Z.eqb_eq in Hm. apply mergeable_page; [done|done|]. destruct Hv as (Hs & _ & _). rewrite <- Hm. unfold vma_pages. rewrite pages_between by lia.
  rewrite He. symmetry. apply offset_shift; [done|by destruct pages].
Qed.

Lemma merge_before_page v a : paged v -> end_ = vm_start v -> can_vma_merge_before v flags anon file (u32 (pgoff + pglen)) name = true ->
  page_of v a = asked a.
Proof.
  intros Hv He Hm. unfold can_vma_merge_before in Hm. destruct (is_mergeable_vma v file flags name && _) eqn:H; [|done]. apply andb_true_iff in H as [H _].
  apply Z.eqb_eq in Hm. apply mergeable_page; [done|done|]. rewrite Hm, pages_between by lia. rewrite <- He. apply offset_shift; by destruct pages.
Qed.

(** ** The address space after a merge *)
Section Merged.
Variable stack_guard_gap : Z.
Abbreviation space := (space stack_guard_gap).
Abbreviation changed := (changed stack_guard_gap).

(** The caches that were right still are; the seqnum does not jump. *)
Definition kept (mm : mm_struct) (l : list Z) (mm' : mm_struct) (l' : list Z) : Prop :=
  cache_kept mm l mm' l' /\ vmacache_seqnum mm' <= vmacache_seqnum mm + 2.

(** The range maps what was asked for, and the rest what it did. *)
Record merged (mm : mm_struct) (l : list Z) (mm' : mm_struct) (l' : list Z) : Prop := {
  mg_space : space l' mm';
  mg_maps : forall a, maps mm' l' a = if (addr <=? a) && (a <? end_) then Some (asked a) else maps mm l a;
  mg_kept : kept mm l mm' l'
}.

(** It is enough to look at the areas that changed. *)
Lemma remapped A X B X' mm mm' : space (A ++ X ++ B) mm -> (exists R', mm_wf stack_guard_gap R' (A ++ X' ++ B) mm') ->
  (forall z, z ∈ A ++ B -> bare (area (vmas mm') z) = bare (area (vmas mm) z)) -> (forall z, z ∈ X' -> paged (area (vmas mm') z)) ->
  (forall z, z ∈ A -> vm_end (area (vmas mm) z) <= addr) ->
  (forall a, contents (regions (vmas mm') X') a = if (addr <=? a) && (a <? end_) then Some (asked a) else contents (regions (vmas mm) X) a) ->
  kept mm (A ++ X ++ B) mm' (A ++ X' ++ B) -> merged mm (A ++ X ++ B) mm' (A ++ X' ++ B).
Proof.
  intros [_ Hpg Hsq] Hwf Hb Hpg' HA Hc Hk. split; [|intros a|done].
  - split; [done| |destruct Hk as [[_ [[-> _]|]] _]; lia]. intros z Hz.
    assert (Hz' : z ∈ X' \/ z ∈ A ++ B) by set_solver. destruct Hz' as [Hz'|Hz']; [auto|]. eapply paged_bare; [by apply Hb|]. apply Hpg. set_solver.
  - unfold maps, regions. rewrite !fmap_app, !contents_app. fold (regions (vmas mm') A) (regions (vmas mm) A) (regions (vmas mm') B) (regions (vmas mm) B).
    fold (regions (vmas mm') X') (regions (vmas mm) X). rewrite (contents_same (vmas mm') (vmas mm) A) by (intros z Hz; apply Hb; set_solver).
    rewrite (contents_same (vmas mm') (vmas mm) B) by (intros z Hz; apply Hb; set_solver). rewrite Hc.
    destruct ((addr <=? a) && (a <? end_)) eqn:Hin; [|done]. apply andb_true_iff in Hin as [Hin%Z.leb_le _].
    rewrite (contents_none (regions (vmas mm) A)); [done|]. intros v (z & -> & Hz)%list_elem_of_fmap. apply covers_false. right. specialize (HA z Hz). lia.
Qed.

(** An area [p] before the range that grows up to [e], over the areas [Y]. *)
Lemma merged_up A p Y B mm mm' e : let v := area (vmas mm) p in space (A ++ (p :: Y) ++ B) mm -> changed mm mm' (A ++ [p] ++ B) p (set_vm_end v e) ->
  vm_end v = addr -> (forall a, page_of v a = asked a) -> end_ <= e -> e mod PAGE_SIZE = 0 ->
  (forall a, end_ <= a < e -> contents (regions (vmas mm) Y) a = Some (asked a)) ->
  (forall a, a < addr \/ e <= a -> contents (regions (vmas mm) Y) a = None) ->
  kept mm (A ++ (p :: Y) ++ B) mm' (A ++ [p] ++ B) -> merged mm (A ++ (p :: Y) ++ B) mm' (A ++ [p] ++ B).
Proof.
  intros v Hsp [Hwf Ha Hz _] Hv Hpage He Hem HY HY' Hk. destruct (space_nodup _ _ _ Hsp) as [Hnd _]. cbn [app] in Hnd.
  destruct (space_order _ A p (Y ++ B) mm Hsp) as (Hvb & HA & _). fold v in Hvb, HA.
  apply NoDup_app in Hnd as (_ & HpA & [HpB _]%NoDup_cons). destruct (bare_page _ _ Ha) as [Hcov Hpg].
  apply remapped; try done.
  - intros z HzAB. apply Hz; [set_solver|]. intros ->. apply elem_of_app in HzAB as [HzA|HzB]; [apply (HpA p HzA); set_solver|set_solver].
  - intros z ->%list_elem_of_singleton. eapply paged_bare; [done|]. destruct (sp_paged _ _ _ Hsp p) as (? & ? & ?); [set_solver|]. by split.
  - intros z HzA. specialize (HA z HzA). lia.
  - intros a. cbn [regions fmap list_fmap contents]. rewrite Hcov, Hpg. change (page_of (set_vm_end v e) a) with (page_of v a). fold v (regions (vmas mm) Y).
    rewrite Hpage. unfold covers. cbn [vm_start vm_end set_vm_end]. specialize (HY a). specialize (HY' a).
    destruct (Z.leb_spec (vm_start v) a), (Z.leb_spec addr a), (Z.ltb_spec a e), (Z.ltb_spec a end_), (Z.ltb_spec a (vm_end v)); cbn [andb]; try done; try lia.
    all: first [rewrite HY by lia|rewrite HY' by lia]; done.
Qed.

(** An area [n] after the range that grows down to its start, over the areas [Y]. *)
Lemma merged_down A Y n B mm mm' : let w := area (vmas mm) n in space (A ++ (Y ++ [n]) ++ B) mm ->
  changed mm mm' (A ++ [n] ++ B) n (set_vm_pgoff (set_vm_start w addr) (u32 (vm_pgoff w - pglen))) ->
  end_ = vm_start w -> vm_pgoff w = u32 (pgoff + pglen) -> (forall a, page_of w a = asked a) -> (forall z, z ∈ A -> vm_end (area (vmas mm) z) <= addr) ->
  (forall a, a < addr \/ end_ <= a -> contents (regions (vmas mm) Y) a = None) ->
  kept mm (A ++ (Y ++ [n]) ++ B) mm' (A ++ [n] ++ B) -> merged mm (A ++ (Y ++ [n]) ++ B) mm' (A ++ [n] ++ B).
Proof.
  intros w Hsp [Hwf Ha Hz _] Hw Hoff Hpage HA HY Hk. destruct (space_nodup _ _ _ Hsp) as [Hnd _]. rewrite <- (app_assoc Y) in Hnd. cbn [app] in Hnd.
  pose proof Hsp as Hsp2. rewrite <- (app_assoc Y), app_assoc in Hsp2. destruct (space_order _ (A ++ Y) n B mm Hsp2) as (Hwb & _ & _). fold w in Hwb.
  rewrite app_assoc in Hnd. apply NoDup_app in Hnd as (_ & HpA & [HpB _]%NoDup_cons). destruct (bare_page _ _ Ha) as [Hcov Hpg].
  assert (Hnew : forall a, page_of (area (vmas mm') n) a = asked a).
  { intros a. rewrite Hpg, <- Hpage. unfold page_of. cbn. f_equal. rewrite Hoff, <- Hw, !u32_add_l, pages_between by lia.
    replace (u32 (pgoff + (end_ - addr) / PAGE_SIZE) - (end_ - addr) / PAGE_SIZE + (a - addr) / PAGE_SIZE)
      with (u32 (pgoff + (end_ - addr) / PAGE_SIZE) + ((a - addr) / PAGE_SIZE - (end_ - addr) / PAGE_SIZE)) by lia.
    rewrite u32_add_l. replace (a - addr) with ((end_ - addr) + (a - end_)) by lia. rewrite div_pages by (apply sub_pages; by destruct pages). f_equal. lia. }
  apply remapped; try done.
  - intros z HzAB. apply Hz; [set_solver|]. intros ->. apply elem_of_app in HzAB as [HzA|HzB]; [apply (HpA n); set_solver|set_solver].
  - intros z ->%list_elem_of_singleton. eapply paged_bare; [done|]. destruct (sp_paged _ _ _ Hsp n) as (? & ? & ?); [set_solver|]. split; [by destruct pages|by split].
  - intros a. unfold regions. rewrite fmap_app, contents_app. cbn [fmap list_fmap contents]. rewrite Hcov, Hnew. fold w (regions (vmas mm) Y). rewrite Hpage.
    unfold covers. cbn [vm_start vm_end set_vm_start set_vm_pgoff]. specialize (HY a).
    destruct (Z.leb_spec addr a), (Z.ltb_spec a end_), (Z.leb_spec (vm_start w) a), (Z.ltb_spec a (vm_end w)); cbn [andb]; try done; try lia.
    all: by rewrite HY by lia.
Qed.

(** The boundary between two areas moved. *)
Lemma merged_moved A p n B mm mm' e : let v := area (vmas mm) p in let w := area (vmas mm) n in
  space (A ++ [p; n] ++ B) mm -> (exists R', mm_wf stack_guard_gap R' (A ++ [p; n] ++ B) mm') -> bare (area (vmas mm') p) = bare (set_vm_end v e) ->
  bare (area (vmas mm') n) = bare (moved_next w e) -> (forall z, z <> p -> z <> n -> bare (area (vmas mm') z) = bare (area (vmas mm) z)) ->
  vm_end v = vm_start w -> vm_start v < e < vm_end w -> e mod PAGE_SIZE = 0 ->
  (e = addr /\ end_ = vm_start w /\ (forall a, page_of w a = asked a)) \/ (e = end_ /\ vm_end v = addr /\ (forall a, page_of v a = asked a)) ->
  kept mm (A ++ [p; n] ++ B) mm' (A ++ [p; n] ++ B) -> merged mm (A ++ [p; n] ++ B) mm' (A ++ [p; n] ++ B).
Proof.
  intros v w Hsp Hwf Hp Hn Hz Hvw He Hem Hcase Hk. destruct (space_nodup _ _ _ Hsp) as [Hnd _]. cbn [app] in Hnd.
  apply NoDup_app in Hnd as (_ & HpA & [HpB HnB]%NoDup_cons). apply NoDup_cons in HnB as [HnB _].
  destruct (space_order _ A p (n :: B) mm Hsp) as (Hvb & HA & HB). fold v in Hvb, HA, HB. specialize (HB n ltac:(set_solver)) as Hwb. fold w in Hwb.
  destruct (bare_page _ _ Hp) as [Hcp Hpp], (bare_page _ _ Hn) as [Hcn Hpn].
  destruct (sp_paged _ _ _ Hsp p) as (Hv1 & Hv2 & Hv3); [set_solver|]. destruct (sp_paged _ _ _ Hsp n) as (Hw1 & Hw2 & Hw3); [set_solver|].
  apply remapped; try done.
  - intros z HzAB. apply Hz; intros ->; apply elem_of_app in HzAB as [HzA|HzB]; [apply (HpA p)|..|apply (HpA n)|]; set_solver.
  - intros z Hz'. apply elem_of_cons in Hz' as [-> | ->%list_elem_of_singleton]; (eapply paged_bare; [done|]); (split; [done|by split]).
  - intros z HzA. specialize (HA z HzA). destruct Hcase as [(-> & _)|(_ & <- & _)]; lia.
  - intros a. cbn [regions fmap list_fmap contents]. rewrite Hcp, Hpp, Hcn, Hpn. change (page_of (set_vm_end v e) a) with (page_of v a). fold v w.
    assert (Hmv : page_of (moved_next w e) a = page_of w a) by (unfold page_of; cbn; f_equal; by apply offset_shift). rewrite Hmv.
    unfold covers. cbn [vm_start vm_end set_vm_end moved_next set_vm_start set_vm_pgoff].
    destruct Hcase as [(He' & Hend & Hpage)|(He' & Hend & Hpage)]; rewrite !Hpage.
    all: destruct (Z.leb_spec (vm_start v) a), (Z.leb_spec addr a), (Z.ltb_spec a e), (Z.ltb_spec a end_), (Z.ltb_spec a (vm_end v)),
      (Z.leb_spec e a), (Z.ltb_spec a (vm_end w)), (Z.leb_spec (vm_start w) a); cbn [andb]; try done; lia.
Qed.

(** ** [vma_merge] *)

(** Where the range may be: between two areas, at the end of the area before it, or at the
    start of the area after it. *)
Inductive placed_at (mm : mm_struct) (A B : list Z) : Prop :=
  | at_gap : (forall z, z ∈ A -> vm_end (area (vmas mm) z) <= addr) -> (forall z, z ∈ B -> end_ <= vm_start (area (vmas mm) z)) -> placed_at mm A B
  | at_tail A' p : A = A' ++ [p] -> vm_start (area (vmas mm) p) < addr -> end_ <= vm_end (area (vmas mm) p) -> placed_at mm A B
  | at_head x B' : B = x :: B' -> (forall z, z ∈ A -> vm_end (area (vmas mm) z) <= addr) -> vm_start (area (vmas mm) x) = addr ->
      end_ <= vm_end (area (vmas mm) x) -> placed_at mm A B.

(** The area before the range that it can be merged with, and the one after it. *)
Definition joins_prev (mm : mm_struct) (A : list Z) : bool :=
  match last A with
  | Some p => (vm_end (area (vmas mm) p) =? addr) && can_vma_merge_after (area (vmas mm) p) flags anon file pgoff name
  | None => false
  end.

Definition joins_next (mm : mm_struct) (N : list Z) : bool :=
  match N with
  | n :: _ => (end_ =? vm_start (area (vmas mm) n)) && can_vma_merge_before (area (vmas mm) n) flags anon file (u32 (pgoff + pglen)) name
  | [] => false
  end.

(** The areas after the range. *)
Definition beyond (mm : mm_struct) (B : list Z) : list Z :=
  match B with x :: B' => if vm_end (area (vmas mm) x) =? end_ then B' else B | [] => [] end.

Lemma beyond_in mm B z : z ∈ beyond mm B -> z ∈ B.
Proof. unfold beyond. destruct B as [|x B']; [done|]. destruct (_ =? _); [apply list_elem_of_further|done]. Qed.

(** What is left of [vma_merge] when these are known. *)
Definition merge_rest (clone_err : Z) (mm : mm_struct) (prev area next : Z) (after before : bool) : outcome (mm_struct * Z) :=
  if after then
    let* p := vma_at (vmas mm) prev in
    let* both := if before then let* n := vma_at (vmas mm) next in Ret (is_mergeable_anon_vma (anon_vma p) (anon_vma n) true) else Ret false in
    let* (mm, err) :=
      if both : bool then let* n := vma_at (vmas mm) next in __vma_adjust stack_guard_gap clone_err mm prev (vm_start p) (vm_end n) (vm_pgoff p) 0 prev
      else __vma_adjust stack_guard_gap clone_err mm prev (vm_start p) end_ (vm_pgoff p) 0 prev in
    Ret (mm, if negb (err =? 0) then 0 else prev)
  else if before then
    let* inside := vma_and mm prev (fun p => addr <? vm_end p) in
    let* (mm, err, area) :=
      if inside : bool then
        let* p := vma_at (vmas mm) prev in
        let* (mm, err) := __vma_adjust stack_guard_gap clone_err mm prev (vm_start p) addr (vm_pgoff p) 0 next in Ret (mm, err, area)
      else
        let* n := vma_at (vmas mm) next in
        let* (mm, err) := __vma_adjust stack_guard_gap clone_err mm area addr (vm_end n) (u32 (vm_pgoff n - pglen)) 0 next in Ret (mm, err, next) in
    Ret (mm, if negb (err =? 0) then 0 else area)
  else Ret (mm, 0).

Lemma space_some l mm : space l mm -> forall z, z ∈ l -> is_Some (vmas mm !! z) /\ z <> 0.
Proof.
  intros Hsp z Hz. destruct (space_nodup _ _ _ Hsp) as [_ H0]. destruct Hsp as [[R Hwf] _ _]. split; [by apply (listed_readable _ _ z (wf_list _ _ _ _ Hwf))|by intros ->].
Qed.

Lemma vma_merge_rest A B mm clone_err : space (A ++ B) mm -> Z.land flags VM_SPECIAL = 0 ->
  vma_merge stack_guard_gap clone_err mm (end_of Right A) addr end_ flags anon file pgoff name
  = merge_rest clone_err mm (end_of Right A) (end_of Left B) (end_of Left (beyond mm B)) (joins_prev mm A) (joins_next mm (beyond mm B)).
Proof.
  intros Hsp Hfl. pose proof (space_some _ _ Hsp) as Hsome. destruct Hsp as [[R Hwf] _ _].
  assert (HsA : forall z, z ∈ A -> is_Some (vmas mm !! z) /\ z <> 0) by (intros z Hz; apply Hsome; set_solver).
  assert (HsB : forall z, z ∈ B -> is_Some (vmas mm !! z) /\ z <> 0) by (intros z Hz; apply Hsome; set_solver).
  unfold vma_merge. rewrite Hfl. cbn [Z.eqb negb].
  assert (Hnext : (if negb (end_of Right A =? 0) then let* p := vma_at (vmas mm) (end_of Right A) in Ret (vm_next p) else Ret (mmap mm)) = Ret (end_of Left B)).
  { destruct A as [|p A' _] using rev_ind; [change (end_of Right []) with 0; cbn; by rewrite (wf_mmap _ _ _ _ Hwf)|].
    rewrite end_right_snoc. destruct (HsA p ltac:(set_solver)) as [Hp Hp0]. rewrite (proj2 (Z.eqb_neq p 0)), vma_at_area by done. cbn [negb obind].
    pose proof (wf_list _ _ _ _ Hwf) as Hl. destruct (Hl A' p B) as (_ & _ & ->); [by rewrite <- app_assoc|done]. }
  rewrite Hnext. cbn [obind].
  assert (Hwhole : (let* whole := vma_and mm (end_of Left B) (fun a => vm_end a =? end_) in
     if whole : bool then let* a := vma_at (vmas mm) (end_of Left B) in Ret (vm_next a) else Ret (end_of Left B)) = Ret (end_of Left (beyond mm B))).
  { unfold vma_and, beyond. destruct B as [|x B']; [done|]. change (end_of Left (x :: B')) with x. destruct (HsB x ltac:(set_solver)) as [Hx Hx0].
    rewrite (proj2 (Z.eqb_neq x 0)), vma_at_area by done. cbn [negb obind]. destruct (vm_end (area (vmas mm) x) =? end_); cbn [obind]; [|done].
    pose proof (wf_list _ _ _ _ Hwf) as Hl. by destruct (Hl A x B' eq_refl) as (_ & _ & ->). }
  assert (Hprev : vma_and mm (end_of Right A) (fun p => (vm_end p =? addr) && can_vma_merge_after p flags anon file pgoff name) = Ret (joins_prev mm A)).
  { unfold vma_and, joins_prev. destruct A as [|p A' _] using rev_ind; [done|]. rewrite end_right_snoc, last_snoc.
    destruct (HsA p ltac:(set_solver)) as [Hp Hp0]. by rewrite (proj2 (Z.eqb_neq p 0)), vma_at_area by done. }
  assert (Hafter : vma_and mm (end_of Left (beyond mm B)) (fun n => (end_ =? vm_start n) && can_vma_merge_before n flags anon file (u32 (pgoff + pglen)) name)
    = Ret (joins_next mm (beyond mm B))).
  { pose proof (beyond_in mm B) as HsN. unfold vma_and, joins_next. destruct (beyond mm B) as [|n N]; [done|]. change (end_of Left (n :: N)) with n.
    destruct (HsB n) as [Hn Hn0]; [apply HsN; set_solver|]. by rewrite (proj2 (Z.eqb_neq n 0)), vma_at_area by done. }
  destruct (vma_and mm (end_of Left B) (fun a => vm_end a =? end_)) as [whole| | |]; cbn [obind] in Hwhole |- *; try done.
  rewrite Hwhole. cbn [obind]. rewrite Hprev. cbn [obind]. rewrite Hafter. done.
Qed.

(** *** The eight cases *)

(** An area that has the whole range. *)
Definition spans (mm : mm_struct) (r : Z) : Prop := vm_start (area (vmas mm) r) <= addr /\ end_ <= vm_end (area (vmas mm) r).

Lemma bare_spans mm r v : bare (area (vmas mm) r) = bare v -> vm_start v <= addr -> end_ <= vm_end v -> spans mm r.
Proof. intros (Hs & He & _)%bare_bounds H1 H2. unfold spans. by rewrite Hs, He. Qed.

(** [l] becomes [l'] with the range in the area [r], or the anonymous memory cannot be
    shared and nothing changes. *)
Definition adjust_result (clone_err : Z) (mm : mm_struct) (l l' : list Z) (r : Z) (o : outcome (mm_struct * Z)) : Prop :=
  exists mm' err, o = Ret (mm', err)
    /\ ((err <> 0 /\ clone_err = err /\ untouched stack_guard_gap mm mm' l) \/ (err = 0 /\ merged mm l mm' l' /\ (length l' <= length l)%nat /\ spans mm' r)).

Lemma absorbed_kept mm mm' l l' x v' k : absorbed stack_guard_gap mm mm' l' x v' k -> 0 <= vmacache_seqnum mm -> 0 < k <= 2 ->
  vmacache_seqnum mm + k < 2 ^ 64 -> kept mm l mm' l'.
Proof.
  intros [[_ _ _ Hma] Hsq] H0 Hk Hb. unfold kept, cache_kept. rewrite Hsq. unfold wrap. rewrite Z.mod_small by lia. split; [split; [done|right; lia]|lia].
Qed.

Lemma untouched_resplit l mm mm' : space l mm -> untouched stack_guard_gap mm mm' l -> resplit stack_guard_gap mm l mm' l.
Proof.
  intros [_ Hpg Hsq0] (Hwf & Hb & Hma & Hsq & _). split; try done.
  - split; [done| |by rewrite Hsq]. intros z Hz. eapply paged_bare; [by apply Hb|auto].
  - intros a. unfold maps. by rewrite (contents_same _ (vmas mm)).
Qed.

Lemma space_area l mm z : space l mm -> z ∈ l -> 0 <= vm_start (area (vmas mm) z) < vm_end (area (vmas mm) z) /\ vm_end (area (vmas mm) z) < 2 ^ 32.
Proof. intros [[R Hwf] _ _] Hz. by destruct (wf_areas _ _ _ _ Hwf z Hz) as (? & ? & _). Qed.

Section Cases.
Context (mm : mm_struct) (clone_err : Z).
Hypothesis guard_range : 0 <= stack_guard_gap < 2 ^ 32.
Hypothesis seq_range : vmacache_seqnum mm + 2 < 2 ^ 64.
Abbreviation ar := (area (vmas mm)).
Abbreviation adjust := (__vma_adjust stack_guard_gap clone_err mm).
Abbreviation joined v := (forall a, page_of v a = asked a).

Lemma contents_one (vs : gmap Z vm_area_struct) z a : contents (regions vs [z]) a = if covers (area vs z) a then Some (page_of (area vs z) a) else None.
Proof. done. Qed.

(** 1: the gap between two areas is filled. *)
Lemma merge_case1 A p n B : space (A ++ p :: n :: B) mm -> vm_end (ar p) = addr -> joined (ar p) -> end_ = vm_start (ar n) -> joined (ar n) ->
  adjust_result clone_err mm (A ++ p :: n :: B) (A ++ p :: B) p (adjust p (vm_start (ar p)) (vm_end (ar n)) (vm_pgoff (ar p)) 0 p).
Proof.
  intros Hsp Hp Hjp Hn Hjn. pose proof Hsp as [[R Hwf] Hpg Hsq0]. pose proof (space_area _ _ p Hsp ltac:(set_solver)) as Hbd. destruct (space_order stack_guard_gap (A ++ [p]) n B mm) as (Hnb & _ & _); [by rewrite <- app_assoc|].
  destruct (absorb_next stack_guard_gap R A p n B mm clone_err Hwf) as (mm' & err & Hrun & Hres). exists mm', err. split; [done|].
  destruct Hres as [?|[-> Habs]]; [by left|right]. split; [done|]. split; [|split; [rewrite !length_app; simpl; lia|apply (bare_spans _ _ _ (ch_area _ _ _ _ _ _ (proj1 Habs))); cbn; lia]]. apply (merged_up A p [n] B mm mm' (vm_end (ar n))); try done; try apply Habs; try lia.
  - by destruct (Hpg n ltac:(set_solver)) as (_ & ? & _).
  - intros a Ha. rewrite contents_one, covers_true by lia. by rewrite Hjn.
  - intros a Ha. by rewrite contents_one, covers_false by lia.
  - by apply (absorbed_kept _ _ _ _ _ _ _ Habs); try lia.
Qed.

(** 2: the area before it grows. *)
Lemma merge_case2 A p B : space (A ++ p :: B) mm -> vm_end (ar p) = addr -> joined (ar p) -> (forall z, z ∈ B -> end_ <= vm_start (ar z)) ->
  adjust_result clone_err mm (A ++ p :: B) (A ++ p :: B) p (adjust p (vm_start (ar p)) end_ (vm_pgoff (ar p)) 0 p).
Proof.
  intros Hsp Hp Hjp HB. pose proof Hsp as [[R Hwf] Hpg Hsq0]. pose proof (space_area _ _ p Hsp ltac:(set_solver)) as Hbd.
  destruct (grow_up stack_guard_gap R A p B mm Hwf clone_err end_) as (mm' & Hrun & Hch & Hsq); [lia|done|]. exists mm', 0. split; [done|]. right. split; [done|]. split; [|split; [rewrite !length_app; simpl; lia|apply (bare_spans _ _ _ (ch_area _ _ _ _ _ _ Hch)); cbn; lia]].
  apply (merged_up A p [] B mm mm' end_); try done; try lia; try (by destruct pages). split; [split; [apply Hch|by left]|lia].
Qed.

(** 3: the area after it grows. *)
Lemma merge_case3 A n B : space (A ++ n :: B) mm -> end_ = vm_start (ar n) -> vm_pgoff (ar n) = u32 (pgoff + pglen) -> joined (ar n) ->
  (forall z, z ∈ A -> vm_end (ar z) <= addr) ->
  adjust_result clone_err mm (A ++ n :: B) (A ++ n :: B) n (adjust n addr (vm_end (ar n)) (u32 (vm_pgoff (ar n) - pglen)) 0 n).
Proof.
  intros Hsp Hn Ho Hjn HA. pose proof Hsp as [[R Hwf] Hpg Hsq0]. pose proof (space_area _ _ n Hsp ltac:(set_solver)) as Hbd.
  destruct (grow_down stack_guard_gap R A n B mm Hwf clone_err addr (u32 (vm_pgoff (ar n) - pglen))) as (mm' & Hrun & Hch & Hsq); [lia|done|].
  exists mm', 0. split; [done|]. right. split; [done|]. split; [|split; [rewrite !length_app; simpl; lia|apply (bare_spans _ _ _ (ch_area _ _ _ _ _ _ Hch)); cbn; lia]]. apply (merged_down A [] n B mm mm'); try done. split; [split; [apply Hch|by left]|lia].
Qed.

(** 4 and 5: the boundary between two areas moves. *)
Lemma merge_case45 A p n B e expand : space (A ++ p :: n :: B) mm -> vm_end (ar p) = vm_start (ar n) -> vm_start (ar p) < e < vm_end (ar n) -> e <> vm_end (ar p) ->
  (e = addr /\ end_ = vm_start (ar n) /\ joined (ar n)) \/ (e = end_ /\ vm_end (ar p) = addr /\ joined (ar p)) ->
  adjust_result clone_err mm (A ++ p :: n :: B) (A ++ p :: n :: B) (if decide (e = addr) then n else p) (adjust p (vm_start (ar p)) e (vm_pgoff (ar p)) 0 expand).
Proof.
  intros Hsp Hpn He Hne Hcase. pose proof Hsp as [[R Hwf] Hpg Hsq0]. pose proof (space_area _ _ p Hsp ltac:(set_solver)) as Hbd. destruct (Hpg n ltac:(set_solver)) as (Hnm & _ & _).
  assert (Hem : e mod PAGE_SIZE = 0) by (destruct pages; destruct Hcase as [(-> & _)|(-> & _)]; done).
  destruct (move_boundary stack_guard_gap R A p n B mm clone_err e expand) as (mm' & err & Hrun & Hres); try done. exists mm', err. split; [done|].
  destruct Hres as [?|(-> & Hwf' & Hbp & Hbn & Hz & Hma & Hsq)]; [by left|right]. split; [done|]. split; [|split; [rewrite !length_app; simpl; lia|]].
  2:{ pose proof (space_area _ _ n Hsp ltac:(set_solver)). destruct Hcase as [(E1 & E2 & _)|(E1 & E2 & _)].
      - rewrite decide_True by done. apply (bare_spans _ _ _ Hbn); cbn; lia.
      - rewrite decide_False by lia. apply (bare_spans _ _ _ Hbp); cbn; lia. }
  apply (merged_moved A p n B mm mm' e); try done.
  split; [split; [done|by left]|lia].
Qed.

(** 6: the area the range covers goes, and the areas around it become one. *)
Lemma merge_case6 A p x n B : space (A ++ p :: x :: n :: B) mm -> vm_end (ar p) = addr -> joined (ar p) -> vm_start (ar x) = addr -> vm_end (ar x) = end_ ->
  end_ = vm_start (ar n) -> joined (ar n) ->
  adjust_result clone_err mm (A ++ p :: x :: n :: B) (A ++ p :: B) p (adjust p (vm_start (ar p)) (vm_end (ar n)) (vm_pgoff (ar p)) 0 p).
Proof.
  intros Hsp Hp Hjp Hx Hx' Hn Hjn. pose proof Hsp as [[R Hwf] Hpg Hsq0]. pose proof (space_area _ _ p Hsp ltac:(set_solver)) as Hbd. destruct (space_order stack_guard_gap (A ++ [p; x]) n B mm) as (Hnb & _ & _); [by rewrite <- app_assoc|].
  destruct (absorb_two stack_guard_gap R A p x n B mm clone_err Hwf) as (mm' & err & Hrun & Hres). exists mm', err. split; [done|].
  destruct Hres as [?|[-> Habs]]; [by left|right]. split; [done|]. split; [|split; [rewrite !length_app; simpl; lia|apply (bare_spans _ _ _ (ch_area _ _ _ _ _ _ (proj1 Habs))); cbn; lia]]. apply (merged_up A p [x; n] B mm mm' (vm_end (ar n))); try done; try apply Habs; try lia.
  - by destruct (Hpg n ltac:(set_solver)) as (_ & ? & _).
  - intros a Ha. cbn [regions fmap list_fmap contents]. rewrite covers_false, covers_true by lia. by rewrite Hjn.
  - intros a Ha. cbn [regions fmap list_fmap contents]. by rewrite !covers_false by lia.
  - by apply (absorbed_kept _ _ _ _ _ _ _ Habs); try lia.
Qed.

(** 7: the area the range covers goes under the area before it. *)
Lemma merge_case7 A p x B : space (A ++ p :: x :: B) mm -> vm_end (ar p) = addr -> joined (ar p) -> vm_start (ar x) = addr -> vm_end (ar x) = end_ ->
  adjust_result clone_err mm (A ++ p :: x :: B) (A ++ p :: B) p (adjust p (vm_start (ar p)) end_ (vm_pgoff (ar p)) 0 p).
Proof.
  intros Hsp Hp Hjp Hx Hx'. pose proof Hsp as [[R Hwf] Hpg Hsq0]. pose proof (space_area _ _ p Hsp ltac:(set_solver)) as Hbd.
  destruct (absorb_next stack_guard_gap R A p x B mm clone_err Hwf) as (mm' & err & Hrun & Hres). rewrite Hx' in Hrun, Hres. exists mm', err. split; [done|].
  destruct Hres as [?|[-> Habs]]; [by left|right]. split; [done|]. split; [|split; [rewrite !length_app; simpl; lia|apply (bare_spans _ _ _ (ch_area _ _ _ _ _ _ (proj1 Habs))); cbn; lia]]. apply (merged_up A p [x] B mm mm' end_); try done; try apply Habs; try lia.
  - intros a Ha. by rewrite contents_one, covers_false by lia.
  - by apply (absorbed_kept _ _ _ _ _ _ _ Habs); try lia.
Qed.

(** 8: ... or under the area after it. *)
Lemma merge_case8 A x n B : space (A ++ x :: n :: B) mm -> vm_start (ar x) = addr -> vm_end (ar x) = end_ -> end_ = vm_start (ar n) ->
  vm_pgoff (ar n) = u32 (pgoff + pglen) -> joined (ar n) -> (forall z, z ∈ A -> vm_end (ar z) <= addr) ->
  adjust_result clone_err mm (A ++ x :: n :: B) (A ++ n :: B) n (adjust x addr (vm_end (ar n)) (u32 (vm_pgoff (ar n) - pglen)) 0 n).
Proof.
  intros Hsp Hx Hx' Hn Ho Hjn HA. pose proof Hsp as [[R Hwf] Hpg Hsq0]. pose proof (space_area _ _ n Hsp ltac:(set_solver)) as Hbd.
  destruct (absorb_prev stack_guard_gap R A x n B mm clone_err (u32 (vm_pgoff (ar n) - pglen))) as (mm' & err & Hrun & Hres); [done|done|by rewrite Hx'|].
  rewrite Hx in Hrun, Hres. exists mm', err. split; [done|]. destruct Hres as [?|[-> Habs]]; [by left|right]. split; [done|]. split; [|split; [rewrite !length_app; simpl; lia|apply (bare_spans _ _ _ (ch_area _ _ _ _ _ _ (proj1 Habs))); cbn; lia]].
  apply (merged_down A [x] n B mm mm'); try done; try apply Habs.
  - intros a Ha. by rewrite contents_one, covers_false by lia.
  - by apply (absorbed_kept _ _ _ _ _ _ _ Habs); try lia.
Qed.

(** *** The cases together *)

(** NULL and the same mappings, or an area of the address space after the merge with an area
    that maps what is asked for; NULL only if nothing can be merged or the anonymous memory
    cannot be shared. *)
Definition merge_result (l : list Z) (joins : bool) (o : outcome (mm_struct * Z)) : Prop :=
  exists mm' r, o = Ret (mm', r)
    /\ ((r = 0 /\ untouched stack_guard_gap mm mm' l /\ (joins = true -> clone_err <> 0)) \/ (r <> 0 /\ exists l', r ∈ l' /\ merged mm l mm' l' /\ (length l' <= length l)%nat /\ spans mm' r /\ exists z, z ∈ l /\ joined (ar z))).

Lemma adjust_merge l l' o p joins : space l mm -> adjust_result clone_err mm l l' p o -> p ∈ l -> joined (ar p) -> p ∈ l' -> p <> 0 ->
  merge_result l joins (let* (mm, err) := o in Ret (mm, if negb (err =? 0) then 0 else p)).
Proof.
  intros Hsp (mm' & err & -> & Hres) Hpl Hj Hp Hp0. cbn [obind]. exists mm', (if negb (err =? 0) then 0 else p). split; [done|].
  destruct Hres as [(Herr & Hc & Hu)|(-> & Hm & Hlen & Hspan)].
  - rewrite (proj2 (Z.eqb_neq err 0)) by done. left. split; [done|]. split; [done|congruence].
  - right. split; [done|]. exists l'. split; [done|]. split; [done|]. split; [done|]. split; [done|]. by exists p.
Qed.

Lemma nothing_merged l joins : space l mm -> joins = false -> merge_result l joins (Ret (mm, 0)).
Proof. intros Hsp ->. exists mm, 0. split; [done|]. left. split; [done|]. split; [|done]. destruct Hsp as [? _ _]. by split_and!. Qed.

(** The two ways into the adjustments. *)
Lemma rest_after l l1 p a N before joins : space l mm -> p ∈ l -> joined (ar p) -> p ∈ l1 -> (forall z, z ∈ N -> z ∈ l) ->
  adjust_result clone_err mm l l1 p (adjust p (vm_start (ar p)) end_ (vm_pgoff (ar p)) 0 p) ->
  (before = true -> exists n N' l2, N = n :: N' /\ p ∈ l2
     /\ adjust_result clone_err mm l l2 p (adjust p (vm_start (ar p)) (vm_end (ar n)) (vm_pgoff (ar p)) 0 p)) ->
  merge_result l joins (merge_rest clone_err mm p a (end_of Left N) true before).
Proof.
  intros Hsp Hp Hj Hp1 HN H1 H2. destruct (space_some _ _ Hsp p Hp) as [Hps Hp0]. unfold merge_rest. rewrite vma_at_area by done. cbn [obind].
  destruct before; [|cbn [obind]; by apply (adjust_merge l l1)]. destruct (H2 eq_refl) as (n & N' & l2 & -> & Hp2 & H2'). change (end_of Left (n :: N')) with n.
  destruct (space_some _ _ Hsp n ltac:(set_solver)) as [Hns _]. rewrite vma_at_area by done. cbn [obind].
  destruct (is_mergeable_anon_vma _ _ _); [by apply (adjust_merge l l2)|by apply (adjust_merge l l1)].
Qed.

Lemma rest_before l l1 A a n N : space l mm -> (forall z, z ∈ A -> z ∈ l /\ vm_end (ar z) <= addr) -> n ∈ l -> joined (ar n) -> n ∈ l1 ->
  adjust_result clone_err mm l l1 n (adjust a addr (vm_end (ar n)) (u32 (vm_pgoff (ar n) - pglen)) 0 n) ->
  merge_result l true (merge_rest clone_err mm (end_of Right A) a (end_of Left (n :: N)) false true).
Proof.
  intros Hsp HA Hn Hj Hn1 H1. destruct (space_some _ _ Hsp n Hn) as [Hns Hn0]. unfold merge_rest. change (end_of Left (n :: N)) with n.
  assert (Hin : vma_and mm (end_of Right A) (fun p => addr <? vm_end p) = Ret false).
  { unfold vma_and. destruct A as [|p A' _] using rev_ind; [done|]. rewrite end_right_snoc. destruct (HA p ltac:(set_solver)) as [Hp Hpe].
    destruct (space_some _ _ Hsp p Hp) as [Hps Hp0]. rewrite (proj2 (Z.eqb_neq p 0)), vma_at_area by done. cbn [negb obind]. by rewrite (proj2 (Z.ltb_ge _ _)). }
  rewrite Hin. cbn [obind]. rewrite vma_at_area by done. cbn [obind]. pose proof (adjust_merge l l1 _ n true Hsp H1 Hn Hj Hn1 Hn0) as H.
  destruct H1 as (mm' & err & Hrun & _). rewrite Hrun in H |- *. exact H.
Qed.

Lemma joins_prev_spec A B : space (A ++ B) mm -> joins_prev mm A = true -> exists A' p, A = A' ++ [p] /\ vm_end (ar p) = addr /\ joined (ar p).
Proof.
  intros Hsp Hj. unfold joins_prev in Hj. destruct A as [|p A' _] using rev_ind; [done|]. rewrite last_snoc in Hj. exists A', p. split; [done|].
  apply andb_true_iff in Hj as [He%Z.eqb_eq Hc]. split; [done|]. assert (Hp : p ∈ (A' ++ [p]) ++ B) by set_solver.
  pose proof (sp_paged _ _ _ Hsp p Hp) as Hpg. destruct Hsp as [[R Hwf] _ _]. destruct (wf_areas _ _ _ _ Hwf p Hp) as [Hb _].
  intros a. by apply (merge_after_page _ a Hpg Hb He).
Qed.

Lemma joins_next_spec n N : paged (ar n) -> joins_next mm (n :: N) = true -> end_ = vm_start (ar n) /\ vm_pgoff (ar n) = u32 (pgoff + pglen) /\ joined (ar n).
Proof.
  intros Hpg [Hs%Z.eqb_eq Hc]%andb_true_iff. split_and!; [done| |].
  - unfold can_vma_merge_before in Hc. destruct (_ && _); [by apply Z.eqb_eq in Hc|done].
  - intros a. by apply (merge_before_page _ a Hpg Hs).
Qed.

(** In a gap: cases 1, 2 and 3. *)
Lemma merge_in_gap A B : space (A ++ B) mm -> (forall z, z ∈ A -> vm_end (ar z) <= addr) -> (forall z, z ∈ B -> end_ <= vm_start (ar z)) ->
  merge_result (A ++ B) (joins_prev mm A || joins_next mm B) (merge_rest clone_err mm (end_of Right A) (end_of Left B) (end_of Left B) (joins_prev mm A) (joins_next mm B)).
Proof.
  intros Hsp HA HB. assert (Hnext : joins_next mm B = true -> exists n N, B = n :: N /\ end_ = vm_start (ar n) /\ vm_pgoff (ar n) = u32 (pgoff + pglen) /\ joined (ar n)).
  { destruct B as [|n N]; [done|]. intros Hj. exists n, N. split; [done|]. apply (joins_next_spec n N); [|done]. apply (sp_paged _ _ _ Hsp). set_solver. }
  destruct (joins_prev mm A) eqn:Hprev; cbn [orb].
  - destruct (joins_prev_spec A B Hsp Hprev) as (A' & p & -> & Hpe & Hjp). rewrite end_right_snoc. rewrite <- app_assoc in Hsp |- *. cbn [app] in *.
    apply (rest_after _ (A' ++ p :: B) p _ B); [done|set_solver|done|set_solver|set_solver|by apply merge_case2|].
    intros (n & N & -> & Hn & _ & Hjn)%Hnext. exists n, N, (A' ++ p :: N). split_and!; [done|set_solver|by apply merge_case1].
  - destruct (joins_next mm B) eqn:Hj; [|by apply nothing_merged]. destruct (Hnext eq_refl) as (n & N & -> & Hn & Ho & Hjn). change (end_of Left (n :: N)) with n at 1.
    apply (rest_before _ (A ++ n :: N)); [done|intros z Hz; split; [set_solver|by apply HA]|set_solver|done|set_solver|by apply merge_case3].
Qed.

(** At the end of an area: case 4. *)
Lemma merge_at_tail A p B : space (A ++ p :: B) mm -> vm_start (ar p) < addr -> end_ <= vm_end (ar p) ->
  merge_result (A ++ p :: B) (joins_next mm B) (merge_rest clone_err mm p (end_of Left B) (end_of Left B) false (joins_next mm B)).
Proof.
  intros Hsp Hs He. destruct (joins_next mm B) eqn:Hj; [|by apply nothing_merged]. destruct B as [|n N]; [done|].
  destruct (joins_next_spec n N) as (Hn & Ho & Hjn); [apply (sp_paged _ _ _ Hsp); set_solver|done|]. change (end_of Left (n :: N)) with n.
  destruct (space_order _ A p (n :: N) mm Hsp) as (Hpb & _ & HpN). destruct (HpN n ltac:(set_solver)) as [Hpn Hnb].
  destruct (space_some _ _ Hsp p ltac:(set_solver)) as [Hps Hp0]. destruct (space_some _ _ Hsp n ltac:(set_solver)) as [_ Hn0].
  unfold merge_rest, vma_and. rewrite (proj2 (Z.eqb_neq p 0)), vma_at_area by done. cbn [negb obind]. rewrite (proj2 (Z.ltb_lt _ _)) by lia.
  assert (Hadj : adjust_result clone_err mm (A ++ p :: n :: N) (A ++ p :: n :: N) n (adjust p (vm_start (ar p)) addr (vm_pgoff (ar p)) 0 n)).
  { pose proof (merge_case45 A p n N addr n Hsp ltac:(lia) ltac:(lia) ltac:(lia)) as H. rewrite decide_True in H by done. apply H. left. split; [done|]. by split. }
  pose proof (adjust_merge _ _ _ n true Hsp Hadj ltac:(set_solver) Hjn ltac:(set_solver) Hn0) as H. destruct Hadj as (mm' & err & Hrun & _). rewrite Hrun in H |- *. exact H.
Qed.

(** At the start of an area: case 5 if it covers more than the range, else 6, 7 and 8. *)
Lemma merge_at_head A x B : space (A ++ x :: B) mm -> (forall z, z ∈ A -> vm_end (ar z) <= addr) -> vm_start (ar x) = addr -> end_ <= vm_end (ar x) ->
  merge_result (A ++ x :: B) (joins_prev mm A || joins_next mm (beyond mm (x :: B)))
    (merge_rest clone_err mm (end_of Right A) x (end_of Left (beyond mm (x :: B))) (joins_prev mm A) (joins_next mm (beyond mm (x :: B)))).
Proof.
  intros Hsp HA Hx He. unfold beyond. destruct (Z.eqb_spec (vm_end (ar x)) end_) as [Hxe|Hxe].
  - assert (Hnext : joins_next mm B = true -> exists n N, B = n :: N /\ end_ = vm_start (ar n) /\ vm_pgoff (ar n) = u32 (pgoff + pglen) /\ joined (ar n)).
    { destruct B as [|n N]; [done|]. intros Hj. exists n, N. split; [done|]. apply (joins_next_spec n N); [|done]. apply (sp_paged _ _ _ Hsp). set_solver. }
    destruct (joins_prev mm A) eqn:Hprev; cbn [orb].
    + destruct (joins_prev_spec A (x :: B) Hsp Hprev) as (A' & p & -> & Hpe & Hjp). rewrite end_right_snoc. rewrite <- app_assoc in Hsp |- *. cbn [app] in *.
      apply (rest_after _ (A' ++ p :: B) p _ B); [done|set_solver|done|set_solver|set_solver|by apply merge_case7|].
      intros (n & N & -> & Hn & _ & Hjn)%Hnext. exists n, N, (A' ++ p :: N). split_and!; [done|set_solver|by apply merge_case6].
    + destruct (joins_next mm B) eqn:Hj; [|by apply nothing_merged]. destruct (Hnext eq_refl) as (n & N & -> & Hn & Ho & Hjn).
      apply (rest_before _ (A ++ n :: N)); [done|intros z Hz; split; [set_solver|by apply HA]|set_solver|done|set_solver|by apply merge_case8].
  - assert (Hno : joins_next mm (x :: B) = false) by (cbn [joins_next]; rewrite Hx, (proj2 (Z.eqb_neq end_ addr)); [done|lia]). rewrite Hno.
    destruct (joins_prev mm A) eqn:Hprev; cbn [orb]; [|by apply nothing_merged].
    destruct (joins_prev_spec A (x :: B) Hsp Hprev) as (A' & p & -> & Hpe & Hjp). rewrite end_right_snoc. rewrite <- app_assoc in Hsp |- *. cbn [app] in *.
    destruct (space_order _ A' p (x :: B) mm Hsp) as (Hpb & _ & _).
    apply (rest_after _ (A' ++ p :: x :: B) p _ (x :: B)); [done|set_solver|done|set_solver|set_solver| |done].
    pose proof (merge_case45 A' p x B end_ p Hsp ltac:(congruence) ltac:(lia) ltac:(lia)) as H. rewrite decide_False in H by lia. apply H. right. by split.
Qed.

(** [vma_merge] of a range: it returns NULL with what is mapped unchanged, or an area of
    an address space in which the range maps what was asked for and the rest what it did.
    The first only if the flags are special, nothing can be merged or the anonymous memory
    could not be shared. *)
Lemma vma_merge_spec A B : space (A ++ B) mm -> placed_at mm A B ->
  merge_result (A ++ B) ((Z.land flags VM_SPECIAL =? 0) && (joins_prev mm A || joins_next mm (beyond mm B)))
    (vma_merge stack_guard_gap clone_err mm (end_of Right A) addr end_ flags anon file pgoff name).
Proof.
  intros Hsp Hpl. destruct (Z.eqb_spec (Z.land flags VM_SPECIAL) 0) as [Hfl|Hfl]; cbn [andb].
  2:{ unfold vma_merge. rewrite (proj2 (Z.eqb_neq _ 0)) by done. by apply nothing_merged. }
  rewrite (vma_merge_rest A B) by done.
  assert (Hbey : (forall z, z ∈ B -> end_ <= vm_start (ar z)) -> beyond mm B = B).
  { intros HB. unfold beyond. destruct B as [|x B']; [done|]. destruct (space_order _ A x B' mm Hsp) as (Hxb & _). specialize (HB x ltac:(set_solver)).
    by rewrite (proj2 (Z.eqb_neq _ _)) by lia. }
  destruct Hpl as [HA HB|A' p -> Hs He|x B' -> HA Hx He].
  - rewrite Hbey by done. by apply merge_in_gap.
  - rewrite <- app_assoc in Hsp |- *. cbn [app] in *. destruct (space_order _ A' p B mm Hsp) as (Hpb & _ & HpB).
    rewrite Hbey by (intros z Hz; destruct (HpB z Hz); lia). rewrite end_right_snoc. unfold joins_prev. rewrite last_snoc, (proj2 (Z.eqb_neq _ addr)) by lia.
    cbn [andb orb]. by apply merge_at_tail.
  - change (end_of Left (x :: B')) with x. by apply merge_at_head.
Qed.
End Cases.
End Merged.
End Asked.
