(* ===== verification/AddressBrk.v ===== *)
(** * The heap: [do_brk], the [brk] system call and what they call (mm/mmap.c)

    CONFIG_COMPAT_BRK is set.  The counters of pages of the address space are read and
    not written here: their values are inputs, and so are what the security hooks and
    the allocator return. *)
From Stdlib Require Import ZArith Lia Bool.
From stdpp Require Import base numbers list gmap.
From S2P Require Import Prelude RBTree VmArea AddressSpace AddressSearch AddressAdjust.

Definition VM_READ : Z := 1.
Definition VM_WRITE : Z := 2.
Definition VM_EXEC : Z := 4.
Definition VM_SHARED : Z := 8.
Definition VM_MAYREAD : Z := 16.
Definition VM_MAYWRITE : Z := 32.
Definition VM_MAYEXEC : Z := 64.
Definition VM_LOCKED : Z := 8192.
Definition VM_ACCOUNT : Z := 1048576.
Definition VM_STACK : Z := VM_GROWSDOWN.

(** [read_implies_exec] is the bit of the personality of the task. *)
Definition VM_DATA_DEFAULT_FLAGS (read_implies_exec : bool) : Z :=
  Z.lor (if read_implies_exec then VM_EXEC else 0)
    (Z.lor VM_READ (Z.lor VM_WRITE (Z.lor VM_MAYREAD (Z.lor VM_MAYWRITE VM_MAYEXEC)))).

(** ** Limits *)
Record vm_limits := mk_limits {
  rlimit_as : Z; rlimit_data : Z; rlimit_data_max : Z; rlimit_memlock : Z; ignore_rlimit_data : bool; cap_ipc_lock : bool
}.

Definition is_data_mapping (flags : Z) : bool := Z.land flags (Z.lor VM_WRITE (Z.lor VM_SHARED VM_STACK)) =? VM_WRITE.

Definition may_expand_vm (lim : vm_limits) (total_vm data_vm flags npages : Z) : bool :=
  if Z.shiftr (rlimit_as lim) PAGE_SHIFT <? u32 (total_vm + npages) then false
  else if is_data_mapping flags && (Z.shiftr (rlimit_data lim) PAGE_SHIFT <? u32 (data_vm + npages)) then
    if (rlimit_data lim =? 0) && (u32 (data_vm + npages) <=? Z.shiftr (rlimit_data_max lim) PAGE_SHIFT) then true
    else if negb (ignore_rlimit_data lim) then false
    else true
  else true.

Definition mlock_future_check (lim : vm_limits) (locked_vm flags len : Z) : Z :=
  if negb (Z.land flags VM_LOCKED =? 0) then
    let locked := u32 (Z.shiftr len PAGE_SHIFT + locked_vm) in
    let lock_limit := Z.shiftr (rlimit_memlock lim) PAGE_SHIFT in
    if (lock_limit <? locked) && negb (cap_ipc_lock lim) then - EAGAIN else 0
  else 0.

Definition RLIM_INFINITY : Z := U32_MAX.

Definition check_data_rlimit (rlim new start end_data start_data : Z) : Z :=
  if rlim <? RLIM_INFINITY then
    if rlim <? u32 (u32 (new - start) + u32 (end_data - start_data)) then - ENOSPC else 0
  else 0.

(** ** The address of a mapping *)

(** [get_unmapped_area] of an address space, a file or shared memory. *)
Definition area_fn : Type := mm_struct -> task_struct -> Z -> Z -> Z -> Z -> outcome (task_struct * Z).

Definition arch_mmap_check (addr flags : Z) : Z :=
  if negb (Z.land flags MAP_FIXED =? 0) && (addr <? FIRST_USER_ADDRESS) then u32 (- EINVAL) else 0.

Definition IS_ERR_VALUE (x : Z) : bool := u32 (- 4095) <=? x.

(** [file] is the function of the file, if there is a file and if it has one. *)
Definition get_unmapped_area (security_mmap_addr : Z -> Z) (mm_area shmem_area : area_fn) (file : option (option area_fn))
    (mm : mm_struct) (current : task_struct) (addr len pgoff flags : Z) : outcome (task_struct * Z) :=
  let error := arch_mmap_check addr flags in
  if negb (error =? 0) then Ret (current, error)
  else if TASK_SIZE <? len then Ret (current, nomem)
  else
    let '(get_area, pgoff) :=
      match file with
      | Some (Some f) => (f, pgoff)
      | Some None => (mm_area, pgoff)
      | None => if negb (Z.land flags MAP_SHARED =? 0) then (shmem_area, 0) else (mm_area, pgoff)
      end in
    let* (current, addr) := get_area mm current addr len pgoff flags in
    if IS_ERR_VALUE addr then Ret (current, addr)
    else if TASK_SIZE - len <? addr then Ret (current, nomem)
    else if negb (Z.land addr (PAGE_SIZE - 1) =? 0) then Ret (current, u32 (- EINVAL))
    else
      let error := u32 (security_mmap_addr addr) in
      Ret (current, if negb (error =? 0) then error else addr).

(** ** [do_brk] *)

(** What the calls and the state outside of the areas give: [current->personality],
    [mm->def_flags], the counters when they are read, [security_vm_enough_memory_mm] and
    [anon_vma_clone]. *)
Record brk_env := mk_env {
  read_implies_exec : bool; def_flags : Z; locked_vm : Z; total_vm : Z; data_vm : Z; limits : vm_limits; enough_memory : Z; brk_clone_err : Z
}.

Section Brk.
Variables (stack_guard_gap max_map_count : Z) (security_mmap_addr : Z -> Z) (mm_area shmem_area : area_fn).

(** [kmem_cache_zalloc(vm_area_cachep, GFP_KERNEL)] *)
Variable vm_area_zalloc : mm_struct -> Z.

(** [while (find_vma_links(...)) if (do_munmap(mm, addr, len)) return -ENOMEM;] with what the
    splits of each call of [do_munmap] return.  The place of the new area, or the error. *)
Fixpoint clear_old_maps (splits : list (split_calls * split_calls)) (mm : mm_struct) (current : task_struct) (addr len : Z)
    : outcome (mm_struct * task_struct * (Z + Z * Z * side)) :=
  let* r := find_vma_links mm addr (u32 (addr + len)) in
  match r with
  | inr place => Ret (mm, current, inr place)
  | inl _ =>
      match splits with
      | [] => Fuel
      | (calls1, calls2) :: splits =>
          let* (mm, current, error) := do_munmap stack_guard_gap max_map_count calls1 calls2 mm current addr len in
          if negb (error =? 0) then Ret (mm, current, inl (- ENOMEM)) else clear_old_maps splits mm current addr len
      end
  end.

Definition vma_link (mm : mm_struct) (vma prev rb_parent : Z) (s : side) : outcome mm_struct :=
  let* mm := __vma_link stack_guard_gap mm vma prev rb_parent s in
  Ret (set_map_count mm (s32 (map_count mm + 1))).

(** An allocated area of zeroes *)
Definition zeroed_vma (mm : mm_struct) (vma : Z) (v : vm_area_struct) : mm_struct :=
  let t := mm_rb mm in
  set_mm_rb (set_vmas mm (<[vma := v]> (vmas mm)))
    (mk_rb (<[vma := mk_node 0 0 0]> (rb_nodes t)) (rb_root t) (<[vma := 0]> (rb_data t))).

Definition do_brk (env : brk_env) (splits : list (split_calls * split_calls)) (mm : mm_struct) (current : task_struct) (addr request : Z)
    : outcome (mm_struct * task_struct * Z) :=
  let pgoff := Z.shiftr addr PAGE_SHIFT in
  let len := PAGE_ALIGN request in
  if len <? request then Ret (mm, current, - ENOMEM)
  else if len =? 0 then Ret (mm, current, 0)
  else
    let flags := Z.lor (Z.lor (VM_DATA_DEFAULT_FLAGS (read_implies_exec env)) VM_ACCOUNT) (def_flags env) in
    let* (current, area) := get_unmapped_area security_mmap_addr mm_area shmem_area None mm current addr len 0 MAP_FIXED in
    let error := s32 area in
    if negb (Z.land (u32 error) (PAGE_SIZE - 1) =? 0) then Ret (mm, current, error)
    else
      let error := mlock_future_check (limits env) (locked_vm env) (def_flags env) len in
      if negb (error =? 0) then Ret (mm, current, error)
      else
        let* (mm, current, r) := clear_old_maps splits mm current addr len in
        match r with
        | inl error => Ret (mm, current, error)
        | inr (prev, rb_parent, s) =>
            if negb (may_expand_vm (limits env) (total_vm env) (data_vm env) flags (Z.shiftr len PAGE_SHIFT)) then Ret (mm, current, - ENOMEM)
            else if max_map_count <? map_count mm then Ret (mm, current, - ENOMEM)
            else if negb (enough_memory env =? 0) then Ret (mm, current, - ENOMEM)
            else
              let* (mm, vma) := vma_merge stack_guard_gap (brk_clone_err env) mm prev addr (u32 (addr + len)) flags 0 0 pgoff 0 in
              if negb (vma =? 0) then Ret (mm, current, 0)
              else
                let vma := vm_area_zalloc mm in
                if vma =? 0 then Ret (mm, current, - ENOMEM)
                else
                  let v := mk_vma addr (u32 (addr + len)) 0 0 (mm_addr mm) flags 0 false 0 false pgoff 0 in
                  let* mm := vma_link (zeroed_vma mm vma v) vma prev rb_parent s in
                  Ret (mm, current, 0)
        end.

(** [killed] is the result of [down_write_killable]; faulting the pages in is not part of
    this state. *)
Definition vm_brk (env : brk_env) (splits : list (split_calls * split_calls)) (killed : bool) (mm : mm_struct) (current : task_struct) (addr len : Z)
    : outcome (mm_struct * task_struct * Z) :=
  if killed then Ret (mm, current, - EINTR) else do_brk env splits mm current addr len.

(** ** The system call *)

(** [mm->start_data], [end_data], [start_brk] and [brk] *)
Record brk_fields := mk_brk { start_data : Z; end_data : Z; start_brk : Z; brk : Z }.

(** [killed] is as above, [randomized] is [current->brk_randomized].  The new [mm->brk], and the value returned. *)
Definition sys_brk (env : brk_env) (splits : list (split_calls * split_calls)) (unmap1 unmap2 : split_calls) (killed randomized : bool)
    (mm : mm_struct) (b : brk_fields) (current : task_struct) (new : Z) : outcome (mm_struct * task_struct * Z * Z) :=
  if killed then Ret (mm, current, brk b, - EINTR)
  else
    let min_brk := if randomized then start_brk b else end_data b in
    let out mm current := Ret (mm, current, brk b, brk b) in
    let set_brk mm current := Ret (mm, current, new, new) in
    if new <? min_brk then out mm current
    else if negb (check_data_rlimit (rlimit_data (limits env)) new (start_brk b) (end_data b) (start_data b) =? 0) then out mm current
    else
      let newbrk := PAGE_ALIGN new in
      let oldbrk := PAGE_ALIGN (brk b) in
      if oldbrk =? newbrk then set_brk mm current
      else if new <=? brk b then
        let* (mm, current, r) := do_munmap stack_guard_gap max_map_count unmap1 unmap2 mm current newbrk (u32 (oldbrk - newbrk)) in
        if r =? 0 then set_brk mm current else out mm current
      else
        let* (current, next) := find_vma mm current oldbrk in
        let* blocked := vma_and mm next (fun n => vm_start_gap stack_guard_gap n <? u32 (newbrk + PAGE_SIZE)) in
        if blocked : bool then out mm current
        else
          let* (mm, current, r) := do_brk env splits mm current oldbrk (u32 (newbrk - oldbrk)) in
          if r <? 0 then out mm current else set_brk mm current.
End Brk.
