(* ===== verification/AddressHeap.v ===== *)
(** * What [do_brk] and the [brk] system call do to an address space *)
From Stdlib Require Import ZArith Lia Bool Sorted.
From stdpp Require Import base numbers list sorting gmap.
From S2P Require Import Prelude RBTree RBTreeShape RBTreeRep RBTreeAugment RBTreeInsert RBTreeErase RBTreeRemove RBTreeCallbacks RBTreeWalk RBTreeProps RBTreeSearch VmArea IntervalTree IntervalTreeSpec AddressSpace AddressSearch AddressGaps AddressLink AddressUnmap AddressFind AddressAdjust AddressMap AddressSplit AddressMunmap AddressChange AddressAbsorb AddressMerge AddressBrk.

(** ** The address of a fixed mapping *)

(** What [get_unmapped_area] of an address space promises for [MAP_FIXED]. *)
Class FixedArea (f : area_fn) : Prop :=
  fixed_at : forall mm tsk addr len pgoff, len <= TASK_SIZE -> f mm tsk addr len pgoff MAP_FIXED = Ret (tsk, addr).

#[global] Instance bottomup_fixed guard aliasing base : FixedArea (fun mm => arch_get_unmapped_area guard mm aliasing false base).
Proof. intros mm tsk addr len pgoff _. unfold arch_get_unmapped_area, map_fixed. cbn. by rewrite andb_false_r. Qed.

#[global] Instance topdown_fixed guard aliasing base : FixedArea (fun mm => arch_get_unmapped_area_topdown guard mm aliasing false base).
Proof.
  intros mm tsk addr len pgoff Hlen. unfold arch_get_unmapped_area_topdown, map_fixed. rewrite (proj2 (Z.ltb_ge _ _)) by done. cbn. by rewrite andb_false_r.
Qed.

(** Error numbers do not look like pages. *)
Definition error_number (e : Z) : Prop := - 4095 <= e < 0.

Lemma u32_error e : error_number e -> u32 e = 2 ^ 32 + e /\ s32 (u32 e) = e.
Proof.
  intros He. unfold error_number in He. split; [unfold wrap; symmetry; apply (Z.mod_unique _ _ (-1)); lia|]. rewrite swrap_wrap by done. apply s32_small. lia.
Qed.

Lemma error_in_page e : error_number e -> Z.land (u32 (s32 (u32 e))) (PAGE_SIZE - 1) <> 0.
Proof.
  intros He. destruct (u32_error e He) as [Hu ->]. rewrite Hu, land_page_offset. unfold error_number in He.
  rewrite <- (Z.mod_unique (2 ^ 32 + e) PAGE_SIZE (2 ^ 20 - 1) (PAGE_SIZE + e)); unfold PAGE_SIZE; lia.
Qed.

Section Fixed.
Context (security_mmap_addr : Z -> Z) (mm_area shmem_area : area_fn) `{!FixedArea mm_area}.
Hypothesis security_errors : forall a, security_mmap_addr a = 0 \/ error_number (security_mmap_addr a).

(** The addresses a fixed mapping may have. *)
Definition fixed_ok (addr len : Z) : Prop :=
  FIRST_USER_ADDRESS <= addr /\ addr + len <= TASK_SIZE /\ addr mod PAGE_SIZE = 0 /\ security_mmap_addr addr = 0.

Lemma get_fixed_area mm tsk addr len : 0 <= addr < 2 ^ 32 -> 0 < len ->
  exists r, get_unmapped_area security_mmap_addr mm_area shmem_area None mm tsk addr len 0 MAP_FIXED = Ret (tsk, r)
    /\ ((fixed_ok addr len /\ r = addr) \/ (~ fixed_ok addr len /\ exists e, error_number e /\ r = u32 e)).
Proof.
  intros Ha Hl. unfold get_unmapped_area, arch_mmap_check, fixed_ok. change (negb (Z.land MAP_FIXED MAP_FIXED =? 0)) with true. cbn [andb].
  assert (HE : forall e, error_number (- e) -> exists e', error_number e' /\ u32 (- e) = u32 e') by eauto.
  destruct (Z.ltb_spec addr FIRST_USER_ADDRESS) as [Hf|Hf].
  { cbn. eexists. split; [done|]. right. split; [lia|]. exists (- EINVAL). by split. }
  change (negb (0 =? 0)) with false. cbv iota. destruct (Z.ltb_spec TASK_SIZE len) as [Ht|Ht].
  { eexists. split; [done|]. right. split; [unfold FIRST_USER_ADDRESS, PAGE_SIZE in *; lia|]. exists (- ENOMEM). by split. }
  change (negb (Z.land MAP_FIXED MAP_SHARED =? 0)) with false. cbv iota zeta. rewrite fixed_at by lia. cbn [obind].
  destruct (IS_ERR_VALUE addr) eqn:Herr.
  { eexists. split; [done|]. right. apply Z.leb_le in Herr. change (u32 (- 4095)) with 4294963201 in Herr.
    split; [unfold TASK_SIZE; lia|]. exists (addr - 2 ^ 32). split; [unfold error_number; lia|]. unfold wrap. apply (Z.mod_unique _ _ (-1)); lia. }
  destruct (Z.ltb_spec (TASK_SIZE - len) addr) as [Hb|Hb].
  { eexists. split; [done|]. right. split; [lia|]. exists (- ENOMEM). by split. }
  rewrite land_page_offset. destruct (Z.eqb_spec (addr mod PAGE_SIZE) 0) as [Hm|Hm]; cbn [negb].
  2:{ eexists. split; [done|]. right. split; [tauto|]. exists (- EINVAL). by split. }
  destruct (security_errors addr) as [->|Hs].
  - cbn. eexists. split; [done|]. left. split; [|done]. lia.
  - destruct (u32_error _ Hs) as [Hu _]. unfold error_number in Hs. rewrite (proj2 (Z.eqb_neq _ 0)) by lia. cbn [negb].
    eexists. split; [done|]. right. split; [lia|]. by exists (security_mmap_addr addr).
Qed.
End Fixed.

(** ** Making room *)
Section Room.
Variable stack_guard_gap : Z.
Abbreviation space := (space stack_guard_gap).
Hypothesis guard_range : 0 <= stack_guard_gap < 2 ^ 32.

(** An area in a range maps an address of the range. *)
Lemma meets_mapped l mm addr end_ : space l mm -> addr < end_ -> Exists (meets (vmas mm) addr end_) l -> exists a, addr <= a < end_ /\ maps mm l a <> None.
Proof.
  intros Hsp Hr (z & Hz & H1 & H2)%Exists_exists. apply list_elem_of_split in Hz as (A & B & ->). destruct (space_order _ _ _ _ _ Hsp) as (Hzb & HA & _).
  exists (Z.max addr (vm_start (area (vmas mm) z))). split; [lia|]. unfold maps, regions. rewrite fmap_app, contents_app, fmap_cons. cbn [contents].
  rewrite covers_true by lia. by destruct (contents _ _).
Qed.

Lemma mapped_meets l mm addr end_ a : addr <= a < end_ -> maps mm l a <> None -> Exists (meets (vmas mm) addr end_) l.
Proof.
  intros Ha Hm. destruct (decide (Exists (meets (vmas mm) addr end_) l)) as [?|Hno]; [done|]. exfalso. apply Hm.
  apply contents_none. intros v (z & -> & Hz)%list_elem_of_fmap. apply covers_false.
  destruct (decide (a < vm_start (area (vmas mm) z))), (decide (vm_end (area (vmas mm) z) <= a)); [by left|by left|by right|].
  exfalso. apply Hno, Exists_exists. exists z. split; [done|]. split; lia.
Qed.

(** The place [find_vma_links] finds for a range with no areas. *)
Record free_place (mm : mm_struct) (l : list Z) (addr end_ : Z) (k : list frame) (R : nodes) : Prop := {
  fp_wf : mm_wf stack_guard_gap R l mm;
  fp_own : own R (cells (plug k E) 0) (rb_nodes (mm_rb mm));
  fp_root : rb_root (mm_rb mm) = ptr (plug k E);
  fp_bal : balanced (plug k E);
  fp_list : l = before k ++ after k;
  fp_before : forall y, y ∈ before k -> vm_end (area (vmas mm) y) <= addr;
  fp_after : forall y, y ∈ after k -> end_ <= vm_start (area (vmas mm) y)
}.

Lemma links_of_space l mm addr end_ : space l mm -> exists r, find_vma_links mm addr end_ = Ret r
  /\ ((Exists (meets (vmas mm) addr end_) l /\ exists e, r = inl e)
      \/ (~ Exists (meets (vmas mm) addr end_) l /\ exists k R, r = inr (end_of Right (before k), above k, last_side k) /\ free_place mm l addr end_ k R)).
Proof.
  intros [[R Hwf] _ _]. destruct (find_vma_links_spec R l mm addr end_) as (k & Ho & Hr & Hb & Hl & -> & Hs); [apply Hwf..|].
  destruct (decide (Exists (meets (vmas mm) addr end_) l)) as [He|He]; (eexists; split; [done|]).
  - left. split; [done|]. by eexists.
  - right. split; [done|]. destruct (Hs He) as [HA HB]. exists k, R. split; [done|]. by split.
Qed.

Definition range_free (m : Z -> option page) (addr end_ : Z) : Prop := forall a, addr <= a < end_ -> m a = None.

Lemma clear_maps_spec max c1 c2 rest l mm tsk addr len : space l mm -> cache_ok mm l tsk -> vmacache_seqnum mm + 1 < 2 ^ 64 ->
  munmap_args addr len -> PAGE_ALIGN len = len -> calls_fresh l c1 -> calls_fresh l c2 -> (new_vma c1 = new_vma c2 -> new_vma c1 = 0) ->
  exists mm' tsk' r l', clear_old_maps stack_guard_gap max ((c1, c2) :: rest) mm tsk addr len = Ret (mm', tsk', r)
    /\ space l' mm' /\ cache_kept mm l mm' l' /\ cache_ok mm' l' tsk' /\ (task_mm tsk' = task_mm tsk /\ task_flags tsk' = task_flags tsk)
    /\ vmacache_seqnum mm <= vmacache_seqnum mm' <= vmacache_seqnum mm + 1
    /\ ((r = inl (- ENOMEM) /\ ~ range_free (maps mm l) addr (addr + len) /\ forall a, maps mm' l' a = maps mm l a)
        \/ (exists k R, r = inr (end_of Right (before k), above k, last_side k) /\ free_place mm' l' addr (addr + len) k R
             /\ (range_free (maps mm l) addr (addr + len) -> mm' = mm /\ find_vma_links mm addr (addr + len) = Ret r)
             /\ forall a, maps mm' l' a = if decide (addr <= a < addr + len) then None else maps mm l a)).
Proof.
  intros Hsp Hc Hsq Hargs Hal Hf1 Hf2 Hne. destruct (munmap_end _ _ Hargs) as (Hte & Hpos & Hem & Heq). rewrite Hal in Hte, Hpos, Hem, Heq.
  assert (Hb : 0 <= addr < 2 ^ 32 /\ 0 <= len < 2 ^ 32) by (destruct Hargs as (_ & ? & ? & ?); unfold TASK_SIZE in *; lia). destruct Hb as [Hb1 Hb2].
  assert (Hfree : forall l1 mm1, range_free (maps mm1 l1) addr (addr + len) -> space l1 mm1 -> ~ Exists (meets (vmas mm1) addr (addr + len)) l1).
  { intros l1 mm1 Hno Hsp1 Hm. destruct (meets_mapped l1 mm1 addr (addr + len) Hsp1 ltac:(lia) Hm) as (a & Ha & Hna). by apply Hna, Hno. }
  cbn [clear_old_maps]. rewrite Heq. destruct (links_of_space l mm addr (addr + len) Hsp) as (r & Hlinks & [(Hm & e & ->)|(Hm & k & R & -> & Hk)]); rewrite Hlinks; cbn [obind].
  2:{ exists mm, tsk. eexists _, l. split; [done|]. split_and!; try done; try lia; [apply cache_kept_refl|]. right. exists k, R. split_and!; try done.
      intros a. case_decide as Ha; [|done]. destruct (maps mm l a) eqn:Hma; [|done]. destruct Hm. apply (mapped_meets _ _ _ _ a Ha). by rewrite Hma. }
  destruct (do_munmap_spec stack_guard_gap max c1 c2 l mm tsk addr len) as (mm1 & tsk1 & err & l1 & -> & [Hsp1 Hk1 Hc1 Ht1 Hs1 Hm1] & _); try done.
  cbn [obind]. destruct Hm1 as [[-> Hm1]|[Herr Hm1]].
  2:{ rewrite (proj2 (Z.eqb_neq err 0)) by done. cbn [negb]. exists mm1, tsk1, (inl (- ENOMEM)), l1. split_and!; try done; try lia. left. split_and!; [done| |done].
      intros Hno. by apply (Hfree l mm Hno Hsp). }
  rewrite Hal in Hm1. assert (Hno1 : range_free (maps mm1 l1) addr (addr + len)) by (intros a Ha; by rewrite Hm1, decide_True).
  assert (Hrest : clear_old_maps stack_guard_gap max rest mm1 tsk1 addr len = (let* r := find_vma_links mm1 addr (addr + len) in
    match r with inr p => Ret (mm1, tsk1, inr p) | inl _ => match rest with [] => Fuel | (a, b) :: rest =>
      let* (mm, current, error) := do_munmap stack_guard_gap max a b mm1 tsk1 addr len in
      if negb (error =? 0) then Ret (mm, current, inl (- ENOMEM)) else clear_old_maps stack_guard_gap max rest mm current addr len end end)).
  { destruct rest; cbn [clear_old_maps]; by rewrite Heq. }
  cbn [Z.eqb negb]. rewrite Hrest. destruct (links_of_space l1 mm1 addr (addr + len) Hsp1) as (r & -> & [(Hm' & _)|(_ & k & R & -> & Hk)]); [by destruct (Hfree l1 mm1 Hno1 Hsp1)|].
  cbn [obind]. exists mm1, tsk1. eexists _, l1. split; [done|]. split_and!; try done; try lia. right. exists k, R. split_and!; try done.
  intros Hno. by destruct (Hfree l mm Hno Hsp).
Qed.

(** A new area in the free place. *)
Lemma link_new l mm k R x flags pgoff addr end_ : free_place mm l addr end_ k R -> space l mm -> 0 <= flags < 2 ^ 32 ->
  0 <= addr < end_ /\ end_ < 2 ^ 32 -> addr mod PAGE_SIZE = 0 /\ end_ mod PAGE_SIZE = 0 -> valid x -> vmas mm !! x = None ->
  let v := mk_vma addr end_ 0 0 (mm_addr mm) flags 0 false 0 false pgoff 0 in
  exists mm', vma_link stack_guard_gap (zeroed_vma mm x v) x (end_of Right (before k)) (above k) (last_side k) = Ret mm'
    /\ merged flags 0 pgoff 0 addr end_ stack_guard_gap mm l mm' (before k ++ x :: after k).
Proof.
  intros [Hwf Ho Hroot Hbal Hl HA HB] Hsp Hfl Hr Hp Hx Hnone v. pose proof Hsp as [_ Hpg Hsq0]. pose proof (valid_neq0 x Hx) as Hx0.
  assert (Hxl : x ∉ l).
  { intros Hxl. destruct (listed_readable _ _ x (wf_list _ _ _ _ Hwf) Hxl) as [[? Hs] _]. by rewrite Hs in Hnone. }
  set (mm1 := zeroed_vma mm x v). set (n := mk_node 0 0 0).
  assert (Hwf1 : mm_wf stack_guard_gap (<[x := n]> R) l mm1) by exact (allocated_wf _ R l mm x v n 0 Hwf Hxl Hx0).
  assert (Har : forall z, area (vmas mm1) z = if decide (z = x) then v else area (vmas mm) z) by (intros z; apply area_insert).
  assert (Harl : forall z, z ∈ l -> area (vmas mm1) z = area (vmas mm) z) by (intros z Hz; rewrite Har, decide_False; [done|by intros ->]).
  assert (Ho1 : own (<[x := n]> R) (cells (plug k E) 0) (rb_nodes (mm_rb mm1))).
  { destruct Ho as [Hn Hv Hh]. split; [done|done|]. cbn [mm1 zeroed_vma mm_rb set_mm_rb rb_nodes]. rewrite Hh. apply insert_union_r.
    apply not_elem_of_list_to_map_1. by rewrite cells_keys, elems_plug, app_nil_l, <- Hl. }
  assert (Hap : apart (vmas mm1) (before k ++ x :: after k)).
  { destruct (place_sorted (vmas mm1) (before k) x (after k)) as [Hap _]; try done.
    - rewrite <- Hl. apply (wf_apart _ _ _ _ Hwf1).
    - intros z Hz. assert (z ∈ l \/ z = x) as [Hz'| ->] by (rewrite Hl; set_solver).
      + apply (wf_areas _ _ _ _ Hwf1 z Hz').
      + rewrite Har, decide_True by done. cbn. lia.
    - intros z Hz. assert (Hz' : z ∈ l) by (rewrite Hl; set_solver). rewrite Harl, (Har x), decide_True by done. by apply HA.
    - intros z Hz. assert (Hz' : z ∈ l) by (rewrite Hl; set_solver). rewrite (Harl z), (Har x), decide_True by done. by apply HB. }
  destruct (vma_link_spec stack_guard_gap (vmas mm1) (<[x := n]> R) mm1 k x) as (mm2 & Hrun & Hwf2 & Hrel & Hct & Hma & Hsq); try done.
  { apply mm_wf_wf_but. by rewrite <- Hl. }
  { split_and!; [done|by rewrite <- Hl|]. cbn [mm1 zeroed_vma mm_rb set_mm_rb rb_nodes]. rewrite lookup_insert_eq. by eexists. }
  { cbn [mm1 zeroed_vma vmas set_mm_rb set_vmas]. rewrite lookup_insert_eq. by eexists. }
  { rewrite Har, decide_True by done. split; [cbn; lia|split; [cbn; lia|done]]. }
  exists (set_map_count mm2 (map_count mm1 + 1)). unfold vma_link. fold mm1. rewrite Hrun. cbn [obind].
  pose proof (mm_wf_nodup _ _ _ _ Hwf2) as _. destruct (tree_nodup _ _ _ (wf_tree _ _ _ _ Hwf)) as (_ & _ & Hlen). pose proof (wf_count _ _ _ _ Hwf) as Hcnt.
  rewrite Hct, s32_small by (change (map_count mm1) with (map_count mm); lia). split; [done|].
  subst l. change (before k ++ x :: after k) with (before k ++ [x] ++ after k). change (before k ++ after k) with (before k ++ [] ++ after k).
  apply remapped; try done.
  - by eexists.
  - intros z Hz. assert (Hz' : z <> x) by (by intros ->). transitivity (bare (area (vmas mm1) z)); [symmetry; apply unlinked_bare, Hrel|]. by rewrite Harl.
  - intros z ->%list_elem_of_singleton. eapply paged_bare; [symmetry; apply unlinked_bare, Hrel|]. rewrite Har, decide_True by done. by split; [apply Hp|split; [apply Hp|]].
  - intros a. rewrite (contents_same _ (vmas mm1)) by (intros z _; symmetry; apply unlinked_bare, Hrel). cbn [regions fmap list_fmap contents].
    rewrite Har, decide_True by done. done.
  - change (vmacache_seqnum mm1) with (vmacache_seqnum mm) in Hsq. split; [split; [done|left]|change (vmacache_seqnum mm2 <= vmacache_seqnum mm + 2); lia].
    split; [done|]. set_solver.
Qed.
End Room.

(** ** [do_brk] *)
Section DoBrk.
Context (stack_guard_gap max_map_count : Z) (security_mmap_addr : Z -> Z) (mm_area shmem_area : area_fn) `{!FixedArea mm_area}.
Context (vm_area_zalloc : mm_struct -> Z).
Abbreviation space := (space stack_guard_gap).
Hypothesis guard_range : 0 <= stack_guard_gap < 2 ^ 32.
Hypothesis security_errors : forall a, security_mmap_addr a = 0 \/ error_number (security_mmap_addr a).

(** The allocator returns NULL or an area that is not in use. *)
Hypothesis zalloc_fresh : forall mm, vm_area_zalloc mm = 0 \/ (valid (vm_area_zalloc mm) /\ vmas mm !! vm_area_zalloc mm = None).

Definition brk_flags (env : brk_env) : Z := Z.lor (Z.lor (VM_DATA_DEFAULT_FLAGS (read_implies_exec env)) VM_ACCOUNT) (def_flags env).

(** What the heap maps: anonymous memory. *)
Definition heap_page (env : brk_env) (addr a : Z) : page := asked_page (brk_flags env) 0 0 (Z.shiftr addr PAGE_SHIFT) addr a.

(** A state of the address space, its areas and the caches of a task after another. *)
Record follows (mm : mm_struct) (l : list Z) (tsk : task_struct) (mm' : mm_struct) (l' : list Z) (tsk' : task_struct) (k : Z) : Prop := {
  fo_space : space l' mm';
  fo_kept : cache_kept mm l mm' l';
  fo_cache : cache_ok mm' l' tsk';
  fo_task : task_mm tsk' = task_mm tsk /\ task_flags tsk' = task_flags tsk;
  fo_seq : vmacache_seqnum mm <= vmacache_seqnum mm' <= vmacache_seqnum mm + k
}.

Lemma follows_refl mm l tsk k : space l mm -> cache_ok mm l tsk -> 0 <= k -> follows mm l tsk mm l tsk k.
Proof. intros Hsp Hc Hk. split; try done; [apply cache_kept_refl|lia]. Qed.

Lemma follows_kept mm l tsk mm1 l1 tsk1 k1 mm' l' k : follows mm l tsk mm1 l1 tsk1 k1 -> kept mm1 l1 mm' l' -> space l' mm' -> k1 + 2 <= k ->
  follows mm l tsk mm' l' tsk1 k.
Proof.
  intros [Hsp Hk Hc Ht Hs] [Hk' Hs'] Hsp' Hle. split; [done|by eapply cache_kept_trans|by eapply cache_kept_ok|done|].
  destruct Hk' as [_ [[-> _]|]]; lia.
Qed.

Lemma untouched_kept mm mm' l : untouched stack_guard_gap mm mm' l -> kept mm l mm' l.
Proof. intros (_ & _ & Hma & Hsq & _). split; [split; [done|by left]|lia]. Qed.

Lemma untouched_place mm mm' l addr end_ k R : untouched stack_guard_gap mm mm' l -> free_place stack_guard_gap mm l addr end_ k R ->
  free_place stack_guard_gap mm' l addr end_ k R.
Proof.
  intros ([R' Hwf'] & Hb & Hma & Hsq & Hrb) [Hwf Ho Hr Hbal Hl HA HB].
  assert (Hbd : forall z, z ∈ l -> vm_start (area (vmas mm') z) = vm_start (area (vmas mm) z) /\ vm_end (area (vmas mm') z) = vm_end (area (vmas mm) z))
    by (intros z Hz; destruct (bare_bounds _ _ (Hb z Hz)) as (? & ? & _); done).
  split; rewrite ?Hrb; try done.
  - destruct Hwf' as [? ? ? ? ? ? ? ?]. split; try done. rewrite Hrb. apply Hwf.
  - intros y Hy. destruct (Hbd y) as [_ ->]; [rewrite Hl; set_solver|auto].
  - intros y Hy. destruct (Hbd y) as [-> _]; [rewrite Hl; set_solver|auto].
Qed.

Lemma brk_flags_range env : 0 <= def_flags env < 2 ^ 32 -> 0 <= brk_flags env < 2 ^ 32.
Proof.
  intros Hd. unfold brk_flags. set (c := Z.lor _ VM_ACCOUNT). assert (Hc : 0 <= c < 2 ^ 32) by (unfold c; by destruct (read_implies_exec env)).
  split; [apply Z.lor_nonneg; lia|]. destruct (decide (Z.lor c (def_flags env) = 0)) as [->|Hne]; [done|].
  assert (0 <= Z.lor c (def_flags env)) by (apply Z.lor_nonneg; lia). apply Z.log2_lt_pow2; [lia|]. rewrite Z.log2_lor by lia.
  apply Z.max_lub_lt; [destruct (decide (c = 0)) as [->|]; [done|]|destruct (decide (def_flags env = 0)) as [->|]; [done|]]; apply Z.log2_lt_pow2; lia.
Qed.

(** The merge of a new range of the heap with the areas around it. *)
Definition heap_merge (env : brk_env) (mm : mm_struct) (prev addr end_ : Z) : outcome (mm_struct * Z) :=
  vma_merge stack_guard_gap (brk_clone_err env) mm prev addr end_ (brk_flags env) 0 0 (Z.shiftr addr PAGE_SHIFT) 0.

(** Mapping a range with no areas: it is merged, or it gets an area of its own. *)
Lemma brk_map env l mm (tsk : task_struct) addr end_ k R : 0 <= def_flags env < 2 ^ 32 -> space l mm -> free_place stack_guard_gap mm l addr end_ k R ->
  0 <= addr < end_ /\ end_ < 2 ^ 32 -> addr mod PAGE_SIZE = 0 /\ end_ mod PAGE_SIZE = 0 -> vmacache_seqnum mm + 2 < 2 ^ 64 ->
  exists mm' r l',
    (let* (mm, vma) := heap_merge env mm (end_of Right (before k)) addr end_ in
     if negb (vma =? 0) then Ret (mm, tsk, 0)
     else
       let vma := vm_area_zalloc mm in
       if vma =? 0 then Ret (mm, tsk, - ENOMEM)
       else
         let v := mk_vma addr end_ 0 0 (mm_addr mm) (brk_flags env) 0 false 0 false (Z.shiftr addr PAGE_SHIFT) 0 in
         let* mm := vma_link stack_guard_gap (zeroed_vma mm vma v) vma (end_of Right (before k)) (above k) (last_side k) in
         Ret (mm, tsk, 0)) = Ret (mm', tsk, r)
    /\ space l' mm' /\ kept mm l mm' l'
    /\ ((r = 0 /\ forall a, maps mm' l' a = if decide (addr <= a < end_) then Some (heap_page env addr a) else maps mm l a)
        \/ (r = - ENOMEM /\ (exists mm2, heap_merge env mm (end_of Right (before k)) addr end_ = Ret (mm2, 0) /\ vm_area_zalloc mm2 = 0) /\ forall a, maps mm' l' a = maps mm l a)).
Proof.
  intros Hdf Hsp Hk Hr Hp Hsq. pose proof (brk_flags_range env Hdf) as Hfl. pose proof (fp_list _ _ _ _ _ _ _ Hk) as Hl.
  assert (Hin : forall (P : Z -> option page) m a, (if (addr <=? a) && (a <? end_) then P a else m a) = if decide (addr <= a < end_) then P a else m a).
  { intros P m a. destruct (Z.leb_spec addr a), (Z.ltb_spec a end_), (decide (addr <= a < end_)); cbn [andb]; try done; lia. }
  destruct (vma_merge_spec (brk_flags env) 0 0 (Z.shiftr addr PAGE_SHIFT) 0 addr end_ Hfl Hr Hp stack_guard_gap mm (brk_clone_err env) guard_range Hsq (before k) (after k))
    as (mm1 & vma & Hmerge & Hres).
  { by rewrite <- Hl. }
  { apply at_gap; apply Hk. }
  fold (heap_merge env mm (end_of Right (before k)) addr end_) in Hmerge. rewrite Hmerge. cbn [obind]. rewrite <- Hl in Hres. destruct Hres as [(-> & Hu & _)|(Hvma & l' & _ & [Hsp' Hm' Hk'] & _)].
  2:{ rewrite (proj2 (Z.eqb_neq vma 0)) by done. cbn [negb]. exists mm1, 0, l'. split_and!; try done; [apply Hk'..|]. left. split; [done|].
      intros a. by rewrite Hm', (Hin (fun a => Some (heap_page env addr a))). }
  cbn [Z.eqb negb]. pose proof (untouched_resplit stack_guard_gap _ _ _ Hsp Hu) as [Hsp1 Hm1 _ _ _]. pose proof (untouched_kept _ _ _ Hu) as Hk1.
  destruct (zalloc_fresh mm1) as [Hz|[Hv Hnone]].
  { rewrite Hz. cbn [Z.eqb]. exists mm1, (- ENOMEM), l. split_and!; try done; [apply Hk1..|]. right. split; [done|]. split; [by exists mm1; subst|done]. }
  rewrite (proj2 (Z.eqb_neq _ 0)) by by apply valid_neq0. cbv zeta.
  destruct (link_new stack_guard_gap guard_range l mm1 k R (vm_area_zalloc mm1) (brk_flags env) (Z.shiftr addr PAGE_SHIFT) addr end_) as (mm2 & -> & [Hsp2 Hm2 Hk2]); try done.
  { by apply (untouched_place mm). }
  cbn [obind]. eexists mm2, 0, _. split; [done|]. split; [done|]. split; [|left; split; [done|]].
  - destruct Hk2 as [Hk2 Hs2], Hu as (_ & _ & _ & Hsq1 & _). split; [|lia]. eapply cache_kept_trans; [apply Hk1|done].
  - intros a. rewrite Hm2, (Hin (fun a => Some (heap_page env addr a))), Hm1. done.
Qed.

Lemma page_align_page x : PAGE_ALIGN x mod PAGE_SIZE = 0 /\ 0 <= PAGE_ALIGN x < 2 ^ 32.
Proof.
  unfold PAGE_ALIGN, PAGE_SIZE. assert (Hw : 0 <= u32 (x + (4096 - 1)) < 2 ^ 32) by (apply Z.mod_pos_bound; done). set (y := u32 _) in *. rewrite land_wrap by done.
  change 4096 with (2 ^ 12). rewrite land_lnot_ones by done. pose proof (Z.mod_pos_bound y (2 ^ 12) eq_refl). pose proof (Z.mod_le y (2 ^ 12)).
  split; [|lia]. rewrite Zminus_mod, Z.mod_mod, Z.sub_diag by done. done.
Qed.

Lemma page_align_cases x : 0 <= x < 2 ^ 32 ->
  (x <= PAGE_ALIGN x < x + PAGE_SIZE /\ x <= 2 ^ 32 - PAGE_SIZE) \/ (PAGE_ALIGN x = 0 /\ 2 ^ 32 - PAGE_SIZE < x).
Proof.
  intros Hx. unfold PAGE_ALIGN, PAGE_SIZE. assert (Hw : 0 <= u32 (x + (4096 - 1)) < 2 ^ 32) by (apply Z.mod_pos_bound; done). rewrite land_wrap by done.
  change 4096 with (2 ^ 12). rewrite land_lnot_ones by done. destruct (decide (x <= 2 ^ 32 - 2 ^ 12)) as [Hs|Hs].
  - left. unfold wrap. rewrite (Z.mod_small (x + (2 ^ 12 - 1))) by lia. pose proof (Z.mod_pos_bound (x + (2 ^ 12 - 1)) (2 ^ 12) eq_refl). lia.
  - right. assert (Hu : u32 (x + (2 ^ 12 - 1)) = x + (2 ^ 12 - 1) - 2 ^ 32) by (unfold wrap; symmetry; apply (Z.mod_unique _ _ 1); lia).
    rewrite Hu, (Z.mod_small (x + (2 ^ 12 - 1) - 2 ^ 32)); lia.
Qed.

Lemma page_align_id x : 0 <= x < 2 ^ 32 -> x mod PAGE_SIZE = 0 -> PAGE_ALIGN x = x.
Proof.
  intros Hx Hm. destruct (page_align_page x) as [Hm' _]. apply Z.mod_divide in Hm as [q ->], Hm' as [q' Hq]; [|done..]. unfold PAGE_SIZE in *.
  destruct (page_align_cases (q * 4096) Hx) as [[Hc _]|[_ Hc]]; unfold PAGE_SIZE in *; lia.
Qed.

(** What a call that returns [r] did to the mappings: it mapped the range, or it failed
    with nothing changed or with the old mappings of the range gone. *)
Definition brk_done (env : brk_env) (r addr len : Z) (old new : Z -> option page) : Prop :=
  (r = 0 /\ forall a, new a = if decide (addr <= a < addr + len) then Some (heap_page env addr a) else old a)
  \/ (r < 0 /\ ((forall a, new a = old a)
       \/ (fixed_ok security_mmap_addr addr len /\ ~ range_free old addr (addr + len)
           /\ forall a, new a = if decide (addr <= a < addr + len) then None else old a))).

(** The checks a call on a free range has to pass; if the range cannot be merged with the
    areas around it, the allocator has an area. *)
Record brk_allowed (env : brk_env) (mm : mm_struct) (addr len : Z) : Prop := {
  ba_fixed : fixed_ok security_mmap_addr addr len;
  ba_mlock : mlock_future_check (limits env) (locked_vm env) (def_flags env) len = 0;
  ba_expand : may_expand_vm (limits env) (total_vm env) (data_vm env) (brk_flags env) (Z.shiftr len PAGE_SHIFT) = true;
  ba_count : map_count mm <= max_map_count;
  ba_enough : enough_memory env = 0;
  ba_alloc : forall prev parent child mm1, find_vma_links mm addr (addr + len) = Ret (inr (prev, parent, child)) ->
    heap_merge env mm prev addr (addr + len) = Ret (mm1, 0) -> vm_area_zalloc mm1 <> 0
}.

Lemma do_brk_spec env c1 c2 rest l mm tsk addr request : 0 <= def_flags env < 2 ^ 32 -> space l mm -> cache_ok mm l tsk ->
  vmacache_seqnum mm + 3 < 2 ^ 64 -> 0 <= addr < 2 ^ 32 -> 0 <= request < 2 ^ 32 ->
  calls_fresh l c1 -> calls_fresh l c2 -> (new_vma c1 = new_vma c2 -> new_vma c1 = 0) ->
  exists mm' tsk' r l',
    do_brk stack_guard_gap max_map_count security_mmap_addr mm_area shmem_area vm_area_zalloc env ((c1, c2) :: rest) mm tsk addr request = Ret (mm', tsk', r)
    /\ follows mm l tsk mm' l' tsk' 3 /\ brk_done env r addr (PAGE_ALIGN request) (maps mm l) (maps mm' l')
    /\ (r = 0 -> 0 < request -> fixed_ok security_mmap_addr addr (PAGE_ALIGN request))
    /\ (request <= PAGE_ALIGN request -> brk_allowed env mm addr (PAGE_ALIGN request) -> range_free (maps mm l) addr (addr + PAGE_ALIGN request) -> r = 0).
Proof.
  intros Hdf Hsp Hc Hsq Ha Hrq Hf1 Hf2 Hne. unfold do_brk. destruct (page_align_page request) as [Hlm Hlb]. set (len := PAGE_ALIGN request) in *.
  assert (Hstay : forall e, e < 0 -> brk_done env e addr len (maps mm l) (maps mm l)) by (intros e He; right; split; [done|by left]).
  assert (Href : follows mm l tsk mm l tsk 3) by (by apply follows_refl).
  destruct (Z.ltb_spec len request) as [Hov|Hov].
  { exists mm, tsk, (- ENOMEM), l. split_and!; try done; [by apply Hstay|lia]. }
  destruct (Z.eqb_spec len 0) as [Hz|Hz].
  { exists mm, tsk, 0, l. split_and!; try done; [|lia]. left. split; [done|]. intros a. case_decide; [lia|done]. }
  fold (brk_flags env). destruct (get_fixed_area security_mmap_addr mm_area shmem_area security_errors mm tsk addr len Ha ltac:(lia)) as (q & -> & Hq). cbn [obind].
  destruct Hq as [[Hfix ->]|(Hfix & e & He & ->)].
  2:{ rewrite (proj2 (Z.eqb_neq _ 0)) by by apply error_in_page. cbn [negb]. destruct (u32_error e He) as [_ ->]. unfold error_number in He.
      exists mm, tsk, e, l. split_and!; try done; [apply Hstay; lia|lia|intros _ [? _ _ _ _ _]; done]. }
  pose proof Hfix as (Hfu & Hte & Ham & _). assert (Haddr : u32 (s32 addr) = addr) by (rewrite wrap_swrap by done; unfold wrap; by apply Z.mod_small).
  rewrite Haddr, land_page_offset, Ham. change (negb (0 =? 0)) with false. cbv iota.
  assert (Hml : mlock_future_check (limits env) (locked_vm env) (def_flags env) len = 0 \/ mlock_future_check (limits env) (locked_vm env) (def_flags env) len = - EAGAIN).
  { unfold mlock_future_check. destruct (negb _); [|by left]. destruct (_ && _); [by right|by left]. }
  destruct (Z.eqb_spec (mlock_future_check (limits env) (locked_vm env) (def_flags env) len) 0) as [Hm0|Hm0]; cbn [negb].
  2:{ destruct Hml as [?|Hml]; [done|]. rewrite Hml. exists mm, tsk, (- EAGAIN), l. split_and!; try done; [by apply Hstay|intros _ [_ ? _ _ _ _]; done]. }
  assert (Hargs : munmap_args addr len) by (split_and!; [done|lia|lia|done]).
  assert (Hal : PAGE_ALIGN len = len) by by apply page_align_id.
  destruct (clear_maps_spec stack_guard_gap guard_range max_map_count c1 c2 rest l mm tsk addr len) as (mm1 & tsk1 & r & l1 & -> & Hsp1 & Hk1 & Hc1 & Ht1 & Hs1 & Hr); try done; [lia|].
  cbn [obind]. assert (Hfo1 : follows mm l tsk mm1 l1 tsk1 3) by (split; try done; lia).
  destruct Hr as [(-> & Hnf & Hm1)|(k & R & -> & Hk & Hsame & Hm1)].
  { exists mm1, tsk1, (- ENOMEM), l1. split_and!; try done. right. split; [done|by left]. }
  assert (Hgone : brk_done env (- ENOMEM) addr len (maps mm l) (maps mm1 l1)).
  { right. split; [done|]. destruct (decide (Exists (meets (vmas mm) addr (addr + len)) l)) as [Hm|Hm].
    - right. split_and!; [done..| |done]. intros Hfr. destruct (meets_mapped stack_guard_gap l mm addr (addr + len) Hsp ltac:(lia) Hm) as (a & Har & Hna). by apply Hna, Hfr.
    - left. intros a. rewrite Hm1. case_decide as Har; [|done]. destruct (maps mm l a) eqn:E; [|done]. destruct Hm. apply (mapped_meets _ _ _ _ a Har). by rewrite E. }
  destruct (may_expand_vm _ _ _ _ _) eqn:Hexp; cbn [negb].
  2:{ exists mm1, tsk1, (- ENOMEM), l1. split_and!; try done. intros _ [_ _ ? _ _ _] _. congruence. }
  destruct (Z.ltb_spec max_map_count (map_count mm1)) as [Hcnt|Hcnt].
  { exists mm1, tsk1, (- ENOMEM), l1. split_and!; try done. intros _ [_ _ _ ? _ _] Hfr. destruct (Hsame Hfr) as [-> _]. lia. }
  destruct (Z.eqb_spec (enough_memory env) 0) as [Hen|Hen]; cbn [negb].
  2:{ exists mm1, tsk1, (- ENOMEM), l1. split_and!; try done. intros _ [_ _ _ _ ? _] _. congruence. }
  assert (Hend : u32 (addr + len) = addr + len) by (unfold TASK_SIZE in Hte; unfold wrap; apply Z.mod_small; lia). rewrite Hend.
  destruct (brk_map env l1 mm1 tsk1 addr (addr + len) k R) as (mm2 & r & l2 & Hrun & Hsp2 & Hk2 & Hm2); try done.
  { unfold TASK_SIZE in Hte. lia. }
  { split; [done|]. rewrite Zplus_mod, Ham, Hlm. done. }
  { lia. }
  exists mm2, tsk1, r, l2. split; [exact Hrun|]. split; [|split; [|split; [done|]]].
  - by eapply (follows_kept mm l tsk mm1 l1 tsk1 1).
  - destruct Hm2 as [[-> Hm2]|(-> & _ & Hm2)].
    + left. split; [done|]. intros a. rewrite Hm2. case_decide as Har; [done|]. rewrite Hm1. by case_decide.
    + destruct Hgone as [[? _]|[_ Hg]]; [done|]. right. split; [done|]. destruct Hg as [Hg|(Hfx & Hn & Hg)]; [left|right; split; [done|]; split; [done|]]; intros a; by rewrite Hm2.
  - intros _ [_ _ _ _ _ Hall] Hfr. destruct Hm2 as [[? _]|(_ & (mm3 & Hmg & H3) & _)]; [done|]. destruct (Hsame Hfr) as [-> Hlk]. by destruct (Hall _ _ _ mm3 Hlk Hmg).
Qed.

(** ** The system call *)

(** The end of the heap moved from [old] to [new]. *)
Definition heap_moved (env : brk_env) (old new : Z) (m m' : Z -> option page) : Prop :=
  forall a, m' a = if decide (old <= a < new) then Some (heap_page env old a) else if decide (new <= a < old) then None else m a.

Definition brk_fields_ok (b : brk_fields) : Prop := 0 < end_data b /\ 0 < start_brk b /\ 0 < brk b <= TASK_SIZE.

Abbreviation sys_brk := (sys_brk stack_guard_gap max_map_count security_mmap_addr mm_area shmem_area vm_area_zalloc).
Abbreviation do_brk := (do_brk stack_guard_gap max_map_count security_mmap_addr mm_area shmem_area vm_area_zalloc).

(** The new end of the heap and the value returned. *)
Definition brk_result (env : brk_env) (b : brk_fields) (new b' r : Z) (m m' : Z -> option page) : Prop :=
  (r = new /\ b' = new /\ 0 < new <= TASK_SIZE /\ heap_moved env (PAGE_ALIGN (brk b)) (PAGE_ALIGN new) m m')
  \/ (r = brk b /\ b' = brk b /\ forall a, m' a = m a).

Lemma oldbrk_facts b : brk_fields_ok b -> brk b <= PAGE_ALIGN (brk b) <= TASK_SIZE /\ PAGE_ALIGN (brk b) mod PAGE_SIZE = 0.
Proof.
  intros (_ & _ & Hb). destruct (page_align_page (brk b)) as [Hm _]. split; [|done].
  pose proof (page_align_le (brk b) TASK_SIZE ltac:(lia) eq_refl ltac:(done)). unfold TASK_SIZE in *.
  destruct (page_align_cases (brk b) ltac:(lia)) as [[? _]|[_ Hc]]; unfold PAGE_SIZE in *; lia.
Qed.

(** Shrinking. *)
Lemma brk_shrinks l mm tsk unmap1 unmap2 b new env : space l mm -> cache_ok mm l tsk -> vmacache_seqnum mm + 1 < 2 ^ 64 -> brk_fields_ok b ->
  0 < new <= brk b -> PAGE_ALIGN (brk b) <> PAGE_ALIGN new ->
  calls_fresh l unmap1 -> calls_fresh l unmap2 -> (new_vma unmap1 = new_vma unmap2 -> new_vma unmap1 = 0) ->
  exists mm' tsk' r l',
    do_munmap stack_guard_gap max_map_count unmap1 unmap2 mm tsk (PAGE_ALIGN new) (u32 (PAGE_ALIGN (brk b) - PAGE_ALIGN new)) = Ret (mm', tsk', r)
    /\ follows mm l tsk mm' l' tsk' 1
    /\ ((r = 0 /\ heap_moved env (PAGE_ALIGN (brk b)) (PAGE_ALIGN new) (maps mm l) (maps mm' l')) \/ (r <> 0 /\ forall a, maps mm' l' a = maps mm l a))
    /\ (calls_succeed unmap1 -> calls_succeed unmap2 -> map_count mm < max_map_count -> r = 0).
Proof.
  intros Hsp Hc Hsq Hb Hnew Hne Hf1 Hf2 Hff. destruct (oldbrk_facts b Hb) as [Hob Hom]. destruct (page_align_page new) as [Hnm Hnb]. set (ob := PAGE_ALIGN (brk b)) in *.
  set (nb := PAGE_ALIGN new) in *. assert (Hle : nb <= ob) by (apply page_align_le; [lia|done|unfold TASK_SIZE, PAGE_SIZE, U32_MAX in *; lia]).
  assert (Hlen : u32 (ob - nb) = ob - nb) by (unfold wrap; apply Z.mod_small; unfold TASK_SIZE in *; lia). rewrite Hlen.
  assert (Hal : PAGE_ALIGN (ob - nb) = ob - nb) by (apply page_align_id; [unfold TASK_SIZE in *; lia|by apply sub_pages]).
  destruct (do_munmap_spec stack_guard_gap max_map_count unmap1 unmap2 l mm tsk nb (ob - nb)) as (mm1 & tsk1 & r & l1 & -> & [Hsp1 Hk1 Hc1 Ht1 Hs1 Hm1] & Hok); try done.
  { unfold TASK_SIZE in *. lia. }
  exists mm1, tsk1, r, l1. split; [done|]. split; [by split|]. split.
  - destruct Hm1 as [[-> Hm1]|[? Hm1]]; [left|by right]. split; [done|]. intros a. rewrite Hm1, Hal. replace (nb + (ob - nb)) with ob by lia.
    destruct (decide (ob <= a < nb)); [lia|]. done.
  - intros H1 H2 Hmax. apply Hok; try done. split_and!; [done|lia|lia|lia].
Qed.

(** The room after the heap: an area and its guard gap, and a page, stay free. *)
Definition heap_room (l : list Z) (mm : mm_struct) (old new : Z) : Prop :=
  forall z, z ∈ l -> vm_end (area (vmas mm) z) <= old \/ new + PAGE_SIZE <= vm_start_gap stack_guard_gap (area (vmas mm) z).

Lemma brk_room l mm tsk ob nb : space l mm -> cache_ok mm l tsk ->
  exists tsk' next blocked, find_vma mm tsk ob = Ret (tsk', next) /\ cache_ok mm l tsk' /\ (task_mm tsk' = task_mm tsk /\ task_flags tsk' = task_flags tsk)
    /\ vma_and mm next (fun n => vm_start_gap stack_guard_gap n <? u32 (nb + PAGE_SIZE)) = Ret blocked
    /\ (0 <= nb -> nb + PAGE_SIZE < 2 ^ 32 ->
        (heap_room l mm ob nb -> blocked = false) /\ (blocked = false -> range_free (maps mm l) ob nb)).
Proof.
  intros Hsp Hc. pose proof Hsp as [[R Hwf] _ Hsq]. destruct (find_vma_split stack_guard_gap R l mm tsk ob Hwf Hc Hsq) as (tsk' & A & B & -> & HA & HB & Hf & Hc' & Ht & Hfl).
  rewrite Forall_forall in HA, HB. exists tsk', (end_of Left B). destruct (space_nodup _ _ _ Hsp) as [_ H0]. unfold vma_and. destruct B as [|x B].
  { exists false. split_and!; try done. intros _ _. split; [done|]. intros _ a Ha. apply contents_none. intros v (z & -> & Hz)%list_elem_of_fmap. apply covers_false.
    rewrite app_nil_r in Hz. specialize (HA z Hz). simpl in HA. lia. }
  change (end_of Left (x :: B)) with x. rewrite (proj2 (Z.eqb_neq x 0)) by (intros ->; apply H0; set_solver). cbn [negb].
  rewrite vma_at_area by (eapply (listed_readable _ _ x); [apply Hwf|set_solver]). cbn [obind]. eexists. split_and!; try done. intros Hnb Hnw.
  assert (Hu : u32 (nb + PAGE_SIZE) = nb + PAGE_SIZE) by (unfold wrap; apply Z.mod_small; unfold PAGE_SIZE in *; lia). rewrite Hu. split.
  - intros Hroom. apply Z.ltb_ge. destruct (Hroom x ltac:(set_solver)) as [Hx|Hx]; [|done]. specialize (HB x (list_elem_of_here _ _)). simpl in HB. lia.
  - intros Hb%Z.ltb_ge a Ha. destruct (space_order _ _ _ _ _ Hsp) as (Hxb & _ & HoB). destruct (wf_areas _ _ _ _ Hwf x) as [Hx1 [Hx2 _]]; [set_solver|].
    pose proof (vm_start_gap_bounds stack_guard_gap (area (vmas mm) x) ltac:(lia) guard_range). apply contents_none. intros v (z & -> & Hz)%list_elem_of_fmap. apply covers_false.
    apply elem_of_app in Hz as [Hz|[->|Hz]%elem_of_cons]; [specialize (HA z Hz); simpl in HA|..|specialize (HoB z Hz)]; unfold PAGE_SIZE in *; lia.
Qed.

(** What a call needs to succeed. *)
Record brk_possible (env : brk_env) (l : list Z) (mm : mm_struct) (b : brk_fields) (unmap1 unmap2 : split_calls) (randomized : bool) (new : Z) : Prop := {
  bp_min : (if randomized then start_brk b else end_data b) <= new;
  bp_data : check_data_rlimit (rlimit_data (limits env)) new (start_brk b) (end_data b) (start_data b) = 0;
  bp_shrink : new <= brk b -> calls_succeed unmap1 /\ calls_succeed unmap2 /\ map_count mm < max_map_count;
  bp_grow : brk b < new -> new <= TASK_SIZE /\ heap_room l mm (PAGE_ALIGN (brk b)) (PAGE_ALIGN new)
              /\ brk_allowed env mm (PAGE_ALIGN (brk b)) (PAGE_ALIGN new - PAGE_ALIGN (brk b))
}.

(** Growing. *)
Lemma brk_grows env c1 c2 rest l mm tsk b new : 0 <= def_flags env < 2 ^ 32 -> space l mm -> cache_ok mm l tsk ->
  vmacache_seqnum mm + 3 < 2 ^ 64 -> brk_fields_ok b -> brk b < new < 2 ^ 32 -> PAGE_ALIGN (brk b) <> PAGE_ALIGN new ->
  calls_fresh l c1 -> calls_fresh l c2 -> (new_vma c1 = new_vma c2 -> new_vma c1 = 0) ->
  (PAGE_ALIGN new + PAGE_SIZE < 2 ^ 32 -> range_free (maps mm l) (PAGE_ALIGN (brk b)) (PAGE_ALIGN new)) ->
  exists mm' tsk' r l', do_brk env ((c1, c2) :: rest) mm tsk (PAGE_ALIGN (brk b)) (u32 (PAGE_ALIGN new - PAGE_ALIGN (brk b))) = Ret (mm', tsk', r)
    /\ follows mm l tsk mm' l' tsk' 3
    /\ ((r = 0 /\ new <= TASK_SIZE /\ heap_moved env (PAGE_ALIGN (brk b)) (PAGE_ALIGN new) (maps mm l) (maps mm' l')) \/ (r < 0 /\ forall a, maps mm' l' a = maps mm l a))
    /\ (new <= TASK_SIZE -> brk_allowed env mm (PAGE_ALIGN (brk b)) (PAGE_ALIGN new - PAGE_ALIGN (brk b)) -> r = 0).
Proof.
  intros Hdf Hsp Hc Hsq Hb Hnew Hne Hf1 Hf2 Hff Hfree. destruct (oldbrk_facts b Hb) as [Hob Hom]. destruct (page_align_page new) as [Hnm Hnb].
  assert (Hb0 : 0 < brk b) by apply Hb. assert (Hcase := page_align_cases new ltac:(lia)). set (ob := PAGE_ALIGN (brk b)) in *. set (nb := PAGE_ALIGN new) in *.
  set (req := u32 (nb - ob)). assert (Hreq : 0 <= req < 2 ^ 32) by (apply Z.mod_pos_bound; done).
  assert (Hrq : (ob < nb /\ new <= nb /\ req = nb - ob) \/ (nb = 0 /\ req = 2 ^ 32 - ob)).
  { destruct Hcase as [[Hc1 _]|[Hc1 _]]; [left|right].
    - assert (ob <= nb) by (destruct (decide (nb <= TASK_SIZE)); [apply page_align_le; [lia|done|unfold TASK_SIZE, PAGE_SIZE, U32_MAX in *; lia]|lia]).
      split; [lia|]. split; [lia|]. unfold req, wrap. apply Z.mod_small. lia.
    - split; [done|]. unfold req, wrap. symmetry. apply (Z.mod_unique _ _ (-1)); unfold TASK_SIZE in *; lia. }
  assert (Hal : PAGE_ALIGN req = req).
  { apply page_align_id; [done|]. destruct Hrq as [(_ & _ & ->)|[_ ->]]; by apply sub_pages. }
  destruct (do_brk_spec env c1 c2 rest l mm tsk ob req) as (mm1 & tsk1 & r & l1 & -> & Hfo & Hdone & Hfix & Hok); try done.
  { unfold TASK_SIZE in *. lia. }
  rewrite Hal in Hdone, Hfix, Hok. exists mm1, tsk1, r, l1. split; [done|]. split; [done|]. destruct Hrq as [(Hlt & Hnn & Hr)|[Hz Hr]].
  - assert (Hend : ob + req = nb) by lia. rewrite Hend in Hok. unfold brk_done in Hdone. rewrite Hend in Hdone. split.
    + destruct Hdone as [[-> Hm]|[Hr0 [Hm|(Hfx & Hnf & _)]]]; [left|by right|].
      * destruct Hfix as (_ & Hte & _); [done|lia|]. split_and!; [done|lia|]. intros a. rewrite Hm. destruct (decide (ob <= a < nb)); [done|]. destruct (decide (nb <= a < ob)); [lia|done].
      * destruct Hnf. apply Hfree. destruct Hfx as (_ & Hte & _). unfold TASK_SIZE, PAGE_SIZE in *. lia.
    + intros Hte Hall. rewrite <- Hr in Hall. apply Hok; [lia|done|]. apply Hfree. assert (nb <= TASK_SIZE) by (apply page_align_le; [lia|done..]).
      unfold TASK_SIZE, PAGE_SIZE in *. lia.
  - split.
    + destruct Hdone as [[-> _]|[Hr0 [Hm|((_ & Hte & _) & _)]]]; [|by right|].
      * destruct Hfix as (_ & Hte & _); [done|unfold TASK_SIZE in *; lia|]. unfold TASK_SIZE in *. lia.
      * unfold TASK_SIZE in *. lia.
    + intros Hte _. destruct Hcase as [[Hc1 _]|[_ Hc1]]; unfold TASK_SIZE, PAGE_SIZE in *; lia.
Qed.

Lemma sys_brk_spec env c1 c2 rest unmap1 unmap2 killed randomized l mm b tsk new :
  0 <= def_flags env < 2 ^ 32 -> space l mm -> cache_ok mm l tsk -> vmacache_seqnum mm + 3 < 2 ^ 64 -> brk_fields_ok b -> 0 <= new < 2 ^ 32 ->
  calls_fresh l c1 -> calls_fresh l c2 -> (new_vma c1 = new_vma c2 -> new_vma c1 = 0) ->
  calls_fresh l unmap1 -> calls_fresh l unmap2 -> (new_vma unmap1 = new_vma unmap2 -> new_vma unmap1 = 0) ->
  exists mm' tsk' b' r l', sys_brk env ((c1, c2) :: rest) unmap1 unmap2 killed randomized mm b tsk new = Ret (mm', tsk', b', r)
    /\ follows mm l tsk mm' l' tsk' 3
    /\ (if killed then r = - EINTR /\ b' = brk b /\ forall a, maps mm' l' a = maps mm l a else brk_result env b new b' r (maps mm l) (maps mm' l'))
    /\ (killed = false -> brk_possible env l mm b unmap1 unmap2 randomized new -> r = new).
Proof.
  intros Hdf Hsp Hc Hsq Hb Hnew Hf1 Hf2 Hff Hu1 Hu2 Huu. unfold AddressBrk.sys_brk. assert (Href : follows mm l tsk mm l tsk 3) by by apply follows_refl.
  destruct killed; [exists mm, tsk, (brk b), (- EINTR), l; by split_and!|].
  assert (Hout : brk_result env b new (brk b) (brk b) (maps mm l) (maps mm l)) by by right.
  destruct (Z.ltb_spec new (if randomized then start_brk b else end_data b)) as [Hmin|Hmin].
  { exists mm, tsk, (brk b), (brk b), l. split_and!; try done. intros _ [? _ _ _]. lia. }
  assert (Hpos : 0 < new) by (destruct Hb as (? & ? & _), randomized; lia).
  destruct (Z.eqb_spec (check_data_rlimit (rlimit_data (limits env)) new (start_brk b) (end_data b) (start_data b)) 0) as [Hd|Hd]; cbn [negb].
  2:{ exists mm, tsk, (brk b), (brk b), l. split_and!; try done. by intros _ [_ ? _ _]. }
  destruct (oldbrk_facts b Hb) as [Hob Hom]. destruct (Z.eqb_spec (PAGE_ALIGN (brk b)) (PAGE_ALIGN new)) as [Heq|Hne].
  { exists mm, tsk, new, new, l. split_and!; try done. left. split_and!; try done.
    - destruct (page_align_cases new Hnew) as [[? _]|[Hz _]]; [lia|]. destruct Hb as (_ & _ & ?). lia.
    - intros a. rewrite <- Heq. by repeat (destruct (decide _) as [?|_]; [lia|]). }
  destruct (Z.leb_spec new (brk b)) as [Hle|Hgt].
  - destruct (brk_shrinks l mm tsk unmap1 unmap2 b new env) as (mm1 & tsk1 & r & l1 & -> & Hfo & Hm & Hok); try done; [lia|].
    cbn [obind]. assert (Hfo3 : follows mm l tsk mm1 l1 tsk1 3) by (destruct Hfo; split; try done; lia).
    destruct Hm as [[-> Hm]|[Hr Hm]]; [exists mm1, tsk1, new, new, l1|rewrite (proj2 (Z.eqb_neq r 0)) by done; exists mm1, tsk1, (brk b), (brk b), l1].
    + split_and!; try done. left. split_and!; try done. destruct Hb as (_ & _ & ?). lia.
    + split_and!; try done; [by right|]. intros _ [_ _ Hs _]. destruct (Hs Hle) as (? & ? & ?). by destruct Hr; apply Hok.
  - destruct (brk_room l mm tsk (PAGE_ALIGN (brk b)) (PAGE_ALIGN new) Hsp Hc) as (tsk1 & next & blocked & -> & Hc1 & Ht1 & Hbl & Hroom). cbn [obind]. rewrite Hbl. cbn [obind].
    destruct (page_align_page new) as [_ Hnb]. assert (Href1 : follows mm l tsk mm l tsk1 3) by (split; try done; [apply cache_kept_refl|lia]).
    assert (Hsmall : new <= TASK_SIZE -> PAGE_ALIGN new + PAGE_SIZE < 2 ^ 32).
    { intros Hn. pose proof (page_align_le new TASK_SIZE ltac:(lia) eq_refl ltac:(done)). unfold TASK_SIZE, PAGE_SIZE in *. lia. }
    destruct blocked.
    { exists mm, tsk1, (brk b), (brk b), l. split_and!; try done. intros _ [_ _ _ Hg]. destruct (Hg Hgt) as (Hn & Hr & _).
      destruct (Hroom ltac:(lia) (Hsmall Hn)) as [Hno _]. by specialize (Hno Hr). }
    destruct (brk_grows env c1 c2 rest l mm tsk1 b new) as (mm2 & tsk2 & r & l2 & -> & [? ? ? Ht2 ?] & Hm & Hok); try done; [lia|..].
    { intros Hn. destruct (Hroom ltac:(lia) Hn) as [_ Hfr]. by apply Hfr. }
    cbn [obind]. assert (Hfo3 : follows mm l tsk mm2 l2 tsk2 3) by (split; try done; by destruct Ht1 as [<- <-]).
    destruct Hm as [(-> & Hn & Hm)|[Hr Hm]]; [exists mm2, tsk2, new, new, l2|rewrite (proj2 (Z.ltb_lt r 0)) by done; exists mm2, tsk2, (brk b), (brk b), l2].
    + split_and!; try done. left. by split_and!.
    + split_and!; try done; [by right|]. intros _ [_ _ _ Hg]. destruct (Hg Hgt) as (Hn & _ & Ha). specialize (Hok Hn Ha). lia.
Qed.
End DoBrk.

(** ** Areas from the allocator *)

(** A split gets no area, or one that is not in use. *)
Definition split_fresh (split : mm_struct -> split_calls) : Prop :=
  forall mm, new_vma (split mm) = 0 \/ (valid (new_vma (split mm)) /\ vmas mm !! new_vma (split mm) = None).

Lemma fresh_calls guard split mm l : split_fresh split -> space guard l mm -> calls_fresh l (split mm).
Proof.
  intros Hs Hsp. destruct (Hs mm) as [H|[Hv Hn]]; [by left|right]. split; [done|]. intros Hin.
  destruct (space_some _ _ _ Hsp _ Hin) as [[? Hsome] _]. by rewrite Hsome in Hn.
Qed.
