(* ===== verification/AddressProtect.v ===== *)
(** * Changing the protection of a range (mm/mprotect.c)

    CONFIG_ARCH_HAS_PKEYS is not set: there are no protection keys.  The page tables that
    [change_protection] and [populate_vma_page_range] work on, and the counters of pages,
    are not part of this state. *)
From Stdlib Require Import ZArith Lia Bool.
From stdpp Require Import base numbers list gmap.
From S2P Require Import Prelude RBTree VmArea AddressSpace AddressSearch AddressAdjust AddressBrk.

Definition PROT_READ : Z := 1.
Definition PROT_WRITE : Z := 2.
Definition PROT_EXEC : Z := 4.
Definition PROT_SEM : Z := 8.
Definition PROT_GROWSDOWN : Z := 16777216.
Definition PROT_GROWSUP : Z := 33554432.
Definition VM_NORESERVE : Z := 2097152.
Definition VM_HUGETLB : Z := 4194304.
Definition EACCES : Z := 13.

Definition set_vm_flags (v : vm_area_struct) (x : Z) : vm_area_struct :=
  mk_vma (vm_start v) (vm_end v) (vm_next v) (vm_prev v) (vm_mm v) x (anon_name v) (chain_singular v) (anon_vma v) (vm_close v) (vm_pgoff v) (vm_file v).

Definition _calc_vm_trans (x bit1 bit2 : Z) : Z :=
  if (bit1 =? 0) || (bit2 =? 0) then 0
  else if bit1 <=? bit2 then Z.land x bit1 * (bit2 / bit1) else Z.land x bit1 / (bit1 / bit2).

Definition calc_vm_prot_bits (prot : Z) : Z :=
  Z.lor (_calc_vm_trans prot PROT_READ VM_READ) (Z.lor (_calc_vm_trans prot PROT_WRITE VM_WRITE) (_calc_vm_trans prot PROT_EXEC VM_EXEC)).

Definition arch_validate_prot (prot : Z) : bool :=
  Z.land prot (Z.lnot (Z.lor PROT_READ (Z.lor PROT_WRITE (Z.lor PROT_EXEC PROT_SEM)))) =? 0.

(** What the calls of [mprotect_fixup] give: the counters that [may_expand_vm] reads,
    [security_vm_enough_memory_mm], [anon_vma_clone] for the merge, and the splits. *)
Record fixup_calls := mk_fixup {
  fx_total_vm : Z; fx_data_vm : Z; fx_enough : Z; fx_clone_err : Z; fx_split1 : split_calls; fx_split2 : split_calls
}.

Definition VM_RWX : Z := Z.lor VM_READ (Z.lor VM_WRITE VM_EXEC).

Section Protect.
Variables (stack_guard_gap max_map_count : Z) (limits : vm_limits).

(** The flags after the accounting checks, or -ENOMEM *)
Definition charge_flags (calls : fixup_calls) (oldflags newflags nrpages : Z) : option Z :=
  if negb (Z.land newflags VM_WRITE =? 0) then
    if negb (may_expand_vm limits (fx_total_vm calls) (fx_data_vm calls) newflags nrpages)
       && may_expand_vm limits (fx_total_vm calls) (fx_data_vm calls) oldflags nrpages
    then None
    else if Z.land oldflags (Z.lor VM_ACCOUNT (Z.lor VM_WRITE (Z.lor VM_HUGETLB (Z.lor VM_SHARED VM_NORESERVE)))) =? 0 then
      if negb (fx_enough calls =? 0) then None else Some (Z.lor newflags VM_ACCOUNT)
    else Some newflags
  else Some newflags.

(** The address space, [*pprev] and the error *)
Definition mprotect_fixup (calls : fixup_calls) (mm : mm_struct) (vma pprev start end_ newflags : Z) : outcome (mm_struct * Z * Z) :=
  let* v := vma_at (vmas mm) vma in
  let oldflags := vm_flags v in
  let nrpages := Z.shiftr (u32 (end_ - start)) PAGE_SHIFT in
  if newflags =? oldflags then Ret (mm, vma, 0)
  else
    match charge_flags calls oldflags newflags nrpages with
    | None => Ret (mm, pprev, - ENOMEM)
    | Some newflags =>
        let pgoff := u32 (vm_pgoff v + Z.shiftr (u32 (start - vm_start v)) PAGE_SHIFT) in
        let success mm vma := let* mm := put_vma mm vma (fun v => set_vm_flags v newflags) in Ret (mm, vma, 0) in
        let* (mm, merged) := vma_merge stack_guard_gap (fx_clone_err calls) mm pprev start end_ newflags (anon_vma v) (vm_file v) pgoff (vma_get_anon_name v) in
        if negb (merged =? 0) then success mm merged
        else
          let* (mm, error) := if negb (start =? vm_start v) then split_vma stack_guard_gap max_map_count (fx_split1 calls) mm vma start true else Ret (mm, 0) in
          if negb (error =? 0) then Ret (mm, vma, error)
          else
            let* v := vma_at (vmas mm) vma in
            let* (mm, error) := if negb (end_ =? vm_end v) then split_vma stack_guard_gap max_map_count (fx_split2 calls) mm vma end_ false else Ret (mm, 0) in
            if negb (error =? 0) then Ret (mm, vma, error) else success mm vma
    end.

(** ** The system call *)
Variables (security_file_mprotect : mm_struct -> Z -> Z -> Z -> Z) (calls : mm_struct -> fixup_calls).

(** [newflags] for an area with the flags [old]; [rier] is whether reading implies executing. *)
Definition prot_of (rier : bool) (old reqprot : Z) : Z :=
  if rier && negb (Z.land old VM_MAYEXEC =? 0) then Z.lor reqprot PROT_EXEC else reqprot.
Definition mprotect_newflags (rier : bool) (old reqprot : Z) : Z :=
  Z.lor (calc_vm_prot_bits (prot_of rier old reqprot)) (Z.land old (Z.lnot VM_RWX)).

(** [newflags >> 4] has the VM_MAY bits in place of the VM bits. *)
Definition denied (newflags : Z) : bool := negb (Z.land (Z.land newflags (Z.lnot (Z.shiftr newflags 4))) VM_RWX =? 0).

(** [for (nstart = start ; ; )] *)
Fixpoint mprotect_loop (fuel : nat) (rier : bool) (reqprot : Z) (mm : mm_struct) (vma prev nstart end_ : Z) : outcome (mm_struct * Z) :=
  match fuel with
  | O => Fuel
  | S fuel' =>
      let* v := vma_at (vmas mm) vma in
      let prot := prot_of rier (vm_flags v) reqprot in
      let newflags := mprotect_newflags rier (vm_flags v) reqprot in
      if denied newflags then Ret (mm, - EACCES)
      else
        let error := security_file_mprotect mm vma reqprot prot in
        if negb (error =? 0) then Ret (mm, error)
        else
          let tmp := if end_ <? vm_end v then end_ else vm_end v in
          let* (mm, prev, error) := mprotect_fixup (calls mm) mm vma prev nstart tmp newflags in
          if negb (error =? 0) then Ret (mm, error)
          else
            let* p := vma_at (vmas mm) prev in
            let nstart := if tmp <? vm_end p then vm_end p else tmp in
            if end_ <=? nstart then Ret (mm, error)
            else
              let vma := vm_next p in
              let* there := vma_and mm vma (fun v => vm_start v =? nstart) in
              if there : bool then mprotect_loop fuel' rier reqprot mm vma prev nstart end_ else Ret (mm, - ENOMEM)
  end.

(** [personality] is whether READ_IMPLIES_EXEC is set, [killed] the result of
    [down_write_killable]; a [pkey] other than -1 has to be 0. *)
Definition do_mprotect_pkey (personality killed : bool) (mm : mm_struct) (current : task_struct) (start len prot pkey : Z) : outcome (mm_struct * task_struct * Z) :=
  let grows := Z.land prot (Z.lor PROT_GROWSDOWN PROT_GROWSUP) in
  let rier := personality && negb (Z.land prot PROT_READ =? 0) in
  let prot := Z.land prot (Z.lnot (Z.lor PROT_GROWSDOWN PROT_GROWSUP)) in
  if grows =? Z.lor PROT_GROWSDOWN PROT_GROWSUP then Ret (mm, current, - EINVAL)
  else if negb (Z.land start (PAGE_SIZE - 1) =? 0) then Ret (mm, current, - EINVAL)
  else if len =? 0 then Ret (mm, current, 0)
  else
    let len := PAGE_ALIGN len in
    let end_ := u32 (start + len) in
    if end_ <=? start then Ret (mm, current, - ENOMEM)
    else if negb (arch_validate_prot prot) then Ret (mm, current, - EINVAL)
    else
      let reqprot := prot in
      if killed then Ret (mm, current, - EINTR)
      else if negb (pkey =? -1) && negb (pkey =? 0) then Ret (mm, current, - EINVAL)
      else
        let* (current, vma) := find_vma mm current start in
        if vma =? 0 then Ret (mm, current, - ENOMEM)
        else
          let* v := vma_at (vmas mm) vma in
          let prev := vm_prev v in
          let loop start end_ :=
            let prev := if vm_start v <? start then vma else prev in
            let* (mm, error) := mprotect_loop (S (Z.to_nat ((end_ - start) / PAGE_SIZE))) rier reqprot mm vma prev start end_ in
            Ret (mm, current, error) in
          if negb (Z.land grows PROT_GROWSDOWN =? 0) then
            if end_ <=? vm_start v then Ret (mm, current, - ENOMEM)
            else if Z.land (vm_flags v) VM_GROWSDOWN =? 0 then Ret (mm, current, - EINVAL)
            else loop (vm_start v) end_
          else if start <? vm_start v then Ret (mm, current, - ENOMEM)
          else if negb (Z.land grows PROT_GROWSUP =? 0) then
            let end_ := vm_end v in
            if Z.land (vm_flags v) VM_GROWSUP =? 0 then Ret (mm, current, - EINVAL) else loop start end_
          else loop start end_.

Definition sys_mprotect (personality killed : bool) (mm : mm_struct) (current : task_struct) (start len prot : Z) : outcome (mm_struct * task_struct * Z) :=
  do_mprotect_pkey personality killed mm current start len prot (-1).
Definition sys_pkey_mprotect (personality killed : bool) (mm : mm_struct) (current : task_struct) (start len prot pkey : Z) : outcome (mm_struct * task_struct * Z) :=
  do_mprotect_pkey personality killed mm current start len prot pkey.
End Protect.
