(* ===== verification/AddressProtectSpec.v ===== *)
(** * What changing the protection of a range does to an address space *)
From Stdlib Require Import ZArith Lia Bool Sorted.
From stdpp Require Import base numbers list sorting gmap.
From S2P Require Import Prelude RBTree RBTreeShape RBTreeRep RBTreeAugment RBTreeInsert RBTreeErase RBTreeRemove RBTreeCallbacks RBTreeWalk RBTreeProps RBTreeSearch VmArea IntervalTree IntervalTreeSpec AddressSpace AddressSearch AddressGaps AddressLink AddressUnmap AddressFind AddressAdjust AddressMap AddressSplit AddressMunmap AddressChange AddressAbsorb AddressMerge AddressBrk AddressHeap AddressProtect.

(** ** The flags *)

(** The flags of a page after a call that asks for [reqprot]. *)
Definition protect_flags (rier : bool) (reqprot old : Z) : Z :=
  let new := mprotect_newflags rier old reqprot in
  if new =? old then old
  else if negb (Z.land new VM_WRITE =? 0) && (Z.land old (Z.lor VM_ACCOUNT (Z.lor VM_WRITE (Z.lor VM_HUGETLB (Z.lor VM_SHARED VM_NORESERVE)))) =? 0)
  then Z.lor new VM_ACCOUNT else new.

Lemma calc_bits prot : calc_vm_prot_bits prot = Z.land prot VM_RWX.
Proof.
  change (calc_vm_prot_bits prot) with (Z.lor (Z.land prot 1 * 1) (Z.lor (Z.land prot 2 * 1) (Z.land prot 4 * 1))).
  rewrite !Z.mul_1_r, <- !Z.land_lor_distr_r. done.
Qed.

Lemma rwx_bit i : Z.testbit VM_RWX i = (0 <=? i) && (i <? 3).
Proof. apply (Z.testbit_ones 3 i). done. Qed.

(** The low three bits come from the request, the others stay. *)
Lemma newflags_bit rier old reqprot i : 0 <= i ->
  Z.testbit (mprotect_newflags rier old reqprot) i = if i <? 3 then Z.testbit (prot_of rier old reqprot) i else Z.testbit old i.
Proof.
  intros Hi. unfold mprotect_newflags. rewrite calc_bits, Z.lor_spec, !Z.land_spec, Z.lnot_spec, rwx_bit, (proj2 (Z.leb_le 0 i)) by done.
  destruct (i <? 3); cbn [andb negb]; by rewrite ?andb_true_r, ?andb_false_r, ?orb_false_r.
Qed.

Lemma bit_zero x k : 0 <= k -> (Z.land x (2 ^ k) =? 0) = negb (Z.testbit x k).
Proof.
  intros Hk. destruct (Z.testbit x k) eqn:Hb; cbn [negb].
  - apply Z.eqb_neq. intros H0. assert (Hz : Z.testbit (Z.land x (2 ^ k)) k = false) by (rewrite H0; apply Z.bits_0).
    rewrite Z.land_spec, Hb, Z.pow2_bits_true in Hz by done. done.
  - apply Z.eqb_eq, Z.bits_inj'. intros i Hi. rewrite Z.land_spec, Z.bits_0, Z.pow2_bits_eqb by done.
    destruct (Z.eqb_spec k i) as [->|]; [by rewrite Hb|apply andb_false_r].
Qed.

Lemma protect_bit rier reqprot old i : 0 <= i -> i <> 20 ->
  Z.testbit (protect_flags rier reqprot old) i = Z.testbit (mprotect_newflags rier old reqprot) i.
Proof.
  intros Hi Hne. unfold protect_flags. destruct (Z.eqb_spec (mprotect_newflags rier old reqprot) old) as [->|]; [done|]. destruct (_ && _); [|done].
  rewrite Z.lor_spec. change VM_ACCOUNT with (2 ^ 20). rewrite Z.pow2_bits_eqb by done. destruct (Z.eqb_spec 20 i); [lia|apply orb_false_r].
Qed.

(** The bit of stacks stays, and so does the one that says whether reading implies executing. *)
Lemma protect_keeps rier reqprot old i : 3 <= i -> i <> 20 -> Z.testbit (protect_flags rier reqprot old) i = Z.testbit old i.
Proof. intros Hi Hne. rewrite protect_bit, newflags_bit by lia. by rewrite (proj2 (Z.ltb_ge _ _)). Qed.

Lemma protect_prot rier reqprot old : prot_of rier (protect_flags rier reqprot old) reqprot = prot_of rier old reqprot.
Proof. unfold prot_of. change VM_MAYEXEC with (2 ^ 6). by rewrite !bit_zero, protect_keeps by done. Qed.

(** A second call changes nothing. *)
Lemma new_protect rier reqprot old : mprotect_newflags rier (protect_flags rier reqprot old) reqprot = protect_flags rier reqprot old.
Proof.
  apply Z.bits_inj'. intros i Hi. rewrite newflags_bit, protect_prot by done. destruct (Z.ltb_spec i 3) as [H3|H3]; [|done].
  rewrite protect_bit, newflags_bit by lia. by rewrite (proj2 (Z.ltb_lt _ _)).
Qed.

Lemma protect_twice rier reqprot old : protect_flags rier reqprot (protect_flags rier reqprot old) = protect_flags rier reqprot old.
Proof. unfold protect_flags at 1. rewrite new_protect. by rewrite Z.eqb_refl. Qed.

Lemma small_bits x : 0 <= x -> (forall i, 32 <= i -> Z.testbit x i = false) -> x < 2 ^ 32.
Proof.
  intros H0 Hb. destruct (decide (x = 0)) as [->|Hne]; [done|]. apply Z.log2_lt_pow2; [lia|]. apply Z.nle_gt. intros Hle.
  specialize (Hb (Z.log2 x) Hle). rewrite Z.bit_log2 in Hb; [done|lia].
Qed.

Lemma protect_range rier reqprot old : 0 <= reqprot -> 0 <= old < 2 ^ 32 -> 0 <= protect_flags rier reqprot old < 2 ^ 32.
Proof.
  intros Hr Ho. assert (Hn : 0 <= mprotect_newflags rier old reqprot).
  { unfold mprotect_newflags. apply Z.lor_nonneg. rewrite calc_bits. split; apply Z.land_nonneg; [by right|left; lia]. }
  assert (H0 : 0 <= protect_flags rier reqprot old).
  { unfold protect_flags. destruct (_ =? old); [lia|]. destruct (_ && _); [apply Z.lor_nonneg; done|done]. }
  split; [done|]. apply small_bits; [done|]. intros i Hi. rewrite protect_keeps by lia. rewrite <- (Z.mod_small old (2 ^ 32)) by done. apply Z.mod_pow2_bits_high. lia.
Qed.

Lemma protect_gap guard v rier reqprot :
  vm_start_gap guard (set_vm_flags v (protect_flags rier reqprot (vm_flags v))) = vm_start_gap guard v.
Proof. unfold vm_start_gap. cbn [vm_flags vm_start set_vm_flags]. change VM_GROWSDOWN with (2 ^ 8). by rewrite !bit_zero, protect_keeps by done. Qed.

(** What the accounting checks give. *)
Lemma charge_flags_spec limits calls rier reqprot old n f : mprotect_newflags rier old reqprot <> old ->
  charge_flags limits calls old (mprotect_newflags rier old reqprot) n = Some f -> f = protect_flags rier reqprot old.
Proof.
  intros Hne. unfold charge_flags, protect_flags. cbv zeta. rewrite (proj2 (Z.eqb_neq (mprotect_newflags rier old reqprot) old)) by done.
  destruct (negb (Z.land (mprotect_newflags rier old reqprot) VM_WRITE =? 0)); cbn [andb]; [|by intros [= <-]].
  destruct (negb _ && _); [done|]. destruct (_ =? 0); [|by intros [= <-]]. destruct (negb _); [done|by intros [= <-]].
Qed.

(** ** Pages *)
Definition protect_page (rier : bool) (reqprot : Z) (p : page) : page :=
  mk_page (protect_flags rier reqprot (pg_flags p)) (pg_file p) (pg_name p) (pg_close p) (pg_off p).

(** The same without the [close] operation. *)
Definition closeless_page (rier : bool) (reqprot : Z) (p : page) : page :=
  mk_page (protect_flags rier reqprot (pg_flags p)) (pg_file p) (pg_name p) false (pg_off p).

(** A page of an area with a [close] operation, and one without it of the same file and with
    the same flags after the call: the areas can become one. *)
Definition loses_close (rier : bool) (reqprot : Z) (m : Z -> option page) (p : page) : Prop :=
  pg_close p = true /\ exists b q, m b = Some q /\ pg_close q = false /\ pg_file q = pg_file p /\ pg_name q = pg_name p
    /\ protect_flags rier reqprot (pg_flags q) = protect_flags rier reqprot (pg_flags p).

(** What a page of [m] becomes. *)
Definition protected_page (rier : bool) (reqprot : Z) (m : Z -> option page) (p p' : page) : Prop :=
  p' = protect_page rier reqprot p \/ (loses_close rier reqprot m p /\ p' = closeless_page rier reqprot p).

Section Protect.
Context (stack_guard_gap max_map_count : Z).
Abbreviation space := (space stack_guard_gap).
Abbreviation resplit := (resplit stack_guard_gap).
Hypothesis guard_range : 0 <= stack_guard_gap < 2 ^ 32.

Lemma maps_at l mm z a : space l mm -> z ∈ l -> vm_start (area (vmas mm) z) <= a < vm_end (area (vmas mm) z) -> maps mm l a = Some (page_of (area (vmas mm) z) a).
Proof.
  intros Hsp (A & B & ->)%list_elem_of_split Ha. destruct (space_order _ _ _ _ _ Hsp) as (_ & HA & _). unfold maps, regions.
  rewrite fmap_app, contents_app, fmap_cons. cbn [contents]. rewrite covers_true by done.
  rewrite contents_none; [done|]. intros v (y & -> & Hy)%list_elem_of_fmap. apply covers_false. right. specialize (HA y Hy). lia.
Qed.

(** *** The splits *)

(** The error of a split whose calls do not all succeed. *)
Definition split_code (c : split_calls) : Z :=
  if negb (split_err c =? 0) then split_err c else if new_vma c =? 0 then - ENOMEM else clone_new_err c.

Lemma split_code_spec c mm x addr below mm' r : ~ calls_succeed c -> __split_vma stack_guard_gap c mm x addr below = Ret (mm', r) -> r = split_code c.
Proof.
  intros Hno. unfold __split_vma, split_code. destruct (Z.eqb_spec (split_err c) 0) as [H1|]; cbn [negb]; [|congruence].
  destruct (Z.eqb_spec (new_vma c) 0) as [|H2]; [congruence|]. intros H. bind_in H as v eqn Hv. bind_in H as n eqn Hn. bind_in H as g eqn Hg.
  destruct (Z.eqb_spec (clone_new_err c) 0) as [H3|H3]; cbn [negb] in H; [by destruct Hno|congruence].
Qed.

(** [x] after a cut: other bounds, the same pages. *)
Record cut_area (v v' : vm_area_struct) : Prop := {
  cu_flags : vm_flags v' = vm_flags v;
  cu_close : vm_close v' = vm_close v;
  cu_page : forall a, page_of v' a = page_of v a
}.

Lemma cut_refl v : cut_area v v.
Proof. by split. Qed.

Lemma bare_cut v v' w : bare v' = bare w -> cut_area v w -> cut_area v v'.
Proof.
  intros Hb [Hf Hc Hp]. destruct (bare_page _ _ Hb) as [_ Hpage]. destruct (bare_bounds _ _ Hb) as (_ & _ & _ & Hfl & _). split.
  - by rewrite Hfl.
  - rewrite <- Hc. change (vm_close (bare v') = vm_close (bare w)). by rewrite Hb.
  - intros a. by rewrite Hpage.
Qed.

Lemma lower_cut v e : cut_area v (lower_part v e).
Proof. by split. Qed.

Lemma upper_cut v s : vm_start v mod PAGE_SIZE = 0 -> s mod PAGE_SIZE = 0 -> cut_area v (upper_part v s).
Proof. intros Hv Hs. split; [done|done|]. intros a. unfold page_of. cbn. f_equal. by apply offset_shift. Qed.

Lemma cut_start c A x B mm s : space (A ++ x :: B) mm -> let v := area (vmas mm) x in
  vm_start v <= s < vm_end v -> s mod PAGE_SIZE = 0 -> calls_fresh (A ++ x :: B) c ->
  exists mm' err, (if negb (s =? vm_start v) then split_vma stack_guard_gap max_map_count c mm x s true else Ret (mm, 0)) = Ret (mm', err)
    /\ ((err <> 0 /\ resplit mm (A ++ x :: B) mm' (A ++ x :: B) /\ s <> vm_start v /\ ((~ calls_succeed c /\ err = split_code c) \/ (max_map_count <= map_count mm /\ err = - ENOMEM)))
        \/ (err = 0 /\ exists A', resplit mm (A ++ x :: B) mm' (A' ++ x :: B) /\ Z.of_nat (length A') = Z.of_nat (length A) + (if decide (s = vm_start v) then 0 else 1)
             /\ vm_start (area (vmas mm') x) = s /\ vm_end (area (vmas mm') x) = vm_end v /\ cut_area v (area (vmas mm') x)
             /\ (forall z, z ∈ A' ++ x :: B -> z ∈ A ++ x :: B \/ z = new_vma c))).
Proof.
  intros Hsp v Hs Hm Hf. destruct (Z.eqb_spec s (vm_start v)) as [->|Hne]; cbn [negb].
  { exists mm, 0. split; [done|]. right. split; [done|]. exists A. rewrite decide_True by done. split_and!; try done; try (by apply resplit_refl); [lia|by left]. }
  unfold split_vma. destruct (Z.leb_spec max_map_count (map_count mm)) as [Hc|Hc].
  { exists mm, (- ENOMEM). split; [done|]. left. split_and!; try done; try (by apply resplit_refl). by right. }
  destruct (resplit_vma stack_guard_gap A x B mm c s true guard_range Hsp) as (mm' & r & Hrun & Hres); [fold v; lia|done|done|]. exists mm', r. split; [done|].
  destruct (decide (calls_succeed c)) as [Hsuc|Hsuc]; [right|left; destruct Hres; split_and!; try done; left; split; [done|by eapply split_code_spec]].
  destruct Hres as (-> & Hre & (Hx & _ & _)). split; [done|]. cbn [split_list] in Hre. exists (A ++ [new_vma c]). rewrite <- app_assoc. cbn [app]. rewrite decide_False by done.
  apply unlinked_bare in Hx. fold v in Hx. destruct (bare_bounds _ _ Hx) as (-> & -> & _). destruct (sp_paged _ _ _ Hsp x) as (Hp & _); [set_solver|].
  split_and!; try done; [rewrite length_app; simpl; lia|eapply bare_cut; [done|by apply upper_cut]|set_solver].
Qed.

Lemma cut_end c A x B mm e : space (A ++ x :: B) mm -> let v := area (vmas mm) x in
  vm_start v < e <= vm_end v -> e mod PAGE_SIZE = 0 -> calls_fresh (A ++ x :: B) c ->
  exists mm' err, (if negb (e =? vm_end v) then split_vma stack_guard_gap max_map_count c mm x e false else Ret (mm, 0)) = Ret (mm', err)
    /\ ((err <> 0 /\ resplit mm (A ++ x :: B) mm' (A ++ x :: B) /\ e <> vm_end v /\ ((~ calls_succeed c /\ err = split_code c) \/ (max_map_count <= map_count mm /\ err = - ENOMEM)))
        \/ (err = 0 /\ exists B', resplit mm (A ++ x :: B) mm' (A ++ x :: B') /\ Z.of_nat (length B') = Z.of_nat (length B) + (if decide (e = vm_end v) then 0 else 1)
             /\ vm_start (area (vmas mm') x) = vm_start v /\ vm_end (area (vmas mm') x) = e /\ cut_area v (area (vmas mm') x))).
Proof.
  intros Hsp v He Hm Hf. destruct (Z.eqb_spec e (vm_end v)) as [->|Hne]; cbn [negb].
  { exists mm, 0. split; [done|]. right. split; [done|]. exists B. rewrite decide_True by done. split_and!; try done; try (by apply resplit_refl). lia. }
  unfold split_vma. destruct (Z.leb_spec max_map_count (map_count mm)) as [Hc|Hc].
  { exists mm, (- ENOMEM). split; [done|]. left. split_and!; try done; try (by apply resplit_refl). by right. }
  destruct (resplit_vma stack_guard_gap A x B mm c e false guard_range Hsp) as (mm' & r & Hrun & Hres); [fold v; lia|done|done|]. exists mm', r. split; [done|].
  destruct (decide (calls_succeed c)) as [Hsuc|Hsuc]; [right|left; destruct Hres; split_and!; try done; left; split; [done|by eapply split_code_spec]].
  destruct Hres as (-> & Hre & (Hx & _ & _)). split; [done|]. cbn [split_list] in Hre. exists (new_vma c :: B). rewrite decide_False by done.
  apply unlinked_bare in Hx. fold v in Hx. destruct (bare_bounds _ _ Hx) as (-> & -> & _).
  split_and!; try done; [simpl; lia|]. eapply bare_cut; [done|apply lower_cut].
Qed.

(** *** The new flags *)
Section Flags.
Context (rier : bool) (reqprot : Z).
Hypothesis prot_range : 0 <= reqprot.
Abbreviation prot_page := (protect_page rier reqprot).
Abbreviation prot_flags := (protect_flags rier reqprot).

Lemma set_flags_spec l mm x : space l mm -> x ∈ l -> let v := area (vmas mm) x in
  exists mm', put_vma mm x (fun v => set_vm_flags v (prot_flags (vm_flags (area (vmas mm) x)))) = Ret mm' /\ space l mm' /\ kept mm l mm' l
    /\ area (vmas mm') x = set_vm_flags v (prot_flags (vm_flags v))
    /\ forall a, maps mm' l a = if decide (vm_start v <= a < vm_end v) then Some (prot_page (page_of v a)) else maps mm l a.
Proof.
  intros Hsp Hx v. destruct (space_some _ _ _ Hsp x Hx) as [Hxs _]. unfold put_vma. rewrite vma_at_area by done. cbn [obind]. fold v. set (v' := set_vm_flags v _).
  exists (set_vmas mm (<[x := v']> (vmas mm))). split; [done|]. pose proof Hsp as [[R Hwf] Hpg Hsq].
  assert (Har : forall z, area (<[x := v']> (vmas mm)) z = if decide (z = x) then v' else area (vmas mm) z) by (intros z; apply area_insert).
  split; [|split; [split; [split; [done|by left]|cbn; lia]|split; [cbn [vmas set_vmas]; by rewrite Har, decide_True|]]].
  - split; [exists R; apply refield_wf; [done|..]| |done].
    + intros z. rewrite Har. destruct (decide (z = x)) as [->|]; [|done]. split_and!; try done. apply protect_gap.
    + intros z Hz. apply lookup_insert_is_Some'. by right.
    + intros z Hz. cbn [vmas set_vmas]. rewrite Har. destruct (decide (z = x)) as [->|]; [|auto]. destruct (Hpg x Hx) as (? & ? & ?). split; [done|]. split; [done|]. by apply protect_range.
  - intros a. apply list_elem_of_split in Hx as (A & B & ->). destruct (space_order _ _ _ _ _ Hsp) as (_ & HA & _). fold v in HA.
    destruct (space_nodup _ _ _ Hsp) as [Hnd _]. apply NoDup_app in Hnd as (_ & HxA & [HxB _]%NoDup_cons).
    assert (Hsame : forall K, x ∉ K -> contents (regions (<[x := v']> (vmas mm)) K) = contents (regions (vmas mm) K)).
    { intros K HK. apply contents_same. intros z Hz. rewrite Har, decide_False; [done|]. by intros ->. }
    unfold maps, regions. cbn [vmas set_vmas]. rewrite !fmap_app, !contents_app, !fmap_cons. cbn [contents]. fold (regions (<[x := v']> (vmas mm)) A) (regions (<[x := v']> (vmas mm)) B).
    rewrite !Hsame, Har, decide_True; [|done|by intros HB; apply HxB|by intros HA'; apply (HxA x HA'), list_elem_of_here]. fold v. destruct (decide (vm_start v <= a < vm_end v)) as [Ha|Ha].
    + rewrite covers_true by done. rewrite contents_none; [done|]. intros y (z & -> & Hz)%list_elem_of_fmap. apply covers_false. right. specialize (HA z Hz). lia.
    + rewrite !covers_false by (cbn; lia). done.
Qed.

(** Flags that are already there. *)
Lemma set_same_flags mm x f : is_Some (vmas mm !! x) -> vm_flags (area (vmas mm) x) = f -> put_vma mm x (fun v => set_vm_flags v f) = Ret mm.
Proof.
  intros [v Hv] Hf. assert (Ha : area (vmas mm) x = v) by (unfold area; by rewrite Hv). unfold put_vma. rewrite vma_at_area by by eexists. cbn [obind].
  rewrite Ha in *. assert (Hs : set_vm_flags v f = v) by (rewrite <- Hf; by destruct v). rewrite Hs, insert_id by done. by destruct mm.
Qed.

(** *** [mprotect_fixup] *)

(** The areas after a call on the range, with the area [p] that has it. *)
Record fixed (mm : mm_struct) (l : list Z) (mm' : mm_struct) (l' : list Z) (v : vm_area_struct) (p start end_ more : Z) : Prop := {
  fx_space : space l' mm';
  fx_kept : kept mm l mm' l';
  fx_in : p ∈ l';
  fx_spans : vm_start (area (vmas mm') p) <= start /\ end_ <= vm_end (area (vmas mm') p);
  fx_flags : vm_flags (area (vmas mm') p) = prot_flags (vm_flags v);
  fx_count : Z.of_nat (length l') <= Z.of_nat (length l) + more;
  fx_maps : forall a, if decide (start <= a < end_) then exists p', maps mm' l' a = Some p' /\ protected_page rier reqprot (maps mm l) (page_of v a) p'
              else maps mm' l' a = maps mm l a
}.

(** The splits a range of an area needs. *)
Definition cuts (v : vm_area_struct) (start end_ : Z) : Z := (if decide (start = vm_start v) then 0 else 1) + (if decide (end_ = vm_end v) then 0 else 1).

Lemma cuts_nonneg v start end_ : 0 <= cuts v start end_.
Proof. unfold cuts. destruct (decide _), (decide _); lia. Qed.

(** The reasons for an error of [mprotect_fixup]: the accounting, a split that is needed, or
    the number of areas. *)
Definition unwilling (limits : vm_limits) (calls : fixup_calls) (mm : mm_struct) (v : vm_area_struct) (start end_ err : Z) : Prop :=
  charge_flags limits calls (vm_flags v) (mprotect_newflags rier (vm_flags v) reqprot) (Z.shiftr (u32 (end_ - start)) PAGE_SHIFT) = None /\ err = - ENOMEM
  \/ (start <> vm_start v /\ ~ calls_succeed (fx_split1 calls) /\ err = split_code (fx_split1 calls))
  \/ (end_ <> vm_end v /\ ~ calls_succeed (fx_split2 calls) /\ err = split_code (fx_split2 calls))
  \/ (max_map_count < map_count mm + cuts v start end_ /\ err = - ENOMEM).

Lemma space_count l mm : space l mm -> map_count mm = Z.of_nat (length l).
Proof. intros [[R Hwf] _ _]. apply Hwf. Qed.

Lemma kept_refl mm l : kept mm l mm l.
Proof. split; [apply cache_kept_refl|lia]. Qed.

(** The page a merge is asked for. *)
Lemma asked_protect v start a : vm_start v mod PAGE_SIZE = 0 -> start mod PAGE_SIZE = 0 -> 0 <= vm_start v <= start -> start < 2 ^ 32 ->
  asked_page (prot_flags (vm_flags v)) (vm_file v) (vma_get_anon_name v) (u32 (vm_pgoff v + Z.shiftr (u32 (start - vm_start v)) PAGE_SHIFT)) start a
  = closeless_page rier reqprot (page_of v a).
Proof.
  intros Hv Hs Hb Hs32. rewrite pages_between by lia. unfold asked_page, closeless_page, page_of. cbn [pg_flags pg_file pg_name pg_close pg_off]. f_equal.
  by apply offset_shift.
Qed.

(** A page next to an area that maps what the merge is asked for. *)
Lemma merged_page l mm z v a pgoff start : space l mm -> z ∈ l ->
  (forall b, page_of (area (vmas mm) z) b = asked_page (prot_flags (vm_flags v)) (vm_file v) (vma_get_anon_name v) pgoff start b) ->
  protected_page rier reqprot (maps mm l) (page_of v a) (closeless_page rier reqprot (page_of v a)).
Proof.
  intros Hsp Hz Hj. unfold protected_page, protect_page. destruct (vm_close v) eqn:Hc; [right|left; cbn; by rewrite Hc].
  split; [|done]. split; [done|]. destruct (space_area _ _ _ z Hsp Hz) as [Hb _]. exists (vm_start (area (vmas mm) z)). eexists.
  split; [apply maps_at; [done|done|lia]|]. rewrite Hj. cbn. split; [done|]. split; [done|]. split; [done|]. apply protect_twice.
Qed.

(** Splitting the range out of its area and giving it the flags. *)
Lemma cut_and_set limits calls A x B mm start end_ : space (A ++ x :: B) mm -> let v := area (vmas mm) x in
  vm_start v <= start -> start < end_ -> end_ <= vm_end v -> start mod PAGE_SIZE = 0 -> end_ mod PAGE_SIZE = 0 ->
  calls_fresh (A ++ x :: B) (fx_split1 calls) -> calls_fresh (A ++ x :: B) (fx_split2 calls) ->
  (new_vma (fx_split1 calls) = new_vma (fx_split2 calls) -> new_vma (fx_split1 calls) = 0) ->
  exists mm' err,
    (let* (mm, error) := if negb (start =? vm_start v) then split_vma stack_guard_gap max_map_count (fx_split1 calls) mm x start true else Ret (mm, 0) in
     if negb (error =? 0) then Ret (mm, x, error)
     else
       let* w := vma_at (vmas mm) x in
       let* (mm, error) := if negb (end_ =? vm_end w) then split_vma stack_guard_gap max_map_count (fx_split2 calls) mm x end_ false else Ret (mm, 0) in
       if negb (error =? 0) then Ret (mm, x, error)
       else let* mm := put_vma mm x (fun w => set_vm_flags w (prot_flags (vm_flags v))) in Ret (mm, x, 0)) = Ret (mm', x, err)
    /\ ((err <> 0 /\ (exists l', resplit mm (A ++ x :: B) mm' l') /\ unwilling limits calls mm v start end_ err)
        \/ (err = 0 /\ exists l', fixed mm (A ++ x :: B) mm' l' v x start end_ (cuts v start end_))).
Proof.
  intros Hsp v Hs Hse He Hsm Hem Hf1 Hf2 Hne. destruct (cut_start (fx_split1 calls) A x B mm start Hsp) as (mm1 & err1 & Hrun1 & Hres1); [fold v; lia|done|done|].
  fold v in Hrun1. rewrite Hrun1. cbn [obind]. pose proof (cuts_nonneg v start end_) as Hcuts. unfold cuts in *.
  destruct Hres1 as [(Herr & Hre & Hns & Hwhy)|(-> & A1 & Hre1 & HlA & Hs1 & He1 & Hcut1 & Hfrom)].
  { rewrite (proj2 (Z.eqb_neq err1 0)) by done. cbn [negb]. exists mm1, err1. split; [done|]. left. split; [done|]. split; [by eexists|].
    fold v in Hns. destruct Hwhy as [[??]|[Hc ->]]; [right; by left|]. right. right. right. split; [|done]. unfold cuts. rewrite decide_False by done. destruct (decide (end_ = vm_end v)); lia. }
  fold v in HlA, He1, Hcut1. cbn [Z.eqb negb]. pose proof Hre1 as [Hsp1 Hm1 _ _ _]. destruct (space_some _ _ _ Hsp1 x ltac:(set_solver)) as [Hx1 _]. rewrite vma_at_area by done. cbn [obind].
  destruct (cut_end (fx_split2 calls) A1 x B mm1 end_ Hsp1) as (mm2 & err2 & Hrun2 & Hres2).
  { rewrite Hs1, He1. lia. }
  { done. }
  { destruct Hf2 as [?|[Hv Hn]]; [by left|]. right. split; [done|]. intros [Hz|Hz]%Hfrom; [done|]. apply valid_neq0 in Hv. by rewrite Hne in Hz. }
  rewrite Hrun2. cbn [obind]. pose proof (space_count _ _ Hsp) as Hc0. pose proof (space_count _ _ Hsp1) as Hc1. rewrite !length_app in Hc0, Hc1. cbn [length] in Hc0, Hc1.
  destruct Hres2 as [(Herr & Hre2 & Hns & Hwhy)|(-> & B2 & Hre2 & HlB & Hs2 & He2 & Hcut2)].
  { rewrite (proj2 (Z.eqb_neq err2 0)) by done. cbn [negb]. exists mm2, err2. split; [done|]. left. split; [done|]. split; [eexists; by eapply resplit_trans|].
    rewrite He1 in Hns. destruct Hwhy as [[??]|[Hc ->]]; [right; right; by left|]. right. right. right. split; [|done]. unfold cuts. rewrite (decide_False (P := end_ = vm_end v)) by done. destruct (decide (start = vm_start v)); lia. }
  cbn [Z.eqb negb]. pose proof (resplit_trans _ _ _ _ _ _ _ Hre1 Hre2) as Hre. pose proof Hre as [Hsp2 Hm2 _ Hsq2 _].
  destruct (set_flags_spec _ _ x Hsp2 ltac:(set_solver)) as (mm3 & Hset & Hsp3 & Hk3 & Ha3 & Hm3). destruct Hcut1 as [Hfl1 Hcl1 Hpg1], Hcut2 as [Hfl2 Hcl2 Hpg2]. rewrite Hfl2, Hfl1 in *. rewrite Hset. cbn [obind]. exists mm3, 0. split; [done|]. right. split; [done|].
  exists (A1 ++ x :: B2). rewrite Hs2, He2, Hs1, He1 in *. split.
  - done.
  - destruct Hk3 as [Hk3 Hs3]. split; [|lia]. eapply cache_kept_trans; [by eapply resplit_cache|done].
  - set_solver.
  - rewrite Ha3. cbn. lia.
  - rewrite Ha3. done.
  - rewrite !length_app. cbn [length]. destruct (decide (start = vm_start v)), (decide (end_ = vm_end v)); lia.
  - intros a. rewrite Hm3, Hm2, Hpg2, Hpg1. destruct (decide (start <= a < end_)); [|done]. eexists. split; [done|by left].
Qed.

(** [vma_merge] with the area before the range, or the one the range starts in. *)
Lemma merge_inside clone_err f anon file pgoff name A x B mm start end_ : space (A ++ x :: B) mm -> let v := area (vmas mm) x in
  vm_start v <= start -> start < end_ -> end_ <= vm_end v -> start mod PAGE_SIZE = 0 -> end_ mod PAGE_SIZE = 0 -> 0 <= f < 2 ^ 32 -> vmacache_seqnum mm + 2 < 2 ^ 64 ->
  exists joins, merge_result f file pgoff name start end_ stack_guard_gap mm clone_err (A ++ x :: B) joins
    (vma_merge stack_guard_gap clone_err mm (if decide (start = vm_start v) then end_of Right A else x) start end_ f anon file pgoff name).
Proof.
  intros Hsp v Hs Hse He Hsm Hem Hf Hsq. destruct (space_area _ _ _ x Hsp ltac:(set_solver)) as [Hb1 Hb2]. fold v in Hb1, Hb2.
  destruct (space_order _ _ _ _ _ Hsp) as (_ & HA & _). fold v in HA. destruct (decide (start = vm_start v)) as [Hst|Hst]; eexists.
  - apply vma_merge_spec; try done; [lia|]. eapply at_head; [done| |by fold v|by fold v]. intros z Hz. destruct (HA z Hz). lia.
  - rewrite cons_middle, app_assoc. rewrite <- (end_right_snoc A x) at 2. apply vma_merge_spec; try done; [lia|by rewrite <- app_assoc|].
    eapply at_tail; [done|fold v; lia|by fold v].
Qed.

(** Only what is mapped counts. *)
Lemma protected_same m m1 p p' : (forall a, m1 a = m a) -> protected_page rier reqprot m1 p p' -> protected_page rier reqprot m p p'.
Proof. intros Hm [->|[(Hc & b & q & Hq & H) ->]]; [by left|right]. split; [|done]. split; [done|]. exists b, q. by rewrite <- Hm. Qed.

(** The same from an address space before a merge that did nothing. *)
Lemma untouched_fixed mm mm1 l mm' l' x p start end_ more : untouched stack_guard_gap mm mm1 l -> space l mm -> x ∈ l ->
  fixed mm1 l mm' l' (area (vmas mm1) x) p start end_ more -> fixed mm l mm' l' (area (vmas mm) x) p start end_ more.
Proof.
  intros Hu Hsp Hx [Hsp' [Hk Hs] Hp Hspan Hfl Hlen Hm]. pose proof (untouched_resplit _ _ _ _ Hsp Hu) as [_ Hm1 _ Hs1 _]. destruct (untouched_kept _ _ _ _ Hu) as [Hk1 _].
  destruct Hu as (_ & Hb & _). specialize (Hb x Hx). destruct (bare_page _ _ Hb) as [_ Hpg]. destruct (bare_bounds _ _ Hb) as (_ & _ & _ & Hf & _). split; try done.
  - split; [by eapply cache_kept_trans|lia].
  - by rewrite Hfl, Hf.
  - intros a. specialize (Hm a). rewrite Hpg, Hm1 in Hm. case_decide; [|done]. destruct Hm as (p' & Hp' & Hpp). exists p'. split; [done|].
    eapply protected_same; [exact Hm1|done].
Qed.

(** The range gets the flags, or nothing changes. *)
Definition fixup_result (limits : vm_limits) (calls : fixup_calls) (mm : mm_struct) (l : list Z) (x start end_ : Z) (o : outcome (mm_struct * Z * Z)) : Prop :=
  let v := area (vmas mm) x in
  exists mm' p err, o = Ret (mm', p, err)
    /\ ((err <> 0 /\ (exists l', space l' mm' /\ kept mm l mm' l' /\ forall a, maps mm' l' a = maps mm l a) /\ unwilling limits calls mm v start end_ err)
        \/ (err = 0 /\ exists l', fixed mm l mm' l' v p start end_ (cuts v start end_))).

Lemma fixup_spec limits calls A x B mm start end_ : space (A ++ x :: B) mm -> let v := area (vmas mm) x in
  vm_start v <= start -> start < end_ -> end_ <= vm_end v -> start mod PAGE_SIZE = 0 -> end_ mod PAGE_SIZE = 0 ->
  vmacache_seqnum mm + 2 < 2 ^ 64 ->
  calls_fresh (A ++ x :: B) (fx_split1 calls) -> calls_fresh (A ++ x :: B) (fx_split2 calls) ->
  (new_vma (fx_split1 calls) = new_vma (fx_split2 calls) -> new_vma (fx_split1 calls) = 0) ->
  fixup_result limits calls mm (A ++ x :: B) x start end_
    (mprotect_fixup stack_guard_gap max_map_count limits calls mm x (if decide (start = vm_start v) then end_of Right A else x) start end_
      (mprotect_newflags rier (vm_flags v) reqprot)).
Proof.
  intros Hsp v Hs Hse He Hsm Hem Hsq Hf1 Hf2 Hne. assert (Hx : x ∈ A ++ x :: B) by set_solver. destruct (space_some _ _ _ Hsp x Hx) as [Hxs _].
  destruct (space_area _ _ _ _ Hsp Hx) as [Hb1 Hb2]. fold v in Hb1, Hb2. destruct (sp_paged _ _ _ Hsp x Hx) as (Hvs & Hve & Hvf). fold v in Hvs, Hve, Hvf.
  unfold mprotect_fixup. rewrite vma_at_area by done. cbn [obind]. fold v. destruct (Z.eqb_spec (mprotect_newflags rier (vm_flags v) reqprot) (vm_flags v)) as [Hsame|Hnew].
  { exists mm, x, 0. split; [done|]. right. split; [done|]. exists (A ++ x :: B). assert (Hpf : prot_flags (vm_flags v) = vm_flags v) by (unfold protect_flags; by rewrite Hsame, Z.eqb_refl).
    pose proof (cuts_nonneg v start end_). split; fold v; try done; try lia; try apply kept_refl.
    intros a. case_decide; [|done]. rewrite (maps_at _ _ x) by (fold v; try done; lia). fold v. eexists. split; [done|]. left. unfold protect_page, page_of. cbn. by rewrite Hpf. }
  destruct (charge_flags _ _ _ _ _) as [f|] eqn:Hcharge.
  2:{ eexists mm, _, (- ENOMEM). split; [done|]. left. split; [done|]. split; [|by left]. exists (A ++ x :: B). split; [done|]. split; [apply kept_refl|done]. }
  apply charge_flags_spec in Hcharge as ->; [|done]. cbv zeta. set (f := prot_flags (vm_flags v)). assert (Hf : 0 <= f < 2 ^ 32) by by apply protect_range.
  set (pgoff := u32 (vm_pgoff v + _)). set (pprev := if decide _ then _ else _).
  destruct (merge_inside (fx_clone_err calls) f (anon_vma v) (vm_file v) pgoff (vma_get_anon_name v) A x B mm start end_) as (joins & mm1 & r & Hmerge & Hres); try done; try lia.
  fold v pprev in Hmerge. rewrite Hmerge. cbn [obind]. destruct Hres as [(-> & Hu & _)|(Hr & l' & Hrl & [Hsp' Hm' Hk'] & Hlen & Hspan & z & Hz & Hjz)].
  2:{ rewrite (proj2 (Z.eqb_neq r 0)) by done. cbn [negb]. destruct (space_some _ _ _ Hsp' r Hrl) as [Hrs _].
      assert (Hin : forall a, maps mm1 l' a = if decide (start <= a < end_) then Some (closeless_page rier reqprot (page_of v a)) else maps mm (A ++ x :: B) a).
      { intros a. rewrite Hm'. unfold f, pgoff. rewrite asked_protect by (done || lia). destruct (Z.leb_spec start a), (Z.ltb_spec a end_), (decide (start <= a < end_)); cbn [andb]; try done; lia. }
      assert (Hfr : vm_flags (area (vmas mm1) r) = f).
      { destruct Hspan as [Hp1 Hp2]. pose proof (Hin start) as Hst. rewrite decide_True, (maps_at _ _ r) in Hst by (done || lia). injection Hst. done. }
      rewrite set_same_flags by done. cbn [obind]. exists mm1, r, 0. split; [done|]. right. split; [done|]. exists l'. pose proof (cuts_nonneg v start end_). split; try done; [fold v; lia|].
      intros a. rewrite Hin. case_decide; [|done]. eexists. split; [done|]. eapply merged_page; [done|exact Hz|]. exact Hjz. }
  cbn [Z.eqb negb]. pose proof (untouched_resplit _ _ _ _ Hsp Hu) as [Hsp1 Hm1 _ Hs1 _]. pose proof (untouched_kept _ _ _ _ Hu) as Hk1.
  pose proof Hu as (_ & Hb & _). destruct (bare_bounds _ _ (Hb x Hx)) as (Hbs & Hbe & _ & Hbf & _). fold v in Hbs, Hbe, Hbf.
  destruct (cut_and_set limits calls A x B mm1 start end_) as (mm2 & err & Hrun & Hres); try done; try (by rewrite ?Hbs, ?Hbe). rewrite Hbs, Hbf in Hrun.
  exists mm2, x, err. split; [exact Hrun|]. assert (Hcu : cuts (area (vmas mm1) x) start end_ = cuts v start end_) by (unfold cuts; by rewrite Hbs, Hbe). destruct Hres as [(Herr & (l' & [Hsp2 Hm2 Ha2 Hs2 Hl2]) & Hwhy)|(-> & l' & Hfx)]; [left|right].
  - split; [done|]. split; [exists l'; split; [done|]; split|].
    + split; [|lia]. eapply cache_kept_trans; [apply Hk1|]. split; [done|by left].
    + intros a. by rewrite Hm2.
    + unfold unwilling in *. fold v. by rewrite Hcu, Hbf, Hbs, Hbe, (space_count _ _ Hsp1), <- (space_count _ _ Hsp) in Hwhy.
  - split; [done|]. exists l'. fold v. rewrite <- Hcu. by eapply untouched_fixed.
Qed.
End Flags.
End Protect.
