(* ===== verification/AddressProtectLoop.v ===== *)
(** * The loop of [do_mprotect_pkey], and the system call *)
From Stdlib Require Import ZArith Lia Bool Sorted.
From stdpp Require Import base numbers list sorting gmap.
From S2P Require Import Prelude RBTree RBTreeShape RBTreeRep RBTreeAugment RBTreeInsert RBTreeErase RBTreeRemove RBTreeCallbacks RBTreeWalk RBTreeProps RBTreeSearch VmArea IntervalTree IntervalTreeSpec AddressSpace AddressSearch AddressGaps AddressLink AddressUnmap AddressFind AddressAdjust AddressMap AddressSplit AddressMunmap AddressChange AddressAbsorb AddressMerge AddressBrk AddressHeap AddressProtect AddressProtectSpec.

(** ** Which flags are denied *)
Lemma denied_bits x y : (forall i, 0 <= i < 7 -> Z.testbit x i = Z.testbit y i) -> denied x = denied y.
Proof.
  intros H. unfold denied. do 2 f_equal. apply Z.bits_inj'. intros i Hi. rewrite !Z.land_spec, !Z.lnot_spec, !Z.shiftr_spec, rwx_bit by done.
  destruct (Z.ltb_spec i 3); [|by rewrite !andb_false_r]. by rewrite !H by lia.
Qed.

Lemma denied_protect rier reqprot old : denied (mprotect_newflags rier (protect_flags rier reqprot old) reqprot) = denied (mprotect_newflags rier old reqprot).
Proof. rewrite new_protect. apply denied_bits. intros i Hi. apply protect_bit; lia. Qed.

Section Loop.
Context (stack_guard_gap max_map_count : Z) (limits : vm_limits).
Context (security_file_mprotect : mm_struct -> Z -> Z -> Z -> Z) (calls : mm_struct -> fixup_calls).
Context (rier : bool) (reqprot : Z).
Abbreviation space := (space stack_guard_gap).
Abbreviation prot_page := (protect_page rier reqprot).
Abbreviation loop := (mprotect_loop stack_guard_gap max_map_count limits security_file_mprotect calls).

Hypothesis guard_range : 0 <= stack_guard_gap < 2 ^ 32.
Hypothesis prot_range : 0 <= reqprot.
Hypothesis split1_fresh : split_fresh (fun mm => fx_split1 (calls mm)).
Hypothesis split2_fresh : split_fresh (fun mm => fx_split2 (calls mm)).
Hypothesis splits_differ : forall mm, new_vma (fx_split1 (calls mm)) = new_vma (fx_split2 (calls mm)) -> new_vma (fx_split1 (calls mm)) = 0.

(** A page that is there and whose area may have the protection. *)
Definition grantable (m : Z -> option page) (a : Z) : Prop := exists p, m a = Some p /\ denied (mprotect_newflags rier (pg_flags p) reqprot) = false.

(** The states at the start of the rounds of the loop: the address space, the area, the one
    before the rest of the range, and where that starts. *)
Inductive visits (end_ : Z) : mm_struct -> Z -> Z -> Z -> mm_struct -> Z -> Z -> Z -> Prop :=
  | visits_here mm x prev s : visits end_ mm x prev s mm x prev s
  | visits_later mm x prev s mm1 p mm' x' prev' s' : let v := area (vmas mm) x in let w := area (vmas mm1) p in
      mprotect_fixup stack_guard_gap max_map_count limits (calls mm) mm x prev s (Z.min end_ (vm_end v)) (mprotect_newflags rier (vm_flags v) reqprot) = Ret (mm1, p, 0) ->
      vm_end w < end_ -> visits end_ mm1 (vm_next w) p (vm_end w) mm' x' prev' s' -> visits end_ mm x prev s mm' x' prev' s'.

(** The error [r] at [k]: in the state at the start of the round that begins at [k] the
    security hook returns it, memory is short, or there can be no more areas. *)
Definition fails (n end_ : Z) (mm : mm_struct) (x prev s k r : Z) : Prop :=
  exists mm' x' prev', visits end_ mm x prev s mm' x' prev' k /\ let v := area (vmas mm') x' in let e := Z.min end_ (vm_end v) in
    r = security_file_mprotect mm' x' reqprot (prot_of rier (vm_flags v) reqprot)
    \/ charge_flags limits (calls mm') (vm_flags v) (mprotect_newflags rier (vm_flags v) reqprot) (Z.shiftr (u32 (e - k)) PAGE_SHIFT) = None /\ r = - ENOMEM
    \/ (k <> vm_start v /\ ~ calls_succeed (fx_split1 (calls mm')) /\ r = split_code (fx_split1 (calls mm')))
    \/ (e <> vm_end v /\ ~ calls_succeed (fx_split2 (calls mm')) /\ r = split_code (fx_split2 (calls mm')))
    \/ (max_map_count < n /\ r = - ENOMEM).

(** Why the loop stops at [k] with the error [r]. *)
Definition stopped (m : Z -> option page) (why : Z -> Z -> Prop) (k r : Z) : Prop :=
  (r = - EACCES /\ exists p, m k = Some p /\ denied (mprotect_newflags rier (pg_flags p) reqprot) = true)
  \/ (r = - ENOMEM /\ m k = None)
  \/ (m k <> None /\ why k r).

(** The pages from [s] to [k] are there, may have the protection and get it. *)
Definition protected_to (s k : Z) (m m' : Z -> option page) : Prop :=
  forall a, if decide (s <= a < k)
            then exists p p', m a = Some p /\ denied (mprotect_newflags rier (pg_flags p) reqprot) = false /\ m' a = Some p' /\ protected_page rier reqprot m p p'
            else m' a = m a.

(** A page that a second part of the range is merged with can be one of the first. *)
Lemma loses_close_later s t m m1 p : protected_to s t m m1 -> loses_close rier reqprot m1 p -> loses_close rier reqprot m p.
Proof.
  intros H1 (Hc & b & q & Hq & Hqc & Hqf & Hqn & Hqp). split; [done|]. specialize (H1 b). destruct (decide (s <= b < t)); [|rewrite H1 in Hq; by exists b, q].
  destruct H1 as (q0 & q' & Hq0 & _ & Hq' & Hpp). rewrite Hq in Hq'. injection Hq' as <-. destruct Hpp as [->|[(_ & b2 & q2 & H2 & Hc2 & Hf2 & Hn2 & Hp2) ->]].
  - exists b, q0. split; [done|]. cbn in Hqc, Hqf, Hqn, Hqp. rewrite protect_twice in Hqp. done.
  - exists b2, q2. cbn in Hqf, Hqn, Hqp. rewrite protect_twice in Hqp. split_and!; congruence.
Qed.

Lemma protected_trans s t k m m1 m2 : s <= t <= k -> protected_to s t m m1 -> protected_to t k m1 m2 -> protected_to s k m m2.
Proof.
  intros Hst H1 H2 a. pose proof (H1 a) as Ha1. specialize (H2 a). destruct (decide (s <= a < k)) as [Ha|Ha].
  - destruct (decide (a < t)).
    + rewrite decide_True in Ha1 by lia. rewrite decide_False in H2 by lia. destruct Ha1 as (p & p' & ? & ? & Hp' & ?). exists p, p'. by rewrite H2.
    + rewrite decide_False in Ha1 by lia. rewrite decide_True in H2 by lia. destruct H2 as (p & p' & Hp & ? & ? & Hpp). exists p, p'. rewrite <- Ha1. split_and!; try done.
      destruct Hpp as [?|[Hl ?]]; [by left|right]. split; [by eapply loses_close_later|done].
  - rewrite decide_False in Ha1 by lia. rewrite decide_False in H2 by lia. by rewrite H2.
Qed.

Lemma protected_none s m : protected_to s s m m.
Proof. intros a. by rewrite decide_False by lia. Qed.

Lemma stopped_why m (why why' : Z -> Z -> Prop) k r : (why k r -> why' k r) -> stopped m why k r -> stopped m why' k r.
Proof. intros H [Hs|[Hs|[Hs Hl]]]; [by left|by right; left|right; right; auto]. Qed.

Lemma stopped_later s t m m1 why k r : protected_to s t m m1 -> t <= k -> stopped m1 why k r -> stopped m why k r.
Proof. intros H1 Ht. specialize (H1 k). rewrite decide_False in H1 by lia. unfold stopped. by rewrite H1. Qed.

(** After the area of a range: up to the end of the area [p] everything has the flags. *)
Lemma fixed_protected mm l mm' l' x p start tmp more k : space l mm -> x ∈ l -> let v := area (vmas mm) x in
  vm_start v <= start -> start < tmp -> tmp <= vm_end v -> denied (mprotect_newflags rier (vm_flags v) reqprot) = false ->
  fixed stack_guard_gap rier reqprot mm l mm' l' v p start tmp more -> tmp <= k <= vm_end (area (vmas mm') p) -> protected_to start k (maps mm l) (maps mm' l').
Proof.
  intros Hsp Hx v Hs Hst Ht Hd [Hsp' _ Hp [Hp1 Hp2] Hfl _ Hm] Hk a. specialize (Hm a). destruct (decide (start <= a < tmp)) as [Ha|Ha].
  { rewrite decide_True by lia. destruct Hm as (p' & Hp' & Hpp). exists (page_of v a), p'. split_and!; try done. apply (maps_at stack_guard_gap); [done..|fold v; lia]. }
  destruct (decide (start <= a < k)) as [Ha'|Ha']; [|done]. set (q := page_of (area (vmas mm') p) a).
  assert (Hq : maps mm' l' a = Some q) by (apply (maps_at stack_guard_gap); [done..|lia]). assert (Hqf : pg_flags q = protect_flags rier reqprot (vm_flags v)) by done.
  exists q, q. split; [by rewrite <- Hm|]. split; [by rewrite Hqf, denied_protect|]. split; [done|]. left. unfold protect_page. rewrite Hqf, protect_twice, <- Hqf. by destruct q.
Qed.

(** The area after [p] starts where [p] ends, or nothing is mapped there. *)
Lemma next_area l mm p : space l mm -> p ∈ l -> let e := vm_end (area (vmas mm) p) in let next := vm_next (area (vmas mm) p) in
  (exists A B, l = A ++ p :: next :: B /\ vm_start (area (vmas mm) next) = e /\ vma_and mm next (fun v => vm_start v =? e) = Ret true)
  \/ (vma_and mm next (fun v => vm_start v =? e) = Ret false /\ maps mm l e = None).
Proof.
  intros Hsp Hp e next. destruct (list_elem_of_split _ _ Hp) as (A & B & ->). pose proof Hsp as [[R Hwf] _ _]. destruct (wf_list _ _ _ _ Hwf A p B eq_refl) as (_ & _ & Hn).
  fold next in Hn. destruct (space_order _ _ _ _ _ Hsp) as (Hpp & HA & HB). fold e in Hpp, HB.
  assert (Hnone : (forall z, z ∈ B -> e < vm_start (area (vmas mm) z)) -> maps mm (A ++ p :: B) e = None).
  { intros Hlt. apply contents_none. intros v (z & -> & Hz)%list_elem_of_fmap. apply covers_false. apply elem_of_app in Hz as [Hz|[->|Hz]%elem_of_cons].
    - right. specialize (HA z Hz). lia.
    - right. done.
    - left. auto. }
  destruct B as [|x B]; [right|].
  { rewrite Hn. split; [done|]. apply Hnone. set_solver. }
  change (end_of Left (x :: B)) with x in Hn. rewrite Hn. destruct (space_some _ _ _ Hsp x ltac:(set_solver)) as [Hxs Hx0]. unfold vma_and.
  rewrite (proj2 (Z.eqb_neq x 0)), vma_at_area by done. cbn [negb obind]. destruct (Z.eqb_spec (vm_start (area (vmas mm) x)) e) as [He|He]; [left; by exists A, B|right].
  split; [done|]. apply Hnone. destruct (HB x (list_elem_of_here _ _)) as [Hge Hxx]. rewrite cons_middle, app_assoc in Hsp. destruct (space_order _ _ _ _ _ Hsp) as (_ & _ & HxB).
  intros z [->|Hz]%elem_of_cons; [lia|]. specialize (HxB z Hz). lia.
Qed.

(** What the loop does from [nstart] on. *)
Definition loop_result (mm : mm_struct) (l : list Z) (steps nstart end_ : Z) (why : Z -> Z -> Prop) (o : outcome (mm_struct * Z)) : Prop :=
  exists mm' r l' k, o = Ret (mm', r) /\ space l' mm' /\ cache_kept mm l mm' l' /\ vmacache_seqnum mm' <= vmacache_seqnum mm + 2 * steps
    /\ nstart <= k <= end_ /\ protected_to nstart k (maps mm l) (maps mm' l')
    /\ ((r = 0 /\ k = end_) \/ (r <> 0 /\ k < end_ /\ stopped (maps mm l) why k r)).

(** It stops at once. *)
Lemma loop_stops mm l mm' l' steps nstart end_ why r : space l' mm' -> kept mm l mm' l' -> (forall a, maps mm' l' a = maps mm l a) -> 1 <= steps -> nstart < end_ ->
  r <> 0 -> stopped (maps mm l) why nstart r -> loop_result mm l steps nstart end_ why (Ret (mm', r)).
Proof.
  intros Hsp [Hk Hs] Hm H1 Hse Hr Hst. exists mm', r, l', nstart. split_and!; try done; try lia; [|right; by split_and!].
  intros a. by rewrite decide_False by lia.
Qed.

(** It goes on after a first part. *)
Lemma loop_goes_on mm l mm1 l1 steps nstart t end_ (why why1 : Z -> Z -> Prop) o : kept mm l mm1 l1 -> nstart <= t <= end_ -> protected_to nstart t (maps mm l) (maps mm1 l1) ->
  (forall k r, why1 k r -> why k r) -> loop_result mm1 l1 steps t end_ why1 o -> loop_result mm l (steps + 1) nstart end_ why o.
Proof.
  intros [Hk Hs] Ht Hp Hl (mm' & r & l' & k & -> & Hsp & Hk' & Hs' & Hb & Hp' & Hr). exists mm', r, l', k. split_and!; try done; try lia.
  - by eapply cache_kept_trans.
  - by eapply protected_trans; [|done..]; lia.
  - destruct Hr as [Hr|(? & ? & Hr)]; [by left|right]. split_and!; try done. eapply stopped_later; [done| |eapply stopped_why; [apply Hl|done]]. lia.
Qed.

Lemma unwilling_fails mm x prev s n end_ r : let v := area (vmas mm) x in let e := Z.min end_ (vm_end v) in
  unwilling max_map_count rier reqprot limits (calls mm) mm v s e r -> map_count mm + cuts v s e <= n -> fails n end_ mm x prev s s r.
Proof.
  intros v e H Hn. exists mm, x, prev. split; [apply visits_here|]. fold v e. right. destruct H as [H|[H|[H|H]]]; [by left|by right; left|by right; right; left|].
  right. right. right. split; [lia|apply H].
Qed.

Lemma fails_later mm x prev s mm1 p n end_ : let v := area (vmas mm) x in let w := area (vmas mm1) p in
  mprotect_fixup stack_guard_gap max_map_count limits (calls mm) mm x prev s (Z.min end_ (vm_end v)) (mprotect_newflags rier (vm_flags v) reqprot) = Ret (mm1, p, 0) ->
  vm_end w < end_ -> forall k r, fails n end_ mm1 (vm_next w) p (vm_end w) k r -> fails n end_ mm x prev s k r.
Proof.
  intros v w Hf Hw k r (mm' & x' & prev' & Hv & H). exists mm', x', prev'. split; [|exact H]. apply (visits_later end_ mm x prev s mm1 p); [exact Hf|exact Hw|exact Hv].
Qed.

(** A round of the loop takes at least a page. *)
Lemma fuel_left s t e (fuel : nat) : s < t -> s mod PAGE_SIZE = 0 -> t mod PAGE_SIZE = 0 -> (e - s) / PAGE_SIZE < Z.of_nat (S fuel) -> (e - t) / PAGE_SIZE < Z.of_nat fuel.
Proof.
  intros Hst Hs Ht Hf. assert (Hge : s + PAGE_SIZE <= t) by (unfold PAGE_SIZE in *; Z.to_euclidean_division_equations; lia).
  assert (Hstep : (e - t + 1 * PAGE_SIZE) / PAGE_SIZE <= (e - s) / PAGE_SIZE) by (apply Z.div_le_mono; [done|lia]). rewrite Z.div_add in Hstep by done. lia.
Qed.

(** The loop on a range that starts in the area [x], with the area before the range as [prev]. *)
Definition loop_ok (fuel : nat) : Prop :=
  forall mm A x B nstart end_ n, space (A ++ x :: B) mm -> let v := area (vmas mm) x in let prev := if decide (nstart = vm_start v) then end_of Right A else x in
  vm_start v <= nstart -> nstart < vm_end v -> nstart < end_ -> nstart mod PAGE_SIZE = 0 -> end_ mod PAGE_SIZE = 0 ->
  (end_ - nstart) / PAGE_SIZE < Z.of_nat fuel -> vmacache_seqnum mm + 2 * Z.of_nat fuel < 2 ^ 64 ->
  map_count mm + (if decide (nstart = vm_start v) then 1 else 2) <= n ->
  loop_result mm (A ++ x :: B) (Z.of_nat fuel) nstart end_ (fails n end_ mm x prev nstart) (loop fuel rier reqprot mm x prev nstart end_).

(** From the area after [p]. *)
Lemma loop_continues fuel mm l p end_ n : loop_ok fuel -> space l mm -> p ∈ l -> let w := area (vmas mm) p in
  vm_end w < end_ -> end_ mod PAGE_SIZE = 0 -> (end_ - vm_end w) / PAGE_SIZE < Z.of_nat fuel ->
  vmacache_seqnum mm + 2 * Z.of_nat fuel < 2 ^ 64 -> map_count mm + 1 <= n ->
  loop_result mm l (Z.of_nat fuel) (vm_end w) end_ (fails n end_ mm (vm_next w) p (vm_end w))
    (let* there := vma_and mm (vm_next w) (fun v => vm_start v =? vm_end w) in
     if there : bool then loop fuel rier reqprot mm (vm_next w) p (vm_end w) end_ else Ret (mm, - ENOMEM)).
Proof.
  intros IH Hsp Hp w Hend Hem Hfuel Hsq Hn. destruct (next_area l mm p Hsp Hp) as [(A & B & Hl & Hns & Hand)|[Hand Hnone]]; fold w in Hand; rewrite Hand; cbn [obind].
  2:{ assert (0 <= (end_ - vm_end w) / PAGE_SIZE) by (apply Z.div_pos; [lia|done]). eapply loop_stops; try done; [apply kept_refl|lia|]. right. by left. }
  fold w in Hl, Hns. set (y := vm_next w) in *. destruct (sp_paged _ _ _ Hsp p Hp) as (_ & Hwe & _). fold w in Hwe. rewrite cons_middle, app_assoc in Hl. subst l.
  destruct (space_order _ _ _ _ _ Hsp) as (Hyy & _). specialize (IH mm (A ++ [p]) y B (vm_end w) end_ n Hsp). cbv zeta in IH.
  rewrite Hns, !decide_True, end_right_snoc in IH by done. apply IH; done || lia.
Qed.

Lemma loop_spec fuel : loop_ok fuel.
Proof.
  induction fuel as [|fuel IH]; intros mm A x B nstart end_ n Hsp v prev Hs Hsv Hse Hsm Hem Hfuel Hsq Hn.
  { assert (0 <= (end_ - nstart) / PAGE_SIZE) by (apply Z.div_pos; [lia|done]). lia. }
  assert (Hx : x ∈ A ++ x :: B) by set_solver. destruct (space_some _ _ _ Hsp x Hx) as [Hxs _]. destruct (sp_paged _ _ _ Hsp x Hx) as (_ & Hve & _). fold v in Hve.
  assert (Hhere : maps mm (A ++ x :: B) nstart = Some (page_of v nstart)) by (apply (maps_at stack_guard_gap); [done..|fold v; lia]).
  cbn [mprotect_loop]. rewrite vma_at_area by done. cbn [obind]. fold v. destruct (denied (mprotect_newflags rier (vm_flags v) reqprot)) eqn:Hd.
  { eapply loop_stops; try done; [apply kept_refl|lia|]. left. split; [done|]. by exists (page_of v nstart). }
  destruct (Z.eqb_spec (security_file_mprotect mm x reqprot (prot_of rier (vm_flags v) reqprot)) 0) as [Hsec|Hsec]; cbn [negb].
  2:{ eapply loop_stops; try done; [apply kept_refl|lia|]. right. right. split; [by rewrite Hhere|]. exists mm, x, prev. split; [apply visits_here|]. by left. }
  assert (Htmp : (if end_ <? vm_end v then end_ else vm_end v) = Z.min end_ (vm_end v)) by (destruct (Z.ltb_spec end_ (vm_end v)); lia). rewrite Htmp.
  set (tmp := Z.min end_ (vm_end v)). assert (Htm : tmp mod PAGE_SIZE = 0) by (unfold tmp; by destruct (Z.min_spec end_ (vm_end v)) as [[_ ->]|[_ ->]]).
  destruct (fixup_spec stack_guard_gap max_map_count guard_range rier reqprot prot_range limits (calls mm) A x B mm nstart tmp Hsp) as (mm1 & p & err & Hfix & Hres); fold v; try lia; try done.
  { by apply (fresh_calls stack_guard_gap (fun mm => fx_split1 (calls mm))). }
  { by apply (fresh_calls stack_guard_gap (fun mm => fx_split2 (calls mm))). }
  { apply splits_differ. }
  fold v prev in Hfix, Hres. rewrite Hfix. cbn [obind]. destruct Hres as [(Herr & (l' & Hsp1 & Hk1 & Hm1) & Hwhy)|(-> & l' & Hfx)].
  { rewrite (proj2 (Z.eqb_neq err 0)) by done. cbn [negb]. eapply loop_stops; try done; [lia|]. right. right. rewrite Hhere. split; [done|]. eapply unwilling_fails; [done|].
    unfold cuts. fold v tmp. destruct (decide (nstart = vm_start v)), (decide (tmp = vm_end v)); lia. }
  cbn [Z.eqb negb]. pose proof Hfx as [Hsp1 Hk1 Hp [Hp1 Hp2] Hfl Hlen Hm]. destruct (space_some _ _ _ Hsp1 p Hp) as [Hps _]. rewrite vma_at_area by done. cbn [obind].
  set (w := area (vmas mm1) p) in *. set (ns := if tmp <? vm_end w then _ else _). assert (Hns : ns = vm_end w) by (unfold ns; destruct (Z.ltb_spec tmp (vm_end w)); lia). rewrite Hns.
  assert (Hpro : forall k, tmp <= k <= vm_end w -> protected_to nstart k (maps mm (A ++ x :: B)) (maps mm1 l')).
  { intros k Hk. apply (fixed_protected mm _ mm1 l' x p nstart tmp (cuts v nstart tmp) k Hsp Hx); fold v w; done || lia. }
  destruct (Z.leb_spec end_ (vm_end w)) as [Hend|Hend].
  { destruct Hk1 as [Hk1 Hs1]. exists mm1, 0, l', end_. split_and!; try done; try lia. apply Hpro; lia. }
  rewrite Nat2Z.inj_succ, <- Z.add_1_r. eapply (loop_goes_on _ _ mm1 l' _ _ (vm_end w)); [done|lia|apply Hpro; lia|exact (fails_later _ _ _ _ _ _ n _ Hfix Hend)|].
  apply loop_continues; try done.
  - eapply fuel_left; [|exact Hsm| |exact Hfuel]; [fold w; lia|]. by destruct (sp_paged _ _ _ Hsp1 p Hp) as (_ & ? & _).
  - destruct Hk1. lia.
  - rewrite (space_count _ _ _ Hsp), (space_count _ _ _ Hsp1) in *. unfold cuts in Hlen. rewrite (decide_True (P := tmp = vm_end v)) in Hlen by lia. destruct (decide (nstart = vm_start v)); lia.
Qed.
End Loop.

(** ** The system call *)

(** The arguments of a call, and the answer when they are refused. *)
Definition mprotect_end (start len : Z) : Z := u32 (start + PAGE_ALIGN len).
Definition asks_down (prot : Z) : bool := negb (Z.land prot PROT_GROWSDOWN =? 0).
Definition asks_up (prot : Z) : bool := negb (Z.land prot PROT_GROWSUP =? 0).
Definition asked_prot (prot : Z) : Z := Z.land prot (Z.lnot (Z.lor PROT_GROWSDOWN PROT_GROWSUP)).
Definition implies_exec (personality : bool) (prot : Z) : bool := personality && negb (Z.land prot PROT_READ =? 0).

Definition mprotect_checks (killed : bool) (start len prot pkey : Z) : option Z :=
  if Z.land prot (Z.lor PROT_GROWSDOWN PROT_GROWSUP) =? Z.lor PROT_GROWSDOWN PROT_GROWSUP then Some (- EINVAL)
  else if negb (start mod PAGE_SIZE =? 0) then Some (- EINVAL)
  else if len =? 0 then Some 0
  else if mprotect_end start len <=? start then Some (- ENOMEM)
  else if negb (arch_validate_prot (asked_prot prot)) then Some (- EINVAL)
  else if killed then Some (- EINTR)
  else if negb (pkey =? -1) && negb (pkey =? 0) then Some (- EINVAL)
  else None.

Lemma mprotect_end_page start len : 0 <= start < 2 ^ 32 -> start mod PAGE_SIZE = 0 -> start < mprotect_end start len -> mprotect_end start len mod PAGE_SIZE = 0 /\ mprotect_end start len < 2 ^ 32.
Proof.
  intros Hs Hm. unfold mprotect_end. destruct (page_align_page len) as [Hl Hb]. unfold wrap. intros Hlt. split; [|by apply Z.mod_pos_bound].
  destruct (decide (start + PAGE_ALIGN len < 2 ^ 32)) as [Hd|Hd]; [by rewrite (Z.mod_small _ (2 ^ 32)), Zplus_mod, Hm, Hl by lia|].
  assert (Heq : (start + PAGE_ALIGN len) mod 2 ^ 32 = start + PAGE_ALIGN len - 2 ^ 32) by (symmetry; apply (Z.mod_unique_pos _ _ 1); lia). lia.
Qed.

Section Call.
Context (stack_guard_gap max_map_count : Z) (limits : vm_limits).
Context (security_file_mprotect : mm_struct -> Z -> Z -> Z -> Z) (calls : mm_struct -> fixup_calls).
Abbreviation space := (space stack_guard_gap).

Hypothesis guard_range : 0 <= stack_guard_gap < 2 ^ 32.
Hypothesis split1_fresh : split_fresh (fun mm => fx_split1 (calls mm)).
Hypothesis split2_fresh : split_fresh (fun mm => fx_split2 (calls mm)).
Hypothesis splits_differ : forall mm, new_vma (fx_split1 (calls mm)) = new_vma (fx_split2 (calls mm)) -> new_vma (fx_split1 (calls mm)) = 0.

(** Where a call starts: at its address, or at the start of the stack that grows down and
    has the address or is the first area above it. *)
Definition begins (m : Z -> option page) (prot start s : Z) : Prop :=
  s = start \/ (asks_down prot = true /\ (forall a, start <= a < s -> m a = None)
               /\ forall a, s <= a <= Z.max s start -> exists p, m a = Some p /\ Z.land (pg_flags p) VM_GROWSDOWN <> 0).

(** A call asks for the range to be extended and the area there is not a stack of that
    kind: no stacks grow upwards. *)
Definition no_stack (m : Z -> option page) (prot start end_ : Z) : Prop :=
  asks_up prot = true
  \/ (asks_down prot = true /\ exists a p, start <= a < end_ /\ m a = Some p /\ Z.land (pg_flags p) VM_GROWSDOWN = 0 /\ forall b, start <= b < a -> m b = None).

(** The error [r] at [k] of a call whose range starts at [s]. *)
Definition call_fails (rier : bool) (req : Z) (l : list Z) (mm : mm_struct) (end_ s k r : Z) : Prop :=
  exists A x B, l = A ++ x :: B /\ let v := area (vmas mm) x in vm_start v <= s < vm_end v
    /\ fails stack_guard_gap max_map_count limits security_file_mprotect calls rier req (map_count mm + 2) end_ mm x (if decide (s = vm_start v) then end_of Right A else x) s k r.

(** What a call does: nothing when it is refused; otherwise it gives the pages the
    protection in order, up to the end or to where it stops. *)
Definition mprotect_result (personality killed : bool) (start len prot pkey : Z) (why : Z -> Z -> Z -> Prop) (r : Z) (m m' : Z -> option page) : Prop :=
  let rier := implies_exec personality prot in let req := asked_prot prot in let end_ := mprotect_end start len in
  match mprotect_checks killed start len prot pkey with
  | Some err => r = err /\ forall a, m' a = m a
  | None =>
      (r = - EINVAL /\ no_stack m prot start end_ /\ forall a, m' a = m a)
      \/ exists s k, begins m prot start s /\ s <= k <= end_ /\ protected_to rier req s k m m'
           /\ ((r = 0 /\ k = end_) \/ (r <> 0 /\ k < end_ /\ stopped rier req m (why s) k r))
  end.

Lemma fuel_bound s e : 0 <= s < e -> e < 2 ^ 32 -> (e - s) / PAGE_SIZE < Z.of_nat (S (Z.to_nat ((e - s) / PAGE_SIZE))) <= 2 ^ 20 + 1.
Proof.
  intros Hs He. assert (0 <= (e - s) / PAGE_SIZE <= 2 ^ 20); [|lia]. split; [apply Z.div_pos; [lia|done]|]. apply Z.div_le_upper_bound; [done|]. unfold PAGE_SIZE. lia.
Qed.

(** The loop from an address of the area [x]. *)
Lemma loop_from personality A x B mm prot s end_ : let rier := implies_exec personality prot in let req := asked_prot prot in
  space (A ++ x :: B) mm -> let v := area (vmas mm) x in vm_start v <= s -> s < vm_end v -> s < end_ -> end_ < 2 ^ 32 -> s mod PAGE_SIZE = 0 -> end_ mod PAGE_SIZE = 0 ->
  0 <= prot -> vmacache_seqnum mm + 2 ^ 22 < 2 ^ 64 ->
  loop_result stack_guard_gap rier req mm (A ++ x :: B) (2 ^ 20 + 1) s end_ (call_fails rier req (A ++ x :: B) mm end_ s)
    (mprotect_loop stack_guard_gap max_map_count limits security_file_mprotect calls (S (Z.to_nat ((end_ - s) / PAGE_SIZE))) rier req mm x
      (if vm_start v <? s then x else vm_prev v) s end_).
Proof.
  intros rier req Hsp v Hs Hsv Hse He Hsm Hem Hp Hsq. destruct (space_area _ _ _ x Hsp ltac:(set_solver)) as [Hv0 _]. fold v in Hv0.
  destruct (fuel_bound s end_) as [Hf1 Hf2]; [lia|done|]. assert (Hreq : 0 <= req) by (apply Z.land_nonneg; by left). pose proof Hsp as [[R Hwf] _ _].
  destruct (wf_list _ _ _ _ Hwf A x B eq_refl) as (_ & Hprev & _). fold v in Hprev.
  assert (Hpr : (if vm_start v <? s then x else vm_prev v) = if decide (s = vm_start v) then end_of Right A else x).
  { rewrite Hprev. destruct (Z.ltb_spec (vm_start v) s), (decide (s = vm_start v)); done || lia. }
  rewrite Hpr. destruct (loop_spec stack_guard_gap max_map_count limits security_file_mprotect calls rier req guard_range Hreq split1_fresh split2_fresh splits_differ
    _ mm A x B s end_ (map_count mm + 2) Hsp Hs Hsv Hse Hsm Hem Hf1) as (mm' & r & l' & k & Hrun & Hsp' & Hk & Hq & Hkk & Hpro & Hrest).
  - lia.
  - fold v. destruct (decide _); lia.
  - fold v in Hrun. rewrite Hrun. exists mm', r, l', k. do 3 (split; [done|]). split; [lia|]. split; [done|]. split; [done|]. destruct Hrest as [?|(? & ? & Hst)]; [by left|right].
    split; [done|]. split; [done|]. eapply stopped_why; [|exact Hst]. intros Hsh. exists A, x, B. by split_and!.
Qed.

(** The answer, with the address space that stays as it is or the one the loop leaves. *)
Definition mprotect_answer (personality killed : bool) (l : list Z) (mm : mm_struct) (start len prot pkey : Z) (o : outcome (mm_struct * task_struct * Z)) : Prop :=
  exists mm' tsk' r l', o = Ret (mm', tsk', r) /\ space l' mm' /\ cache_kept mm l mm' l' /\ cache_ok mm' l' tsk' /\ vmacache_seqnum mm' <= vmacache_seqnum mm + 2 ^ 22
    /\ mprotect_result personality killed start len prot pkey (call_fails (implies_exec personality prot) (asked_prot prot) l mm (mprotect_end start len)) r (maps mm l) (maps mm' l').

Lemma answer_same personality killed l mm tsk start len prot pkey r : space l mm -> cache_ok mm l tsk ->
  (forall why, mprotect_result personality killed start len prot pkey why r (maps mm l) (maps mm l)) ->
  mprotect_answer personality killed l mm start len prot pkey (Ret (mm, tsk, r)).
Proof. intros Hsp Hc Hr. exists mm, tsk, r, l. split; [done|]. split; [done|]. split; [apply cache_kept_refl|]. split; [done|]. split; [lia|done]. Qed.

Lemma answer_loop personality killed l mm tsk start len prot pkey s o : cache_ok mm l tsk -> mprotect_checks killed start len prot pkey = None -> begins (maps mm l) prot start s ->
  loop_result stack_guard_gap (implies_exec personality prot) (asked_prot prot) mm l (2 ^ 20 + 1) s (mprotect_end start len)
    (call_fails (implies_exec personality prot) (asked_prot prot) l mm (mprotect_end start len) s) o ->
  mprotect_answer personality killed l mm start len prot pkey (let* (mm, error) := o in Ret (mm, tsk, error)).
Proof.
  intros Hc Hno Hb (mm' & r & l' & k & -> & Hsp & Hk & Hq & Hk1 & Hpr & Hr). exists mm', tsk, r, l'. split; [done|]. split; [done|]. split; [done|].
  split; [by eapply cache_kept_ok|]. split; [lia|]. unfold mprotect_result. rewrite Hno. right. by exists s, k.
Qed.

(** Nothing is mapped where the call starts. *)
Lemma answer_unmapped personality killed l mm tsk start len prot pkey : space l mm -> cache_ok mm l tsk -> mprotect_checks killed start len prot pkey = None ->
  start < mprotect_end start len -> maps mm l start = None -> mprotect_answer personality killed l mm start len prot pkey (Ret (mm, tsk, - ENOMEM)).
Proof.
  intros Hsp Hc Hno Hlt Hm. apply answer_same; [done..|]. intros why. unfold mprotect_result. rewrite Hno. right. exists start, start. split; [by left|]. split; [lia|].
  split; [apply protected_none|]. right. split; [done|]. split; [done|]. right. by left.
Qed.

(** The first area that ends above [addr], and what is mapped from there to it. *)
Lemma first_area l mm tsk addr : space l mm -> cache_ok mm l tsk -> exists tsk', cache_ok mm l tsk' /\
  ((find_vma mm tsk addr = Ret (tsk', 0) /\ maps mm l addr = None)
   \/ exists A x B, l = A ++ x :: B /\ x <> 0 /\ find_vma mm tsk addr = Ret (tsk', x) /\ addr < vm_end (area (vmas mm) x)
        /\ forall a, addr <= a < vm_start (area (vmas mm) x) -> maps mm l a = None).
Proof.
  intros Hsp Hc. pose proof Hsp as [[R Hwf] _ Hsq]. destruct (find_vma_split stack_guard_gap R l mm tsk addr Hwf Hc Hsq) as (tsk' & A & B & Hl & HA & HB & Hf & Hc' & _).
  rewrite Forall_forall in HA, HB. exists tsk'. split; [done|]. destruct B as [|x B]; [left|right].
  - split; [done|]. rewrite app_nil_r in Hl. subst l. apply contents_none. intros v (z & -> & Hz)%list_elem_of_fmap. apply covers_false. right. by apply HA.
  - subst l. exists A, x, B. split; [done|]. destruct (space_some _ _ _ Hsp x ltac:(set_solver)) as [_ Hx0]. split; [done|]. split; [done|].
    split; [apply HB, list_elem_of_here|]. intros a Ha. destruct (space_order _ _ _ _ _ Hsp) as (Hx & _ & HxB). apply contents_none. intros v (z & -> & Hz)%list_elem_of_fmap.
    apply covers_false. apply elem_of_app in Hz as [Hz|[->|Hz]%elem_of_cons]; [right; specialize (HA z Hz); simpl in HA; lia|left; lia|left; specialize (HxB z Hz); lia].
Qed.

(** After the checks. *)
Lemma checked_call killed start len prot pkey : 0 <= start < 2 ^ 32 -> mprotect_checks killed start len prot pkey = None ->
  start mod PAGE_SIZE = 0 /\ start < mprotect_end start len < 2 ^ 32 /\ mprotect_end start len mod PAGE_SIZE = 0
  /\ (asks_down prot = true \/ asks_up prot = true -> asked_prot prot <> prot).
Proof.
  intros Hs. unfold mprotect_checks. destruct (_ =? _); [done|]. destruct (Z.eqb_spec (start mod PAGE_SIZE) 0) as [Hm|]; [|done]. cbn [negb]. destruct (len =? 0); [done|].
  destruct (Z.leb_spec (mprotect_end start len) start) as [|Hlt]; [done|]. intros _. destruct (mprotect_end_page start len Hs Hm Hlt) as [Hem He]. split_and!; try done.
  intros Hg Heq. unfold asked_prot in Heq. rewrite <- Heq in Hg. unfold asks_down, asks_up in Hg. rewrite <- !Z.land_assoc in Hg.
  change (Z.land (Z.lnot (Z.lor PROT_GROWSDOWN PROT_GROWSUP)) PROT_GROWSDOWN) with 0 in Hg.
  change (Z.land (Z.lnot (Z.lor PROT_GROWSDOWN PROT_GROWSUP)) PROT_GROWSUP) with 0 in Hg. rewrite Z.land_0_r in Hg. by destruct Hg.
Qed.

Lemma do_mprotect_spec personality killed l mm tsk start len prot pkey : space l mm -> cache_ok mm l tsk -> 0 <= start < 2 ^ 32 -> 0 <= prot ->
  vmacache_seqnum mm + 2 ^ 22 < 2 ^ 64 ->
  mprotect_answer personality killed l mm start len prot pkey
    (do_mprotect_pkey stack_guard_gap max_map_count limits security_file_mprotect calls personality killed mm tsk start len prot pkey).
Proof.
  intros Hsp Hc Hs Hp Hsq. destruct (mprotect_checks killed start len prot pkey) as [err|] eqn:Hno.
  { assert (Hrun : do_mprotect_pkey stack_guard_gap max_map_count limits security_file_mprotect calls personality killed mm tsk start len prot pkey = Ret (mm, tsk, err)).
    { revert Hno. unfold mprotect_checks, do_mprotect_pkey. rewrite land_page_offset. cbv zeta. fold (mprotect_end start len) (asked_prot prot).
      repeat (destruct (_ =? _) || destruct (_ <=? _) || destruct (arch_validate_prot _) || destruct killed); cbn [negb andb]; congruence. }
    rewrite Hrun. apply answer_same; [done..|]. intros why. unfold mprotect_result. by rewrite Hno. }
  destruct (checked_call _ _ _ _ _ Hs Hno) as (Hsm & [Hlt He] & Hem & _). destruct (first_area l mm tsk start Hsp Hc) as (tsk' & Hc' & Hfirst).
  assert (Hdown : Z.land (Z.land prot (Z.lor PROT_GROWSDOWN PROT_GROWSUP)) PROT_GROWSDOWN = Z.land prot PROT_GROWSDOWN) by (by rewrite <- Z.land_assoc).
  assert (Hup : negb (Z.land (Z.land prot (Z.lor PROT_GROWSDOWN PROT_GROWSUP)) PROT_GROWSUP =? 0) = asks_up prot) by (unfold asks_up; by rewrite <- Z.land_assoc).
  pose proof Hno as Hgo. unfold mprotect_checks in Hgo. unfold do_mprotect_pkey. rewrite land_page_offset, Hdown. cbv zeta. fold (mprotect_end start len) (asked_prot prot) (implies_exec personality prot) (asks_down prot).
  destruct (_ =? Z.lor _ _); [done|]. destruct (negb (start mod _ =? 0)); [done|]. destruct (len =? 0); [done|]. destruct (_ <=? start); [done|].
  destruct (negb (arch_validate_prot _)); [done|]. destruct killed; [done|]. destruct (negb (pkey =? -1) && negb (pkey =? 0)); [done|]. clear Hgo.
  destruct Hfirst as [[-> Hnone]|(A & x & B & -> & Hx0 & -> & Hend & Hbelow)]; cbn [obind]; [by apply answer_unmapped|]. rewrite (proj2 (Z.eqb_neq x 0)) by done.
  destruct (space_some _ _ _ Hsp x ltac:(set_solver)) as [Hxs _]. rewrite vma_at_area by done. cbn [obind]. set (v := area (vmas mm) x) in *.
  destruct (space_area _ _ _ x Hsp ltac:(set_solver)) as [Hv0 _]. fold v in Hv0. destruct (sp_paged _ _ _ Hsp x ltac:(set_solver)) as (Hvm & _). fold v in Hvm.
  destruct (asks_down prot) eqn:Hd.
  - destruct (Z.leb_spec (mprotect_end start len) (vm_start v)) as [Hv|Hv]; [apply answer_unmapped; try done; apply Hbelow; lia|].
    destruct (Z.eqb_spec (Z.land (vm_flags v) VM_GROWSDOWN) 0) as [Hg|Hg].
    { apply answer_same; [done..|]. intros why. unfold mprotect_result. rewrite Hno. left. split; [done|]. split; [|done]. right. split; [done|].
      exists (Z.max start (vm_start v)), (page_of v (Z.max start (vm_start v))). split; [lia|]. split; [apply (maps_at stack_guard_gap); [done|set_solver|fold v; lia]|]. split; [done|].
      intros b Hbb. apply Hbelow. lia. }
    apply (answer_loop _ _ _ _ _ _ _ _ _ (vm_start v)); [done|done| |].
    + right. split; [done|]. split; [done|]. intros a Ha. exists (page_of v a). split; [|done]. apply (maps_at stack_guard_gap); [done|set_solver|fold v; lia].
    + apply loop_from; try done; fold v; lia.
  - destruct (Z.ltb_spec start (vm_start v)) as [Hv|Hv]; [apply answer_unmapped; try done; apply Hbelow; lia|].
    assert (Hloop : mprotect_answer personality false (A ++ x :: B) mm start len prot pkey
      (let* (mm, error) := mprotect_loop stack_guard_gap max_map_count limits security_file_mprotect calls (S (Z.to_nat ((mprotect_end start len - start) / PAGE_SIZE)))
         (implies_exec personality prot) (asked_prot prot) mm x (if vm_start v <? start then x else vm_prev v) start (mprotect_end start len) in Ret (mm, tsk', error))).
    { apply (answer_loop _ _ _ _ _ _ _ _ _ start); [done|done|by left|]. by apply loop_from. }
    rewrite Hup. destruct (asks_up prot) eqn:Hu; [|done].
    change VM_GROWSUP with 0. rewrite Z.land_0_r. cbn [Z.eqb]. apply answer_same; [done..|]. intros why. unfold mprotect_result. rewrite Hno. left. split; [done|]. split; [by left|done].
Qed.

(** When nothing refuses, the call succeeds. *)
Lemma mprotect_succeeds personality killed start len prot pkey why r m m' : 0 <= start < 2 ^ 32 -> mprotect_checks killed start len prot pkey = None -> asked_prot prot = prot ->
  (forall a, start <= a < mprotect_end start len -> grantable (implies_exec personality prot) prot m a) -> (forall k e, e <> 0 -> ~ why start k e) ->
  mprotect_result personality killed start len prot pkey why r m m' -> r = 0.
Proof.
  intros Hs Hno Heq Hall Hwhy. unfold mprotect_result. rewrite Hno, Heq. destruct (checked_call _ _ _ _ _ Hs Hno) as (_ & _ & _ & Hgr).
  intros [(_ & Hn & _)|(s & k & Hb & Hk & _ & [[? _]|(Hr & Hlt & Hst)])]; [|done|].
  { exfalso. apply Hgr; [|done]. destruct Hn as [?|[? _]]; [by right|by left]. }
  assert (s = start) as ->.
  { destruct Hb as [?|[Hd _]]; [done|]. exfalso. apply Hgr; [by left|done]. }
  destruct (Hall k) as (p & Hp & Hd); [lia|]. destruct Hst as [(_ & q & Hq & Hdq)|[[_ Hn]|[_ Hl]]]; [congruence|congruence|]. by destruct (Hwhy k r Hr).
Qed.
End Call.
