(* ===== verification/AddressThreads.v ===== *)
(** * Threads that share an address space

    The list of areas of an address space as the code walks it, and runs of several
    threads that look up addresses, unmap ranges, change their protection and move the end
    of the heap, against what each address is mapped to. *)
From Stdlib Require Import ZArith Lia Bool Sorted.
From stdpp Require Import base numbers list sorting gmap.
From S2P Require Import Prelude RBTree RBTreeShape RBTreeRep RBTreeAugment RBTreeInsert RBTreeErase RBTreeRemove RBTreeCallbacks RBTreeWalk RBTreeProps RBTreeSearch VmArea IntervalTree IntervalTreeSpec AddressSpace AddressSearch AddressGaps AddressLink AddressUnmap AddressFind AddressAdjust AddressMap AddressSplit AddressMunmap AddressChange AddressAbsorb AddressMerge AddressBrk AddressHeap AddressProtect AddressProtectSpec AddressProtectLoop.

(** [for (vma = mm->mmap; vma; vma = vma->vm_next)] *)
Fixpoint areas_from (fuel : nat) (vs : gmap Z vm_area_struct) (x : Z) : list Z :=
  match fuel with
  | O => []
  | S fuel' => if x =? 0 then [] else x :: areas_from fuel' vs (vm_next (area vs x))
  end.

Definition areas (mm : mm_struct) : list Z := areas_from (Z.to_nat (map_count mm)) (vmas mm) (mmap mm).

Lemma areas_from_listed vs B : forall A, listed vs (A ++ B) -> (0 ∉ B) -> areas_from (length B) vs (end_of Left B) = B.
Proof.
  induction B as [|x B IH]; intros A Hl H0; [done|]. cbn [length areas_from]. change (end_of Left (x :: B)) with x.
  rewrite (proj2 (Z.eqb_neq x 0)) by (intros ->; apply H0, list_elem_of_here). destruct (Hl A x B eq_refl) as (_ & _ & ->). f_equal.
  apply (IH (A ++ [x])); [by rewrite <- app_assoc|]. intros Hin. by apply H0, list_elem_of_further.
Qed.

Section Sound.
Variable stack_guard_gap : Z.
Abbreviation space := (space stack_guard_gap).

Lemma space_areas l mm : space l mm -> areas mm = l.
Proof.
  intros Hsp. destruct (space_nodup _ _ _ Hsp) as [_ H0]. destruct Hsp as [[R [_ _ Hl _ _ Hm _ Hc]] _ _]. unfold areas.
  rewrite Hm, Hc, Nat2Z.id. by apply (areas_from_listed (vmas mm) l []).
Qed.

(** An address space of whole pages with all its invariants, what it maps, and a task whose
    cache can be trusted. *)
Definition sound (mm : mm_struct) : Prop := space (areas mm) mm.
Definition mapped (mm : mm_struct) : Z -> option page := maps mm (areas mm).
Definition trusted (mm : mm_struct) (tsk : task_struct) : Prop := cache_ok mm (areas mm) tsk.

Lemma space_sound l mm : space l mm -> sound mm /\ mapped mm = maps mm l /\ (forall tsk, trusted mm tsk <-> cache_ok mm l tsk).
Proof. intros Hsp. unfold sound, mapped, trusted. by rewrite (space_areas l mm Hsp). Qed.

(** A new address space. *)
Definition empty_mm (addr : Z) : mm_struct := mk_mm addr ∅ (mk_rb ∅ 0 ∅) 0 0 0 0.

Lemma empty_sound addr : sound (empty_mm addr).
Proof.
  unfold sound. change (areas (empty_mm addr)) with (@nil Z). split; [|intros z Hz; by apply elem_of_nil in Hz|done]. exists ∅. split; try done.
  - exists E. split; [by split; [constructor|constructor|]|]. split; [done|]. split; [|done]. split; [done|]. exists 0%nat. constructor.
  - intros A x B Heq. by destruct A.
  - intros x Hx. by apply elem_of_nil in Hx.
  - constructor.
Qed.

(** A page fault or an access looks the address up. *)
Definition lookup_page (mm : mm_struct) (current : task_struct) (addr : Z) : outcome (task_struct * option page) :=
  let* (current, vma) := find_vma mm current addr in
  if vma =? 0 then Ret (current, None)
  else let* v := vma_at (vmas mm) vma in Ret (current, if vm_start v <=? addr then Some (page_of v addr) else None).

Lemma lookup_page_spec mm tsk addr : sound mm -> trusted mm tsk ->
  exists tsk', lookup_page mm tsk addr = Ret (tsk', mapped mm addr) /\ trusted mm tsk' /\ task_mm tsk' = task_mm tsk /\ task_flags tsk' = task_flags tsk.
Proof.
  intros Hsp Hc. unfold trusted, mapped in *. pose proof Hsp as [[R Hwf] _ Hsq]. destruct (space_nodup _ _ _ Hsp) as [_ H0].
  destruct (find_vma_split stack_guard_gap R _ mm tsk addr Hwf Hc Hsq) as (tsk' & A & B & Hl & HA & HB & Hf & Hc' & Ht & Hfl).
  rewrite Forall_forall in HA, HB. unfold sound in Hsp. rewrite Hl in *. unfold lookup_page. rewrite Hf. cbn [obind]. exists tsk'. split; [|done].
  assert (HmA : contents (regions (vmas mm) A) addr = None).
  { apply contents_none. intros v (z & -> & Hz)%list_elem_of_fmap. apply covers_false. right. by apply HA. }
  unfold maps, regions. rewrite fmap_app, contents_app. fold (regions (vmas mm) A). rewrite HmA. destruct B as [|x B]; [done|].
  change (end_of Left (x :: B)) with x. rewrite (proj2 (Z.eqb_neq x 0)) by (intros ->; apply H0; set_solver).
  rewrite vma_at_area by (eapply (listed_readable _ _ x); [apply Hwf|set_solver]). cbn [obind]. rewrite fmap_cons. cbn [contents].
  specialize (HB x (list_elem_of_here _ _)). simpl in HB. unfold covers. rewrite (proj2 (Z.ltb_lt _ _)) by done. rewrite andb_true_r.
  destruct (Z.leb_spec (vm_start (area (vmas mm) x)) addr) as [Hs|Hs]; [done|]. f_equal. f_equal. symmetry. apply contents_none.
  intros v (z & -> & Hz)%list_elem_of_fmap. apply covers_false. left. destruct (space_order _ _ _ _ _ Hsp) as (? & _ & HoB). specialize (HoB z Hz). lia.
Qed.
End Sound.

(** ** Threads *)

(** What a thread asks for; a system call of a thread that was killed can give up before it
    has the lock.  [rie] is whether reading implies executing for the thread, [env] what
    the call reads outside of the areas. *)
Inductive call :=
  | Lookup (addr : Z)
  | Unmap (killed : bool) (start len : Z)
  | Protect (rie killed : bool) (start len prot : Z)
  | Brk (env : brk_env) (killed : bool) (new : Z).

Inductive answer := Page (p : option page) | Code (r : Z).

Definition set_brk (b : brk_fields) (x : Z) : brk_fields := mk_brk (start_data b) (end_data b) (start_brk b) x.

(** The address space with its heap, and the tasks that run in it. *)
Record machine := mk_machine { m_mm : mm_struct; m_brk : brk_fields; m_tasks : list task_struct }.

Section Threads.
Context (stack_guard_gap max_map_count : Z) (security_mmap_addr : Z -> Z) (mm_area shmem_area : area_fn) `{!FixedArea mm_area}.
Context (vm_area_zalloc : mm_struct -> Z) (lims : vm_limits) (randomized : bool).

(** The results of the two splits of an unmapping. *)
Context (split1 split2 : mm_struct -> split_calls).

(** What changing the protection depends on. *)
Context (security_file_mprotect : mm_struct -> Z -> Z -> Z -> Z) (fixups : mm_struct -> fixup_calls).

(** A thread makes a call. *)
Definition step (m : machine) (i : nat) (c : call) : outcome (machine * answer) :=
  match m_tasks m !! i with
  | None => Bug
  | Some tsk =>
      let put mm b tsk := mk_machine mm b (<[i := tsk]> (m_tasks m)) in
      match c with
      | Lookup addr => let* (tsk, p) := lookup_page (m_mm m) tsk addr in Ret (put (m_mm m) (m_brk m) tsk, Page p)
      | Unmap killed start len =>
          let* (mm, tsk, r) := sys_munmap stack_guard_gap max_map_count (split1 (m_mm m)) (split2 (m_mm m)) killed (m_mm m) tsk start len in
          Ret (put mm (m_brk m) tsk, Code r)
      | Protect rie killed start len prot =>
          let* (mm, tsk, r) := sys_mprotect stack_guard_gap max_map_count lims security_file_mprotect fixups rie killed (m_mm m) tsk start len prot in
          Ret (put mm (m_brk m) tsk, Code r)
      | Brk env killed new =>
          let* (mm, tsk, b, r) := sys_brk stack_guard_gap max_map_count security_mmap_addr mm_area shmem_area vm_area_zalloc env
            [(split1 (m_mm m), split2 (m_mm m))] (split1 (m_mm m)) (split2 (m_mm m)) killed randomized (m_mm m) (m_brk m) tsk new in
          Ret (put mm (set_brk (m_brk m) b) tsk, Code r)
      end
  end.

Fixpoint run (m : machine) (calls : list (nat * call)) : outcome (machine * list answer) :=
  match calls with
  | [] => Ret (m, [])
  | (i, c) :: calls =>
      let* (m, a) := step m i c in
      let* (m, l) := run m calls in
      Ret (m, a :: l)
  end.

(** What the calls find in the address space when they are made: whether an area can be
    split twice, whether the heap can get the end asked for, and the errors [r] at [k] of a
    change of the protection that starts at [s]. *)
Record resources := mk_resources { splits_there : Prop; heap_there : Prop; protect_fails : Z -> Z -> Z -> Prop }.

Definition resources_for (m : machine) (c : call) : resources :=
  let mm := m_mm m in
  mk_resources (calls_succeed (split1 mm) /\ calls_succeed (split2 mm) /\ map_count mm < max_map_count)
    (match c with
     | Brk env _ new => brk_possible stack_guard_gap max_map_count security_mmap_addr vm_area_zalloc env (areas mm) mm (m_brk m) (split1 mm) (split2 mm) randomized new
     | _ => True
     end)
    (match c with
     | Protect rie _ start len prot =>
         call_fails stack_guard_gap max_map_count lims security_file_mprotect fixups (implies_exec rie prot) (asked_prot prot) (areas mm) mm (mprotect_end start len)
     | _ => fun _ _ _ => False
     end).

Fixpoint resources_along (m : machine) (calls : list (nat * call)) : list resources :=
  match calls with
  | [] => []
  | (i, c) :: calls => resources_for m c :: match step m i c with Ret (m, _) => resources_along m calls | _ => [] end
  end.

(** What the calls mean: a function from addresses to pages, and the end of the heap. *)
Definition abs_step (w : resources) (m : Z -> option page) (b : brk_fields) (c : call) (ans : answer) (m' : Z -> option page) (b' : brk_fields) : Prop :=
  match c with
  | Lookup addr => ans = Page (m addr) /\ b' = b /\ forall a, m' a = m a
  | Unmap killed start len =>
      exists r, ans = Code r /\ b' = b
        /\ (if killed then r = - EINTR /\ forall a, m' a = m a
            else unmapped_by r start len m m' /\ (~ munmap_args start len -> r = - EINVAL) /\ (munmap_args start len -> splits_there w -> r = 0))
  | Protect rie killed start len prot => exists r, ans = Code r /\ b' = b /\ mprotect_result rie killed start len prot (-1) (protect_fails w) r m m'
  | Brk env killed new =>
      exists r, ans = Code r /\ b' = set_brk b (brk b')
        /\ (if killed then r = - EINTR /\ brk b' = brk b /\ forall a, m' a = m a else brk_result env b new (brk b') r m m' /\ (heap_there w -> r = new))
  end.

Inductive abs_run : list resources -> (Z -> option page) -> brk_fields -> list (nat * call) -> list answer -> (Z -> option page) -> brk_fields -> Prop :=
  | abs_nil m b : abs_run [] m b [] [] m b
  | abs_cons w ws m b i c ans m1 b1 calls anss m2 b2 :
      abs_step w m b c ans m1 b1 -> abs_run ws m1 b1 calls anss m2 b2 -> abs_run (w :: ws) m b ((i, c) :: calls) (ans :: anss) m2 b2.

(** Each call has arguments of 32 bits and is made by a thread there is. *)
Definition call_ok (n : nat) (ic : nat * call) : Prop :=
  (ic.1 < n)%nat /\ match ic.2 with
                    | Lookup _ => True
                    | Unmap _ start len => 0 <= start < 2 ^ 32 /\ 0 <= len < 2 ^ 32
                    | Protect _ _ start len prot => 0 <= start < 2 ^ 32 /\ 0 <= len < 2 ^ 32 /\ 0 <= prot < 2 ^ 32
                    | Brk env _ new => 0 <= def_flags env < 2 ^ 32 /\ 0 <= new < 2 ^ 32
                    end.

Record machine_ok (m : machine) : Prop := {
  ok_sound : sound stack_guard_gap (m_mm m);
  ok_brk : brk_fields_ok (m_brk m);
  ok_tasks : Forall (trusted (m_mm m)) (m_tasks m)
}.

Hypothesis guard_range : 0 <= stack_guard_gap < 2 ^ 32.
Hypothesis security_errors : forall a, security_mmap_addr a = 0 \/ error_number (security_mmap_addr a).
Hypothesis zalloc_fresh : forall mm, vm_area_zalloc mm = 0 \/ (valid (vm_area_zalloc mm) /\ vmas mm !! vm_area_zalloc mm = None).
Hypothesis split1_fresh : split_fresh split1.
Hypothesis split2_fresh : split_fresh split2.
Hypothesis splits_differ : forall mm, new_vma (split1 mm) = new_vma (split2 mm) -> new_vma (split1 mm) = 0.
Hypothesis fixup1_fresh : split_fresh (fun mm => fx_split1 (fixups mm)).
Hypothesis fixup2_fresh : split_fresh (fun mm => fx_split2 (fixups mm)).
Hypothesis fixups_differ : forall mm, new_vma (fx_split1 (fixups mm)) = new_vma (fx_split2 (fixups mm)) -> new_vma (fx_split1 (fixups mm)) = 0.

(** The other tasks can trust their caches after a call. *)
Lemma tasks_kept mm mm' tasks i tsk : sound stack_guard_gap mm' -> cache_kept mm (areas mm) mm' (areas mm') -> Forall (trusted mm) tasks -> trusted mm' tsk ->
  Forall (trusted mm') (<[i := tsk]> tasks).
Proof.
  intros Hs Hk Hf Ht. apply Forall_insert; [|done]. eapply Forall_impl; [done|]. intros t. by apply cache_kept_ok.
Qed.

(** The machine after a call that left the address space [mm'] and the answer [ans]. *)
Lemma machine_after m i c mm' b' tsk' ans : machine_ok m -> sound stack_guard_gap mm' -> cache_kept (m_mm m) (areas (m_mm m)) mm' (areas mm') -> trusted mm' tsk' ->
  brk_fields_ok b' -> vmacache_seqnum mm' <= vmacache_seqnum (m_mm m) + 2 ^ 22 -> abs_step (resources_for m c) (mapped (m_mm m)) (m_brk m) c ans (mapped mm') b' ->
  let m' := mk_machine mm' b' (<[i := tsk']> (m_tasks m)) in
  machine_ok m' /\ length (m_tasks m') = length (m_tasks m) /\ vmacache_seqnum (m_mm m') <= vmacache_seqnum (m_mm m) + 2 ^ 22
    /\ abs_step (resources_for m c) (mapped (m_mm m)) (m_brk m) c ans (mapped (m_mm m')) (m_brk m').
Proof.
  intros [Hs Hb Hf] Hs' Hk Ht Hb' Hsq Habs m'. cbn [m_mm m_brk m_tasks m']. rewrite length_insert. split; [|done]. split; [done|done|by apply (tasks_kept (m_mm m))].
Qed.

Definition step_result (m : machine) (c : call) (o : outcome (machine * answer)) : Prop :=
  exists m' ans, o = Ret (m', ans) /\ machine_ok m' /\ length (m_tasks m') = length (m_tasks m)
    /\ vmacache_seqnum (m_mm m') <= vmacache_seqnum (m_mm m) + 2 ^ 22
    /\ abs_step (resources_for m c) (mapped (m_mm m)) (m_brk m) c ans (mapped (m_mm m')) (m_brk m').

Lemma step_refines m i c : machine_ok m -> call_ok (length (m_tasks m)) (i, c) -> vmacache_seqnum (m_mm m) + 2 ^ 22 < 2 ^ 64 ->
  step_result m c (step m i c).
Proof.
  intros Hok [Hi Hc] Hsq. pose proof Hok as [Hs Hb Hf]. cbn [fst snd] in *. unfold step. destruct (lookup_lt_is_Some_2 (m_tasks m) i Hi) as [tsk Htsk]. rewrite Htsk.
  assert (Htr : trusted (m_mm m) tsk) by (rewrite Forall_forall in Hf; by apply Hf, (list_elem_of_lookup_2 _ i)).
  pose proof (fresh_calls _ split1 _ _ split1_fresh Hs) as H1. pose proof (fresh_calls _ split2 _ _ split2_fresh Hs) as H2.
  destruct c as [addr|killed start len|rie killed start len prot|env killed new].
  - destruct (lookup_page_spec stack_guard_gap (m_mm m) tsk addr Hs Htr) as (tsk' & -> & Ht' & _). cbn [obind]. eexists _, _. split; [done|].
    apply machine_after; try done; [apply cache_kept_refl|lia].
  - destruct Hc as [Hst Hln]. unfold sys_munmap. destruct killed.
    { cbn [obind]. eexists _, _. split; [done|]. apply machine_after; try done; [apply cache_kept_refl|lia|by exists (- EINTR)]. }
    destruct (do_munmap_spec stack_guard_gap max_map_count (split1 (m_mm m)) (split2 (m_mm m)) (areas (m_mm m)) (m_mm m) tsk start len)
      as (mm' & tsk' & r & l' & Hrun & [Hsp Hk Hc' _ Hs' Hm] & Hgo); try done; [lia|apply splits_differ|]. rewrite Hrun. cbn [obind]. eexists _, _. split; [done|].
    destruct (space_sound _ _ _ Hsp) as (Hso & _). rewrite <- (space_areas _ _ _ Hsp) in Hk, Hc', Hm. apply machine_after; try done; [lia|]. exists r. split; [done|]. split; [done|]. split; [exact Hm|]. split.
    + intros Hno. rewrite munmap_refused in Hrun by done. congruence.
    + intros Ha (? & ? & ?). by apply Hgo.
  - destruct Hc as (Hst & Hln & Hp). destruct (do_mprotect_spec stack_guard_gap max_map_count lims security_file_mprotect fixups guard_range fixup1_fresh fixup2_fresh fixups_differ
      rie killed (areas (m_mm m)) (m_mm m) tsk start len prot (-1)) as (mm' & tsk' & r & l' & Hrun & Hsp & Hk & Hc' & Hs' & Hm); try done; [lia|].
    unfold sys_mprotect. rewrite Hrun. cbn [obind]. eexists _, _. split; [done|].
    destruct (space_sound _ _ _ Hsp) as (Hso & _). rewrite <- (space_areas _ _ _ Hsp) in Hk, Hc', Hm. apply machine_after; try done. by exists r.
  - destruct Hc as [Hdf Hnew]. destruct (sys_brk_spec stack_guard_gap max_map_count security_mmap_addr mm_area shmem_area vm_area_zalloc guard_range security_errors zalloc_fresh
      env (split1 (m_mm m)) (split2 (m_mm m)) [] (split1 (m_mm m)) (split2 (m_mm m)) killed randomized (areas (m_mm m)) (m_mm m) (m_brk m) tsk new)
      as (mm' & tsk' & b' & r & l' & -> & [Hsp Hk Hc' _ Hs'] & Hm & Hgo); try done; try apply splits_differ; [lia|]. cbn [obind]. eexists _, _. split; [done|].
    destruct (space_sound _ _ _ Hsp) as (Hso & _). rewrite <- (space_areas _ _ _ Hsp) in Hk, Hc', Hm. apply machine_after; try done; [|lia|exists r; split; [done|]; split; [done|]; destruct killed; [done|]; split; [exact Hm|]; by apply Hgo].
    destruct Hb as (? & ? & ?). assert (Hb' : 0 < b' <= TASK_SIZE) by (destruct killed; [destruct Hm as (_ & -> & _)|destruct Hm as [(_ & -> & ? & _)|(_ & -> & _)]]; done).
    split; [done|]. by split.
Qed.

Lemma run_refines calls : forall m, machine_ok m -> Forall (call_ok (length (m_tasks m))) calls ->
  vmacache_seqnum (m_mm m) + 2 ^ 22 * Z.of_nat (length calls) < 2 ^ 64 ->
  exists m' anss, run m calls = Ret (m', anss) /\ machine_ok m'
    /\ abs_run (resources_along m calls) (mapped (m_mm m)) (m_brk m) calls anss (mapped (m_mm m')) (m_brk m').
Proof.
  induction calls as [|[i c] calls IH]; intros m Hok Hcs Hsq; [exists m, []; split_and!; try done; constructor|].
  apply Forall_cons in Hcs as [Hc Hcs]. cbn [length] in Hsq.
  destruct (step_refines m i c Hok Hc ltac:(lia)) as (m1 & ans & Hrun & Hok1 & Hlen & Hs1 & Habs).
  destruct (IH m1 Hok1) as (m2 & anss & Hrun2 & Hok2 & Habs2); [by rewrite Hlen|lia|].
  exists m2, (ans :: anss). cbn [run resources_along]. rewrite Hrun. cbn [obind]. rewrite Hrun2. split_and!; try done. by econstructor.
Qed.
End Threads.
