(* ===== verification/AddressProps.v ===== *)
(** * Address spaces: the properties *)
From Stdlib Require Import ZArith Lia Bool Sorted.
From stdpp Require Import base numbers list sorting gmap.
From S2P Require Import Prelude RBTree RBTreeShape RBTreeRep RBTreeAugment RBTreeInsert RBTreeErase RBTreeRemove RBTreeCallbacks RBTreeWalk RBTreeProps RBTreeSearch VmArea IntervalTree IntervalTreeSpec AddressSpace AddressSearch AddressGaps AddressLink AddressUnmap AddressFind AddressUnmapped AddressPlace AddressAdjust AddressMap AddressSplit AddressMunmap AddressChange AddressAbsorb AddressMerge AddressBrk AddressHeap AddressProtect AddressProtectSpec AddressProtectLoop AddressThreads.

(** ** A concrete environment *)
Module Example.
(** 256 pages, and the default of [sysctl_max_map_count]. *)
Definition guard : Z := 1048576.
Definition max_count : Z := 65530.

Definition area_of : area_fn := fun mm => arch_get_unmapped_area_topdown guard mm false false 3204448256.

(** An allocator that gives the first of some addresses that is not in use. *)
Fixpoint first_free (mm : mm_struct) (l : list Z) : Z :=
  match l with [] => 0 | x :: l => if decide (vmas mm !! x = None) then x else first_free mm l end.

Definition zalloc (mm : mm_struct) : Z := first_free mm [4096; 8192; 12288].
Definition split1 (mm : mm_struct) : split_calls := mk_calls 0 (first_free mm [16384; 20480; 24576]) 0.
Definition split2 (mm : mm_struct) : split_calls := mk_calls 0 (first_free mm [28672; 32768; 36864]) 0.

Definition fixups (mm : mm_struct) : fixup_calls := mk_fixup 0 0 0 0 (split1 mm) (split2 mm).

Definition big : vm_limits := mk_limits U32_MAX U32_MAX U32_MAX U32_MAX false false.
Definition env : brk_env := mk_env false 0 0 0 0 big 0 0.

Lemma first_free_fresh mm l : Forall valid l -> first_free mm l = 0 \/ (first_free mm l ∈ l /\ valid (first_free mm l) /\ vmas mm !! first_free mm l = None).
Proof.
  induction 1 as [|x l Hx Hl IH]; [by left|]. cbn [first_free]. destruct (decide (vmas mm !! x = None)); [right|].
  - split_and!; [apply list_elem_of_here|done|done].
  - destruct IH as [?|(? & ? & ?)]; [by left|right]. split_and!; [by apply list_elem_of_further|done|done].
Qed.

Lemma validb l : forallb (fun x => (0 <? x) && (x <? 2 ^ 32) && (x mod 4 =? 0)) l = true -> Forall valid l.
Proof.
  intros H. apply Forall_forall. intros x Hx. rewrite forallb_forall in H. specialize (H x (proj1 (list_elem_of_In _ _) Hx)).
  rewrite !andb_true_iff, !Z.ltb_lt, Z.eqb_eq in H. split; lia.
Qed.

Lemma zalloc_fresh mm : zalloc mm = 0 \/ (valid (zalloc mm) /\ vmas mm !! zalloc mm = None).
Proof. destruct (first_free_fresh mm [4096; 8192; 12288]) as [?|(_ & ? & ?)]; [by apply validb|by left|by right]. Qed.

Lemma split1_fresh : split_fresh split1.
Proof. intros mm. destruct (first_free_fresh mm [16384; 20480; 24576]) as [?|(_ & ? & ?)]; [by apply validb|by left|by right]. Qed.

Lemma split2_fresh : split_fresh split2.
Proof. intros mm. destruct (first_free_fresh mm [28672; 32768; 36864]) as [?|(_ & ? & ?)]; [by apply validb|by left|by right]. Qed.

Lemma splits_differ mm : new_vma (split1 mm) = new_vma (split2 mm) -> new_vma (split1 mm) = 0.
Proof.
  change (first_free mm [16384; 20480; 24576] = first_free mm [28672; 32768; 36864] -> first_free mm [16384; 20480; 24576] = 0). intros Heq.
  destruct (first_free_fresh mm [16384; 20480; 24576]) as [?|(H1 & _)]; [by apply validb|done|].
  destruct (first_free_fresh mm [28672; 32768; 36864]) as [?|(H2 & _)]; [by apply validb|congruence|]. rewrite Heq in H1. rewrite !elem_of_cons, elem_of_nil in H1, H2. lia.
Qed.

(** A new address space, with a heap that begins at 64 KiB, and a thread that has not
    looked anything up. *)
Definition mm0 : mm_struct := empty_mm 1024.
Definition heap0 : brk_fields := mk_brk 32768 49152 65536 65536.
Definition thread : task_struct := mk_task 1024 0 0 [0; 0; 0; 0].

Lemma thread_ok mm : mm_addr mm = 1024 -> trusted mm thread.
Proof. intros Ha. split; [done|]. intros _. left. cbn. set_solver. Qed.

(** The heap can grow: the allocator has an area. *)
Lemma mm0_heap_possible : brk_possible guard max_count (fun _ => 0) zalloc env (areas mm0) mm0 heap0 (split1 mm0) (split2 mm0) false 131072.
Proof.
  split; [done|done|done|]. intros _. split; [done|]. change (areas mm0) with (@nil Z). split; [intros z Hz; by apply elem_of_nil in Hz|].
  split; [by split_and!|done..|]. intros prev parent child mm1 Hl. vm_compute in Hl. injection Hl as <- <- <-. intros Hm. vm_compute in Hm. by injection Hm as <-.
Qed.

(** The address space after the heap has grown to 128 KiB. *)
Definition mm1 : mm_struct :=
  match do_brk guard max_count (fun _ => 0) area_of area_of zalloc env [(split1 mm0, split2 mm0)] mm0 thread 65536 65536 with
  | Ret (mm, _, _) => mm
  | _ => mm0
  end.

Lemma mm1_sound : sound guard mm1.
Proof.
  destruct (do_brk_spec guard max_count (fun _ => 0) area_of area_of zalloc ltac:(done) ltac:(by left) zalloc_fresh env (split1 mm0) (split2 mm0) [] [] mm0 thread 65536 65536)
    as (mm' & tsk' & r & l' & Hrun & [Hsp _ _ _ _] & _); try done.
  - apply empty_sound.
  - by apply thread_ok.
  - apply (fresh_calls guard split1 mm0 _ split1_fresh), empty_sound.
  - apply (fresh_calls guard split2 mm0 _ split2_fresh), empty_sound.
  - unfold mm1. rewrite Hrun. by apply space_sound in Hsp as [? _].
Qed.

(** It has one area. *)
Lemma mm1_heap a : 65536 <= a < 131072 -> mapped mm1 a = Some (heap_page env 65536 a).
Proof.
  intros Ha. assert (Hv : area (vmas mm1) 4096 = mk_vma 65536 131072 0 0 1024 (brk_flags env) 0 false 0 false 16 0) by (vm_compute; reflexivity).
  assert (Hl : areas mm1 = [4096]) by (vm_compute; reflexivity).
  unfold mapped. rewrite (maps_at guard (areas mm1) mm1 4096 a mm1_sound); [by rewrite Hv|rewrite Hl; apply list_elem_of_here|by rewrite Hv].
Qed.

(** There is memory to make a page in the middle read-only. *)
Lemma mm1_enough k r : r <> 0 -> ~ call_fails guard max_count big (fun _ _ _ _ => 0) fixups false PROT_READ (areas mm1) mm1 77824 73728 k r.
Proof.
  assert (Hl : areas mm1 = [4096]) by (vm_compute; reflexivity). rewrite Hl. intros Hr (A & x & B & Heq & _ & Hs). destruct A as [|z A]; [|by destruct A]. injection Heq as <- <-.
  destruct Hs as (mm' & x' & prev' & Hv & Hs). inversion Hv; subst.
  - destruct Hs as [Hs|[[Hs _]|[(_ & Hs & _)|[(_ & Hs & _)|[Hs _]]]]]; [done|by vm_compute in Hs|apply Hs; split_and!; by vm_compute..|by vm_compute in Hs].
  - match goal with H : mprotect_fixup _ _ _ _ _ _ _ _ _ _ = _ |- _ => rename H into Hfix end.
    assert (Hend : match mprotect_fixup guard max_count big (fixups mm1) mm1 4096 (if decide (73728 = vm_start (area (vmas mm1) 4096)) then end_of Right [] else 4096) 73728
                     (Z.min 77824 (vm_end (area (vmas mm1) 4096))) (mprotect_newflags false (vm_flags (area (vmas mm1) 4096)) PROT_READ) with
                   | Ret (mm2, p, _) => vm_end (area (vmas mm2) p) =? 77824 | _ => false end = true) by (vm_compute; reflexivity).
    unfold v in Hfix. rewrite Hfix in Hend. apply Z.eqb_eq in Hend. fold w in Hend. lia.
Qed.
End Example.

(** ** Threads *)

(** C1: Threads that share an address space: every sequence of address lookups through the
    per-task caches, [munmap], [mprotect] and [brk] calls, made by any threads in any order, runs
    to its end with a well-formed address space and caches that can be trusted, and the
    answers and the mappings are those of an abstract machine that has only a function from
    addresses to pages and the end of the heap.  That machine may refuse a call only for its
    arguments, for what is mapped, or for want of what the call needs in the state it is
    made in: areas for the splits, the conditions of [brk], memory or the consent of the
    security hook at the page where [mprotect] stops. *)
Theorem threads_refine stack_guard_gap max_map_count security_mmap_addr mm_area shmem_area `{!FixedArea mm_area} vm_area_zalloc lims randomized split1 split2
    security_file_mprotect fixups calls m :
  0 <= stack_guard_gap < 2 ^ 32 -> (forall a, security_mmap_addr a = 0 \/ error_number (security_mmap_addr a)) ->
  (forall mm, vm_area_zalloc mm = 0 \/ (valid (vm_area_zalloc mm) /\ vmas mm !! vm_area_zalloc mm = None)) ->
  split_fresh split1 -> split_fresh split2 -> (forall mm, new_vma (split1 mm) = new_vma (split2 mm) -> new_vma (split1 mm) = 0) ->
  split_fresh (fun mm => fx_split1 (fixups mm)) -> split_fresh (fun mm => fx_split2 (fixups mm)) ->
  (forall mm, new_vma (fx_split1 (fixups mm)) = new_vma (fx_split2 (fixups mm)) -> new_vma (fx_split1 (fixups mm)) = 0) ->
  machine_ok stack_guard_gap m -> Forall (call_ok (length (m_tasks m))) calls -> vmacache_seqnum (m_mm m) + 2 ^ 22 * Z.of_nat (length calls) < 2 ^ 64 ->
  exists m' anss, run stack_guard_gap max_map_count security_mmap_addr mm_area shmem_area vm_area_zalloc lims randomized split1 split2
      security_file_mprotect fixups m calls = Ret (m', anss)
    /\ machine_ok stack_guard_gap m'
    /\ abs_run (resources_along stack_guard_gap max_map_count security_mmap_addr mm_area shmem_area vm_area_zalloc lims randomized split1 split2
         security_file_mprotect fixups m calls) (mapped (m_mm m)) (m_brk m) calls anss (mapped (m_mm m')) (m_brk m').
Proof. intros. by apply run_refines. Qed.

(** Two threads: the heap grows, the other thread looks at it and makes a page of it
    read-only, a page is unmapped and looked up, the heap shrinks. *)
Definition two_threads : machine := mk_machine Example.mm0 Example.heap0 [Example.thread; Example.thread].
Definition some_calls : list (nat * call) :=
  [(0%nat, Brk Example.env false 131072); (1%nat, Lookup 70000); (1%nat, Protect false false 77824 4096 PROT_READ); (0%nat, Lookup 77824); (1%nat, Unmap false 73728 4096); (0%nat, Lookup 73728);
   (0%nat, Protect false true 77824 4096 PROT_READ); (0%nat, Protect false false 73728 8192 PROT_READ); (0%nat, Lookup 70000); (1%nat, Brk Example.env false 65536); (0%nat, Lookup 70000)].

Abbreviation example_run := (run Example.guard Example.max_count (fun _ => 0) Example.area_of Example.area_of Example.zalloc Example.big false Example.split1 Example.split2
  (fun _ _ _ _ => 0) Example.fixups).
Abbreviation example_resources := (resources_along Example.guard Example.max_count (fun _ => 0) Example.area_of Example.area_of Example.zalloc Example.big false Example.split1 Example.split2
  (fun _ _ _ _ => 0) Example.fixups).

Lemma two_threads_ok : machine_ok Example.guard two_threads.
Proof.
  split; [apply empty_sound|split_and!; done|]. apply Forall_forall. cbn [m_tasks two_threads].
  intros t [->|[->|H]%elem_of_cons]%elem_of_cons; [by apply Example.thread_ok..|by apply elem_of_nil in H].
Qed.

Lemma threads_refine_witness : exists m' anss, example_run two_threads some_calls = Ret (m', anss)
  /\ machine_ok Example.guard m'
  /\ abs_run (example_resources two_threads some_calls) (mapped Example.mm0) Example.heap0 some_calls anss (mapped (m_mm m')) (m_brk m').
Proof.
  apply (threads_refine Example.guard Example.max_count (fun _ => 0) Example.area_of Example.area_of Example.zalloc Example.big false Example.split1 Example.split2
    (fun _ _ _ _ => 0) Example.fixups some_calls two_threads).
  - done.
  - by left.
  - apply Example.zalloc_fresh.
  - apply Example.split1_fresh.
  - apply Example.split2_fresh.
  - apply Example.splits_differ.
  - apply Example.split1_fresh.
  - apply Example.split2_fresh.
  - apply Example.splits_differ.
  - apply two_threads_ok.
  - repeat (apply Forall_cons; split; [unfold call_ok; cbn; split_and!; done || lia|]). by apply Forall_nil.
  - done.
Defined.

(** What they get. *)
Lemma two_threads_answers : exists m', 
  example_run two_threads some_calls
  = Ret (m', let heap a := heap_page Example.env 65536 a in
      [Code 131072; Page (Some (heap 70000)); Code 0; Page (Some (protect_page false PROT_READ (heap 77824))); Code 0; Page None;
       Code (- EINTR); Code (- ENOMEM); Page (Some (heap 70000)); Code 65536; Page None]).
Proof. eexists. vm_compute. reflexivity. Qed.

(** ** Unmapping *)

(** What holds of an address space after a call, and what tasks can rely on. *)
Definition carries_on (stack_guard_gap : Z) (mm mm' : mm_struct) : Prop :=
  sound stack_guard_gap mm' /\ forall tsk, trusted mm tsk -> trusted mm' tsk.

Lemma kept_carries_on stack_guard_gap mm mm' l' : space stack_guard_gap l' mm' -> cache_kept mm (areas mm) mm' l' -> carries_on stack_guard_gap mm mm'.
Proof.
  intros Hsp Hk. destruct (space_sound _ _ _ Hsp) as (Hs & _ & Ht). split; [done|]. intros tsk Htsk. apply Ht. by eapply cache_kept_ok.
Qed.

(** C2: [do_munmap] of any range returns; if it returns 0, exactly the pages of the range are
    gone and every other page is mapped as before, with areas cut in two where the range
    begins and ends; on any error nothing that is mapped has changed.  The address space
    stays well-formed, all tasks can trust their caches, and with a page-aligned range
    inside the user addresses, memory for the splits and fewer areas than the limit the
    call succeeds. *)
Theorem munmap_exact stack_guard_gap max_map_count calls1 calls2 mm tsk start len :
  0 <= stack_guard_gap < 2 ^ 32 -> sound stack_guard_gap mm -> trusted mm tsk -> vmacache_seqnum mm + 1 < 2 ^ 64 ->
  0 <= start < 2 ^ 32 -> 0 <= len < 2 ^ 32 ->
  calls_fresh (areas mm) calls1 -> calls_fresh (areas mm) calls2 -> (new_vma calls1 = new_vma calls2 -> new_vma calls1 = 0) ->
  exists mm' tsk' r, do_munmap stack_guard_gap max_map_count calls1 calls2 mm tsk start len = Ret (mm', tsk', r)
    /\ carries_on stack_guard_gap mm mm' /\ trusted mm' tsk' /\ unmapped_by r start len (mapped mm) (mapped mm')
    /\ (munmap_args start len -> calls_succeed calls1 -> calls_succeed calls2 -> map_count mm < max_map_count -> r = 0).
Proof.
  intros HG Hs Ht Hsq Hst Hln H1 H2 H3.
  destruct (do_munmap_spec stack_guard_gap max_map_count calls1 calls2 _ mm tsk start len HG Hs Ht Hsq Hst Hln H1 H2 H3) as (mm' & tsk' & r & l' & Hrun & [Hsp Hk Hc _ _ Hm] & Hok).
  exists mm', tsk', r. destruct (space_sound _ _ _ Hsp) as (_ & Hmap & Htr). rewrite Hmap. split_and!; try done; [by eapply kept_carries_on|by apply Htr].
Qed.

(** One page out of the middle of the heap. *)
Lemma munmap_exact_witness : exists mm' tsk',
  do_munmap Example.guard Example.max_count (Example.split1 Example.mm1) (Example.split2 Example.mm1) Example.mm1 Example.thread 73728 4096 = Ret (mm', tsk', 0)
  /\ carries_on Example.guard Example.mm1 mm' /\ unmapped_by 0 73728 4096 (mapped Example.mm1) (mapped mm').
Proof.
  destruct (munmap_exact Example.guard Example.max_count (Example.split1 Example.mm1) (Example.split2 Example.mm1) Example.mm1 Example.thread 73728 4096)
    as (mm' & tsk' & r & Hrun & Hc & _ & Hm & Hok).
  - done.
  - apply Example.mm1_sound.
  - apply Example.thread_ok. by vm_compute.
  - by vm_compute.
  - done.
  - done.
  - apply (fresh_calls Example.guard _ _ _ Example.split1_fresh), Example.mm1_sound.
  - apply (fresh_calls Example.guard _ _ _ Example.split2_fresh), Example.mm1_sound.
  - apply Example.splits_differ.
  - assert (Hr : r = 0) by (apply Hok; [by split_and!|split_and!; by vm_compute|split_and!; by vm_compute|by vm_compute]).
    subst r. exists mm', tsk'. split; [exact Hrun|]. split; [exact Hc|exact Hm].
Defined.

(** ** Changing the protection *)

(** C3: The [mprotect] system call returns.  Refused arguments change nothing.  Otherwise the
    pages get the protection in order from the start of the range and all other pages are
    mapped as before.  A page that gets it has the read, write and execute bits asked for,
    with execute added where reading implies executing and the area may be executed;
    VM_ACCOUNT is set when a private area that was not charged becomes writable; every
    other flag, the file, the name and the offset are kept.  Its [close] operation is kept
    too, unless a page of the same file and name that ends with the same flags has none, so
    that the areas can become one.  The range goes up to the end if the call returns 0, and
    then all of it was mapped and allowed; on an error it goes up to the page where the call
    stopped, which is not mapped (-ENOMEM), may not have the protection (-EACCES), or is
    where the state the loop has reached is refused by the security hook or lacks the
    memory or the areas needed, with the error that this gives.  When nothing refuses, it
    succeeds.  The address space
    stays well-formed, and all tasks can trust their caches. *)
Theorem mprotect_exact stack_guard_gap max_map_count limits security_file_mprotect fixups personality killed mm tsk start len prot :
  0 <= stack_guard_gap < 2 ^ 32 -> split_fresh (fun mm => fx_split1 (fixups mm)) -> split_fresh (fun mm => fx_split2 (fixups mm)) ->
  (forall mm, new_vma (fx_split1 (fixups mm)) = new_vma (fx_split2 (fixups mm)) -> new_vma (fx_split1 (fixups mm)) = 0) ->
  sound stack_guard_gap mm -> trusted mm tsk -> vmacache_seqnum mm + 2 ^ 22 < 2 ^ 64 -> 0 <= start < 2 ^ 32 -> 0 <= prot ->
  exists mm' tsk' r, sys_mprotect stack_guard_gap max_map_count limits security_file_mprotect fixups personality killed mm tsk start len prot = Ret (mm', tsk', r)
    /\ carries_on stack_guard_gap mm mm' /\ trusted mm' tsk'
    /\ mprotect_result personality killed start len prot (-1)
        (call_fails stack_guard_gap max_map_count limits security_file_mprotect fixups (implies_exec personality prot) (asked_prot prot) (areas mm) mm (mprotect_end start len)) r (mapped mm) (mapped mm')
    /\ (mprotect_checks killed start len prot (-1) = None -> asked_prot prot = prot ->
        (forall a, start <= a < mprotect_end start len -> grantable (implies_exec personality prot) prot (mapped mm) a) ->
        (forall k e, e <> 0 -> ~ call_fails stack_guard_gap max_map_count limits security_file_mprotect fixups (implies_exec personality prot) prot (areas mm) mm (mprotect_end start len) start k e) ->
        r = 0).
Proof.
  intros HG H1 H2 H3 Hs Ht Hsq Hst Hp.
  destruct (do_mprotect_spec stack_guard_gap max_map_count limits security_file_mprotect fixups HG H1 H2 H3 personality killed (areas mm) mm tsk start len prot (-1) Hs Ht Hst Hp Hsq)
    as (mm' & tsk' & r & l' & Hrun & Hsp & Hk & Hc & _ & Hm). exists mm', tsk', r. split; [exact Hrun|]. split; [by eapply kept_carries_on|].
  destruct (space_sound _ _ _ Hsp) as (_ & Hmap & Htr). split; [by apply Htr|]. rewrite Hmap. split; [done|]. intros Hch Heq Hall Hl. rewrite Heq in Hm. by apply (mprotect_succeeds _ _ _ _ _ _ _ _ _ _ Hst Hch Heq Hall Hl Hm).
Qed.

(** A page out of the middle of the heap becomes read-only. *)
Lemma mprotect_exact_witness : exists mm' tsk',
  sys_mprotect Example.guard Example.max_count Example.big (fun _ _ _ _ => 0) Example.fixups false false Example.mm1 Example.thread 73728 4096 PROT_READ = Ret (mm', tsk', 0)
  /\ carries_on Example.guard Example.mm1 mm'
  /\ mapped mm' 73728 = Some (protect_page false PROT_READ (heap_page Example.env 65536 73728)) /\ mapped mm' 77824 = Some (heap_page Example.env 65536 77824).
Proof.
  pose proof Example.mm1_heap as Hm0.
  destruct (mprotect_exact Example.guard Example.max_count Example.big (fun _ _ _ _ => 0) Example.fixups false false Example.mm1 Example.thread 73728 4096 PROT_READ)
    as (mm' & tsk' & r & Hrun & Hc & _ & Hm & Hok).
  - done.
  - apply Example.split1_fresh.
  - apply Example.split2_fresh.
  - apply Example.splits_differ.
  - apply Example.mm1_sound.
  - apply Example.thread_ok. by vm_compute.
  - by vm_compute.
  - done.
  - done.
  - assert (Hr : r = 0).
    { apply Hok; [done|done|intros a Ha; exists (heap_page Example.env 65536 a); split; [apply Hm0; revert Ha; change (mprotect_end 73728 4096) with 77824; lia|done]|apply Example.mm1_enough]. }
    subst r. exists mm', tsk'. split; [exact Hrun|]. split; [exact Hc|].
    clear Hrun Hc Hok. unfold mprotect_result in Hm. change (mprotect_checks false 73728 4096 PROT_READ (-1)) with (@None Z) in Hm. cbv zeta iota in Hm.
    destruct Hm as [(Hm & _)|(s & k & Hb & _ & Hp & Hres)]; [discriminate Hm|]. destruct Hb as [->|[Hb _]]; [|discriminate Hb].
    destruct Hres as [[_ ->]|[Hres _]]; [|congruence]. change (mprotect_end 73728 4096) with 77824 in Hp. split.
    + specialize (Hp 73728). rewrite decide_True in Hp by lia. destruct Hp as (p & p' & Hp0 & _ & Hp' & Hpp). rewrite Hm0 in Hp0 by lia. injection Hp0 as <-.
      rewrite Hp'. destruct Hpp as [->|[[Hc2 _] _]]; [reflexivity|discriminate Hc2].
    + specialize (Hp 77824). rewrite decide_False in Hp by lia. rewrite Hp, Hm0 by lia. reflexivity.
Defined.

(** *** An area that loses its [close] operation *)
Definition add_area (mm : mm_struct) (x : Z) (v : vm_area_struct) : outcome mm_struct :=
  let* r := find_vma_links mm (vm_start v) (vm_end v) in
  match r with
  | inr (prev, parent, s) => vma_link Example.guard (zeroed_vma mm x v) x prev parent s
  | inl _ => Ret mm
  end.

(** A read-only area of a file, and a writable one with a [close] operation after it. *)
Definition two_areas : outcome mm_struct :=
  let* mm := add_area Example.mm0 4096 (mk_vma 65536 131072 0 0 1024 49 0 false 0 false 0 7) in
  add_area mm 8192 (mk_vma 131072 196608 0 0 1024 51 0 false 0 true 16 7).

(** When the second becomes read-only, it is merged into the first. *)
Theorem mprotect_drops_close : exists mm mm' tsk', two_areas = Ret mm /\ areas mm = [4096; 8192] /\ pg_close <$> mapped mm 131072 = Some true
  /\ sys_mprotect Example.guard Example.max_count Example.big (fun _ _ _ _ => 0) Example.fixups false false mm Example.thread 131072 65536 PROT_READ = Ret (mm', tsk', 0)
  /\ areas mm' = [4096] /\ pg_close <$> mapped mm' 131072 = Some false.
Proof. do 3 eexists. split; [vm_compute; reflexivity|]. split; [vm_compute; reflexivity|]. split; [vm_compute; reflexivity|]. split; [vm_compute; reflexivity|]. split; vm_compute; reflexivity. Qed.

(** ** The heap *)

(** C4: The [brk] system call returns the end of the heap it leaves: the one asked for, with
    the pages between the old and the new end mapped as anonymous memory or unmapped and
    every other page as before, or the old one, with all mappings as before, also when
    rounding the new end to pages overflows.  It succeeds when the limits and the areas
    around the heap allow it and, where a range cannot be merged with them, the allocator
    has an area in the state it is asked in; a signal before the lock is taken gives -EINTR
    and changes nothing. *)
Theorem brk_moves_heap stack_guard_gap max_map_count security_mmap_addr mm_area shmem_area `{!FixedArea mm_area} vm_area_zalloc env c1 c2 rest unmap1 unmap2
    killed randomized mm b tsk new :
  0 <= stack_guard_gap < 2 ^ 32 -> 0 <= def_flags env < 2 ^ 32 -> (forall a, security_mmap_addr a = 0 \/ error_number (security_mmap_addr a)) ->
  (forall mm, vm_area_zalloc mm = 0 \/ (valid (vm_area_zalloc mm) /\ vmas mm !! vm_area_zalloc mm = None)) ->
  sound stack_guard_gap mm -> trusted mm tsk -> vmacache_seqnum mm + 3 < 2 ^ 64 -> brk_fields_ok b -> 0 <= new < 2 ^ 32 ->
  calls_fresh (areas mm) c1 -> calls_fresh (areas mm) c2 -> (new_vma c1 = new_vma c2 -> new_vma c1 = 0) ->
  calls_fresh (areas mm) unmap1 -> calls_fresh (areas mm) unmap2 -> (new_vma unmap1 = new_vma unmap2 -> new_vma unmap1 = 0) ->
  exists mm' tsk' b' r,
    sys_brk stack_guard_gap max_map_count security_mmap_addr mm_area shmem_area vm_area_zalloc env ((c1, c2) :: rest) unmap1 unmap2 killed randomized mm b tsk new
      = Ret (mm', tsk', b', r)
    /\ carries_on stack_guard_gap mm mm' /\ trusted mm' tsk'
    /\ (if killed then r = - EINTR /\ b' = brk b /\ forall a, mapped mm' a = mapped mm a else brk_result env b new b' r (mapped mm) (mapped mm'))
    /\ (killed = false -> brk_possible stack_guard_gap max_map_count security_mmap_addr vm_area_zalloc env (areas mm) mm b unmap1 unmap2 randomized new -> r = new).
Proof.
  intros HG Hdf Hse Hza Hs Ht Hsq Hb Hn H1 H2 H3 H4 H5 H6.
  destruct (sys_brk_spec stack_guard_gap max_map_count security_mmap_addr mm_area shmem_area vm_area_zalloc HG Hse Hza env c1 c2 rest unmap1 unmap2 killed randomized
    (areas mm) mm b tsk new Hdf Hs Ht Hsq Hb Hn H1 H2 H3 H4 H5 H6) as (mm' & tsk' & b' & r & l' & Hrun & [Hsp Hk Hc _ _] & Hm & Hok).
  exists mm', tsk', b', r. destruct (space_sound _ _ _ Hsp) as (_ & Hmap & Htr). rewrite Hmap. split_and!; try done; [by eapply kept_carries_on|by apply Htr].
Qed.

(** The heap grows to 128 KiB in an empty address space, where nothing can be merged. *)
Lemma brk_moves_heap_witness : exists mm' tsk',
  sys_brk Example.guard Example.max_count (fun _ => 0) Example.area_of Example.area_of Example.zalloc Example.env
    [(Example.split1 Example.mm0, Example.split2 Example.mm0)] (Example.split1 Example.mm0) (Example.split2 Example.mm0) false false
    Example.mm0 Example.heap0 Example.thread 131072 = Ret (mm', tsk', 131072, 131072)
  /\ carries_on Example.guard Example.mm0 mm' /\ trusted mm' tsk' /\ heap_moved Example.env 65536 131072 (mapped Example.mm0) (mapped mm').
Proof.
  destruct (brk_moves_heap Example.guard Example.max_count (fun _ => 0) Example.area_of Example.area_of Example.zalloc Example.env
    (Example.split1 Example.mm0) (Example.split2 Example.mm0) [] (Example.split1 Example.mm0) (Example.split2 Example.mm0) false false
    Example.mm0 Example.heap0 Example.thread 131072) as (mm' & tsk' & b' & r & Hrun & Hc & Ht & Hm & Hok).
  - done.
  - done.
  - by left.
  - apply Example.zalloc_fresh.
  - apply empty_sound.
  - by apply Example.thread_ok.
  - done.
  - by split_and!.
  - done.
  - apply (fresh_calls Example.guard _ _ _ Example.split1_fresh), empty_sound.
  - apply (fresh_calls Example.guard _ _ _ Example.split2_fresh), empty_sound.
  - apply Example.splits_differ.
  - apply (fresh_calls Example.guard _ _ _ Example.split1_fresh), empty_sound.
  - apply (fresh_calls Example.guard _ _ _ Example.split2_fresh), empty_sound.
  - apply Example.splits_differ.
  - assert (Hr : r = 131072) by (apply Hok; [reflexivity|exact Example.mm0_heap_possible]). subst r.
    destruct Hm as [(_ & -> & _ & Hm)|(Hm & _)]; [|discriminate Hm]. exists mm', tsk'. split; [exact Hrun|]. split; [exact Hc|]. split; [exact Ht|exact Hm].
Defined.

(** ** Merging *)

(** C5: [vma_merge] of a range between two areas, at the end of the area before it or at the
    start of the area after it returns NULL with every page mapped as before, or an area of
    an address space in which exactly the pages of the range are mapped as asked for and
    all others as before: in all of its eight cases the right areas grow, shrink or go.
    NULL comes only with special flags, when neither neighbour fits, or when the anonymous
    memory could not be shared. *)
Theorem merge_maps stack_guard_gap mm clone_err A B addr end_ flags anon file pgoff name :
  0 <= stack_guard_gap < 2 ^ 32 -> 0 <= flags < 2 ^ 32 -> 0 <= addr < end_ /\ end_ < 2 ^ 32 -> addr mod PAGE_SIZE = 0 /\ end_ mod PAGE_SIZE = 0 ->
  sound stack_guard_gap mm -> vmacache_seqnum mm + 2 < 2 ^ 64 -> areas mm = A ++ B -> placed_at addr end_ mm A B ->
  exists mm' r, vma_merge stack_guard_gap clone_err mm (end_of Right A) addr end_ flags anon file pgoff name = Ret (mm', r) /\ carries_on stack_guard_gap mm mm'
    /\ ((r = 0 /\ (forall a, mapped mm' a = mapped mm a)
           /\ (Z.land flags VM_SPECIAL = 0 -> joins_prev flags anon file pgoff name addr mm A || joins_next flags anon file pgoff name addr end_ mm (beyond end_ mm B) = true -> clone_err <> 0))
        \/ (r ∈ areas mm' /\ forall a, mapped mm' a = if (addr <=? a) && (a <? end_) then Some (asked_page flags file name pgoff addr a) else mapped mm a)).
Proof.
  intros HG Hfl Hr Hp Hs Hsq Hl Hpl. pose proof Hs as Hsp. unfold sound in Hsp. rewrite Hl in Hsp. unfold mapped at 2 4. rewrite Hl.
  destruct (vma_merge_spec flags anon file pgoff name addr end_ Hfl Hr Hp stack_guard_gap mm clone_err HG Hsq A B Hsp Hpl) as (mm' & r & Hrun & Hres).
  exists mm', r. split; [exact Hrun|]. destruct Hres as [(-> & Hu & Hj)|(_ & l' & Hin & [Hsp' Hm [Hk _]] & _)].
  - pose proof (untouched_resplit stack_guard_gap _ _ _ Hsp Hu) as [Hsp' Hm _ _ _]. destruct (space_sound _ _ _ Hsp') as (_ & Hmap & _). rewrite Hmap.
    split; [eapply kept_carries_on; [done|]; rewrite Hl; exact (proj1 (untouched_kept _ _ _ _ Hu))|]. left. split; [done|]. split; [done|]. intros Hf Hjoin. apply Hj. by rewrite Hf, Hjoin.
  - destruct (space_sound _ _ _ Hsp') as (_ & Hmap & _). rewrite Hmap, (space_areas _ _ _ Hsp').
    split; [eapply kept_carries_on; [done|by rewrite Hl]|]. by right.
Qed.

(** A page after the heap. *)
Lemma merge_maps_witness : exists mm' r,
  vma_merge Example.guard 0 Example.mm1 4096 131072 135168 (brk_flags Example.env) 0 0 32 0 = Ret (mm', r) /\ carries_on Example.guard Example.mm1 mm'
  /\ r ∈ areas mm' /\ forall a, mapped mm' a = if (131072 <=? a) && (a <? 135168) then Some (asked_page (brk_flags Example.env) 0 0 32 131072 a) else mapped Example.mm1 a.
Proof.
  destruct (merge_maps Example.guard Example.mm1 0 [4096] [] 131072 135168 (brk_flags Example.env) 0 0 32 0) as (mm' & r & Hrun & Hc & Hm).
  - done.
  - done.
  - done.
  - done.
  - apply Example.mm1_sound.
  - by vm_compute.
  - by vm_compute.
  - apply at_gap; [|intros z Hz; by apply elem_of_nil in Hz]. intros z ->%list_elem_of_singleton. by vm_compute.
  - exists mm', r. split; [exact Hrun|]. split; [exact Hc|]. destruct Hm as [(_ & _ & Hj)|Hm]; [|exact Hm].
    exfalso. apply (Hj eq_refl); by vm_compute.
Defined.

(** ** Free ranges *)

(** C6: [vm_unmapped_area] returns, for any alignment and limits, an aligned range of the
    size asked for within the limits that meets no area, or -ENOMEM.  If the guard gaps of
    stacks keep the order of the areas, the range also meets no guard gap, it is the lowest
    (top-down: the highest) place up to alignment, and -ENOMEM means that there is none. *)
Theorem unmapped_area_best stack_guard_gap mm info n m :
  0 <= stack_guard_gap < 2 ^ 32 -> sound stack_guard_gap mm -> request n m info -> in_units stack_guard_gap m (vmas mm) (areas mm) ->
  exists a, vm_unmapped_area stack_guard_gap mm info = Ret a
    /\ (if negb (Z.land (info_flags info) VM_UNMAPPED_AREA_TOPDOWN =? 0) then highest stack_guard_gap (vmas mm) (areas mm) n info a
        else lowest stack_guard_gap (vmas mm) (areas mm) n info a).
Proof.
  intros HG [[R Hwf] _ _] Hrq Hu. unfold vm_unmapped_area. destruct (negb _).
  - by apply (unmapped_area_topdown_spec stack_guard_gap R _ mm HG Hwf n m info).
  - by apply (unmapped_area_spec stack_guard_gap R _ mm HG Hwf n m info).
Qed.

Lemma unmapped_area_best_witness : exists a, vm_unmapped_area Example.guard Example.mm1 (mk_info 0 8192 65536 TASK_SIZE 12288 0) = Ret a
  /\ lowest Example.guard (vmas Example.mm1) (areas Example.mm1) 14 (mk_info 0 8192 65536 TASK_SIZE 12288 0) a.
Proof.
  apply (unmapped_area_best Example.guard Example.mm1 (mk_info 0 8192 65536 TASK_SIZE 12288 0) 14 12).
  - done.
  - apply Example.mm1_sound.
  - by split.
  - assert (Hl : areas Example.mm1 = [4096]) by by vm_compute. rewrite Hl. intros x ->%list_elem_of_singleton. split; by vm_compute.
Defined.

(** ** The caches of a long-lived address space *)
Lemma find_vma_seqnum mm tsk addr tsk' r : find_vma mm tsk addr = Ret (tsk', r) -> task_seqnum tsk' = task_seqnum tsk \/ task_seqnum tsk' = u32 (vmacache_seqnum mm).
Proof.
  assert (Hv : task_seqnum (vmacache_valid mm tsk).1 = task_seqnum tsk \/ task_seqnum (vmacache_valid mm tsk).1 = u32 (vmacache_seqnum mm)).
  { unfold vmacache_valid. destruct (negb _); [by left|]. destruct (negb _); [by right|by left]. }
  intros H. unfold find_vma in H. bind_in H as [tsk1 r1] eqn Hf. assert (H1 : task_seqnum tsk1 = task_seqnum (vmacache_valid mm tsk).1).
  { unfold vmacache_find in Hf. destruct (vmacache_valid mm tsk) as [tsk2 []]; cbn [negb fst] in *; [bind_in Hf as r2 eqn Hs|]; by injection Hf as <- _. }
  rewrite <- H1 in Hv. destruct (negb (r1 =? 0)); [by injection H as <- _|]. bind_in H as r2 eqn Hl. destruct (negb (r2 =? 0)); [|by injection H as <- _].
  bind_in H as tsk2 eqn Hu. injection H as <- _. unfold vmacache_update in Hu. bind_in Hu as v eqn Hva. destruct (vmacache_valid_mm _ _); by injection Hu as <-.
Qed.

(** C7: Once the sequence number of an address space has passed 2^32, the caches of its tasks
    never hit again: the 64-bit number never equals the 32-bit one of a task, so that an
    address looked up with [find_vma] is not found by [vmacache_find] right after, and the
    cache is flushed.  The lookups are still right. *)
Theorem vmacache_stuck stack_guard_gap mm tsk addr : sound stack_guard_gap mm -> trusted mm tsk ->
  vmacache_valid_mm tsk (mm_addr mm) = true -> 0 <= task_seqnum tsk < 2 ^ 32 -> 2 ^ 32 <= vmacache_seqnum mm ->
  exists tsk' tsk'', find_vma mm tsk addr = Ret (tsk', end_of Left (above_addr (vmas mm) addr (areas mm)))
    /\ vmacache_find mm tsk' addr = Ret (tsk'', 0) /\ (forall p, p ∈ vmacache tsk'' -> p = 0)
    /\ 0 <= task_seqnum tsk' < 2 ^ 32.
Proof.
  intros [[R Hwf] _ Hsq] Ht Hv Hts Hbig. destruct (find_vma_spec stack_guard_gap R _ mm tsk addr Hwf Ht Hsq) as (tsk' & Hf & _ & Hm & Hfl).
  assert (Hseq : 0 <= task_seqnum tsk' < 2 ^ 32) by (destruct (find_vma_seqnum _ _ _ _ _ Hf) as [-> | ->]; [done|by apply Z.mod_pos_bound]).
  assert (Hv' : vmacache_valid_mm tsk' (mm_addr mm) = true) by (unfold vmacache_valid_mm; by rewrite Hm, Hfl).
  eexists tsk', _. split; [done|]. unfold vmacache_find, vmacache_valid. rewrite Hv', (proj2 (Z.eqb_neq _ _)) by lia. cbn [negb].
  split; [done|]. split; [|done]. intros p Hp. cbn [vmacache vmacache_flush] in Hp. by apply elem_of_replicate in Hp as [-> _].
Qed.

(** An address space with areas that has been changed often. *)
Definition with_seqnum (mm : mm_struct) (q : Z) : mm_struct := mk_mm (mm_addr mm) (vmas mm) (mm_rb mm) (mmap mm) (highest_vm_end mm) (map_count mm) q.

Lemma with_seqnum_sound guard mm q : sound guard mm -> 0 <= q -> sound guard (with_seqnum mm q).
Proof. intros [[R [? ? ? ? ? ? ? ?]] Hpg _] Hq. split; [exists R; by split|exact Hpg|done]. Qed.

Lemma vmacache_stuck_witness : let mm := with_seqnum Example.mm1 (2 ^ 32) in
  exists tsk' tsk'', find_vma mm Example.thread 70000 = Ret (tsk', end_of Left (above_addr (vmas mm) 70000 (areas mm)))
  /\ vmacache_find mm tsk' 70000 = Ret (tsk'', 0) /\ (forall p, p ∈ vmacache tsk'' -> p = 0) /\ 0 <= task_seqnum tsk' < 2 ^ 32.
Proof.
  apply (vmacache_stuck Example.guard (with_seqnum Example.mm1 (2 ^ 32)) Example.thread 70000).
  - apply with_seqnum_sound; [apply Example.mm1_sound|done].
  - apply Example.thread_ok. by vm_compute.
  - by vm_compute.
  - done.
  - done.
Defined.
